(* ===== verification/_CoqProject ===== *)
-Q . S2P
Prelude.v
BTree.v
Float64.v
StorageValue.v
Backend.v
Memory.v
MemoryTx.v
SkipList.v
Fjall.v
StorageKey.v
GranularKey.v
Identity.v
Replication.v
RaftSnapshot.v
RaftLog.v
RaftSM.v
Events.v
ObjectData.v
Shard.v
Metadata.v
Cluster.v
EntryStore.v
ObjectView.v
EntryOps.v
EntryList.v
ObjectShard.v
ObjectOps.v
ObjectApi.v
Mst.v
Placement.v
Collections.v
Routing.v
Json.v
Controller.v
Enforcer.v
Analyzer.v
Quorum.v
PmModel.v
PmUnits.v
PmCrm.v
PmDeploy.v
PmPackage.v
PmApi.v
NetSim.v
DataService.v
ShardNetwork.v
AnyStorage.v
ShardTx.v
ClassRuntime.v
Templates.v
CrmGrpc.v
Reconcile.v
Artifacts.v
Scripts.v
Gateway.v
ShardService.v
Invocation.v
WasmStore.v
Wasm.v
RaftGroup.v
ShardBuilder.v
EventFeed.v
