(* ===== verification/Prelude.v ===== *)
(** * OaaS-IoT: the data grid and its control plane

    A model of the core of OaaS-IoT and the theorems that make it correct. Paths are
    relative to [src/]; [odgm] is [data-plane/oprc-odgm/src], [dps] is
    [commons/oprc-dp-storage/src], [crm] is [control-plane/oprc-crm/src] and [pm] is
    [control-plane/oprc-pm/src]; [models], [cps] and [netsim] are the [src] of
    [commons/oprc-models], [commons/oprc-cp-storage] and [commons/oprc-netsim]; [invoke] is
    [commons/oprc-invoke/src], [gateway] is [data-plane/oprc-gateway/src] and [wasm] is
    [data-plane/oprc-wasm/src].

    ** The program

    A class of objects is deployed as a collection. The package manager ([pm]) keeps packages
    and deployments, decides how many environments a deployment needs and which, places the
    partitions of its collections on their nodes and sends a unit to each; the class runtime manager ([crm]) turns a class
    into Kubernetes workloads and into a request to the object data grid ([odgm]), watches its
    metrics and adapts the number of replicas; the grid
    creates a shard for every partition replica on its node. A shard keeps objects as single
    records in an ordered byte store (metadata, event configuration, one record per entry).
    It reads the store directly and writes through a replication layer, which is nothing, a
    Raft group or a Merkle search tree exchanged with peers. A mutation also puts an event on
    a bounded queue, from which triggers are fired and broadcasts are sent. Clients come through
    the gateway, which asks the shard of an object over the network; a call of a function goes on
    from the shard to a container or a WASM module. For experiments the
    links between environments can be partitioned and delayed.

    ** Files

    Foundations:
    - [Prelude]: bytes, machine integers with their wrap-around, comparison classes, the
      result type [res] (success, error, panic) and the state monad [M] of the handlers.
    - [BTree]: [BTreeMap] as a sorted association list, with the panic of inverted ranges.
    - [Float64]: [f64] as the binary64 numbers of the kernel's [SpecFloat], with its casts.

    Storage ([dps]):
    - [StorageValue]: [storage_value.rs].
    - [Backend]: the trait [StorageBackend] as the class [Storage] with [StorageLaws].
    - [Memory]: [backends/memory.rs], [atomic_stats.rs]; an instance of the laws.
    - [MemoryTx]: [MemoryTransaction] of [backends/memory.rs].
    - [SkipList]: [backends/skiplist.rs], over the class [SkipMap] of the crossbeam map.
    - [Fjall]: [backends/fjall/{backend,snapshot,transaction}.rs], over the class [Keyspace] of
      the fjall database, whose calls may fail.
    - [AnyStorage]: [any_storage.rs], [config.rs] and the storage options of
      [odgm/shard/builder.rs]; an instance of the laws of storage and snapshots.

    Records of objects ([odgm]):
    - [StorageKey]: [storage_key.rs]. [GranularKey]: [granular_key.rs].
      [Identity]: [identity.rs]. [ObjectData]: [shard/basic.rs].

    Replication ([odgm/replication]):
    - [Replication]: [mod.rs] and [no_replication.rs]; the trait [ReplicationLayer] as a
      class with [ReplicationLaws].
    - [RaftSnapshot]: [raft/raft_snapshot.rs], [raft/raft_snapshot_stream.rs].
    - [RaftLog]: [raft/raft_log.rs]. [RaftSM]: [raft/state_machine.rs] and the leader's
      path of [raft/raft_layer.rs]; an instance of [ReplicationLaws]. [RaftGroup]: the rest of
      [raft/raft_layer.rs], a node of a group of which it may not be the leader.
    - [Mst]: [mst/*.rs]; the exchange between peers.

    Shards ([odgm]):
    - [Events]: [events/*.rs]; [Events.Queue] is a step relation over interleavings of
      senders and consumer.
    - [Shard]: the state of [ObjectUnifiedShard]. [EntryStore]: [shard/entry_store_impl.rs].
      [ObjectShard]: [shard/object_shard/core.rs] and [trait_impl.rs].
    - [ObjectView]: the abstract objects a store holds, against which the operations are
      specified. [EntryOps], [EntryList], [ObjectOps]: the theorems.
    - [ObjectApi]: [shard/object_api.rs].
    - [DataService]: [grpc_service/data.rs]. [ShardNetwork]: [shard/network/*.rs].
    - [ShardTx]: [shard/object_shard/transaction.rs], against an interface that [AnyStorage]
      implements.
    - [ShardBuilder]: [shard/builder.rs], [new_full] to [close] of [shard/object_shard/*.rs], the
      start of [replication/mst/mst_layer.rs], [create_shard] of [shard/manager.rs] and the start
      of the server in [lib.rs]: it puts the parts above together and fills the factory that
      [Cluster] takes as a parameter.

    Clients and functions:
    - [Gateway]: [invoke/proxy.rs], [gateway/error.rs], [metrics.rs] and
      [handler/{rest,grpc}.rs].
    - [ShardService]: [odgm/shard/network/mod.rs]; what a client of the gateway sees of a shard.
    - [Invocation]: [invoke/{lib,route,conn,local,handler}.rs], [odgm/shard/invocation/*.rs],
      [shard/liveliness.rs] and the calls of [shard/object_shard/trait_impl.rs].
    - [EventFeed]: the publication in [odgm/events/dispatcher.rs] and [gateway/handler/ws.rs].
    - [WasmStore]: [wasm/store.rs]. [Wasm]: [wasm/{host,object_host,executor,adapter}.rs], the
      types of [wit/oaas.wit] and [odgm/wasm_bridge.rs]; a guest is the tree of its calls.

    Cluster ([odgm]) and control plane:
    - [Metadata]: [metadata/mod.rs]. [Cluster]: [shard/manager.rs] and [cluster.rs].
    - [Placement]: [pm/services/deployment/shard_assignments.rs] and its caller in
      [units.rs].
    - [Collections]: [crm/collections.rs]. [Routing]: [crm/routing.rs] and
      [dns1035_safe] of [templates/manager.rs].
    - [ClassRuntime]: [crm/crd/class_runtime.rs], texts, and the Kubernetes objects that are
      rendered. [Templates]: [crm/templates/*.rs]. [CrmGrpc]:
      [crm/grpc/{builders/class_runtime,helpers,deployment}.rs].
    - [Controller]: [crm/controller/fsm], [status.rs], [status_reducer.rs] and the part of
      [reconcile.rs] that computes the status. [Reconcile]: [crm/controller/reconcile.rs],
      [fsm/observed_lister.rs], [cache.rs] and the profiles of [crm/config/types.rs].
    - [Json]: the JSON values of recommendations. [Enforcer]: [crm/controller/enforcer.rs],
      [hpa_helper.rs]. [Analyzer]: [crm/controller/analyzer.rs] and [crm/nfr/mod.rs].
    - [Quorum]: the replica computation of [pm/services/deployment/workflow.rs].
    - [PmModel]: [models/*.rs], [cps/traits.rs] as classes with laws and [cps/memory/mod.rs] as
      their instance. [PmUnits]: [units.rs]. [PmCrm]: [pm/crm/manager.rs].
    - [PmDeploy]: [pm/services/deployment/workflow.rs] and [requirements.rs].
      [PmPackage]: [pm/services/package.rs] and [validation.rs].
      [PmApi]: [pm/api/handlers/*.rs] (packages, deployments, clusters, topology).
    - [Artifacts]: [pm/services/artifact.rs]; both stores are instances of [ArtifactLaws].
      [Scripts]: [pm/services/{compiler,script}.rs] and [pm/api/handlers/script.rs].
    - [NetSim]: [netsim/*.rs], [data-plane/oprc-router/src/netsim.rs], [crm/grpc/netsim.rs] and
      [pm/services/netsim.rs].

    ** How the code is modelled

    A handler is a function from the state before to a [res] and the state after: [Ok],
    [Err] with the error type of the source, or [Panic] with the message. State reached
    before an error is kept, so partial effects are visible. Integers are [Z] within their
    width; where the source adds without a check the argument [checks] says whether the build
    panics on overflow or wraps. A [HashMap] argument is the list of its pairs in iteration
    order. Handlers that hold a lock throughout are single steps; where the interleaving
    matters ([Events.Queue], the builder of a snapshot in [RaftSM]) it is explicit.

    Code outside the repository is a parameter: postcard and prost codecs, JSON of the log
    ([RaftLog.Json] with [JsonLaws]), automerge ([am_merge]), the Merkle search tree (the
    pages it asks for), the identifiers, memberships and votes of OpenRaft, the crossbeam skip
    map, the fjall database, the protobuf decoders of the queryables, the calendar ([Enforcer.Chrono]), the Kubernetes cluster and Prometheus
    ([Enforcer.Cluster], [CrmGrpc.Kube], [Reconcile.Cluster]), the class runtime managers as the package manager sees them
    ([PmCrm.CrmWorld]), the compiler service ([Scripts.CompilerWorld]), the file system
    ([Artifacts.FileSystemLaws]) and the hash of modules, Zenoh sessions and the matching of key
    expressions ([Gateway.ZSession], [ShardService.ShardSession], [ShardService.KeyExprs]), the
    functions and their connections ([Invocation.FnWorld]), the servers modules come from
    ([WasmStore.Web]), the compiler and the modules themselves ([WasmStore.Engine],
    [Wasm.Runtime]), an OpenRaft instance with the calls to other nodes ([RaftGroup.RaftNode]), the
    environment of the server, the clock and random numbers. A world
    of the last kind answers as a function of all requests made so far, so that it may change
    its answers in any way, and the log of the requests is part of the state. What is assumed of one is a law of a class or a hypothesis of
    a section, and a witness instantiates it.

    ** What is proved

    - Storage: the memory backend keeps [StorageLaws]; pagination visits every pair once; a
      transaction reads its own writes and commits them; the skip-list backend answers every
      sequence of calls as the memory backend does, and so does fjall but for what [put]
      returns; whichever is chosen at run time, snapshots move the pairs from any kind to any
      other and committed transactions do the same; the storage a shard is given by default
      keeps the laws that all theorems on shards and Raft assume.
    - Records: keys and metadata parse back to what was encoded; distinct records have
      distinct keys; normalised identifiers fit the key layout.
    - Entries and objects, for every backend and replication layer that keeps its laws: each
      operation does to the view exactly what it should and nothing else, with the version
      and event it should; batches are compare-and-set; listings are complete, resumable and
      terminate; a read returns the stored object. Through the gRPC service and the network, a
      value or object that was set is read back under every spelling of its address, batches are
      compare-and-set, addresses parse back, and a request touches one shard and never panics.
    - Clients: an object put through the gateway is read back, and a method called through it is
      run once by the endpoint of its function; retries end; endpoints of standby functions follow
      the members that live. A WebSocket client is sent the events it subscribed to, each once and in
      order ([EventFeed.subscribers_see_their_events]).
    - WASM functions: whatever modules do, with all they invoke in turn and also when they trap,
      the shard keeps its invariant and only the objects they address change; a field that is set
      is read back with the next version; the executor of a shard has the modules of its routes and
      no others; fetching one ends after six requests and sends credentials only when asked.
    - Replication: the Raft state machine, applied to a log, does what the layer without
      replication does; snapshots transfer the map, also while the leader goes on; the log
      store refines an abstract log; a request on any node of a group is carried out on one map as a
      single node does, at most once when it fails, and of the shards of a partition one starts the
      group ([RaftGroup]); MST peers converge when the merge function is symmetric,
      and [Mst.lww_agrees_iff] says exactly when the built-in one is.
    - Events: first in, first out, within the bound, each event accepted or dropped once;
      triggers run for the first changed keys up to the cap.
    - Cluster and control plane: a created collection is placed in rotation on the members
      and served by them after the next round of the watch loop, by shards that are built, ready and
      reachable ([ShardBuilder.collection_comes_up]); the package manager
      chooses the same placement, the class runtime manager lets exactly the well-formed
      assignments through and the grid carries them out; the controller's phase, orphan
      deletion and status are exactly characterised and the status is stable.
    - Class runtimes: the template of the best score is chosen, what it renders does not depend
      on the order of hash maps, and when it renders, fails or panics is characterised; every
      function in a container is reached under its predicted route; the routes of a deployment
      unit lead to their functions; deploying is idempotent for sanitised identifiers;
      reconciliation converges in one round, prunes exactly the orphans and cleans up exactly
      the children of a deleted runtime, on every cluster that keeps [Reconcile.ClusterLaws].
    - Scaling: the enforcer applies a target only when it was stable for its window and
      outside the cooldown, and then does; replicas stay within their bounds; retries end. The
      analyzer publishes what it caches.
    - Package manager: in every reachable state the registry is valid and a package is deleted
      with its deployments; the number of replicas is bounded, is the least that reaches the
      availability, and that availability is the probability of a majority; the environments
      chosen are the best; dispatching ends, its outcome is exactly characterised on every
      answer of the clusters, and deleting undoes deploying; every partition has a replica in
      every environment of the deployment; the topology is a graph. What is served as a module has
      the hash it is served under, whatever the names of sources; a script that was built is
      served with its source; compiling ends; deploying a script puts its package in place.
    - Network simulation: the routers commanded by the package manager refine the matrix of the
      development server when no command is lost.
    - Where the code departs from what it says, a theorem shows the departure on the model,
      among others [Mst.deleted_key_returns], [ObjectOps.write_after_delete_invisible],
      [EntryList.list_prefix_misses], [Collections.second_collection_takes_over],
      [Metadata.missing_ids_take_over], [Routing.function_name_too_long],
      [Enforcer.clock_set_back_applies], [PmApi.class_runtime_search],
      [SkipList.skiplist_transaction_writes_through], [NetSim.partition_one_sided],
      [DataService.DemoService.set_key_unreadable],
      [ShardNetwork.DemoNetwork.numeric_delete_hits_metadata],
      [AnyStorage.DemoAny.raft_on_fjall_reports_reversed],
      [ShardTx.DemoShardTx.transaction_objects_invisible],
      [Templates.DemoTemplates.knative_panics],
      [CrmGrpc.DemoCluster.dropped_function_shifts],
      [Reconcile.DemoReconcile.generation_not_recorded], [Artifacts.DemoFs.source_escapes],
      [Scripts.script_units_empty], [ShardService.DemoGateway.failed_start_is_final],
      [Invocation.DemoInvocation.failure_is_200], [Wasm.recursion_not_stopped],
      [Wasm.DemoWasm.remote_calls_use_up_depth], [RaftGroup.replicas_cannot_change],
      [RaftGroup.DemoRaft.follower_versions_repeat], [ShardBuilder.sync_events_ignore_server],
      [ShardBuilder.nameless_node_runs_nothing] and [EventFeed.any_object].

    ** Fuel

    The page loops of [EntryStore] and [ObjectShard] and the polling loops of [RaftSnapshot]
    take fuel. More fuel than stored records is enough for a page loop, because every round
    moves the cursor past at least one record, and twice the length of the stream is enough
    to drain a snapshot; the theorems state these bounds and conclude that a result is
    returned. [to_decimal] gets the 10 digits a 32-bit number can have, or the 20 of a 64-bit one. Retries recurse on the
    number of attempts that are left. [Wasm.Node.executor n] has room for [n] nested invocations;
    the theorems hold for every [n]. Everything else is structural.

    ** Not modelled

    Third-party code: OpenRaft (elections, commitment), the Merkle search tree, Zenoh and gRPC
    transport, wasmtime and what WASI gives to guests, Kubernetes and HTTP, redb. What only
    passes to and from it has no logic to state: the RPC plumbing of Raft messages, the router,
    the gRPC servers and their reflection, the etcd store, the tracing and metrics set-up, the reading of configuration by derive macros. The
    code of functions is arbitrary. The transactional variant of fjall is not built into the grid,
    and the files under [odgm/shard/unified] belong to no module of the crate and are not compiled.
    Command-line tools, development servers, generators of test data and the user interface are not
    part of the system that is deployed. *)

From stdpp Require Import base tactics list list_numbers numbers option gmap strings sorting.
From Stdlib Require Import ZArith Lia.
From Stdlib Require Strings.Byte.

Set Default Proof Using "Type".

(** * Bytes and byte strings *)

Notation byte := (Init.Byte.byte).

(** A Rust [Vec<u8>], [&[u8]] or (UTF-8) [String]. *)
Notation bytes := (list byte).

#[global] Instance byte_eq_dec : EqDecision byte := Byte.byte_eq_dec.

#[global] Program Instance byte_countable : Countable byte :=
  inj_countable Byte.to_N Byte.of_N _.
Next Obligation. intros b. apply Byte.of_to_N. Qed.

#[global] Instance byte_inhabited : Inhabited byte := populate Byte.x00.

(** The value of a byte, and the byte of an integer ([as u8]: the low 8 bits). *)
Definition bz (b : byte) : Z := Z.of_N (Byte.to_N b).
Definition zb (z : Z) : byte := default Byte.x00 (Byte.of_N (Z.to_N (z mod 256))).

(** The bytes of an ASCII literal. *)
Definition bs (s : string) : bytes := String.list_byte_of_string s.

Lemma bz_range b : (0 ≤ bz b < 256)%Z.
Proof.
  unfold bz. pose proof (Byte.to_N_bounded b). lia.
Qed.

Lemma bz_inj b c : bz b = bz c → b = c.
Proof.
  unfold bz. intros H%N2Z.inj.
  pose proof (Byte.of_to_N b) as Hb. rewrite H, Byte.of_to_N in Hb. congruence.
Qed.

Lemma bz_zb z : bz (zb z) = (z mod 256)%Z.
Proof.
  unfold bz, zb. pose proof (Z.mod_pos_bound z 256 ltac:(lia)) as Hr.
  destruct (Byte.of_N _) as [b|] eqn:E; simpl.
  - apply Byte.to_of_N in E. rewrite E. lia.
  - apply Byte.of_N_None_iff in E. lia.
Qed.

Lemma bz_zb_small z : (0 ≤ z < 256)%Z → bz (zb z) = z.
Proof. intros. rewrite bz_zb. by apply Z.mod_small. Qed.

Lemma zb_bz b : zb (bz b) = b.
Proof. apply bz_inj. apply bz_zb_small, bz_range. Qed.

(** * Machine integers *)

Definition u8_max : Z := 2 ^ 8 - 1.
Definition u16_max : Z := 2 ^ 16 - 1.
Definition u32_max : Z := 2 ^ 32 - 1.
Definition u64_max : Z := 2 ^ 64 - 1.

Definition is_u16 (z : Z) : Prop := (0 ≤ z ≤ u16_max)%Z.
Definition is_u64 (z : Z) : Prop := (0 ≤ z ≤ u64_max)%Z.

(** [x as u16], [fetch_add] on an [AtomicU64] (wrapping) and [u64::saturating_add]. *)
Definition as_u16 (z : Z) : Z := (z mod 2 ^ 16)%Z.
Definition wrap64 (z : Z) : Z := (z mod 2 ^ 64)%Z.
Definition sat_add64 (a b : Z) : Z := Z.min (a + b) u64_max.

Lemma wrap64_range z : is_u64 (wrap64 z).
Proof. unfold is_u64, wrap64, u64_max. pose proof (Z.mod_pos_bound z (2 ^ 64)). lia. Qed.

Lemma wrap64_small z : is_u64 z → wrap64 z = z.
Proof. unfold is_u64, wrap64, u64_max. intros. apply Z.mod_small. lia. Qed.

Lemma sat_add64_range a b : is_u64 a → is_u64 b → is_u64 (sat_add64 a b).
Proof. unfold is_u64, sat_add64, u64_max. lia. Qed.

(** * Little- and big-endian encodings ([to_le_bytes], [to_be_bytes]) *)

Fixpoint le_bytes (n : nat) (z : Z) : bytes :=
  match n with
  | O => []
  | S n => zb z :: le_bytes n (z / 256)
  end.

Fixpoint le_val (l : bytes) : Z :=
  match l with
  | [] => 0
  | b :: l => bz b + 256 * le_val l
  end.

Definition be_bytes (n : nat) (z : Z) : bytes := reverse (le_bytes n z).
Definition be_val (l : bytes) : Z := le_val (reverse l).

Lemma le_bytes_length n z : length (le_bytes n z) = n.
Proof. revert z. induction n; intros; simpl; auto. Qed.

Lemma be_bytes_length n z : length (be_bytes n z) = n.
Proof. unfold be_bytes. by rewrite length_reverse, le_bytes_length. Qed.

Lemma le_val_range l : (0 ≤ le_val l < 256 ^ Z.of_nat (length l))%Z.
Proof.
  induction l as [|b l IH]; [simpl; lia|].
  cbn [le_val length]. rewrite Nat2Z.inj_succ, Z.pow_succ_r by lia.
  pose proof (bz_range b). lia.
Qed.

Lemma le_val_bytes n z : le_val (le_bytes n z) = (z mod 256 ^ Z.of_nat n)%Z.
Proof.
  revert z. induction n as [|n IH]; intros z.
  - simpl. by rewrite Z.mod_1_r.
  - cbn [le_bytes le_val]. rewrite IH, bz_zb, Nat2Z.inj_succ, Z.pow_succ_r by lia.
    rewrite Z.rem_mul_r by (try apply Z.pow_nonzero; try apply Z.pow_pos_nonneg; lia). lia.
Qed.

Lemma le_bytes_val l : le_bytes (length l) (le_val l) = l.
Proof.
  induction l as [|b l IH]; [done|]. cbn [le_bytes le_val length].
  pose proof (bz_range b) as Hb. f_equal.
  - apply bz_inj. rewrite bz_zb, (Z.mul_comm 256), Z_mod_plus_full.
    by apply Z.mod_small.
  - replace ((bz b + 256 * le_val l) / 256)%Z with (le_val l); [done|].
    rewrite (Z.mul_comm 256), Z_div_plus, (Z.div_small (bz b)) by lia. lia.
Qed.

Lemma le_val_bytes_small n z : (0 ≤ z < 256 ^ Z.of_nat n)%Z → le_val (le_bytes n z) = z.
Proof. intros. rewrite le_val_bytes. by apply Z.mod_small. Qed.

Lemma be_val_bytes_small n z : (0 ≤ z < 256 ^ Z.of_nat n)%Z → be_val (be_bytes n z) = z.
Proof. intros. unfold be_val, be_bytes. rewrite reverse_involutive. by apply le_val_bytes_small. Qed.

Lemma be_bytes_val l : be_bytes (length l) (be_val l) = l.
Proof.
  unfold be_val, be_bytes. rewrite <- (length_reverse l), le_bytes_val.
  apply reverse_involutive.
Qed.

(** * Total orders ([Ord]) *)

Class TotalCmp (K : Type) := {
  cmp : K → K → comparison;
  cmp_eq x y : cmp x y = Eq ↔ x = y;
  cmp_flip x y : cmp y x = CompOpp (cmp x y);
  cmp_trans x y z : cmp x y = Lt → cmp y z = Lt → cmp x z = Lt;
}.

Section total_cmp.
Context `{TotalCmp K}.
Implicit Types x y z : K.

(** [x < y] and [x <= y] of [Ord], as booleans. *)
Definition ltb x y : bool := match cmp x y with Lt => true | _ => false end.
Definition leb x y : bool := match cmp x y with Gt => false | _ => true end.

Lemma cmp_refl x : cmp x x = Eq.
Proof. by apply cmp_eq. Qed.

Lemma ltb_lt x y : ltb x y = true ↔ cmp x y = Lt.
Proof. unfold ltb. destruct (cmp x y); intuition congruence. Qed.

Lemma leb_spec x y : leb x y = true ↔ cmp x y = Lt ∨ x = y.
Proof. unfold leb. rewrite <- cmp_eq. destruct (cmp x y); intuition congruence. Qed.

Lemma leb_ltb x y : leb x y = negb (ltb y x).
Proof. unfold leb, ltb. rewrite (cmp_flip x y). by destruct (cmp x y). Qed.

Lemma cmp_gt x y : cmp x y = Gt ↔ cmp y x = Lt.
Proof. rewrite (cmp_flip x y). destruct (cmp x y); simpl; intuition congruence. Qed.

Lemma cmp_irrefl x : cmp x x ≠ Lt.
Proof. by rewrite cmp_refl. Qed.

Lemma cmp_lt_ne x y : cmp x y = Lt → x ≠ y.
Proof. intros E ->. by rewrite cmp_refl in E. Qed.

Lemma leb_trans x y z : leb x y = true → leb y z = true → leb x z = true.
Proof. rewrite !leb_spec. intros [?| ->] [?| ->]; eauto using cmp_trans. Qed.

Lemma leb_refl x : leb x x = true.
Proof. rewrite leb_spec. auto. Qed.

Lemma lt_le_trans x y z : cmp x y = Lt → leb y z = true → cmp x z = Lt.
Proof. rewrite leb_spec. intros ? [?| ->]; eauto using cmp_trans. Qed.

Lemma le_lt_trans x y z : leb x y = true → cmp y z = Lt → cmp x z = Lt.
Proof. rewrite leb_spec. intros [?| ->] ?; eauto using cmp_trans. Qed.
End total_cmp.

#[global] Program Instance Z_total_cmp : TotalCmp Z := {| cmp := Z.compare |}.
Next Obligation. apply Z.compare_eq_iff. Qed.
Next Obligation. intros. apply Z.compare_antisym. Qed.
Next Obligation. intros x y z. rewrite !Z.compare_lt_iff. lia. Qed.

(** Slices compare lexicographically ([<[u8] as Ord>::cmp]). *)
Fixpoint bytes_cmp (l k : bytes) : comparison :=
  match l, k with
  | [], [] => Eq
  | [], _ :: _ => Lt
  | _ :: _, [] => Gt
  | a :: l, b :: k =>
      match Z.compare (bz a) (bz b) with Eq => bytes_cmp l k | c => c end
  end.

#[global] Program Instance bytes_total_cmp : TotalCmp bytes := {| cmp := bytes_cmp |}.
Next Obligation.
  induction x as [|a x IH]; intros [|b y]; simpl; try naive_solver.
  destruct (Z.compare_spec (bz a) (bz b)) as [E|E|E].
  - apply bz_inj in E as ->. rewrite IH. naive_solver.
  - split; [done|]. intros [= -> ->]. lia.
  - split; [done|]. intros [= -> ->]. lia.
Qed.
Next Obligation.
  induction x as [|a x IH]; intros [|b y]; simpl; try done.
  rewrite (Z.compare_antisym (bz a) (bz b)).
  destruct (bz a ?= bz b)%Z; simpl; auto.
Qed.
Next Obligation.
  induction x as [|a x IH]; intros [|b y] [|c z]; simpl; try done.
  destruct (Z.compare_spec (bz a) (bz b)) as [E|E|E]; try done;
    destruct (Z.compare_spec (bz b) (bz c)) as [F|F|F]; try done; intros.
  - rewrite E, F, Z.compare_refl. eauto.
  - rewrite E. by rewrite (proj2 (Z.compare_lt_iff _ _) F).
  - rewrite <- F. by rewrite (proj2 (Z.compare_lt_iff _ _) E).
  - rewrite (proj2 (Z.compare_lt_iff _ _)); [done|lia].
Qed.

(** * Prefixes of byte strings *)

(** [starts_with] of slices and of [str]. *)
Fixpoint starts_with (p l : bytes) : bool :=
  match p, l with
  | [], _ => true
  | a :: p, b :: l => bool_decide (a = b) && starts_with p l
  | _ :: _, [] => false
  end.

Lemma starts_with_spec p l : starts_with p l = true ↔ ∃ r, l = p ++ r.
Proof.
  revert l. induction p as [|a p IH]; intros l; simpl; [naive_solver|].
  destruct l as [|b l]; [naive_solver|].
  rewrite andb_true_iff, bool_decide_eq_true, IH. naive_solver.
Qed.

Lemma starts_with_app p r : starts_with p (p ++ r) = true.
Proof. apply starts_with_spec. eauto. Qed.

Lemma cmp_app_same (p x y : bytes) : cmp (p ++ x) (p ++ y) = cmp x y.
Proof. simpl. induction p as [|a p IH]; simpl; [done|]. by rewrite Z.compare_refl. Qed.

Lemma cmp_prefix (p r : bytes) : leb p (p ++ r) = true.
Proof.
  unfold leb. rewrite <- (app_nil_r p) at 1. rewrite cmp_app_same. by destruct r.
Qed.

(** Keys starting with [q ++ [b]] are exactly those in the half-open interval up to
    the same string with its last byte incremented. *)
Lemma prefix_range (q k : bytes) (b c : byte) :
  bz c = (bz b + 1)%Z →
  leb (q ++ [b]) k && ltb k (q ++ [c]) = starts_with (q ++ [b]) k.
Proof.
  intros Hc. revert k. unfold leb, ltb. simpl.
  induction q as [|a q IH]; intros [|d k]; simpl; [done| |done|].
  - destruct (Z.compare_spec (bz b) (bz d)) as [E|E|E].
    + apply bz_inj in E as ->. rewrite bool_decide_true by done.
      replace (bz d ?= bz c)%Z with Lt by (symmetry; apply Z.compare_lt_iff; lia).
      by destruct k.
    + rewrite bool_decide_false by (intros ->; lia).
      destruct (Z.compare_spec (bz d) (bz c)); [by destruct k|lia|done].
    + by rewrite bool_decide_false by (intros ->; lia).
  - destruct (Z.compare_spec (bz a) (bz d)) as [E|E|E].
    + apply bz_inj in E as ->. rewrite bool_decide_true by done.
      rewrite Z.compare_refl. apply IH.
    + rewrite bool_decide_false by (intros ->; lia).
      destruct (Z.compare_spec (bz d) (bz a)); [lia|lia|done].
    + by rewrite bool_decide_false by (intros ->; lia).
Qed.

#[global] Arguments cmp : simpl never.

Lemma leb_nil_l (k : bytes) : leb [] k = true.
Proof. by destruct k. Qed.

(** * UTF-8 ([str::from_utf8]): Unicode table 3-7 *)

Definition in_range (lo hi : Z) (b : byte) : bool := (lo <=? bz b)%Z && (bz b <=? hi)%Z.
Definition utf8_tail (b : byte) : bool := in_range 128 191 b.

(** Admissible second bytes of a three- and a four-byte sequence. *)
Definition utf8_second3 (a b : byte) : bool :=
  if (bz a =? 224)%Z then in_range 160 191 b
  else if (bz a =? 237)%Z then in_range 128 159 b else utf8_tail b.
Definition utf8_second4 (a b : byte) : bool :=
  if (bz a =? 240)%Z then in_range 144 191 b
  else if (bz a =? 244)%Z then in_range 128 143 b else utf8_tail b.

Fixpoint valid_utf8 (l : bytes) : bool :=
  match l with
  | [] => true
  | a :: r1 =>
      if (bz a <? 128)%Z then valid_utf8 r1
      else match r1 with
      | [] => false
      | b :: r2 =>
          if in_range 194 223 a then utf8_tail b && valid_utf8 r2
          else match r2 with
          | [] => false
          | c :: r3 =>
              if in_range 224 239 a then utf8_second3 a b && utf8_tail c && valid_utf8 r3
              else match r3 with
              | [] => false
              | d :: r4 =>
                  in_range 240 244 a && utf8_second4 a b && utf8_tail c && utf8_tail d
                  && valid_utf8 r4
              end
          end
      end
  end.

(** [String::from_utf8(v).ok()] *)
Definition from_utf8 (l : bytes) : option bytes := if valid_utf8 l then Some l else None.

Lemma valid_utf8_ascii l : Forall (λ b, bz b < 128)%Z l → valid_utf8 l = true.
Proof.
  induction 1 as [|b l Hb _ IH]; simpl; [done|].
  by rewrite (proj2 (Z.ltb_lt _ _) Hb).
Qed.

Lemma from_utf8_valid l : valid_utf8 l = true → from_utf8 l = Some l.
Proof. unfold from_utf8. by intros ->. Qed.

(** * Fallible and stateful computations *)

(** The outcome of a call: a value, an error ([Err]) or a panic of the task. *)
Inductive res (E A : Type) : Type :=
| Ok (a : A)
| Err (e : E)
| Panic (msg : string).
Arguments Ok {E A} a.
Arguments Err {E A} e.
Arguments Panic {E A} msg.

Definition res_bind {E A B} (m : res E A) (f : A → res E B) : res E B :=
  match m with Ok a => f a | Err e => Err e | Panic s => Panic s end.

Definition res_map_err {E F A} (f : E → F) (m : res E A) : res F A :=
  match m with Ok a => Ok a | Err e => Err (f e) | Panic s => Panic s end.

Definition ok_opt {E A} (m : res E A) : option A :=
  match m with Ok a => Some a | _ => None end.

(** [a + b] on [u64]: a panic with overflow checks, wrapping without. *)
Definition add_u64 {E} (checks : bool) (a b : Z) : res E Z :=
  if (a + b <=? u64_max)%Z then Ok (a + b)%Z
  else if checks then Panic "attempt to add with overflow" else Ok (wrap64 (a + b)).

(** The same on [u32]. *)
Definition add_u32 {E} (checks : bool) (a b : Z) : res E Z :=
  if (a + b <=? u32_max)%Z then Ok (a + b)%Z
  else if checks then Panic "attempt to add with overflow"
  else Ok ((a + b) mod 2 ^ 32)%Z.

(** Calls on a mutable state [S]: the state reached is kept on errors, as nothing
    in the code rolls it back. *)
Definition M (S E A : Type) : Type := S → res E A * S.

Section monad.
Context {S E : Type}.

Definition ret {A} (a : A) : M S E A := λ s, (Ok a, s).
Definition throw {A} (e : E) : M S E A := λ s, (Err e, s).
Definition panic {A} (msg : string) : M S E A := λ s, (Panic msg, s).
Definition bind {A B} (m : M S E A) (f : A → M S E B) : M S E B :=
  λ s, match m s with
       | (Ok a, s') => f a s'
       | (Err e, s') => (Err e, s')
       | (Panic p, s') => (Panic p, s')
       end.
Definition gets {A} (f : S → A) : M S E A := λ s, (Ok (f s), s).
Definition modify (f : S → S) : M S E unit := λ s, (Ok tt, f s).
Definition lift_res {A} (r : res E A) : M S E A := λ s, (r, s).

Lemma bind_ret {A B} (a : A) (f : A → M S E B) s : bind (ret a) f s = f a s.
Proof. done. Qed.

Lemma bind_ok {A B} (m : M S E A) (f : A → M S E B) s a s' :
  m s = (Ok a, s') → bind m f s = f a s'.
Proof. unfold bind. by intros ->. Qed.

Lemma bind_err {A B} (m : M S E A) (f : A → M S E B) s e s' :
  m s = (Err e, s') → bind m f s = (Err e, s').
Proof. unfold bind. by intros ->. Qed.

Lemma bind_gets {A B} (f : S → A) (k : A → M S E B) s : bind (gets f) k s = k (f s) s.
Proof. done. Qed.
Lemma bind_modify {B} (f : S → S) (k : unit → M S E B) s : bind (modify f) k s = k tt (f s).
Proof. done. Qed.

Lemma bind_assoc {A B C} (m : M S E A) (f : A → M S E B) (g : B → M S E C) s :
  bind (bind m f) g s = bind m (λ a, bind (f a) g) s.
Proof. unfold bind. by destruct (m s) as [[] ?]. Qed.
End monad.

(** [Result::map_err] on a stateful call. *)
Definition map_err {S E F A} (f : E → F) (m : M S E A) : M S F A :=
  λ s, match m s with (r, s') => (res_map_err f r, s') end.

Declare Scope prog_scope.
Delimit Scope prog_scope with prog.
Notation "'let!' x ':=' m 'in' k" := (bind m (λ x, k))
  (at level 100, x pattern, m at level 100, k at level 200, right associativity) : prog_scope.
Notation "m ';;;' k" := (bind m (λ _, k))
  (at level 100, k at level 200, right associativity) : prog_scope.

(** [for x in xs { body }] with [?] inside the body. *)
Definition for_each {S E A B} (body : A → M S E B) : list A → M S E unit :=
  fix go xs := match xs with
               | [] => ret tt
               | x :: xs => bind (body x) (λ _, go xs)
               end.

(** A call on a field of a larger state. *)
Definition zoom {R S E A} (get : R → S) (set : S → R → R) (m : M S E A) : M R E A :=
  λ r, match m (get r) with (a, s) => (a, set s r) end.

Lemma zoom_eq {R S E A} (get : R → S) (set : S → R → R) (m : M S E A) r a s :
  m (get r) = (a, s) → zoom get set m r = (a, set s r).
Proof. unfold zoom. by intros ->. Qed.

(** A [Result] that is matched on instead of propagated. *)
Definition tried {S E F A} (c : M S E A) : M S F (E + A) := λ s,
  match c s with
  | (Ok a, s') => (Ok (inr a), s')
  | (Err e, s') => (Ok (inl e), s')
  | (Panic p, s') => (Panic p, s')
  end.

(** A run that is looked at, and goes on. *)
Lemma bind_tried_ok {S E A E' B} (c : M S E A) (k : E + A → M S E' B) s a s1 :
  c s = (Ok a, s1) → bind (tried c) k s = k (inr a) s1.
Proof. unfold bind, tried. by intros ->. Qed.
Lemma bind_tried_err {S E A E' B} (c : M S E A) (k : E + A → M S E' B) s e s1 :
  c s = (Err e, s1) → bind (tried c) k s = k (inl e) s1.
Proof. unfold bind, tried. by intros ->. Qed.

(** A call whose error is looked at. *)
Lemma tried_inv {S E A E' B} (c : M S E A) (k : E + A → M S E' B) s b s' :
  bind (tried c) k s = (Ok b, s') →
  ∃ r s1, k r s1 = (Ok b, s') ∧
    match r with inr a => c s = (Ok a, s1) | inl e => c s = (Err e, s1) end.
Proof.
  unfold bind, tried. destruct (c s) as [[a|e|p] s1]; [..|done].
  - intros Hk. by exists (inr a), s1.
  - intros Hk. by exists (inl e), s1.
Qed.

(** * Lists *)

Lemma filter_ext_elem {A} (P Q : A → Prop) `{!∀ x, Decision (P x), !∀ x, Decision (Q x)}
    (l : list A) :
  (∀ x, x ∈ l → P x ↔ Q x) → filter P l = filter Q l.
Proof.
  induction l as [|x l IH]; intros HPQ; [done|]. rewrite !filter_cons.
  rewrite IH by (intros; apply HPQ; by right).
  pose proof (HPQ x ltac:(left)). repeat case_decide; tauto || done.
Qed.

Lemma filter_Forall {A} (Q : A → Prop) `{!∀ x, Decision (Q x)} l : Forall Q l → filter Q l = l.
Proof. induction 1 as [|x l Hx _ IH]; [done|]. rewrite filter_cons_True by done. by rewrite IH. Qed.

Lemma filter_none {A} (Q : A → Prop) `{!∀ x, Decision (Q x)} l : Forall (λ x, ¬ Q x) l → filter Q l = [].
Proof. induction 1 as [|x l Hx _ IH]; [done|]. by rewrite filter_cons_False. Qed.

(** * Automation *)

Create HintDb oprc discriminated.

(** Reduce a call whose first step is known to succeed. *)
Ltac step_ok lem := erewrite bind_ok; [|by eapply lem].

Ltac case_cmp x y :=
  let E := fresh "Ecmp" in
  destruct (cmp x y) eqn:E;
  [apply cmp_eq in E; subst | | apply cmp_gt in E].

(** Discharge a closed decidable proposition by evaluation. *)
Ltac decide_now := apply (bool_decide_unpack _); vm_compute; exact I.
