(* ===== verification/BTree.v ===== *)
(** * Ordered maps

    The standard library's [BTreeMap] as the code uses it: an association list
    strictly sorted by the keys' [Ord]. Point operations are related to stdpp's finite
    maps, range scans to filtering; [bt_range] carries the panic of
    [BTreeMap::range] on an inverted range. *)

From stdpp Require Import base tactics list numbers option gmap sorting strings.
From S2P Require Import Prelude.

Set Default Proof Using "Type".

Notation btree K V := (list (K * V)).

Section btree.
Context `{TotalCmp K} {V : Type}.
Implicit Types (k : K) (v : V) (m : btree K V).

Definition key_lt (a b : K * V) : Prop := cmp a.1 b.1 = Lt.

(** The invariant of the structure. *)
Definition bt_wf m : Prop := StronglySorted key_lt m.

Fixpoint bt_get k m : option V :=
  match m with
  | [] => None
  | (k', v) :: m => match cmp k k' with Eq => Some v | _ => bt_get k m end
  end.

Definition bt_contains k m : bool := bool_decide (is_Some (bt_get k m)).

Fixpoint bt_insert k v m : btree K V :=
  match m with
  | [] => [(k, v)]
  | (k', v') :: m' =>
      match cmp k k' with
      | Lt => (k, v) :: m
      | Eq => (k, v) :: m'
      | Gt => (k', v') :: bt_insert k v m'
      end
  end.

Fixpoint bt_remove k m : btree K V :=
  match m with
  | [] => []
  | (k', v') :: m' =>
      match cmp k k' with Eq => m' | _ => (k', v') :: bt_remove k m' end
  end.

Definition bt_first m : option (K * V) := head m.
Definition bt_last m : option (K * V) := last m.

(** [std::ops::Bound] *)
Inductive Bound : Type :=
| Included (k : K)
| Excluded (k : K)
| Unbounded.

Definition above (lo : Bound) k : bool :=
  match lo with Included l => leb l k | Excluded l => ltb l k | Unbounded => true end.
Definition below (hi : Bound) k : bool :=
  match hi with Included h => leb k h | Excluded h => ltb k h | Unbounded => true end.
Definition in_bounds (lo hi : Bound) k : bool := above lo k && below hi k.

(** [BTreeMap::range] panics when the start lies above the end, or when both ends
    exclude the same key. *)
Definition range_panics (lo hi : Bound) : bool :=
  match lo, hi with
  | Excluded l, Excluded h => leb h l
  | Included l, (Included h | Excluded h) => ltb h l
  | Excluded l, Included h => ltb h l
  | _, _ => false
  end.

(** The pairs of a range in key order. The check is skipped on a map without
    entries, which is what the implementation does on a map that never had one. *)
Definition bt_in_range (lo hi : Bound) m : btree K V :=
  filter (λ kv, in_bounds lo hi kv.1) m.
Definition bt_range {E} (lo hi : Bound) m : res E (btree K V) :=
  match m with
  | [] => Ok []
  | _ => if range_panics lo hi
         then Panic "range start is greater than range end in BTreeMap"
         else Ok (bt_in_range lo hi m)
  end.
End btree.

Arguments Bound : clear implicits.

Section theory.
Context `{TotalCmp K} {V : Type}.
Implicit Types (k : K) (v : V) (m : btree K V).

Lemma bt_wf_cons_inv k v m :
  bt_wf ((k, v) :: m) → bt_wf m ∧ Forall (λ kv, cmp k kv.1 = Lt) m.
Proof. intros [? ?]%StronglySorted_inv. done. Qed.

Lemma bt_wf_cons k v m :
  bt_wf m → Forall (λ kv, cmp k kv.1 = Lt) m → bt_wf ((k, v) :: m).
Proof. by constructor. Qed.

Lemma bt_wf_filter (P : K * V → Prop) `{!∀ x, Decision (P x)} m :
  bt_wf m → bt_wf (filter P m).
Proof.
  induction 1 as [|[k v] m _ IH Hall]; [constructor|].
  rewrite filter_cons. case_decide; [|done].
  constructor; [done|]. rewrite Forall_forall in Hall |- *.
  intros x [_ Hx]%list_elem_of_filter. by apply Hall.
Qed.

Lemma bt_get_lt_None k m : Forall (λ kv, cmp k kv.1 = Lt) m → bt_get k m = None.
Proof. induction 1 as [|[k' v] m Hlt _ IH]; simpl in *; [done|]. by rewrite Hlt. Qed.

Lemma bt_get_elem k v m : bt_wf m → bt_get k m = Some v ↔ (k, v) ∈ m.
Proof.
  induction 1 as [|[k' v'] m Hm IH Hall]; simpl.
  { split; [done|]. by intros ?%not_elem_of_nil. }
  rewrite elem_of_cons. case_cmp k k'.
  - split; [intros [= ->]; auto|]. intros [[= ->]|Hin]; [done|].
    rewrite Forall_forall in Hall. apply Hall in Hin.
    unfold key_lt in Hin; simpl in Hin. by rewrite cmp_refl in Hin.
  - rewrite IH. split; [auto|]. intros [[= -> ->]|?]; [|done].
    by rewrite cmp_refl in Ecmp.
  - rewrite IH. split; [auto|]. intros [[= -> ->]|?]; [|done].
    by rewrite cmp_refl in Ecmp.
Qed.

Lemma bt_insert_Forall (P : K * V → Prop) k v m :
  P (k, v) → Forall P m → Forall P (bt_insert k v m).
Proof.
  intros Hk. induction 1 as [|[k' v'] m Hx Hm IH]; simpl; [by constructor|].
  destruct (cmp k k'); repeat (done || apply Forall_cons_2).
Qed.

Lemma bt_remove_Forall (P : K * V → Prop) k m : Forall P m → Forall P (bt_remove k m).
Proof.
  induction 1 as [|[k' v'] m Hx Hm IH]; simpl; [constructor|].
  destruct (cmp k k'); repeat (done || apply Forall_cons_2).
Qed.

Lemma bt_insert_wf k v m : bt_wf m → bt_wf (bt_insert k v m).
Proof.
  induction 1 as [|[k' v'] m Hm IH Hall]; simpl; [repeat constructor|].
  case_cmp k k'.
  - by apply bt_wf_cons.
  - apply bt_wf_cons; [by apply bt_wf_cons|]. constructor; [done|].
    eapply Forall_impl; [exact Hall|]. intros [? ?]; eauto using cmp_trans.
  - apply bt_wf_cons; [done|]. by apply bt_insert_Forall.
Qed.

Lemma bt_remove_wf k m : bt_wf m → bt_wf (bt_remove k m).
Proof.
  induction 1 as [|[k' v'] m Hm IH Hall]; simpl; [constructor|].
  destruct (cmp k k'); [done| |]; (apply bt_wf_cons; [done|]); by apply bt_remove_Forall.
Qed.

Lemma bt_get_insert_eq k v m : bt_get k (bt_insert k v m) = Some v.
Proof.
  induction m as [|[k' v'] m IH]; simpl; [by rewrite cmp_refl|].
  destruct (cmp k k') eqn:E; simpl; rewrite ?cmp_refl; [done..|]. by rewrite E.
Qed.

Lemma bt_get_insert_ne k k' v m : k ≠ k' → bt_get k' (bt_insert k v m) = bt_get k' m.
Proof.
  intros Hne. assert (cmp k' k ≠ Eq) as Hne' by (by rewrite cmp_eq).
  induction m as [|[k1 v1] m IH]; simpl; [by destruct (cmp k' k)|].
  case_cmp k k1; simpl; [by destruct (cmp k' k1)|by destruct (cmp k' k)|by rewrite IH].
Qed.

Lemma bt_get_remove_eq k m : bt_wf m → bt_get k (bt_remove k m) = None.
Proof.
  induction 1 as [|[k' v'] m Hm IH Hall]; simpl; [done|].
  destruct (cmp k k') eqn:E; simpl; [|by rewrite E|by rewrite E].
  apply cmp_eq in E as ->. by apply bt_get_lt_None.
Qed.

Lemma bt_get_remove_ne k k' m : k ≠ k' → bt_get k' (bt_remove k m) = bt_get k' m.
Proof.
  intros Hne. assert (cmp k' k ≠ Eq) as Hne' by (by rewrite cmp_eq).
  induction m as [|[k1 v1] m IH]; simpl; [done|].
  case_cmp k k1; simpl; [by destruct (cmp k' k1)|by rewrite IH|by rewrite IH].
Qed.

(** Sorted lists with the same lookups are equal. *)
Lemma bt_ext m1 m2 :
  bt_wf m1 → bt_wf m2 → (∀ k, bt_get k m1 = bt_get k m2) → m1 = m2.
Proof.
  intros H1. revert m2. induction H1 as [|[k v] m1 H1 IH Hall1]; intros m2 H2 Hget.
  { destruct m2 as [|[k v] m2]; [done|]. specialize (Hget k); simpl in Hget.
    by rewrite cmp_refl in Hget. }
  destruct H2 as [|[k' v'] m2 H2 Hall2].
  { specialize (Hget k); simpl in Hget. by rewrite cmp_refl in Hget. }
  assert (k = k') as <-.
  { pose proof (Hget k) as G1; pose proof (Hget k') as G2. simpl in *.
    rewrite cmp_refl in G1, G2. case_cmp k k'; [done| |].
    - rewrite bt_get_lt_None in G1; [done|].
      eapply Forall_impl; [exact Hall2|]. intros [? ?]; simpl; eauto using cmp_trans.
    - rewrite Ecmp in G2. rewrite bt_get_lt_None in G2; [done|].
      eapply Forall_impl; [exact Hall1|]. intros [? ?]; simpl; eauto using cmp_trans. }
  f_equal.
  - specialize (Hget k); simpl in Hget. rewrite cmp_refl in Hget. congruence.
  - apply IH; [done|]. intros k'. specialize (Hget k'). simpl in Hget.
    case_cmp k' k; [by rewrite !bt_get_lt_None|done..].
Qed.

Lemma bt_insert_get k v m : bt_wf m → bt_get k m = Some v → bt_insert k v m = m.
Proof.
  intros Hm Hg. apply bt_ext; [by apply bt_insert_wf|done|]. intros k'.
  destruct (cmp k k') eqn:E.
  - apply cmp_eq in E as <-. by rewrite bt_get_insert_eq.
  - apply bt_get_insert_ne. by apply cmp_lt_ne.
  - apply bt_get_insert_ne. intros ->. by rewrite cmp_refl in E.
Qed.

Lemma bt_get_filter (P : K → bool) k m :
  bt_get k (filter (λ kv : K * V, P kv.1) m) = if P k then bt_get k m else None.
Proof.
  induction m as [|[k' v'] m IH]; simpl; [by destruct (P k)|].
  rewrite filter_cons. simpl. case_decide as HP; simpl; rewrite IH.
  - case_cmp k k'; [|by destruct (P k)..]. rewrite Is_true_true in HP. by rewrite HP.
  - case_cmp k k'; [|by destruct (P k)..]. by destruct (P k').
Qed.

Lemma bt_last_get k v m : bt_wf m → bt_last m = Some (k, v) → bt_get k m = Some v.
Proof. intros Hm Hl. apply bt_get_elem; [done|]. by apply last_Some_elem_of in Hl. Qed.

Lemma bt_last_max k v m k' v' :
  bt_wf m → bt_last m = Some (k, v) → (k', v') ∈ m → leb k' k = true.
Proof.
  unfold bt_last. intros Hm [m' ->]%last_Some Hin.
  apply elem_of_app in Hin as [Hin|[= -> ->]%list_elem_of_singleton]; [|apply leb_refl].
  apply leb_spec. left. induction m' as [|x m' IH]; [by apply not_elem_of_nil in Hin|].
  apply StronglySorted_inv in Hm as [Hm Hall].
  apply elem_of_cons in Hin as [<-|Hin]; [|by apply IH].
  apply Forall_app in Hall as [_ Hall]. by apply Forall_inv in Hall.
Qed.
(** Restarting a range at one of its keys gives the rest of it. *)
Lemma in_range_from (d : btree K V) start stop n k v :
  bt_wf d →
  bt_in_range (Included start) (Excluded stop) d !! n = Some (k, v) →
  bt_in_range (Included k) (Excluded stop) d
  = drop n (bt_in_range (Included start) (Excluded stop) d).
Proof.
  intros Hd. unfold bt_in_range. revert n.
  induction Hd as [|[k' v'] d Hd IH Hall]; intros n Hn; [done|].
  rewrite filter_cons in Hn |- *. rewrite (filter_cons _ (k', v')). simpl in *.
  unfold in_bounds, above, below in *. case_decide as Hin.
  - apply Is_true_true, andb_true_iff in Hin as [H1 H2]. destruct n as [|n]; simpl in *.
    + simplify_eq. rewrite leb_refl, H2. simpl. f_equal.
      apply filter_ext_elem. intros [k'' v''] Hj. simpl.
      rewrite Forall_forall in Hall. apply Hall in Hj. unfold key_lt in Hj; simpl in Hj.
      assert (leb k k'' = true) as -> by (apply leb_spec; auto).
      assert (leb start k'' = true) as -> by (eapply leb_trans; [done|apply leb_spec; auto]).
      done.
    + rewrite decide_False; [by apply IH|]. rewrite Is_true_true, andb_true_iff.
      intros [Hle _]. apply list_elem_of_lookup_2, list_elem_of_filter in Hn as [_ Hn].
      rewrite Forall_forall in Hall. apply Hall in Hn. unfold key_lt in Hn; simpl in Hn.
      rewrite leb_ltb, negb_true_iff in Hle. unfold ltb in Hle. by rewrite Hn in Hle.
  - rewrite decide_False; [by apply IH|]. rewrite Is_true_true, andb_true_iff.
    intros [Hle Hlt]. apply list_elem_of_lookup_2, list_elem_of_filter in Hn as [_ Hn].
    rewrite Forall_forall in Hall. apply Hall in Hn. unfold key_lt in Hn; simpl in Hn.
    rewrite leb_ltb, negb_true_iff in Hle. unfold ltb in Hle. by rewrite Hn in Hle.
Qed.
(** Lists of pairs that need not be ordered. *)
Lemma bt_get_notin k m : k ∉ m.*1 → bt_get k m = None.
Proof.
  induction m as [|[k' v] m IH]; simpl; [done|]. rewrite not_elem_of_cons. intros [Hne Hk].
  destruct (cmp k k') eqn:E; [by apply cmp_eq in E|by apply IH..].
Qed.

Lemma bt_get_NoDup k v m : NoDup m.*1 → (k, v) ∈ m → bt_get k m = Some v.
Proof.
  induction m as [|[k' v'] m IH]; simpl; [intros _ []%not_elem_of_nil|].
  intros [Hk Hn]%NoDup_cons. intros [[= -> ->]|Hin]%elem_of_cons; [by rewrite cmp_refl|].
  assert (k ∈ m.*1) by (apply list_elem_of_fmap; by exists (k, v)).
  destruct (cmp k k') eqn:E; [by apply cmp_eq in E; subst|by apply IH..].
Qed.

Lemma bt_wf_NoDup m : bt_wf m → NoDup m.*1.
Proof.
  induction 1 as [|[k v] m _ IH Hall]; simpl; constructor; [|done].
  intros ([k' v'] & -> & Hin)%list_elem_of_fmap. rewrite Forall_forall in Hall.
  apply Hall in Hin. by apply (cmp_irrefl k').
Qed.
End theory.

#[export] Hint Resolve bt_insert_wf bt_remove_wf bt_wf_filter : oprc.

(** ** Refinement to finite maps *)
Section gmap_refinement.
Context `{Countable K} `{!TotalCmp K} {V : Type}.
Implicit Types (k : K) (v : V) (m : btree K V).

Definition to_map m : gmap K V := list_to_map m.

Lemma lookup_to_map k m : to_map m !! k = bt_get k m.
Proof.
  unfold to_map. induction m as [|[k' v'] m IH]; simpl; [apply lookup_empty|].
  rewrite lookup_insert, IH. case_cmp k k'; case_decide; simplify_eq; try done.
  - by rewrite cmp_refl in Ecmp.
  - by rewrite cmp_refl in Ecmp.
Qed.

Lemma to_map_insert k v m : to_map (bt_insert k v m) = <[k:=v]> (to_map m).
Proof.
  apply map_eq. intros k'. rewrite lookup_insert, !lookup_to_map.
  case_decide as E; [subst; apply bt_get_insert_eq|by apply bt_get_insert_ne].
Qed.

Lemma to_map_remove k m : bt_wf m → to_map (bt_remove k m) = delete k (to_map m).
Proof.
  intros Hm. apply map_eq. intros k'. rewrite lookup_delete, !lookup_to_map.
  case_decide as E; [subst; by apply bt_get_remove_eq|by apply bt_get_remove_ne].
Qed.
End gmap_refinement.
