(* ===== verification/Float64.v ===== *)
(** * Double-precision numbers and stable sorting

    Rust's [f64] as IEEE 754 binary64 in its executable specification ([spec_float] with 53
    bits of precision and exponents below 1024), with the operations the control plane uses,
    and [slice::sort_by] as a stable insertion sort. A decimal literal is the correctly
    rounded quotient of two integers. *)

From stdpp Require Import base tactics list numbers option sorting.
From Stdlib Require Import ZArith Lia.
From Stdlib Require Import Floats.SpecFloat.
From S2P Require Import Prelude.

Set Default Proof Using "Type".

Notation f64 := spec_float.

Module F64.

Definition add : f64 → f64 → f64 := SFadd 53 1024.
Definition sub : f64 → f64 → f64 := SFsub 53 1024.
Definition mul : f64 → f64 → f64 := SFmul 53 1024.
Definition div : f64 → f64 → f64 := SFdiv 53 1024.

(** [z as f64] *)
Definition of_Z (z : Z) : f64 := binary_normalize 53 1024 z 0 false.

(** The literal [n / d]. *)
Definition lit (n d : Z) : f64 := div (of_Z n) (of_Z d).

Definition zero : f64 := S754_zero false.
Definition one : f64 := of_Z 1.

Definition partial_cmp (x y : f64) : option comparison := SFcompare x y.
(** [x < y], [x <= y]; false when one is not a number. *)
Definition lt (x y : f64) : bool := SFltb x y.
Definition le (x y : f64) : bool := SFleb x y.

Definition is_nan (x : f64) : bool := match x with S754_nan => true | _ => false end.
Definition is_finite (x : f64) : bool :=
  match x with S754_zero _ | S754_finite _ _ _ => true | _ => false end.

(** [f64::max] and [f64::min]: the other operand when one is not a number. *)
Definition max (x y : f64) : f64 := if is_nan x then y else if lt x y then y else x.
Definition min (x y : f64) : f64 := if is_nan x then y else if lt y x then y else x.

(** [f64::clamp] for bounds in order; a NaN stays one. *)
Definition clamp (x lo hi : f64) : f64 :=
  let x := if lt x lo then lo else x in
  if lt hi x then hi else x.

(** [f64::ceil] *)
Definition ceil (x : f64) : f64 :=
  match x with
  | S754_finite s m e =>
      if (0 <=? e)%Z then x
      else
        let q := (Z.pos m / 2 ^ (- e))%Z in
        let exact := (Z.pos m mod 2 ^ (- e) =? 0)%Z in
        let n := if s then (- q)%Z else if exact then q else (q + 1)%Z in
        binary_normalize 53 1024 n 0 s
  | _ => x
  end.

(** [x as u32]: truncated, saturated, 0 for NaN. *)
Definition as_u32 (x : f64) : Z :=
  match x with
  | S754_finite false m e => Z.min u32_max (Z.shiftl (Z.pos m) e)
  | S754_infinity false => u32_max
  | _ => 0
  end.

(** [iter.sum::<f64>()] starts from negative zero. *)
Definition sum (l : list f64) : f64 := foldl add (S754_zero true) l.

Example point_99 : lit 99 100 = S754_finite false 8917127262193582 (-53).
Proof. vm_compute. reflexivity. Qed.

Example ceil_up : ceil (lit 5 2) = of_Z 3 ∧ ceil (lit (-5) 2) = of_Z (-2).
Proof. vm_compute. done. Qed.

Example tenths : add (lit 1 10) (lit 2 10) ≠ lit 3 10.
Proof. vm_compute. congruence. Qed.

(** ** The order *)

(** Numbers in the order of their keys: the sign decides, then the exponent and mantissa. *)
Definition key (x : f64) : Z * Z * Z :=
  match x with
  | S754_infinity true => (-2, 0, 0)
  | S754_finite true m e => (-1, - e, - Z.pos m)
  | S754_zero _ | S754_nan => (0, 0, 0)
  | S754_finite false m e => (1, e, Z.pos m)
  | S754_infinity false => (2, 0, 0)
  end%Z.

Definition key_compare (a b : Z * Z * Z) : comparison :=
  match Z.compare a.1.1 b.1.1 with
  | Eq => match Z.compare a.1.2 b.1.2 with Eq => Z.compare a.2 b.2 | c => c end
  | c => c
  end.

Definition key_le (a b : Z * Z * Z) : Prop := key_compare a b ≠ Gt.

Lemma key_compare_flip a b : key_compare b a = CompOpp (key_compare a b).
Proof.
  unfold key_compare. rewrite (Z.compare_antisym a.1.1 b.1.1).
  destruct (a.1.1 ?= b.1.1)%Z; simpl; [|done..].
  rewrite (Z.compare_antisym a.1.2 b.1.2). destruct (a.1.2 ?= b.1.2)%Z; simpl; [|done..].
  apply Z.compare_antisym.
Qed.

Lemma key_le_trans a b c : key_le a b → key_le b c → key_le a c.
Proof.
  unfold key_le, key_compare.
  destruct (Z.compare_spec a.1.1 b.1.1), (Z.compare_spec b.1.1 c.1.1),
    (Z.compare_spec a.1.1 c.1.1); try lia; try done;
  destruct (Z.compare_spec a.1.2 b.1.2), (Z.compare_spec b.1.2 c.1.2),
    (Z.compare_spec a.1.2 c.1.2); try lia; try done.
  destruct (Z.compare_spec a.2 b.2), (Z.compare_spec b.2 c.2),
    (Z.compare_spec a.2 c.2); try lia; try done.
Qed.

Lemma partial_cmp_key x y :
  is_nan x = false → is_nan y = false → partial_cmp x y = Some (key_compare (key x) (key y)).
Proof.
  destruct x as [[]|[]| |[] m e], y as [[]|[]| |[] m' e']; intros Hx Hy; try done;
    unfold partial_cmp, key_compare; simpl; f_equal.
  rewrite Z.compare_opp, (Z.compare_antisym e e').
  by destruct (e ?= e')%Z.
Qed.

(** [a.partial_cmp(b).unwrap_or(Equal)] *)
Definition cmp_or_equal (x y : f64) : comparison := default Eq (partial_cmp x y).

Lemma lt_irrefl x : lt x x = false.
Proof.
  unfold lt, SFltb. destruct (is_nan x) eqn:Hx; [by destruct x|].
  change (SFcompare x x) with (partial_cmp x x).
  rewrite partial_cmp_key by done. unfold key_compare. by rewrite !Z.compare_refl.
Qed.

Lemma max_cases x y : max x y = x ∨ max x y = y.
Proof. unfold max. destruct (is_nan x); [by right|]. destruct (lt x y); auto. Qed.

Lemma max_ge x y : is_nan y = false → lt (max x y) y = false.
Proof.
  intros Hy. unfold max. destruct (is_nan x); [apply lt_irrefl|].
  destruct (lt x y) eqn:E; [apply lt_irrefl|done].
Qed.

End F64.

(** ** [slice::sort_by]: a stable sort *)

Section sort_by.
Context {A : Type} (compare : A → A → comparison).

Fixpoint insert_by (x : A) (l : list A) : list A :=
  match l with
  | [] => [x]
  | y :: l' => match compare x y with
               | Gt => y :: insert_by x l'
               | _ => x :: l
               end
  end.

Definition sort_by (l : list A) : list A := foldr insert_by [] l.

Lemma insert_by_perm x l : insert_by x l ≡ₚ x :: l.
Proof.
  induction l as [|y l IH]; simpl; [done|]. destruct (compare x y); [done..|].
  rewrite IH. apply Permutation_swap.
Qed.

Lemma sort_by_perm l : sort_by l ≡ₚ l.
Proof. induction l as [|x l IH]; simpl; [done|]. by rewrite insert_by_perm, IH. Qed.

Lemma sort_by_length l : length (sort_by l) = length l.
Proof. apply Permutation_length, sort_by_perm. Qed.

Context (P : A → Prop).
Context (flip : ∀ x y, P x → P y → compare y x = CompOpp (compare x y)).
Context (trans : ∀ x y z, P x → P y → P z →
  compare x y ≠ Gt → compare y z ≠ Gt → compare x z ≠ Gt).

Lemma insert_by_sorted x l :
  P x → Forall P l → StronglySorted (λ a b, compare a b ≠ Gt) l →
  StronglySorted (λ a b, compare a b ≠ Gt) (insert_by x l).
Proof using flip trans.
  intros Hx Hl. induction 1 as [|y l Hs IH Hy]; simpl; [repeat constructor|].
  apply Forall_cons in Hl as [Py Hl].
  destruct (compare x y) eqn:E.
  1,2: constructor; [by constructor|]; constructor; [congruence|];
    rewrite Forall_forall in *; intros z Hz; apply (trans x y z); eauto; congruence.
  constructor; [by apply IH|].
  rewrite insert_by_perm. constructor; [|done].
  rewrite flip, E by done. done.
Qed.

(** On comparable elements the result is sorted. *)
Lemma sort_by_sorted l :
  Forall P l → StronglySorted (λ a b, compare a b ≠ Gt) (sort_by l).
Proof using flip trans.
  induction 1 as [|x l Hx Hl IH]; simpl; [constructor|].
  apply insert_by_sorted; [done| |done]. by rewrite sort_by_perm.
Qed.
End sort_by.

(** Numbers other than NaN are comparable. *)
Definition number (x : f64) : Prop := F64.is_nan x = false.

Lemma cmp_flip_f64 x y :
  number x → number y → F64.cmp_or_equal y x = CompOpp (F64.cmp_or_equal x y).
Proof.
  intros Hx Hy. unfold F64.cmp_or_equal. rewrite !F64.partial_cmp_key by done.
  apply F64.key_compare_flip.
Qed.

Lemma cmp_trans_f64 x y z :
  number x → number y → number z →
  F64.cmp_or_equal x y ≠ Gt → F64.cmp_or_equal y z ≠ Gt → F64.cmp_or_equal x z ≠ Gt.
Proof.
  intros Hx Hy Hz. unfold F64.cmp_or_equal. rewrite !F64.partial_cmp_key by done.
  apply F64.key_le_trans.
Qed.
