(* ===== verification/StorageValue.v ===== *)
(** * Storage values

    [commons/oprc-dp-storage/src/storage_value.rs]: the two-variant value type every
    backend stores, its constructors, views and order. The theorems show that the
    variant is a function of the length, so values are their byte strings: the later
    files store byte strings. *)

From stdpp Require Import base tactics list numbers option strings.
From S2P Require Import Prelude.

Set Default Proof Using "Type".

Inductive StorageValue : Type :=
| Small (data : bytes)
| Large (data : bytes).

#[global] Instance StorageValue_eq_dec : EqDecision StorageValue.
Proof. solve_decision. Defined.

Module SV.

Definition new (data : bytes) : StorageValue :=
  if bool_decide (length data ≤ 64) then Small data else Large data.

Definition from_slice (data : bytes) : StorageValue :=
  if bool_decide (length data ≤ 64) then Small data else Large data.

Definition from_bytes (data : bytes) : StorageValue :=
  if bool_decide (length data ≤ 64) then Small data else Large data.

Definition as_slice (v : StorageValue) : bytes :=
  match v with Small data => data | Large data => data end.

Definition len (v : StorageValue) : nat :=
  match v with Small data => length data | Large data => length data end.

Definition is_empty (v : StorageValue) : bool := bool_decide (len v = 0).

Definition into_vec (v : StorageValue) : bytes :=
  match v with Small data => data | Large data => data end.

Definition empty : StorageValue := Small [].

Definition is_small (v : StorageValue) : bool :=
  match v with Small _ => true | Large _ => false end.

Definition is_large (v : StorageValue) : bool :=
  match v with Small _ => false | Large _ => true end.

(** [Ord::cmp]: by content, not by variant. *)
Definition cmp (a b : StorageValue) : comparison := Prelude.cmp (as_slice a) (as_slice b).

(** The [Serialize] and [Deserialize] implementations, over the serializer's
    treatment of a byte string. *)
Definition serialize {B} (serialize_bytes : bytes → B) (v : StorageValue) : B :=
  serialize_bytes (as_slice v).
Definition deserialize {B} (deserialize_vec : B → option bytes) (b : B) : option StorageValue :=
  new <$> deserialize_vec b.

(** What every constructor establishes: the variant is decided by the length. *)
Definition wf (v : StorageValue) : Prop :=
  match v with Small d => length d ≤ 64 | Large d => 64 < length d end.

Lemma from_slice_wf d : wf (from_slice d).
Proof. unfold from_slice. case_bool_decide; simpl; lia. Qed.

Lemma as_slice_from_slice d : as_slice (from_slice d) = d.
Proof. unfold from_slice. by case_bool_decide. Qed.

Lemma from_slice_as_slice v : wf v → from_slice (as_slice v) = v.
Proof. unfold from_slice. destruct v; simpl; intros; case_bool_decide; (done || lia). Qed.

(** The derived equality (variant and content) and the hand-written order (content
    only) agree on the values the constructors build: [cmp] answers [Eq] exactly on
    equal values, so [BTreeMap] keys are unique per byte string. *)
Theorem cmp_eq_iff a b : wf a → wf b → cmp a b = Eq ↔ a = b.
Proof.
  intros Ha Hb. unfold cmp. rewrite Prelude.cmp_eq. split; [|by intros ->].
  intros E. by rewrite <- (from_slice_as_slice a), <- (from_slice_as_slice b), E.
Qed.

Lemma cmp_eq_iff_witness :
  (cmp (from_slice (bs "a")) (from_slice (bs "a")) = Eq
   ↔ from_slice (bs "a") = from_slice (bs "a")).
Proof. apply (cmp_eq_iff (from_slice (bs "a")) (from_slice (bs "a"))); apply from_slice_wf. Defined.

(** The variant is not observable through the order: two values with the same bytes
    compare equal even when one is stored inline and the other on the heap. *)
Lemma cmp_ignores_variant d : cmp (Small d) (Large d) = Eq.
Proof. by apply Prelude.cmp_eq. Qed.

(** A value survives a serializer that restores byte strings, in canonical form. *)
Theorem serde_roundtrip {B} (ser : bytes → B) (de : B → option bytes) v :
  (∀ d, de (ser d) = Some d) → wf v → deserialize de (serialize ser v) = Some v.
Proof.
  intros Hrt Hv. unfold deserialize, serialize. rewrite Hrt. simpl. f_equal.
  by apply from_slice_as_slice.
Qed.

Lemma serde_roundtrip_witness :
  deserialize (λ b : bytes, Some b) (serialize id (from_slice (bs "hello")))
  = Some (from_slice (bs "hello")).
Proof. apply (serde_roundtrip id (λ b : bytes, Some b)); [done|apply from_slice_wf]. Defined.

End SV.
