(* ===== verification/Backend.v ===== *)
(** * The storage interface

    [commons/oprc-dp-storage/src/traits] and [error.rs]: the operations of
    [StorageBackend] and [ApplicationDataStorage] the data plane calls, and what a
    backend promises about them: each acts on an ordered map of byte strings. The
    shard and replication files are written against [Storage] and proved against
    [StorageLaws]. *)

From stdpp Require Import base tactics list numbers option gmap sorting strings.
From S2P Require Import Prelude BTree.

Set Default Proof Using "Type".

(** [StorageError] *)
Inductive StorageError : Type :=
| Io (msg : string)
| Serialization (msg : string)
| Transaction (msg : string)
| Backend (msg : string)
| Configuration (msg : string)
| NotFound
| AlreadyExists
| InvalidOperation (msg : string).

(** The text of an error. *)
Definition display_error (e : StorageError) : string :=
  match e with
  | Io m => "IO error: " +:+ m
  | Serialization m => "Serialization error: " +:+ m
  | Transaction m => "Transaction error: " +:+ m
  | Backend m => "Backend error: " +:+ m
  | Configuration m => "Configuration error: " +:+ m
  | NotFound => "Not found"
  | AlreadyExists => "Already exists"
  | InvalidOperation m => "Invalid operation: " +:+ m
  end.

Notation store := (btree bytes bytes).

(** The operations of the two traits that the data plane uses. *)
Class Storage (S : Type) := {
  sto_get : bytes → M S StorageError (option bytes);
  sto_put : bytes → bytes → M S StorageError bool;
  sto_put_with_return : bytes → bytes → M S StorageError (option bytes);
  sto_delete : bytes → M S StorageError unit;
  sto_delete_range : Bound bytes → Bound bytes → M S StorageError Z;
  sto_exists : bytes → M S StorageError bool;
  sto_scan : bytes → M S StorageError store;
  sto_scan_range : Bound bytes → Bound bytes → M S StorageError store;
  sto_get_last : M S StorageError (option (bytes * bytes));
  sto_flush : M S StorageError unit;
  sto_scan_range_paginated :
    bytes → bytes → option nat → M S StorageError (store * option bytes);
}.

(** One page of an ordered range: its first [limit] pairs and the key that follows. *)
Definition first_page (limit : option nat) (l : store) : store * option bytes :=
  match limit with
  | None => (l, None)
  | Some n => (take n l, fst <$> l !! n)
  end.

(** The contract of a backend that does not fail. *)
Class StorageLaws (S : Type) `{Storage S} := {
  contents : S → store;
  sto_inv : S → Prop;
  contents_wf s : sto_inv s → bt_wf (contents s);
  law_get k s : sto_inv s → sto_get k s = (Ok (bt_get k (contents s)), s);
  law_exists k s : sto_inv s → sto_exists k s = (Ok (bt_contains k (contents s)), s);
  law_put k v s : sto_inv s → ∃ s',
    sto_put k v s = (Ok (bt_contains k (contents s)), s') ∧ sto_inv s' ∧
    contents s' = bt_insert k v (contents s);
  law_put_with_return k v s : sto_inv s → ∃ s',
    sto_put_with_return k v s = (Ok (bt_get k (contents s)), s') ∧ sto_inv s' ∧
    contents s' = bt_insert k v (contents s);
  law_delete k s : sto_inv s → ∃ s',
    sto_delete k s = (Ok tt, s') ∧ sto_inv s' ∧ contents s' = bt_remove k (contents s);
  law_delete_range lo hi s : sto_inv s → range_panics lo hi = false → ∃ n s',
    sto_delete_range lo hi s = (Ok n, s') ∧ sto_inv s' ∧
    contents s' = filter (λ kv, negb (in_bounds lo hi kv.1)) (contents s);
  law_scan_all s : sto_inv s → sto_scan [] s = (Ok (contents s), s);
  law_scan_range lo hi s : sto_inv s → range_panics lo hi = false →
    sto_scan_range lo hi s = (Ok (bt_in_range lo hi (contents s)), s);
  law_get_last s : sto_inv s → sto_get_last s = (Ok (bt_last (contents s)), s);
  law_flush s : sto_inv s → sto_flush s = (Ok tt, s);
  law_page start stop limit s : sto_inv s → leb start stop = true →
    sto_scan_range_paginated start stop limit s =
    (Ok (first_page limit (bt_in_range (Included start) (Excluded stop) (contents s))), s);
}.
