(* ===== verification/Memory.v ===== *)
(** * The in-memory backend

    [commons/oprc-dp-storage/src/backends/memory.rs] and [atomic_stats.rs]: the store
    behind [MemoryStorage] is a [BTreeMap] of byte strings together with its counters;
    each backend operation is a call on that state. [MemoryTransaction] buffers its
    operations against the shared map. *)

From stdpp Require Import base tactics list numbers option gmap sorting strings.
From S2P Require Import Prelude BTree Backend.

Set Default Proof Using "Type".
Local Open Scope prog_scope.

Notation blen l := (Z.of_nat (length l)).

(** ** Counters *)
Module Stats.

Record AtomicStats := { entries_count : Z; total_size_bytes : Z }.

Definition new : AtomicStats := {| entries_count := 0; total_size_bytes := 0 |}.

Definition record_put (key_size value_size : Z) (was_update : bool) (s : AtomicStats) :=
  {| entries_count := if was_update then entries_count s else wrap64 (entries_count s + 1);
     total_size_bytes := wrap64 (total_size_bytes s + (key_size + value_size)) |}.

Definition record_put_with_old_size (key_size new_value_size : Z)
    (old_value_size : option Z) (s : AtomicStats) :=
  let new_total := (key_size + new_value_size)%Z in
  match old_value_size with
  | Some old_size =>
      let old_total := (key_size + old_size)%Z in
      {| entries_count := entries_count s;
         total_size_bytes :=
           if (old_total <=? new_total)%Z
           then wrap64 (total_size_bytes s + (new_total - old_total))
           else wrap64 (total_size_bytes s - (old_total - new_total)) |}
  | None =>
      {| entries_count := wrap64 (entries_count s + 1);
         total_size_bytes := wrap64 (total_size_bytes s + new_total) |}
  end%Z.

Definition record_delete (key_size value_size : Z) (s : AtomicStats) :=
  {| entries_count := wrap64 (entries_count s - 1);
     total_size_bytes := wrap64 (total_size_bytes s - (key_size + value_size)) |}.

Definition record_delete_batch (total_entries total_size : Z) (s : AtomicStats) :=
  {| entries_count := wrap64 (entries_count s - total_entries);
     total_size_bytes := wrap64 (total_size_bytes s - total_size) |}.

Definition reset (s : AtomicStats) : AtomicStats :=
  {| entries_count := 0; total_size_bytes := 0 |}.

Definition set_counts (entries total_size : Z) (s : AtomicStats) : AtomicStats :=
  {| entries_count := entries; total_size_bytes := total_size |}.

End Stats.

Record MemoryStorage := { data : store; stats : Stats.AtomicStats }.

Definition set_data (d : store) (s : MemoryStorage) := {| data := d; stats := stats s |}.
Definition upd_stats (f : Stats.AtomicStats → Stats.AtomicStats) (s : MemoryStorage) :=
  {| data := data s; stats := f (stats s) |}.

Definition pair_size (kv : bytes * bytes) : Z := (blen kv.1 + blen kv.2)%Z.
Definition total_size (l : store) : Z := foldr (λ kv a, pair_size kv + a)%Z 0%Z l.

(** ** [StorageBackend] and [ApplicationDataStorage] for [MemoryStorage] *)
Module Memory.

Definition op (A : Type) : Type := M MemoryStorage StorageError A.

Definition new : MemoryStorage := {| data := []; stats := Stats.new |}.

Definition get (key : bytes) : op (option bytes) := gets (λ s, bt_get key (data s)).

Definition put (key value : bytes) : op bool :=
  λ s, let existing := bt_contains key (data s) in
       (Ok existing,
        upd_stats (Stats.record_put (blen key) (blen value) existing)
          (set_data (bt_insert key value (data s)) s)).

Definition put_with_return (key value : bytes) : op (option bytes) :=
  λ s, let previous := bt_get key (data s) in
       (Ok previous,
        upd_stats (Stats.record_put_with_old_size (blen key) (blen value)
                     ((λ v, blen v) <$> previous))
          (set_data (bt_insert key value (data s)) s)).

Definition delete (key : bytes) : op unit :=
  λ s, match bt_get key (data s) with
       | Some removed =>
           (Ok tt, upd_stats (Stats.record_delete (blen key) (blen removed))
                     (set_data (bt_remove key (data s)) s))
       | None => (Ok tt, s)
       end.

Definition delete_range (lo hi : Bound bytes) : op Z :=
  λ s, match bt_range lo hi (data s) with
       | Ok items =>
           let d := foldl (λ d kv, bt_remove kv.1 d) (data s) items in
           let s' := set_data d s in
           (Ok (Z.of_nat (length items)),
            if bool_decide (items = []) then s'
            else upd_stats (Stats.record_delete_batch (Z.of_nat (length items))
                              (total_size items)) s')
       | Err e => (Err e, s)
       | Panic p => (Panic p, s)
       end.

Definition exists_ (key : bytes) : op bool := gets (λ s, bt_contains key (data s)).

(** The exclusive end of a prefix scan: the last byte incremented, or, when it is
    255, the prefix extended by a zero byte. *)
Definition scan_end (prefix : bytes) : Bound bytes :=
  match last prefix with
  | None => Unbounded
  | Some b =>
      if (bz b =? 255)%Z then Excluded (prefix ++ [zb 0])
      else Excluded (removelast prefix ++ [zb (bz b + 1)])
  end.

Definition scan (prefix : bytes) : op store :=
  λ s, (bt_range (Included prefix) (scan_end prefix) (data s), s).

Definition scan_range (lo hi : Bound bytes) : op store :=
  λ s, (bt_range lo hi (data s), s).

Definition scan_range_reverse (lo hi : Bound bytes) : op store :=
  λ s, (res_bind (bt_range lo hi (data s)) (λ l, Ok (reverse l)), s).

Definition get_last : op (option (bytes * bytes)) := gets (λ s, bt_last (data s)).
Definition get_first : op (option (bytes * bytes)) := gets (λ s, bt_first (data s)).
Definition count : op Z := gets (λ s, Z.of_nat (length (data s))).
Definition flush : op unit := ret tt.
Definition close : op unit := modify (set_data []).

(** [compact] rebuilds the map from its own pairs. *)
Definition compact : op unit :=
  modify (λ s, set_data (foldl (λ d kv, bt_insert kv.1 kv.2 d) [] (data s)) s).

(** One page of a range: the first [limit] pairs and the key of the next one. *)
Fixpoint page (limit : option nat) (idx : nat) (l : store) : store * option bytes :=
  match l with
  | [] => ([], None)
  | (k, v) :: l =>
      match limit with
      | Some mx =>
          if bool_decide (mx ≤ idx) then ([], Some k)
          else let '(r, c) := page limit (S idx) l in ((k, v) :: r, c)
      | None => let '(r, c) := page limit (S idx) l in ((k, v) :: r, c)
      end
  end.

Definition scan_range_paginated (start end_ : bytes) (limit : option nat)
    : op (store * option bytes) :=
  λ s, (res_bind (bt_range (Included start) (Excluded end_) (data s))
          (λ l, Ok (page limit 0 l)), s).

Definition multi_get (keys : list bytes) : op (list (option bytes)) :=
  λ s, (Ok ((λ k, bt_get k (data s)) <$> keys), s).

Definition compare_and_swap (key : bytes) (expected new_value : option bytes) : op bool :=
  λ s, let current := bt_get key (data s) in
       let matches :=
         match current, expected with
         | Some c, Some e => bool_decide (c = e)
         | None, None => true
         | _, _ => false
         end in
       if matches then
         match new_value with
         | Some value =>
             (Ok true,
              upd_stats (Stats.record_put_with_old_size (blen key) (blen value)
                           ((λ v, blen v) <$> current))
                (set_data (bt_insert key value (data s)) s))
         | None =>
             let s' := set_data (bt_remove key (data s)) s in
             (Ok true,
              match current with
              | Some old => upd_stats (Stats.record_delete (blen key) (blen old)) s'
              | None => s'
              end)
         end
       else (Ok false, s).

(** [i64::from_le_bytes] of eight bytes. *)
Definition i64_of (l : bytes) : Z :=
  let u := le_val l in if (u <? 2 ^ 63)%Z then u else (u - 2 ^ 64)%Z.

(** The sum of [increment] overflows silently without overflow checks and panics with
    them; [checks] is the build's setting. *)
Definition increment (checks : bool) (key : bytes) (delta : Z) : op Z :=
  λ s,
  let cur :=
    match bt_get key (data s) with
    | Some v => if bool_decide (length v = 8) then Some (i64_of v) else None
    | None => Some 0%Z
    end in
  match cur with
  | None => (Err (Serialization "Value is not an i64"), s)
  | Some c =>
      let sum := (c + delta)%Z in
      let ok := (- 2 ^ 63 <=? sum)%Z && (sum <? 2 ^ 63)%Z in
      if checks && negb ok then (Panic "attempt to add with overflow", s)
      else
        let enc := le_bytes 8 (wrap64 sum) in
        (Ok (i64_of enc),
         upd_stats (Stats.record_put (blen key) 8 (bt_contains key (data s)))
           (set_data (bt_insert key enc (data s)) s))
  end.

Definition put_with_ttl (key value : bytes) : op bool := put key value.

(** Snapshots: [create_snapshot] copies the map, [restore_from_snapshot] and
    [install_kv_snapshot_from_stream] replace it. *)
Record Snapshot := { snapshot_data : store; entry_count : Z; total_size_bytes : Z }.

Definition create_snapshot : op Snapshot :=
  gets (λ s, {| snapshot_data := data s;
                entry_count := Z.of_nat (length (data s));
                total_size_bytes := total_size (data s) |}).

Definition restore_from_snapshot (snap : Snapshot) : op unit :=
  modify (λ s, upd_stats (Stats.set_counts (entry_count snap) (total_size_bytes snap))
                 (set_data (foldl (λ d kv, bt_insert kv.1 kv.2 d) [] (snapshot_data snap)) s)).

(** The stream yields pairs until it ends or fails; pairs read before a failure stay. *)
Fixpoint install_loop (items : list (res StorageError (bytes * bytes)))
    (entries size : Z) : op unit :=
  match items with
  | [] => modify (upd_stats (Stats.set_counts entries size))
  | r :: items =>
      let! kv := lift_res r in
      modify (λ s, set_data (bt_insert kv.1 kv.2 (data s)) s) ;;;
      install_loop items (entries + 1)%Z (size + pair_size kv)%Z
  end.

Definition install_kv_snapshot_from_stream
    (items : list (res StorageError (bytes * bytes))) : op unit :=
  modify (λ s, upd_stats Stats.reset (set_data [] s)) ;;;
  install_loop items 0 0.

End Memory.

#[global] Instance memory_storage : Storage MemoryStorage := {|
  sto_get := Memory.get;
  sto_put := Memory.put;
  sto_put_with_return := Memory.put_with_return;
  sto_delete := Memory.delete;
  sto_delete_range := Memory.delete_range;
  sto_exists := Memory.exists_;
  sto_scan := Memory.scan;
  sto_scan_range := Memory.scan_range;
  sto_get_last := Memory.get_last;
  sto_flush := Memory.flush;
  sto_scan_range_paginated := Memory.scan_range_paginated;
|}.

(** ** Lemmas on the operations *)

Lemma bt_range_ok {E} lo hi (d : store) :
  range_panics lo hi = false → bt_range (E:=E) lo hi d = Ok (bt_in_range lo hi d).
Proof. unfold bt_range. intros ->. by destruct d. Qed.

Lemma page_None i l : Memory.page None i l = (l, None).
Proof. revert i. induction l as [|[k v] l IH]; intros i; simpl; [done|]. by rewrite IH. Qed.

Lemma page_Some n i l :
  Memory.page (Some n) i l = (take (n - i) l, fst <$> l !! (n - i)).
Proof.
  revert i. induction l as [|[k v] l IH]; intros i; simpl; [by destruct (n - i)|].
  case_bool_decide.
  - by replace (n - i) with 0 by lia.
  - rewrite IH. replace (n - i) with (S (n - S i)) by lia. done.
Qed.

Lemma page_first_page limit l : Memory.page limit 0 l = first_page limit l.
Proof. destruct limit as [n|]; simpl; [by rewrite page_Some, Nat.sub_0_r|apply page_None]. Qed.

Lemma foldl_remove_wf (items d : store) :
  bt_wf d → bt_wf (foldl (λ d kv, bt_remove kv.1 d) d items).
Proof. revert d. induction items; simpl; auto with oprc. Qed.

Lemma foldl_remove_get k (items d : store) :
  bt_wf d →
  bt_get k (foldl (λ d kv, bt_remove kv.1 d) d items)
  = if bool_decide (k ∈ items.*1) then None else bt_get k d.
Proof.
  revert d. induction items as [|[k' v'] items IH]; intros d Hd; simpl; [done|].
  rewrite IH by auto with oprc. destruct (decide (k = k')) as [->|Hne].
  - rewrite bt_get_remove_eq by done. rewrite (bool_decide_true (k' ∈ k' :: _)) by left.
    by case_bool_decide.
  - rewrite bt_get_remove_ne by done. do 2 case_bool_decide; set_solver.
Qed.

Lemma elem_of_in_range k lo hi (d : store) :
  bt_wf d →
  k ∈ (bt_in_range lo hi d).*1 ↔ in_bounds lo hi k = true ∧ is_Some (bt_get k d).
Proof.
  intros Hd. unfold bt_in_range. rewrite list_elem_of_fmap. split.
  - intros ([k' v] & -> & [Hb Hin]%list_elem_of_filter). simpl in *.
    split; [by apply Is_true_true|]. exists v. by apply bt_get_elem.
  - intros [Hb [v Hv%bt_get_elem]]; [|done]. exists (k, v). split; [done|].
    apply list_elem_of_filter. split; [by apply Is_true_true|done].
Qed.

(** Removing the pairs of a range one by one leaves the pairs outside it. *)
Lemma remove_range lo hi (d : store) :
  bt_wf d →
  foldl (λ d kv, bt_remove kv.1 d) d (bt_in_range lo hi d)
  = filter (λ kv, negb (in_bounds lo hi kv.1)) d.
Proof.
  intros Hd. apply bt_ext; [by apply foldl_remove_wf|by apply bt_wf_filter|]. intros k.
  rewrite foldl_remove_get by done.
  rewrite (bt_get_filter (λ k, negb (in_bounds lo hi k))).
  case_bool_decide as Hin; rewrite elem_of_in_range in Hin by done.
  - destruct Hin as [-> _]. done.
  - destruct (in_bounds lo hi k); simpl; [|done].
    destruct (bt_get k d) eqn:E; [|done]. exfalso. naive_solver.
Qed.

Lemma in_range_all (d : store) : bt_in_range (Included []) Unbounded d = d.
Proof.
  unfold bt_in_range. induction d as [|[k v] d IH]; [done|].
  rewrite filter_cons. simpl. rewrite IH. unfold in_bounds, above, below.
  by rewrite leb_nil_l.
Qed.

Lemma rebuild_insert_wf (items d : store) :
  bt_wf d → bt_wf (foldl (λ d kv, bt_insert kv.1 kv.2 d) d items).
Proof. revert d. induction items; simpl; auto with oprc. Qed.

Lemma rebuild_get k (items d : store) :
  bt_wf items →
  bt_get k (foldl (λ d kv, bt_insert kv.1 kv.2 d) d items)
  = match bt_get k items with Some v => Some v | None => bt_get k d end.
Proof.
  intros Hi. revert d. induction Hi as [|[k' v'] items Hi IH Hall]; intros d; simpl; [done|].
  rewrite IH. destruct (decide (k = k')) as [->|Hne].
  - rewrite bt_get_lt_None, bt_get_insert_eq, cmp_refl by done. done.
  - rewrite bt_get_insert_ne by done. case_cmp k k'; done.
Qed.

(** Re-inserting a map's own pairs into an empty map rebuilds it. *)
Lemma rebuild_id (d : store) : bt_wf d → foldl (λ d kv, bt_insert kv.1 kv.2 d) [] d = d.
Proof.
  intros Hd. apply bt_ext; [apply rebuild_insert_wf; constructor|done|].
  intros k. rewrite rebuild_get by done. simpl. by destruct (bt_get k d).
Qed.

(** The in-memory backend keeps the contract of the storage interface. *)
#[global] Program Instance memory_laws : StorageLaws MemoryStorage := {|
  contents := data;
  sto_inv s := bt_wf (data s);
|}.
Next Obligation. done. Qed.
Next Obligation. done. Qed.
Next Obligation. done. Qed.
Next Obligation. intros k v s Hs. eexists. split; [done|]. simpl. auto with oprc. Qed.
Next Obligation. intros k v s Hs. eexists. split; [done|]. simpl. auto with oprc. Qed.
Next Obligation.
  intros k s Hs. simpl. unfold Memory.delete. destruct (bt_get k (data s)) eqn:E.
  - eexists. split; [done|]. simpl. auto with oprc.
  - exists s. split; [done|]. split; [done|]. simpl.
    apply bt_ext; [done|by apply bt_remove_wf|]. intros k'.
    destruct (decide (k = k')) as [<-|Hne];
      [by rewrite bt_get_remove_eq|by rewrite bt_get_remove_ne].
Qed.
Next Obligation.
  intros lo hi s Hs Hp. simpl in *. unfold Memory.delete_range.
  rewrite (bt_range_ok _ _ _ Hp). do 2 eexists. split; [done|].
  case_bool_decide; simpl; rewrite remove_range by done; auto with oprc.
Qed.
Next Obligation.
  intros s Hs. simpl. unfold Memory.scan. rewrite bt_range_ok by done. simpl.
  by rewrite in_range_all.
Qed.
Next Obligation. intros lo hi s Hs Hp. simpl. unfold Memory.scan_range. by rewrite bt_range_ok. Qed.
Next Obligation. done. Qed.
Next Obligation. done. Qed.
Next Obligation.
  intros start stop limit s Hs Hle. simpl. unfold Memory.scan_range_paginated.
  rewrite bt_range_ok by (simpl; by rewrite leb_ltb, negb_true_iff in Hle). simpl.
  by rewrite page_first_page.
Qed.

Lemma removelast_snoc {A} (l : list A) x : removelast (l ++ [x]) = l.
Proof. apply List.removelast_last. Qed.

Lemma scan_end_small q b :
  (bz b < 255)%Z → Memory.scan_end (q ++ [b]) = Excluded (q ++ [zb (bz b + 1)]).
Proof.
  intros Hb. unfold Memory.scan_end. rewrite last_snoc, removelast_snoc.
  by rewrite (proj2 (Z.eqb_neq _ _)) by lia.
Qed.

Lemma scan_range_no_panic q b c :
  bz c = (bz b + 1)%Z → range_panics (Included (q ++ [b])) (Excluded (q ++ [c])) = false.
Proof.
  intros Hc. simpl. unfold ltb. rewrite cmp_app_same. unfold cmp. simpl.
  destruct (Z.compare_spec (bz c) (bz b)); (done || lia).
Qed.

(** A prefix scan returns, in key order, exactly the pairs whose key starts with the
    prefix, when the prefix is empty or its last byte is not 255. *)
Theorem scan_prefix_correct q b s :
  (bz b < 255)%Z →
  Memory.scan (q ++ [b]) s = (Ok (filter (λ kv, starts_with (q ++ [b]) kv.1) (data s)), s).
Proof.
  intros Hb. unfold Memory.scan. rewrite scan_end_small by done.
  assert (bz (zb (bz b + 1)) = (bz b + 1)%Z) as Hc.
  { apply bz_zb_small. pose proof (bz_range b). lia. }
  rewrite bt_range_ok by (by apply scan_range_no_panic). do 2 f_equal.
  apply list_filter_iff. intros [k v]. unfold in_bounds, above, below; simpl.
  by rewrite prefix_range.
Qed.

Definition demo_store : MemoryStorage :=
  {| data := [(bs "a", bs "1"); (bs "ab", bs "2"); (bs "b", bs "3")]; stats := Stats.new |}.

Lemma scan_prefix_correct_witness :
  Memory.scan (bs "a") demo_store
  = (Ok [(bs "a", bs "1"); (bs "ab", bs "2")], demo_store).
Proof.
  etransitivity; [apply (scan_prefix_correct [] Byte.x61 demo_store); vm_compute; done|].
  reflexivity.
Defined.

(** When the last byte of the prefix is 255 the scan stops right after the prefix: of
    all keys that start with it, only the key equal to it is returned. *)
Theorem scan_prefix_255 q b s :
  bz b = 255%Z →
  Memory.scan (q ++ [b]) s = (Ok (filter (λ kv, bool_decide (kv.1 = q ++ [b])) (data s)), s).
Proof.
  intros Hb. unfold Memory.scan, Memory.scan_end. rewrite last_snoc.
  rewrite (proj2 (Z.eqb_eq _ _) Hb). set (p := q ++ [b]).
  assert (cmp p (p ++ [zb 0]) = Lt) as Hlt.
  { rewrite <- (app_nil_r p) at 1. by rewrite cmp_app_same. }
  rewrite bt_range_ok.
  2:{ simpl. unfold ltb. rewrite cmp_flip, Hlt. done. }
  do 2 f_equal. apply list_filter_iff. intros [k v]. simpl.
  rewrite !Is_true_true, bool_decide_eq_true. unfold in_bounds, above, below.
  rewrite andb_true_iff, leb_spec, ltb_lt. split; [|intros ->; auto].
  intros [Hpk Hkp]. destruct Hpk as [Hpk|]; [|done]. exfalso.
  revert Hpk Hkp. generalize p; clear. unfold cmp; simpl.
  intros p; revert k; induction p as [|a p IH]; intros [|c k]; simpl; try done.
  - replace (bz (zb 0)) with 0%Z by done. pose proof (bz_range c).
    destruct (Z.compare_spec (bz c) 0); [by destruct k|lia|done].
  - destruct (Z.compare_spec (bz a) (bz c)) as [E|E|E]; [|intros _|done].
    + rewrite E, Z.compare_refl. apply IH.
    + destruct (Z.compare_spec (bz c) (bz a)); (done || lia).
Qed.

Lemma scan_prefix_255_witness :
  let s := {| data := [([Byte.xff], bs "1"); ([Byte.xff; Byte.x01], bs "2")];
              stats := Stats.new |} in
  Memory.scan [Byte.xff] s = (Ok [([Byte.xff], bs "1")], s)
  ∧ starts_with [Byte.xff] [Byte.xff; Byte.x01] = true.
Proof.
  split; [|reflexivity].
  etransitivity; [apply (scan_prefix_255 [] Byte.xff); reflexivity|reflexivity].
Defined.

(** ** Walking a range page by page *)

(** The caller's loop: ask for a page, continue at the cursor it returned. *)
Fixpoint walk_pages (fuel limit : nat) (start stop : bytes) (s : MemoryStorage)
    : option store :=
  match fuel with
  | O => None
  | S fuel =>
      match Memory.scan_range_paginated start stop (Some limit) s with
      | (Ok (chunk, None), _) => Some chunk
      | (Ok (chunk, Some next), _) =>
          (λ rest, chunk ++ rest) <$> walk_pages fuel limit next stop s
      | _ => None
      end
  end.


(** Whatever the page size, the pages put together are the range: no pair is lost or
    repeated at a page boundary, and [|range| + 1] pages are enough. *)
Theorem walk_pages_complete fuel limit start stop s :
  bt_wf (data s) → 0 < limit → leb start stop = true →
  length (bt_in_range (Included start) (Excluded stop) (data s)) < fuel →
  walk_pages fuel limit start stop s
  = Some (bt_in_range (Included start) (Excluded stop) (data s)).
Proof.
  intros Hs Hl. revert start. induction fuel as [|fuel IH]; intros start Hle Hf; [lia|].
  cbn [walk_pages].
  change (Memory.scan_range_paginated start stop (Some limit) s)
    with (sto_scan_range_paginated start stop (Some limit) s).
  pose proof (law_page start stop (Some limit) s Hs Hle) as Hp. rewrite Hp.
  cbn [first_page].
  change (contents s) with (data s). set (l := bt_in_range _ _ _) in *.
  destruct (l !! limit) as [[k v]|] eqn:Hk; simpl.
  - assert (leb k stop = true) as Hks.
    { apply list_elem_of_lookup_2, list_elem_of_filter in Hk as [Hk _].
      simpl in Hk. apply Is_true_true, andb_true_iff in Hk as [_ Hk]. simpl in Hk.
      apply leb_spec. left. by apply ltb_lt. }
    apply lookup_lt_Some in Hk as Hlen.
    rewrite IH; [|done|].
    + simpl. f_equal. unfold l in *. rewrite (in_range_from _ _ _ _ _ _ Hs Hk). apply take_drop.
    + unfold l in *. rewrite (in_range_from _ _ _ _ _ _ Hs Hk), length_drop. lia.
  - apply lookup_ge_None in Hk. by rewrite take_ge.
Qed.

Lemma walk_pages_complete_witness :
  walk_pages 4 1 (bs "a") (bs "b") demo_store = Some [(bs "a", bs "1"); (bs "ab", bs "2")].
Proof.
  etransitivity.
  - apply (walk_pages_complete 4 1 (bs "a") (bs "b") demo_store);
      [|vm_compute; lia|reflexivity|vm_compute; lia].
    repeat constructor.
  - reflexivity.
Defined.

(** ** Counters *)

(** The number of entries as the counters should report it. *)
Definition count_ok (s : MemoryStorage) : Prop :=
  Stats.entries_count (stats s) = Z.of_nat (length (data s)) ∧ is_u64 (Z.of_nat (length (data s))).


Lemma length_bt_insert {V} k (v : V) (d : btree bytes V) :
  bt_wf d → length (bt_insert k v d) = if bt_contains k d then length d else S (length d).
Proof.
  unfold bt_contains. induction 1 as [|[k' v'] d Hd IH Hall]; simpl; [done|].
  case_cmp k k'; simpl.
  - done.
  - rewrite bt_get_lt_None; [done|].
    eapply Forall_impl; [exact Hall|]. intros [? ?]; simpl; eauto using cmp_trans.
  - rewrite IH. by case_bool_decide.
Qed.

Lemma length_bt_remove {V} k (d : btree bytes V) :
  length (bt_remove k d) = if bt_contains k d then pred (length d) else length d.
Proof.
  unfold bt_contains. induction d as [|[k' v'] d IH]; simpl; [done|].
  case_cmp k k'; simpl; [done| |];
    rewrite IH; case_bool_decide as Hs; try done;
    destruct Hs as [? Hs]; destruct d; done.
Qed.

Lemma count_ok_insert f key value s :
  bt_wf (data s) → count_ok s → (Z.of_nat (length (data s)) < u64_max)%Z →
  Stats.entries_count (f (stats s))
  = (if bt_contains key (data s) then Stats.entries_count (stats s)
     else wrap64 (Stats.entries_count (stats s) + 1)) →
  count_ok (upd_stats f (set_data (bt_insert key value (data s)) s)).
Proof.
  intros Hs [Hc Hu] Hmax Hf. unfold count_ok. simpl. rewrite Hf, Hc, length_bt_insert by done.
  destruct (bt_contains key (data s)); [done|]. unfold is_u64, u64_max in *.
  rewrite wrap64_small; unfold is_u64, u64_max; lia.
Qed.

Lemma bt_contains_get key (d : store) :
  bt_contains key d = match bt_get key d with Some _ => true | None => false end.
Proof. unfold bt_contains. by destruct (bt_get key d). Qed.

(** The entry counter is exact across writes and deletes: [put], [put_with_return] and
    [delete] keep it equal to the number of keys held (below [u64::MAX] keys). *)
Theorem entries_count_exact key value s :
  bt_wf (data s) → count_ok s → (Z.of_nat (length (data s)) < u64_max)%Z →
  count_ok (Memory.put key value s).2
  ∧ count_ok (Memory.put_with_return key value s).2
  ∧ count_ok (Memory.delete key s).2.
Proof.
  intros Hs Hc Hmax. split; [|split].
  - apply count_ok_insert; [done..|]. simpl. by destruct (bt_contains key (data s)).
  - apply count_ok_insert; [done..|]. rewrite bt_contains_get.
    by destruct (bt_get key (data s)).
  - unfold Memory.delete. destruct (bt_get key (data s)) as [v|] eqn:Hk; [|done].
    destruct Hc as [Hc Hu]. unfold count_ok. simpl.
    rewrite length_bt_remove, bt_contains_get, Hk, Hc.
    destruct (data s) as [|x d]; [done|]. unfold is_u64, u64_max in *. cbn [length pred] in *.
    rewrite wrap64_small; unfold is_u64, u64_max; lia.
Qed.

Lemma entries_count_exact_witness :
  let s := (Memory.put (bs "k") (bs "v") Memory.new).2 in
  count_ok (Memory.put (bs "k") (bs "w") s).2
  ∧ count_ok (Memory.put_with_return (bs "k") (bs "w") s).2
  ∧ count_ok (Memory.delete (bs "k") s).2.
Proof.
  apply (entries_count_exact (bs "k") (bs "w")); [repeat constructor|split; vm_compute; [reflexivity|split; discriminate]|reflexivity].
Defined.

(** The size counter drifts: overwriting a key through [put] adds the whole new pair
    without taking the old one off, so the counter overstates the bytes held by the
    size of the overwritten pair. ([put_with_return] accounts for it.) *)
Theorem put_update_size_drift key value old s :
  bt_get key (data s) = Some old →
  (Stats.total_size_bytes (stats (Memory.put key value s).2)
   = wrap64 (Stats.total_size_bytes (stats s) + (blen key + blen value)))%Z
  ∧ (0 ≤ Stats.total_size_bytes (stats s) →
     blen key + blen old ≤ Stats.total_size_bytes (stats s) →
     Stats.total_size_bytes (stats s) + (blen key + blen value) ≤ u64_max →
     Stats.total_size_bytes (stats (Memory.put_with_return key value s).2)
     = Stats.total_size_bytes (stats (Memory.put key value s).2) - (blen key + blen old))%Z.
Proof.
  intros Hk. split; [done|]. intros H0 H1 H2. simpl. rewrite Hk. simpl.
  rewrite (wrap64_small (_ + (_ + _))) by (unfold is_u64; lia).
  destruct (_ <=? _)%Z eqn:E; rewrite wrap64_small; unfold is_u64, u64_max in *; lia.
Qed.

Lemma put_update_size_drift_witness :
  let s := (Memory.put (bs "k") (bs "v") Memory.new).2 in
  Stats.total_size_bytes (stats (Memory.put (bs "k") (bs "v") s).2) = 4%Z
  ∧ total_size (data (Memory.put (bs "k") (bs "v") s).2) = 2%Z.
Proof.
  split; [|reflexivity].
  etransitivity;
    [apply (put_update_size_drift (bs "k") (bs "v") (bs "v")); reflexivity|reflexivity].
Defined.
