(* ===== verification/MemoryTx.v ===== *)
(** * Transactions of the in-memory backend

    [MemoryTransaction] of [commons/oprc-dp-storage/src/backends/memory.rs]: operations
    are buffered and applied to the shared map by [commit]; reads look at the buffer
    first and then at the shared map as it is at that moment. *)

From stdpp Require Import base tactics list numbers option gmap sorting strings.
From S2P Require Import Prelude BTree Backend Memory.

Set Default Proof Using "Type".
Local Open Scope prog_scope.

Module Tx.

Inductive TransactionOperation : Type :=
| Put (key value : bytes)
| Delete (key : bytes).

Definition op_key (o : TransactionOperation) : bytes :=
  match o with Put k _ => k | Delete k => k end.

(** The transaction and the map it shares with the backend. *)
Record MemoryTransaction := {
  shared : store;
  operations : list TransactionOperation;
  committed : bool;
}.

Definition new (d : store) : MemoryTransaction :=
  {| shared := d; operations := []; committed := false |}.

Definition push (o : TransactionOperation) (t : MemoryTransaction) : MemoryTransaction :=
  {| shared := shared t; operations := operations t ++ [o]; committed := committed t |}.

Definition op (A : Type) : Type := M MemoryTransaction StorageError A.

(** The first operation on [key] in a list: [Some (Some v)] for a put, [Some None] for
    a delete, [None] when the key is not touched. *)
Fixpoint pending (key : bytes) (ops : list TransactionOperation) : option (option bytes) :=
  match ops with
  | [] => None
  | Put k v :: ops => if bool_decide (k = key) then Some (Some v) else pending key ops
  | Delete k :: ops => if bool_decide (k = key) then Some None else pending key ops
  end.

Definition get (key : bytes) : op (option bytes) :=
  gets (λ t, match pending key (reverse (operations t)) with
             | Some r => r
             | None => bt_get key (shared t)
             end).

Definition put (key value : bytes) : op unit :=
  λ t, if committed t then (Err (Transaction "Transaction already committed"), t)
       else (Ok tt, push (Put key value) t).

Definition delete (key : bytes) : op unit :=
  λ t, if committed t then (Err (Transaction "Transaction already committed"), t)
       else (Ok tt, push (Delete key) t).

Definition exists_ (key : bytes) : op bool :=
  let! v := get key in ret (bool_decide (is_Some v)).

Definition apply_op (d : store) (o : TransactionOperation) : store :=
  match o with Put k v => bt_insert k v d | Delete k => bt_remove k d end.

Definition commit : op unit :=
  λ t, if committed t then (Err (Transaction "Transaction already committed"), t)
       else (Ok tt, {| shared := foldl apply_op (shared t) (operations t);
                       operations := operations t; committed := true |}).

Definition rollback : op unit :=
  modify (λ t, {| shared := shared t; operations := []; committed := true |}).

Fixpoint batch_put (entries : list (bytes * bytes)) : op unit :=
  match entries with
  | [] => ret tt
  | (k, v) :: entries => put k v ;;; batch_put entries
  end.

Definition multi_get (keys : list bytes) : op (list (option bytes)) :=
  gets (λ t, (λ k, match pending k (reverse (operations t)) with
                   | Some r => r
                   | None => bt_get k (shared t)
                   end) <$> keys).

(** [sort_by] on keys: a stable sort. *)
Fixpoint insert_sorted (x : bytes * bytes) (l : store) : store :=
  match l with
  | [] => [x]
  | y :: l' => if leb x.1 y.1 then x :: l else y :: insert_sorted x l'
  end.
Definition sort_by_key (l : store) : store := foldr insert_sorted [] l.

(** The stored pairs of the range, each replaced or dropped by the latest pending
    operation on its key. *)
Definition scan_stored (t : MemoryTransaction) (l : store) : store :=
  omap (λ kv, match pending kv.1 (reverse (operations t)) with
              | Some (Some v) => Some (kv.1, v)
              | Some None => None
              | None => Some kv
              end) l.

(** The loop that adds keys from pending puts, in buffer order, unless the key is
    already among the results. *)
Definition scan_add (start stop : bytes) (results : store) (o : TransactionOperation) : store :=
  match o with
  | Put k v =>
      if leb start k && ltb k stop && negb (bool_decide (k ∈ results.*1))
      then results ++ [(k, v)] else results
  | Delete _ => results
  end.

Definition scan_range (start stop : bytes) : op store :=
  λ t, (res_bind (bt_range (Included start) (Excluded stop) (shared t))
          (λ l, Ok (sort_by_key
                      (foldl (scan_add start stop) (scan_stored t l) (operations t)))), t).

Definition compare_and_swap (key : bytes) (expected new_value : option bytes) : op bool :=
  λ t, if committed t then (Err (Transaction "Transaction already committed"), t)
       else
         let current :=
           match pending key (reverse (operations t)) with
           | Some r => r
           | None => bt_get key (shared t)
           end in
         let matches :=
           match current, expected with
           | Some c, Some e => bool_decide (c = e)
           | None, None => true
           | _, _ => false
           end in
         if matches then
           (Ok true, push (match new_value with
                           | Some v => Put key v
                           | None => Delete key
                           end) t)
         else (Ok false, t).

(** ** Commit *)

Lemma apply_ops_wf ops d : bt_wf d → bt_wf (foldl apply_op d ops).
Proof. revert d. induction ops as [|[] ops IH]; simpl; intros; auto with oprc. Qed.

Lemma get_apply_op key d o :
  bt_wf d →
  bt_get key (apply_op d o)
  = match pending key [o] with Some r => r | None => bt_get key d end.
Proof.
  intros Hd. destruct o as [k v|k]; simpl; case_bool_decide; subst;
    auto using bt_get_insert_eq, bt_get_insert_ne, bt_get_remove_eq, bt_get_remove_ne.
Qed.

Lemma pending_app key o1 o2 :
  pending key (o1 ++ o2) = match pending key o1 with Some r => Some r | None => pending key o2 end.
Proof. induction o1 as [|[k v|k] o1 IH]; simpl; try case_bool_decide; auto. Qed.

Lemma get_apply_ops key ops d :
  bt_wf d →
  bt_get key (foldl apply_op d ops)
  = match pending key (reverse ops) with Some r => r | None => bt_get key d end.
Proof.
  intros Hd. induction ops as [|o ops IH] using rev_ind; [done|].
  rewrite foldl_app, reverse_snoc. cbn [foldl]. rewrite get_apply_op by (by apply apply_ops_wf).
  change (o :: reverse ops) with ([o] ++ reverse ops). rewrite pending_app, IH.
  by destruct (pending key [o]).
Qed.

(** Read your own writes: what a transaction reads for a key is what the shared map
    holds for it once the transaction has committed, and committing is the buffered
    operations applied in order. *)
Theorem commit_read_your_writes key t t' :
  bt_wf (shared t) → commit t = (Ok tt, t') →
  (get key t).1 = Ok (bt_get key (shared t'))
  ∧ shared t' = foldl apply_op (shared t) (operations t) ∧ bt_wf (shared t').
Proof.
  unfold commit. intros Hd. destruct (committed t); [done|]. intros [= <-]. simpl.
  split; [|split; [done|by apply apply_ops_wf]]. f_equal. symmetry. by apply get_apply_ops.
Qed.

Lemma commit_read_your_writes_witness :
  let t := push (Delete (bs "a")) (push (Put (bs "b") (bs "2")) (new [(bs "a", bs "1")])) in
  (get (bs "a") t).1 = Ok None ∧ shared (commit t).2 = [(bs "b", bs "2")].
Proof.
  split.
  - exact (proj1 (commit_read_your_writes (bs "a")
      (push (Delete (bs "a")) (push (Put (bs "b") (bs "2")) (new [(bs "a", bs "1")])))
      _ ltac:(repeat constructor) eq_refl)).
  - reflexivity.
Defined.

(** Nothing reaches the shared map before [commit]: writes only grow the buffer, and a
    rolled back or committed transaction accepts no further operation. *)
Theorem tx_isolation key value t :
  shared (put key value t).2 = shared t ∧ shared (delete key t).2 = shared t
  ∧ shared (rollback t).2 = shared t
  ∧ (∀ r t', rollback t = (r, t') ∨ commit t = (r, t') →
     (put key value t').1 = Err (Transaction "Transaction already committed")
     ∧ (commit t').1 = Err (Transaction "Transaction already committed")).
Proof.
  unfold put, delete, commit, rollback, modify. destruct (committed t) eqn:E; simpl;
    (split; [done|]); (split; [done|]); (split; [done|]);
    intros r t' [[= <- <-]|[= <- <-]]; simpl; rewrite ?E; done.
Qed.

(** ** Range scans inside a transaction *)

Lemma insert_sorted_elem x y l : y ∈ insert_sorted x l ↔ y = x ∨ y ∈ l.
Proof.
  induction l as [|z l IH]; simpl; [set_solver|]. destruct (leb x.1 z.1); set_solver.
Qed.

Lemma insert_sorted_wf x l :
  x.1 ∉ l.*1 → bt_wf l → bt_wf (insert_sorted x l).
Proof.
  intros Hx. induction 1 as [|z l Hl IH Hall]; simpl; [repeat constructor|].
  destruct x as [k v], z as [k' v']. simpl in *.
  destruct (leb k k') eqn:E.
  - apply leb_spec in E as [E|E]; [|set_solver].
    apply bt_wf_cons; [by apply bt_wf_cons|]. constructor; [done|].
    eapply Forall_impl; [exact Hall|]. intros [? ?]; unfold key_lt; simpl; eauto using cmp_trans.
  - apply bt_wf_cons; [apply IH; set_solver|]. apply Forall_forall.
    intros y [->|Hy]%insert_sorted_elem.
    + rewrite leb_ltb, negb_false_iff in E. by apply ltb_lt in E.
    + rewrite Forall_forall in Hall. by apply Hall.
Qed.

Lemma sort_by_key_elem y l : y ∈ sort_by_key l ↔ y ∈ l.
Proof. induction l as [|x l IH]; simpl; [done|]. rewrite insert_sorted_elem, IH. set_solver. Qed.

Lemma sort_by_key_wf l : NoDup l.*1 → bt_wf (sort_by_key l).
Proof.
  induction l as [|x l IH]; simpl; [constructor|]. intros [Hx Hl]%NoDup_cons.
  apply insert_sorted_wf; [|by apply IH]. rewrite list_elem_of_fmap in Hx |- *.
  intros (y & Hy & Hin). rewrite sort_by_key_elem in Hin. apply Hx. by exists y.
Qed.

Definition op_val (o : TransactionOperation) : option bytes :=
  match o with Put _ v => Some v | Delete _ => None end.

Lemma pending_Some key ops r :
  pending key ops = Some r → ∃ o, o ∈ ops ∧ op_key o = key ∧ op_val o = r.
Proof.
  induction ops as [|o ops IH]; [done|]. destruct o as [k v|k]; simpl; case_bool_decide.
  - intros [= <-]. exists (Put k v). set_solver.
  - intros (o & ? & ? & ?)%IH. exists o. set_solver.
  - intros [= <-]. exists (Delete k). set_solver.
  - intros (o & ? & ? & ?)%IH. exists o. set_solver.
Qed.

Lemma pending_None key ops o : pending key ops = None → o ∈ ops → op_key o ≠ key.
Proof.
  induction ops as [|[k v|k] ops IH]; simpl; [set_solver|..]; case_bool_decide; try done;
    intros Hp [->|Ho]%elem_of_cons; eauto.
Qed.

Lemma op_unique ops o1 o2 :
  NoDup (op_key <$> ops) → o1 ∈ ops → o2 ∈ ops → op_key o1 = op_key o2 → o1 = o2.
Proof.
  induction ops as [|o ops IH]; simpl; [set_solver|]. intros [Ho Hn]%NoDup_cons.
  rewrite list_elem_of_fmap in Ho.
  intros [->|H1]%elem_of_cons [->|H2]%elem_of_cons Heq; eauto; exfalso; apply Ho; eauto.
Qed.

Lemma scan_add_spec start stop ops results :
  NoDup (op_key <$> ops) → NoDup results.*1 →
  NoDup (foldl (scan_add start stop) results ops).*1
  ∧ ∀ k v, (k, v) ∈ foldl (scan_add start stop) results ops ↔
      (k, v) ∈ results
      ∨ in_bounds (Included start) (Excluded stop) k = true ∧ Put k v ∈ ops ∧ k ∉ results.*1.
Proof.
  revert results. induction ops as [|o ops IH]; intros results; simpl.
  { intros _ Hr. split; [done|]. set_solver. }
  intros [Ho Hn]%NoDup_cons Hr. destruct o as [k' v'|k']; simpl in *.
  2:{ destruct (IH results Hn Hr) as [H1 H2]. split; [done|]. intros. rewrite H2. set_solver. }
  assert (∀ v, Put k' v ∉ ops) as Hfresh.
  { intros v Hv. apply Ho. apply list_elem_of_fmap. exists (Put k' v). done. }
  destruct (leb start k' && ltb k' stop) eqn:Hb; simpl.
  2:{ destruct (IH results Hn Hr) as [H1 H2]. split; [done|]. intros k v. rewrite H2.
      unfold in_bounds; simpl. split; [set_solver|].
      intros [?|(Hk & [[= -> ->]|?]%elem_of_cons & ?)]; [auto|congruence|auto]. }
  case_bool_decide as Hin; simpl.
  { destruct (IH results Hn Hr) as [H1 H2]. split; [done|]. intros k v. rewrite H2.
    split; [set_solver|]. intros [?|(Hk & [[= -> ->]|?]%elem_of_cons & ?)]; auto; done. }
  destruct (IH (results ++ [(k', v')]) Hn) as [H1 H2].
  { rewrite fmap_app. simpl. apply NoDup_app. split; [done|]. split; [set_solver|].
    apply NoDup_singleton. }
  split; [done|]. intros k v. rewrite H2, fmap_app. simpl.
  rewrite !elem_of_app, list_elem_of_singleton. split.
  - intros [[?|[= -> ->]]|(? & ? & ?)]; [auto| |set_solver]. right. split; [done|]. set_solver.
  - intros [?|(Hk & [[= -> ->]|Hp]%elem_of_cons & Hnr)]; [auto|auto|].
    right. split; [done|]. split; [done|]. intros [?|Heq%list_elem_of_singleton]; [done|].
    subst. by apply (Hfresh v).
Qed.

Lemma scan_stored_elem t l k v :
  (k, v) ∈ scan_stored t l ↔
  match pending k (reverse (operations t)) with
  | Some r => r = Some v ∧ k ∈ l.*1
  | None => (k, v) ∈ l
  end.
Proof.
  unfold scan_stored. rewrite list_elem_of_omap. split.
  - intros ([k' v'] & Hin & Heq). simpl in Heq.
    destruct (pending k' _) as [[w|]|] eqn:E; simplify_eq; rewrite E; [|done].
    split; [done|]. apply list_elem_of_fmap. by exists (k, v').
  - destruct (pending k _) as [r|] eqn:E.
    + intros [-> ([k' v'] & -> & Hin)%list_elem_of_fmap]. exists (k', v'). simpl in *.
      by rewrite E.
    + intros Hin. exists (k, v). simpl. by rewrite E.
Qed.

Lemma scan_stored_NoDup t l : bt_wf l → NoDup (scan_stored t l).*1.
Proof.
  intros Hl. unfold scan_stored. induction Hl as [|[k v] l Hl IH Hall]; simpl; [constructor|].
  assert (k ∉ (scan_stored t l).*1) as Hk.
  { intros ([k' v'] & -> & Hin)%list_elem_of_fmap. simpl in *.
    assert (k' ∈ l.*1) as ([? w] & -> & Hl')%list_elem_of_fmap.
    { apply scan_stored_elem in Hin. destruct (pending k' _); [naive_solver|].
      apply list_elem_of_fmap. by exists (k', v'). }
    rewrite Forall_forall in Hall. apply Hall in Hl'. unfold key_lt in Hl'. simpl in *.
    by rewrite cmp_refl in Hl'. }
  destruct (pending k _) as [[w|]|]; simpl; [|done|]; by apply NoDup_cons.
Qed.

Lemma pending_reverse_put ops k v r :
  NoDup (op_key <$> ops) → pending k (reverse ops) = r → Put k v ∈ ops → r = Some (Some v).
Proof.
  intros Hn Hp Hin. destruct r as [r|].
  - apply pending_Some in Hp as (o & Ho & Hk & <-). rewrite elem_of_reverse in Ho.
    by rewrite (op_unique ops o (Put k v)).
  - by destruct (pending_None k _ (Put k v) Hp ltac:(by rewrite elem_of_reverse)).
Qed.

(** Membership in the scan before sorting, for a transaction touching keys once. *)
Lemma scan_results_elem start stop t l k v :
  bt_wf (shared t) → NoDup (op_key <$> operations t) →
  l = bt_in_range (Included start) (Excluded stop) (shared t) →
  (k, v) ∈ foldl (scan_add start stop) (scan_stored t l) (operations t) ↔
  in_bounds (Included start) (Excluded stop) k = true
  ∧ bt_get k (foldl apply_op (shared t) (operations t)) = Some v.
Proof.
  intros Hd Hn ->. set (l := bt_in_range _ _ _).
  assert (bt_wf l) as Hl by by apply bt_wf_filter.
  rewrite (proj2 (scan_add_spec start stop _ _ Hn (scan_stored_NoDup t l Hl))).
  rewrite get_apply_ops by done. rewrite scan_stored_elem.
  pose proof (elem_of_in_range k (Included start) (Excluded stop) _ Hd) as Hk. fold l in Hk.
  destruct (pending k (reverse (operations t))) as [r|] eqn:Hp.
  - split.
    + intros [[-> Hin]|(Hb & Hput & _)]; [by apply Hk in Hin as []|].
      pose proof (pending_reverse_put _ _ _ _ Hn Hp Hput). naive_solver.
    + intros [Hb ->]. destruct (decide (k ∈ l.*1)) as [Hin|Hin]; [by left|right].
      split; [done|]. apply pending_Some in Hp as ([k' v'|k'] & Ho & Hk' & Hv); simplify_eq/=.
      rewrite elem_of_reverse in Ho. split; [done|]. intros ([k1 v1] & Heq & Hs)%list_elem_of_fmap.
      simpl in Heq; subst k1.
      apply scan_stored_elem in Hs. destruct (pending k _); [naive_solver|].
      apply Hin. apply list_elem_of_fmap. by exists (k, v1).
  - split.
    + intros [Hin|(Hb & Hput & _)].
      * apply list_elem_of_filter in Hin as [Hb Hin]. rewrite Is_true_true in Hb.
        split; [done|]. by apply bt_get_elem.
      * by destruct (pending_None k _ (Put k v) Hp ltac:(by rewrite elem_of_reverse)).
    + intros [Hb Hg]. left. apply list_elem_of_filter. rewrite Is_true_true.
      split; [done|]. by apply bt_get_elem.
Qed.

(** A range scan in a transaction that touches each key at most once returns exactly
    the range as it will be after the commit. *)
Theorem scan_range_after_commit start stop t :
  bt_wf (shared t) → leb start stop = true → NoDup (op_key <$> operations t) →
  (scan_range start stop t).1
  = Ok (bt_in_range (Included start) (Excluded stop)
          (foldl apply_op (shared t) (operations t))).
Proof.
  intros Hd Hle Hn. unfold scan_range.
  rewrite bt_range_ok by (simpl; by rewrite leb_ltb, negb_true_iff in Hle). simpl. f_equal.
  set (l := bt_in_range _ _ (shared t)).
  assert (bt_wf l) as Hl by by apply bt_wf_filter.
  assert (bt_wf (foldl apply_op (shared t) (operations t))) as Hc by by apply apply_ops_wf.
  pose proof (proj1 (scan_add_spec start stop _ _ Hn (scan_stored_NoDup t l Hl))) as Hnd.
  apply bt_ext; [by apply sort_by_key_wf|by apply bt_wf_filter|].
  intros k. apply option_eq. intros v.
  rewrite !bt_get_elem; [|by apply bt_wf_filter|by apply sort_by_key_wf].
  rewrite sort_by_key_elem, (scan_results_elem start stop t l) by done.
  unfold bt_in_range. rewrite list_elem_of_filter, Is_true_true. simpl.
  by rewrite bt_get_elem.
Qed.

Lemma scan_range_after_commit_witness :
  let t := push (Delete (bs "a")) (push (Put (bs "b") (bs "2")) (new [(bs "a", bs "1")])) in
  (scan_range (bs "a") (bs "z") t).1 = Ok [(bs "b", bs "2")].
Proof.
  exact (scan_range_after_commit (bs "a") (bs "z")
    (push (Delete (bs "a")) (push (Put (bs "b") (bs "2")) (new [(bs "a", bs "1")])))
    ltac:(repeat constructor) eq_refl
    ltac:(decide_now)).
Defined.

(** With several operations on one key the scan disagrees with point reads: a key put
    and then deleted is still listed, and of two puts on a new key the first value is
    listed. *)
Theorem scan_range_stale_write k v1 v2 start stop :
  leb start k = true → ltb k stop = true →
  (scan_range start stop (push (Delete k) (push (Put k v1) (new [])))).1 = Ok [(k, v1)]
  ∧ (get k (push (Delete k) (push (Put k v1) (new [])))).1 = Ok None
  ∧ (scan_range start stop (push (Put k v2) (push (Put k v1) (new [])))).1 = Ok [(k, v1)]
  ∧ (get k (push (Put k v2) (push (Put k v1) (new [])))).1 = Ok (Some v2).
Proof.
  intros H1 H2. unfold scan_range, get. simpl. rewrite H1, H2. simpl.
  rewrite !(bool_decide_true (k = k)) by done.
  rewrite (bool_decide_true (k ∈ [k])) by left. done.
Qed.

Lemma scan_range_stale_write_witness :
  (scan_range (bs "a") (bs "z") (push (Delete (bs "k")) (push (Put (bs "k") (bs "1")) (new [])))).1
  = Ok [(bs "k", bs "1")].
Proof. apply (scan_range_stale_write (bs "k") (bs "1") (bs "2") (bs "a") (bs "z")); reflexivity. Defined.

End Tx.
