(* ===== verification/SkipList.v ===== *)
(** * The skip-list backend

    [commons/oprc-dp-storage/src/backends/skiplist.rs]: the second in-memory backend. Its map is
    the [SkipMap] of the crossbeam library, a class of operations here, with what the backend
    relies on (an ordered map, when no other task writes) as its laws; sorted lists are an
    instance. It is shown to answer like [MemoryStorage]; its transactions, unlike those of
    [MemoryStorage], write through. *)

From stdpp Require Import base tactics list numbers option gmap sorting strings.
From S2P Require Import Prelude BTree Backend Memory MemoryTx.

Set Default Proof Using "Type".
Local Open Scope prog_scope.

(** The operations of [SkipMap] the backend calls. *)
Class SkipMap (T : Type) := {
  sm_new : T;
  sm_get : bytes → T → option bytes;
  sm_insert : bytes → bytes → T → T;
  sm_remove : bytes → T → T;
  sm_contains_key : bytes → T → bool;
  sm_range : Bound bytes → Bound bytes → T → list (bytes * bytes);
  sm_front : T → option (bytes * bytes);
  sm_back : T → option (bytes * bytes);
  sm_len : T → nat;
  sm_clear : T → T;
  sm_iter : T → list (bytes * bytes);
}.

(** It is an ordered map; a range whose start lies above its end is not relied on. *)
Class SkipMapLaws (T : Type) `{SkipMap T} := {
  view : T → store;
  view_wf t : bt_wf (view t);
  view_new : view sm_new = [];
  view_get k t : sm_get k t = bt_get k (view t);
  view_insert k v t : view (sm_insert k v t) = bt_insert k v (view t);
  view_remove k t : view (sm_remove k t) = bt_remove k (view t);
  view_contains k t : sm_contains_key k t = bt_contains k (view t);
  view_range lo hi t : range_panics lo hi = false → sm_range lo hi t = bt_in_range lo hi (view t);
  view_front t : sm_front t = bt_first (view t);
  view_back t : sm_back t = bt_last (view t);
  view_len t : sm_len t = length (view t);
  view_clear t : view (sm_clear t) = [];
  view_iter t : sm_iter t = view t;
}.

Record SkipListStorage (T : Type) := { sk_data : T; sk_stats : Stats.AtomicStats }.
Arguments sk_data {T} _.
Arguments sk_stats {T} _.
Arguments Build_SkipListStorage {T} _ _.

Module SkipList.
Section skiplist.
Context `{SkipMap T}.

Definition op (A : Type) : Type := M (SkipListStorage T) StorageError A.

Definition set_data (d : T) (s : SkipListStorage T) := Build_SkipListStorage d (sk_stats s).
Definition upd_stats (f : Stats.AtomicStats → Stats.AtomicStats) (s : SkipListStorage T) :=
  Build_SkipListStorage (sk_data s) (f (sk_stats s)).

Definition new : SkipListStorage T := Build_SkipListStorage sm_new Stats.new.

Definition get (key : bytes) : op (option bytes) := gets (λ s, sm_get key (sk_data s)).

Definition put (key value : bytes) : op bool := λ s,
  let existing := bool_decide (is_Some (sm_get key (sk_data s))) in
  (Ok existing,
   upd_stats (Stats.record_put (blen key) (blen value) existing)
     (set_data (sm_insert key value (sk_data s)) s)).

Definition put_with_return (key value : bytes) : op (option bytes) := λ s,
  let previous := sm_get key (sk_data s) in
  (Ok previous,
   upd_stats (Stats.record_put_with_old_size (blen key) (blen value) ((λ v, blen v) <$> previous))
     (set_data (sm_insert key value (sk_data s)) s)).

Definition delete (key : bytes) : op unit := λ s,
  match sm_get key (sk_data s) with
  | Some value =>
      (Ok tt, upd_stats (Stats.record_delete (blen key) (blen value))
                (set_data (sm_remove key (sk_data s)) s))
  | None => (Ok tt, s)
  end.

Definition delete_range (lo hi : Bound bytes) : op Z := λ s,
  let items := sm_range lo hi (sk_data s) in
  let s' := set_data (foldl (λ d kv, sm_remove kv.1 d) (sk_data s) items) s in
  (Ok (Z.of_nat (length items)),
   if bool_decide (items = []) then s'
   else upd_stats (Stats.record_delete_batch (Z.of_nat (length items)) (total_size items)) s').

Definition exists_ (key : bytes) : op bool := gets (λ s, sm_contains_key key (sk_data s)).

(** The end of a prefix scan is computed as in [MemoryStorage]. *)
Definition scan (prefix : bytes) : op store :=
  gets (λ s, sm_range (Included prefix) (Memory.scan_end prefix) (sk_data s)).

Definition scan_range (lo hi : Bound bytes) : op store := gets (λ s, sm_range lo hi (sk_data s)).
Definition scan_range_reverse (lo hi : Bound bytes) : op store :=
  gets (λ s, reverse (sm_range lo hi (sk_data s))).

Definition get_last : op (option (bytes * bytes)) := gets (λ s, sm_back (sk_data s)).
Definition get_first : op (option (bytes * bytes)) := gets (λ s, sm_front (sk_data s)).
Definition count : op Z := gets (λ s, Z.of_nat (sm_len (sk_data s))).
Definition flush : op unit := ret tt.
Definition compact : op unit := ret tt.
Definition close : op unit := modify (λ s, set_data (sm_clear (sk_data s)) s).

Definition create_snapshot : op Memory.Snapshot :=
  gets (λ s, let l := sm_iter (sk_data s) in
    {| Memory.snapshot_data := l; Memory.entry_count := Z.of_nat (length l);
       Memory.total_size_bytes := total_size l |}).

Definition restore_from_snapshot (snap : Memory.Snapshot) : op unit :=
  modify (λ s,
    let l := Memory.snapshot_data snap in
    upd_stats (Stats.set_counts (Z.of_nat (length l)) (total_size l))
      (set_data (foldl (λ d kv, sm_insert kv.1 kv.2 d) (sm_clear (sk_data s)) l) s)).

Definition latest_snapshot : op (option Memory.Snapshot) := bind create_snapshot (λ x, ret (Some x)).

Definition estimate_snapshot_size (l : store) : op Z := ret (total_size l).

Fixpoint install_loop (items : list (res StorageError (bytes * bytes))) : op unit :=
  match items with
  | [] => ret tt
  | r :: items =>
      let! kv := lift_res r in
      modify (λ s, upd_stats (Stats.record_put (blen kv.1) (blen kv.2) false)
                     (set_data (sm_insert kv.1 kv.2 (sk_data s)) s)) ;;;
      install_loop items
  end.

Definition install_kv_snapshot_from_stream (items : list (res StorageError (bytes * bytes))) :
    op unit :=
  modify (λ s, upd_stats Stats.reset (set_data (sm_clear (sk_data s)) s)) ;;;
  install_loop items.

(** [SkipListSnapshotStream]: what the stream yields, one item per poll. *)
Definition poll_next (items : store) : option (res StorageError (bytes * bytes)) * store :=
  match items with
  | [] => (None, [])
  | kv :: items => (Some (Ok kv), items)
  end.

(** A transaction is the shared map itself. *)
Definition tx_get (key : bytes) : op (option bytes) := get key.
Definition tx_put (key value : bytes) : op unit :=
  modify (λ s, set_data (sm_insert key value (sk_data s)) s).
Definition tx_delete (key : bytes) : op unit :=
  modify (λ s, set_data (sm_remove key (sk_data s)) s).
Definition tx_exists (key : bytes) : op bool := exists_ key.
Definition tx_commit : op unit := ret tt.
Definition tx_rollback : op unit :=
  throw (Backend "Rollback not supported in SkipList backend").
End skiplist.
End SkipList.

(** Sorted lists are such a map. *)
Definition sorted_map : Type := { l : store | bt_wf l }.

Lemma nil_wf : bt_wf ([] : store).
Proof. constructor. Qed.

#[global] Instance sorted_skip_map : SkipMap sorted_map := {|
  sm_new := exist _ [] nil_wf;
  sm_get k t := bt_get k (proj1_sig t);
  sm_insert k v t := exist _ (bt_insert k v (proj1_sig t)) (bt_insert_wf k v _ (proj2_sig t));
  sm_remove k t := exist _ (bt_remove k (proj1_sig t)) (bt_remove_wf k _ (proj2_sig t));
  sm_contains_key k t := bt_contains k (proj1_sig t);
  sm_range lo hi t := bt_in_range lo hi (proj1_sig t);
  sm_front t := bt_first (proj1_sig t);
  sm_back t := bt_last (proj1_sig t);
  sm_len t := length (proj1_sig t);
  sm_clear t := exist _ [] nil_wf;
  sm_iter t := proj1_sig t |}.

#[global] Program Instance sorted_skip_map_laws : SkipMapLaws sorted_map := {| view := proj1_sig |}.
Next Obligation. intros t. exact (proj2_sig t). Qed.
Solve All Obligations with done.

(** ** The two backends *)

(** The calls of [StorageBackend] and of the snapshots, and their answers. *)
Inductive Call : Type :=
| CGet (k : bytes) | CPut (k v : bytes) | CPutReturn (k v : bytes) | CDelete (k : bytes)
| CDeleteRange (lo hi : Bound bytes) | CExists (k : bytes) | CScan (p : bytes)
| CScanRange (lo hi : Bound bytes) | CScanReverse (lo hi : Bound bytes)
| CLast | CFirst | CCount | CFlush | CCompact | CClose | CSnapshot
| CRestore (l : store).

Inductive Answer : Type :=
| AValue (v : option bytes) | ABool (b : bool) | AUnit | ACount (n : Z) | APairs (l : store)
| APair (p : option (bytes * bytes)) | ASnapshot (s : Memory.Snapshot).

Definition answer {S A} (f : A → Answer) (c : M S StorageError A) : M S StorageError Answer :=
  bind c (λ a, ret (f a)).

Definition snapshot_of (l : store) : Memory.Snapshot :=
  {| Memory.snapshot_data := l; Memory.entry_count := Z.of_nat (length l);
     Memory.total_size_bytes := total_size l |}.

Definition run_memory (c : Call) : M MemoryStorage StorageError Answer :=
  match c with
  | CGet k => answer AValue (Memory.get k)
  | CPut k v => answer ABool (Memory.put k v)
  | CPutReturn k v => answer AValue (Memory.put_with_return k v)
  | CDelete k => answer (λ _, AUnit) (Memory.delete k)
  | CDeleteRange lo hi => answer ACount (Memory.delete_range lo hi)
  | CExists k => answer ABool (Memory.exists_ k)
  | CScan p => answer APairs (Memory.scan p)
  | CScanRange lo hi => answer APairs (Memory.scan_range lo hi)
  | CScanReverse lo hi => answer APairs (Memory.scan_range_reverse lo hi)
  | CLast => answer APair Memory.get_last
  | CFirst => answer APair Memory.get_first
  | CCount => answer ACount Memory.count
  | CFlush => answer (λ _, AUnit) Memory.flush
  | CCompact => answer (λ _, AUnit) Memory.compact
  | CClose => answer (λ _, AUnit) Memory.close
  | CSnapshot => answer ASnapshot Memory.create_snapshot
  | CRestore l => answer (λ _, AUnit) (Memory.restore_from_snapshot (snapshot_of l))
  end.

Fixpoint run_calls {S} (run : Call → M S StorageError Answer) (calls : list Call) (s : S) :
    list (res StorageError Answer) * S :=
  match calls with
  | [] => ([], s)
  | c :: calls =>
      let '(r, s) := run c s in
      let '(rs, s) := run_calls run calls s in
      (r :: rs, s)
  end.

Section equivalence.
Context `{SkipMapLaws T}.

Definition run_skiplist (c : Call) : M (SkipListStorage T) StorageError Answer :=
  match c with
  | CGet k => answer AValue (SkipList.get k)
  | CPut k v => answer ABool (SkipList.put k v)
  | CPutReturn k v => answer AValue (SkipList.put_with_return k v)
  | CDelete k => answer (λ _, AUnit) (SkipList.delete k)
  | CDeleteRange lo hi => answer ACount (SkipList.delete_range lo hi)
  | CExists k => answer ABool (SkipList.exists_ k)
  | CScan p => answer APairs (SkipList.scan p)
  | CScanRange lo hi => answer APairs (SkipList.scan_range lo hi)
  | CScanReverse lo hi => answer APairs (SkipList.scan_range_reverse lo hi)
  | CLast => answer APair SkipList.get_last
  | CFirst => answer APair SkipList.get_first
  | CCount => answer ACount SkipList.count
  | CFlush => answer (λ _, AUnit) SkipList.flush
  | CCompact => answer (λ _, AUnit) SkipList.compact
  | CClose => answer (λ _, AUnit) SkipList.close
  | CSnapshot => answer ASnapshot SkipList.create_snapshot
  | CRestore l => answer (λ _, AUnit) (SkipList.restore_from_snapshot (snapshot_of l))
  end.

(** The ranges a call asks for are in order. *)
Definition in_order (c : Call) : Prop :=
  match c with
  | CDeleteRange lo hi | CScanRange lo hi | CScanReverse lo hi => range_panics lo hi = false
  | _ => True
  end.

(** Same pairs, same counters. *)
Definition same_state (s : MemoryStorage) (t : SkipListStorage T) : Prop :=
  data s = view (sk_data t) ∧ stats s = sk_stats t.

Lemma scan_in_order p : range_panics (Included p) (Memory.scan_end p) = false.
Proof.
  unfold Memory.scan_end. destruct (last p) as [b|] eqn:E; [|done].
  apply last_Some in E as [q ->]. rewrite removelast_snoc. pose proof (bz_range b).
  destruct (Z.eqb_spec (bz b) 255); simpl.
  - unfold ltb. rewrite <- (app_nil_r (q ++ [b])) at 2. by rewrite cmp_app_same.
  - apply (scan_range_no_panic q b). apply bz_zb_small. lia.
Qed.

Lemma view_removes items d :
  view (foldl (λ d kv, sm_remove kv.1 d) d items)
  = foldl (λ d (kv : bytes * bytes), bt_remove kv.1 d) (view d) items.
Proof. revert d. induction items as [|kv l IH]; intros d; simpl; [done|]. by rewrite IH, view_remove. Qed.

Lemma view_inserts items d :
  view (foldl (λ d kv, sm_insert kv.1 kv.2 d) d items)
  = foldl (λ d (kv : bytes * bytes), bt_insert kv.1 kv.2 d) (view d) items.
Proof. revert d. induction items as [|kv l IH]; intros d; simpl; [done|]. by rewrite IH, view_insert. Qed.

(** One call. *)
Lemma same_call c s t : in_order c → same_state s t →
  ∃ a s' t', run_memory c s = (Ok a, s') ∧ run_skiplist c t = (Ok a, t') ∧ same_state s' t'.
Proof.
  intros Hc [Hd Hs]. destruct s as [d st], t as [e st']; simpl in Hd, Hs. subst d st.
  pose proof (view_wf e) as Hwf. pose proof (scan_in_order) as Hscan.
  destruct c; simpl in Hc |- *;
    unfold answer, bind, Memory.get, Memory.put, Memory.put_with_return, Memory.delete,
      Memory.delete_range, Memory.exists_, Memory.scan, Memory.scan_range,
      Memory.scan_range_reverse, Memory.get_last, Memory.get_first, Memory.count, Memory.flush,
      Memory.compact, Memory.close, Memory.create_snapshot, Memory.restore_from_snapshot,
      SkipList.get, SkipList.put, SkipList.put_with_return, SkipList.delete,
      SkipList.delete_range, SkipList.exists_, SkipList.scan, SkipList.scan_range,
      SkipList.scan_range_reverse, SkipList.get_last, SkipList.get_first, SkipList.count,
      SkipList.close, SkipList.create_snapshot, SkipList.restore_from_snapshot, gets, modify;
    simpl; rewrite ?view_get, ?view_contains, ?view_back, ?view_front, ?view_len, ?view_iter,
      ?bt_range_ok, ?view_range by auto; simpl;
    try (do 3 eexists; split; [done|]; split; [done|]; split; simpl;
         rewrite ?view_insert, ?view_remove, ?view_clear; done).
  - destruct (bt_get k (view e)); simpl; do 3 eexists; (split; [done|]); (split; [done|]);
      split; simpl; by rewrite ?view_remove.
  - case_bool_decide; do 3 eexists; (split; [done|]); (split; [done|]); split; simpl;
      by rewrite ?view_removes.
  - do 3 eexists. split; [done|]. split; [done|]. split; simpl; [by rewrite rebuild_id|done].
  - do 3 eexists. split; [done|]. split; [done|]. split; simpl; [|done].
    by rewrite view_inserts, view_clear.
Qed.

(** C29. Whatever calls are made, with their ranges in order, the two in-memory backends give the same
    answers, never an error, and keep the same pairs and counters. *)
Theorem backends_agree calls s t :
  Forall in_order calls → same_state s t →
  ∃ answers s' t',
    run_calls run_memory calls s = (Ok <$> answers, s') ∧
    run_calls run_skiplist calls t = (Ok <$> answers, t') ∧ same_state s' t'.
Proof.
  intros Hall. revert s t. induction Hall as [|c calls Hc _ IH]; intros s t Hst; simpl.
  { by exists [], s, t. }
  destruct (same_call c s t Hc Hst) as (a & s1 & t1 & -> & -> & Hst1).
  destruct (IH s1 t1 Hst1) as (l & s' & t' & -> & -> & Hst'). by exists (a :: l), s', t'.
Qed.

(** A transaction of the skip list writes through: what it put is there before it is committed,
    and a rollback is refused and undoes nothing. *)
Theorem skiplist_transaction_writes_through k v t :
  let '(r, t') := bind (SkipList.tx_put k v) (λ _, SkipList.tx_rollback) t in
  r = Err (Backend "Rollback not supported in SkipList backend") ∧
  (SkipList.get k t').1 = Ok (Some v) ∧ view (sk_data t') = bt_insert k v (view (sk_data t)).
Proof.
  simpl. split; [done|]. rewrite view_get, view_insert, bt_get_insert_eq. done.
Qed.
End equivalence.

Definition demo_calls : list Call :=
  [CPut (bs "b") (bs "1"); CPut (bs "a") (bs "2"); CScan []; CDelete (bs "a"); CCount].

Lemma backends_agree_witness : ∃ answers s' t',
  run_calls run_memory demo_calls Memory.new = (Ok <$> answers, s') ∧
  run_calls run_skiplist demo_calls (SkipList.new (T:=sorted_map)) = (Ok <$> answers, t') ∧
  answers !! 2 = Some (APairs [(bs "a", bs "2"); (bs "b", bs "1")]) ∧ same_state s' t'.
Proof.
  destruct (backends_agree (T:=sorted_map) demo_calls Memory.new SkipList.new)
    as (l & s' & t' & E1 & E2 & Hs).
  - repeat constructor.
  - by split.
  - exists l, s', t'. split; [exact E1|]. split; [exact E2|]. split; [|exact Hs].
    assert (E : (Ok <$> l : list (res StorageError Answer)) !! 2
      = Some (Ok (APairs [(bs "a", bs "2"); (bs "b", bs "1")]))).
    { apply (f_equal fst) in E1. simpl fst in E1 at 2. rewrite <- E1. vm_compute. reflexivity. }
    rewrite list_lookup_fmap in E. destruct (l !! 2) as [a|]; [|done]. by injection E as ->.
Defined.
