(* ===== verification/Fjall.v ===== *)
(** * The fjall backend

    [commons/oprc-dp-storage/src/backends/fjall/]: [backend.rs], [transaction.rs] and
    [snapshot.rs], the persistent backend a shard can be given. The database of the fjall crate
    is the class [Keyspace]: any call may fail, also in the middle of an iteration; its laws say
    what holds while it does not. *)

From stdpp Require Import base tactics list numbers option gmap sorting strings.
From S2P Require Import Prelude BTree Backend Memory MemoryTx SkipList.

Set Default Proof Using "Type".
Local Open Scope prog_scope.

(** The calls made of fjall: a keyspace [T] of an opened database, and its snapshots. An
    iterator is the list of what it yields. *)
Class Keyspace (T : Type) := {
  ks_error : Type;
  ks_io : ks_error → option string;
  ks_text : ks_error → string;
  ks_open : bytes → option Z → res ks_error (res ks_error T);
  ks_get : bytes → M T ks_error (option bytes);
  ks_contains_key : bytes → M T ks_error bool;
  ks_insert : bytes → bytes → M T ks_error unit;
  ks_remove : bytes → M T ks_error unit;
  ks_range : Bound bytes → Bound bytes → T → list (res ks_error (bytes * bytes));
  ks_prefix : bytes → T → list (res ks_error (bytes * bytes));
  ks_iter : T → list (res ks_error (bytes * bytes));
  ks_approximate_len : T → Z;
  ks_snap : Type;
  ks_snapshot : T → ks_snap;
  snap_len : ks_snap → res ks_error nat;
  snap_first : ks_snap → option (res ks_error (bytes * bytes));
  snap_last : ks_snap → option (res ks_error (bytes * bytes));
  snap_iter : ks_snap → list (res ks_error (bytes * bytes));
}.

(** While the disk works, a keyspace is an ordered map and a snapshot the map at its time. *)
Class KeyspaceLaws (T : Type) `{Keyspace T} := {
  ks_view : T → store;
  ks_view_wf t : bt_wf (ks_view t);
  ks_get_ok k t : ks_get k t = (Ok (bt_get k (ks_view t)), t);
  ks_contains_ok k t : ks_contains_key k t = (Ok (bt_contains k (ks_view t)), t);
  ks_insert_ok k v t : ∃ t', ks_insert k v t = (Ok tt, t') ∧ ks_view t' = bt_insert k v (ks_view t);
  ks_remove_ok k t : ∃ t', ks_remove k t = (Ok tt, t') ∧ ks_view t' = bt_remove k (ks_view t);
  ks_range_ok lo hi t : range_panics lo hi = false →
    ks_range lo hi t = Ok <$> bt_in_range lo hi (ks_view t);
  ks_prefix_ok p t : ks_prefix p t = Ok <$> filter (λ kv, starts_with p kv.1) (ks_view t);
  ks_iter_ok t : ks_iter t = Ok <$> ks_view t;
  snap_len_ok t : snap_len (ks_snapshot t) = Ok (length (ks_view t));
  snap_first_ok t : snap_first (ks_snapshot t) = Ok <$> bt_first (ks_view t);
  snap_last_ok t : snap_last (ks_snapshot t) = Ok <$> bt_last (ks_view t);
  snap_iter_ok t : snap_iter (ks_snapshot t) = Ok <$> ks_view t;
}.

Record FjallStorage (T : Type) := { fj_keyspace : T; fj_stats : Stats.AtomicStats }.
Arguments fj_keyspace {T} _.
Arguments fj_stats {T} _.
Arguments Build_FjallStorage {T} _ _.

(** [collect] into a [Result<Vec<_>, _>]: the first failure ends it. *)
Fixpoint collect {E A} (l : list (res E A)) : res E (list A) :=
  match l with
  | [] => Ok []
  | r :: l => res_bind r (λ a, res_bind (collect l) (λ l, Ok (a :: l)))
  end.

(** [Option::transpose]. *)
Definition transpose {E A} (o : option (res E A)) : res E (option A) :=
  match o with
  | None => Ok None
  | Some r => res_bind r (λ a, Ok (Some a))
  end.

(** The comparison of the stored and the expected value. *)
Definition cas_matches (current expected : option bytes) : bool :=
  match current, expected with
  | Some c, Some e => bool_decide (c = e)
  | None, None => true
  | _, _ => false
  end.

Module Fjall.
Section fjall.
Context `{Keyspace T}.

Definition op (A : Type) : Type := M (FjallStorage T) StorageError A.

Definition set_keyspace (t : T) (s : FjallStorage T) := Build_FjallStorage t (fj_stats s).
Definition upd_stats (f : Stats.AtomicStats → Stats.AtomicStats) (s : FjallStorage T) :=
  Build_FjallStorage (fj_keyspace s) (f (fj_stats s)).

Definition convert_error (e : ks_error) : StorageError :=
  match ks_io e with Some m => Io m | None => Backend (ks_text e) end.
Definition convert_snapshot_error (e : ks_error) : StorageError := Backend (ks_text e).

(** [FjallStorage::new]; [checks] is the overflow setting of the build. *)
Definition new (checks : bool) (path : option bytes) (cache_size_mb : option Z) :
    res StorageError (FjallStorage T) :=
  match path with
  | None => Err (Configuration "Path is required for Fjall storage")
  | Some path =>
      let size mb := (mb * 1024 * 1024)%Z in
      if checks && match cache_size_mb with Some mb => (u64_max <? size mb)%Z | None => false end
      then Panic "attempt to multiply with overflow"
      else
        match ks_open path ((λ mb, wrap64 (size mb)) <$> cache_size_mb) with
        | Ok (Ok t) => Ok (Build_FjallStorage t Stats.new)
        | Ok (Err e) => Err (Backend ("Failed to open keyspace: " +:+ ks_text e))
        | Ok (Panic p) | Panic p => Panic p
        | Err e => Err (Backend ("Failed to open Fjall database: " +:+ ks_text e))
        end
  end.

(** A call of the keyspace, its error converted. *)
Definition ks {A} (m : M T ks_error A) : op A := map_err convert_error (zoom fj_keyspace set_keyspace m).

(** The items of an iterator over the keyspace. *)
Definition items (f : T → list (res ks_error (bytes * bytes))) : op store := λ s,
  (collect (res_map_err convert_error <$> f (fj_keyspace s)), s).

Definition get (key : bytes) : op (option bytes) := ks (ks_get key).

Definition put (key value : bytes) : op bool :=
  let! existed := ks (ks_contains_key key) in
  ks (ks_insert key value) ;;;
  modify (upd_stats (Stats.record_put (blen key) (blen value) existed)) ;;;
  ret (negb existed).

Definition put_with_return (key value : bytes) : op (option bytes) :=
  let! old_value := get key in
  ks (ks_insert key value) ;;;
  modify (upd_stats (Stats.record_put (blen key) (blen value) (bool_decide (is_Some old_value)))) ;;;
  ret old_value.

Definition delete (key : bytes) : op unit :=
  let! value := ks (ks_get key) in
  let value_size := match value with Some v => blen v | None => 0%Z end in
  ks (ks_remove key) ;;;
  if (0 <? value_size)%Z then modify (upd_stats (Stats.record_delete (blen key) value_size))
  else ret tt.

Definition delete_range (lo hi : Bound bytes) : op Z :=
  let! keys_and_sizes := items (ks_range lo hi) in
  for_each (λ kv : bytes * bytes, ks (ks_remove kv.1)) keys_and_sizes ;;;
  let count := Z.of_nat (length keys_and_sizes) in
  (if (0 <? count)%Z
   then modify (upd_stats (Stats.record_delete_batch count (total_size keys_and_sizes)))
   else ret tt) ;;;
  ret count.

Definition exists_ (key : bytes) : op bool := ks (ks_contains_key key).
Definition scan (prefix : bytes) : op store := items (ks_prefix prefix).
Definition scan_range (lo hi : Bound bytes) : op store := items (ks_range lo hi).
Definition scan_range_reverse (lo hi : Bound bytes) : op store :=
  items (λ t, reverse (ks_range lo hi t)).

Definition ends (f : list (res ks_error (bytes * bytes)) → option (res ks_error (bytes * bytes))) :
    op (option (bytes * bytes)) := λ s,
  (transpose (res_map_err convert_error <$> f (ks_iter (fj_keyspace s))), s).
Definition get_last : op (option (bytes * bytes)) := ends last.
Definition get_first : op (option (bytes * bytes)) := ends head.

Definition count : op Z := gets (λ s, ks_approximate_len (fj_keyspace s)).
Definition flush : op unit := ret tt.
Definition close : op unit := ret tt.
Definition compact : op unit := ret tt.

(** The loop of [scan_range_paginated]: it stops at the first item past the limit. *)
Fixpoint page (limit : option nat) (l : list (res ks_error (bytes * bytes))) (results : store) :
    res StorageError (store * option bytes) :=
  match l with
  | [] => Ok (results, None)
  | r :: l =>
      res_bind (res_map_err convert_error r) (λ kv,
        if match limit with Some max => (max <=? length results)%nat | None => false end
        then Ok (results, Some kv.1)
        else page limit l (results ++ [kv]))
  end.

Definition scan_range_paginated (start stop : bytes) (limit : option nat) :
    op (store * option bytes) := λ s,
  (page limit (ks_range (Included start) (Excluded stop) (fj_keyspace s)) [], s).

Fixpoint multi_get (keys : list bytes) : op (list (option bytes)) :=
  match keys with
  | [] => ret []
  | key :: keys => let! v := get key in let! vs := multi_get keys in ret (v :: vs)
  end.

Definition compare_and_swap (key : bytes) (expected new_value : option bytes) : op bool :=
  let! current := get key in
  if cas_matches current expected then
    match new_value with
    | Some v => put key v ;;; ret true
    | None => delete key ;;; ret true
    end
  else ret false.

(** [i64::wrapping_add]. *)
Definition increment (key : bytes) (delta : Z) : op Z :=
  let! current := get key in
  match match current with
        | Some v => if bool_decide (length v = 8) then Some (Memory.i64_of v) else None
        | None => Some 0%Z
        end with
  | None => throw (Serialization "Key does not contain i64 value")
  | Some c =>
      let new_bytes := le_bytes 8 (wrap64 (c + delta)) in
      put key new_bytes ;;; ret (Memory.i64_of new_bytes)
  end.

Definition put_with_ttl (key value : bytes) : op bool := put key value.

(** ** Snapshots *)

Record Snapshot := { snapshot_data : ks_snap; entry_count : Z; total_size_bytes : Z }.

(** The size is estimated from the first and the last pair. *)
Definition sampled (o : option (res ks_error (bytes * bytes))) : res StorageError Z :=
  match o with
  | None => Ok 0%Z
  | Some r => res_bind (res_map_err convert_snapshot_error r) (λ kv, Ok (pair_size kv))
  end.

Definition create_snapshot : op Snapshot := λ s,
  let data := ks_snapshot (fj_keyspace s) in
  (res_bind (res_map_err convert_snapshot_error (snap_len data)) (λ n,
   let entry_count := Z.of_nat n in
   res_bind
     (if (0 <? entry_count)%Z then
        res_bind (sampled (snap_first data)) (λ a,
        res_bind (sampled (snap_last data)) (λ b,
        let estimated_size := (a + b)%Z in
        Ok (if (0 <? estimated_size)%Z then (estimated_size / 2 * entry_count)%Z else 0%Z)))
      else Ok 0%Z) (λ total,
   Ok {| snapshot_data := data; entry_count := entry_count; total_size_bytes := total |})), s).

(** All keys are collected and removed one by one. *)
Definition clear : op unit :=
  let! all_keys := items ks_iter in
  for_each (λ kv : bytes * bytes, ks (ks_remove kv.1)) all_keys.

Definition restore_item (r : res ks_error (bytes * bytes)) : op unit :=
  let! kv := lift_res (res_map_err convert_snapshot_error r) in
  ks (ks_insert kv.1 kv.2).

Definition restore_from_snapshot (snap : Snapshot) : op unit :=
  clear ;;; for_each restore_item (snap_iter (snapshot_data snap)).

Definition latest_snapshot : op (option Snapshot) := let! x := create_snapshot in ret (Some x).

Definition estimate_snapshot_size (data : ks_snap) : op Z :=
  lift_res (res_bind (collect (res_map_err convert_snapshot_error <$> snap_iter data))
              (λ l, Ok (total_size l))).

(** [FjallSnapshotStream::new]: what the stream will yield. *)
Definition create_kv_snapshot_stream (snap : Snapshot) : op (list (res StorageError (bytes * bytes))) :=
  lift_res (res_bind (collect (res_map_err convert_snapshot_error <$> snap_iter (snapshot_data snap)))
              (λ l, Ok (Ok <$> l))).

Definition install_item (r : res StorageError (bytes * bytes)) : op unit :=
  let! kv := lift_res r in ks (ks_insert kv.1 kv.2).

Definition install_kv_snapshot_from_stream (stream : list (res StorageError (bytes * bytes))) :
    op unit :=
  clear ;;; for_each install_item stream.
End fjall.
End Fjall.

#[global] Instance fjall_storage `{Keyspace T} : Storage (FjallStorage T) := {|
  sto_get := Fjall.get;
  sto_put := Fjall.put;
  sto_put_with_return := Fjall.put_with_return;
  sto_delete := Fjall.delete;
  sto_delete_range := Fjall.delete_range;
  sto_exists := Fjall.exists_;
  sto_scan := Fjall.scan;
  sto_scan_range := Fjall.scan_range;
  sto_get_last := Fjall.get_last;
  sto_flush := Fjall.flush;
  sto_scan_range_paginated := Fjall.scan_range_paginated;
|}.

(** ** Transactions *)

(** The keyspace it shares with the backend and the operations it keeps back. *)
Record FjallTransaction (T : Type) := {
  ft_keyspace : T;
  ft_operations : list Tx.TransactionOperation;
  ft_committed : bool;
  ft_rolled_back : bool;
}.
Arguments ft_keyspace {T} _.
Arguments ft_operations {T} _.
Arguments ft_committed {T} _.
Arguments ft_rolled_back {T} _.
Arguments Build_FjallTransaction {T} _ _ _ _.

Module FjTx.
Section transaction.
Context `{Keyspace T}.

Definition op (A : Type) : Type := M (FjallTransaction T) StorageError A.

Definition new (t : T) : FjallTransaction T := Build_FjallTransaction t [] false false.

Definition set_keyspace (t : T) (x : FjallTransaction T) :=
  Build_FjallTransaction t (ft_operations x) (ft_committed x) (ft_rolled_back x).
Definition push (o : Tx.TransactionOperation) (x : FjallTransaction T) :=
  Build_FjallTransaction (ft_keyspace x) (ft_operations x ++ [o]) (ft_committed x) (ft_rolled_back x).
Definition set_committed (x : FjallTransaction T) :=
  Build_FjallTransaction (ft_keyspace x) (ft_operations x) true (ft_rolled_back x).

Definition ks {A} (m : M T ks_error A) : op A :=
  map_err Fjall.convert_error (zoom ft_keyspace set_keyspace m).

Definition check_state : op unit := λ x,
  if ft_committed x then (Err (Transaction "Transaction already committed"), x)
  else if ft_rolled_back x then (Err (Transaction "Transaction already rolled back"), x)
  else (Ok tt, x).

(** Reads go to the keyspace; the kept operations are not looked at. *)
Definition get (key : bytes) : op (option bytes) := check_state ;;; ks (ks_get key).
Definition exists_ (key : bytes) : op bool := check_state ;;; ks (ks_contains_key key).

Definition put (key value : bytes) : op unit := check_state ;;; modify (push (Tx.Put key value)).
Definition delete (key : bytes) : op unit := check_state ;;; modify (push (Tx.Delete key)).

Definition apply_op (o : Tx.TransactionOperation) : op unit :=
  match o with
  | Tx.Put key value => ks (ks_insert key value)
  | Tx.Delete key => ks (ks_remove key)
  end.

Definition commit : op unit :=
  check_state ;;;
  let! operations := gets ft_operations in
  for_each apply_op operations ;;;
  modify set_committed.

Definition rollback : op unit := λ x,
  if ft_committed x then (Err (Transaction "Transaction already committed"), x)
  else (Ok tt, Build_FjallTransaction (ft_keyspace x) [] (ft_committed x) true).

Fixpoint multi_get (keys : list bytes) : op (list (option bytes)) :=
  match keys with
  | [] => ret []
  | key :: keys => let! v := get key in let! vs := multi_get keys in ret (v :: vs)
  end.

(** The end of the range is included. *)
Definition scan_range (start stop : bytes) : op store :=
  check_state ;;;
  λ x, (collect (res_map_err Fjall.convert_error <$>
                   ks_range (Included start) (Included stop) (ft_keyspace x)), x).

Definition compare_and_swap (key : bytes) (expected new_value : option bytes) : op bool :=
  check_state ;;;
  let! current := get key in
  if cas_matches current expected then
    match new_value with
    | Some v => put key v ;;; ret true
    | None => delete key ;;; ret true
    end
  else ret false.
End transaction.
End FjTx.

(** ** While the disk works *)

Section laws.
Context `{KeyspaceLaws T}.

(** The pairs of a backend. *)
Definition fj_contents (s : FjallStorage T) : store := ks_view (fj_keyspace s).

Lemma fj_contents_wf s : bt_wf (fj_contents s).
Proof. apply ks_view_wf. Qed.

Lemma collect_ok {E F A} (f : E → F) (l : list A) : collect (res_map_err f <$> (Ok <$> l)) = Ok l.
Proof. induction l as [|a l IH]; csimpl; [done|]. by rewrite IH. Qed.

Lemma items_ok f l (s : FjallStorage T) :
  f (fj_keyspace s) = Ok <$> l → Fjall.items f s = (Ok l, s).
Proof. unfold Fjall.items. intros ->. by rewrite collect_ok. Qed.

Lemma ks_ok {A} (m : M T ks_error A) a t s :
  m (fj_keyspace s) = (Ok a, t) → Fjall.ks m s = (Ok a, Fjall.set_keyspace t s).
Proof. unfold Fjall.ks, map_err, zoom. by intros ->. Qed.

Lemma ks_read_ok {A} (m : M T ks_error A) a s :
  m (fj_keyspace s) = (Ok a, fj_keyspace s) → Fjall.ks m s = (Ok a, s).
Proof. intros E. rewrite (ks_ok _ _ _ _ E). by destruct s. Qed.

Lemma fj_get k s : Fjall.get k s = (Ok (bt_get k (fj_contents s)), s).
Proof. apply ks_read_ok, ks_get_ok. Qed.

Lemma fj_exists k s : Fjall.exists_ k s = (Ok (bt_contains k (fj_contents s)), s).
Proof. apply ks_read_ok, ks_contains_ok. Qed.

(** Every write changes the pairs as it should. *)
Definition writes {A} (m : M (FjallStorage T) StorageError A) (a : A) (d : store) s : Prop :=
  ∃ s', m s = (Ok a, s') ∧ fj_contents s' = d.

Lemma fj_insert k v s : writes (Fjall.ks (ks_insert k v)) tt (bt_insert k v (fj_contents s)) s.
Proof.
  destruct (ks_insert_ok k v (fj_keyspace s)) as (t & E & Hv).
  eexists. split; [by apply ks_ok|done].
Qed.

Lemma fj_remove k s : writes (Fjall.ks (ks_remove k)) tt (bt_remove k (fj_contents s)) s.
Proof.
  destruct (ks_remove_ok k (fj_keyspace s)) as (t & E & Hv).
  eexists. split; [by apply ks_ok|done].
Qed.

Lemma writes_bind {A B} (m : M _ StorageError A) (k : A → M _ StorageError B) a b d d' s :
  writes m a d s → (∀ s', fj_contents s' = d → writes (k a) b d' s') → writes (bind m k) b d' s.
Proof.
  intros (s' & E & Hd) Hk. destruct (Hk s' Hd) as (s'' & E' & Hd').
  exists s''. by rewrite (bind_ok _ _ _ _ _ E).
Qed.

Lemma writes_stats {A} f (a : A) s :
  writes (bind (modify (Fjall.upd_stats f)) (λ _, ret a)) a (fj_contents s) s.
Proof. by eexists. Qed.

Lemma fj_put k v s :
  writes (Fjall.put k v) (negb (bt_contains k (fj_contents s))) (bt_insert k v (fj_contents s)) s.
Proof.
  eapply writes_bind; [eexists; split; [apply fj_exists|done]|]. intros s1 H1.
  eapply writes_bind; [apply fj_insert|]. intros s2 H2. rewrite <- H1, <- H2. apply writes_stats.
Qed.

Lemma fj_put_with_return k v s :
  writes (Fjall.put_with_return k v) (bt_get k (fj_contents s)) (bt_insert k v (fj_contents s)) s.
Proof.
  eapply writes_bind; [eexists; split; [apply fj_get|done]|]. intros s1 H1.
  eapply writes_bind; [apply fj_insert|]. intros s2 H2. rewrite <- H1, <- H2. apply writes_stats.
Qed.

Lemma fj_delete k s : writes (Fjall.delete k) tt (bt_remove k (fj_contents s)) s.
Proof.
  eapply writes_bind; [eexists; split; [apply fj_get|done]|]. intros s1 H1.
  eapply writes_bind; [apply fj_remove|]. intros s2 H2. rewrite <- H1, <- H2.
  case_match; by eexists.
Qed.

Lemma fj_removes (l : store) s :
  writes (for_each (λ kv : bytes * bytes, Fjall.ks (ks_remove kv.1)) l) tt
    (foldl (λ d kv, bt_remove kv.1 d) (fj_contents s) l) s.
Proof.
  revert s. induction l as [|kv l IH]; intros s; simpl; [by eexists|].
  eapply writes_bind; [apply fj_remove|]. intros s' <-. apply IH.
Qed.

Lemma fj_range lo hi s : range_panics lo hi = false →
  Fjall.items (ks_range lo hi) s = (Ok (bt_in_range lo hi (fj_contents s)), s).
Proof. intros Hp. by apply items_ok, ks_range_ok. Qed.

Lemma fj_delete_range lo hi s : range_panics lo hi = false →
  writes (Fjall.delete_range lo hi) (Z.of_nat (length (bt_in_range lo hi (fj_contents s))))
    (filter (λ kv, negb (in_bounds lo hi kv.1)) (fj_contents s)) s.
Proof.
  intros Hp. eapply writes_bind; [eexists; split; [by apply fj_range|done]|]. intros s1 H1.
  eapply writes_bind; [apply fj_removes|]. intros s2 H2. rewrite <- H1 in *.
  rewrite remove_range in H2 by apply fj_contents_wf. rewrite <- H2.
  cbv beta zeta. destruct (0 <? _)%Z; by eexists.
Qed.

Lemma page_ok limit l results :
  Fjall.page limit (Ok <$> l) results
  = Ok (match limit with
        | None => (results ++ l, None)
        | Some n => (results ++ take (n - length results) l, fst <$> l !! (n - length results))
        end).
Proof.
  revert results. induction l as [|kv l IH]; intros results; simpl.
  - destruct limit; by rewrite ?take_nil, ?lookup_nil, app_nil_r.
  - destruct limit as [n|]; [|by rewrite IH, <- app_assoc].
    destruct (Nat.leb_spec n (length results)).
    + replace (n - length results) with 0 by lia. simpl. by rewrite app_nil_r.
    + rewrite IH, length_app. simpl. replace (n - length results) with (S (n - (length results + 1))) by lia.
      simpl. by rewrite <- app_assoc.
Qed.

Lemma fj_page start stop limit s : leb start stop = true →
  Fjall.scan_range_paginated start stop limit s =
  (Ok (first_page limit (bt_in_range (Included start) (Excluded stop) (fj_contents s))), s).
Proof.
  intros Hle. unfold Fjall.scan_range_paginated.
  rewrite ks_range_ok, page_ok by (simpl; by rewrite leb_ltb, negb_true_iff in Hle).
  destruct limit; simpl; by rewrite ?Nat.sub_0_r.
Qed.

Lemma fj_last s : Fjall.get_last s = (Ok (bt_last (fj_contents s)), s).
Proof.
  unfold Fjall.get_last, Fjall.ends, bt_last, fj_contents. rewrite ks_iter_ok.
  rewrite fmap_last. by destruct (last _).
Qed.

Lemma fj_first s : Fjall.get_first s = (Ok (bt_first (fj_contents s)), s).
Proof.
  unfold Fjall.get_first, Fjall.ends, bt_first, fj_contents. rewrite ks_iter_ok.
  by destruct (ks_view _).
Qed.

(** ** Against the in-memory backend *)

(** A scan for a prefix, when the in-memory backend gets it right. *)
Definition scannable (p : bytes) : Prop := last p ≠ Some (zb 255).

Lemma memory_scan p s : scannable p →
  Memory.scan p s = (Ok (filter (λ kv, starts_with p kv.1) (data s)), s).
Proof.
  intros Hp. destruct p as [|b q _] using rev_ind.
  - unfold Memory.scan. rewrite bt_range_ok by done. simpl. rewrite in_range_all.
    by rewrite filter_Forall by (by apply Forall_true).
  - apply scan_prefix_correct. unfold scannable in Hp. rewrite last_snoc in Hp.
    pose proof (bz_range b). destruct (decide (bz b = 255)%Z) as [E|]; [|lia].
    destruct Hp. by rewrite <- E, zb_bz.
Qed.
End laws.

(** The calls of the storage interface and their answers. *)
Inductive StoCall : Type :=
| SGet (k : bytes) | SPut (k v : bytes) | SPutReturn (k v : bytes) | SDelete (k : bytes)
| SDeleteRange (lo hi : Bound bytes) | SExists (k : bytes) | SScan (p : bytes)
| SScanRange (lo hi : Bound bytes) | SLast | SFlush | SPage (start stop : bytes) (limit : option nat).

Inductive StoAnswer : Type :=
| VValue (v : option bytes) | VBool (b : bool) | VUnit | VCount (n : Z) | VPairs (l : store)
| VPair (p : option (bytes * bytes)) | VPage (p : store * option bytes).

Definition reply {S A} (f : A → StoAnswer) (c : M S StorageError A) : M S StorageError StoAnswer :=
  bind c (λ a, ret (f a)).

Definition run_call {S : Type} `{Storage S} (c : StoCall) : M S StorageError StoAnswer :=
  match c with
  | SGet k => reply VValue (sto_get k)
  | SPut k v => reply VBool (sto_put k v)
  | SPutReturn k v => reply VValue (sto_put_with_return k v)
  | SDelete k => reply (λ _, VUnit) (sto_delete k)
  | SDeleteRange lo hi => reply VCount (sto_delete_range lo hi)
  | SExists k => reply VBool (sto_exists k)
  | SScan p => reply VPairs (sto_scan p)
  | SScanRange lo hi => reply VPairs (sto_scan_range lo hi)
  | SLast => reply VPair sto_get_last
  | SFlush => reply (λ _, VUnit) sto_flush
  | SPage start stop limit => reply VPage (sto_scan_range_paginated start stop limit)
  end.

Fixpoint run_all {S : Type} `{Storage S} (calls : list StoCall) (s : S) : list (res StorageError StoAnswer) * S :=
  match calls with
  | [] => ([], s)
  | c :: calls =>
      let '(r, s) := run_call c s in
      let '(rs, s) := run_all calls s in
      (r :: rs, s)
  end.

(** Ranges in order, and no prefix ending in the byte 255. *)
Definition ordered (c : StoCall) : Prop :=
  match c with
  | SDeleteRange lo hi | SScanRange lo hi => range_panics lo hi = false
  | SPage start stop _ => leb start stop = true
  | SScan p => scannable p
  | _ => True
  end.

(** What fjall answers where the in-memory backend answers [a]. *)
Definition fjall_answer (c : StoCall) (a : StoAnswer) : StoAnswer :=
  match c, a with
  | SPut _ _, VBool overwrote => VBool (negb overwrote)
  | _, _ => a
  end.

Section agreement.
Context `{KeyspaceLaws T}.

Lemma reply_ok {S A} (f : A → StoAnswer) (m : M S StorageError A) a s s' :
  m s = (Ok a, s') → reply f m s = (Ok (f a), s').
Proof. intros E. unfold reply. by rewrite (bind_ok _ _ _ _ _ E). Qed.

Lemma reply_writes {A} (f : A → StoAnswer) m (a : A) d (t : FjallStorage T) :
  writes m a d t → ∃ t', reply f m t = (Ok (f a), t') ∧ fj_contents t' = d.
Proof. intros (t' & E & Hd). exists t'. by rewrite (reply_ok _ _ _ _ _ E). Qed.

Lemma fjall_call c (s : MemoryStorage) (t : FjallStorage T) :
  ordered c → data s = fj_contents t →
  ∃ a s' t', run_call c s = (Ok a, s') ∧ run_call c t = (Ok (fjall_answer c a), t') ∧
             data s' = fj_contents t'.
Proof.
  intros Hc Hd. pose proof (fj_contents_wf t) as Hwf.
  assert (Hs : sto_inv s) by (simpl; by rewrite Hd).
  assert (Hread : ∀ A (f : A → StoAnswer) (m : M MemoryStorage StorageError A)
      (n : M (FjallStorage T) StorageError A) a,
    m s = (Ok a, s) → n t = (Ok a, t) → ∃ a s' t',
    reply f m s = (Ok a, s') ∧ reply f n t = (Ok a, t') ∧ data s' = fj_contents t').
  { intros A f m n a Em En. exists (f a), s, t.
    by rewrite (reply_ok f _ _ _ _ Em), (reply_ok f _ _ _ _ En). }
  destruct c as [k|k v|k v|k|lo hi|k|p|lo hi| | |start stop limit]; simpl in Hc;
    cbn [run_call fjall_answer].
  - eapply Hread; [by apply law_get|]. simpl. rewrite Hd. apply fj_get.
  - destruct (law_put k v s Hs) as (s' & E & _ & Hs').
    destruct (reply_writes VBool _ _ _ _ (fj_put k v t)) as (t' & E' & Ht').
    exists (VBool (bt_contains k (data s))), s', t'. rewrite (reply_ok VBool _ _ _ _ E).
    split; [done|]. simpl in *. rewrite Hd. split; [done|]. by rewrite Hs', Ht', Hd.
  - destruct (law_put_with_return k v s Hs) as (s' & E & _ & Hs').
    destruct (reply_writes VValue _ _ _ _ (fj_put_with_return k v t)) as (t' & E' & Ht').
    exists (VValue (bt_get k (data s))), s', t'. rewrite (reply_ok VValue _ _ _ _ E).
    split; [done|]. simpl in *. rewrite Hd. split; [done|]. by rewrite Hs', Ht', Hd.
  - destruct (law_delete k s Hs) as (s' & E & _ & Hs').
    destruct (reply_writes (λ _, VUnit) _ _ _ _ (fj_delete k t)) as (t' & E' & Ht').
    exists VUnit, s', t'. rewrite (reply_ok (λ _, VUnit) _ _ _ _ E).
    split; [done|]. simpl in *. split; [done|]. by rewrite Hs', Ht', Hd.
  - destruct (reply_writes VCount _ _ _ _ (fj_delete_range lo hi t Hc)) as (t' & E' & Ht').
    destruct (law_delete_range lo hi s Hs Hc) as (n & s' & E & _ & Hs').
    exists (VCount n), s', t'. rewrite (reply_ok VCount _ _ _ _ E).
    split; [done|]. simpl in *. rewrite Hs', Ht', Hd. split; [|done]. rewrite E'. do 3 f_equal.
    unfold Memory.delete_range in E. rewrite (bt_range_ok _ _ _ Hc) in E. injection E as <- _. by rewrite Hd.
  - eapply Hread; [by apply law_exists|]. simpl. rewrite Hd. apply fj_exists.
  - eapply Hread; [by apply memory_scan|]. rewrite Hd. apply items_ok, ks_prefix_ok.
  - eapply Hread; [by apply law_scan_range|]. simpl. rewrite Hd. by apply fj_range.
  - eapply Hread; [by apply law_get_last|]. simpl. rewrite Hd. apply fj_last.
  - by eapply Hread.
  - eapply Hread; [by apply law_page|]. simpl. rewrite Hd. by apply fj_page.
Qed.


(** ** Snapshots *)

Lemma foldl_remove_all (d : store) : bt_wf d → foldl (λ d kv, bt_remove kv.1 d) d d = [].
Proof.
  intros Hwf. pose proof (remove_range Unbounded Unbounded d Hwf) as E.
  unfold bt_in_range in E. rewrite (filter_Forall _ d), filter_none in E;
    [done|apply Forall_true; by intros ? []|by apply Forall_true].
Qed.

Lemma fj_clear (s : FjallStorage T) : writes Fjall.clear tt [] s.
Proof.
  eapply writes_bind; [eexists; split; [by apply items_ok, ks_iter_ok|done]|]. intros s1 H1.
  fold (fj_contents s). rewrite <- H1, <- (foldl_remove_all (fj_contents s1)) by apply fj_contents_wf.
  apply fj_removes.
Qed.

Lemma fj_inserts {X} (body : X → M (FjallStorage T) StorageError unit) (f : bytes * bytes → X) l s :
  (∀ kv s, body (f kv) s = Fjall.ks (ks_insert kv.1 kv.2) s) →
  writes (for_each body (f <$> l)) tt (foldl (λ d kv, bt_insert kv.1 kv.2 d) (fj_contents s) l) s.
Proof.
  intros Hb. revert s. induction l as [|kv l IH]; intros s; csimpl; [by eexists|].
  eapply writes_bind; [destruct (fj_insert kv.1 kv.2 s) as (s' & E & Hs'); exists s'; split;
    [by rewrite Hb|exact Hs']|]. intros s' <-. apply IH.
Qed.

Lemma fj_create_snapshot (s : FjallStorage T) : ∃ n,
  Fjall.create_snapshot s
  = (Ok {| Fjall.snapshot_data := ks_snapshot (fj_keyspace s);
           Fjall.entry_count := Z.of_nat (length (fj_contents s)); Fjall.total_size_bytes := n |}, s).
Proof.
  unfold Fjall.create_snapshot. rewrite snap_len_ok, snap_first_ok, snap_last_ok.
  fold (fj_contents s). cbn [res_map_err res_bind]. destruct (0 <? _)%Z; [|by eexists].
  destruct (bt_first (fj_contents s)), (bt_last (fj_contents s)); simpl; by eexists.
Qed.

(** A snapshot taken of a backend and restored, or streamed, into any other gives it the
    pairs of the first, and only those. *)
Theorem fjall_snapshot_transfer (s t : FjallStorage T) :
  ∃ snap, Fjall.create_snapshot s = (Ok snap, s) ∧
    Fjall.entry_count snap = Z.of_nat (length (fj_contents s)) ∧
    writes (Fjall.restore_from_snapshot snap) tt (fj_contents s) t ∧
    writes (bind (Fjall.create_kv_snapshot_stream snap) Fjall.install_kv_snapshot_from_stream)
      tt (fj_contents s) t.
Proof.
  destruct (fj_create_snapshot s) as [n E]. eexists. split; [exact E|]. split; [done|].
  set (d := fj_contents s). assert (Ed : foldl (λ d kv, bt_insert kv.1 kv.2 d) [] d = d)
    by apply rebuild_id, fj_contents_wf.
  split; [|eapply writes_bind; [eexists; split; [|reflexivity];
             unfold Fjall.create_kv_snapshot_stream; simpl; by rewrite snap_iter_ok, collect_ok|];
           intros t0 _];
    (eapply writes_bind; [apply fj_clear|]); intros t1 Ht1; rewrite <- Ed, <- Ht1.
  - simpl. rewrite snap_iter_ok. by apply fj_inserts.
  - by apply fj_inserts.
Qed.

(** ** Transactions *)

(** The requests of a transaction. *)
Definition buffer (o : Tx.TransactionOperation) : FjTx.op (T:=T) unit :=
  match o with Tx.Put k v => FjTx.put k v | Tx.Delete k => FjTx.delete k end.

Lemma buffer_all ops (x : FjallTransaction T) :
  ft_committed x = false → ft_rolled_back x = false →
  for_each buffer ops x
  = (Ok tt, Build_FjallTransaction (ft_keyspace x) (ft_operations x ++ ops) false false).
Proof.
  destruct x as [t l c r]; simpl. intros -> ->. revert l.
  induction ops as [|o ops IH]; intros l; simpl; [by rewrite app_nil_r|].
  rewrite (bind_ok _ _ _ tt (Build_FjallTransaction t (l ++ [o]) false false)) by (by destruct o).
  by rewrite IH, <- app_assoc.
Qed.

Lemma tx_ks_ok {A} (m : M T ks_error A) a t x :
  m (ft_keyspace x) = (Ok a, t) → FjTx.ks m x = (Ok a, FjTx.set_keyspace t x).
Proof. unfold FjTx.ks, map_err, zoom. by intros ->. Qed.

Lemma tx_applies ops (x : FjallTransaction T) : ∃ t,
  for_each FjTx.apply_op ops x = (Ok tt, FjTx.set_keyspace t x) ∧
  ks_view t = foldl Tx.apply_op (ks_view (ft_keyspace x)) ops.
Proof.
  revert x. induction ops as [|o ops IH]; intros x; simpl.
  { exists (ft_keyspace x). by destruct x. }
  assert (Ho : ∃ t, FjTx.apply_op o x = (Ok tt, FjTx.set_keyspace t x) ∧
                    ks_view t = Tx.apply_op (ks_view (ft_keyspace x)) o).
  { destruct o as [k v|k]; simpl.
    - destruct (ks_insert_ok k v (ft_keyspace x)) as (t & E & Ht). exists t. by rewrite (tx_ks_ok _ _ _ _ E).
    - destruct (ks_remove_ok k (ft_keyspace x)) as (t & E & Ht). exists t. by rewrite (tx_ks_ok _ _ _ _ E). }
  destruct Ho as (t & E & Ht). rewrite (bind_ok _ _ _ _ _ E).
  destruct (IH (FjTx.set_keyspace t x)) as (t' & E' & Ht'). exists t'.
  rewrite E'. split; [done|]. by rewrite Ht', <- Ht.
Qed.

Lemma tx_commits ops (t : T) : ∃ t',
  FjTx.commit (Build_FjallTransaction t ops false false)
  = (Ok tt, Build_FjallTransaction t' ops true false) ∧
  ks_view t' = foldl Tx.apply_op (ks_view t) ops.
Proof.
  set (x := Build_FjallTransaction t ops false false).
  destruct (tx_applies ops x) as (t' & E & Ht'). exists t'. split; [|done].
  unfold FjTx.commit. rewrite (bind_ok _ _ _ tt x), bind_gets by done. cbn [x ft_operations].
  by rewrite (bind_ok _ _ _ _ _ E).
Qed.

(** A transaction keeps its requests back: until the commit its reads see none of them; the
    commit carries all of them out in order and ends the transaction, and a rollback leaves
    the keyspace as it was. *)
Theorem fjall_transaction ops (t : T) :
  let x := (for_each buffer ops (FjTx.new t)).2 in
  (for_each buffer ops (FjTx.new t)).1 = Ok tt ∧
  (∀ k, FjTx.get k x = (Ok (bt_get k (ks_view t)), x)) ∧
  (∃ x', FjTx.commit x = (Ok tt, x') ∧
     ks_view (ft_keyspace x') = foldl Tx.apply_op (ks_view t) ops ∧
     ∀ o, buffer o x' = (Err (Transaction "Transaction already committed"), x')) ∧
  (∃ x', FjTx.rollback x = (Ok tt, x') ∧ ft_keyspace x' = t ∧
     FjTx.commit x' = (Err (Transaction "Transaction already rolled back"), x')).
Proof.
  cbv zeta. rewrite buffer_all by done. simpl. split; [done|]. split_and!.
  - intros k. unfold FjTx.get. rewrite bind_ok with (a := tt) (s' := Build_FjallTransaction t ops false false) by done.
    by rewrite (tx_ks_ok _ _ _ _ (ks_get_ok k _)).
  - destruct (tx_commits ops t) as (t' & E & Ht'). eexists. split; [exact E|].
    split; [done|]. by intros [].
  - by eexists.
Qed.
End agreement.

(** ** A keyspace in memory *)

#[global] Instance sorted_keyspace : Keyspace sorted_map := {|
  ks_error := string;
  ks_io _ := None;
  ks_text e := e;
  ks_open _ _ := Ok (Ok sm_new);
  ks_get k t := (Ok (sm_get k t), t);
  ks_contains_key k t := (Ok (sm_contains_key k t), t);
  ks_insert k v t := (Ok tt, sm_insert k v t);
  ks_remove k t := (Ok tt, sm_remove k t);
  ks_range lo hi t := Ok <$> sm_range lo hi t;
  ks_prefix p t := Ok <$> filter (λ kv, starts_with p kv.1) (sm_iter t);
  ks_iter t := Ok <$> sm_iter t;
  ks_approximate_len t := Z.of_nat (sm_len t);
  ks_snap := store;
  ks_snapshot := sm_iter;
  snap_len d := Ok (length d);
  snap_first d := Ok <$> bt_first d;
  snap_last d := Ok <$> bt_last d;
  snap_iter d := Ok <$> d |}.

#[global] Program Instance sorted_keyspace_laws : KeyspaceLaws sorted_map := {| ks_view := view |}.
Solve All Obligations with (intros; first [apply view_wf | done | by eexists]).

Module DemoFjall.
Definition empty : FjallStorage sorted_map := Build_FjallStorage sm_new Stats.new.
Definition calls : list StoCall :=
  [SPut (bs "b") (bs "1"); SPut (bs "b") (bs "2"); SScan (bs "b"); SDelete (bs "b"); SLast].


(** A delete of a pair with an empty value is not counted, so the counter of the statistics
    stays above the number of pairs. *)
Theorem fjall_empty_value_still_counted :
  let s := (bind (Fjall.put (bs "k") []) (λ _, Fjall.delete (bs "k")) empty).2 in
  fj_contents s = [] ∧ Stats.entries_count (fj_stats s) = 1%Z.
Proof. by vm_compute. Qed.

(** A range scan in a transaction includes its end, in [MemoryTransaction] it does not. *)
Theorem fjall_transaction_range_end :
  let t : sorted_map := sm_insert (bs "b") [] sm_new in
  (FjTx.scan_range (bs "a") (bs "b") (FjTx.new t)).1 = Ok [(bs "b", [])] ∧
  (Tx.scan_range (bs "a") (bs "b") (Tx.new (view t))).1 = Ok [].
Proof. by vm_compute. Qed.
End DemoFjall.
