(* ===== verification/StorageKey.v ===== *)
(** * Storage keys of objects

    [data-plane/oprc-odgm/src/storage_key.rs]: the byte layout under which an object's
    metadata, event configuration and entries are stored,
    [<object id> 00 <record type> ...], with the LEB128 length of an entry's key, and
    the parser that recovers the record. *)

From stdpp Require Import base tactics list numbers option gmap sorting strings.
From Stdlib Require Import Lia.
From S2P Require Import Prelude BTree.

Set Default Proof Using "Type".

Notation nul := (Byte.x00).

(** ** LEB128 lengths *)

(** The [while] loop of [encode_varint]; a [usize] has at most ten groups of 7 bits. *)
Fixpoint encode_varint_loop (fuel : nat) (n : Z) : bytes :=
  match fuel with
  | O => []
  | S fuel =>
      if (128 <=? n)%Z
      then zb (Z.lor (Z.land n 127) 128) :: encode_varint_loop fuel (Z.shiftr n 7)
      else [zb n]
  end.

Definition encode_varint (n : Z) : bytes := encode_varint_loop 10 n.

(** The loop of [decode_varint] at index [i]; [chunk << shift] drops the bits above a
    [usize]. *)
Fixpoint decode_varint_loop (input : bytes) (shift value : Z) (i : nat) : option (Z * nat) :=
  match input with
  | [] => None
  | b :: input =>
      let chunk := Z.land (bz b) 127 in
      let value := Z.lor value (wrap64 (Z.shiftl chunk shift)) in
      if (Z.land (bz b) 128 =? 0)%Z then Some (value, i + 1)%nat
      else
        let shift := (shift + 7)%Z in
        if (63 <? shift)%Z then None else decode_varint_loop input shift value (i + 1)%nat
  end.

Definition decode_varint (input : bytes) : option (Z * nat) := decode_varint_loop input 0 0 0.

(** ** Keys *)

Definition string_object_meta_key (normalized_id : bytes) : bytes :=
  normalized_id ++ [nul] ++ [Byte.x00].

Definition string_object_event_config_key (normalized_id : bytes) : bytes :=
  normalized_id ++ [nul] ++ [Byte.x01].

Definition string_object_entry_key_string (normalized_id key : bytes) : bytes :=
  normalized_id ++ [nul] ++ [Byte.x11] ++ encode_varint (Z.of_nat (length key)) ++ key.

Definition string_object_prefix (normalized_id : bytes) : bytes := normalized_id ++ [nul].

Inductive StringObjectRecord : Type :=
| Meta
| EventConfig
| StringEntry (key : bytes).

(** [raw.iter().position(|b| *b == 0x00)] *)
Fixpoint position_nul (raw : bytes) : option nat :=
  match raw with
  | [] => None
  | b :: raw => if bool_decide (b = nul) then Some 0 else S <$> position_nul raw
  end.

(** The slice [raw[a..b]] for [a <= b <= raw.len()]. *)
Definition slice (a b : nat) (raw : bytes) : bytes := take (b - a) (drop a raw).

(** [end = start + len] overflows a [usize] for a length close to 2^64: with overflow
    checks the addition panics, without them [end < start] and the slice panics. *)
Definition parse_string_object_key {E} (raw : bytes) :
    res E (option (bytes * StringObjectRecord)) :=
  match position_nul raw with
  | None => Ok None
  | Some term =>
      match raw !! (term + 1) with
      | None => Ok None
      | Some record_type =>
          match from_utf8 (take term raw) with
          | None => Ok None
          | Some object_id =>
              match record_type with
              | Byte.x00 => Ok (Some (object_id, Meta))
              | Byte.x01 => Ok (Some (object_id, EventConfig))
              | Byte.x11 =>
                  match decode_varint (drop (term + 2) raw) with
                  | None => Ok None
                  | Some (len, consumed) =>
                      let start := (term + 2 + consumed)%nat in
                      let stop := (Z.of_nat start + len)%Z in
                      if (u64_max <? stop)%Z then Panic "attempt to add with overflow"
                      else if (Z.of_nat (length raw) <? stop)%Z then Ok None
                      else match from_utf8 (slice start (Z.to_nat stop) raw) with
                           | None => Ok None
                           | Some key => Ok (Some (object_id, StringEntry key))
                           end
                  end
              | _ => Ok None
              end
          end
      end
  end.

(** ** Lemmas *)

Lemma wrap64_is_small z : (0 ≤ z < 2 ^ 64)%Z → wrap64 z = z.
Proof. intros. apply wrap64_small. unfold is_u64, u64_max. lia. Qed.

Lemma land_ones_7 n : (0 ≤ n)%Z → (Z.land n 127 = n mod 128)%Z.
Proof. intros. change 127%Z with (Z.ones 7). rewrite Z.land_ones by lia. done. Qed.

Lemma low7_lt n : (0 ≤ n)%Z → (0 ≤ Z.land n 127 < 128)%Z.
Proof. intros. rewrite land_ones_7 by done. apply Z.mod_pos_bound. lia. Qed.

Lemma split7 n : n = Z.lor (Z.land n 127) (Z.shiftl (Z.shiftr n 7) 7).
Proof.
  apply Z.bits_inj'. intros i Hi. rewrite Z.lor_spec, Z.land_spec.
  rewrite Z.shiftl_spec by lia. change 127%Z with (Z.ones 7).
  destruct (decide (i < 7)%Z).
  - rewrite (Z.testbit_neg_r _ (i - 7)) by lia. rewrite Z.ones_spec_low by lia.
    by rewrite andb_true_r, orb_false_r.
  - rewrite Z.ones_spec_high by lia. rewrite andb_false_r, Z.shiftr_spec by lia.
    simpl. f_equal. lia.
Qed.

Lemma lor_split7 value n shift :
  (0 ≤ shift)%Z →
  Z.lor (Z.lor value (Z.shiftl (Z.land n 127) shift)) (Z.shiftl (Z.shiftr n 7) (shift + 7))
  = Z.lor value (Z.shiftl n shift).
Proof.
  intros. rewrite <- Z.lor_assoc. f_equal.
  rewrite (Z.add_comm shift 7), <- Z.shiftl_shiftl, <- Z.shiftl_lor by lia.
  by rewrite <- split7.
Qed.

(** A group with the continuation bit carries the low seven bits. *)
Lemma group_bits n :
  (0 ≤ n)%Z → let b := zb (Z.lor (Z.land n 127) 128) in
  Z.land (bz b) 127 = Z.land n 127 ∧ Z.land (bz b) 128 = 128%Z.
Proof.
  intros Hn b. pose proof (low7_lt n Hn) as Hl.
  assert (∀ m, (0 ≤ m < 128)%Z → bz (zb (Z.lor m 128)) = Z.lor m 128) as Hb.
  { intros m Hm. apply bz_zb_small. split; [apply Z.lor_nonneg; lia|].
    apply Z.log2_lt_cancel. rewrite Z.log2_lor by lia.
    apply Z.max_lub_lt; [|done].
    apply Z.le_lt_trans with (Z.log2 127); [apply Z.log2_le_mono; lia|done]. }
  unfold b. rewrite Hb by done. rewrite !Z.land_lor_distr_l.
  rewrite <- !Z.land_assoc. change (Z.land 127 127) with 127%Z.
  change (Z.land 127 128) with 0%Z. change (Z.land 128 127) with 0%Z.
  change (Z.land 128 128) with 128%Z. by rewrite Z.lor_0_r, Z.land_0_r.
Qed.

Lemma last_group n : (0 ≤ n < 128)%Z →
  Z.land (bz (zb n)) 127 = n ∧ Z.land (bz (zb n)) 128 = 0%Z.
Proof.
  intros Hn. rewrite bz_zb_small by lia. rewrite land_ones_7, Z.mod_small by lia.
  split; [done|]. apply Z.bits_inj'. intros i Hi. rewrite Z.land_spec, Z.bits_0.
  change 128%Z with (2 ^ 7)%Z. rewrite Z.pow2_bits_eqb by lia.
  destruct (Z.eqb_spec 7 i) as [<-|]; [|by rewrite andb_false_r].
  rewrite Z.bits_above_log2; [done|lia|].
  destruct (decide (n = 0)%Z) as [->|]; [done|].
  apply Z.log2_lt_pow2; lia.
Qed.

Lemma shiftl_lt_shiftr n shift :
  (0 ≤ n)%Z → (0 ≤ shift)%Z → (Z.shiftl n shift < 2 ^ 64)%Z →
  (Z.shiftl (Z.shiftr n 7) (shift + 7) < 2 ^ 64)%Z.
Proof.
  intros Hn Hs. rewrite !Z.shiftl_mul_pow2, Z.shiftr_div_pow2 by lia.
  rewrite Z.pow_add_r by lia. intros Hlt. eapply Z.le_lt_trans; [|exact Hlt].
  pose proof (Z.mul_div_le n (2 ^ 7) ltac:(lia)).
  pose proof (Z.pow_pos_nonneg 2 shift).
  pose proof (Z.mul_le_mono_nonneg_r (2 ^ 7 * (n / 2 ^ 7)) n (2 ^ shift)). lia.
Qed.

(** Enough fuel for a length that still has [64 - shift] bits. *)
Lemma decode_encode_loop fuel n shift value i rest :
  (0 ≤ n)%Z → (0 ≤ shift ≤ 63)%Z → (Z.shiftl n shift < 2 ^ 64)%Z →
  (64 - shift ≤ 7 * Z.of_nat fuel)%Z →
  decode_varint_loop (encode_varint_loop fuel n ++ rest) shift value i
  = Some (Z.lor value (Z.shiftl n shift), i + length (encode_varint_loop fuel n)).
Proof.
  revert n shift value i. induction fuel as [|fuel IH]; intros n shift value i Hn Hs Hlt Hf.
  { lia. }
  assert (∀ m, (0 ≤ m ≤ n)%Z → wrap64 (Z.shiftl m shift) = Z.shiftl m shift) as Hw.
  { intros m Hm. apply wrap64_is_small. rewrite Z.shiftl_mul_pow2 in Hlt |- * by lia.
    pose proof (Z.pow_pos_nonneg 2 shift).
    pose proof (Z.mul_le_mono_nonneg_r m n (2 ^ shift)).
    pose proof (Z.mul_nonneg_nonneg m (2 ^ shift)). lia. }
  cbn [encode_varint_loop]. destruct (Z.leb_spec 128 n) as [Hge|Hge].
  - destruct (group_bits n Hn) as [H1 H2].
    cbn [app decode_varint_loop]. rewrite H1, H2. cbn [Z.eqb].
    assert (shift + 7 ≤ 63)%Z as Hs7.
    { destruct (decide (shift + 7 ≤ 63)%Z); [done|]. exfalso.
      rewrite Z.shiftl_mul_pow2 in Hlt by lia.
      assert (2 ^ 57 ≤ 2 ^ shift)%Z by (apply Z.pow_le_mono_r; lia).
      pose proof (Z.mul_le_mono_nonneg 128 n (2 ^ 57) (2 ^ shift)). lia. }
    destruct (Z.ltb_spec 63 (shift + 7)); [lia|].
    rewrite IH; [|rewrite Z.shiftr_div_pow2 by lia; apply Z.div_pos; lia|lia|
                  by apply shiftl_lt_shiftr; lia|lia].
    rewrite Hw.
    + rewrite lor_split7 by lia. f_equal. f_equal. simpl. lia.
    + split; [apply low7_lt; lia|]. rewrite land_ones_7 by done. apply Z.mod_le; lia.
  - destruct (last_group n ltac:(lia)) as [H1 H2].
    cbn [app decode_varint_loop]. rewrite H1, H2. cbn [Z.eqb]. rewrite Hw by lia.
    done.
Qed.

Lemma decode_encode_varint n rest :
  is_u64 n →
  decode_varint (encode_varint n ++ rest) = Some (n, length (encode_varint n)).
Proof.
  unfold is_u64, u64_max, decode_varint, encode_varint. intros.
  rewrite decode_encode_loop; [|lia|lia|rewrite Z.shiftl_0_r; lia|lia].
  by rewrite Z.shiftl_0_r, Z.lor_0_l.
Qed.

Lemma encode_varint_small n : (0 ≤ n < 128)%Z → encode_varint n = [zb n].
Proof.
  intros. unfold encode_varint. change 10 with (S 9). cbn [encode_varint_loop].
  destruct (Z.leb_spec 128 n); [lia|done].
Qed.

Lemma encode_varint_cons n : ∃ b l, encode_varint n = b :: l.
Proof.
  unfold encode_varint. change 10 with (S 9). cbn [encode_varint_loop].
  destruct (128 <=? n)%Z; by eexists _, _.
Qed.

Lemma leb_nul_cons b l : leb [nul] (b :: l) = true.
Proof.
  unfold leb, cmp. cbn [bytes_total_cmp bytes_cmp]. change (bz nul) with 0%Z.
  pose proof (bz_range b). destruct (Z.compare_spec 0 (bz b)); [by destruct l|done|lia].
Qed.

Lemma position_nul_app id r :
  nul ∉ id → position_nul (id ++ nul :: r) = Some (length id).
Proof.
  induction id as [|b id IH]; simpl; [done|]. intros Hn.
  rewrite bool_decide_false by set_solver. by rewrite IH by set_solver.
Qed.

(** Identifiers the layout can carry: UTF-8 without a zero byte. *)
Definition id_ok (id : bytes) : Prop := (nul ∉ id) ∧ valid_utf8 id = true.

(** Entry keys: UTF-8, of a length a [String] can have. *)
Definition key_ok (key : bytes) : Prop :=
  valid_utf8 key = true ∧ (Z.of_nat (length key) < 2 ^ 62)%Z.

#[global] Instance id_ok_dec id : Decision (id_ok id).
Proof. unfold id_ok. solve_decision. Defined.
#[global] Instance key_ok_dec key : Decision (key_ok key).
Proof. unfold key_ok. solve_decision. Defined.

Lemma parse_record {E} id t r :
  id_ok id →
  parse_string_object_key (E:=E) (id ++ nul :: t :: r)
  = match t with
    | Byte.x00 => Ok (Some (id, Meta))
    | Byte.x01 => Ok (Some (id, EventConfig))
    | Byte.x11 =>
        match decode_varint r with
        | None => Ok None
        | Some (len, consumed) =>
            let start := (length id + 2 + consumed)%nat in
            let stop := (Z.of_nat start + len)%Z in
            if (u64_max <? stop)%Z then Panic "attempt to add with overflow"
            else if (Z.of_nat (length id + 2 + length r) <? stop)%Z then Ok None
            else match from_utf8 (slice consumed (Z.to_nat stop - (length id + 2)) r) with
                 | None => Ok None
                 | Some key => Ok (Some (id, StringEntry key))
                 end
        end
    | _ => Ok None
    end.
Proof.
  intros [Hn Hu]. unfold parse_string_object_key.
  rewrite position_nul_app by done.
  rewrite lookup_app_r by lia. replace (length id + 1 - length id) with 1 by lia. simpl.
  rewrite take_app_length. rewrite from_utf8_valid by done.
  destruct t; try done.
  rewrite drop_app_ge by lia. replace (length id + 2 - length id) with 2 by lia. simpl.
  rewrite drop_0. destruct (decode_varint r) as [[len consumed]|]; [|done].
  rewrite length_app. simpl.
  replace (length id + S (S (length r))) with (length id + 2 + length r) by lia.
  repeat (case_match; [done|]). unfold slice.
  rewrite drop_app_ge by lia.
  replace (length id + 2 + consumed - length id) with (S (S consumed)) by lia.
  simpl. match goal with |- context [take ?a _] =>
    replace (Z.to_nat (Z.of_nat (length id + 2 + consumed) + len) - (length id + 2) - consumed)
      with a by lia end.
  done.
Qed.

Lemma parse_meta_key {E} id :
  id_ok id → parse_string_object_key (E:=E) (string_object_meta_key id) = Ok (Some (id, Meta)).
Proof. intros. unfold string_object_meta_key. simpl. by rewrite parse_record. Qed.

Lemma parse_event_config_key {E} id :
  id_ok id →
  parse_string_object_key (E:=E) (string_object_event_config_key id)
  = Ok (Some (id, EventConfig)).
Proof. intros. unfold string_object_event_config_key. simpl. by rewrite parse_record. Qed.

Lemma parse_entry_key {E} id key :
  id_ok id → key_ok key → (Z.of_nat (length id) < 2 ^ 62)%Z →
  parse_string_object_key (E:=E) (string_object_entry_key_string id key)
  = Ok (Some (id, StringEntry key)).
Proof.
  intros Hid [Hu Hk] Hl. unfold string_object_entry_key_string.
  cbn [app]. rewrite parse_record by done.
  cbv beta iota. rewrite decode_encode_varint by (unfold is_u64, u64_max; lia).
  set (e := encode_varint (Z.of_nat (length key))).
  assert (length e ≤ 10) as He.
  { unfold e, encode_varint. generalize (Z.of_nat (length key)). clear.
    generalize 10. induction n as [|n IH]; intros z; simpl; [lia|].
    destruct (128 <=? z)%Z; simpl; [|lia]. specialize (IH (Z.shiftr z 7)). lia. }
  cbn zeta. rewrite length_app.
  destruct (Z.ltb_spec u64_max (Z.of_nat (length id + 2 + length e) + Z.of_nat (length key)))
    as [Hb|_]; [unfold u64_max in Hb; lia|].
  destruct (Z.ltb_spec (Z.of_nat (length id + 2 + (length e + length key)))
    (Z.of_nat (length id + 2 + length e) + Z.of_nat (length key))); [lia|].
  unfold slice. rewrite drop_app_length.
  rewrite take_ge by lia. by rewrite from_utf8_valid.
Qed.

(** Records of different objects never share a key, nor do different records of one
    object. *)
Lemma entry_key_inj id key id' key' :
  id_ok id → id_ok id' → key_ok key → key_ok key' →
  (Z.of_nat (length id) < 2 ^ 62)%Z → (Z.of_nat (length id') < 2 ^ 62)%Z →
  string_object_entry_key_string id key = string_object_entry_key_string id' key' →
  id = id' ∧ key = key'.
Proof.
  intros H1 H2 H3 H4 H5 H6 Heq.
  pose proof (parse_entry_key (E:=unit) id key H1 H3 H5) as P.
  rewrite Heq, parse_entry_key in P by done. naive_solver.
Qed.

Lemma meta_key_inj id id' :
  string_object_meta_key id = string_object_meta_key id' → id = id'.
Proof. unfold string_object_meta_key. simpl. by intros [? _]%app_inj_2. Qed.

Lemma starts_with_prefix_nul id id' r :
  nul ∉ id → nul ∉ id' →
  starts_with (string_object_prefix id) (id' ++ nul :: r) = bool_decide (id = id').
Proof.
  unfold string_object_prefix. revert id'.
  induction id as [|a id IH]; intros [|b id'] Hi Hi'; simpl.
  - done.
  - rewrite bool_decide_false; [done|]. set_solver.
  - rewrite bool_decide_false; [done|]. set_solver.
  - rewrite IH by set_solver. repeat case_bool_decide; naive_solver.
Qed.

(** Metadata sorts before the event configuration, and both before every entry. *)
Lemma records_order id key :
  cmp (string_object_meta_key id) (string_object_event_config_key id) = Lt ∧
  cmp (string_object_event_config_key id) (string_object_entry_key_string id key) = Lt.
Proof.
  unfold string_object_meta_key, string_object_event_config_key,
    string_object_entry_key_string. rewrite !cmp_app_same. done.
Qed.

(** ** Theorems *)

(** Writing a record's key and parsing it gives the object and the record back: for the
    metadata, the event configuration and every entry. *)
Theorem storage_key_roundtrip id key :
  id_ok id → key_ok key → (Z.of_nat (length id) < 2 ^ 62)%Z →
  parse_string_object_key (E:=unit) (string_object_meta_key id) = Ok (Some (id, Meta)) ∧
  parse_string_object_key (E:=unit) (string_object_event_config_key id)
  = Ok (Some (id, EventConfig)) ∧
  parse_string_object_key (E:=unit) (string_object_entry_key_string id key)
  = Ok (Some (id, StringEntry key)).
Proof. auto using parse_meta_key, parse_event_config_key, parse_entry_key. Qed.

Lemma storage_key_roundtrip_witness :
  parse_string_object_key (E:=unit) (string_object_entry_key_string (bs "obj-1") (bs "f"))
  = Ok (Some (bs "obj-1", StringEntry (bs "f"))).
Proof.
  exact (proj2 (proj2 (storage_key_roundtrip (bs "obj-1") (bs "f")
    ltac:(decide_now) ltac:(decide_now) eq_refl))).
Defined.

(** Entries are ordered by the length of their key first and only then by its bytes:
    the length prefix decides (here for keys under 128 bytes, whose prefix is one byte). *)
Theorem entry_keys_shortlex id k1 k2 :
  length k1 < 128 → length k2 < 128 →
  cmp (string_object_entry_key_string id k1) (string_object_entry_key_string id k2)
  = match Nat.compare (length k1) (length k2) with Eq => cmp k1 k2 | c => c end.
Proof.
  intros H1 H2. unfold string_object_entry_key_string.
  rewrite (cmp_app_same id), (cmp_app_same [nul]), (cmp_app_same [Byte.x11]).
  rewrite !encode_varint_small by lia. unfold cmp; simpl.
  rewrite !bz_zb_small by lia. by rewrite <- Nat2Z.inj_compare.
Qed.

(** Key ["b"] sorts before key ["aa"]. *)
Lemma entry_keys_shortlex_witness :
  cmp (string_object_entry_key_string (bs "o") (bs "b"))
      (string_object_entry_key_string (bs "o") (bs "aa")) = Lt
  ∧ cmp (bs "b") (bs "aa") = Gt.
Proof.
  split; [|reflexivity].
  exact (entry_keys_shortlex (bs "o") (bs "b") (bs "aa") ltac:(vm_compute; lia)
    ltac:(vm_compute; lia)).
Defined.

(** A stored key that announces an entry key of nearly 2^64 bytes makes the parser
    panic instead of returning [None]. *)
Theorem parse_huge_length_panics id rest :
  id_ok id →
  parse_string_object_key (E:=unit)
    (id ++ nul :: Byte.x11 :: replicate 9 Byte.xff ++ Byte.x01 :: rest)
  = Panic "attempt to add with overflow".
Proof.
  intros Hid. rewrite parse_record by done.
  change (decode_varint (replicate 9 Byte.xff ++ Byte.x01 :: rest))
    with (Some (u64_max, 10)). cbv beta iota zeta.
  by rewrite (proj2 (Z.ltb_lt _ _)) by lia.
Qed.

Lemma parse_huge_length_panics_witness :
  parse_string_object_key (E:=unit)
    (bs "x" ++ nul :: Byte.x11 :: replicate 9 Byte.xff ++ [Byte.x01])
  = Panic "attempt to add with overflow".
Proof. exact (parse_huge_length_panics (bs "x") [] ltac:(decide_now)). Defined.
