(* ===== verification/GranularKey.v ===== *)
(** * Granular keys and object metadata

    [data-plane/oprc-odgm/src/granular_key.rs]: the numeric form of entry keys, the
    versioned [ObjectMetadata] record with its byte format, and the view of storage keys
    the entry store works with. *)

From stdpp Require Import base tactics list numbers option gmap sorting strings.
From Stdlib Require Import Lia.
From S2P Require Import Prelude BTree StorageKey.

Set Default Proof Using "Type".

(** ** Numeric entry keys *)

Definition digit (n : Z) : byte := zb (48 + n).

Fixpoint to_decimal (fuel : nat) (n : Z) : bytes :=
  match fuel with
  | O => []
  | S fuel => (if (n <? 10)%Z then [] else to_decimal fuel (n / 10)) ++ [digit (n mod 10)]
  end.

(** [u32::to_string]: at most ten digits. *)
Definition numeric_key_to_string (key : Z) : bytes := to_decimal 10 key.

(** The digits of [u32::from_str]: every step checks the range. *)
Fixpoint parse_digits (l : bytes) (acc : Z) : option Z :=
  match l with
  | [] => Some acc
  | b :: l =>
      if in_range 48 57 b then
        let acc := (acc * 10 + (bz b - 48))%Z in
        if (u32_max <? acc)%Z then None else parse_digits l acc
      else None
  end.

(** [key.parse::<u32>().ok()]: an optional leading plus, then at least one digit. *)
Definition string_to_numeric_key (key : bytes) : option Z :=
  match key with
  | [] => None
  | b :: l => if bool_decide (b = Byte.x2b) && bool_decide (l ≠ [])
              then parse_digits l 0 else parse_digits key 0
  end.

(** ** Object metadata *)

Record ObjectMetadata := {
  object_version : Z;
  tombstone : bool;
  attributes : list (bytes * bytes);
}.

#[global] Instance ObjectMetadata_eq_dec : EqDecision ObjectMetadata.
Proof. solve_decision. Defined.

Module ObjectMeta.

Definition new : ObjectMetadata :=
  {| object_version := 0; tombstone := false; attributes := [] |}.

Definition with_version (version : Z) : ObjectMetadata :=
  {| object_version := version; tombstone := false; attributes := [] |}.

Definition increment_version (m : ObjectMetadata) : ObjectMetadata :=
  {| object_version := sat_add64 (object_version m) 1; tombstone := tombstone m;
     attributes := attributes m |}.

Definition mark_tombstone (m : ObjectMetadata) : ObjectMetadata :=
  {| object_version := object_version m; tombstone := true; attributes := attributes m |}.

Definition len_u16 {A} (l : list A) : bytes := le_bytes 2 (as_u16 (Z.of_nat (length l))).

Definition attr_bytes (kv : bytes * bytes) : bytes :=
  len_u16 kv.1 ++ kv.1 ++ len_u16 kv.2 ++ kv.2.

Definition to_bytes (m : ObjectMetadata) : bytes :=
  le_bytes 8 (object_version m) ++ [if tombstone m then Byte.x01 else Byte.x00] ++
  len_u16 (attributes m) ++ concat (attr_bytes <$> attributes m).

(** The attribute loop of [from_bytes] at offset [pos]. *)
Fixpoint read_attributes (bytes : bytes) (count pos : nat) (acc : list (list byte * list byte)) :
    option (list (list byte * list byte)) :=
  match count with
  | O => Some acc
  | S count =>
      if (length bytes <? pos + 2)%nat then None else
      let klen := Z.to_nat (le_val (slice pos (pos + 2) bytes)) in
      let pos := (pos + 2)%nat in
      if (length bytes <? pos + klen + 2)%nat then None else
      match from_utf8 (slice pos (pos + klen) bytes) with
      | None => None
      | Some key =>
          let pos := (pos + klen)%nat in
          let vlen := Z.to_nat (le_val (slice pos (pos + 2) bytes)) in
          let pos := (pos + 2)%nat in
          if (length bytes <? pos + vlen)%nat then None else
          match from_utf8 (slice pos (pos + vlen) bytes) with
          | None => None
          | Some value => read_attributes bytes count (pos + vlen) (acc ++ [(key, value)])
          end
      end
  end.

Definition from_bytes (bytes : bytes) : option ObjectMetadata :=
  if (length bytes <? 11)%nat then None else
  let version := le_val (slice 0 8 bytes) in
  let tombstone := bool_decide (bytes !! 8 ≠ Some Byte.x00) in
  let count := Z.to_nat (le_val (slice 9 11 bytes)) in
  match read_attributes bytes count 11 [] with
  | None => None
  | Some attributes =>
      Some {| object_version := version; tombstone := tombstone; attributes := attributes |}
  end.

(** The records the format can carry: the counters fit their two-byte fields. *)
Definition attr_ok (kv : bytes * bytes) : Prop :=
  (valid_utf8 kv.1 = true ∧ Z.of_nat (length kv.1) ≤ u16_max)%Z ∧
  (valid_utf8 kv.2 = true ∧ Z.of_nat (length kv.2) ≤ u16_max)%Z.
Definition wf (m : ObjectMetadata) : Prop :=
  is_u64 (object_version m) ∧ (Z.of_nat (length (attributes m)) ≤ u16_max)%Z ∧
  Forall attr_ok (attributes m).

#[global] Instance wf_dec m : Decision (wf m).
Proof. unfold wf, is_u64, attr_ok. solve_decision. Defined.

End ObjectMeta.

(** ** Keys *)

Definition build_entry_key (normalized_object_id entry_key : bytes) : bytes :=
  string_object_entry_key_string normalized_object_id entry_key.
Definition build_metadata_key (normalized_object_id : bytes) : bytes :=
  string_object_meta_key normalized_object_id.
Definition build_object_prefix (normalized_object_id : bytes) : bytes :=
  string_object_prefix normalized_object_id.

Inductive GranularRecord : Type :=
| GMetadata
| GEventConfig
| GEntry (key : bytes).

Definition parse_granular_key {E} (raw : bytes) : res E (option (bytes * GranularRecord)) :=
  match parse_string_object_key raw with
  | Ok None => Ok None
  | Ok (Some (object_id, Meta)) => Ok (Some (object_id, GMetadata))
  | Ok (Some (object_id, EventConfig)) => Ok (Some (object_id, GEventConfig))
  | Ok (Some (object_id, StringEntry key)) => Ok (Some (object_id, GEntry key))
  | Err e => Err e
  | Panic msg => Panic msg
  end.

Definition is_metadata_key {E} (raw : bytes) : res E bool :=
  res_bind (parse_granular_key raw) (λ p,
    Ok match p with Some (_, GMetadata) => true | _ => false end).
Definition is_entry_key {E} (raw : bytes) : res E bool :=
  res_bind (parse_granular_key raw) (λ p,
    Ok match p with Some (_, GEntry _) => true | _ => false end).

(** ** Lemmas *)

Lemma digit_bz n : (0 ≤ n < 10)%Z → bz (digit n) = (48 + n)%Z.
Proof. intros. unfold digit. apply bz_zb_small. lia. Qed.

Lemma parse_digits_app l1 l2 acc :
  parse_digits (l1 ++ l2) acc
  = match parse_digits l1 acc with Some a => parse_digits l2 a | None => None end.
Proof.
  revert acc. induction l1 as [|b l1 IH]; intros acc; simpl; [done|].
  destruct (in_range 48 57 b); [|done]. case_match; [done|apply IH].
Qed.

Lemma parse_to_decimal fuel n :
  (0 ≤ n ≤ u32_max)%Z → (n < 10 ^ Z.of_nat fuel)%Z → fuel ≠ O →
  parse_digits (to_decimal fuel n) 0 = Some n.
Proof.
  revert n. induction fuel as [|fuel IH]; intros n Hn Hf Hnz; [done|].
  cbn [to_decimal]. rewrite parse_digits_app.
  assert (∀ a, (0 ≤ a)%Z → (a * 10 + n mod 10 = n)%Z →
    parse_digits [digit (n mod 10)] a = Some n) as Hlast.
  { intros a Ha Heq. pose proof (Z.mod_pos_bound n 10 ltac:(lia)). cbn [parse_digits].
    unfold in_range. rewrite digit_bz by lia.
    rewrite !(proj2 (Z.leb_le _ _)) by lia. cbn [andb].
    replace (a * 10 + (48 + n mod 10 - 48))%Z with n by lia.
    destruct (Z.ltb_spec u32_max n); [lia|done]. }
  pose proof (Z.div_mod n 10 ltac:(lia)).
  destruct (Z.ltb_spec n 10).
  - cbn [parse_digits]. apply Hlast; [lia|]. rewrite Z.mod_small; lia.
  - rewrite Nat2Z.inj_succ, Z.pow_succ_r in Hf by lia.
    assert (0 < n / 10)%Z by (apply Z.div_str_pos; lia).
    destruct fuel as [|fuel]; [simpl in Hf; lia|].
    rewrite IH; [apply Hlast; lia|..|done].
    + pose proof (Z.div_le_upper_bound n 10 u32_max). lia.
    + apply Z.div_lt_upper_bound; lia.
Qed.

Lemma to_decimal_head fuel n :
  (0 ≤ n)%Z → fuel ≠ O → ∃ b l, to_decimal fuel n = b :: l ∧ b ≠ Byte.x2b.
Proof.
  revert n. induction fuel as [|fuel IH]; intros n Hn Hf; [done|]. cbn [to_decimal].
  assert (digit (n mod 10) ≠ Byte.x2b) as Hd.
  { intros E%(f_equal bz). rewrite digit_bz in E by (apply Z.mod_pos_bound; lia).
    pose proof (Z.mod_pos_bound n 10). change (bz Byte.x2b) with 43%Z in E. lia. }
  destruct (Z.ltb_spec n 10); [by eexists _, _|].
  destruct fuel as [|fuel]; [by eexists _, _|].
  destruct (IH (n / 10)%Z) as (b & l & -> & ?); [by apply Z.div_pos|done|].
  by eexists _, _.
Qed.

Lemma slice_app (a b c : bytes) p q :
  p = length a → q = (length a + length b)%nat → slice p q (a ++ b ++ c) = b.
Proof.
  intros -> ->. unfold slice. rewrite drop_app_length.
  replace (length a + length b - length a) with (length b) by lia. apply take_app_length.
Qed.

Lemma len_u16_length {A} (l : list A) : length (ObjectMeta.len_u16 l) = 2.
Proof. apply le_bytes_length. Qed.

Lemma len_u16_val {A} (l : list A) :
  (Z.of_nat (length l) ≤ u16_max)%Z → Z.to_nat (le_val (ObjectMeta.len_u16 l)) = length l.
Proof.
  intros Hl. unfold ObjectMeta.len_u16, as_u16, u16_max in *.
  rewrite Z.mod_small by lia. rewrite le_val_bytes_small by lia. lia.
Qed.

Lemma read_attributes_spec pre attrs acc rest :
  Forall ObjectMeta.attr_ok attrs →
  ObjectMeta.read_attributes (pre ++ concat (ObjectMeta.attr_bytes <$> attrs) ++ rest)
    (length attrs) (length pre) acc = Some (acc ++ attrs).
Proof.
  intros Hattrs. revert pre acc.
  induction Hattrs as [|[k v] attrs [[Hk1 Hk2] [Hv1 Hv2]] _ IH]; intros pre acc.
  { simpl. by rewrite app_nil_r. }
  cbn [fst snd] in *. set (tl := concat (ObjectMeta.attr_bytes <$> attrs) ++ rest).
  rewrite fmap_cons. cbn [concat length ObjectMeta.read_attributes].
  rewrite <- (app_assoc _ _ rest). fold tl. cbv zeta.
  set (all := pre ++ ObjectMeta.attr_bytes (k, v) ++ tl).
  assert (all = pre ++ ObjectMeta.len_u16 k ++ k ++ ObjectMeta.len_u16 v ++ v ++ tl) as Hall.
  { unfold all, ObjectMeta.attr_bytes. cbn [fst snd]. by rewrite <- !app_assoc. }
  assert (length all = length pre + 2 + length k + 2 + length v + length tl) as Hlen.
  { rewrite Hall, !length_app, !len_u16_length. lia. }
  destruct (Nat.ltb_spec (length all) (length pre + 2)); [lia|].
  assert (slice (length pre) (length pre + 2) all = ObjectMeta.len_u16 k) as ->.
  { rewrite Hall. apply slice_app; [done|]. by rewrite len_u16_length. }
  rewrite len_u16_val by done.
  destruct (Nat.ltb_spec (length all) (length pre + 2 + length k + 2)); [lia|].
  assert (slice (length pre + 2) (length pre + 2 + length k) all = k) as ->.
  { rewrite Hall, (app_assoc pre). apply slice_app; rewrite length_app, len_u16_length; lia. }
  rewrite from_utf8_valid by done.
  assert (slice (length pre + 2 + length k) (length pre + 2 + length k + 2) all
    = ObjectMeta.len_u16 v) as ->.
  { rewrite Hall, (app_assoc pre), (app_assoc (pre ++ _)).
    apply slice_app; rewrite !length_app, !len_u16_length; lia. }
  rewrite len_u16_val by done.
  destruct (Nat.ltb_spec (length all) (length pre + 2 + length k + 2 + length v)); [lia|].
  assert (slice (length pre + 2 + length k + 2) (length pre + 2 + length k + 2 + length v) all
    = v) as ->.
  { rewrite Hall, (app_assoc pre), (app_assoc (pre ++ _)), (app_assoc ((pre ++ _) ++ _)).
    apply slice_app; rewrite !length_app, !len_u16_length; lia. }
  rewrite from_utf8_valid by done.
  replace all with ((pre ++ ObjectMeta.attr_bytes (k, v)) ++ tl)
    by (unfold all; by rewrite <- !app_assoc).
  replace (length pre + 2 + length k + 2 + length v)
    with (length (pre ++ ObjectMeta.attr_bytes (k, v)))
    by (unfold ObjectMeta.attr_bytes; cbn [fst snd]; rewrite !length_app, !len_u16_length; lia).
  rewrite IH. by rewrite <- app_assoc.
Qed.

Lemma metadata_roundtrip_aux m rest :
  ObjectMeta.wf m → ObjectMeta.from_bytes (ObjectMeta.to_bytes m ++ rest) = Some m.
Proof.
  intros (Hv & Hn & Hall). unfold ObjectMeta.from_bytes, ObjectMeta.to_bytes.
  set (v8 := le_bytes 8 _). set (t := [_]). set (c := ObjectMeta.len_u16 _).
  set (body := concat _). rewrite <- !app_assoc.
  assert (length v8 = 8) as H8 by apply le_bytes_length.
  assert (length c = 2) as H2 by apply len_u16_length.
  destruct (Nat.ltb_spec (length (v8 ++ t ++ c ++ body ++ rest)) 11) as [Hlt|_].
  { rewrite !length_app in Hlt. simpl length in Hlt. lia. }
  cbv zeta. assert (slice 0 8 (v8 ++ t ++ c ++ body ++ rest) = v8) as ->.
  { apply (slice_app []); simpl; lia. }
  assert (slice 9 11 (v8 ++ t ++ c ++ body ++ rest) = c) as ->.
  { rewrite (app_assoc v8). apply slice_app; rewrite length_app; simpl; lia. }
  assert (Z.to_nat (le_val c) = length (attributes m)) as -> by by apply len_u16_val.
  replace (v8 ++ t ++ c ++ body ++ rest) with ((v8 ++ t ++ c) ++ body ++ rest)
    by (by rewrite <- !app_assoc).
  replace 11 with (length (v8 ++ t ++ c)) by (rewrite !length_app; simpl; lia).
  unfold body. rewrite read_attributes_spec by done.
  rewrite <- !app_assoc, lookup_app_r by lia. rewrite H8.
  unfold v8. rewrite le_val_bytes_small.
  - destruct m as [ov ts at']. simpl in *. f_equal. by destruct ts.
  - unfold is_u64, u64_max in Hv. lia.
Qed.

Lemma increment_version_wf m : ObjectMeta.wf m → ObjectMeta.wf (ObjectMeta.increment_version m).
Proof.
  intros (? & ? & ?). split; [|done]. simpl. apply sat_add64_range; [done|].
  unfold is_u64, u64_max. lia.
Qed.

Lemma mark_tombstone_wf m : ObjectMeta.wf m → ObjectMeta.wf (ObjectMeta.mark_tombstone m).
Proof. done. Qed.

Lemma new_wf : ObjectMeta.wf ObjectMeta.new.
Proof. decide_now. Qed.

#[export] Hint Resolve increment_version_wf mark_tombstone_wf new_wf : oprc.

Lemma parse_granular_entry {E} id key :
  id_ok id → key_ok key → (Z.of_nat (length id) < 2 ^ 62)%Z →
  parse_granular_key (E:=E) (build_entry_key id key) = Ok (Some (id, GEntry key)).
Proof. intros. unfold parse_granular_key, build_entry_key. by rewrite parse_entry_key. Qed.

Lemma parse_granular_meta {E} id :
  id_ok id → parse_granular_key (E:=E) (build_metadata_key id) = Ok (Some (id, GMetadata)).
Proof. intros. unfold parse_granular_key, build_metadata_key. by rewrite parse_meta_key. Qed.

(** ** Theorems *)

(** Serialising the metadata of an object and reading it back gives the same record,
    whatever bytes follow it. *)
Theorem metadata_roundtrip m rest :
  ObjectMeta.wf m → ObjectMeta.from_bytes (ObjectMeta.to_bytes m ++ rest) = Some m.
Proof. apply metadata_roundtrip_aux. Qed.

Definition demo_metadata : ObjectMetadata :=
  {| object_version := 42; tombstone := true; attributes := [(bs "key1", bs "val1")] |}.

Lemma metadata_roundtrip_witness :
  ObjectMeta.from_bytes (ObjectMeta.to_bytes demo_metadata ++ []) = Some demo_metadata.
Proof. exact (metadata_roundtrip demo_metadata [] ltac:(decide_now)). Defined.

(** Numeric entry keys survive the conversion to their decimal form. *)
Theorem numeric_key_roundtrip n :
  (0 ≤ n ≤ u32_max)%Z → string_to_numeric_key (numeric_key_to_string n) = Some n.
Proof.
  intros Hn. unfold string_to_numeric_key, numeric_key_to_string.
  destruct (to_decimal_head 10 n) as (b & l & Heq & Hb); [lia|done|].
  pose proof (parse_to_decimal 10 n Hn) as Hp. rewrite Heq in Hp |- *.
  rewrite bool_decide_false by done. simpl andb.
  apply Hp; [|done]. unfold u32_max in Hn. simpl in *. lia.
Qed.

Lemma numeric_key_roundtrip_witness :
  string_to_numeric_key (numeric_key_to_string 4294967295) = Some 4294967295%Z.
Proof. exact (numeric_key_roundtrip 4294967295 ltac:(unfold u32_max; lia)). Defined.
