(* ===== verification/Identity.v ===== *)
(** * Object identities

    [data-plane/oprc-odgm/src/identity.rs]: normalisation of the identifiers clients
    send. Everything the shard stores goes through it, so its result must be fit for the
    key layout of [StorageKey]. *)

From stdpp Require Import base tactics list numbers option gmap sorting strings.
From Stdlib Require Import Lia.
From S2P Require Import Prelude BTree StorageKey.

Set Default Proof Using "Type".

Inductive NormalizationError : Type :=
| Empty
| Length (len max : nat)
| InvalidChars
| BothProvided
| NoneProvided.

Inductive ObjectIdentity : Type :=
| Numeric (n : Z)
| Str (s : bytes).

Definition is_numeric (i : ObjectIdentity) : bool :=
  match i with Numeric _ => true | _ => false end.
Definition as_u64 (i : ObjectIdentity) : option Z :=
  match i with Numeric v => Some v | _ => None end.
Definition as_str (i : ObjectIdentity) : option bytes :=
  match i with Str s => Some s | _ => None end.

(** [u8::to_ascii_lowercase] *)
Definition lower (b : byte) : byte := if in_range 65 90 b then zb (bz b + 32) else b.
Definition to_ascii_lowercase (s : bytes) : bytes := lower <$> s.

(** A character of the class [[a-z0-9._:-]]. *)
Definition valid_char (b : byte) : bool :=
  in_range 97 122 b || in_range 48 57 b ||
  bool_decide (b ∈ [Byte.x2e; Byte.x5f; Byte.x3a; Byte.x2d]).

(** [VALID_CHARS.is_match]: [^[a-z0-9._:-]+$]; the characters are ASCII, so matching
    characters and matching bytes agree. *)
Definition valid_chars (s : bytes) : bool := bool_decide (s ≠ []) && forallb valid_char s.

Definition normalize_object_id (raw : bytes) (max_len : nat) : res NormalizationError bytes :=
  if bool_decide (raw = []) then Err Empty else
  let lc := to_ascii_lowercase raw in
  if (max_len <? length lc)%nat then Err (Length (length lc) max_len) else
  if negb (valid_chars lc) then Err InvalidChars else Ok lc.

Definition normalize_entry_key (raw : bytes) (max_len : nat) : res NormalizationError bytes :=
  normalize_object_id raw max_len.

Definition build_identity (numeric : option Z) (string_id : option bytes) (max_len : nat) :
    res NormalizationError ObjectIdentity :=
  match numeric, string_id with
  | Some _, Some _ => Err BothProvided
  | None, None => Err NoneProvided
  | Some n, None => Ok (Numeric n)
  | None, Some s => res_bind (normalize_object_id s max_len) (λ id, Ok (Str id))
  end.

(** ** Lemmas *)

Lemma in_range_spec lo hi b : in_range lo hi b = true ↔ (lo ≤ bz b ≤ hi)%Z.
Proof. unfold in_range. rewrite andb_true_iff, !Z.leb_le. done. Qed.

Lemma valid_char_range b : valid_char b = true → (0 < bz b < 128)%Z ∧ ¬ (65 ≤ bz b ≤ 90)%Z.
Proof.
  unfold valid_char. rewrite !orb_true_iff, bool_decide_eq_true, !in_range_spec.
  intros [[?|?]|Hin]; [lia..|].
  repeat (apply elem_of_cons in Hin as [->|Hin]; [vm_compute; intuition congruence|]).
  by apply not_elem_of_nil in Hin.
Qed.

Lemma lower_idemp b : lower (lower b) = lower b.
Proof.
  unfold lower at 2 3. destruct (in_range 65 90 b) eqn:E; unfold lower; [|by rewrite E].
  apply in_range_spec in E. destruct (in_range 65 90 (zb _)) eqn:F; [|done].
  apply in_range_spec in F. rewrite bz_zb_small in F; lia.
Qed.

Lemma lower_valid b : valid_char b = true → lower b = b.
Proof.
  intros [_ H]%valid_char_range. unfold lower. destruct (in_range 65 90 b) eqn:E; [|done].
  by apply in_range_spec in E.
Qed.

(** The identifiers the normaliser accepts. *)
Definition normal_id (max_len : nat) (id : bytes) : Prop :=
  id ≠ [] ∧ length id ≤ max_len ∧ Forall (λ b, valid_char b = true) id.

Lemma normalize_ok_iff raw max_len id :
  normalize_object_id raw max_len = Ok id ↔
  id = to_ascii_lowercase raw ∧ normal_id max_len id.
Proof.
  unfold normalize_object_id, normal_id, valid_chars.
  case_bool_decide as H0; [subst; split; [done|naive_solver]|].
  assert (to_ascii_lowercase raw ≠ []) as Hne by (by destruct raw).
  destruct (Nat.ltb_spec max_len (length (to_ascii_lowercase raw))).
  { split; [done|]. intros (-> & _ & ? & _). lia. }
  rewrite bool_decide_true by done. simpl.
  destruct (forallb _ _) eqn:E; simpl.
  - rewrite forallb_forall in E. split; [intros [= <-]|naive_solver].
    repeat (split; [done|]). apply Forall_forall. intros b Hb. apply E.
    by apply list_elem_of_In.
  - split; [done|]. intros (-> & _ & _ & Hall). exfalso.
    assert (forallb valid_char (to_ascii_lowercase raw) = true) as E'; [|congruence].
    apply forallb_forall. intros b Hb. rewrite Forall_forall in Hall. apply Hall.
    by apply list_elem_of_In.
Qed.

Lemma normal_id_ok max_len id : normal_id max_len id → id_ok id.
Proof.
  intros (_ & _ & Hall). split.
  - intros Hin. rewrite Forall_forall in Hall. apply Hall, valid_char_range in Hin as [? _].
    change (bz nul) with 0%Z in *. lia.
  - apply valid_utf8_ascii. eapply Forall_impl; [exact Hall|].
    intros b Hb. simpl in Hb. apply valid_char_range in Hb. lia.
Qed.

(** ** Theorems *)

(** A normalised identifier is non-empty, within the length limit, in the character set,
    free of the terminator byte, valid UTF-8, and a fixed point of the normaliser. *)
Theorem normalize_sound raw max_len id :
  normalize_object_id raw max_len = Ok id →
  normal_id max_len id ∧ id_ok id ∧ length id = length raw ∧
  normalize_object_id id max_len = Ok id.
Proof.
  intros [Hid Hn]%normalize_ok_iff.
  split; [done|]. split; [by eapply normal_id_ok|].
  split; [subst; apply length_fmap|].
  apply normalize_ok_iff. split; [|done]. subst. unfold to_ascii_lowercase.
  rewrite <- list_fmap_compose. apply list_fmap_ext. intros _ b _. symmetry. apply lower_idemp.
Qed.

Lemma normalize_sound_witness :
  normalize_object_id (bs "user-abc_01") 160 = Ok (bs "user-abc_01").
Proof.
  exact (proj2 (proj2 (proj2
    (normalize_sound (bs "User-ABC_01") 160 (bs "user-abc_01") eq_refl)))).
Defined.

(** What the documentation of the normaliser prescribes for every text: the first violated
    rule gives the error, and a text that violates none becomes its lower-case form. *)
Definition normalize_spec (raw : bytes) (max_len : nat)
    (r : res NormalizationError bytes) : Prop :=
  match r with
  | Ok id => id = to_ascii_lowercase raw ∧ raw ≠ [] ∧ length raw ≤ max_len ∧
             Forall (λ b, valid_char (lower b) = true) raw
  | Err Empty => raw = []
  | Err (Length n m) => raw ≠ [] ∧ m = max_len ∧ n = length raw ∧ max_len < length raw
  | Err InvalidChars => raw ≠ [] ∧ length raw ≤ max_len ∧
                        ¬ Forall (λ b, valid_char (lower b) = true) raw
  | _ => False
  end.

Lemma normalize_spec_unique raw max_len r r' :
  normalize_spec raw max_len r → normalize_spec raw max_len r' → r = r'.
Proof.
  destruct r as [?|[]|?], r' as [?|[]|?]; simpl; try done; naive_solver lia.
Qed.

Lemma normalize_spec_holds raw max_len :
  normalize_spec raw max_len (normalize_object_id raw max_len).
Proof.
  destruct (normalize_object_id raw max_len) as [id|e|p] eqn:E.
  - apply normalize_ok_iff in E as (-> & Hne & Hl & Hall). unfold to_ascii_lowercase in *.
    rewrite length_fmap in Hl. rewrite Forall_fmap in Hall. simpl. by destruct raw.
  - assert (∀ id, normalize_object_id raw max_len ≠ Ok id) as Hno by congruence.
    unfold normalize_object_id in E. case_bool_decide as H0; [by simplify_eq|].
    unfold to_ascii_lowercase in E. rewrite length_fmap in E.
    destruct (Nat.ltb_spec max_len (length raw)); [by simplify_eq|].
    destruct (negb _); [|done]. simplify_eq. split; [done|]. split; [done|]. intros Hall.
    apply (Hno (to_ascii_lowercase raw)), normalize_ok_iff.
    unfold normal_id, to_ascii_lowercase. rewrite length_fmap, Forall_fmap.
    by destruct raw.
  - unfold normalize_object_id in E. repeat case_match; done.
Qed.

(** The normaliser returns a result for every text, and it is the one the rules
    prescribe and no other: an empty text, a too long one, one with other characters and
    an accepted one are told apart, in this order. *)
Theorem normalize_outcome raw max_len r :
  normalize_object_id raw max_len = r ↔ normalize_spec raw max_len r.
Proof.
  split; [intros <-; apply normalize_spec_holds|].
  apply normalize_spec_unique, normalize_spec_holds.
Qed.
