(* ===== verification/Replication.v ===== *)
(** * Replication layers

    [data-plane/oprc-odgm/src/replication/mod.rs]: the requests a shard hands to its
    replication layer and the answers it gets, the [ReplicationLayer] trait as a class
    with the contract the shard relies on, and the single-node layer of
    [no_replication.rs]. The Raft state machine and the MST layer discharge the same
    contract in [RaftSM] and [Mst]. *)

From stdpp Require Import base tactics list numbers option gmap sorting strings.
From S2P Require Import Prelude BTree Backend Memory.

Set Default Proof Using "Type".
Open Scope prog_scope.

(** ** Requests and responses *)

Record WriteOperation := {
  w_key : bytes;
  w_value : bytes;
  w_ttl : option Z;
  w_return_old : bool;
}.

Inductive Operation : Type :=
| Write (w : WriteOperation)
| Read (key : bytes)
| Delete (key : bytes)
| Batch (ops : list Operation).

Record ShardRequest := {
  operation : Operation;
  timestamp : Z;
  source_node : Z;
}.

(** [now] is what [SystemTime::now()] returned. *)
Definition from_operation (now : Z) (operation : Operation) (source_node : Z) : ShardRequest :=
  {| operation := operation; timestamp := now; source_node := source_node |}.

Inductive OperationExtra : Type :=
| ExtraNone
| ExtraWrite (overwrite : bool).

Inductive ResponseStatus : Type :=
| Applied
| NotLeader (leader_hint : option Z)
| Failed (reason : string)
| Conflict (reason : string)
| Retry.

Record ReplicationResponse := {
  status : ResponseStatus;
  resp_data : option bytes;
  extra : OperationExtra;
  resp_metadata : gmap string string;
}.

(** [ReplicationResponse::default()]: applied, without data. *)
Definition default_response : ReplicationResponse :=
  {| status := Applied; resp_data := None; extra := ExtraNone; resp_metadata := ∅ |}.

Inductive ReplicationError : Type :=
| RStorageError (e : StorageError)
| NetworkError (msg : string)
| ConsensusError (msg : string)
| MembershipChange (msg : string)
| UnsupportedOperation (msg : string)
| SerializationError (msg : string)
| Timeout (msg : string)
| RConflict (msg : string).

(** ** The layer's contract *)

(** The part of [ReplicationLayer] through which a shard reads and writes. The state
    [R] holds the application storage shared with the shard. *)
Class ReplicationLayer (R : Type) := {
  replicate_write : ShardRequest → M R ReplicationError ReplicationResponse;
  replicate_read : ShardRequest → M R ReplicationError ReplicationResponse;
}.

(** The effect of one write or delete on the stored map; [None] for the operations the
    shard does not put in a write request. *)
Definition op_effect (o : Operation) (d : store) : option store :=
  match o with
  | Write w => Some (bt_insert (w_key w) (w_value w) d)
  | Delete k => Some (bt_remove k d)
  | Read _ | Batch _ => None
  end.

Fixpoint ops_effect (os : list Operation) (d : store) : option store :=
  match os with
  | [] => Some d
  | o :: os => match op_effect o d with Some d => ops_effect os d | None => None end
  end.

Lemma ops_effect_app os1 os2 d :
  ops_effect (os1 ++ os2) d
  = match ops_effect os1 d with Some d' => ops_effect os2 d' | None => None end.
Proof.
  revert d. induction os1 as [|o os1 IH]; intros d; simpl; [done|].
  destruct (op_effect o d); [apply IH|done].
Qed.

(** What a layer on a healthy storage promises: a write is applied to the shared map,
    and [write_response] says what the layer reports about the value it replaced. *)
Class ReplicationLaws (R : Type) `{StorageLaws R} `{!ReplicationLayer R} := {
  write_response : option bytes → bool → ReplicationResponse;
  write_response_applied old ret : status (write_response old ret) = Applied;
  law_write w now src r : sto_inv r → ∃ r',
    replicate_write (from_operation now (Write w) src) r
    = (Ok (write_response (bt_get (w_key w) (contents r)) (w_return_old w)), r') ∧
    sto_inv r' ∧ contents r' = bt_insert (w_key w) (w_value w) (contents r);
  law_write_delete k now src r : sto_inv r → ∃ r',
    replicate_write (from_operation now (Delete k) src) r = (Ok default_response, r') ∧
    sto_inv r' ∧ contents r' = bt_remove k (contents r);
  law_write_batch os now src r d : sto_inv r → ops_effect os (contents r) = Some d → ∃ r',
    replicate_write (from_operation now (Batch os) src) r = (Ok default_response, r') ∧
    sto_inv r' ∧ contents r' = d;
  law_read k now src r : sto_inv r → ∃ resp,
    replicate_read (from_operation now (Read k) src) r = (Ok resp, r) ∧
    status resp = Applied ∧ resp_data resp = bt_get k (contents r);
}.

(** ** Storage inside a larger state *)

Section zoomed.
Context {R S : Type} `{Storage S} (get : R → S) (set : S → R → R).

Definition zoomed_storage : Storage R := {|
  sto_get k := zoom get set (sto_get k);
  sto_put k v := zoom get set (sto_put k v);
  sto_put_with_return k v := zoom get set (sto_put_with_return k v);
  sto_delete k := zoom get set (sto_delete k);
  sto_delete_range lo hi := zoom get set (sto_delete_range lo hi);
  sto_exists k := zoom get set (sto_exists k);
  sto_scan p := zoom get set (sto_scan p);
  sto_scan_range lo hi := zoom get set (sto_scan_range lo hi);
  sto_get_last := zoom get set sto_get_last;
  sto_flush := zoom get set sto_flush;
  sto_scan_range_paginated lo hi n := zoom get set (sto_scan_range_paginated lo hi n);
|}.

Context `{!StorageLaws S}.
Hypothesis get_set : ∀ s r, get (set s r) = s.
Hypothesis set_get : ∀ r, set (get r) r = r.

#[local] Ltac same_state lem :=
  simpl; intros; erewrite zoom_eq; [|by apply lem]; by rewrite set_get.
#[local] Ltac new_state lem :=
  simpl; intros;
  match goal with
  | Hi : sto_inv ?s |- _ => edestruct lem as (?&?&?&?); [exact Hi|];
      eexists; split; [by eapply zoom_eq|]; by rewrite !get_set
  end.

Program Definition zoomed_laws : @StorageLaws R zoomed_storage := {|
  contents r := contents (get r);
  sto_inv r := sto_inv (get r);
|}.
Next Obligation. intros. by apply contents_wf. Qed.
Next Obligation. same_state law_get. Qed.
Next Obligation. same_state law_exists. Qed.
Next Obligation. new_state law_put. Qed.
Next Obligation. new_state law_put_with_return. Qed.
Next Obligation. new_state law_delete. Qed.
Next Obligation.
  simpl. intros lo hi r Hr Hp. destruct (law_delete_range lo hi _ Hr Hp) as (n & s' & E & ? & ?).
  exists n. eexists. split; [by eapply zoom_eq|]. by rewrite !get_set.
Qed.
Next Obligation. same_state law_scan_all. Qed.
Next Obligation. same_state law_scan_range. Qed.
Next Obligation. same_state law_get_last. Qed.
Next Obligation. same_state law_flush. Qed.
Next Obligation. same_state law_page. Qed.
End zoomed.

(** ** No replication *)

Module NoReplication.
Section no_replication.
Context {S : Type} `{Storage S}.

Definition storage {A} (m : M S StorageError A) : M S ReplicationError A :=
  map_err RStorageError m.

(** [replicate_write], by recursion on the operation. *)
Fixpoint replicate_op (o : Operation) : M S ReplicationError ReplicationResponse :=
  match o with
  | Write w =>
      if w_return_old w then
        let! old_value := storage (sto_put_with_return (w_key w) (w_value w)) in
        ret {| status := Applied; resp_data := old_value;
               extra := ExtraWrite (bool_decide (is_Some old_value));
               resp_metadata := ∅ |}
      else
        let! ovr := storage (sto_put (w_key w) (w_value w)) in
        ret {| status := Applied; resp_data := None; extra := ExtraWrite ovr;
               resp_metadata := ∅ |}
  | Delete key => storage (sto_delete key) ;;; ret default_response
  | Read key =>
      let! data := storage (sto_get key) in
      ret {| status := Applied; resp_data := data; extra := ExtraNone; resp_metadata := ∅ |}
  | Batch operations => for_each replicate_op operations ;;; ret default_response
  end.

Definition replicate_write (request : ShardRequest) : M S ReplicationError ReplicationResponse :=
  replicate_op (operation request).
Definition replicate_read (request : ShardRequest) : M S ReplicationError ReplicationResponse :=
  replicate_write request.
End no_replication.
End NoReplication.

Section no_replication_laws.
Context {S : Type} `{StorageLaws S}.

(** The single-node shard uses its storage itself as the replicated state. *)
Definition no_replication : ReplicationLayer S := {|
  replicate_write := NoReplication.replicate_write;
  replicate_read := NoReplication.replicate_read;
|}.

Lemma storage_ok {A} (m : M S StorageError A) s a s' :
  m s = (Ok a, s') → NoReplication.storage m s = (Ok a, s').
Proof. unfold NoReplication.storage, map_err. by intros ->. Qed.

Lemma is_Some_contains k (d : store) : bt_contains k d = bool_decide (is_Some (bt_get k d)).
Proof. done. Qed.

Definition no_replication_response (old : option bytes) (ret : bool) : ReplicationResponse :=
  {| status := Applied; resp_data := if ret then old else None;
     extra := ExtraWrite (bool_decide (is_Some old)); resp_metadata := ∅ |}.

Lemma no_replication_write w s : sto_inv s → ∃ s',
  NoReplication.replicate_op (Write w) s
  = (Ok (no_replication_response (bt_get (w_key w) (contents s)) (w_return_old w)), s') ∧
  sto_inv s' ∧ contents s' = bt_insert (w_key w) (w_value w) (contents s).
Proof.
  intros Hs. simpl. unfold no_replication_response. destruct (w_return_old w).
  - destruct (law_put_with_return (w_key w) (w_value w) s Hs) as (s' & E & ? & ?).
    exists s'. erewrite bind_ok by (by apply storage_ok). done.
  - destruct (law_put (w_key w) (w_value w) s Hs) as (s' & E & ? & ?).
    exists s'. erewrite bind_ok by (by apply storage_ok). done.
Qed.

Lemma no_replication_delete k s : sto_inv s → ∃ s',
  NoReplication.replicate_op (Delete k) s = (Ok default_response, s') ∧
  sto_inv s' ∧ contents s' = bt_remove k (contents s).
Proof.
  intros Hs. simpl. destruct (law_delete k s Hs) as (s' & E & ? & ?).
  exists s'. erewrite bind_ok by (by apply storage_ok). done.
Qed.

Lemma no_replication_ops os s d :
  sto_inv s → ops_effect os (contents s) = Some d → ∃ s',
  for_each NoReplication.replicate_op os s = (Ok tt, s') ∧ sto_inv s' ∧ contents s' = d.
Proof.
  revert s. induction os as [|o os IH]; intros s Hs; simpl.
  { intros [= <-]. eauto. }
  destruct o as [w| |k|]; simpl; try done; intros Hd.
  - destruct (no_replication_write w s Hs) as (s' & E & Hs' & Hc).
    rewrite <- Hc in Hd. destruct (IH s' Hs' Hd) as (s'' & E' & ?).
    exists s''. erewrite bind_ok by exact E. done.
  - destruct (no_replication_delete k s Hs) as (s' & E & Hs' & Hc).
    rewrite <- Hc in Hd. destruct (IH s' Hs' Hd) as (s'' & E' & ?).
    exists s''. erewrite bind_ok by exact E. done.
Qed.

#[program] Definition no_replication_laws : @ReplicationLaws S _ _ no_replication := {|
  write_response := no_replication_response;
|}.
Next Obligation. done. Qed.
Next Obligation. intros. by apply no_replication_write. Qed.
Next Obligation. intros. by apply no_replication_delete. Qed.
Next Obligation.
  intros os now src s d Hs Hd. destruct (no_replication_ops os s d Hs Hd) as (s' & E & ?).
  exists s'. split; [|done]. simpl. unfold NoReplication.replicate_write. simpl.
  by rewrite (bind_ok _ _ _ _ _ E).
Qed.
Next Obligation.
  intros k now src s Hs.
  exists {| status := Applied; resp_data := bt_get k (contents s); extra := ExtraNone;
            resp_metadata := ∅ |}.
  split; [|done]. simpl. unfold NoReplication.replicate_read, NoReplication.replicate_write. simpl.
  by erewrite bind_ok by (by apply storage_ok, law_get).
Qed.
End no_replication_laws.
