(* ===== verification/RaftSnapshot.v ===== *)
(** * Snapshot transfer

    [data-plane/oprc-odgm/src/replication/raft/raft_snapshot.rs] and
    [raft_snapshot_stream.rs]: the byte stream of a snapshot, the buffer it travels
    through and the parser on the receiving side. Polling is explicit: each call of
    [poll_read] or [poll_next] is a function from state to state. The buffer's lock is
    never contended here, and the stream of pairs is the one of the in-memory backend,
    which is always ready. *)

From stdpp Require Import base tactics list numbers option gmap sorting strings.
From Stdlib Require Import Lia.
From S2P Require Import Prelude BTree Backend Memory.

Inductive Poll (A : Type) : Type :=
| Ready (a : A)
| Pending.
Arguments Ready {A} a.
Arguments Pending {A}.

(** An item of a stream of pairs. I/O errors are their text. *)
Notation kv_item := (res StorageError (bytes * bytes)).

(** ** The sending side: pairs to bytes *)

Module KvStreamingReader.

Record t := {
  kv_stream : list kv_item;
  current_item : option bytes;
  stream_ended : bool;
}.

Definition new (kv_stream : list kv_item) : t :=
  {| kv_stream := kv_stream; current_item := None; stream_ended := false |}.

(** Lengths are written as [u32]. *)
Definition serialize_kv_pair (key value : bytes) : bytes :=
  le_bytes 4 (Z.of_nat (length key)) ++ key ++ le_bytes 4 (Z.of_nat (length value)) ++ value.

(** The part of [poll_read]'s loop that takes items from the stream; [cap] is the room in
    the caller's buffer. *)
Fixpoint read_stream (cap : nat) (items : list kv_item) :
    Poll (res string bytes) * t :=
  match items with
  | [] => (Ready (Ok []), {| kv_stream := []; current_item := None; stream_ended := true |})
  | Ok (key, value) :: items =>
      let serialized := serialize_kv_pair key value in
      if bool_decide (take cap serialized = []) then read_stream cap items
      else (Ready (Ok (take cap serialized)),
            {| kv_stream := items; current_item := Some (drop cap serialized);
               stream_ended := false |})
  | Err e :: items =>
      (Ready (Err (display_error e)),
       {| kv_stream := items; current_item := None; stream_ended := false |})
  | Panic m :: items =>
      (Ready (Panic m), {| kv_stream := items; current_item := None; stream_ended := false |})
  end.

Definition poll_read (cap : nat) (r : t) : Poll (res string bytes) * t :=
  let from_stream :=
    if stream_ended r
    then (Ready (Ok []), {| kv_stream := kv_stream r; current_item := None;
                            stream_ended := true |})
    else read_stream cap (kv_stream r) in
  match current_item r with
  | Some cursor =>
      if bool_decide (take cap cursor = []) then from_stream
      else (Ready (Ok (take cap cursor)),
            {| kv_stream := kv_stream r; current_item := Some (drop cap cursor);
               stream_ended := stream_ended r |})
  | None => from_stream
  end.

End KvStreamingReader.

(** ** The buffer *)

Module Buf.

(** [StreamingSnapshotInner] *)
Record t := {
  buffer : bytes;
  read_pos : nat;
  write_pos : nat;
  is_complete : bool;
  stream_source : option KvStreamingReader.t;
}.

Definition new : t :=
  {| buffer := []; read_pos := 0; write_pos := 0; is_complete := false;
     stream_source := None |}.

Definition with_stream (stream : KvStreamingReader.t) : t :=
  {| buffer := []; read_pos := 0; write_pos := 0; is_complete := false;
     stream_source := Some stream |}.

Definition from_bytes (data : bytes) : t :=
  {| buffer := data; read_pos := 0; write_pos := length data; is_complete := true;
     stream_source := None |}.

(** 8 KB *)
Definition CHUNK : nat := 8 * 1024.

(** [buf[start..end]] panics when [start] lies beyond [end]. *)
Definition poll_read (cap : nat) (b : t) : Poll (res string bytes) * t :=
  if (0 <? write_pos b - read_pos b)%nat then
    let start := read_pos b in
    let stop := Nat.min (start + cap) (length (buffer b)) in
    if (stop <? start)%nat then (Ready (Panic "slice index"), b)
    else
      let to_read := take (stop - start) (drop start (buffer b)) in
      (Ready (Ok to_read),
       {| buffer := buffer b; read_pos := read_pos b + length to_read;
          write_pos := write_pos b; is_complete := is_complete b;
          stream_source := stream_source b |})
  else if is_complete b then (Ready (Ok []), b)
  else
    match stream_source b with
    | None => (Pending, b)
    | Some stream =>
        match KvStreamingReader.poll_read CHUNK stream with
        | (Ready (Ok []), _) =>
            (Ready (Ok []),
             {| buffer := buffer b; read_pos := read_pos b; write_pos := write_pos b;
                is_complete := true; stream_source := None |})
        | (Ready (Ok chunk), stream) =>
            (Pending,
             {| buffer := buffer b ++ chunk; read_pos := read_pos b;
                write_pos := write_pos b + length chunk; is_complete := is_complete b;
                stream_source := Some stream |})
        | (r, stream) =>
            (r, {| buffer := buffer b; read_pos := read_pos b; write_pos := write_pos b;
                   is_complete := is_complete b; stream_source := Some stream |})
        end
    end.

(** Overwriting part of the buffer, which first grows when it is too short. *)
Definition overwrite (pos : nat) (buf b : bytes) : bytes :=
  let b := b ++ replicate (pos + length buf - length b) Byte.x00 in
  take pos b ++ buf ++ drop (pos + length buf) b.

Definition poll_write (buf : bytes) (b : t) : Poll nat * t :=
  (Ready (length buf),
   {| buffer := if (write_pos b =? length (buffer b))%nat then buffer b ++ buf
                else overwrite (write_pos b) buf (buffer b);
      read_pos := read_pos b; write_pos := write_pos b + length buf;
      is_complete := is_complete b; stream_source := stream_source b |}).

Definition poll_shutdown (b : t) : t :=
  {| buffer := buffer b; read_pos := read_pos b; write_pos := write_pos b;
     is_complete := true; stream_source := stream_source b |}.

Inductive SeekFrom : Type :=
| Start (pos : nat)
| End (offset : Z)
| Current (offset : Z).

(** Positions stay below [2^64]. *)
Definition start_seek (position : SeekFrom) (b : t) : t :=
  let seek from offset := Z.to_nat (Z.of_nat from + offset) in
  {| buffer := buffer b;
     read_pos := match position with
                 | Start pos => pos
                 | End offset => seek (write_pos b) offset
                 | Current offset => seek (read_pos b) offset
                 end;
     write_pos := write_pos b; is_complete := is_complete b;
     stream_source := stream_source b |}.
End Buf.

(** ** The receiving side: bytes to pairs *)

Module Parser.

Inductive ParseState : Type :=
| KeyLen
| Key (key_len : nat)
| ValueLen
| Value (key : bytes) (value_len : nat).

(** [KvStreamingParser] *)
Record t := { reader : Buf.t; pbuf : bytes; state : ParseState }.

Definition new (reader : Buf.t) : t := {| reader := reader; pbuf := []; state := KeyLen |}.

Definition u32_of (l : bytes) : nat := Z.to_nat (le_val l).

Inductive Step : Type :=
| Return (r : Poll (option kv_item)) (p : t)
| Continue (p : t).

(** One round of [poll_next]'s loop: a read of the number of bytes the state asks for.
    A read that is short leaves the state and gives up; an error resets it. *)
Definition step (p : t) : Step :=
  let want := match state p with
              | KeyLen | ValueLen => 4
              | Key n | Value _ n => n
              end in
  let at_ s buf rd := {| reader := rd; pbuf := buf; state := s |} in
  match Buf.poll_read want (reader p) with
  | (Pending, rd) => Return Pending (at_ (state p) (pbuf p) rd)
  | (Ready (Err e), rd) => Return (Ready (Some (Err (Backend e)))) (at_ KeyLen (pbuf p) rd)
  | (Ready (Panic m), rd) => Return (Ready (Some (Panic m))) (at_ KeyLen (pbuf p) rd)
  | (Ready (Ok got), rd) =>
      if (length got =? want)%nat then
        match state p with
        | KeyLen =>
            if (u32_of got =? 0)%nat then Return (Ready None) (at_ KeyLen (pbuf p) rd)
            else Continue (at_ (Key (u32_of got)) (pbuf p) rd)
        | Key _ => Continue (at_ ValueLen got rd)
        | ValueLen => Continue (at_ (Value (pbuf p) (u32_of got)) [] rd)
        | Value key _ => Return (Ready (Some (Ok (key, got)))) (at_ KeyLen (pbuf p) rd)
        end
      else
        match state p, got with
        | KeyLen, [] => Return (Ready None) (at_ KeyLen (pbuf p) rd)
        | s, _ => Return Pending (at_ s (pbuf p) rd)
        end
  end.

Fixpoint poll_loop (rounds : nat) (p : t) : Poll (option kv_item) * t :=
  match step p with
  | Return r p => (r, p)
  | Continue p => match rounds with
                  | O => (Ready (Some (Panic "out of fuel")), p)
                  | S rounds => poll_loop rounds p
                  end
  end.

(** A pair takes four rounds. *)
Definition poll_next (p : t) : Poll (option kv_item) * t := poll_loop 4 p.

(** The items a consumer sees that awaits one after the other and stops at the end or at
    the first error; [None] when a poll is still pending after [polls] attempts. *)
Fixpoint await (polls : nat) (p : t) : option (option kv_item * t) :=
  match poll_next p, polls with
  | (Ready r, p), _ => Some (r, p)
  | (Pending, p), S polls => await polls p
  | (Pending, _), O => None
  end.

Fixpoint items (fuel polls : nat) (p : t) : option (list kv_item) :=
  match fuel with
  | O => None
  | S fuel =>
      match await polls p with
      | Some (Some (Ok kv), p) => cons (Ok kv) <$> items fuel polls p
      | Some (Some r, _) => Some [r]
      | Some (None, _) => Some []
      | None => None
      end
  end.
End Parser.

(** ** Storages with snapshots *)

(** [SnapshotCapableStorage], as far as replication uses it: the pairs of a snapshot are
    the items of [create_kv_snapshot_stream]. *)
Class SnapshotStorage (S : Type) `{Storage S} := {
  SnapshotData : Type;
  create_snapshot : M S StorageError SnapshotData;
  snapshot_stream : SnapshotData → list kv_item;
  install_kv_snapshot_from_stream : list kv_item → M S StorageError unit;
}.

(** A snapshot holds the pairs in key order; installing pairs replaces the contents. *)
Class SnapshotLaws (S : Type) `{StorageLaws S} `{!SnapshotStorage S} := {
  law_create_snapshot s : sto_inv s → ∃ snap,
    create_snapshot s = (Ok snap, s) ∧ snapshot_stream snap = Ok <$> contents s;
  law_install (l : store) s : sto_inv s → bt_wf l → ∃ s',
    install_kv_snapshot_from_stream (Ok <$> l) s = (Ok tt, s') ∧ sto_inv s' ∧ contents s' = l;
}.

#[global] Instance memory_snapshots : SnapshotStorage MemoryStorage := {|
  SnapshotData := Memory.Snapshot;
  create_snapshot := Memory.create_snapshot;
  snapshot_stream snap := Ok <$> Memory.snapshot_data snap;
  install_kv_snapshot_from_stream := Memory.install_kv_snapshot_from_stream;
|}.

Lemma install_loop_ok (l : store) entries size s :
  ∃ s', Memory.install_loop (Ok <$> l) entries size s = (Ok tt, s') ∧
  data s' = foldl (λ d kv, bt_insert kv.1 kv.2 d) (data s) l.
Proof.
  revert entries size s. induction l as [|kv l IH]; intros entries size s; simpl.
  { by eexists. }
  unfold lift_res, bind, modify. destruct (IH (entries + 1)%Z (size + pair_size kv)%Z
    (set_data (bt_insert kv.1 kv.2 (data s)) s)) as (s' & E & Hd).
  exists s'. split; [exact E|exact Hd].
Qed.

#[global] Instance memory_snapshot_laws : SnapshotLaws MemoryStorage.
Proof.
  split.
  - intros s Hs. by eexists.
  - intros l s Hs Hl. simpl. unfold Memory.install_kv_snapshot_from_stream. rewrite bind_modify.
    destruct (install_loop_ok l 0 0 (upd_stats Stats.reset (set_data [] s))) as (s' & E & Hd).
    exists s'. simpl in Hd. rewrite rebuild_id in Hd by done. split; [exact E|]. by rewrite Hd.
Qed.

Section transfer.
Context {S : Type} `{SnapshotStorage S}.

(** [install_raft_snapshot]: [None] when the parser hangs. *)
Definition install_raft_snapshot (fuel polls : nat) (snapshot : Buf.t) (s : S) :
    option (res StorageError unit * S) :=
  (λ its, install_kv_snapshot_from_stream its s)
    <$> Parser.items fuel polls (Parser.new snapshot).

(** The buffer [create_raft_snapshot_from_existing] hands over: the pairs as a lazy byte
    stream. *)
Definition create_streaming_snapshot (snap : SnapshotData) : Buf.t :=
  Buf.with_stream (KvStreamingReader.new (snapshot_stream snap)).
End transfer.

(** Reading a buffer to its end in pieces of at most [cap] bytes, polling again while it
    is pending. *)
Fixpoint drain (fuel cap : nat) (b : Buf.t) : option bytes :=
  match fuel with
  | O => None
  | S fuel =>
      match Buf.poll_read cap b with
      | (Ready (Ok []), _) => Some []
      | (Ready (Ok chunk), b) => app chunk <$> drain fuel cap b
      | (Ready _, _) => None
      | (Pending, b) => drain fuel cap b
      end
  end.

(** Receiving: the pieces are written one after the other, then the buffer is shut down. *)
Definition receive (chunks : list bytes) : Buf.t :=
  Buf.poll_shutdown (foldl (λ b c, (Buf.poll_write c b).2) Buf.new chunks).

(** ** Lemmas *)

Definition pair_ok (kv : bytes * bytes) : Prop :=
  kv.1 ≠ [] ∧ (Z.of_nat (length kv.1) < 2 ^ 32)%Z ∧ (Z.of_nat (length kv.2) < 2 ^ 32)%Z.

#[global] Instance pair_ok_dec kv : Decision (pair_ok kv).
Proof. unfold pair_ok. apply _. Defined.

(** The bytes of a list of pairs. *)
Definition serialize (l : store) : bytes :=
  concat ((λ kv, KvStreamingReader.serialize_kv_pair kv.1 kv.2) <$> l).

Lemma serialize_nonempty k v : KvStreamingReader.serialize_kv_pair k v ≠ [].
Proof. done. Qed.

Lemma u32_of_bytes n : (Z.of_nat n < 2 ^ 32)%Z → Parser.u32_of (le_bytes 4 (Z.of_nat n)) = n.
Proof. intros Hn. unfold Parser.u32_of. rewrite le_val_bytes_small by lia. lia. Qed.

(** A buffer is written at its end only, and never read past it. *)
Definition buf_ok (b : Buf.t) : Prop :=
  Buf.write_pos b = length (Buf.buffer b) ∧ Buf.read_pos b ≤ length (Buf.buffer b).

Definition unread (b : Buf.t) : bytes := drop (Buf.read_pos b) (Buf.buffer b).

(** A read with data at hand. *)
Lemma poll_read_data cap b :
  buf_ok b → unread b ≠ [] →
  ∃ b', Buf.poll_read cap b = (Ready (Ok (take cap (unread b))), b') ∧
  buf_ok b' ∧ unread b' = drop cap (unread b) ∧
  Buf.is_complete b' = Buf.is_complete b ∧ Buf.stream_source b' = Buf.stream_source b.
Proof.
  intros [Hw Hr] Hne. unfold Buf.poll_read, unread in *.
  assert (Buf.read_pos b < length (Buf.buffer b)) as Hlt.
  { destruct (Nat.lt_ge_cases (Buf.read_pos b) (length (Buf.buffer b))); [done|].
    by rewrite drop_ge in Hne. }
  rewrite (proj2 (Nat.ltb_lt _ _)) by lia.
  rewrite (proj2 (Nat.ltb_ge _ _)) by lia.
  set (rd := Buf.read_pos b) in *. set (bf := Buf.buffer b) in *.
  assert (take (Nat.min (rd + cap) (length bf) - rd) (drop rd bf) = take cap (drop rd bf)) as ->.
  { destruct (Nat.le_ge_cases (rd + cap) (length bf)).
    - f_equal. lia.
    - rewrite !take_ge; [done|rewrite length_drop; lia..]. }
  eexists. split; [reflexivity|]. unfold buf_ok. simpl. fold rd bf.
  rewrite length_take, length_drop. split; [lia|]. split; [|done].
  rewrite drop_drop. destruct (Nat.le_ge_cases cap (length bf - rd)).
  - f_equal. lia.
  - rewrite !drop_ge; [done|lia..].
Qed.

(** A complete buffer is always ready. *)
Lemma poll_read_complete cap b :
  buf_ok b → Buf.is_complete b = true →
  ∃ b', Buf.poll_read cap b = (Ready (Ok (take cap (unread b))), b') ∧
  buf_ok b' ∧ unread b' = drop cap (unread b) ∧ Buf.is_complete b' = true.
Proof.
  intros Hb Hc. destruct (decide (unread b = [])) as [Hn|Hne].
  - exists b. unfold Buf.poll_read.
    assert (Buf.write_pos b - Buf.read_pos b = 0) as ->.
    { destruct Hb as [Hw Hr]. unfold unread in Hn. apply (f_equal length) in Hn.
      rewrite length_drop in Hn. simpl in Hn. lia. }
    simpl. rewrite Hc, Hn. by destruct cap.
  - destruct (poll_read_data cap b Hb Hne) as (b' & E & ? & ? & ? & _).
    exists b'. rewrite E. split_and!; [done..|congruence].
Qed.

(** One round of the parser on a complete buffer that holds the bytes it asks for. *)
Lemma parser_read p got rest :
  buf_ok (Parser.reader p) → Buf.is_complete (Parser.reader p) = true →
  unread (Parser.reader p) = got ++ rest →
  ∃ rd, Buf.poll_read (length got) (Parser.reader p) = (Ready (Ok got), rd) ∧
  buf_ok rd ∧ Buf.is_complete rd = true ∧ unread rd = rest.
Proof.
  intros Hb Hc Hu. destruct (poll_read_complete (length got) (Parser.reader p) Hb Hc)
    as (rd & E & Hb' & Hu' & Hc').
  rewrite Hu, take_app_length in E. rewrite Hu, drop_app_length in Hu'. eauto.
Qed.

Lemma poll_next_pair k v rest buf b :
  pair_ok (k, v) → buf_ok b → Buf.is_complete b = true →
  unread b = KvStreamingReader.serialize_kv_pair k v ++ rest →
  ∃ b' buf', Parser.poll_next {| Parser.reader := b; Parser.pbuf := buf;
                                 Parser.state := Parser.KeyLen |}
  = (Ready (Some (Ok (k, v))),
     {| Parser.reader := b'; Parser.pbuf := buf'; Parser.state := Parser.KeyLen |}) ∧
  buf_ok b' ∧ Buf.is_complete b' = true ∧ unread b' = rest.
Proof.
  intros (Hk & Hlk & Hlv) Hb Hc Hu. simpl in Hk, Hlk, Hlv.
  unfold KvStreamingReader.serialize_kv_pair in Hu. rewrite <- !app_assoc in Hu.
  set (kl := le_bytes 4 (Z.of_nat (length k))) in *.
  set (vl := le_bytes 4 (Z.of_nat (length v))) in *.
  assert (length kl = 4 ∧ length vl = 4) as [Lk Lv] by (split; apply le_bytes_length).
  destruct (parser_read {| Parser.reader := b; Parser.pbuf := buf; Parser.state := Parser.KeyLen |}
    kl _ Hb Hc Hu) as (b1 & E1 & Hb1 & Hc1 & Hu1).
  destruct (parser_read {| Parser.reader := b1; Parser.pbuf := buf; Parser.state := Parser.KeyLen |}
    k _ Hb1 Hc1 Hu1) as (b2 & E2 & Hb2 & Hc2 & Hu2).
  destruct (parser_read {| Parser.reader := b2; Parser.pbuf := buf; Parser.state := Parser.KeyLen |}
    vl _ Hb2 Hc2 Hu2) as (b3 & E3 & Hb3 & Hc3 & Hu3).
  destruct (parser_read {| Parser.reader := b3; Parser.pbuf := buf; Parser.state := Parser.KeyLen |}
    v _ Hb3 Hc3 Hu3) as (b4 & E4 & Hb4 & Hc4 & Hu4).
  rewrite Lk in E1. rewrite Lv in E3. simpl in E1, E2, E3, E4.
  exists b4, []. split; [|done]. unfold Parser.poll_next.
  cbn [Parser.poll_loop]. unfold Parser.step at 1. cbn [Parser.state Parser.reader].
  rewrite E1, Lk. cbn [Nat.eqb]. unfold kl. rewrite u32_of_bytes by done.
  rewrite (proj2 (Nat.eqb_neq (length k) 0)) by (by destruct k).
  unfold Parser.step at 1. cbn [Parser.state Parser.reader]. rewrite E2, Nat.eqb_refl.
  unfold Parser.step at 1. cbn [Parser.state Parser.reader]. rewrite E3, Lv. cbn [Nat.eqb Parser.pbuf].
  unfold vl. rewrite u32_of_bytes by done.
  unfold Parser.step at 1. cbn [Parser.state Parser.reader]. rewrite E4, Nat.eqb_refl. done.
Qed.

Lemma poll_next_end buf b :
  buf_ok b → Buf.is_complete b = true → unread b = [] →
  ∃ p, Parser.poll_next {| Parser.reader := b; Parser.pbuf := buf;
                           Parser.state := Parser.KeyLen |} = (Ready None, p).
Proof.
  intros Hb Hc Hu. destruct (poll_read_complete 4 b Hb Hc) as (b' & E & _).
  rewrite Hu in E. unfold Parser.poll_next. cbn [Parser.poll_loop]. unfold Parser.step.
  cbn [Parser.state Parser.reader]. rewrite E. simpl. by eexists.
Qed.

Lemma parser_items l fuel polls b buf :
  Forall pair_ok l → length l < fuel → buf_ok b → Buf.is_complete b = true →
  unread b = serialize l →
  Parser.items fuel polls {| Parser.reader := b; Parser.pbuf := buf;
                             Parser.state := Parser.KeyLen |} = Some (Ok <$> l).
Proof.
  intros Hl. revert fuel b buf. induction Hl as [|[k v] l Hkv Hl IH]; intros fuel b buf Hf Hb Hc Hu;
    (destruct fuel as [|fuel]; [simpl in Hf; lia|]); cbn [Parser.items].
  - destruct (poll_next_end buf b Hb Hc Hu) as (p & E).
    destruct polls; cbn [Parser.await]; by rewrite E.
  - destruct (poll_next_pair k v (serialize l) buf b Hkv Hb Hc Hu)
      as (b' & buf' & E & Hb' & Hc' & Hu').
    assert (Parser.await polls {| Parser.reader := b; Parser.pbuf := buf;
      Parser.state := Parser.KeyLen |} = Some (Some (Ok (k, v)),
      {| Parser.reader := b'; Parser.pbuf := buf'; Parser.state := Parser.KeyLen |})) as ->.
    { destruct polls; cbn [Parser.await]; by rewrite E. }
    simpl in Hf. rewrite IH by (done || lia). done.
Qed.

(** ** The sending side *)

(** The bytes a reader still has to deliver. *)
Definition reader_bytes (r : KvStreamingReader.t) (l : store) : Prop :=
  KvStreamingReader.kv_stream r = Ok <$> l ∧
  (KvStreamingReader.stream_ended r = true → l = []).

Definition reader_pending (r : KvStreamingReader.t) (l : store) : bytes :=
  default [] (KvStreamingReader.current_item r) ++ serialize l.

Lemma take_nil_inv {A} cap (l : list A) : 0 < cap → take cap l = [] → l = [].
Proof. by destruct cap, l; [lia|lia|..]. Qed.

Lemma read_stream_ok cap l :
  0 < cap →
  ∃ c r l', KvStreamingReader.read_stream cap (Ok <$> l) = (Ready (Ok c), r) ∧
  reader_bytes r l' ∧ serialize l = c ++ reader_pending r l' ∧ (c = [] → serialize l = []).
Proof.
  intros Hc. destruct l as [|[k v] l]; simpl.
  - eexists [], _, []. split; [done|]. by split.
  - rewrite bool_decide_false.
    2:{ intros Hn. apply take_nil_inv in Hn; [|done]. by apply serialize_nonempty in Hn. }
    eexists _, _, l. split; [done|]. split; [done|]. split.
    + unfold reader_pending, serialize. simpl. by rewrite app_assoc, take_drop.
    + intros Hn. apply take_nil_inv in Hn; [|done]. by apply serialize_nonempty in Hn.
Qed.

Lemma reader_poll_ok cap r l :
  0 < cap → reader_bytes r l →
  ∃ c r' l', KvStreamingReader.poll_read cap r = (Ready (Ok c), r') ∧ reader_bytes r' l' ∧
  reader_pending r l = c ++ reader_pending r' l' ∧ (c = [] → reader_pending r l = []).
Proof.
  intros Hc [Hs He]. unfold KvStreamingReader.poll_read, reader_pending at 1 3.
  assert (∃ c r' l', (if KvStreamingReader.stream_ended r
    then (Ready (Ok []), {| KvStreamingReader.kv_stream := KvStreamingReader.kv_stream r;
            KvStreamingReader.current_item := None; KvStreamingReader.stream_ended := true |})
    else KvStreamingReader.read_stream cap (KvStreamingReader.kv_stream r)) = (Ready (Ok c), r') ∧
    reader_bytes r' l' ∧ serialize l = c ++ reader_pending r' l' ∧
    (c = [] → serialize l = [])) as Hfrom.
  { destruct (KvStreamingReader.stream_ended r).
    - rewrite (He eq_refl) in *. eexists [], _, []. split; [done|]. by split.
    - rewrite Hs. by apply read_stream_ok. }
  destruct (KvStreamingReader.current_item r) as [cur|]; [|exact Hfrom].
  case_bool_decide as Hn.
  - apply take_nil_inv in Hn as ->; [|done]. exact Hfrom.
  - eexists _, _, l. split; [done|]. split; [done|]. split.
    + unfold reader_pending. simpl. by rewrite app_assoc, take_drop.
    + done.
Qed.

(** Everything a buffer still has to deliver: what is unread and what its source holds. *)
Definition source_bytes (b : Buf.t) (src : bytes) : Prop :=
  match Buf.stream_source b with
  | Some r => Buf.is_complete b = false ∧ ∃ l, reader_bytes r l ∧ src = reader_pending r l
  | None => Buf.is_complete b = true ∧ src = []
  end.

Lemma poll_read_empty cap b src :
  buf_ok b → unread b = [] → source_bytes b src →
  if decide (src = [])
  then ∃ b', Buf.poll_read cap b = (Ready (Ok []), b')
  else ∃ b' c src', Buf.poll_read cap b = (Pending, b') ∧ buf_ok b' ∧ unread b' = c ∧ c ≠ [] ∧
       src = c ++ src' ∧ source_bytes b' src'.
Proof.
  intros Hb Hu Hsrc. pose proof Hb as [Hw Hr].
  assert (Buf.write_pos b - Buf.read_pos b = 0) as Hz.
  { unfold unread in Hu. apply (f_equal length) in Hu. rewrite length_drop in Hu.
    simpl in Hu. lia. }
  unfold Buf.poll_read. rewrite Hz. cbn [Nat.ltb Nat.leb]. unfold source_bytes in Hsrc.
  destruct (Buf.stream_source b) as [r|]; destruct Hsrc as [Hc Hsrc].
  2:{ subst src. rewrite decide_True, Hc by done. by eexists. }
  destruct Hsrc as (l & Hl & Heq). rewrite Hc.
  destruct (reader_poll_ok Buf.CHUNK r l ltac:(unfold Buf.CHUNK; lia) Hl)
    as (c & r' & l' & E & Hl' & Hsplit & Hnil). rewrite E.
  case_decide as Hs.
  - assert (c = []) as -> by (rewrite Heq, Hsplit in Hs; by apply app_nil in Hs as [? _]).
    by eexists.
  - destruct c as [|x c]; [exfalso; apply Hs; rewrite Heq; auto|].
    eexists _, (x :: c), _. split; [reflexivity|]. unfold buf_ok, unread. simpl.
    rewrite !length_app. split; [simpl; lia|]. split.
    { unfold unread in Hu. rewrite drop_app_le by done. by rewrite Hu. }
    split; [done|]. split; [rewrite Heq; exact Hsplit|]. split; [done|].
    exists l'. by split.
Qed.

Lemma drain_ok cap fuel b src :
  0 < cap → buf_ok b → source_bytes b src → 2 * length src + length (unread b) < fuel →
  drain fuel cap b = Some (unread b ++ src).
Proof.
  intros Hcap. revert b src. induction fuel as [|fuel IH]; intros b src Hb Hs Hf; [lia|].
  cbn [drain]. destruct (decide (unread b = [])) as [Hu|Hne].
  - pose proof (poll_read_empty cap b src Hb Hu Hs) as Hp. case_decide as Hsrc.
    + destruct Hp as (b' & ->). by rewrite Hu, Hsrc.
    + destruct Hp as (b' & c & src' & -> & Hb' & Hu' & Hc & -> & Hs').
      rewrite Hu in *. simpl in Hf. rewrite length_app in Hf.
      assert (length c ≠ 0) by (by destruct c).
      rewrite (IH b' src' Hb' Hs') by (rewrite Hu'; lia). by rewrite Hu'.
  - destruct (poll_read_data cap b Hb Hne) as (b' & E & Hb' & Hu' & Hc' & Hss).
    rewrite E. assert (take cap (unread b) ≠ []) as Ht.
    { intros Hn. by apply take_nil_inv in Hn. }
    assert (source_bytes b' src) as Hs'.
    { unfold source_bytes in *. by rewrite Hss, Hc'. }
    assert (length (drop cap (unread b)) < length (unread b)) as Hlt.
    { rewrite length_drop. destruct (unread b); [done|]. simpl. lia. }
    destruct (take cap (unread b)) as [|x c] eqn:Et; [done|].
    rewrite (IH b' src Hb' Hs') by (rewrite Hu'; lia).
    simpl. rewrite Hu'. f_equal. change (x :: c ++ ?l) with ((x :: c) ++ l).
    by rewrite <- Et, app_assoc, take_drop.
Qed.

(** ** The receiving side *)

Lemma receive_ok chunks :
  buf_ok (receive chunks) ∧ Buf.is_complete (receive chunks) = true ∧
  unread (receive chunks) = concat chunks.
Proof.
  assert (∀ b, buf_ok b → let b' := foldl (λ b c, (Buf.poll_write c b).2) b chunks in
    buf_ok b' ∧ unread b' = unread b ++ concat chunks) as Hw.
  { induction chunks as [|c chunks IH]; intros b Hb; simpl; [by rewrite app_nil_r|].
    destruct (IH (Buf.poll_write c b).2) as [Hb' Hu'].
    - unfold buf_ok in *. simpl. destruct Hb as [Hw Hr]. rewrite Hw, Nat.eqb_refl, length_app. lia.
    - split; [done|]. simpl in Hu'. rewrite Hu'. unfold unread. simpl. destruct Hb as [Hw Hr].
      rewrite Hw, Nat.eqb_refl, drop_app_le by done. by rewrite app_assoc. }
  destruct (Hw Buf.new) as [Hb Hu]; [done|]. by split.
Qed.

Section transfer_laws.
Context {S : Type} `{SnapshotLaws S}.

Lemma sender_drains snap (s : S) fuel cap :
  snapshot_stream snap = Ok <$> contents s → 0 < cap →
  2 * length (serialize (contents s)) < fuel →
  drain fuel cap (create_streaming_snapshot snap) = Some (serialize (contents s)).
Proof.
  intros Hs Hcap Hf. unfold create_streaming_snapshot. rewrite Hs.
  rewrite (drain_ok cap fuel _ (serialize (contents s)) Hcap); [done|done| |].
  - split; [done|]. exists (contents s). by split.
  - unfold unread. simpl. lia.
Qed.

Lemma receiver_installs (l : store) polls chunks (s : S) :
  sto_inv s → bt_wf l → Forall pair_ok l → concat chunks = serialize l →
  ∃ s', install_raft_snapshot (1 + length l) polls (receive chunks) s = Some (Ok tt, s') ∧
  sto_inv s' ∧ contents s' = l.
Proof.
  intros Hs Hw Hok Hch. unfold install_raft_snapshot.
  destruct (receive_ok chunks) as (Hb & Hc & Hu). rewrite Hch in Hu.
  unfold Parser.new. rewrite (parser_items l) by (done || lia). simpl.
  destruct (law_install l s Hs Hw) as (s' & E & ? & ?). exists s'. by rewrite E.
Qed.
End transfer_laws.

(** ** Theorems *)

(** A snapshot reaches the other node unchanged: the sender's stream, read to its end in
    pieces of any size, is the encoding of the leader's map; received in any division
    into pieces and parsed, it installs exactly that map, whatever the receiver held
    before and whatever its storage. Keys must not be empty and lengths must fit 32 bits;
    fuel above twice the encoding's length drains it, and one poll per pair parses it. *)
Theorem snapshot_transfer {L F : Type} `{SnapshotLaws L} `{SnapshotLaws F}
    (leader : L) (follower : F) cap fuel chunks :
  sto_inv leader → sto_inv follower → Forall pair_ok (contents leader) → 0 < cap →
  2 * length (serialize (contents leader)) < fuel →
  concat chunks = serialize (contents leader) →
  ∃ snap, create_snapshot leader = (Ok snap, leader) ∧
  drain fuel cap (create_streaming_snapshot snap) = Some (concat chunks) ∧
  ∃ follower', install_raft_snapshot (1 + length (contents leader)) 0 (receive chunks) follower
               = Some (Ok tt, follower') ∧ contents follower' = contents leader.
Proof.
  intros Hl Hf Hok Hcap Hfuel Hch.
  destruct (law_create_snapshot leader Hl) as (snap & E & Hs).
  exists snap. split; [done|]. split; [rewrite Hch; by apply sender_drains|].
  destruct (receiver_installs (contents leader) 0 chunks follower Hf (contents_wf _ Hl) Hok Hch)
    as (s' & E' & _ & Hc). eauto.
Qed.

(** Positions of the buffer: writing never leaves its end, so a write is always an
    append and what is unread grows by exactly the bytes written. *)
Theorem buffer_appends b buf :
  buf_ok b →
  Buf.poll_write buf b = (Ready (length buf), (Buf.poll_write buf b).2) ∧
  buf_ok (Buf.poll_write buf b).2 ∧
  unread (Buf.poll_write buf b).2 = unread b ++ buf.
Proof.
  intros [Hw Hr]. split; [done|]. unfold buf_ok, unread. simpl.
  rewrite Hw, Nat.eqb_refl, length_app. split; [lia|]. by rewrite drop_app_le.
Qed.

(** The parser takes a zero key length for the end of the stream: a pair with an empty
    key, and every pair after it, is lost without an error. *)
Theorem empty_key_truncates v l polls fuel :
  ∃ p, Parser.await polls (Parser.new (Buf.from_bytes (serialize (([], v) :: l)))) = Some (None, p) ∧
  Parser.items (S fuel) polls (Parser.new (Buf.from_bytes (serialize (([], v) :: l)))) = Some [].
Proof.
  set (b := Buf.from_bytes _).
  assert (∃ p, Parser.poll_next (Parser.new b) = (Ready None, p)) as [p E].
  { destruct (poll_read_complete 4 b) as (b' & E & _); [by split; simpl; [|lia]|done|].
    unfold Parser.poll_next. cbn [Parser.poll_loop]. unfold Parser.step at 1.
    cbn [Parser.new Parser.state Parser.reader]. rewrite E. by eexists. }
  exists p. assert (Parser.await polls (Parser.new b) = Some (None, p)) as Ea.
  { destruct polls; cbn [Parser.await]; by rewrite E. }
  split; [done|]. cbn [Parser.items]. by rewrite Ea.
Qed.

(** ** Witnesses *)

Lemma demo_store_wf : bt_wf (data demo_store).
Proof. repeat constructor. Qed.

Lemma snapshot_transfer_witness :
  ∃ snap, create_snapshot demo_store = (Ok snap, demo_store) ∧
  drain 1000 3 (create_streaming_snapshot snap) = Some (serialize (data demo_store)) ∧
  ∃ follower', install_raft_snapshot (1 + length (data demo_store)) 0
    (receive [serialize (data demo_store)]) Memory.new = Some (Ok tt, follower') ∧
  data follower' = data demo_store.
Proof.
  destruct (snapshot_transfer demo_store Memory.new 3 1000 [serialize (data demo_store)]
    ltac:(exact demo_store_wf) ltac:(constructor) ltac:(decide_now) ltac:(lia)
    ltac:(apply Nat.ltb_lt; vm_compute; reflexivity) ltac:(reflexivity))
    as (snap & E & Ed & Hr).
  exists snap. split; [exact E|]. split; [exact Ed|]. exact Hr.
Defined.

Lemma buffer_appends_witness :
  unread (Buf.poll_write (bs "b") (Buf.from_bytes (bs "a"))).2 = bs "ab".
Proof.
  rewrite (proj2 (proj2 (buffer_appends (Buf.from_bytes (bs "a")) (bs "b")
    (conj eq_refl (Nat.le_0_l 1))))).
  reflexivity.
Defined.

(** Parsed straight from the sender's lazy stream, without going through a complete
    buffer, a value that straddles an 8 KB chunk is read short: the bytes read are
    dropped and no later poll ever yields the pair. *)
Theorem lazy_parse_loses_large_value :
  let pair := (bs "k", replicate (9 * 1024) Byte.x61) in
  let b := Buf.with_stream (KvStreamingReader.new [Ok pair]) in
  Parser.await 50 (Parser.new b) = None ∧ pair_ok pair.
Proof. split; [vm_compute; reflexivity|decide_now]. Qed.
