(* ===== verification/RaftLog.v ===== *)
(** * The Raft log store

    [data-plane/oprc-odgm/src/replication/raft/raft_log.rs]: the log entries and the
    vote, commit and purge records OpenRaft keeps, on two storage backends. OpenRaft's
    entries, log identifiers and votes and their JSON text are parameters; the keys of
    the log are big-endian indices, so that the byte order of the backend is the order of
    the log. The theorems relate the store to an abstract log: entries by index, the last
    purged identifier, the commit record and the vote. *)

From stdpp Require Import base tactics list numbers option gmap sorting strings.
From Stdlib Require Import Lia.
From S2P Require Import Prelude BTree Backend Memory.

Set Default Proof Using "Type".
Open Scope prog_scope.

(** [serde_json::to_vec] and [from_slice]; errors are texts. *)
Class Json (A : Type) := {
  to_vec : A → res string bytes;
  from_slice : bytes → res string A;
}.

(** Values that have a text read back as themselves. *)
Class JsonLaws (A : Type) `{Json A} := {
  json : A → bytes;
  to_vec_json a : to_vec a = Ok (json a);
  from_slice_json a : from_slice (json a) = Ok a;
}.

(** What [flush_backends] is called for. *)
Inductive ErrorSubject : Type := SubjVote | SubjLogs | SubjStore.

(** OpenRaft's [StorageError::IO], by the constructor of its source and the text. *)
Inductive StorageIOError : Type :=
| WriteVote (msg : string)
| WriteLogs (msg : string)
| WriteStore (msg : string)
| ReadVote (msg : string)
| ReadLogs (msg : string)
| ReadStore (msg : string).

(** [OpenraftLogStore], with the completions reported to the callbacks of [append]. *)
Record LogStore (L Mt : Type) := {
  log_backend : L;
  metadata_backend : Mt;
  completed : list (res string unit);
}.
Arguments log_backend {L Mt} _.
Arguments metadata_backend {L Mt} _.
Arguments completed {L Mt} _.

Module Log.

Definition log_id_to_key (index : Z) : bytes := be_bytes 8 index.

Definition key_to_log_id (key : bytes) : option Z :=
  if bool_decide (length key = 8) then Some (be_val key) else None.

Section store.
Context {L Mt Entry LogId Vote : Type} `{Storage L, Storage Mt}.
Context `{Json Entry, Json LogId, Json (option LogId), Json Vote}.
(** Fields of OpenRaft's entries and identifiers, and the debug text of its errors. *)
Context (log_id : Entry → LogId) (index : LogId → Z) (debug : StorageIOError → string).
(** The build's overflow checks. *)
Context (checks : bool).

Notation op := (M (LogStore L Mt) StorageIOError).

Definition new (l : L) (m : Mt) : LogStore L Mt :=
  {| log_backend := l; metadata_backend := m; completed := [] |}.

Definition set_log (l : L) (s : LogStore L Mt) : LogStore L Mt :=
  {| log_backend := l; metadata_backend := metadata_backend s; completed := completed s |}.
Definition set_meta (m : Mt) (s : LogStore L Mt) : LogStore L Mt :=
  {| log_backend := log_backend s; metadata_backend := m; completed := completed s |}.
Definition log_io_completed (r : res string unit) (s : LogStore L Mt) : LogStore L Mt :=
  {| log_backend := log_backend s; metadata_backend := metadata_backend s;
     completed := completed s ++ [r] |}.

Definition on_log {E A} (f : StorageError → E) (m : M L StorageError A) :
    M (LogStore L Mt) E A := map_err f (zoom log_backend set_log m).
Definition on_meta {E A} (f : StorageError → E) (m : M Mt StorageError A) :
    M (LogStore L Mt) E A := map_err f (zoom metadata_backend set_meta m).

(** The error of a failed write, by what it was for. *)
Definition write_error (subject : ErrorSubject) (msg : string) : StorageIOError :=
  match subject with
  | SubjVote => WriteVote msg
  | SubjLogs => WriteLogs msg
  | SubjStore => WriteStore msg
  end.

Definition flush_backends (subject : ErrorSubject) : op unit :=
  on_log (λ e, write_error subject ("Log storage flush error: " +:+ display_error e))
    sto_flush ;;;
  on_meta (λ e, write_error subject ("Metadata storage flush error: " +:+ display_error e))
    sto_flush.

Definition serialize {A} `{Json A} (data : A) : res string bytes :=
  res_map_err (λ e, "Failed to serialize data: " +:+ e) (to_vec data).
Definition deserialize {A} `{Json A} (data : bytes) : res string A :=
  res_map_err (λ e, "Failed to deserialize data: " +:+ e) (from_slice data).
Definition serialize_log_entry (entry : Entry) : res string bytes :=
  res_map_err (λ e, "Failed to serialize log entry: " +:+ e) (to_vec entry).
Definition deserialize_log_entry (data : bytes) : res string Entry :=
  res_map_err (λ e, "Failed to deserialize log entry: " +:+ e) (from_slice data).
Definition serialize_vote (vote : Vote) : res string bytes :=
  res_map_err (λ e, "Failed to serialize vote: " +:+ e) (to_vec vote).
Definition deserialize_vote (data : bytes) : res string Vote :=
  res_map_err (λ e, "Failed to deserialize vote: " +:+ e) (from_slice data).

Definition storage_text (e : StorageError) : string :=
  "Metadata storage error: " +:+ display_error e.

Definition get_last_purged : op (option LogId) :=
  let! v := on_meta (λ e, ReadStore (storage_text e)) (sto_get (bs "last_purged_log_id")) in
  match v with
  | Some value => let! id := lift_res (res_map_err ReadStore (deserialize value)) in
                  ret (Some id)
  | None => ret None
  end.

Definition set_last_purged (id : LogId) : op unit :=
  let! value := lift_res (res_map_err WriteStore (serialize id)) in
  let! _ := on_meta (λ e, WriteStore (storage_text e))
              (sto_put (bs "last_purged_log_id") value) in
  flush_backends SubjStore.

Definition set_committed (committed : option LogId) : op unit :=
  let! value := lift_res (res_map_err WriteStore (serialize committed)) in
  let! _ := on_meta (λ e, WriteStore (storage_text e)) (sto_put (bs "committed") value) in
  flush_backends SubjStore.

Definition get_committed : op (option LogId) :=
  let! v := on_meta (λ e, ReadStore (storage_text e)) (sto_get (bs "committed")) in
  match v with
  | Some value => lift_res (res_map_err ReadStore (deserialize value))
  | None => ret None
  end.

Definition set_vote (vote : Vote) : op unit :=
  let! value := lift_res (res_map_err WriteVote (serialize_vote vote)) in
  let! _ := on_meta (λ e, WriteVote (storage_text e)) (sto_put (bs "vote") value) in
  flush_backends SubjVote.

Definition get_vote : op (option Vote) :=
  let! v := on_meta (λ e, ReadVote (storage_text e)) (sto_get (bs "vote")) in
  match v with
  | Some value => let! vote := lift_res (res_map_err ReadVote (deserialize_vote value)) in
                  ret (Some vote)
  | None => ret None
  end.

(** [RaftLogReader] *)

Definition start_index (lo : Bound Z) : res StorageIOError Z :=
  match lo with
  | Included x => Ok x
  | Excluded x => add_u64 checks x 1
  | Unbounded => Ok 0%Z
  end.

Definition end_index (hi : Bound Z) : res StorageIOError Z :=
  match hi with
  | Included x => add_u64 checks x 1
  | Excluded x => Ok x
  | Unbounded => Ok u64_max
  end.

(** [filter_map], [map] and [collect] over the scanned pairs. *)
Fixpoint collect_entries (rows : store) : res StorageIOError (list Entry) :=
  match rows with
  | [] => Ok []
  | (key, value) :: rows =>
      match key_to_log_id key with
      | None => collect_entries rows
      | Some _ =>
          res_bind (res_map_err ReadLogs (deserialize_log_entry value)) (λ e,
          res_bind (collect_entries rows) (λ es, Ok (e :: es)))
      end
  end.

Definition try_get_log_entries (lo hi : Bound Z) : op (list Entry) :=
  let! start_index := lift_res (start_index lo) in
  let! end_index := lift_res (end_index hi) in
  let! scan_result :=
    on_log (λ e, ReadLogs ("Log storage scan error: " +:+ display_error e))
      (sto_scan_range (Included (log_id_to_key start_index))
                      (Excluded (log_id_to_key end_index))) in
  lift_res (collect_entries scan_result).

(** [RaftLogStorage] *)

(** The backend's last pair; a failure of the call is told apart from an empty log. *)
Definition get_last : op (option (option (bytes * bytes))) := λ s,
  match zoom log_backend set_log sto_get_last s with
  | (Ok kv, s) => (Ok (Some kv), s)
  | (Err _, s) => (Ok None, s)
  | (Panic m, s) => (Panic m, s)
  end.

(** [LogState]: the last purged and the last present identifier. *)
Definition get_log_state : op (option LogId * option LogId) :=
  let! last := get_last in
  let last_log_id :=
    match last with
    | Some (Some (key, value)) =>
        match key_to_log_id key with
        | Some _ => log_id <$> ok_opt (deserialize_log_entry value)
        | None => None
        end
    | Some None | None => None
    end in
  let! last_purged_log_id := get_last_purged in
  ret (last_purged_log_id, last_log_id).

Definition save_committed (committed : option LogId) : op unit := set_committed committed.
Definition read_committed : op (option LogId) := get_committed.
Definition save_vote (vote : Vote) : op unit := set_vote vote.
Definition read_vote : op (option Vote) := get_vote.

(** The loop of [append] over the entries; [Some] text when it breaks. *)
Fixpoint append_loop (entries : list Entry) : op (option string) := λ s,
  match entries with
  | [] => (Ok None, s)
  | entry :: entries =>
      match serialize_log_entry entry with
      | Ok value =>
          match zoom log_backend set_log
                  (sto_put (log_id_to_key (index (log_id entry))) value) s with
          | (Ok _, s) => append_loop entries s
          | (Err e, s) => (Ok (Some ("Log storage error: " +:+ display_error e)), s)
          | (Panic m, s) => (Panic m, s)
          end
      | Err e => (Ok (Some ("Failed to serialize log entry: " +:+ e)), s)
      | Panic m => (Panic m, s)
      end
  end.

(** The flush after a loop that did not break. *)
Definition append_flush (err : option string) : op (option string) := λ s,
  match err with
  | Some e => (Ok (Some e), s)
  | None =>
      match flush_backends SubjLogs s with
      | (Ok _, s) => (Ok None, s)
      | (Err e, s) => (Ok (Some ("Failed to flush storage: " +:+ debug e)), s)
      | (Panic m, s) => (Panic m, s)
      end
  end.

Definition append (entries : list Entry) : op unit :=
  let! append_result := append_loop entries in
  let! append_result := append_flush append_result in
  modify (log_io_completed match append_result with
                           | None => Ok tt | Some e => Err e end) ;;;
  match append_result with
  | None => ret tt
  | Some e => throw (WriteLogs e)
  end.

Definition delete_range (start stop : Z) : op Z :=
  on_log (λ e, WriteLogs ("Log storage delete_range error: " +:+ display_error e))
    (sto_delete_range (Included (log_id_to_key start)) (Excluded (log_id_to_key stop))).

Definition truncate (id : LogId) : op unit :=
  let! last := get_last in
  match last with
  | Some (Some (key, _)) =>
      match key_to_log_id key with
      | Some current_last =>
          if (index id <=? current_last)%Z then
            let! stop := lift_res (add_u64 checks current_last 1) in
            let! _ := delete_range (index id) stop in ret tt
          else ret tt
      | None => ret tt
      end
  | _ => ret tt
  end.

Definition purge (id : LogId) : op unit :=
  set_last_purged id ;;;
  let! stop := lift_res (add_u64 checks (index id) 1) in
  let! _ := delete_range 0 stop in
  ret tt.

End store.
End Log.

(** ** Big-endian keys keep the order of the indices *)

Lemma le_val_app l k : le_val (l ++ k) = (le_val l + 256 ^ Z.of_nat (length l) * le_val k)%Z.
Proof.
  induction l as [|b l IH]; [simpl; lia|]. cbn [app le_val length].
  rewrite IH, Nat2Z.inj_succ, Z.pow_succ_r by lia. lia.
Qed.

Lemma be_val_cons b l :
  be_val (b :: l) = (be_val l + 256 ^ Z.of_nat (length l) * bz b)%Z.
Proof.
  unfold be_val. rewrite reverse_cons, le_val_app, length_reverse. simpl. lia.
Qed.

Lemma be_val_cmp l k : length l = length k → cmp l k = (be_val l ?= be_val k)%Z.
Proof.
  unfold cmp. simpl. revert k.
  induction l as [|a l IH]; intros [|b k] Hlen; try done. injection Hlen as Hlen.
  cbn [bytes_cmp].
  rewrite !be_val_cons, Hlen.
  assert (0 ≤ be_val l < 256 ^ Z.of_nat (length k))%Z
    by (rewrite <- Hlen, <- length_reverse; apply le_val_range).
  assert (0 ≤ be_val k < 256 ^ Z.of_nat (length k))%Z
    by (rewrite <- (length_reverse k); apply le_val_range).
  symmetry. destruct (Z.compare_spec (bz a) (bz b)) as [->|Hab|Hab].
  - rewrite IH by done.
    destruct (Z.compare_spec (be_val l) (be_val k));
      [apply Z.compare_eq_iff|apply Z.compare_lt_iff|apply Z.compare_gt_iff]; lia.
  - apply Z.compare_lt_iff. nia.
  - apply Z.compare_gt_iff. nia.
Qed.

Lemma u64_pow i : is_u64 i ↔ (0 ≤ i < 256 ^ Z.of_nat 8)%Z.
Proof. unfold is_u64, u64_max. change (256 ^ Z.of_nat 8)%Z with (2 ^ 64)%Z. lia. Qed.

Lemma log_key_cmp i j :
  is_u64 i → is_u64 j → cmp (Log.log_id_to_key i) (Log.log_id_to_key j) = cmp i j.
Proof.
  rewrite !u64_pow. intros. unfold Log.log_id_to_key.
  rewrite be_val_cmp by (by rewrite !be_bytes_length). by rewrite !be_val_bytes_small.
Qed.

Lemma log_key_ltb i j :
  is_u64 i → is_u64 j → ltb (Log.log_id_to_key i) (Log.log_id_to_key j) = (i <? j)%Z.
Proof. intros. unfold ltb. by rewrite log_key_cmp. Qed.

Lemma log_key_leb i j :
  is_u64 i → is_u64 j → leb (Log.log_id_to_key i) (Log.log_id_to_key j) = (i <=? j)%Z.
Proof. intros. unfold leb. by rewrite log_key_cmp. Qed.

Lemma log_key_roundtrip i : is_u64 i → Log.key_to_log_id (Log.log_id_to_key i) = Some i.
Proof.
  intros Hi%u64_pow. unfold Log.key_to_log_id, Log.log_id_to_key.
  rewrite bool_decide_true by apply be_bytes_length. by rewrite be_val_bytes_small.
Qed.

(** ** The abstract log *)

Record AbstractLog (Entry LogId Vote : Type) := {
  a_entries : btree Z Entry;
  a_purged : option LogId;
  a_committed : option LogId;
  a_vote : option Vote;
}.
Arguments a_entries {Entry LogId Vote} _.
Arguments a_purged {Entry LogId Vote} _.
Arguments a_committed {Entry LogId Vote} _.
Arguments a_vote {Entry LogId Vote} _.

(** The writing calls of OpenRaft. *)
Inductive log_op (Entry LogId Vote : Type) : Type :=
| OAppend (entries : list Entry)
| OTruncate (id : LogId)
| OPurge (id : LogId)
| OSaveVote (vote : Vote)
| OSaveCommitted (committed : option LogId).
Arguments OAppend {Entry LogId Vote} _.
Arguments OTruncate {Entry LogId Vote} _.
Arguments OPurge {Entry LogId Vote} _.
Arguments OSaveVote {Entry LogId Vote} _.
Arguments OSaveCommitted {Entry LogId Vote} _.

Section spec.
Context {Entry LogId Vote : Type} (log_id : Entry → LogId) (index : LogId → Z).

Notation ALog := (AbstractLog Entry LogId Vote).

Definition with_entries (es : btree Z Entry) (a : ALog) : ALog :=
  {| a_entries := es; a_purged := a_purged a; a_committed := a_committed a;
     a_vote := a_vote a |}.

(** What the calls mean: an appended entry takes the place of the entry at its index,
    truncation cuts the log from an index on, purging cuts it up to an index. *)
Definition spec_op (o : log_op Entry LogId Vote) (a : ALog) : ALog :=
  match o with
  | OAppend es =>
      with_entries (foldl (λ m e, bt_insert (index (log_id e)) e m) (a_entries a) es) a
  | OTruncate id => with_entries (filter (λ ie, ie.1 < index id)%Z (a_entries a)) a
  | OPurge id =>
      {| a_entries := filter (λ ie, index id < ie.1)%Z (a_entries a);
         a_purged := Some id; a_committed := a_committed a; a_vote := a_vote a |}
  | OSaveVote v =>
      {| a_entries := a_entries a; a_purged := a_purged a; a_committed := a_committed a;
         a_vote := Some v |}
  | OSaveCommitted c =>
      {| a_entries := a_entries a; a_purged := a_purged a; a_committed := c;
         a_vote := a_vote a |}
  end.

(** Indices with room for the exclusive ends the store computes. *)
Definition index_ok (i : Z) : Prop := (0 ≤ i < u64_max)%Z.

Definition op_ok (o : log_op Entry LogId Vote) : Prop :=
  match o with
  | OAppend es => Forall (λ e, index_ok (index (log_id e))) es
  | OTruncate id | OPurge id => index_ok (index id)
  | _ => True
  end.

(** One completion per append. *)
Definition op_completions (o : log_op Entry LogId Vote) : list (res string unit) :=
  match o with OAppend _ => [Ok tt] | _ => [] end.
End spec.

Lemma index_ok_u64 i : index_ok i → is_u64 i.
Proof. unfold index_ok, is_u64. lia. Qed.
Lemma index_ok_succ i : index_ok i → is_u64 (i + 1).
Proof. unfold index_ok, is_u64. lia. Qed.
Lemma u64_0 : is_u64 0.
Proof. done. Qed.
Lemma u64_u64_max : is_u64 u64_max.
Proof. done. Qed.

#[export] Hint Resolve index_ok_u64 index_ok_succ u64_0 u64_u64_max : oprc.

Lemma add_u64_ok {E} checks i : index_ok i → add_u64 (E:=E) checks i 1 = Ok (i + 1)%Z.
Proof. intros []. unfold add_u64. by rewrite (proj2 (Z.leb_le _ _)) by lia. Qed.

(** ** The encoded log *)
Section rows.
Context `{JsonLaws Entry}.
Implicit Types (m : btree Z Entry) (ie : Z * Entry).

Definition row ie : bytes * bytes := (Log.log_id_to_key ie.1, json ie.2).

Definition indices_ok m : Prop := Forall (λ ie, index_ok ie.1) m.

Lemma rows_insert i e m : index_ok i → indices_ok m →
  bt_insert (Log.log_id_to_key i) (json e) (row <$> m) = row <$> bt_insert i e m.
Proof.
  intros Hi. induction 1 as [|[j e'] m Hj _ IH]; [done|]. simpl in *.
  rewrite log_key_cmp by eauto with oprc. destruct (cmp i j); [done..|].
  rewrite fmap_cons, <- IH by done. done.
Qed.

Lemma rows_filter (P : bytes → bool) (Q : Z → Prop) `{!∀ i, Decision (Q i)} m :
  indices_ok m →
  (∀ i, index_ok i → P (Log.log_id_to_key i) = bool_decide (Q i)) →
  filter (λ kv, P kv.1) (row <$> m) = row <$> filter (λ ie, Q ie.1) m.
Proof.
  intros Hm HPQ. induction Hm as [|[j e] m Hj _ IH]; [done|].
  rewrite fmap_cons, !filter_cons. unfold row at 1. simpl in *.
  rewrite HPQ by done. rewrite IH.
  destruct (decide (Q j)) as [HQ|HQ].
  - by rewrite bool_decide_true, decide_True by done.
  - by rewrite bool_decide_false, decide_False by tauto.
Qed.

Lemma rows_collect m : indices_ok m →
  Log.collect_entries (row <$> m) = Ok (m.*2).
Proof.
  induction 1 as [|[j e] m Hj _ IH]; [done|]. rewrite fmap_cons.
  cbn [Log.collect_entries row fst snd].
  rewrite log_key_roundtrip by eauto with oprc. unfold Log.deserialize_log_entry.
  rewrite from_slice_json. simpl. by rewrite IH.
Qed.

Lemma rows_last m : bt_last (row <$> m) = row <$> bt_last m.
Proof. unfold bt_last. by rewrite fmap_last. Qed.
End rows.

(** ** The store represents an abstract log *)
Section refinement.
Context {L Mt Entry LogId Vote : Type} `{StorageLaws L, StorageLaws Mt}.
Context `{!Json Entry, !JsonLaws Entry, !Json LogId, !JsonLaws LogId}.
Context `{!Json (option LogId), !JsonLaws (option LogId), !Json Vote, !JsonLaws Vote}.
Context (log_id : Entry → LogId) (index : LogId → Z) (debug : StorageIOError → string).
Context (checks : bool).

Notation Store := (LogStore L Mt).
Notation ALog := (AbstractLog Entry LogId Vote).
Notation Op := (log_op Entry LogId Vote).
Implicit Types (s : Store) (a : ALog).

Definition meta_get (k : string) s : option bytes :=
  bt_get (bs k) (contents (metadata_backend s)).

Record represents s a : Prop := {
  rep_log_inv : sto_inv (log_backend s);
  rep_meta_inv : sto_inv (metadata_backend s);
  rep_rows : contents (log_backend s) = row <$> a_entries a;
  rep_wf : bt_wf (a_entries a);
  rep_index : Forall (λ ie, index_ok ie.1 ∧ index (log_id ie.2) = ie.1) (a_entries a);
  rep_purged : meta_get "last_purged_log_id" s = json <$> a_purged a;
  rep_committed : meta_get "committed" s = Some (json (a_committed a)) ∨
                  meta_get "committed" s = None ∧ a_committed a = None;
  rep_vote : meta_get "vote" s = json <$> a_vote a;
}.

Definition exec (o : Op) : M Store StorageIOError unit :=
  match o with
  | OAppend es => Log.append log_id index debug es
  | OTruncate id => Log.truncate index checks id
  | OPurge id => Log.purge index checks id
  | OSaveVote v => Log.save_vote v
  | OSaveCommitted c => Log.save_committed c
  end.

Lemma rep_indices s a : represents s a → indices_ok (a_entries a).
Proof. intros R. eapply Forall_impl; [apply (rep_index s a R)|]. by intros ? []. Qed.

Lemma rep_new (l : L) (m : Mt) :
  sto_inv l → sto_inv m → contents l = [] → contents m = [] →
  represents (Log.new l m)
    {| a_entries := []; a_purged := None; a_committed := None; a_vote := None |}.
Proof.
  intros ?? Hl Hm. split; simpl; unfold meta_get; simpl; rewrite ?Hm; auto.
  all: constructor.
Qed.

(** *** The backends *)

Lemma flush_ok subject s :
  sto_inv (log_backend s) → sto_inv (metadata_backend s) →
  Log.flush_backends subject s = (Ok tt, s).
Proof.
  intros Hl Hm. unfold Log.flush_backends, Log.on_log, Log.on_meta, map_err, bind, zoom.
  rewrite law_flush by done. simpl. rewrite law_flush by done. by destruct s.
Qed.

Lemma meta_get_ok {E} (f : StorageError → E) k s : sto_inv (metadata_backend s) →
  Log.on_meta f (sto_get (bs k)) s = (Ok (meta_get k s), s).
Proof.
  intros Hm. unfold Log.on_meta, map_err, zoom. rewrite law_get by done. by destruct s.
Qed.

Lemma meta_put_ok {E} (f : StorageError → E) k v s : sto_inv (metadata_backend s) →
  ∃ b m, Log.on_meta f (sto_put (bs k) v) s = (Ok b, Log.set_meta m s) ∧ sto_inv m ∧
    contents m = bt_insert (bs k) v (contents (metadata_backend s)).
Proof.
  intros Hm. destruct (law_put (bs k) v _ Hm) as (m & Hp & Hi & Hc).
  unfold Log.on_meta, map_err, zoom. rewrite Hp. eauto.
Qed.

Lemma delete_range_ok lo hi s : sto_inv (log_backend s) →
  is_u64 lo → is_u64 hi → (lo ≤ hi)%Z →
  ∃ n l, Log.delete_range lo hi s = (Ok n, Log.set_log l s) ∧ sto_inv l ∧
    contents l = filter (λ kv, negb (in_bounds (Included (Log.log_id_to_key lo))
                                       (Excluded (Log.log_id_to_key hi)) kv.1))
                   (contents (log_backend s)).
Proof.
  intros Hl Hlo Hhi Hle.
  destruct (law_delete_range (Included (Log.log_id_to_key lo))
    (Excluded (Log.log_id_to_key hi)) _ Hl) as (n & l & E & Hi & Hc).
  { simpl. rewrite log_key_ltb by done. by apply Z.ltb_ge. }
  unfold Log.delete_range, Log.on_log, map_err, zoom. rewrite E. eauto.
Qed.

Lemma get_last_ok s a : represents s a →
  Log.get_last s = (Ok (Some (row <$> bt_last (a_entries a))), s).
Proof.
  intros R. unfold Log.get_last, zoom. rewrite law_get_last by apply R.
  rewrite (rep_rows s a R), rows_last. by destruct s.
Qed.

(** The bounds of a deletion, on indices. *)
Lemma in_key_bounds lo hi i : is_u64 lo → is_u64 hi → is_u64 i →
  in_bounds (Included (Log.log_id_to_key lo)) (Excluded (Log.log_id_to_key hi))
    (Log.log_id_to_key i) = bool_decide (lo ≤ i < hi)%Z.
Proof.
  intros. unfold in_bounds, above, below. rewrite log_key_leb, log_key_ltb by done.
  apply eq_iff_eq_true. rewrite andb_true_iff, bool_decide_eq_true. lia.
Qed.

(** *** Preservation of the representation *)

Lemma rep_set_log s a l es : represents s a →
  sto_inv l → contents l = row <$> es → bt_wf es →
  Forall (λ ie, index_ok ie.1 ∧ index (log_id ie.2) = ie.1) es →
  represents (Log.set_log l s) (with_entries es a).
Proof. intros [] ????. by split. Qed.

Lemma rep_filter s a l (Q : Z → Prop) `{!∀ i, Decision (Q i)} : represents s a →
  sto_inv l → contents l = row <$> filter (λ ie, Q ie.1) (a_entries a) →
  represents (Log.set_log l s) (with_entries (filter (λ ie, Q ie.1) (a_entries a)) a).
Proof.
  intros R Hl Hc. apply rep_set_log; [done..| |].
  - apply bt_wf_filter, R.
  - rewrite Forall_forall. intros ie [_ Hin]%list_elem_of_filter.
    pose proof (rep_index s a R) as Hall. rewrite Forall_forall in Hall. by apply Hall.
Qed.

Lemma meta_get_set k k' v m s :
  contents m = bt_insert (bs k) v (contents (metadata_backend s)) →
  meta_get k' (Log.set_meta m s) = if decide (bs k = bs k') then Some v else meta_get k' s.
Proof.
  unfold meta_get. simpl. intros ->. case_decide as E; [rewrite E; apply bt_get_insert_eq|].
  by apply bt_get_insert_ne.
Qed.

Lemma rep_set_meta s a k v m (a' : ALog) : represents s a → sto_inv m →
  contents m = bt_insert (bs k) v (contents (metadata_backend s)) →
  a_entries a' = a_entries a →
  (if decide (bs k = bs "last_purged_log_id") then Some v = json <$> a_purged a'
   else a_purged a' = a_purged a) →
  (if decide (bs k = bs "committed") then v = json (a_committed a')
   else a_committed a' = a_committed a) →
  (if decide (bs k = bs "vote") then Some v = json <$> a_vote a'
   else a_vote a' = a_vote a) →
  represents (Log.set_meta m s) a'.
Proof.
  intros [R1 R2 R3 R4 R5 R6 R7 R8] Hm Hc He Hp Hco Hv.
  split; simpl; rewrite ?He; try done; rewrite !(meta_get_set _ _ _ _ _ Hc).
  - destruct (decide (bs k = bs "last_purged_log_id")); congruence.
  - destruct (decide (bs k = bs "committed")); [left; congruence|].
    rewrite Hco. done.
  - destruct (decide (bs k = bs "vote")); congruence.
Qed.

(** *** The calls *)

Lemma set_vote_ok v s a : represents s a → ∃ s',
  Log.save_vote v s = (Ok tt, s') ∧ represents s' (spec_op log_id index (OSaveVote v) a) ∧
  completed s' = completed s.
Proof.
  intros R. unfold Log.save_vote, Log.set_vote, Log.serialize_vote. rewrite to_vec_json.
  destruct (meta_put_ok (λ e, WriteVote (Log.storage_text e)) "vote" (json v) s)
    as (b & m & E & Hi & Hc); [apply R|].
  eexists. split.
  - unfold bind at 1. simpl. unfold bind. rewrite E. apply flush_ok; [apply R|done].
  - split; [|done]. by eapply rep_set_meta.
Qed.

Lemma set_committed_ok c s a : represents s a → ∃ s',
  Log.save_committed c s = (Ok tt, s') ∧
  represents s' (spec_op log_id index (OSaveCommitted c) a) ∧ completed s' = completed s.
Proof.
  intros R. unfold Log.save_committed, Log.set_committed, Log.serialize. rewrite to_vec_json.
  destruct (meta_put_ok (λ e, WriteStore (Log.storage_text e)) "committed" (json c) s)
    as (b & m & E & Hi & Hc); [apply R|].
  eexists. split.
  - unfold bind at 1. simpl. unfold bind. rewrite E. apply flush_ok; [apply R|done].
  - split; [|done]. by eapply rep_set_meta.
Qed.

Lemma set_last_purged_ok id s a : represents s a → ∃ s',
  Log.set_last_purged id s = (Ok tt, s') ∧
  represents s' {| a_entries := a_entries a; a_purged := Some id;
                   a_committed := a_committed a; a_vote := a_vote a |} ∧
  completed s' = completed s.
Proof.
  intros R. unfold Log.set_last_purged, Log.serialize. rewrite to_vec_json.
  destruct (meta_put_ok (λ e, WriteStore (Log.storage_text e)) "last_purged_log_id"
    (json id) s) as (b & m & E & Hi & Hc); [apply R|].
  eexists. split.
  - unfold bind at 1. simpl. unfold bind. rewrite E. apply flush_ok; [apply R|done].
  - split; [|done]. by eapply rep_set_meta.
Qed.

Lemma append_loop_ok es s a : represents s a →
  Forall (λ e, index_ok (index (log_id e))) es → ∃ s',
  Log.append_loop log_id index es s = (Ok None, s') ∧
  represents s' (spec_op log_id index (OAppend es) a) ∧ completed s' = completed s.
Proof.
  intros R Hes. revert s a R.
  induction Hes as [|e es He Hes IH]; intros s a R; [exists s; by destruct a|].
  cbn [Log.append_loop]. unfold Log.serialize_log_entry. rewrite to_vec_json. simpl.
  destruct (law_put (Log.log_id_to_key (index (log_id e))) (json e) _ (rep_log_inv s a R))
    as (l & E & Hl & Hc).
  unfold zoom. rewrite E.
  destruct (IH (Log.set_log l s) (with_entries (bt_insert (index (log_id e)) e (a_entries a)) a))
    as (s' & -> & R' & C').
  { apply rep_set_log; [done..| | |].
    - rewrite Hc, (rep_rows s a R). apply rows_insert; [done|by eapply rep_indices].
    - apply bt_insert_wf, R.
    - apply bt_insert_Forall; [done|apply R]. }
  eauto.
Qed.

Lemma append_ok es s a : represents s a →
  Forall (λ e, index_ok (index (log_id e))) es → ∃ s',
  Log.append log_id index debug es s = (Ok tt, s') ∧
  represents s' (spec_op log_id index (OAppend es) a) ∧
  completed s' = completed s ++ [Ok tt].
Proof.
  intros R Hes. destruct (append_loop_ok es s a R Hes) as (s' & E & R' & C').
  exists (Log.log_io_completed (Ok tt) s'). split; [|split].
  - unfold Log.append. rewrite (bind_ok _ _ _ _ _ E). unfold Log.append_flush, bind.
    rewrite flush_ok by apply R'. done.
  - destruct R'. by split.
  - simpl. by rewrite C'.
Qed.

Lemma delete_entries_ok lo hi s a : represents s a →
  is_u64 lo → is_u64 hi → (lo ≤ hi)%Z → ∃ n s',
  Log.delete_range lo hi s = (Ok n, s') ∧
  represents s' (with_entries (filter (λ ie, ¬ (lo ≤ ie.1 < hi))%Z (a_entries a)) a) ∧
  completed s' = completed s.
Proof.
  intros R Hlo Hhi Hle.
  destruct (delete_range_ok lo hi s (rep_log_inv s a R) Hlo Hhi Hle) as (n & l & E & Hl & Hc).
  exists n, (Log.set_log l s). split; [done|]. split; [|done].
  pose proof (rep_filter s a l (λ i, ¬ (lo ≤ i < hi))%Z R Hl) as HF. apply HF. rewrite Hc, (rep_rows s a R).
  rewrite (rows_filter (λ k, negb (in_bounds (Included (Log.log_id_to_key lo))
    (Excluded (Log.log_id_to_key hi)) k)) (λ i, ¬ (lo ≤ i < hi))%Z); [done| |].
  - by eapply rep_indices.
  - intros i Hi. rewrite in_key_bounds by eauto with oprc. symmetry. apply bool_decide_not.
Qed.

Lemma last_index s a j e : represents s a → bt_last (a_entries a) = Some (j, e) →
  index_ok j ∧ ∀ ie, ie ∈ a_entries a → (ie.1 ≤ j)%Z.
Proof.
  intros R Hlast. split.
  - pose proof (rep_indices s a R) as Hall. unfold indices_ok in Hall.
    rewrite Forall_forall in Hall. by apply (Hall (j, e)), last_Some_elem_of.
  - intros [i e'] Hin. pose proof (bt_last_max _ _ _ _ _ (rep_wf s a R) Hlast Hin) as Hle.
    unfold leb in Hle. simpl. unfold cmp in Hle. simpl in Hle.
    destruct (Z.compare_spec i j); [lia|lia|done].
Qed.

Lemma truncate_ok id s a : represents s a → index_ok (index id) → ∃ s',
  Log.truncate index checks id s = (Ok tt, s') ∧
  represents s' (spec_op log_id index (OTruncate id) a) ∧ completed s' = completed s.
Proof.
  intros R Hid. unfold Log.truncate. rewrite (bind_ok _ _ _ _ _ (get_last_ok s a R)).
  destruct (bt_last (a_entries a)) as [[j e]|] eqn:Hlast;
    cbn [fmap option_fmap option_map row fst snd].
  2:{ exists s. split; [done|]. split; [|done]. apply last_None in Hlast.
      destruct a; simpl in *. by subst. }
  destruct (last_index s a j e R Hlast) as [Hj Hmax].
  rewrite log_key_roundtrip by eauto with oprc.
  destruct (Z.leb_spec (index id) j) as [Hle|Hgt].
  - destruct (delete_entries_ok (index id) (j + 1) s a R) as (n & s' & E & R' & C');
      [eauto with oprc..|lia|].
    exists s'. rewrite add_u64_ok by done. unfold bind. simpl. rewrite E. simpl.
    split; [done|]. split; [|done]. simpl.
    rewrite (filter_ext_elem (λ ie, ie.1 < index id)%Z (λ ie, ¬ (index id ≤ ie.1 < j + 1))%Z);
      [done|]. intros ie Hin. apply Hmax in Hin. lia.
  - exists s. split; [done|]. split; [|done]. simpl.
    rewrite (filter_ext_elem _ (λ _, True)), filter_Forall; [by destruct a|by apply Forall_true|].
    intros ie Hin. apply Hmax in Hin. split; [done|lia].
Qed.

Lemma purge_ok id s a : represents s a → index_ok (index id) → ∃ s',
  Log.purge index checks id s = (Ok tt, s') ∧
  represents s' (spec_op log_id index (OPurge id) a) ∧ completed s' = completed s.
Proof.
  intros R Hid. unfold Log.purge.
  destruct (set_last_purged_ok id s a R) as (s1 & E1 & R1 & C1).
  rewrite (bind_ok _ _ _ _ _ E1), add_u64_ok by done.
  destruct (delete_entries_ok 0 (index id + 1) s1 _ R1) as (n & s' & E & R' & C');
    [eauto with oprc..|unfold index_ok in Hid; lia|].
  exists s'. unfold bind. simpl. rewrite E. split; [done|]. split; [|congruence]. simpl in *.
  rewrite (filter_ext_elem (λ ie, index id < ie.1)%Z (λ ie, ¬ (0 ≤ ie.1 < index id + 1))%Z);
    [done|]. intros ie Hin. pose proof (rep_indices s a R) as Hall. unfold indices_ok in Hall.
  rewrite Forall_forall in Hall. apply Hall in Hin. unfold index_ok in Hin. lia.
Qed.

Lemma exec_ok o s a : represents s a → op_ok log_id index o → ∃ s',
  exec o s = (Ok tt, s') ∧ represents s' (spec_op log_id index o a) ∧
  completed s' = completed s ++ op_completions o.
Proof.
  destruct o; simpl; intros R Ho; rewrite ?app_nil_r.
  - by apply append_ok.
  - by apply truncate_ok.
  - by apply purge_ok.
  - by apply set_vote_ok.
  - by apply set_committed_ok.
Qed.

(** *** The readers *)

Lemma scan_entries_ok lo hi s a : represents s a →
  is_u64 lo → is_u64 hi → (lo ≤ hi)%Z →
  (let! rows := Log.on_log (λ e, ReadLogs ("Log storage scan error: " +:+ display_error e))
      (sto_scan_range (Included (Log.log_id_to_key lo))
                      (Excluded (Log.log_id_to_key hi))) in
   lift_res (Log.collect_entries rows)) s
  = (Ok (filter (λ ie, lo ≤ ie.1 < hi)%Z (a_entries a)).*2, s).
Proof.
  intros R Hlo Hhi Hle. unfold Log.on_log, map_err, zoom, bind.
  rewrite law_scan_range; [|apply R|simpl; rewrite log_key_ltb by done; by apply Z.ltb_ge].
  simpl. unfold bt_in_range. rewrite (rep_rows s a R).
  rewrite (rows_filter _ (λ i, lo ≤ i < hi)%Z);
    [|by eapply rep_indices|intros; apply in_key_bounds; eauto with oprc].
  unfold lift_res. rewrite rows_collect; [by destruct s|].
  apply Forall_forall. intros ie [_ Hin]%list_elem_of_filter.
  pose proof (rep_indices s a R) as Hall. unfold indices_ok in Hall.
  rewrite Forall_forall in Hall. by apply Hall.
Qed.

Lemma log_state_ok s a : represents s a →
  Log.get_log_state log_id s
  = (Ok (a_purged a, (λ ie, log_id ie.2) <$> bt_last (a_entries a)), s).
Proof.
  intros R. unfold Log.get_log_state. rewrite (bind_ok _ _ _ _ _ (get_last_ok s a R)).
  unfold Log.get_last_purged. rewrite bind_assoc.
  rewrite (bind_ok _ _ _ _ _ (meta_get_ok _ _ s (rep_meta_inv s a R))), (rep_purged s a R).
  unfold Log.deserialize, Log.deserialize_log_entry.
  assert (match row <$> bt_last (a_entries a) with
          | Some (key, value) =>
              match Log.key_to_log_id key with
              | Some _ => log_id <$> ok_opt (res_map_err
                  (λ e, "Failed to deserialize log entry: " +:+ e) (from_slice value))
              | None => None
              end
          | None => None
          end = (λ ie, log_id ie.2) <$> bt_last (a_entries a)) as ->.
  { destruct (bt_last (a_entries a)) as [[j e]|] eqn:Hlast; [|done].
    cbn [fmap option_fmap option_map row fst snd].
    rewrite log_key_roundtrip, from_slice_json; [done|].
    apply index_ok_u64, (last_index s a j e R Hlast). }
  destruct (a_purged a) as [p|]; simpl; [|done]. unfold bind, lift_res.
  by rewrite from_slice_json.
Qed.

Lemma committed_ok s a : represents s a → Log.read_committed s = (Ok (a_committed a), s).
Proof.
  intros R. unfold Log.read_committed, Log.get_committed, Log.deserialize.
  rewrite (bind_ok _ _ _ _ _ (meta_get_ok _ _ s (rep_meta_inv s a R))).
  destruct (rep_committed s a R) as [->|[-> ->]]; [|done]. unfold lift_res.
  by rewrite from_slice_json.
Qed.

Lemma vote_ok s a : represents s a → Log.read_vote s = (Ok (a_vote a), s).
Proof.
  intros R. unfold Log.read_vote, Log.get_vote, Log.deserialize_vote.
  rewrite (bind_ok _ _ _ _ _ (meta_get_ok _ _ s (rep_meta_inv s a R))), (rep_vote s a R).
  destruct (a_vote a); simpl; [|done]. unfold bind, lift_res. by rewrite from_slice_json.
Qed.

(** The bounds of a range of indices, as the code turns them into a half-open interval. *)
Definition bound_ok (b : Bound Z) : Prop :=
  match b with Included i | Excluded i => index_ok i | Unbounded => True end.
Definition first_of (lo : Bound Z) : Z :=
  match lo with Included i => i | Excluded i => i + 1 | Unbounded => 0 end.
Definition end_of (hi : Bound Z) : Z :=
  match hi with Included i => i + 1 | Excluded i => i | Unbounded => u64_max end.

Lemma bounds_u64 b : bound_ok b → is_u64 (first_of b) ∧ is_u64 (end_of b).
Proof. destruct b; simpl; split; eauto with oprc. Qed.

Lemma bounds_index b : bound_ok b →
  Log.start_index checks b = Ok (first_of b) ∧ Log.end_index checks b = Ok (end_of b).
Proof. destruct b; simpl; intros; rewrite ?add_u64_ok by done; done. Qed.

(** *** Theorems *)

(** C11. The log store refines the abstract log: from a store that represents a log, every
    sequence of writing calls with indices below [u64::MAX] succeeds, ends in a store that
    represents the log the specification gives, and completes each append exactly once
    with success. *)
Theorem log_store_refines ops s a :
  represents s a → Forall (op_ok log_id index) ops → ∃ s',
  for_each exec ops s = (Ok tt, s') ∧
  represents s' (foldl (λ a o, spec_op log_id index o a) a ops) ∧
  completed s' = completed s ++ concat (op_completions <$> ops).
Proof.
  intros R Hops. revert s a R. induction Hops as [|o ops Ho Hops IH]; intros s a R.
  { exists s. by rewrite app_nil_r. }
  destruct (exec_ok o s a R Ho) as (s1 & E1 & R1 & C1).
  destruct (IH s1 _ R1) as (s2 & E2 & R2 & C2). exists s2. simpl.
  rewrite (bind_ok _ _ _ _ _ E1). split; [done|]. split; [done|].
  by rewrite C2, C1, <- app_assoc.
Qed.

(** What the store reports is what its log holds: the entries between two bounds of any
    kind in index order, the last purged and the last present identifier, the commit
    record and the vote; and reading changes nothing. *)
Theorem log_store_reads lo hi s a :
  represents s a → bound_ok lo → bound_ok hi → (first_of lo ≤ end_of hi)%Z →
  Log.try_get_log_entries checks lo hi s
  = (Ok (filter (λ ie, in_bounds lo hi ie.1) (a_entries a)).*2, s) ∧
  Log.get_log_state log_id s
  = (Ok (a_purged a, (λ ie, log_id ie.2) <$> bt_last (a_entries a)), s) ∧
  Log.read_committed s = (Ok (a_committed a), s) ∧
  Log.read_vote s = (Ok (a_vote a), s).
Proof.
  intros R Hlo Hhi Hle. split; [|split; [by apply log_state_ok|]];
    [|split; [by apply committed_ok|by apply vote_ok]].
  unfold Log.try_get_log_entries.
  rewrite (proj1 (bounds_index lo Hlo)), (proj2 (bounds_index hi Hhi)).
  unfold lift_res at 1 2. unfold bind at 1 2.
  rewrite (scan_entries_ok _ _ s a R) by (by apply bounds_u64 || done).
  do 3 f_equal. apply filter_ext_elem. intros ie Hin.
  pose proof (rep_indices s a R) as Hall. unfold indices_ok in Hall.
  rewrite Forall_forall in Hall. apply Hall in Hin. unfold index_ok in Hin.
  rewrite Is_true_true. unfold in_bounds. rewrite andb_true_iff.
  destruct lo, hi; simpl; unfold leb, ltb, cmp; simpl;
    repeat match goal with |- context [(?x ?= ?y)%Z] =>
      destruct (Z.compare_spec x y) end; intuition (congruence || lia).
Qed.

(** A log that is purged completely reports no last entry: the purged identifier is
    reported apart and does not stand in for it. *)
Theorem full_purge_state id s a :
  represents s a → index_ok (index id) → Forall (λ ie, ie.1 ≤ index id)%Z (a_entries a) →
  ∃ s', Log.purge index checks id s = (Ok tt, s') ∧
  Log.get_log_state log_id s' = (Ok (Some id, None), s').
Proof.
  intros R Hid Hall. destruct (purge_ok id s a R Hid) as (s' & E & R' & _).
  exists s'. split; [done|]. rewrite (log_state_ok s' _ R'). simpl.
  assert (filter (λ ie, index id < ie.1)%Z (a_entries a) = []) as ->; [|done].
  apply elem_of_nil_inv. intros ie [Hlt Hin]%list_elem_of_filter.
  rewrite Forall_forall in Hall. apply Hall in Hin. lia.
Qed.
End refinement.

(** On the in-memory backend a range whose first index lies above its end panics as soon
    as the log has an entry; on a log that never had one it reads as empty. *)
Theorem inverted_range_panics {Mt Entry : Type} `{Json Entry} checks lo hi
    (s : LogStore MemoryStorage Mt) :
  bound_ok lo → bound_ok hi → (end_of hi < first_of lo)%Z →
  (Log.try_get_log_entries (Entry:=Entry) checks lo hi s).1
  = match data (log_backend s) with
    | [] => Ok []
    | _ => Panic "range start is greater than range end in BTreeMap"
    end.
Proof.
  intros Hlo Hhi Hlt. unfold Log.try_get_log_entries.
  rewrite (proj1 (bounds_index checks lo Hlo)), (proj2 (bounds_index checks hi Hhi)).
  unfold lift_res at 1 2. unfold bind at 1 2. unfold Log.on_log, map_err, zoom, bind. simpl.
  unfold Memory.scan_range. simpl. destruct (data (log_backend s)) as [|kv d]; [done|].
  simpl. rewrite log_key_ltb by (by apply bounds_u64).
  by rewrite (proj2 (Z.ltb_lt _ _) Hlt).
Qed.

(** ** A concrete log: entries, identifiers and votes of one byte *)
Module DemoLog.
#[local] Instance byte_json : Json byte := {|
  to_vec b := Ok [b];
  from_slice l := match l with [b] => Ok b | _ => Err "expected one byte" end;
|}.
#[local] Program Instance byte_json_laws : JsonLaws byte := {| json b := [b] |}.
Solve All Obligations with done.
#[local] Instance option_json : Json (option byte) := {|
  to_vec o := Ok (option_list o);
  from_slice l := match l with
                  | [] => Ok None | [b] => Ok (Some b) | _ => Err "trailing bytes" end;
|}.
#[local] Program Instance option_json_laws : JsonLaws (option byte) :=
  {| json o := option_list o |}.
Solve All Obligations with (by intros []).

Definition empty : LogStore MemoryStorage MemoryStorage := Log.new Memory.new Memory.new.
Definition empty_log : AbstractLog byte byte byte :=
  {| a_entries := []; a_purged := None; a_committed := None; a_vote := None |}.

Lemma empty_represents : represents id bz empty empty_log.
Proof. apply rep_new; try done; constructor. Qed.

(** Two entries are appended, the second is replaced, the first is purged. *)
Definition calls : list (log_op byte byte byte) :=
  [OAppend [Byte.x01; Byte.x02]; OSaveVote Byte.x07; OTruncate Byte.x02;
   OAppend [Byte.x02]; OSaveCommitted (Some Byte.x02); OPurge Byte.x01].

Lemma calls_ok : Forall (op_ok id bz) calls.
Proof. repeat (apply Forall_nil_2 || apply Forall_cons_2 || split); done. Qed.

Lemma log_store_refines_witness : ∃ s',
  for_each (exec id bz (λ _, "") true) calls empty = (Ok tt, s') ∧
  represents id bz s'
    {| a_entries := [(2%Z, Byte.x02)]; a_purged := Some Byte.x01;
       a_committed := Some Byte.x02; a_vote := Some Byte.x07 |} ∧
  completed s' = [Ok tt; Ok tt].
Proof.
  exact (log_store_refines id bz (λ _, "") true calls empty empty_log
    empty_represents calls_ok).
Defined.

Definition one_entry : LogStore MemoryStorage MemoryStorage :=
  (Log.append id bz (λ _, "") [Byte.x01] empty).2.

Lemma one_entry_represents : represents id bz one_entry
  (with_entries [(1%Z, Byte.x01)] empty_log).
Proof.
  destruct (append_ok id bz (λ _, "") [Byte.x01] empty empty_log empty_represents)
    as (s' & E & R & _); [by repeat constructor|].
  unfold one_entry. by rewrite E.
Qed.

Lemma log_store_reads_witness :
  (Log.try_get_log_entries true (Included 1%Z) Unbounded one_entry).1 = Ok [Byte.x01] ∧
  (Log.get_log_state id one_entry).1 = Ok (None, Some Byte.x01).
Proof.
  pose proof (log_store_reads id bz true (Included 1%Z) Unbounded one_entry _
    one_entry_represents ltac:(done) ltac:(done) ltac:(done)) as (E1 & E2 & _).
  rewrite E1, E2. split; vm_compute; reflexivity.
Defined.

Lemma full_purge_state_witness : ∃ s',
  Log.purge bz true Byte.x05 empty = (Ok tt, s') ∧
  Log.get_log_state (Entry:=byte) id s' = (Ok (Some Byte.x05, None), s').
Proof.
  exact (full_purge_state id bz true Byte.x05 empty empty_log empty_represents
    ltac:(done) ltac:(constructor)).
Defined.

Lemma inverted_range_panics_witness :
  (Log.try_get_log_entries (Entry:=byte) true (Included 10%Z) (Included 5%Z) one_entry).1
  = Panic "range start is greater than range end in BTreeMap".
Proof.
  exact (inverted_range_panics (Entry:=byte) true (Included 10%Z) (Included 5%Z) one_entry
    ltac:(done) ltac:(done) ltac:(done)).
Defined.
End DemoLog.
