(* ===== verification/RaftSM.v ===== *)
(** * The Raft state machine

    [data-plane/oprc-odgm/src/replication/raft/state_machine.rs]: applying committed
    entries to the application storage, building and installing snapshots. OpenRaft
    itself (elections, the log, commitment) is not modelled: its log identifiers and
    memberships are parameters, and entries arrive in log order. A leader that applies
    its entries is a replication layer in the sense of [Replication]. *)

From stdpp Require Import base tactics list numbers option gmap sorting strings.
From Stdlib Require Import Lia.
From S2P Require Import Prelude BTree Backend Memory Replication RaftSnapshot.

Open Scope prog_scope.

Section data.
Context (LogId Membership : Type).

Inductive EntryPayload : Type :=
| Blank
| Normal (request : ShardRequest)
| ChangeMembership (m : Membership).

Record Entry := { log_id : LogId; payload : EntryPayload }.

(** The parts the text of a snapshot's identifier is made of: the last applied entry and
    the snapshot counter. *)
Record SnapshotMeta := {
  last_log_id : option LogId;
  meta_membership : option LogId * Membership;
  snapshot_id : option LogId * Z;
}.

Record RaftSnapshot := { meta : SnapshotMeta; snapshot : Buf.t }.

(** [ObjectShardStateMachine] *)
Record StateMachine (S : Type) `{SnapshotStorage S} := {
  app : S;
  last_applied_log_id : option LogId;
  last_membership : option LogId * Membership;
  snapshot_idx : Z;
  current_snapshot : option SnapshotData;
}.
End data.

Arguments Blank {Membership}.
Arguments Normal {Membership} request.
Arguments ChangeMembership {Membership} m.
Arguments log_id {LogId Membership} _.
Arguments payload {LogId Membership} _.
Arguments last_log_id {LogId Membership} _.
Arguments meta_membership {LogId Membership} _.
Arguments snapshot_id {LogId Membership} _.
Arguments meta {LogId Membership} _.
Arguments snapshot {LogId Membership} _.
Arguments app {LogId Membership S _ _} _.
Arguments last_applied_log_id {LogId Membership S _ _} _.
Arguments last_membership {LogId Membership S _ _} _.
Arguments snapshot_idx {LogId Membership S _ _} _.
Arguments current_snapshot {LogId Membership S _ _} _.

Module SM.
Section state_machine.
Context {LogId Membership : Type} (default_membership : option LogId * Membership).
Context {S : Type} `{SnapshotStorage S}.

Notation SM := (StateMachine LogId Membership S).
Notation Entry := (Entry LogId Membership).
(** OpenRaft's storage errors wrap the text of ours. *)
Notation op A := (M SM string A).

Definition new (a : S) : SM :=
  {| app := a; last_applied_log_id := None; last_membership := default_membership;
     snapshot_idx := 0; current_snapshot := None |}.

Definition set_app (a : S) (sm : SM) : SM :=
  {| app := a; last_applied_log_id := last_applied_log_id sm;
     last_membership := last_membership sm; snapshot_idx := snapshot_idx sm;
     current_snapshot := current_snapshot sm |}.
Definition set_applied (id : option LogId) (sm : SM) : SM :=
  {| app := app sm; last_applied_log_id := id; last_membership := last_membership sm;
     snapshot_idx := snapshot_idx sm; current_snapshot := current_snapshot sm |}.
Definition set_membership (m : option LogId * Membership) (sm : SM) : SM :=
  {| app := app sm; last_applied_log_id := last_applied_log_id sm; last_membership := m;
     snapshot_idx := snapshot_idx sm; current_snapshot := current_snapshot sm |}.
Definition set_current (c : option SnapshotData) (sm : SM) : SM :=
  {| app := app sm; last_applied_log_id := last_applied_log_id sm;
     last_membership := last_membership sm; snapshot_idx := snapshot_idx sm;
     current_snapshot := c |}.

Definition app_op {A} (m : M S StorageError A) : op A :=
  map_err display_error (zoom app set_app m).

(** A step of a batch: [Some] error text when it failed. *)
Definition attempt {A} (m : M S StorageError A) : op (option string) := λ sm,
  match zoom app set_app m sm with
  | (Ok _, sm) => (Ok None, sm)
  | (Err e, sm) => (Ok (Some (display_error e)), sm)
  | (Panic msg, sm) => (Panic msg, sm)
  end.

(** Inner operations one after the other up to the first failure; what was applied
    before it stays. *)
Fixpoint apply_batch (ops : list Operation) : op (option string) :=
  match ops with
  | [] => ret None
  | inner :: ops =>
      let! err := match inner with
                  | Write w => attempt (sto_put (w_key w) (w_value w))
                  | Read key => attempt (sto_get key)
                  | Delete key => attempt (sto_delete key)
                  | Batch _ => ret (Some "nested batch unsupported")
                  end in
      match err with Some err => ret (Some err) | None => apply_batch ops end
  end.

Definition apply_shard_request (request : ShardRequest) : op ReplicationResponse :=
  match operation request with
  | Write w =>
      let! out := app_op (sto_put (w_key w) (w_value w)) in
      ret {| status := Applied; resp_data := None; extra := ExtraWrite out;
             resp_metadata := ∅ |}
  | Read key =>
      let! val := app_op (sto_get key) in
      ret {| status := Applied; resp_data := val; extra := ExtraNone; resp_metadata := ∅ |}
  | Delete key => app_op (sto_delete key) ;;; ret default_response
  | Batch operations =>
      let! first_error := apply_batch operations in
      ret match first_error with
          | Some err => {| status := Failed err; resp_data := None; extra := ExtraNone;
                           resp_metadata := ∅ |}
          | None => default_response
          end
  end.

Fixpoint apply_loop (entries : list Entry) (responses : list ReplicationResponse)
    (state_changed : bool) : op (list ReplicationResponse * bool) :=
  match entries with
  | [] => ret (responses, state_changed)
  | entry :: entries =>
      modify (set_applied (Some (log_id entry))) ;;;
      match payload entry with
      | Blank => apply_loop entries (responses ++ [default_response]) true
      | Normal request =>
          let! response := apply_shard_request request in
          apply_loop entries (responses ++ [response]) true
      | ChangeMembership membership =>
          modify (set_membership (Some (log_id entry), membership)) ;;;
          apply_loop entries (responses ++ [default_response]) true
      end
  end.

Definition apply (entries : list Entry) : op (list ReplicationResponse) :=
  let! (responses, state_changed) := apply_loop entries [] false in
  (if state_changed then modify (set_current None) else ret tt) ;;;
  ret responses.

Definition applied_state : op (option LogId * (option LogId * Membership)) :=
  gets (λ sm, (last_applied_log_id sm, last_membership sm)).

(** [create_raft_snapshot_from_existing] *)
Definition raft_snapshot_of (snap : SnapshotData) (sm : SM) :
    RaftSnapshot LogId Membership :=
  {| meta := {| last_log_id := last_applied_log_id sm;
                meta_membership := last_membership sm;
                snapshot_id := (last_applied_log_id sm, snapshot_idx sm) |};
     snapshot := create_streaming_snapshot snap |}.

(** The storage is read twice: once to keep the snapshot, once in [create_raft_snapshot]. *)
Definition build_snapshot : op (RaftSnapshot LogId Membership) :=
  let! storage_snapshot := app_op create_snapshot in
  modify (set_current (Some storage_snapshot)) ;;;
  let! snap := app_op create_snapshot in
  gets (raft_snapshot_of snap).

(** The builder is a clone: it has its own counters but shares the storage. *)
Definition get_snapshot_builder : op SM := λ sm,
  let sm := {| app := app sm; last_applied_log_id := last_applied_log_id sm;
               last_membership := last_membership sm;
               snapshot_idx := wrap64 (snapshot_idx sm + 1);
               current_snapshot := current_snapshot sm |} in
  (Ok sm, sm).

(** A builder that runs when the state machine has come to [sm]: it sees the storage as
    it is then. *)
Definition run_builder (builder sm : SM) : res string (RaftSnapshot LogId Membership) :=
  (build_snapshot (set_app (app sm) builder)).1.

Definition begin_receiving_snapshot : op Buf.t := ret Buf.new.

(** [fuel] and [polls] bound the parser; it panics here when it would hang. *)
Definition install_snapshot (fuel polls : nat) (m : SnapshotMeta LogId Membership)
    (snapshot : Buf.t) : op unit := λ sm,
  match install_raft_snapshot fuel polls snapshot (app sm) with
  | None => (Panic "hangs", sm)
  | Some r =>
      (app_op (λ _, r) ;;;
       modify (set_applied (last_log_id m)) ;;;
       modify (set_membership (meta_membership m)) ;;;
       let! new_snapshot := app_op create_snapshot in
       modify (set_current (Some new_snapshot))) sm
  end.

Definition get_current_snapshot : op (option (RaftSnapshot LogId Membership)) :=
  gets (λ sm, (λ snap, raft_snapshot_of snap sm) <$> current_snapshot sm).

End state_machine.
End SM.

(** ** What a log does to a map *)

Section spec.
Context {LogId Membership : Type}.
Implicit Types d : store.

(** The writes a batch gets to: those before the first nested batch. *)
Fixpoint batch_spec (ops : list Operation) d : option string * store :=
  match ops with
  | [] => (None, d)
  | Write w :: ops => batch_spec ops (bt_insert (w_key w) (w_value w) d)
  | Read _ :: ops => batch_spec ops d
  | Delete k :: ops => batch_spec ops (bt_remove k d)
  | Batch _ :: _ => (Some "nested batch unsupported", d)
  end.

Definition request_spec (o : Operation) d : ReplicationResponse * store :=
  let reply st data x :=
    {| status := st; resp_data := data; extra := x; resp_metadata := ∅ |} in
  match o with
  | Write w => (reply Applied None (ExtraWrite (bt_contains (w_key w) d)),
                bt_insert (w_key w) (w_value w) d)
  | Read k => (reply Applied (bt_get k d) ExtraNone, d)
  | Delete k => (reply Applied None ExtraNone, bt_remove k d)
  | Batch ops =>
      let (err, d) := batch_spec ops d in
      (reply match err with Some e => Failed e | None => Applied end None ExtraNone, d)
  end.

Definition payload_spec (p : EntryPayload Membership) d : ReplicationResponse * store :=
  match p with
  | Normal request => request_spec (operation request) d
  | Blank | ChangeMembership _ => (default_response, d)
  end.

Fixpoint entries_spec (es : list (Entry LogId Membership)) d : list ReplicationResponse * store :=
  match es with
  | [] => ([], d)
  | e :: es =>
      let (r, d) := payload_spec (payload e) d in
      let (rs, d) := entries_spec es d in (r :: rs, d)
  end.

Definition membership_after (m : option LogId * Membership) (es : list (Entry LogId Membership)) :=
  foldl (λ m e, match payload e with
                | ChangeMembership x => (Some (log_id e), x)
                | _ => m
                end) m es.

Lemma entries_spec_app es1 es2 d :
  entries_spec (es1 ++ es2) d
  = let (r1, d1) := entries_spec es1 d in
    let (r2, d2) := entries_spec es2 d1 in (r1 ++ r2, d2).
Proof.
  revert d. induction es1 as [|e es1 IH]; intros d; simpl.
  { by destruct (entries_spec es2 d). }
  destruct (payload_spec (payload e) d) as [r d']. rewrite IH.
  destruct (entries_spec es1 d') as [r1 d1]. by destruct (entries_spec es2 d1).
Qed.

(** ** The writes of a log do not depend on the map *)

(** A put, or a removal. *)
Notation effect := (bytes * option bytes)%type.

Definition run_effect d (w : effect) : store :=
  match w.2 with Some v => bt_insert w.1 v d | None => bt_remove w.1 d end.

Fixpoint batch_effects (ops : list Operation) : list effect :=
  match ops with
  | [] | Batch _ :: _ => []
  | Write w :: ops => (w_key w, Some (w_value w)) :: batch_effects ops
  | Read _ :: ops => batch_effects ops
  | Delete k :: ops => (k, None) :: batch_effects ops
  end.

Definition payload_effects (p : EntryPayload Membership) : list effect :=
  match p with
  | Normal request =>
      match operation request with
      | Write w => [(w_key w, Some (w_value w))]
      | Read _ => []
      | Delete k => [(k, None)]
      | Batch ops => batch_effects ops
      end
  | Blank | ChangeMembership _ => []
  end.

Definition log_effects (es : list (Entry LogId Membership)) : list effect :=
  es ≫= (λ e, payload_effects (payload e)).

Lemma batch_spec_effects ops d : (batch_spec ops d).2 = foldl run_effect d (batch_effects ops).
Proof. revert d. induction ops as [|[w|k|k|os] ops IH]; intros d; simpl; done || apply IH. Qed.

Lemma entries_spec_effects es d : (entries_spec es d).2 = foldl run_effect d (log_effects es).
Proof.
  revert d. induction es as [|e es IH]; intros d; simpl; [done|].
  rewrite foldl_app. assert ((payload_spec (payload e) d).2
    = foldl run_effect d (payload_effects (payload e))) as Hp.
  { destruct (payload e) as [|[[w|k|k|ops] ts src]|m]; simpl; try done.
    rewrite <- batch_spec_effects. by destruct (batch_spec ops d). }
  destruct (payload_spec (payload e) d) as [r d']. simpl in Hp. subst d'.
  rewrite <- IH. by destruct (entries_spec es _).
Qed.

Lemma run_effects_wf ws d : bt_wf d → bt_wf (foldl run_effect d ws).
Proof.
  revert d. induction ws as [|[k [v|]] ws IH]; intros d Hd; simpl; [done|..]; apply IH;
    unfold run_effect; simpl; auto using bt_insert_wf, bt_remove_wf.
Qed.

(** The last write of a key decides. *)
Definition last_effect (k : bytes) (ws : list effect) : option (option bytes) :=
  foldl (λ acc w, if decide (w.1 = k) then Some w.2 else acc) None ws.

Lemma last_effect_snoc k ws w :
  last_effect k (ws ++ [w]) = if decide (w.1 = k) then Some w.2 else last_effect k ws.
Proof. unfold last_effect. by rewrite foldl_app. Qed.

Lemma run_effects_get k ws d :
  bt_wf d →
  bt_get k (foldl run_effect d ws) = default (bt_get k d) (last_effect k ws).
Proof.
  intros Hd. induction ws as [|[k' v] ws IH] using rev_ind; [done|].
  rewrite foldl_app, last_effect_snoc. simpl. unfold run_effect at 1. simpl.
  pose proof (run_effects_wf ws d Hd). case_decide as Hk; simpl.
  - subst. destruct v; [by rewrite bt_get_insert_eq|by rewrite bt_get_remove_eq].
  - rewrite <- IH. destruct v; [by rewrite bt_get_insert_ne|by rewrite bt_get_remove_ne].
Qed.

(** Replaying the end of a log changes nothing. *)
Lemma replay_idempotent ws d :
  bt_wf d → foldl run_effect (foldl run_effect d ws) ws = foldl run_effect d ws.
Proof.
  intros Hd. apply bt_ext; [by apply run_effects_wf, run_effects_wf|by apply run_effects_wf|].
  intros k. rewrite run_effects_get by by apply run_effects_wf.
  rewrite run_effects_get by done. by destruct (last_effect k ws).
Qed.
End spec.

(** ** Lemmas *)

Section lemmas.
Context {LogId Membership : Type}.
Context {S : Type} `{SnapshotLaws S}.
Notation SM := (StateMachine LogId Membership S).
Implicit Types sm : SM.

Lemma set_app_same sm : SM.set_app (app sm) sm = sm.
Proof. by destruct sm. Qed.

Lemma app_op_ok {A} (m : M S StorageError A) sm a s' :
  m (app sm) = (Ok a, s') → SM.app_op m sm = (Ok a, SM.set_app s' sm).
Proof. unfold SM.app_op, map_err, zoom. by intros ->. Qed.

Lemma attempt_ok {A} (m : M S StorageError A) sm a s' :
  m (app sm) = (Ok a, s') → SM.attempt m sm = (Ok None, SM.set_app s' sm).
Proof. unfold SM.attempt, zoom. by intros ->. Qed.

Lemma apply_batch_ok ops sm :
  sto_inv (app sm) →
  let d := contents (app sm) in
  ∃ s', SM.apply_batch ops sm = (Ok (batch_spec ops d).1, SM.set_app s' sm) ∧ sto_inv s' ∧
  contents s' = (batch_spec ops d).2.
Proof.
  revert sm. induction ops as [|o ops IH]; intros sm Hs; simpl.
  { exists (app sm). by rewrite set_app_same. }
  destruct o as [w|k|k|os]; simpl.
  - destruct (law_put (w_key w) (w_value w) (app sm) Hs) as (s1 & E & Hs1 & Hc).
    rewrite (bind_ok _ _ _ _ _ (attempt_ok _ sm _ _ E)).
    destruct (IH (SM.set_app s1 sm) Hs1) as (s' & E' & ? & ?). exists s'. simpl in *.
    rewrite Hc in *. by rewrite E'.
  - pose proof (law_get k (app sm) Hs) as E.
    rewrite (bind_ok _ _ _ _ _ (attempt_ok _ sm _ _ E)), set_app_same. by apply IH.
  - destruct (law_delete k (app sm) Hs) as (s1 & E & Hs1 & Hc).
    rewrite (bind_ok _ _ _ _ _ (attempt_ok _ sm _ _ E)).
    destruct (IH (SM.set_app s1 sm) Hs1) as (s' & E' & ? & ?). exists s'. simpl in *.
    rewrite Hc in *. by rewrite E'.
  - exists (app sm). by rewrite set_app_same.
Qed.

Lemma apply_request_ok req sm :
  sto_inv (app sm) →
  let d := contents (app sm) in
  ∃ s', SM.apply_shard_request req sm
        = (Ok (request_spec (operation req) d).1, SM.set_app s' sm) ∧
  sto_inv s' ∧ contents s' = (request_spec (operation req) d).2.
Proof.
  intros Hs. unfold SM.apply_shard_request. destruct (operation req) as [w|k|k|ops]; simpl.
  - destruct (law_put (w_key w) (w_value w) (app sm) Hs) as (s1 & E & Hs1 & Hc).
    exists s1. by rewrite (bind_ok _ _ _ _ _ (app_op_ok _ sm _ _ E)).
  - pose proof (law_get k (app sm) Hs) as E. exists (app sm).
    by rewrite (bind_ok _ _ _ _ _ (app_op_ok _ sm _ _ E)).
  - destruct (law_delete k (app sm) Hs) as (s1 & E & Hs1 & Hc).
    exists s1. by rewrite (bind_ok _ _ _ _ _ (app_op_ok _ sm _ _ E)).
  - destruct (apply_batch_ok ops sm Hs) as (s' & E & ? & Hc). exists s'.
    rewrite (bind_ok _ _ _ _ _ E), Hc. destruct (batch_spec ops _) as [[e|] d]; done.
Qed.

(** [sm'] is [sm] after the entries, up to the cached snapshot. *)
Definition advanced (es : list (Entry LogId Membership)) sm sm' : Prop :=
  sto_inv (app sm') ∧ contents (app sm') = (entries_spec es (contents (app sm))).2 ∧
  last_applied_log_id sm' = match last es with
                            | Some e => Some (log_id e)
                            | None => last_applied_log_id sm
                            end ∧
  last_membership sm' = membership_after (last_membership sm) es ∧
  snapshot_idx sm' = snapshot_idx sm.

(** One round of the loop. *)
Lemma apply_entry_ok e es rs changed sm :
  sto_inv (app sm) →
  ∃ sm' r, SM.apply_loop (e :: es) rs changed sm = SM.apply_loop es (rs ++ [r]) true sm' ∧
  payload_spec (payload e) (contents (app sm)) = (r, contents (app sm')) ∧
  advanced [e] sm sm' ∧ current_snapshot sm' = current_snapshot sm.
Proof.
  intros Hs. cbn [SM.apply_loop]. rewrite bind_modify. unfold advanced, membership_after. simpl.
  set (sm1 := SM.set_applied (Some (log_id e)) sm).
  destruct (payload e) as [|req|x]; simpl.
  - by exists sm1, default_response.
  - destruct (apply_request_ok req sm1 Hs) as (s' & E & Hs' & Hc).
    exists (SM.set_app s' sm1), (request_spec (operation req) (contents (app sm))).1.
    rewrite (bind_ok _ _ _ _ _ E). simpl. rewrite Hc. by destruct (request_spec _ _).
  - rewrite bind_modify.
    by exists (SM.set_membership (Some (log_id e), x) sm1), default_response.
Qed.

Lemma advanced_cons e es sm sm1 sm2 :
  advanced [e] sm sm1 → advanced es sm1 sm2 → advanced (e :: es) sm sm2.
Proof.
  intros (_ & Hc1 & Hl1 & Hm1 & Hi1) (Hs2 & Hc2 & Hl2 & Hm2 & Hi2).
  split; [done|]. split; [|split; [|split]].
  - rewrite Hc2, Hc1. simpl. destruct (payload_spec _ _) as [r d]. simpl.
    by destruct (entries_spec es d).
  - rewrite Hl2, Hl1. destruct es as [|e' es']; [done|].
    change (last (e :: e' :: es')) with (last (e' :: es')).
    by destruct (last (e' :: es')) eqn:El; [|apply last_None in El].
  - by rewrite Hm2, Hm1.
  - congruence.
Qed.

Lemma apply_loop_ok es rs changed sm :
  sto_inv (app sm) →
  ∃ sm', SM.apply_loop es rs changed sm
         = (Ok (rs ++ (entries_spec es (contents (app sm))).1,
                changed || bool_decide (es ≠ [])), sm') ∧
  advanced es sm sm' ∧ current_snapshot sm' = current_snapshot sm.
Proof.
  revert rs changed sm. induction es as [|e es IH]; intros rs changed sm Hs.
  { exists sm. simpl. rewrite app_nil_r, orb_false_r. done. }
  destruct (apply_entry_ok e es rs changed sm Hs) as (sm1 & r & E1 & Hp & Ha1 & Hc1).
  destruct (IH (rs ++ [r]) true sm1) as (sm2 & E2 & Ha2 & Hc2); [apply Ha1|].
  exists sm2. rewrite E1, E2. simpl. rewrite Hp, orb_true_r, <- app_assoc.
  split; [by destruct (entries_spec es _)|]. split; [by eapply advanced_cons|congruence].
Qed.

Lemma apply_ok es sm :
  sto_inv (app sm) →
  ∃ sm', SM.apply es sm = (Ok (entries_spec es (contents (app sm))).1, sm') ∧
  advanced es sm sm' ∧
  current_snapshot sm' = if decide (es = []) then current_snapshot sm else None.
Proof.
  intros Hs. destruct (apply_loop_ok es [] false sm Hs) as (sm1 & E & Ha & Hc).
  unfold SM.apply. rewrite (bind_ok _ _ _ _ _ E). cbn [orb].
  case_bool_decide as Hne; [rewrite bind_modify|rewrite bind_ret].
  - exists (SM.set_current None sm1). rewrite decide_False by done. done.
  - exists sm1. rewrite decide_True by done. done.
Qed.

Lemma install_snapshot_ok (l : store) polls m chunks sm :
  sto_inv (app sm) → bt_wf l → Forall pair_ok l → concat chunks = serialize l →
  ∃ sm', SM.install_snapshot (1 + length l) polls m (receive chunks) sm = (Ok tt, sm') ∧
  sto_inv (app sm') ∧ contents (app sm') = l ∧ last_applied_log_id sm' = last_log_id m ∧
  last_membership sm' = meta_membership m.
Proof.
  intros Hs Hw Hok Hch. unfold SM.install_snapshot.
  destruct (receiver_installs l polls chunks (app sm) Hs Hw Hok Hch) as (s' & E & Hs' & Hc).
  rewrite E. destruct (law_create_snapshot s' Hs') as (snap & Ec & _).
  erewrite bind_ok by (by apply app_op_ok). rewrite !bind_modify.
  erewrite bind_ok by (apply app_op_ok; exact Ec). by eexists.
Qed.
End lemmas.

(** ** Theorems *)

Section theorems.
Context {LogId Membership : Type}.
Context {S : Type} `{SnapshotLaws S}.
Notation SM := (StateMachine LogId Membership S).
Notation Entry := (Entry LogId Membership).
Implicit Types sm : SM.

(** C8. Applying committed entries: one response per entry, in order, each telling what the
    entry did; the storage ends in the state the log prescribes; the last applied
    identifier and the membership follow the log, and the cached snapshot is dropped. *)
Theorem apply_correct (es : list Entry) sm :
  sto_inv (app sm) →
  let d := contents (app sm) in
  ∃ sm', SM.apply es sm = (Ok (entries_spec es d).1, sm') ∧
  length (entries_spec es d).1 = length es ∧
  sto_inv (app sm') ∧ contents (app sm') = (entries_spec es d).2 ∧
  last_applied_log_id sm' = match last es with
                            | Some e => Some (log_id e)
                            | None => last_applied_log_id sm
                            end ∧
  last_membership sm' = membership_after (last_membership sm) es ∧
  current_snapshot sm' = if decide (es = []) then current_snapshot sm else None.
Proof.
  intros Hs d. destruct (apply_ok es sm Hs) as (sm' & E & (Ha & Hc & Hl & Hm & _) & Hcur).
  exists sm'. split; [done|]. split; [|done].
  generalize d. clear. induction es as [|e es IH]; intros d; simpl; [done|].
  destruct (payload_spec _ d) as [r d']. specialize (IH d').
  destruct (entries_spec es d'). simpl in *. congruence.
Qed.

End theorems.

(** Replicas agree: two state machines, on whatever storages, that hold the same map give
    the same responses to the same entries and hold the same map afterwards. *)
Theorem replicas_agree {LogId Membership S1 S2 : Type} `{SnapshotLaws S1} `{SnapshotLaws S2}
    (es : list (Entry LogId Membership))
    (sm1 : StateMachine LogId Membership S1) (sm2 : StateMachine LogId Membership S2) :
  sto_inv (app sm1) → sto_inv (app sm2) → contents (app sm1) = contents (app sm2) →
  (SM.apply es sm1).1 = (SM.apply es sm2).1 ∧
  contents (app (SM.apply es sm1).2) = contents (app (SM.apply es sm2).2).
Proof.
  intros Hs1 Hs2 Heq. destruct (apply_ok es sm1 Hs1) as (sm1' & -> & (_ & Hc1 & _) & _).
  destruct (apply_ok es sm2 Hs2) as (sm2' & -> & (_ & Hc2 & _) & _). simpl.
  by rewrite Hc1, Hc2, Heq.
Qed.

(** C7. A replica that catches up through a snapshot ends where the leader is. The snapshot
    is announced with the log position at which the builder was created, but the builder
    shares the leader's storage: it may see entries [es2] applied after that. Installing
    it and applying [es2] again still gives exactly the leader's map and log position. *)
Theorem snapshot_catch_up {LogId Membership L F : Type} `{SnapshotLaws L} `{SnapshotLaws F}
    (es1 es2 : list (Entry LogId Membership))
    (leader : StateMachine LogId Membership L) (follower : StateMachine LogId Membership F)
    cap fuel polls chunks :
  sto_inv (app leader) → sto_inv (app follower) → 0 < cap →
  let leader1 := (SM.apply es1 leader).2 in
  let builder := (SM.get_snapshot_builder leader1).2 in
  let leader2 := (SM.apply es2 builder).2 in
  let d := contents (app leader2) in
  Forall pair_ok d → 2 * length (serialize d) < fuel → concat chunks = serialize d →
  ∃ snap, SM.run_builder builder leader2 = Ok snap ∧
  drain fuel cap (snapshot snap) = Some (concat chunks) ∧
  last_log_id (meta snap) = last_applied_log_id leader1 ∧
  ∃ follower1, SM.install_snapshot (1 + length d) polls (meta snap) (receive chunks) follower
               = (Ok tt, follower1) ∧
  last_applied_log_id follower1 = last_applied_log_id leader1 ∧
  let follower2 := (SM.apply es2 follower1).2 in
  contents (app follower2) = contents (app leader2) ∧
  last_applied_log_id follower2 = last_applied_log_id leader2 ∧
  last_membership follower2 = last_membership leader2.
Proof.
  intros Hl Hf Hcap leader1 builder leader2 d Hok Hfuel Hch.
  destruct (apply_ok es1 leader Hl) as (l1 & E1 & (Hs1 & Hc1 & _) & _).
  assert (leader1 = l1) as Hl1 by (unfold leader1; by rewrite E1).
  assert (sto_inv (app builder)) as Hb by (unfold builder; simpl; by rewrite Hl1).
  destruct (apply_ok es2 builder Hb) as (l2 & E2 & (Hs2 & Hc2 & Hi2 & Hm2 & _) & _).
  assert (leader2 = l2) as Hl2 by (unfold leader2; by rewrite E2).
  unfold d in *. clearbody leader1. subst leader1. clearbody leader2. subst l2.
  destruct (law_create_snapshot (app leader2) Hs2) as (sn & Es & Hst).
  set (snap := SM.raft_snapshot_of sn (SM.set_current (Some sn) (SM.set_app (app leader2) builder))).
  assert (SM.run_builder builder leader2 = Ok snap) as Hrun.
  { unfold SM.run_builder, SM.build_snapshot.
    erewrite bind_ok by (apply app_op_ok; exact Es). rewrite bind_modify.
    erewrite bind_ok by (apply app_op_ok; exact Es). done. }
  exists snap. split; [done|]. split; [|split; [done|]].
  { rewrite Hch. by apply sender_drains. }
  destruct (install_snapshot_ok (contents (app leader2)) polls (meta snap) chunks follower Hf
    (contents_wf _ Hs2) Hok Hch) as (f1 & E3 & Hf1 & Hfc & Hfl & Hfm).
  exists f1. split; [done|]. split; [done|].
  destruct (apply_ok es2 f1 Hf1) as (f2 & E4 & (Hs4 & Hc4 & Hi4 & Hm4 & _) & _).
  rewrite E4. cbv zeta. cbn [snd]. split; [|split].
  - rewrite Hc4, Hfc, Hc2, !entries_spec_effects.
    apply replay_idempotent. by apply contents_wf.
  - rewrite Hi4, Hi2, Hfl. done.
  - rewrite Hm4, Hm2, Hfm. done.
Qed.

(** ** The leader as a replication layer *)

Section layer.
Context {LogId Membership : Type} (next_log_id : option LogId → LogId).
Context {S : Type} `{SnapshotLaws S}.
Notation SM := (StateMachine LogId Membership S).

(** Calls that OpenRaft commits: the leader applies the request as the next entry and
    hands back the response. *)
Definition client_write (request : ShardRequest) : M SM ReplicationError ReplicationResponse :=
  let! responses := map_err ConsensusError (λ sm,
    SM.apply [{| log_id := next_log_id (last_applied_log_id sm);
                 payload := Normal request |}] sm) in
  match responses with
  | [r] => ret r
  | _ => panic "one response per entry"
  end.

#[local] Instance raft_storage : Storage SM := zoomed_storage app SM.set_app.

(** [replicate_read] of a leader that is sure of its leadership. *)
Definition raft_read (request : ShardRequest) : M SM ReplicationError ReplicationResponse :=
  match operation request with
  | Read key =>
      let! value := map_err RStorageError (sto_get key) in
      ret {| status := Applied; resp_data := value; extra := ExtraNone; resp_metadata := ∅ |}
  | _ => client_write request
  end.

#[local] Instance raft_layer : ReplicationLayer SM := {|
  replicate_write := client_write;
  replicate_read := raft_read;
|}.

#[local] Instance raft_storage_laws : StorageLaws SM :=
  zoomed_laws app SM.set_app (λ _ _, eq_refl) set_app_same.

Lemma client_write_ok req (sm : SM) :
  sto_inv (app sm) →
  ∃ sm', client_write req sm
         = (Ok (request_spec (operation req) (contents (app sm))).1, sm') ∧
  sto_inv (app sm') ∧ contents (app sm') = (request_spec (operation req) (contents (app sm))).2.
Proof.
  intros Hs. unfold client_write.
  destruct (apply_ok [{| log_id := next_log_id (last_applied_log_id sm); payload := Normal req |}]
    sm Hs) as (sm' & E & (Hs' & Hc & _) & _).
  erewrite bind_ok by (unfold map_err; by rewrite E). simpl in *.
  destruct (request_spec (operation req) (contents (app sm))) as [r d]. simpl in *.
  by exists sm'.
Qed.

Lemma batch_effect ops (d d' : store) : ops_effect ops d = Some d' → batch_spec ops d = (None, d').
Proof.
  revert d. induction ops as [|[w|k|k|os] ops IH]; intros d; simpl; try done.
  - by intros [= ->].
  - apply IH.
  - apply IH.
Qed.

(** A Raft leader keeps the contract the shard relies on. A write reports whether it
    replaced a value but never hands the old value back. *)
#[program] Definition raft_laws : @ReplicationLaws SM raft_storage raft_storage_laws raft_layer := {|
  write_response old _ := {| status := Applied; resp_data := None;
                             extra := ExtraWrite (bool_decide (is_Some old));
                             resp_metadata := ∅ |};
|}.
Next Obligation. done. Qed.
Next Obligation.
  intros w now src sm Hs. by destruct (client_write_ok (from_operation now (Write w) src) sm Hs)
    as (sm' & E & ? & ?); exists sm'.
Qed.
Next Obligation.
  intros k now src sm Hs. by destruct (client_write_ok (from_operation now (Delete k) src) sm Hs)
    as (sm' & E & ? & ?); exists sm'.
Qed.
Next Obligation.
  intros os now src sm d Hs Hd.
  destruct (client_write_ok (from_operation now (Batch os) src) sm Hs) as (sm' & E & ? & Hc).
  exists sm'. cbn [operation from_operation request_spec] in E, Hc.
  change (ops_effect os (contents (app sm)) = Some d) in Hd.
  rewrite (batch_effect _ _ _ Hd) in E, Hc. done.
Qed.
Next Obligation.
  intros k now src sm Hs. eexists. simpl. unfold raft_read. simpl. unfold map_err, zoom, bind.
  rewrite (law_get k (app sm) Hs), set_app_same. done.
Qed.
End layer.

(** ** Raft and a single node *)

(** Operations without a batch inside a batch. *)
Definition flat (o : Operation) : Prop :=
  match o with
  | Batch ops => Forall (λ o, match o with Batch _ => False | _ => True end) ops
  | _ => True
  end.

Lemma local_batch {S : Type} `{StorageLaws S} ops (s : S) :
  sto_inv s → flat (Batch ops) →
  ∃ s', for_each NoReplication.replicate_op ops s = (Ok tt, s') ∧ sto_inv s' ∧
  batch_spec ops (contents s) = (None, contents s').
Proof.
  simpl. intros Hs Hops. revert s Hs. induction Hops as [|o ops Ho Hops IH]; intros s Hs; simpl.
  { by exists s. }
  destruct o as [w|k|k|os]; [..|done].
  - destruct (no_replication_write w s Hs) as (s1 & E & Hs1 & Hc).
    rewrite (bind_ok _ _ _ _ _ E), <- Hc. by apply IH.
  - cbn [NoReplication.replicate_op].
    assert (NoReplication.replicate_op (Read k) s = (Ok {| status := Applied;
      resp_data := bt_get k (contents s); extra := ExtraNone; resp_metadata := ∅ |}, s)) as E.
    { simpl. by erewrite bind_ok by (by apply storage_ok, law_get). }
    rewrite (bind_ok _ _ _ _ _ E). by apply IH.
  - destruct (no_replication_delete k s Hs) as (s1 & E & Hs1 & Hc).
    rewrite (bind_ok _ _ _ _ _ E), <- Hc. by apply IH.
Qed.


(** ** Witnesses *)

Notation demo_sm := (StateMachine nat unit MemoryStorage).
Notation demo_entry := (Entry nat unit).

Definition put_request (k v : string) : ShardRequest :=
  from_operation 0 (Write {| w_key := bs k; w_value := bs v; w_ttl := None;
                             w_return_old := false |}) 0.
Definition demo_log (i : nat) (k v : string) : demo_entry :=
  {| log_id := i; payload := Normal (put_request k v) |}.
Definition sm0 : demo_sm := SM.new (None, tt) Memory.new.
Definition next_id (o : option nat) : nat := match o with Some n => S n | None => 0 end.

Lemma empty_inv : bt_wf (data Memory.new).
Proof. constructor. Qed.

Lemma apply_correct_witness :
  ∃ sm', SM.apply [demo_log 1 "a" "x"; demo_log 2 "a" "y"] sm0
  = (Ok (entries_spec [demo_log 1 "a" "x"; demo_log 2 "a" "y"] []).1, sm') ∧
  contents (app sm') = [(bs "a", bs "y")] ∧ last_applied_log_id sm' = Some 2.
Proof.
  destruct (apply_correct [demo_log 1 "a" "x"; demo_log 2 "a" "y"] sm0 ltac:(exact empty_inv))
    as (sm' & E & _ & _ & Hc & Hl & _).
  exists sm'. split; [exact E|]. split; [rewrite Hc; reflexivity|exact Hl].
Defined.

Lemma replicas_agree_witness :
  (SM.apply [demo_log 1 "a" "x"] sm0).1 = (SM.apply [demo_log 1 "a" "x"] sm0).1.
Proof.
  exact (proj1 (replicas_agree [demo_log 1 "a" "x"] sm0 sm0 ltac:(exact empty_inv)
    ltac:(exact empty_inv) eq_refl)).
Defined.

Lemma snapshot_catch_up_witness :
  let leader2 := (SM.apply [demo_log 2 "b" "y"]
    (SM.get_snapshot_builder (SM.apply [demo_log 1 "a" "x"] sm0).2).2).2 in
  ∃ snap, SM.run_builder (SM.get_snapshot_builder (SM.apply [demo_log 1 "a" "x"] sm0).2).2
    leader2 = Ok snap ∧ last_log_id (meta snap) = Some 1.
Proof.
  destruct (snapshot_catch_up [demo_log 1 "a" "x"] [demo_log 2 "b" "y"] sm0 sm0 4 100 0
    [serialize [(bs "a", bs "x"); (bs "b", bs "y")]]
    ltac:(exact empty_inv) ltac:(exact empty_inv) ltac:(lia) ltac:(decide_now)
    ltac:(apply Nat.ltb_lt; vm_compute; reflexivity) ltac:(reflexivity)) as (snap & E & _ & Hm & _).
  exists snap. split; [exact E|]. exact Hm.
Defined.


(** A batch inside a batch tells the two apart: a single node applies it, a Raft leader
    reports the batch as failed, inside a successful answer, and drops the rest of it. *)
Theorem nested_batch_diverges :
  let req := from_operation 0 (Batch [Batch []; operation (put_request "a" "x")]) 0 in
  (client_write next_id req sm0).1
  = Ok {| status := Failed "nested batch unsupported"; resp_data := None; extra := ExtraNone;
          resp_metadata := ∅ |} ∧
  contents (app (client_write next_id req sm0).2) = [] ∧
  (NoReplication.replicate_write req Memory.new).1 = Ok default_response ∧
  contents (NoReplication.replicate_write req Memory.new).2 = [(bs "a", bs "x")].
Proof. split_and!; reflexivity. Qed.
