(* ===== verification/Events.v ===== *)
(** * Mutation events

    [data-plane/oprc-odgm/src/events]: the contexts a shard emits ([mutation.rs]), the
    bounded queue and its counters, the consumer task that matches triggers and
    broadcasts ([dispatcher.rs]), the payloads ([types.rs], [ZenohEventPayload]) and the
    keys triggers are published under ([processor.rs]). [Queue] is the queue under
    concurrent senders, one step per atomic access. *)

From stdpp Require Import base tactics list numbers option gmap sorting strings relations.
From Stdlib Require Import Lia.
From S2P Require Import Prelude BTree.

Set Default Proof Using "Type".

(** ** Data *)

Inductive MutAction : Type := Create | Update | ADelete.
Inductive MutationSource : Type := Local | Sync.

Record ChangedKey := {
  key_canonical : bytes;
  action : MutAction;
  ck_value : option bytes;
}.

(** The trigger configuration of an object ([oprc-data.proto]). *)
Record TriggerTarget := {
  t_cls_id : bytes;
  t_partition_id : Z;
  t_object_id : option bytes;
  t_fn_id : bytes;
  t_req_options : gmap bytes bytes;
}.
Record FuncTrigger := { on_complete : list TriggerTarget; on_error : list TriggerTarget }.
Record DataTrigger := {
  on_create : list TriggerTarget;
  on_update : list TriggerTarget;
  on_delete : list TriggerTarget;
}.
Record ObjectEvent := {
  func_trigger : gmap bytes FuncTrigger;
  data_trigger : gmap bytes DataTrigger;
}.

Record MutationContext := {
  object_id : bytes;
  cls_id : bytes;
  partition_id : Z;
  version_before : Z;
  version_after : Z;
  changed : list ChangedKey;
  source : MutationSource;
  event_config : option ObjectEvent;
}.

Module MutationCtx.
Definition new (object_id cls_id : bytes) (partition_id version_before version_after : Z)
    (changed : list ChangedKey) : MutationContext :=
  {| object_id := object_id; cls_id := cls_id; partition_id := partition_id;
     version_before := version_before; version_after := version_after;
     changed := changed; source := Local; event_config := None |}.

Definition new_sync (object_id cls_id : bytes) (partition_id version_before version_after : Z)
    (changed : list ChangedKey) : MutationContext :=
  {| object_id := object_id; cls_id := cls_id; partition_id := partition_id;
     version_before := version_before; version_after := version_after;
     changed := changed; source := Sync; event_config := None |}.

Definition with_event_config (cfg : option ObjectEvent) (c : MutationContext) : MutationContext :=
  {| object_id := object_id c; cls_id := cls_id c; partition_id := partition_id c;
     version_before := version_before c; version_after := version_after c;
     changed := changed c; source := source c; event_config := cfg |}.
End MutationCtx.

Inductive EventType : Type :=
| FunctionComplete (fn_id : bytes)
| FunctionError (fn_id : bytes)
| DataCreate (key : bytes)
| DataUpdate (key : bytes)
| DataDelete (key : bytes).

Record EventContext := {
  e_object_id : bytes;
  e_class_id : bytes;
  e_partition_id : Z;
  e_event_type : EventType;
  e_payload : option bytes;
  e_error_message : option bytes;
}.

Record TriggerExecutionContext := { source_event : EventContext; target : TriggerTarget }.

Record EventSummary := {
  changed_total : nat;
  s_emitted : nat;
  sample_remaining_keys : list bytes;
  s_version_after : Z;
}.

Record QueuedEvent := {
  seq : Z;
  ctx : MutationContext;
  summary : option EventSummary;
}.

(** ** Payloads *)

(** The protobuf number of an event type. *)
Definition event_type_number (t : EventType) : Z :=
  match t with
  | FunctionComplete _ => 1
  | FunctionError _ => 2
  | DataCreate _ => 3
  | DataUpdate _ => 4
  | DataDelete _ => 5
  end.

Record EventInfo := {
  source_cls_id : bytes;
  source_partition_id : Z;
  source_object_id : option bytes;
  event_type : Z;
  fn_id : option bytes;
  key : option bytes;
  ei_timestamp : Z;
  ei_context : gmap bytes bytes;
}.
Record TriggerPayload := { event_info : option EventInfo; original_payload : option bytes }.

(** [now] is the clock in milliseconds since the epoch. *)
Definition create_trigger_payload (now : Z) (context : TriggerExecutionContext) :
    TriggerPayload :=
  let e := source_event context in
  let (fn_id, key) :=
    match e_event_type e with
    | FunctionComplete f | FunctionError f => (Some f, None)
    | DataCreate k | DataUpdate k | DataDelete k => (None, Some k)
    end in
  {| event_info := Some
       {| source_cls_id := e_class_id e;
          source_partition_id := e_partition_id e;
          source_object_id := Some (e_object_id e);
          event_type := event_type_number (e_event_type e);
          fn_id := fn_id; key := key; ei_timestamp := now; ei_context := ∅ |};
     original_payload := e_payload e |}.

Record ZenohChangedEntry := { z_key : bytes; z_action : bytes; z_value : option bytes }.
Record ZenohEventPayload := {
  z_object_id : bytes;
  z_cls_id : bytes;
  z_partition_id : Z;
  z_source : bytes;
  z_version : Z;
  z_changes : list ZenohChangedEntry;
}.

Definition action_name (a : MutAction) : bytes :=
  match a with Create => bs "create" | Update => bs "update" | ADelete => bs "delete" end.

Definition from_queued_event (evt : QueuedEvent) : ZenohEventPayload :=
  let c := ctx evt in
  {| z_object_id := object_id c; z_cls_id := cls_id c; z_partition_id := partition_id c;
     z_source := match source c with Local => bs "local" | Sync => bs "sync" end;
     z_version := version_after c;
     z_changes := (λ ck, {| z_key := key_canonical ck; z_action := action_name (action ck);
                            z_value := ck_value ck |}) <$> changed c |}.

(** ** Triggers *)

Definition map_changed_key_to_event_type (ck : ChangedKey) : EventType :=
  match action ck with
  | Create => DataCreate (key_canonical ck)
  | Update => DataUpdate (key_canonical ck)
  | ADelete => DataDelete (key_canonical ck)
  end.

(** [.get(key).map(f).unwrap_or_default()] on a trigger table. *)
Definition targets_of {A} (f : A → list TriggerTarget) (m : gmap bytes A) (k : bytes) :=
  default [] (f <$> m !! k).

Definition collect_matching_triggers_inline (object_event : ObjectEvent) (t : EventType) :
    list TriggerTarget :=
  match t with
  | DataCreate k => targets_of on_create (data_trigger object_event) k
  | DataUpdate k => targets_of on_update (data_trigger object_event) k
  | DataDelete k => targets_of on_delete (data_trigger object_event) k
  | FunctionComplete _ | FunctionError _ => []
  end.

(** [EventManagerImpl::collect_matching_triggers]: the same with function events. *)
Definition collect_matching_triggers (object_event : ObjectEvent) (t : EventType) :
    list TriggerTarget :=
  match t with
  | FunctionComplete f => targets_of on_complete (func_trigger object_event) f
  | FunctionError f => targets_of on_error (func_trigger object_event) f
  | DataCreate k => targets_of on_create (data_trigger object_event) k
  | DataUpdate k => targets_of on_update (data_trigger object_event) k
  | DataDelete k => targets_of on_delete (data_trigger object_event) k
  end.

Definition slash : bytes := bs "/".

(** [build_async_key_expr]; [partition] is the decimal partition number. *)
Definition build_async_key_expr (partition : Z → bytes) (t : TriggerTarget)
    (invocation_id : bytes) : bytes :=
  match t_object_id t with
  | Some id =>
      bs "oprc/" ++ t_cls_id t ++ slash ++ partition (t_partition_id t) ++ bs "/objects/" ++ id
      ++ bs "/async/" ++ t_fn_id t ++ slash ++ invocation_id
  | None =>
      bs "oprc/" ++ t_cls_id t ++ slash ++ partition (t_partition_id t)
      ++ bs "/async/" ++ t_fn_id t ++ slash ++ invocation_id
  end.

(** ** The dispatcher *)

Record Dispatcher := {
  d_seq : Z;                       (* AtomicU64, next sequence number *)
  d_queue : list QueuedEvent;      (* the mpsc channel *)
  d_bound : nat;                   (* queue_bound *)
  d_closed : bool;                 (* the consumer is gone *)
  emitted_events : Z;
  emitted_create : Z;
  emitted_update : Z;
  emitted_delete : Z;
  truncated_batches : Z;
  queue_drops_total : Z;
  queue_len : Z;
  has_trigger_processor : bool;
  executed : list TriggerExecutionContext;   (* calls of execute_trigger, in order *)
  broadcast : list QueuedEvent;              (* events sent on the broadcast channel *)
}.

Module Dispatch.

Definition new (queue_bound : nat) (tp : bool) : Dispatcher :=
  {| d_seq := 1; d_queue := []; d_bound := queue_bound; d_closed := false;
     emitted_events := 0; emitted_create := 0; emitted_update := 0; emitted_delete := 0;
     truncated_batches := 0; queue_drops_total := 0; queue_len := 0;
     has_trigger_processor := tp; executed := []; broadcast := [] |}.

(** The counters of the queue, the rest unchanged. *)
Definition upd_queue (seq : Z) (q : list QueuedEvent) (drops len : Z) (d : Dispatcher) :=
  {| d_seq := seq; d_queue := q; d_bound := d_bound d; d_closed := d_closed d;
     emitted_events := emitted_events d; emitted_create := emitted_create d;
     emitted_update := emitted_update d; emitted_delete := emitted_delete d;
     truncated_batches := truncated_batches d; queue_drops_total := drops;
     queue_len := len; has_trigger_processor := has_trigger_processor d;
     executed := executed d; broadcast := broadcast d |}.

Definition upd_emitted (ev cr up de trunc : Z) (ex : list TriggerExecutionContext)
    (bc : list QueuedEvent) (d : Dispatcher) :=
  {| d_seq := d_seq d; d_queue := d_queue d; d_bound := d_bound d; d_closed := d_closed d;
     emitted_events := ev; emitted_create := cr; emitted_update := up; emitted_delete := de;
     truncated_batches := trunc; queue_drops_total := queue_drops_total d;
     queue_len := queue_len d; has_trigger_processor := has_trigger_processor d;
     executed := ex; broadcast := bc |}.

Definition try_send (c : MutationContext) (d : Dispatcher) : bool * Dispatcher :=
  let evt := {| seq := d_seq d; ctx := c; summary := None |} in
  let next := wrap64 (d_seq d + 1) in
  if d_closed d then (false, upd_queue next (d_queue d) (queue_drops_total d) (queue_len d) d)
  else if (length (d_queue d) <? d_bound d)%nat then
    (true, upd_queue next (d_queue d ++ [evt]) (queue_drops_total d)
             (wrap64 (queue_len d + 1)) d)
  else (false, upd_queue next (d_queue d) (wrap64 (queue_drops_total d + 1)) (queue_len d) d).

Definition event_context (c : MutationContext) (t : EventType) : EventContext :=
  {| e_object_id := object_id c; e_class_id := cls_id c; e_partition_id := partition_id c;
     e_event_type := t; e_payload := None; e_error_message := None |}.

(** The body of the loop over the changed keys. *)
Definition process_key (c : MutationContext) (ck : ChangedKey) (d : Dispatcher) : Dispatcher :=
  let ev := wrap64 (emitted_events d + 1) in
  let t := map_changed_key_to_event_type ck in
  let skip := upd_emitted ev (emitted_create d) (emitted_update d) (emitted_delete d)
                (truncated_batches d) (executed d) (broadcast d) d in
  if has_trigger_processor d then
    match event_config c with
    | None => skip
    | Some object_event =>
        match collect_matching_triggers_inline object_event t with
        | [] => skip
        | targets =>
            let bump a b := if bool_decide (a = event_type_number t)
                            then wrap64 (b + 1) else b in
            upd_emitted ev (bump 3%Z (emitted_create d)) (bump 4%Z (emitted_update d))
              (bump 5%Z (emitted_delete d)) (truncated_batches d)
              (executed d ++ ((λ tg, {| source_event := event_context c t; target := tg |})
                                <$> targets))
              (broadcast d) d
        end
    end
  else skip.

(** The loop over the changed keys, up to [fanout_cap] of them. *)
Fixpoint process_keys (fanout_cap : nat) (c : MutationContext) (cks : list ChangedKey)
    (emitted : nat) (d : Dispatcher) : nat * Dispatcher :=
  match cks with
  | [] => (emitted, d)
  | ck :: cks =>
      if (fanout_cap <=? emitted)%nat then (emitted, d)
      else process_keys fanout_cap c cks (S emitted) (process_key c ck d)
  end.

(** One round of [run_event_consumer]. *)
Definition consume_one (fanout_cap sample_limit : nat) (d : Dispatcher) : Dispatcher :=
  match d_queue d with
  | [] => d
  | evt :: q =>
      let c := ctx evt in
      let d := upd_queue (d_seq d) q (queue_drops_total d) (queue_len d) d in
      let changed_len := length (changed c) in
      let (emitted, d) := process_keys fanout_cap c (changed c) 0 d in
      let truncated := (emitted <? changed_len)%nat in
      let summary :=
        if truncated then
          Some {| changed_total := changed_len; s_emitted := emitted;
                  sample_remaining_keys :=
                    key_canonical <$> take sample_limit (drop emitted (changed c));
                  s_version_after := version_after c |}
        else summary evt in
      let d := upd_emitted (emitted_events d) (emitted_create d) (emitted_update d)
                 (emitted_delete d)
                 (if truncated then wrap64 (truncated_batches d + 1) else truncated_batches d)
                 (executed d)
                 (broadcast d ++ [{| seq := seq evt; ctx := c; summary := summary |}]) d in
      upd_queue (d_seq d) (d_queue d) (queue_drops_total d) (wrap64 (queue_len d - 1)) d
  end.

End Dispatch.

(** ** Concurrent senders

    [try_send] is three atomic accesses: the sequence number, the channel and the length
    counter; the consumer receives, and decrements the counter after processing. *)
Module Queue.

Record state := {
  next : Z;                      (* seq counter *)
  taken : list Z;                (* numbers drawn by senders that have not sent yet *)
  queue : list Z;                (* channel contents *)
  bound : nat;
  uncounted : nat;               (* senders between the send and [queue_len.fetch_add] *)
  busy : option Z;               (* event being processed *)
  sent : list Z;                 (* history: accepted events in channel order *)
  delivered : list Z;            (* history: broadcast events *)
  dropped : list Z;              (* history: rejected events *)
  len : Z;                       (* queue_len *)
}.

Definition init (b : nat) : state :=
  {| next := 1; taken := []; queue := []; bound := b; uncounted := 0; busy := None;
     sent := []; delivered := []; dropped := []; len := 0 |}.

Inductive step : state → state → Prop :=
| step_seq s :
    step s {| next := next s + 1; taken := next s :: taken s; queue := queue s;
              bound := bound s; uncounted := uncounted s; busy := busy s; sent := sent s;
              delivered := delivered s; dropped := dropped s; len := len s |}
| step_send s l1 x l2 :
    taken s = l1 ++ x :: l2 → length (queue s) < bound s →
    step s {| next := next s; taken := l1 ++ l2; queue := queue s ++ [x];
              bound := bound s; uncounted := S (uncounted s); busy := busy s;
              sent := sent s ++ [x]; delivered := delivered s; dropped := dropped s;
              len := len s |}
| step_full s l1 x l2 :
    taken s = l1 ++ x :: l2 → bound s ≤ length (queue s) →
    step s {| next := next s; taken := l1 ++ l2; queue := queue s;
              bound := bound s; uncounted := uncounted s; busy := busy s; sent := sent s;
              delivered := delivered s; dropped := x :: dropped s; len := len s |}
| step_count s n :
    uncounted s = S n →
    step s {| next := next s; taken := taken s; queue := queue s;
              bound := bound s; uncounted := n; busy := busy s; sent := sent s;
              delivered := delivered s; dropped := dropped s; len := wrap64 (len s + 1) |}
| step_recv s x q :
    queue s = x :: q → busy s = None →
    step s {| next := next s; taken := taken s; queue := q;
              bound := bound s; uncounted := uncounted s; busy := Some x; sent := sent s;
              delivered := delivered s; dropped := dropped s; len := len s |}
| step_done s x :
    busy s = Some x →
    step s {| next := next s; taken := taken s; queue := queue s;
              bound := bound s; uncounted := uncounted s; busy := None; sent := sent s;
              delivered := delivered s ++ [x]; dropped := dropped s;
              len := wrap64 (len s - 1) |}.

Definition reachable (b : nat) (s : state) : Prop := rtc step (init b) s.

Definition in_flight (s : state) : list Z := option_list (busy s).

(** The invariant: bounded channel, first-in first-out, no number used twice, and the
    counter equal to the events in the channel or in processing less the sends not yet
    counted. *)
Record inv (s : state) : Prop := {
  inv_bound : length (queue s) ≤ bound s;
  inv_fifo : sent s = delivered s ++ in_flight s ++ queue s;
  inv_next : (1 ≤ next s)%Z;
  inv_seq : ∀ x, x ∈ taken s ++ dropped s ++ sent s ↔ (1 ≤ x < next s)%Z;
  inv_nodup : NoDup (taken s ++ dropped s ++ sent s);
  inv_len : len s = wrap64 (Z.of_nat (length (queue s) + length (in_flight s))
                            - Z.of_nat (uncounted s));
}.

Lemma wrap64_wrap_add a b : wrap64 (wrap64 a + b) = wrap64 (a + b).
Proof. unfold wrap64. by rewrite Zplus_mod_idemp_l. Qed.
Lemma wrap64_wrap_sub a b : wrap64 (wrap64 a - b) = wrap64 (a - b).
Proof. unfold wrap64. by rewrite Zminus_mod_idemp_l. Qed.

Lemma init_inv b : inv (init b).
Proof.
  split; simpl; [lia|done|lia| |constructor|done].
  intros x. split; [by intros ?%not_elem_of_nil|lia].
Qed.

Lemma step_inv s s' : step s s' → inv s → inv s'.
Proof.
  destruct 1 as [s|s l1 x l2 Ht Hb|s l1 x l2 Ht Hb|s n Hn|s x q Hq Hbusy|s x Hbusy];
    intros [I1 I2 I0 I3 I4 I5]; split; simpl in *; unfold in_flight in *; simpl in *;
    rewrite ?Ht in *; try done.
  - lia.
  - intros x. rewrite elem_of_cons, I3. lia.
  - constructor; [|done]. rewrite I3. lia.
  - rewrite length_app. simpl. lia.
  - rewrite I2. by rewrite <- !app_assoc.
  - intros y. rewrite <- I3. set_solver.
  - eapply NoDup_Permutation_proper; [|exact I4]. solve_Permutation.
  - rewrite length_app. simpl. rewrite I5. f_equal. lia.
  - intros y. rewrite <- I3. set_solver.
  - eapply NoDup_Permutation_proper; [|exact I4]. solve_Permutation.
  - rewrite I5, wrap64_wrap_add. f_equal. lia.
  - rewrite Hq in I1. simpl in I1. lia.
  - by rewrite I2, Hq, Hbusy.
  - rewrite I5, Hq, Hbusy. simpl. f_equal. lia.
  - by rewrite I2, Hbusy, <- app_assoc.
  - rewrite I5, Hbusy, wrap64_wrap_sub. simpl. f_equal. lia.
Qed.

(** Rule induction on reachability. *)
Lemma reachable_ind b (P : state → Prop) :
  P (init b) → (∀ s s', step s s' → P s → P s') → ∀ s, reachable b s → P s.
Proof. intros Hi Hs. apply rtc_ind_r; [done|]. eauto. Qed.

Lemma reachable_inv b s : reachable b s → inv s.
Proof. revert s. apply reachable_ind; [apply init_inv|apply step_inv]. Qed.

Lemma reachable_bound b s : reachable b s → bound s = b.
Proof. revert s. apply reachable_ind; [done|]. by destruct 1. Qed.


(** One sender, one consumer: the event is sent, received and processed. *)
Definition demo_run : state :=
  {| next := 2; taken := []; queue := []; bound := 4; uncounted := 1; busy := None;
     sent := [1%Z]; delivered := [1%Z]; dropped := []; len := u64_max |}.

Lemma demo_reachable : reachable 4 demo_run.
Proof.
  unfold reachable. eapply rtc_l; [apply step_seq|].
  eapply rtc_l; [by apply (step_send _ [] 1%Z []); [|simpl; lia]|].
  eapply rtc_l; [by eapply step_recv|].
  eapply rtc_l; [by eapply step_done|]. apply rtc_refl.
Defined.


(** Once every accepted send has been counted, [queue_len] is the number of events
    waiting or being processed. *)
Theorem queue_len_settled b s :
  reachable b s → uncounted s = 0 → (Z.of_nat b < u64_max)%Z →
  len s = Z.of_nat (length (queue s) + length (in_flight s)).
Proof.
  intros Hr Hu Hb.
  pose proof (reachable_bound b s Hr) as Hb'.
  apply reachable_inv in Hr as [Hl _ _ _ _ I5]. rewrite Hb' in Hl.
  rewrite I5, Hu, Z.sub_0_r. apply wrap64_small. unfold is_u64, in_flight.
  destruct (busy s); simpl; lia.
Qed.

Lemma queue_len_settled_witness :
  len (init 4) = Z.of_nat (length (queue (init 4)) + length (in_flight (init 4))).
Proof. exact (queue_len_settled 4 (init 4) (rtc_refl _ _) eq_refl eq_refl). Defined.

(** The counter can be read as 2^64 - 1: the consumer may finish an event before its
    sender has counted it. *)
Theorem queue_len_underflow : ∃ s, reachable 4 s ∧ len s = u64_max.
Proof. exists demo_run. split; [apply demo_reachable|done]. Qed.
End Queue.

(** ** The consumer *)

Section consumer.
Implicit Types (c : MutationContext) (d : Dispatcher).

Definition key_targets (oe : ObjectEvent) (c : MutationContext) (ck : ChangedKey) :
    list TriggerExecutionContext :=
  let t := map_changed_key_to_event_type ck in
  (λ tg, {| source_event := Dispatch.event_context c t; target := tg |})
    <$> collect_matching_triggers_inline oe t.

Lemma process_key_spec oe c ck d :
  has_trigger_processor d = true → event_config c = Some oe →
  let d' := Dispatch.process_key c ck d in
  executed d' = executed d ++ key_targets oe c ck ∧
  emitted_events d' = wrap64 (emitted_events d + 1) ∧
  has_trigger_processor d' = true ∧ d_queue d' = d_queue d ∧ broadcast d' = broadcast d ∧
  truncated_batches d' = truncated_batches d ∧ queue_len d' = queue_len d.
Proof.
  intros Ht Hc. unfold Dispatch.process_key, key_targets. rewrite Ht, Hc.
  destruct (collect_matching_triggers_inline _ _) as [|t ts]; simpl; rewrite ?app_nil_r; auto 10.
Qed.

Lemma process_keys_spec cap oe c cks n d :
  has_trigger_processor d = true → event_config c = Some oe → n ≤ cap →
  let keys := take (cap - n) cks in
  let d' := (Dispatch.process_keys cap c cks n d).2 in
  (Dispatch.process_keys cap c cks n d).1 = n + length keys ∧
  executed d' = executed d ++ concat (key_targets oe c <$> keys) ∧
  wrap64 (emitted_events d') = wrap64 (emitted_events d + Z.of_nat (length keys)) ∧
  d_queue d' = d_queue d ∧ broadcast d' = broadcast d ∧
  truncated_batches d' = truncated_batches d ∧ queue_len d' = queue_len d.
Proof.
  intros Ht Hc. revert n d Ht. induction cks as [|ck cks IH]; intros n d Ht Hn; simpl.
  { rewrite take_nil. simpl. rewrite app_nil_r, Z.add_0_r. auto 10. }
  destruct (Nat.leb_spec cap n) as [Hle|Hlt]; simpl.
  { replace (cap - n) with 0 by lia. simpl. rewrite app_nil_r, Z.add_0_r. auto 10. }
  destruct (process_key_spec oe c ck d Ht Hc) as (P1 & P2 & P3 & P4 & P5 & P6 & P7).
  destruct (IH (S n) _ P3 Hlt) as (Q1 & Q2 & Q3 & Q4 & Q5 & Q6 & Q7).
  replace (cap - n) with (S (cap - S n)) by lia. simpl.
  rewrite Q1, Q2, Q3, Q4, Q5, Q6, Q7, P1, P2, P4, P5, P6, P7, Queue.wrap64_wrap_add.
  split; [lia|]. split; [by rewrite <- app_assoc|]. split; [f_equal; lia|done].
Qed.

(** Processing one event runs the triggers configured for its first [fanout_cap] changed
    keys, in order, and broadcasts the event once; when keys are left over the event
    carries a summary naming the first [sample_limit] of them. *)
Theorem consume_one_spec cap lim evt q oe d :
  d_queue d = evt :: q → has_trigger_processor d = true →
  event_config (ctx evt) = Some oe →
  let d' := Dispatch.consume_one cap lim d in
  let keys := changed (ctx evt) in
  executed d' = executed d ++ concat (key_targets oe (ctx evt) <$> take cap keys) ∧
  d_queue d' = q ∧ queue_len d' = wrap64 (queue_len d - 1) ∧
  broadcast d' = broadcast d ++
    [{| seq := seq evt; ctx := ctx evt;
        summary := if (length keys <=? cap)%nat then summary evt
                   else Some {| changed_total := length keys; s_emitted := cap;
                                sample_remaining_keys :=
                                  key_canonical <$> take lim (drop cap keys);
                                s_version_after := version_after (ctx evt) |} |}].
Proof.
  intros Hq Ht Hc d' keys. unfold d', Dispatch.consume_one. rewrite Hq.
  set (d1 := Dispatch.upd_queue _ _ _ _ _).
  pose proof (process_keys_spec cap oe (ctx evt) keys 0 d1 Ht Hc ltac:(lia))
    as (P1 & P2 & _ & P4 & P5 & _ & P7).
  fold keys. destruct (Dispatch.process_keys cap (ctx evt) keys 0 d1) as [m d2]. simpl in *.
  rewrite Nat.sub_0_r in *. rewrite P2, P4, P5, P7. repeat (split; [done|]).
  do 2 f_equal. rewrite P1, length_take.
  destruct (Nat.leb_spec (length keys) cap) as [Hl|Hl].
  - rewrite (proj2 (Nat.ltb_ge _ _)) by lia. done.
  - rewrite (proj2 (Nat.ltb_lt _ _)) by lia. rewrite Nat.min_l by lia. done.
Qed.
End consumer.

(** A dispatcher holding one event that changes two keys, with a trigger on the first. *)
Definition demo_target : TriggerTarget :=
  {| t_cls_id := bs "c"; t_partition_id := 0; t_object_id := None; t_fn_id := bs "f";
     t_req_options := ∅ |}.
Definition demo_oe : ObjectEvent :=
  {| func_trigger := ∅;
     data_trigger := {[ bs "a" := {| on_create := [demo_target]; on_update := [];
                                     on_delete := [] |} ]} |}.
Definition demo_ctx : MutationContext :=
  MutationCtx.with_event_config (Some demo_oe)
    (MutationCtx.new (bs "o") (bs "c") 0 0 1
      [{| key_canonical := bs "a"; action := Create; ck_value := None |};
       {| key_canonical := bs "b"; action := Create; ck_value := None |}]).

Lemma consume_one_spec_witness :
  let d := (Dispatch.try_send demo_ctx (Dispatch.new 4 true)).2 in
  length (executed (Dispatch.consume_one 1 32 d)) = 1.
Proof.
  set (d := (Dispatch.try_send demo_ctx (Dispatch.new 4 true)).2).
  destruct (consume_one_spec 1 32 {| seq := 1; ctx := demo_ctx; summary := None |} [] demo_oe d
    eq_refl eq_refl eq_refl) as (H & _).
  cbv zeta. rewrite H. vm_compute. reflexivity.
Defined.
