(* ===== verification/ObjectData.v ===== *)
(** * Objects and their values

    [data-plane/oprc-odgm/src/shard/basic.rs]: the values of entries, whole objects as
    clients exchange them, and the merge of two copies of an object. Merging CRDT
    documents is the automerge library's: [am_merge] stands for loading two documents,
    merging them and saving the result. *)

From stdpp Require Import base tactics list numbers option gmap sorting strings.
From S2P Require Import Prelude BTree Events.

Set Default Proof Using "Type".

Inductive ValType : Type := Byte | CrdtMap.

Record ObjectVal := { val_data : bytes; val_type : ValType }.

#[global] Instance ValType_eq_dec : EqDecision ValType.
Proof. solve_decision. Defined.
#[global] Instance ObjectVal_eq_dec : EqDecision ObjectVal.
Proof. solve_decision. Defined.

(** The protobuf value: the type is an open enumeration ([i32]). *)
Record ValData := { vd_data : bytes; vd_type : Z }.

Definition val_type_of_i32 (t : Z) : option ValType :=
  if (t =? 0)%Z then Some Byte else if (t =? 1)%Z then Some CrdtMap else None.
Definition i32_of_val_type (t : ValType) : Z := match t with Byte => 0 | CrdtMap => 1 end.

(** [ObjectVal::from(ValData)]: unknown types become bytes. *)
Definition from_val_data (value : ValData) : ObjectVal :=
  {| val_data := vd_data value; val_type := default Byte (val_type_of_i32 (vd_type value)) |}.

Definition into_val (v : ObjectVal) : ValData :=
  {| vd_data := val_data v; vd_type := i32_of_val_type (val_type v) |}.

Record ObjectData := {
  last_updated : Z;
  entries : btree bytes ObjectVal;
  event : option ObjectEvent;
}.

(** The protobuf object; its metadata is left at its default by the conversions. *)
Record ObjData := {
  od_entries : btree bytes ValData;
  od_event : option ObjectEvent;
}.

Inductive ObjectError : Type :=
| CrdtError (msg : string)
| ObjSerializationError (msg : string)
| InvalidDataFormat (msg : string).

Module Obj.

Definition map_vals {A B} (f : A → B) (m : btree bytes A) : btree bytes B :=
  (λ kv, (kv.1, f kv.2)) <$> m.

Definition to_data (o : ObjectData) : ObjData :=
  {| od_entries := map_vals into_val (entries o); od_event := event o |}.

(** [ObjectData::from(ObjData)] at the time [now] in milliseconds. *)
Definition from_data (now : Z) (value : ObjData) : ObjectData :=
  {| last_updated := now; entries := map_vals from_val_data (od_entries value);
     event := od_event value |}.

Definition new (now : Z) : ObjectData :=
  {| last_updated := now; entries := []; event := None |}.

Section merge.
Context (am_merge : bytes → bytes → res ObjectError bytes).

(** The flag is called [v2_older] in the source; both callers pass [other_is_newer]. *)
Definition merge_data (v1 v2 : ObjectVal) (v2_older : bool) : res ObjectError ObjectVal :=
  match val_type v1 with
  | Byte => Ok (if v2_older then v2 else v1)
  | CrdtMap =>
      match val_type v2 with
      | Byte => Ok (if v2_older then v2 else v1)
      | CrdtMap =>
          res_bind (am_merge (val_data v1) (val_data v2)) (λ d,
            Ok {| val_data := d; val_type := CrdtMap |})
      end
  end.

(** The loop over the other copy's entries; an error stops it half-way. *)
Fixpoint merge_entries (newer : bool) (other : btree bytes ObjectVal)
    (mine : btree bytes ObjectVal) : res ObjectError unit * btree bytes ObjectVal :=
  match other with
  | [] => (Ok tt, mine)
  | (k, v2) :: other =>
      match bt_get k mine with
      | Some v1 =>
          match merge_data v1 v2 newer with
          | Ok v => merge_entries newer other (bt_insert k v mine)
          | Err e => (Err e, mine)
          | Panic s => (Panic s, mine)
          end
      | None =>
          if newer then merge_entries newer other (bt_insert k v2 mine)
          else merge_entries newer other mine
      end
  end.

Definition merge (other : ObjectData) : M ObjectData ObjectError unit := λ self,
  let other_is_newer := (last_updated self <? last_updated other)%Z in
  match merge_entries other_is_newer (entries other) (entries self) with
  | (Ok _, es) =>
      let take_event := other_is_newer ||
        (bool_decide (event self = None) && bool_decide (is_Some (event other))) in
      (Ok tt, {| last_updated := if other_is_newer then last_updated other
                                 else last_updated self;
                 entries := es;
                 event := if take_event then event other else event self |})
  | (Err e, es) =>
      (Err e, {| last_updated := last_updated self; entries := es; event := event self |})
  | (Panic s, es) =>
      (Panic s, {| last_updated := last_updated self; entries := es; event := event self |})
  end.
End merge.
End Obj.

(** ** Lemmas *)

Lemma bt_get_map_vals {A B} (f : A → B) k m :
  bt_get k (Obj.map_vals f m) = f <$> bt_get k m.
Proof.
  unfold Obj.map_vals. induction m as [|[k' v] m IH]; simpl; [done|].
  destruct (cmp k k'); [done|apply IH..].
Qed.

Lemma map_vals_id {A} (f : A → A) m : (∀ v, f v = v) → Obj.map_vals f m = m.
Proof.
  intros Hf. unfold Obj.map_vals. induction m as [|[k v] m IH]; simpl; [done|].
  rewrite Hf. f_equal. apply IH.
Qed.

Lemma val_roundtrip v : from_val_data (into_val v) = v.
Proof. destruct v as [d []]; done. Qed.

(** No key of the other copy clashes as two CRDT documents. *)
Definition no_crdt (es : btree bytes ObjectVal) : Prop := Forall (λ kv, val_type kv.2 = Byte) es.

Lemma merge_data_bytes am v1 v2 newer :
  val_type v2 = Byte → Obj.merge_data am v1 v2 newer = Ok (if newer then v2 else v1).
Proof. intros H. unfold Obj.merge_data. rewrite H. by destruct (val_type v1). Qed.

Lemma merge_entries_newer am other mine :
  bt_wf other → bt_wf mine → no_crdt other →
  ∃ es, Obj.merge_entries am true other mine = (Ok tt, es) ∧ bt_wf es ∧
  ∀ k, bt_get k es = match bt_get k other with Some v => Some v | None => bt_get k mine end.
Proof.
  intros Ho. revert mine. induction Ho as [|[k0 v0] other Ho IH Hall]; intros mine Hm Hc; simpl.
  { by exists mine. }
  inversion_clear Hc as [|?? Hb Hc']. simpl in Hb.
  assert (∃ es, Obj.merge_entries am true other (bt_insert k0 v0 mine) = (Ok tt, es) ∧ bt_wf es ∧
    ∀ k, bt_get k es = match bt_get k other with
                       | Some v => Some v | None => bt_get k (bt_insert k0 v0 mine) end)
    as (es & E & Hw & Hg) by (apply IH; auto with oprc).
  exists es. split; [|split; [done|]].
  - destruct (bt_get k0 mine); [by rewrite merge_data_bytes|done].
  - intros k. rewrite Hg. case_cmp k k0.
    + rewrite bt_get_insert_eq, bt_get_lt_None; [done|].
      eapply Forall_impl; [exact Hall|]. by intros [].
    + rewrite bt_get_insert_ne; [done|]. intros ->. by apply (cmp_irrefl k).
    + rewrite bt_get_insert_ne; [done|]. intros ->. by apply (cmp_irrefl k).
Qed.

Lemma merge_entries_older am other mine :
  bt_wf mine → no_crdt other → Obj.merge_entries am false other mine = (Ok tt, mine).
Proof.
  intros Hm. induction other as [|[k v] other IH]; intros Hc; simpl; [done|].
  inversion_clear Hc as [|?? Hb Hc']. simpl in Hb.
  destruct (bt_get k mine) as [v1|] eqn:E; [|by apply IH].
  rewrite merge_data_bytes by done. rewrite bt_insert_get by done. by apply IH.
Qed.

(** ** Theorems *)

(** An object converted to its protobuf form and back keeps its entries and its event
    configuration; only the timestamp is set anew. *)
Theorem object_proto_roundtrip now o :
  Obj.from_data now (Obj.to_data o)
  = {| last_updated := now; entries := entries o; event := event o |}.
Proof.
  unfold Obj.from_data, Obj.to_data. simpl. f_equal.
  rewrite <- (map_vals_id (λ v, from_val_data (into_val v)) (entries o)) at 2
    by apply val_roundtrip.
  unfold Obj.map_vals. by rewrite <- list_fmap_compose.
Qed.

(** Merging byte-valued objects: a newer copy overrides entry by entry and brings its
    own event configuration; an older or equally old copy changes no entry. *)
Theorem merge_last_writer am other self :
  bt_wf (entries self) → bt_wf (entries other) → no_crdt (entries other) →
  ∃ o, Obj.merge am other self = (Ok tt, o) ∧
  last_updated o = Z.max (last_updated self) (last_updated other) ∧
  (∀ k, bt_get k (entries o)
        = if (last_updated self <? last_updated other)%Z
          then match bt_get k (entries other) with
               | Some v => Some v | None => bt_get k (entries self) end
          else bt_get k (entries self)) ∧
  event o = (if (last_updated self <? last_updated other)%Z then event other
             else match event self with Some e => Some e | None => event other end).
Proof.
  intros Hs Ho Hc. unfold Obj.merge.
  destruct (Z.ltb_spec (last_updated self) (last_updated other)) as [Hlt|Hge].
  - destruct (merge_entries_newer am _ _ Ho Hs Hc) as (es & -> & _ & Hg).
    eexists. split; [done|]. simpl. split; [lia|]. by split.
  - rewrite merge_entries_older by done. eexists. split; [done|]. simpl.
    split; [lia|]. split; [done|].
    destruct (event self), (event other); done.
Qed.

(** Two copies of one object: the older has ["b"], the newer does not. *)
Definition demo_old : ObjectData :=
  {| last_updated := 1; event := None;
     entries := [(bs "a", {| val_data := bs "1"; val_type := Byte |});
                 (bs "b", {| val_data := bs "2"; val_type := Byte |})] |}.
Definition demo_new : ObjectData :=
  {| last_updated := 2; event := None;
     entries := [(bs "a", {| val_data := bs "3"; val_type := Byte |})] |}.

Lemma merge_last_writer_witness :
  ∃ o, Obj.merge (λ _ _, Err (CrdtError "none")) demo_new demo_old = (Ok tt, o) ∧
  bt_get (bs "b") (entries o) = Some {| val_data := bs "2"; val_type := Byte |}.
Proof.
  destruct (merge_last_writer (λ _ _, Err (CrdtError "none")) demo_new demo_old
    ltac:(repeat constructor) ltac:(repeat constructor) ltac:(repeat constructor))
    as (o & E & _ & Hg & _).
  exists o. split; [exact E|]. rewrite Hg. vm_compute. reflexivity.
Defined.

(** Merging is not symmetric: of the entries only the older copy has, the older copy
    keeps them when it merges the newer one and the newer copy never takes them. *)
Theorem merge_asymmetric am :
  ∃ x y, Obj.merge am demo_new demo_old = (Ok tt, x) ∧
         Obj.merge am demo_old demo_new = (Ok tt, y) ∧
         is_Some (bt_get (bs "b") (entries x)) ∧ bt_get (bs "b") (entries y) = None.
Proof. eexists _, _. split; [reflexivity|]. split; [reflexivity|]. by split. Qed.
