(* ===== verification/Shard.v ===== *)
(** * Shard state

    The state [ObjectUnifiedShard] works on ([shard/object_shard/mod.rs],
    [shard/config.rs], [shard/traits.rs]): the replication layer with the application
    storage it shares with the shard, the shard's metadata and options, its counters and
    the optional event dispatcher. The codecs of values (postcard) and of event
    configurations (prost) are parameters. *)

From stdpp Require Import base tactics list numbers option gmap sorting strings.
From S2P Require Import Prelude BTree Backend Memory Replication StorageKey GranularKey Events ObjectData.

Open Scope prog_scope.

(** [ShardError]; [StorageError] and [ReplicationError] convert into it. *)
Inductive OdgmError : Type :=
| ONoShardFound (id : Z)
| ONoShardsFound (ids : list Z)
| NoCollection (name : bytes)
| InvalidArgument (msg : string)
| UnknownError (msg : string)
| ZenohError (msg : string)
| RpcError (msg : string)
| Infallible.

Inductive ShardError : Type :=
| SStorageError (e : StorageError)
| SReplicationError (e : ReplicationError)
| SSerializationError (msg : string)
| ConfigurationError (msg : string)
| TransactionError (msg : string)
| NoShardsFound (ids : list Z)
| InvalidKey
| NotReady
| SNotLeader
| SOdgmError (e : OdgmError)
| InvalidMetadata
| DeserializationError
| VersionMismatch (expected actual : Z).

(** ** Codecs *)

Class Codec := {
  val_encode : ObjectVal → res string bytes;
  val_decode : bytes → option ObjectVal;
  event_encode : ObjectEvent → bytes;
  event_decode : bytes → option ObjectEvent;
}.

(** Serialising a value succeeds and can be read back. *)
Class CodecLaws `{Codec} :=
  codec_roundtrip v : ∃ b, val_encode v = Ok b ∧ val_decode b = Some v.

(** A concrete codec: the type as a leading byte. *)
Definition demo_codec : Codec := {|
  val_encode v := Ok ((match val_type v with Byte => Byte.x00 | CrdtMap => Byte.x01 end)
                      :: val_data v);
  val_decode b := match b with
                  | Byte.x00 :: d => Some {| val_data := d; val_type := Byte |}
                  | Byte.x01 :: d => Some {| val_data := d; val_type := CrdtMap |}
                  | _ => None
                  end;
  event_encode _ := bs "e";
  event_decode b := if bool_decide (b = bs "e") then Some demo_oe else None;
|}.

Lemma demo_codec_laws : @CodecLaws demo_codec.
Proof. intros [d []]; eexists; split; reflexivity. Defined.

(** ** State *)

Record ShardMetrics := {
  operations_count : Z;
  errors_count : Z;
  entry_reads_total : Z;
  entry_writes_total : Z;
  entry_deletes_total : Z;
}.

Module Metrics.
Definition new : ShardMetrics :=
  {| operations_count := 0; errors_count := 0; entry_reads_total := 0;
     entry_writes_total := 0; entry_deletes_total := 0 |}.
Definition inc_operations (m : ShardMetrics) : ShardMetrics :=
  {| operations_count := wrap64 (operations_count m + 1); errors_count := errors_count m;
     entry_reads_total := entry_reads_total m; entry_writes_total := entry_writes_total m;
     entry_deletes_total := entry_deletes_total m |}.
Definition inc_entry_reads (m : ShardMetrics) : ShardMetrics :=
  {| operations_count := operations_count m; errors_count := errors_count m;
     entry_reads_total := wrap64 (entry_reads_total m + 1);
     entry_writes_total := entry_writes_total m;
     entry_deletes_total := entry_deletes_total m |}.
Definition inc_entry_writes_by (n : Z) (m : ShardMetrics) : ShardMetrics :=
  {| operations_count := operations_count m; errors_count := errors_count m;
     entry_reads_total := entry_reads_total m;
     entry_writes_total := wrap64 (entry_writes_total m + n);
     entry_deletes_total := entry_deletes_total m |}.
Definition inc_entry_writes (m : ShardMetrics) : ShardMetrics := inc_entry_writes_by 1 m.
Definition inc_entry_deletes (m : ShardMetrics) : ShardMetrics :=
  {| operations_count := operations_count m; errors_count := errors_count m;
     entry_reads_total := entry_reads_total m;
     entry_writes_total := entry_writes_total m;
     entry_deletes_total := wrap64 (entry_deletes_total m + 1) |}.
End Metrics.

(** [ShardMetadata]. The invocation routes are only carried along, and the storage,
    replication and consistency configurations are unset wherever metadata is created;
    these fields are left out. *)
Record ShardMetadata := {
  sm_id : Z;
  sm_collection : bytes;
  sm_partition_id : Z;
  sm_owner : option Z;
  sm_primary : option Z;
  sm_replica : list Z;
  sm_replica_owner : list Z;
  sm_shard_type : bytes;
  sm_options : gmap bytes bytes;
}.

Record Shard (R : Type) := {
  sh_rep : R;
  sh_meta : ShardMetadata;
  sh_metrics : ShardMetrics;
  sh_dispatcher : option Dispatcher;
  sh_has_event_manager : bool;
  sh_prefetch_limit : nat;
  sh_now : Z;
}.
Arguments sh_rep {R} _.
Arguments sh_meta {R} _.
Arguments sh_metrics {R} _.
Arguments sh_dispatcher {R} _.
Arguments sh_has_event_manager {R} _.
Arguments sh_prefetch_limit {R} _.
Arguments sh_now {R} _.

(** [sanitize_config] *)
Definition sanitize_prefetch_limit (n : nat) : nat := Nat.max n 1.

Section shard.
Context {R : Type}.
Implicit Types s : Shard R.

Definition new_shard (rep : R) (meta : ShardMetadata) (d : option Dispatcher)
    (event_manager : bool) (prefetch_limit : nat) (now : Z) : Shard R :=
  {| sh_rep := rep; sh_meta := meta; sh_metrics := Metrics.new; sh_dispatcher := d;
     sh_has_event_manager := event_manager;
     sh_prefetch_limit := sanitize_prefetch_limit prefetch_limit; sh_now := now |}.

Definition set_rep (r : R) s : Shard R :=
  {| sh_rep := r; sh_meta := sh_meta s; sh_metrics := sh_metrics s;
     sh_dispatcher := sh_dispatcher s; sh_has_event_manager := sh_has_event_manager s;
     sh_prefetch_limit := sh_prefetch_limit s; sh_now := sh_now s |}.
Definition upd_metrics (f : ShardMetrics → ShardMetrics) s : Shard R :=
  {| sh_rep := sh_rep s; sh_meta := sh_meta s; sh_metrics := f (sh_metrics s);
     sh_dispatcher := sh_dispatcher s; sh_has_event_manager := sh_has_event_manager s;
     sh_prefetch_limit := sh_prefetch_limit s; sh_now := sh_now s |}.

(** [v2.try_send(ctx)] when there is a dispatcher; its result is ignored. *)
Definition try_emit (c : MutationContext) s : Shard R :=
  {| sh_rep := sh_rep s; sh_meta := sh_meta s; sh_metrics := sh_metrics s;
     sh_dispatcher := (λ d, (Dispatch.try_send c d).2) <$> sh_dispatcher s;
     sh_has_event_manager := sh_has_event_manager s;
     sh_prefetch_limit := sh_prefetch_limit s; sh_now := sh_now s |}.

Definition class_id s : bytes := sm_collection (sh_meta s).
Definition partition_id_u16 s : Z := sm_partition_id (sh_meta s).
Definition v2_mode s : bool := bool_decide (is_Some (sh_dispatcher s)).
Definition include_values s : bool :=
  bool_decide (sm_options (sh_meta s) !! bs "ws_event_include_values" = Some (bs "true")).

(** Calls of the storage and of the replication layer; requests carry node 0. *)
Definition app_storage {A} (m : M R StorageError A) : M (Shard R) ShardError A :=
  map_err SStorageError (zoom sh_rep set_rep m).

Context `{ReplicationLayer R}.

Definition replicate (o : Operation) : M (Shard R) ShardError ReplicationResponse := λ s,
  map_err SReplicationError
    (zoom sh_rep set_rep (replicate_write (from_operation (sh_now s) o 0))) s.

Definition write_op (key value : bytes) : Operation :=
  Write {| w_key := key; w_value := value; w_ttl := None; w_return_old := false |}.

(** The context of a mutation of [id] in this shard. *)
Definition mutation (id : bytes) (before after : Z) (changed : list ChangedKey) s :
    MutationContext :=
  MutationCtx.new id (class_id s) (partition_id_u16 s) before after changed.

(** The event configuration record of an object; any failure to read it means none. *)
Definition load_event_config `{Storage R} `{Codec} (id : bytes) :
    M (Shard R) ShardError (option ObjectEvent) := λ s,
  match zoom sh_rep set_rep (sto_get (string_object_event_config_key id)) s with
  | (Ok (Some v), s) => (Ok (event_decode v), s)
  | (Ok None, s) | (Err _, s) => (Ok None, s)
  | (Panic m, s) => (Panic m, s)
  end.
End shard.

(** ** Lemmas *)

Section lemmas.
Context {R : Type} `{StorageLaws R} `{!ReplicationLayer R} `{!ReplicationLaws R}.
Implicit Types s : Shard R.

Definition sh_contents s : store := contents (sh_rep s).
Definition sh_ok s : Prop := sto_inv (sh_rep s).

Lemma set_rep_same s : set_rep (sh_rep s) s = s.
Proof. by destruct s. Qed.

(** A read of the storage that leaves it as it is. *)
Lemma app_read {A} (m : M R StorageError A) s a :
  m (sh_rep s) = (Ok a, sh_rep s) → app_storage m s = (Ok a, s).
Proof. unfold app_storage, map_err, zoom. intros ->. by rewrite set_rep_same. Qed.

Lemma replicate_write_ok key value s :
  sh_ok s → ∃ r, sto_inv r ∧ contents r = bt_insert key value (sh_contents s) ∧
  ∃ resp, replicate (write_op key value) s = (Ok resp, set_rep r s).
Proof.
  intros Hs. unfold replicate, write_op.
  edestruct (law_write {| w_key := key; w_value := value; w_ttl := None; w_return_old := false |}
    (sh_now s) 0 (sh_rep s) Hs) as (r & E & Hr & Hc).
  exists r. split; [done|]. split; [done|]. eexists.
  unfold map_err, zoom. rewrite E. done.
Qed.

Lemma replicate_delete_ok key s :
  sh_ok s → ∃ r, sto_inv r ∧ contents r = bt_remove key (sh_contents s) ∧
  ∃ resp, replicate (Delete key) s = (Ok resp, set_rep r s).
Proof.
  intros Hs. unfold replicate.
  edestruct (law_write_delete key (sh_now s) 0 (sh_rep s) Hs) as (r & E & Hr & Hc).
  exists r. split; [done|]. split; [done|]. eexists.
  unfold map_err, zoom. rewrite E. done.
Qed.

Lemma replicate_batch_ok os d s :
  sh_ok s → ops_effect os (sh_contents s) = Some d →
  ∃ r, sto_inv r ∧ contents r = d ∧
  ∃ resp, replicate (Batch os) s = (Ok resp, set_rep r s).
Proof.
  intros Hs Hd. unfold replicate.
  edestruct (law_write_batch os (sh_now s) 0 (sh_rep s) d Hs Hd) as (r & E & Hr & Hc).
  exists r. split; [done|]. split; [done|]. eexists.
  unfold map_err, zoom. rewrite E. done.
Qed.

Lemma load_event_config_ok `{Codec} id s :
  sh_ok s →
  load_event_config id s
  = (Ok (bt_get (string_object_event_config_key id) (sh_contents s) ≫= event_decode), s).
Proof.
  intros Hs. unfold load_event_config, zoom. rewrite (law_get _ _ Hs). rewrite set_rep_same.
  fold (sh_contents s). by destruct (bt_get _ _).
Qed.
End lemmas.

(** ** A concrete shard: in memory, without replication, with an event dispatcher *)
Module Demo.
#[export] Instance mem_replication : ReplicationLayer MemoryStorage := no_replication.
#[export] Instance mem_replication_laws : ReplicationLaws MemoryStorage := no_replication_laws.
#[export] Existing Instance demo_codec.
#[export] Existing Instance demo_codec_laws.

Definition meta : ShardMetadata :=
  {| sm_id := 1; sm_collection := bs "cls"; sm_partition_id := 0; sm_owner := None;
     sm_primary := None; sm_replica := []; sm_replica_owner := [];
     sm_shard_type := []; sm_options := ∅ |}.
Definition shard : Shard MemoryStorage :=
  new_shard Memory.new meta (Some (Dispatch.new 8 true)) true 16 0.
Definition val (d : string) : ObjectVal := {| val_data := bs d; val_type := Byte |}.
End Demo.
