(* ===== verification/Metadata.v ===== *)
(** * The metadata manager

    [data-plane/oprc-odgm/src/metadata/mod.rs]: the collections of a cluster, the shards
    they are divided into and the shards of this node. A collection is created with one
    group of replica shards per partition, either as the request assigns them or, by
    default, with fresh identifiers placed round-robin on the members. The read and write
    locks are held for the whole call, so a call is one step on the state. *)

From stdpp Require Import base tactics list list_numbers numbers option gmap sorting strings.
From Stdlib Require Import Lia.
From S2P Require Import Prelude BTree Shard.

Set Default Proof Using "Type".
Open Scope prog_scope.

(** [ShardAssignment]: the shard identifier of the primary, the nodes of the replicas and
    the shard identifiers of the replicas of one partition. *)
Record ShardAssignment := {
  primary : option Z;
  replica : list Z;
  shard_ids : list Z;
}.

Record CreateCollectionRequest := {
  req_name : bytes;
  partition_count : Z;   (* i32 *)
  replica_count : Z;     (* i32 *)
  shard_assignments : list ShardAssignment;
  shard_type : bytes;
  req_options : gmap bytes bytes;
}.

Record CollectionMetadataState := {
  col_name : bytes;
  col_shards : list (list Z);   (* [ShardReplicaGroup] by partition *)
  col_seed : Z;
  col_replication : Z;
}.

(** [OprcMetaManager], with the value of its watch channel. *)
Record MetaManager := {
  collections : btree bytes CollectionMetadataState;
  shards : btree Z ShardMetadata;
  local_shards : btree Z ShardMetadata;
  node_id : Z;
  members : list Z;
  watch : Z;
}.

Module Meta.

Notation op := (M MetaManager OdgmError).
Notation R := (res OdgmError).

Definition new (node : Z) (ms : list Z) : MetaManager :=
  {| collections := []; shards := []; local_shards := []; node_id := node; members := ms;
     watch := 0 |}.

Definition set_collections c (m : MetaManager) : MetaManager :=
  {| collections := c; shards := shards m; local_shards := local_shards m;
     node_id := node_id m; members := members m; watch := watch m |}.
Definition set_shards s (m : MetaManager) : MetaManager :=
  {| collections := collections m; shards := s; local_shards := local_shards m;
     node_id := node_id m; members := members m; watch := watch m |}.
Definition set_local l (m : MetaManager) : MetaManager :=
  {| collections := collections m; shards := shards m; local_shards := l;
     node_id := node_id m; members := members m; watch := watch m |}.
Definition set_watch w (m : MetaManager) : MetaManager :=
  {| collections := collections m; shards := shards m; local_shards := local_shards m;
     node_id := node_id m; members := members m; watch := w |}.

Definition get_shard_ids (col : bytes) : op (option (list (list Z))) :=
  gets (λ m, col_shards <$> bt_get col (collections m)).

(** Shards owned by this node are copied to the local ones; none is removed. *)
Definition update_local_shards : op unit :=
  modify (λ m, set_local
    (foldl (λ l (s : ShardMetadata),
              if bool_decide (sm_owner s = Some (node_id m)) then bt_insert (sm_id s) s l
              else l) (local_shards m) (shards m).*2) m).

(** [Vec::with_capacity(n as usize)] of an [i32] *)
Definition with_capacity (n : Z) : R unit :=
  if (n <? 0)%Z then Panic "capacity overflow" else Ok tt.

(** [v[i % v.len()]] *)
Definition round_robin (v : list Z) (i : Z) : R Z :=
  if bool_decide (v = [])
  then Panic "attempt to calculate the remainder with a divisor of zero"
  else match v !! Z.to_nat (i mod Z.of_nat (length v)) with
       | Some x => Ok x
       | None => Panic "index out of bounds"
       end.

Section build.
(** The build's overflow checks. *)
Context (checks : bool).

(** [while replica.len() < replica_count] *)
Fixpoint replica_loop (ms : list Z) (n : nat) (j : Z) : R (list Z) :=
  match n with
  | O => Ok []
  | S n => res_bind (round_robin ms j) (λ x,
           res_bind (replica_loop ms n (j + 1)%Z) (λ xs, Ok (x :: xs)))
  end.

(** [for _r in 0..replica_count]: fresh identifiers and the counter after them. *)
Fixpoint id_loop (n : nat) (counter : Z) : R (list Z * Z) :=
  match n with
  | O => Ok ([], counter)
  | S n => res_bind (add_u64 checks counter 1) (λ next,
           res_bind (id_loop n next) (λ r, Ok (counter :: r.1, r.2)))
  end.

(** [for i in 0..partition_count] *)
Fixpoint assign_loop (ms : list Z) (replica_count : Z) (parts : list Z) (counter : Z) :
    R (list ShardAssignment) :=
  match parts with
  | [] => Ok []
  | i :: parts =>
      res_bind (with_capacity replica_count) (λ _,
      res_bind (replica_loop ms (Z.to_nat replica_count) i) (λ nodes,
      res_bind (id_loop (Z.to_nat replica_count) counter) (λ r,
      match r.1 with
      | [] => Panic "index out of bounds"
      | first :: _ =>
          res_bind (assign_loop ms replica_count parts r.2) (λ rest,
          Ok ({| primary := Some first; replica := nodes; shard_ids := r.1 |} :: rest))
      end)))
  end.

Definition last_shard_id (d : Z) (s : btree Z ShardMetadata) : Z :=
  default d (fst <$> bt_last s).

Definition generate_default_assignments (request : CreateCollectionRequest)
    (m : MetaManager) : R (list ShardAssignment) :=
  res_bind (with_capacity (partition_count request)) (λ _,
  res_bind (add_u64 checks (last_shard_id 0 (shards m)) 1) (λ counter,
  assign_loop (members m) (replica_count request) (seqZ 0 (partition_count request)) counter)).

(** The shard of replica [i] of a partition. *)
Definition shard_meta (request : CreateCollectionRequest) (partition_id : Z)
    (a : ShardAssignment) (ids : list Z) (owner id : Z) : ShardMetadata :=
  {| sm_id := id; sm_collection := req_name request;
     sm_partition_id := as_u16 partition_id; sm_owner := Some owner;
     sm_primary := primary a; sm_replica := ids; sm_replica_owner := replica a;
     sm_shard_type := shard_type request; sm_options := req_options request |}.

(** [for (i, shard_id) in replica_shard_ids.iter().enumerate()] *)
Fixpoint replica_shards (request : CreateCollectionRequest) (partition_id : Z)
    (a : ShardAssignment) (ids : list Z) (i : Z) (todo : list Z) : op unit :=
  match todo with
  | [] => ret tt
  | id :: todo =>
      let! owner := lift_res (round_robin (replica a) i) in
      modify (λ m, set_shards
        (bt_insert id (shard_meta request partition_id a ids owner id) (shards m)) m) ;;;
      replica_shards request partition_id a ids (i + 1)%Z todo
  end.

(** Identifiers for an assignment that has none: the largest one in use, for each. *)
Definition fill_ids (request : CreateCollectionRequest) (ids : list Z) : op (list Z) :=
  match ids with
  | [] => gets (λ m, (λ _, last_shard_id 1 (shards m)) <$> seqZ 0 (replica_count request))
  | _ => ret ids
  end.

(** [for partition_id in 0..partition_count] *)
Fixpoint partition_loop (request : CreateCollectionRequest)
    (assignments : list ShardAssignment) (parts : list Z) : op (list (list Z)) :=
  match parts with
  | [] => ret []
  | partition_id :: parts =>
      match assignments !! Z.to_nat partition_id with
      | None =>
          throw (InvalidArgument "invalid: shard assignments not match partition count")
      | Some a =>
          let! ids := fill_ids request (shard_ids a) in
          replica_shards request partition_id a ids 0 ids ;;;
          let! groups := partition_loop request assignments parts in
          ret (ids :: groups)
      end
  end.

Definition create_collection (request : CreateCollectionRequest) : op bytes :=
  let name := req_name request in
  let! exists_ := gets (λ m, bt_contains name (collections m)) in
  if exists_ then throw (InvalidArgument "collection already exist") else
  lift_res (with_capacity (partition_count request)) ;;;
  let! assignments :=
    match shard_assignments request with
    | [] => λ m, (generate_default_assignments request m, m)
    | assignments => ret assignments
    end in
  let! shard_groups :=
    partition_loop request assignments (seqZ 0 (partition_count request)) in
  modify (λ m, set_collections
    (bt_insert name {| col_name := name; col_shards := shard_groups; col_seed := 0;
                       col_replication := 1 |} (collections m)) m) ;;;
  update_local_shards ;;;
  let! num := gets watch in
  let! next := lift_res (add_u64 checks num 1) in
  modify (set_watch next) ;;;
  ret name.

End build.
End Meta.

Lemma bind_ret_res {S E A B} (a : A) (f : A → M S E B) s :
  bind (lift_res (Ok a)) f s = f a s.
Proof. done. Qed.

(** ** The default placement *)

(** The node of replica [k] of partition [i]. *)
Definition place (ms : list Z) (i : Z) : Z := ms !!! Z.to_nat (i mod Z.of_nat (length ms)).

(** The identifiers of the replicas of partition [i]. *)
Definition group (base rc i : Z) : list Z := seqZ (base + i * rc) rc.

Definition default_assignment (ms : list Z) (base rc i : Z) : ShardAssignment :=
  {| primary := Some (base + i * rc)%Z; replica := place ms <$> seqZ i rc;
     shard_ids := group base rc i |}.

Lemma round_robin_ok v i : v ≠ [] → Meta.round_robin v i = Ok (place v i).
Proof.
  intros Hv. unfold Meta.round_robin, place. rewrite bool_decide_false by done.
  assert (0 < Z.of_nat (length v))%Z by (destruct v; simpl; [done|lia]).
  destruct (lookup_lt_is_Some_2 v (Z.to_nat (i mod Z.of_nat (length v)))) as [x Hx].
  { pose proof (Z.mod_pos_bound i (Z.of_nat (length v))). lia. }
  by rewrite Hx, (list_lookup_total_correct _ _ _ Hx).
Qed.

Lemma replica_loop_ok ms n j : ms ≠ [] →
  Meta.replica_loop ms n j = Ok (place ms <$> seqZ j (Z.of_nat n)).
Proof.
  intros Hms. revert j. induction n as [|n IH]; intros j; [done|]. cbn [Meta.replica_loop].
  rewrite round_robin_ok, IH by done. simpl.
  rewrite (seqZ_cons j (Z.of_nat (S n))) by lia. simpl. do 4 f_equal. lia.
Qed.

Lemma id_loop_ok checks n c : (0 ≤ c)%Z → (c + Z.of_nat n ≤ u64_max)%Z →
  Meta.id_loop checks n c = Ok (seqZ c (Z.of_nat n), (c + Z.of_nat n)%Z).
Proof.
  revert c. induction n as [|n IH]; intros c Hc Hb.
  { simpl. by rewrite Z.add_0_r. }
  cbn [Meta.id_loop]. unfold add_u64. rewrite (proj2 (Z.leb_le _ _)) by lia. simpl.
  rewrite IH by lia. simpl. rewrite (seqZ_cons c (Z.of_nat (S n))) by lia.
  do 2 f_equal; [|lia]. do 2 f_equal; lia.
Qed.

Lemma assign_loop_ok checks ms rc n i base :
  ms ≠ [] → (0 < rc)%Z → (0 ≤ base)%Z → (0 ≤ i)%Z →
  (base + (i + Z.of_nat n) * rc ≤ u64_max)%Z →
  Meta.assign_loop checks ms rc (seqZ i (Z.of_nat n)) (base + i * rc)
  = Ok (default_assignment ms base rc <$> seqZ i (Z.of_nat n)).
Proof.
  intros Hms Hrc Hbase. revert i. induction n as [|n IH]; intros i Hi Hb; [done|].
  rewrite (seqZ_cons i) by lia. cbn [Meta.assign_loop]. unfold Meta.with_capacity.
  rewrite (proj2 (Z.ltb_ge _ _)) by lia. cbn [res_bind].
  rewrite replica_loop_ok by done. cbn [res_bind].
  rewrite id_loop_ok by (rewrite ?Z2Nat.id by lia; nia). cbn [res_bind fst snd].
  rewrite Z2Nat.id by lia. rewrite (seqZ_cons (base + i * rc) rc) at 1 by lia.
  replace (base + i * rc + rc)%Z with (base + Z.succ i * rc)%Z by lia.
  replace (Z.pred (Z.of_nat (S n))) with (Z.of_nat n) by lia.
  rewrite IH by lia. cbn [res_bind]. by rewrite fmap_cons.
Qed.

(** ** The shards of a collection *)
Section create.
Context (request : CreateCollectionRequest) (ms : list Z) (base : Z).
Let rc := replica_count request.
Let pc := partition_count request.

(** The metadata of the shard number [c] of the collection. *)
Definition nth_shard (c : Z) : ShardMetadata :=
  Meta.shard_meta request (c / rc) (default_assignment ms base rc (c / rc))
    (group base rc (c / rc)) (place ms (c / rc + c mod rc)) (base + c).

(** The shards after the first [c] were added to [s0]. *)
Definition filled (s0 : btree Z ShardMetadata) (c : Z) (s : btree Z ShardMetadata) : Prop :=
  bt_wf s ∧ ∀ id, bt_get id s = if bool_decide (base ≤ id < base + c)%Z
                                then Some (nth_shard (id - base)) else bt_get id s0.

Lemma filled_step s0 c s : (0 ≤ c)%Z → filled s0 c s →
  filled s0 (c + 1) (bt_insert (base + c)%Z (nth_shard c) s).
Proof.
  intros Hc [Hwf Hget]. split; [by apply bt_insert_wf|]. intros id.
  destruct (decide (id = base + c)%Z) as [->|Hne].
  - rewrite bt_get_insert_eq, bool_decide_true by lia. do 2 f_equal. lia.
  - rewrite bt_get_insert_ne, Hget by done. do 2 case_bool_decide; lia || done.
Qed.

Lemma place_replica i k : (0 ≤ k < rc)%Z →
  place (place ms <$> seqZ i rc) k = place ms (i + k).
Proof.
  intros Hk. unfold place at 1. rewrite length_fmap, length_seqZ, Z2Nat.id by lia.
  rewrite Z.mod_small by lia. apply list_lookup_total_correct.
  rewrite list_lookup_fmap, lookup_seqZ_lt by lia. simpl. do 2 f_equal. lia.
Qed.

Lemma nth_shard_at i k : (0 ≤ k < rc)%Z →
  nth_shard (i * rc + k)
  = Meta.shard_meta request i (default_assignment ms base rc i) (group base rc i)
      (place ms (i + k)) (base + i * rc + k).
Proof.
  intros Hk. unfold nth_shard.
  assert ((i * rc + k) / rc = i)%Z as ->
    by (rewrite Z.add_comm, Z.div_add, Z.div_small by lia; lia).
  assert ((i * rc + k) mod rc = k)%Z as ->
    by (rewrite Z.add_comm, Z.mod_add, Z.mod_small by lia; lia).
  f_equal. lia.
Qed.

Lemma replica_shards_ok s0 n i k m :
  (0 ≤ i)%Z → (0 ≤ k)%Z → (k + Z.of_nat n = rc)%Z →
  filled s0 (i * rc + k) (shards m) → ∃ s',
  Meta.replica_shards request i (default_assignment ms base rc i) (group base rc i) k
    (seqZ (base + i * rc + k) (Z.of_nat n)) m = (Ok tt, Meta.set_shards s' m) ∧
  filled s0 ((i + 1) * rc) s'.
Proof.
  intros Hi. revert k m. induction n as [|n IH]; intros k m Hk Hn Hf.
  { exists (shards m). split; [by destruct m|].
    replace ((i + 1) * rc)%Z with (i * rc + k)%Z by lia. done. }
  rewrite (seqZ_cons _ (Z.of_nat (S n))) by lia. cbn [Meta.replica_shards].
  rewrite round_robin_ok.
  2:{ simpl. rewrite (seqZ_cons i rc) by lia. done. }
  cbn [replica default_assignment]. rewrite place_replica by lia.
  rewrite bind_ret_res, bind_modify.
  rewrite <- nth_shard_at by lia.
  destruct (IH (k + 1)%Z (Meta.set_shards
    (bt_insert (base + i * rc + k)%Z (nth_shard (i * rc + k)) (shards m)) m)) as (s' & E & Hf');
    [lia|lia| |].
  - replace (i * rc + (k + 1))%Z with (i * rc + k + 1)%Z by lia.
    replace (base + i * rc + k)%Z with (base + (i * rc + k))%Z by lia.
    apply filled_step; [nia|done].
  - exists s'. split; [|done].
    replace (Z.pred (Z.of_nat (S n))) with (Z.of_nat n) by lia.
    replace (Z.succ (base + i * rc + k)) with (base + i * rc + (k + 1))%Z by lia.
    by rewrite E.
Qed.

Lemma partition_loop_ok s0 n i m : (0 < rc)%Z → (0 ≤ i)%Z → (i + Z.of_nat n = pc)%Z →
  filled s0 (i * rc) (shards m) → ∃ s',
  Meta.partition_loop request (default_assignment ms base rc <$> seqZ 0 pc)
    (seqZ i (Z.of_nat n)) m
  = (Ok (group base rc <$> seqZ i (Z.of_nat n)), Meta.set_shards s' m) ∧
  filled s0 (pc * rc) s'.
Proof.
  intros Hrc. revert i m. induction n as [|n IH]; intros i m Hi Hn Hf.
  { exists (shards m). replace pc with i by lia. split; [by destruct m|done]. }
  rewrite (seqZ_cons i) by lia. cbn [Meta.partition_loop].
  rewrite list_lookup_fmap, lookup_seqZ_lt by lia. rewrite Z2Nat.id by lia.
  rewrite Z.add_0_l. cbn [fmap option_fmap option_map].
  destruct (replica_shards_ok s0 (Z.to_nat rc) i 0 m) as (s1 & E1 & F1);
    [lia|lia|lia|by rewrite Z.add_0_r|].
  rewrite Z.add_0_r, Z2Nat.id in E1 by lia.
  destruct (IH (i + 1)%Z (Meta.set_shards s1 m)) as (s2 & E2 & F2); [lia|lia|done|].
  exists s2. split; [|done].
  assert (Meta.fill_ids request (shard_ids (default_assignment ms base rc i)) m
          = (Ok (group base rc i), m)) as Efill.
  { simpl. unfold group. by rewrite (seqZ_cons (base + i * rc) rc) by lia. }
  rewrite (bind_ok _ _ _ _ _ Efill). unfold group at 2. rewrite (bind_ok _ _ _ _ _ E1).
  replace (Z.pred (Z.of_nat (S n))) with (Z.of_nat n) by lia.
  replace (Z.succ i) with (i + 1)%Z by lia.
  rewrite (bind_ok _ _ _ _ _ E2). by rewrite fmap_cons.
Qed.
End create.

(** ** The state of the manager *)

Record meta_wf (m : MetaManager) : Prop := {
  mw_shards : bt_wf (shards m);
  mw_local : bt_wf (local_shards m);
  mw_keyed id s : bt_get id (shards m) = Some s → sm_id s = id ∧ (0 ≤ id)%Z;
  mw_local_keyed id s : bt_get id (local_shards m) = Some s →
    sm_id s = id ∧ is_Some (bt_get id (shards m));
}.

Definition first_free (m : MetaManager) : Z := (Meta.last_shard_id 0 (shards m) + 1)%Z.

Lemma first_free_pos m : meta_wf m → (0 < first_free m)%Z.
Proof.
  intros [Hw _ Hk _]. unfold first_free, Meta.last_shard_id.
  destruct (bt_last (shards m)) as [[k s]|] eqn:E; simpl; [|lia].
  apply bt_last_get, Hk in E; [lia|done].
Qed.

Lemma first_free_ok checks m : (first_free m ≤ u64_max)%Z →
  add_u64 (E:=OdgmError) checks (Meta.last_shard_id 0 (shards m)) 1 = Ok (first_free m).
Proof. unfold first_free, add_u64. intros. by rewrite (proj2 (Z.leb_le _ _)) by lia. Qed.

Lemma first_free_fresh m id : meta_wf m → (first_free m ≤ id)%Z → bt_get id (shards m) = None.
Proof.
  intros [Hw _ _ _] Hid. destruct (bt_get id (shards m)) as [s|] eqn:E; [|done]. exfalso.
  apply bt_get_elem in E; [|done]. revert Hid. unfold first_free, Meta.last_shard_id.
  destruct (bt_last (shards m)) as [[k s']|] eqn:El; simpl.
  - pose proof (bt_last_max _ _ _ _ _ Hw El E) as Hle. unfold leb, cmp in Hle. simpl in Hle.
    destruct (Z.compare_spec id k); lia || done.
  - apply last_None in El. rewrite El in E. by apply not_elem_of_nil in E.
Qed.

(** The local shards after [update_local_shards]. *)
Definition local_get (node : Z) (s l : btree Z ShardMetadata) (id : Z) : option ShardMetadata :=
  match bt_get id s with
  | Some sm => if bool_decide (sm_owner sm = Some node) then Some sm else bt_get id l
  | None => bt_get id l
  end.

Lemma local_fold node (s l : btree Z ShardMetadata) :
  bt_wf s → bt_wf l → Forall (λ ks, sm_id ks.2 = ks.1) s →
  let l' := foldl (λ l (s : ShardMetadata),
    if bool_decide (sm_owner s = Some node) then bt_insert (sm_id s) s l else l) l s.*2 in
  bt_wf l' ∧ ∀ id, bt_get id l' = local_get node s l id.
Proof.
  intros Hs. revert l. induction Hs as [|[k sm] s Hs IH Hall]; intros l Hl Hk; [done|].
  apply Forall_cons in Hk as [Hid Hk]. simpl in Hid. cbn [fmap list_fmap snd foldl].
  set (l1 := if bool_decide _ then _ else _).
  assert (bt_wf l1) as Hl1 by (unfold l1; case_bool_decide; [by apply bt_insert_wf|done]).
  destruct (IH l1 Hl1 Hk) as [Hwf Hget]. split; [done|]. intros id. rewrite Hget.
  unfold local_get. simpl. destruct (decide (id = k)) as [->|Hne].
  - rewrite cmp_refl, bt_get_lt_None by done. unfold l1. case_bool_decide; [|done].
    by rewrite Hid, bt_get_insert_eq.
  - destruct (cmp id k) eqn:E; [by apply cmp_eq in E|..];
      (destruct (bt_get id s) as [sm'|]; [case_bool_decide; [done|]|];
       (unfold l1; case_bool_decide; [by rewrite bt_get_insert_ne by congruence|done])).
Qed.

Lemma keyed_Forall m : meta_wf m → Forall (λ ks, sm_id ks.2 = ks.1) (shards m).
Proof.
  intros [Hw _ Hk _]. apply Forall_forall. intros [k s] Hin. apply bt_get_elem in Hin; [|done].
  by apply Hk in Hin as [? _].
Qed.

(** A request the manager places by itself. *)
Record default_request (request : CreateCollectionRequest) (m : MetaManager) : Prop := {
  dr_auto : shard_assignments request = [];
  dr_new : bt_get (req_name request) (collections m) = None;
  dr_members : members m ≠ [];
  dr_partitions : (0 ≤ partition_count request)%Z;
  dr_replicas : (0 < replica_count request)%Z;
  dr_room : (first_free m + partition_count request * replica_count request ≤ u64_max)%Z;
  dr_watch : (watch m < u64_max)%Z;
}.

Lemma assignments_ok checks request m : meta_wf m → default_request request m →
  Meta.generate_default_assignments checks request m
  = Ok (default_assignment (members m) (first_free m) (replica_count request)
          <$> seqZ 0 (partition_count request)).
Proof.
  intros W []. pose proof (first_free_pos m W). unfold Meta.generate_default_assignments,
    Meta.with_capacity. rewrite (proj2 (Z.ltb_ge _ _)) by lia. cbn [res_bind].
  rewrite first_free_ok by nia. cbn [res_bind].
  pose proof (assign_loop_ok checks (members m) (replica_count request)
    (Z.to_nat (partition_count request)) 0 (first_free m)) as E.
  rewrite Z2Nat.id, Z.mul_0_l, Z.add_0_r in E by lia. apply E; try done; lia.
Qed.

Lemma filled_0 request ms base (s : btree Z ShardMetadata) : bt_wf s → filled request ms base s 0 s.
Proof. intros. split; [done|]. intros id. rewrite bool_decide_false by lia. done. Qed.

(** What creating a collection does to the state: the collection is registered with one
    group of fresh identifiers per partition, the shards with these identifiers are added
    and no other shard changes, and the shards of this node become local. *)
Record created (request : CreateCollectionRequest) (m m' : MetaManager) : Prop := {
  cr_collections :
    collections m' = bt_insert (req_name request)
      {| col_name := req_name request;
         col_shards := group (first_free m) (replica_count request)
                         <$> seqZ 0 (partition_count request);
         col_seed := 0; col_replication := 1 |} (collections m);
  cr_shards id :
    bt_get id (shards m')
    = if bool_decide (first_free m ≤ id <
                      first_free m + partition_count request * replica_count request)%Z
      then Some (nth_shard request (members m) (first_free m) (id - first_free m))
      else bt_get id (shards m);
  cr_fresh id : (first_free m ≤ id)%Z → bt_get id (shards m) = None;
  cr_local id :
    bt_get id (local_shards m') = local_get (node_id m) (shards m') (local_shards m) id;
  cr_watch : watch m' = (watch m + 1)%Z;
  cr_same : node_id m' = node_id m ∧ members m' = members m;
}.

Lemma create_ok checks request m : meta_wf m → default_request request m → ∃ m',
  Meta.create_collection checks request m = (Ok (req_name request), m') ∧ meta_wf m' ∧
  created request m m'.
Proof.
  intros W D. pose proof (assignments_ok checks request m W D) as Ha.
  destruct D as [D1 D2 D3 D4 D5 D6 D7]. pose proof (first_free_pos m W) as Hpos.
  destruct (partition_loop_ok request (members m) (first_free m) (shards m)
    (Z.to_nat (partition_count request)) 0 m) as (s' & E & Hwf & Hget);
    [done|done|lia|by apply filled_0, W|].
  rewrite Z2Nat.id in E by lia.
  assert (Forall (λ ks, sm_id ks.2 = ks.1) s') as Hk.
  { apply Forall_forall. intros [k sm] Hin. apply bt_get_elem in Hin; [|done].
    rewrite Hget in Hin. case_bool_decide; [simplify_eq/=; lia|].
    by apply (mw_keyed m W) in Hin as [? _]. }
  destruct (local_fold (node_id m) s' (local_shards m) Hwf (mw_local m W) Hk) as [Hl Hlg].
  eexists. split; [|split].
  - unfold Meta.create_collection. rewrite bind_gets. unfold bt_contains. rewrite D2, D1.
    rewrite bool_decide_false by (by intros []). unfold Meta.with_capacity.
    rewrite (proj2 (Z.ltb_ge _ _)) by lia. rewrite bind_ret_res.
    unfold bind at 1. rewrite Ha. rewrite (bind_ok _ _ _ _ _ E), bind_modify.
    unfold Meta.update_local_shards. rewrite bind_modify, bind_gets.
    unfold add_u64. simpl. rewrite (proj2 (Z.leb_le _ _)) by lia. done.
  - split; [done|done| |]; simpl; intros id sm.
    + rewrite Hget. case_bool_decide; [|apply W]. intros [= <-]. simpl. lia.
    + rewrite Hlg. unfold local_get.
      destruct (bt_get id s') as [sm'|] eqn:Es.
      * case_bool_decide; [|by intros [? _]%(mw_local_keyed m W)]. intros [= <-].
        apply bt_get_elem in Es; [|done]. rewrite Forall_forall in Hk.
        split; [by apply (Hk (id, sm'))|done].
      * intros [? Hs]%(mw_local_keyed m W). rewrite Hget in Es.
        case_bool_decide; [done|]. rewrite Es in Hs. by apply is_Some_None in Hs.
  - split; simpl; try done. intros. by apply first_free_fresh.
Qed.

(** *** Theorems *)

(** Creating a collection without explicit assignments succeeds for every positive replica
    count as long as identifiers remain, keeps the state well formed, and does exactly
    what [created] says: fresh consecutive identifiers, the replicas of partition [i] on
    the members [i], [i+1], ... in rotation, other shards and collections untouched. *)
Theorem create_collection_places checks request m :
  meta_wf m → default_request request m → ∃ m',
  Meta.create_collection checks request m = (Ok (req_name request), m') ∧ meta_wf m' ∧
  created request m m'.
Proof. apply create_ok. Qed.

Lemma mod_inj n x y : (0 < n)%Z → (Z.abs (x - y) < n)%Z → (x mod n = y mod n)%Z → x = y.
Proof.
  intros Hn Hd He. pose proof (Z.div_mod x n ltac:(lia)) as Ex.
  pose proof (Z.div_mod y n ltac:(lia)) as Ey.
  assert (x - y = n * (x / n - y / n))%Z as E by lia.
  destruct (Z.eq_dec (x / n)%Z (y / n)%Z); [nia|].
  assert (n ≤ Z.abs (n * (x / n - y / n)))%Z by (rewrite Z.abs_mul; nia). lia.
Qed.

(** Replicas placed in rotation are on different nodes exactly when there are enough. *)
Lemma place_NoDup ms i rc : NoDup ms → ms ≠ [] → (0 ≤ rc)%Z →
  NoDup (place ms <$> seqZ i rc) ↔ (rc ≤ Z.of_nat (length ms))%Z.
Proof.
  intros Hms Hne Hrc. set (n := Z.of_nat (length ms)).
  assert (0 < n)%Z as Hn by (unfold n; destruct ms; simpl; [done|lia]).
  split.
  - intros Hnd. destruct (Z.le_gt_cases rc n) as [|Hgt]; [done|]. exfalso.
    assert (∀ k, (0 ≤ k < rc)%Z →
      (place ms <$> seqZ i rc) !! Z.to_nat k = Some (place ms (i + k))) as Hl.
    { intros k Hk. rewrite list_lookup_fmap, lookup_seqZ_lt, Z2Nat.id by lia. done. }
    assert (place ms (i + 0) = place ms (i + n)) as He.
    { unfold place. fold n. replace (i + n)%Z with (i + 0 + 1 * n)%Z by lia.
      by rewrite Z.mod_add by lia. }
    pose proof (Hl 0%Z ltac:(lia)) as L0. pose proof (Hl n ltac:(lia)) as Ln.
    rewrite He in L0. pose proof (NoDup_lookup _ _ _ _ Hnd L0 Ln). lia.
  - intros Hle. apply NoDup_fmap_2_strong; [|apply NoDup_seqZ].
    intros x y Hx%elem_of_seqZ Hy%elem_of_seqZ He. unfold place in He. fold n in He.
    apply (mod_inj n); [done|lia|].
    pose proof (Z.mod_pos_bound x n Hn) as Bx. pose proof (Z.mod_pos_bound y n Hn) as By.
    assert (∀ z, (0 ≤ z < n)%Z → ms !! Z.to_nat z = Some (ms !!! Z.to_nat z)) as Hl.
    { intros z Hz. apply list_lookup_lookup_total_lt. unfold n in Hz. lia. }
    pose proof (Hl _ Bx) as Lx. rewrite He in Lx.
    pose proof (NoDup_lookup _ _ _ _ Hms Lx (Hl _ By)). lia.
Qed.

(** The nodes that own the shards of a partition. *)
Definition owners (m : MetaManager) (ids : list Z) : list (option Z) :=
  (λ id, bt_get id (shards m) ≫= sm_owner) <$> ids.

Lemma created_owners request m m' i : default_request request m → created request m m' →
  (0 ≤ i < partition_count request)%Z →
  owners m' (group (first_free m) (replica_count request) i)
  = Some <$> (place (members m) <$> seqZ i (replica_count request)).
Proof.
  intros D C Hi. unfold owners, group. apply list_eq. intros k.
  rewrite !list_lookup_fmap. pose proof (dr_replicas _ _ D) as Hrc.
  destruct (decide (Z.of_nat k < replica_count request)%Z) as [Hk|Hk].
  - rewrite !lookup_seqZ_lt by lia. simpl. rewrite (cr_shards _ _ _ C).
    rewrite bool_decide_true by nia. cbn [mbind option_bind].
    replace (first_free m + i * replica_count request + Z.of_nat k - first_free m)%Z
      with (i * replica_count request + Z.of_nat k)%Z by lia.
    rewrite nth_shard_at by lia. done.
  - by rewrite !lookup_seqZ_ge by lia.
Qed.

(** Fault tolerance of the default placement: every replica of every partition of a new
    collection is owned by a member, and the replicas of a partition are on pairwise
    different nodes exactly when the cluster has at least as many members as replicas were
    asked for. *)
Theorem replicas_on_distinct_nodes checks request m i :
  meta_wf m → default_request request m → NoDup (members m) →
  (0 ≤ i < partition_count request)%Z → ∃ m',
  Meta.create_collection checks request m = (Ok (req_name request), m') ∧
  let own := owners m' (group (first_free m) (replica_count request) i) in
  Forall (λ o, ∃ n, o = Some n ∧ n ∈ members m) own ∧
  (NoDup own ↔ (replica_count request ≤ Z.of_nat (length (members m)))%Z).
Proof.
  intros W D Hnd Hi. destruct (create_ok checks request m W D) as (m' & E & _ & C).
  exists m'. split; [done|]. rewrite (created_owners request m m' i D C Hi). split.
  - rewrite !Forall_fmap. apply Forall_forall. intros j _. exists (place (members m) j).
    split; [done|]. apply list_elem_of_lookup_total_2.
    assert (0 < Z.of_nat (length (members m)))%Z
      by (pose proof (dr_members _ _ D); destruct (members m); simpl; [done|lia]).
    pose proof (Z.mod_pos_bound j (Z.of_nat (length (members m)))). lia.
  - rewrite <- (place_NoDup (members m) i); [|done|apply D|pose proof (dr_replicas _ _ D); lia].
    split; [apply NoDup_fmap_1|apply NoDup_fmap_2, Some_inj].
Qed.

Lemma assignments_panic checks request m :
  (0 < partition_count request)%Z → (first_free m ≤ u64_max)%Z →
  ¬ (members m ≠ [] ∧ 0 < replica_count request)%Z → ∃ msg,
  Meta.generate_default_assignments checks request m = Panic msg.
Proof.
  intros Hpc Hroom Hd. unfold Meta.generate_default_assignments, Meta.with_capacity.
  rewrite (proj2 (Z.ltb_ge _ _)) by lia. cbn [res_bind].
  rewrite first_free_ok by lia. cbn [res_bind].
  rewrite (seqZ_cons 0) by lia. cbn [Meta.assign_loop]. unfold Meta.with_capacity.
  destruct (Z.ltb_spec (replica_count request) 0); [by eexists|]. cbn [res_bind].
  destruct (Z.to_nat (replica_count request)) as [|n] eqn:En; [by eexists|].
  assert (members m = []) as -> by (destruct (decide (members m = [])); [done|];
    exfalso; apply Hd; split; [done|lia]).
  by eexists.
Qed.

Lemma create_fails checks request m :
  shard_assignments request = [] → (0 < partition_count request)%Z →
  (first_free m ≤ u64_max)%Z →
  ¬ (bt_get (req_name request) (collections m) = None ∧ members m ≠ [] ∧
     0 < replica_count request)%Z → ∃ e,
  Meta.create_collection checks request m = (e, m) ∧ ∀ n, e ≠ Ok n.
Proof.
  intros Ha Hpc Hroom Hd. unfold Meta.create_collection. rewrite bind_gets. unfold bt_contains.
  case_bool_decide as Hex; [by eexists|].
  assert (bt_get (req_name request) (collections m) = None) as Hnew
    by (destruct (bt_get _ (collections m)); [exfalso; eauto|done]).
  unfold Meta.with_capacity. rewrite (proj2 (Z.ltb_ge _ _)), bind_ret_res by lia.
  rewrite Ha. destruct (assignments_panic checks request m) as [msg E]; [done|done|tauto|].
  unfold bind at 1. rewrite E. by eexists.
Qed.

(** When the manager places the shards of at least one partition itself, it succeeds exactly
    for a new name, a cluster with members and a positive replica count; otherwise the
    call fails or panics and the state is as before. *)
Theorem default_creation_iff checks request m :
  meta_wf m → shard_assignments request = [] → (0 < partition_count request)%Z →
  (first_free m + partition_count request * Z.max 0 (replica_count request) ≤ u64_max)%Z →
  (watch m < u64_max)%Z →
  let r := Meta.create_collection checks request m in
  if decide (bt_get (req_name request) (collections m) = None ∧ members m ≠ [] ∧
             0 < replica_count request)%Z
  then r.1 = Ok (req_name request) else (∀ n, r.1 ≠ Ok n) ∧ r.2 = m.
Proof.
  intros W Ha Hpc Hroom Hw. case_decide as Hd.
  - destruct Hd as (Hn & Hm & Hrc). destruct (create_ok checks request m W) as (m' & E & _).
    { split; try done; lia. }
    by rewrite E.
  - destruct (create_fails checks request m) as (e & -> & He); [done..|nia|done|done].
Qed.

(** ** Assignments given with the request *)

(** A request that assigns fewer partitions than it asks for is rejected, and no collection
    is registered, but the shards of the partitions it does assign stay. *)
Theorem short_assignments_leave_shards checks request a m :
  meta_wf m → bt_get (req_name request) (collections m) = None →
  shard_assignments request = [a] → (1 < partition_count request)%Z →
  (∃ id, shard_ids a = [id]) → replica a ≠ [] →
  let r := Meta.create_collection checks request m in
  r.1 = Err (InvalidArgument "invalid: shard assignments not match partition count") ∧
  collections r.2 = collections m ∧
  ∀ id, shard_ids a = [id] →
    shards r.2 = bt_insert id (Meta.shard_meta request 0 a [id] (place (replica a) 0) id)
                   (shards m).
Proof.
  intros W Hn Ha Hpc [id Hid] Hr. unfold Meta.create_collection. rewrite bind_gets.
  unfold bt_contains. rewrite Hn, bool_decide_false by (by intros []).
  unfold Meta.with_capacity. rewrite (proj2 (Z.ltb_ge _ _)), bind_ret_res, Ha by lia.
  rewrite bind_ret, (seqZ_cons 0), (seqZ_cons (Z.succ 0)) by lia. cbn [Meta.partition_loop].
  simpl. rewrite Hid. unfold bind; simpl. rewrite round_robin_ok by done. simpl.
  split; [done|]. split; [done|]. by intros ? [= <-].
Qed.

(** An assignment without shard identifiers is given the largest identifier in use: the
    shard that has it, of whatever collection, is replaced. *)
Theorem missing_ids_take_over checks request a k old m :
  meta_wf m → bt_get (req_name request) (collections m) = None →
  shard_assignments request = [a] → partition_count request = 1%Z →
  replica_count request = 1%Z → shard_ids a = [] → replica a ≠ [] →
  bt_last (shards m) = Some (k, old) → (watch m < u64_max)%Z →
  let r := Meta.create_collection checks request m in
  r.1 = Ok (req_name request) ∧
  bt_get k (shards m) = Some old ∧
  bt_get k (shards r.2) = Some (Meta.shard_meta request 0 a [k] (place (replica a) 0) k).
Proof.
  intros W Hn Ha Hpc Hrc Hids Hr Hlast Hw. unfold Meta.create_collection. rewrite bind_gets.
  unfold bt_contains. rewrite Hn, bool_decide_false by (by intros []).
  assert (Meta.fill_ids request (shard_ids a) m = (Ok [k], m)) as Ef.
  { rewrite Hids. unfold Meta.fill_ids, gets, Meta.last_shard_id. by rewrite Hrc, Hlast. }
  assert (Meta.partition_loop request [a] [0%Z] m
    = (Ok [[k]], Meta.set_shards (bt_insert k
         (Meta.shard_meta request 0 a [k] (place (replica a) 0) k) (shards m)) m)) as Ep.
  { cbn [Meta.partition_loop]. change ([a] !! Z.to_nat 0) with (Some a). cbn iota.
    rewrite (bind_ok _ _ _ _ _ Ef).
    unfold bind. simpl. by rewrite round_robin_ok by done. }
  rewrite Hpc, Ha. unfold Meta.with_capacity. simpl. rewrite bind_ret_res, bind_ret.
  change (seqZ 0 1) with [0%Z]. rewrite (bind_ok _ _ _ _ _ Ep). unfold bind. simpl.
  unfold add_u64. rewrite (proj2 (Z.leb_le _ _)) by lia. simpl.
  split; [done|]. split; [by apply bt_last_get; [apply W|]|]. apply bt_get_insert_eq.
Qed.

(** ** A cluster of three nodes, seen from node 1 *)
Module DemoMeta.
Definition manager : MetaManager := Meta.new 1 [1; 2; 3]%Z.

Definition request : CreateCollectionRequest :=
  {| req_name := bs "sensors"; partition_count := 3; replica_count := 2;
     shard_assignments := []; shard_type := bs "raft"; req_options := ∅ |}.

Lemma manager_wf : meta_wf manager.
Proof. split; try done; constructor. Qed.

Lemma request_default : default_request request manager.
Proof. by split. Qed.

Lemma create_collection_places_witness : ∃ m',
  Meta.create_collection true request manager = (Ok (bs "sensors"), m') ∧ meta_wf m' ∧
  created request manager m'.
Proof. exact (create_collection_places true request manager manager_wf request_default). Defined.

Lemma replicas_on_distinct_nodes_witness : ∃ m',
  Meta.create_collection true request manager = (Ok (bs "sensors"), m') ∧
  let own := owners m' [5; 6]%Z in
  Forall (λ o, ∃ n, o = Some n ∧ n ∈ [1; 2; 3]%Z) own ∧ (NoDup own ↔ (2 ≤ 3)%Z).
Proof.
  exact (replicas_on_distinct_nodes true request manager 2 manager_wf request_default
    ltac:(decide_now) ltac:(done)).
Defined.

Lemma default_creation_iff_witness :
  (Meta.create_collection true request manager).1 = Ok (bs "sensors").
Proof.
  pose proof (default_creation_iff true request manager manager_wf eq_refl
    ltac:(done) ltac:(done) ltac:(done)) as H. cbv zeta in H.
  rewrite decide_True in H by done. exact H.
Defined.

(** The placement itself, evaluated. *)
Example placement :
  snd <$> shards (Meta.create_collection true request manager).2 =
  (λ x, let '(id, part, owner, first, own) := x in
        {| sm_id := id; sm_collection := bs "sensors"; sm_partition_id := part;
           sm_owner := Some owner; sm_primary := Some first;
           sm_replica := [first; first + 1]%Z; sm_replica_owner := own;
           sm_shard_type := bs "raft"; sm_options := ∅ |})
  <$> [(1, 0, 1, 1, [1; 2]); (2, 0, 2, 1, [1; 2]); (3, 1, 2, 3, [2; 3]);
       (4, 1, 3, 3, [2; 3]); (5, 2, 3, 5, [3; 1]); (6, 2, 1, 5, [3; 1])]%Z.
Proof. vm_compute. reflexivity. Qed.

Definition created_manager : MetaManager := (Meta.create_collection true request manager).2.

(** A second collection whose only assignment names a node but no shard. *)
Definition careless : CreateCollectionRequest :=
  {| req_name := bs "other"; partition_count := 1; replica_count := 1;
     shard_assignments := [{| primary := None; replica := [2%Z]; shard_ids := [] |}];
     shard_type := bs "raft"; req_options := ∅ |}.

Lemma created_manager_wf : meta_wf created_manager.
Proof.
  destruct (create_ok true request manager manager_wf request_default) as (m' & E & W & _).
  unfold created_manager. by rewrite E.
Qed.

Lemma missing_ids_take_over_witness :
  (sm_collection <$> bt_get 6%Z (shards created_manager)) = Some (bs "sensors") ∧
  (sm_collection <$> bt_get 6%Z (shards (Meta.create_collection true careless
                                           created_manager).2)) = Some (bs "other").
Proof.
  pose proof (missing_ids_take_over true careless _ 6%Z
    (default (Meta.shard_meta request 0 (default_assignment [] 0 0 0) [] 0 0)
       (bt_get 6%Z (shards created_manager))) created_manager
    created_manager_wf eq_refl eq_refl eq_refl eq_refl eq_refl ltac:(done)
    ltac:(vm_compute; reflexivity) ltac:(vm_compute; reflexivity)) as (_ & -> & ->).
  split; vm_compute; reflexivity.
Defined.

(** Two partitions, one assignment. *)
Definition short : CreateCollectionRequest :=
  {| req_name := bs "short"; partition_count := 2; replica_count := 1;
     shard_assignments := [{| primary := Some 9%Z; replica := [2%Z]; shard_ids := [9%Z] |}];
     shard_type := bs "raft"; req_options := ∅ |}.

Lemma short_assignments_leave_shards_witness :
  (Meta.create_collection true short manager).1
  = Err (InvalidArgument "invalid: shard assignments not match partition count") ∧
  (sm_collection <$> bt_get 9%Z (shards (Meta.create_collection true short manager).2))
  = Some (bs "short").
Proof.
  pose proof (short_assignments_leave_shards true short _ manager manager_wf eq_refl
    eq_refl ltac:(done) ltac:(by exists 9%Z) ltac:(done)) as (E & _ & Hs).
  rewrite (Hs 9%Z eq_refl). split; [exact E|]. vm_compute. reflexivity.
Defined.
End DemoMeta.
