(* ===== verification/Cluster.v ===== *)
(** * The shards of a node

    [data-plane/oprc-odgm/src/shard/manager.rs] and [cluster.rs]: the running shards of a
    node, and the loop that starts a shard for every local one of the metadata manager.
    Building and initialising a shard (storage, replication, network) is a parameter.
    The main theorem follows a collection from its creation to the shard that answers for
    one of its partitions. *)

From stdpp Require Import base tactics list list_numbers numbers option gmap sorting strings.
From Stdlib Require Import Lia.
From S2P Require Import Prelude BTree Shard Metadata.

Set Default Proof Using "Type".
Open Scope prog_scope.

Record ManagerStats := {
  total_shards_created : Z;
  total_shards_removed : Z;
  active_shards : Z;
  failed_operations : Z;
}.

(** [UnifiedShardManager]: running shards by identifier. *)
Record ShardManager (T : Type) := { running : gmap Z T; stats : ManagerStats }.
Arguments running {T} _.
Arguments stats {T} _.

Record HealthCheckResult := {
  total_shards : nat;
  healthy_shards : nat;
  unhealthy_shards : nat;
}.

Module Manager.

Section manager.
(** A running shard, its metadata and its readiness; what the factory and
    [initialize] make of metadata; the build's overflow checks. *)
Context {T : Type} (meta : T → ShardMetadata) (ready : T → bool).
Context (factory : ShardMetadata → res ShardError T) (checks : bool).

Notation op := (M (ShardManager T) ShardError).

Definition new : ShardManager T :=
  {| running := ∅;
     stats := {| total_shards_created := 0; total_shards_removed := 0; active_shards := 0;
                 failed_operations := 0 |} |}.

Definition set_running r (m : ShardManager T) : ShardManager T :=
  {| running := r; stats := stats m |}.
Definition set_stats s (m : ShardManager T) : ShardManager T :=
  {| running := running m; stats := s |}.

Definition get_shard (id : Z) (m : ShardManager T) : option T := running m !! id.

Fixpoint first_running (ids : list Z) (m : ShardManager T) : option T :=
  match ids with
  | [] => None
  | id :: ids => match get_shard id m with Some t => Some t | None => first_running ids m end
  end.

Definition get_any_shard (ids : list Z) (m : ShardManager T) : res ShardError T :=
  match first_running ids m with Some t => Ok t | None => Err (NoShardsFound ids) end.

Definition get_primary_shard (ids : list Z) (primary_id : option Z) (m : ShardManager T) :
    res ShardError T :=
  match primary_id ≫= λ id, get_shard id m with
  | Some t => Ok t
  | None => get_any_shard ids m
  end.

(** In the order of the hash map. *)
Definition get_shards_for_collection (collection : bytes) (m : ShardManager T) : list T :=
  filter (λ t, sm_collection (meta t) = collection) (map_to_list (running m)).*2.

Definition contains (id : Z) (m : ShardManager T) : bool := bool_decide (is_Some (running m !! id)).
Definition shard_count (m : ShardManager T) : nat := size (running m).

(** The stats are counted after the shard was stored. *)
Definition count_created : op unit :=
  let! s := gets stats in
  let! c := lift_res (add_u32 checks (total_shards_created s) 1) in
  let! a := lift_res (add_u32 checks (active_shards s) 1) in
  modify (set_stats {| total_shards_created := c;
                       total_shards_removed := total_shards_removed s;
                       active_shards := a; failed_operations := failed_operations s |}).

Definition create_shard (metadata : ShardMetadata) : op unit :=
  let! shard := lift_res (factory metadata) in
  modify (λ m, set_running (<[sm_id metadata := shard]> (running m)) m) ;;;
  count_created.

(** Counted by a task of its own, which alone dies of an overflow. *)
Definition count_failed (m : ShardManager T) : ShardManager T :=
  let s := stats m in
  set_stats {| total_shards_created := total_shards_created s;
               total_shards_removed := total_shards_removed s;
               active_shards := active_shards s;
               failed_operations :=
                 default (failed_operations s)
                   (ok_opt (E:=ShardError) (add_u32 checks (failed_operations s) 1)) |} m.

(** A failure is logged and counted, not reported. *)
Definition sync_shards (shard_meta : ShardMetadata) : op unit := λ m,
  if contains (sm_id shard_meta) m then (Ok tt, m)
  else match create_shard shard_meta m with
       | (Ok _, m) => (Ok tt, m)
       | (Err _, m) => (Ok tt, count_failed m)
       | (Panic p, m) => (Panic p, m)
       end.

Definition remove_shard (id : Z) : op unit := λ m,
  match running m !! id with
  | None => (Ok tt, m)
  | Some _ =>
      (let! s := gets stats in
       let! r := lift_res (add_u32 checks (total_shards_removed s) 1) in
       modify (set_stats {| total_shards_created := total_shards_created s;
                            total_shards_removed := r;
                            active_shards := Z.max 0 (active_shards s - 1);
                            failed_operations := failed_operations s |}))
      (set_running (delete id (running m)) m)
  end.

(** Closing a shard is best effort and its outcome ignored. *)
Definition close : op unit :=
  modify (λ m, set_running ∅ m) ;;;
  modify (λ m, let s := stats m in
    set_stats {| total_shards_created := total_shards_created s;
                 total_shards_removed := total_shards_removed s;
                 active_shards := 0; failed_operations := failed_operations s |} m).

Definition health_check (m : ShardManager T) : HealthCheckResult :=
  let l := (map_to_list (running m)).*2 in
  {| total_shards := length l;
     healthy_shards := length (filter (λ t, ready t = true) l);
     unhealthy_shards := length (filter (λ t, ready t = false) l) |}.

End manager.
End Manager.

(** The ratio of healthy shards is a floating point quotient, 0 without shards; its
    comparisons with 1/2 and 1 are those of the integers. *)
Module Health.
Definition is_healthy (h : HealthCheckResult) : bool :=
  (unhealthy_shards h =? 0) && (0 <? total_shards h).
Definition is_degraded (h : HealthCheckResult) : bool :=
  (0 <? total_shards h) && (total_shards h <? 2 * healthy_shards h)
  && (healthy_shards h <? total_shards h).
Definition is_critical (h : HealthCheckResult) : bool :=
  (total_shards h =? 0) || (2 * healthy_shards h <=? total_shards h).
End Health.

(** [ObjectDataGridManager], with the last version its watch loop has seen. *)
Record Grid (T : Type) := {
  metadata_manager : MetaManager;
  shard_manager : ShardManager T;
  last_sync : Z;
}.
Arguments metadata_manager {T} _.
Arguments shard_manager {T} _.
Arguments last_sync {T} _.

Module GridM.
Section grid.
Context {T : Type} (factory : ShardMetadata → res ShardError T) (checks : bool).

Definition set_shards (s : ShardManager T) (g : Grid T) : Grid T :=
  {| metadata_manager := metadata_manager g; shard_manager := s; last_sync := last_sync g |}.

(** One round of the loop of [start_watch_stream]. *)
Definition on_watch (log_id : Z) : M (Grid T) ShardError unit := λ g,
  if (last_sync g <? log_id)%Z then
    zoom shard_manager set_shards
      (for_each (Manager.sync_shards factory checks) (local_shards (metadata_manager g)).*2)
      {| metadata_manager := metadata_manager g; shard_manager := shard_manager g;
         last_sync := log_id |}
  else (Ok tt, g).

Definition get_local_shard (collection : bytes) (pid : Z) (g : Grid T) : option T :=
  col ← bt_get collection (collections (metadata_manager g));
  group ← col_shards col !! Z.to_nat pid;
  Manager.first_running group (shard_manager g).

Fixpoint any_group (groups : list (list Z)) (g : Grid T) : option T :=
  match groups with
  | [] => None
  | group :: groups =>
      match Manager.first_running group (shard_manager g) with
      | Some t => Some t
      | None => any_group groups g
      end
  end.

Definition get_any_local_shard (collection : bytes) (g : Grid T) : option T :=
  col ← bt_get collection (collections (metadata_manager g));
  any_group (col_shards col) g.

Definition close : M (Grid T) ShardError unit := zoom shard_manager set_shards Manager.close.

End grid.
End GridM.

(** ** Lookups *)
Section lookup.
Context {T : Type}.
Implicit Types (m : ShardManager T) (ids : list Z).

Lemma first_running_Some ids m t :
  Manager.first_running ids m = Some t → ∃ id, id ∈ ids ∧ running m !! id = Some t.
Proof.
  induction ids as [|id ids IH]; simpl; [done|]. unfold Manager.get_shard.
  destruct (running m !! id) as [t'|] eqn:E.
  - intros [= <-]. exists id. split; [left|done].
  - intros (id' & ? & ?)%IH. exists id'. split; [by right|done].
Qed.

Lemma first_running_None ids m :
  Manager.first_running ids m = None ↔ ∀ id, id ∈ ids → running m !! id = None.
Proof.
  induction ids as [|id ids IH]; simpl.
  { split; [|done]. by intros _ ? ?%not_elem_of_nil. }
  unfold Manager.get_shard. destruct (running m !! id) as [t|] eqn:E.
  - split; [done|]. intros H. rewrite (H id) in E by left. done.
  - rewrite IH. split.
    + intros H id' [->|?]%elem_of_cons; [done|by apply H].
    + intros H id' ?. apply H. by right.
Qed.
End lookup.

(** ** Starting the local shards *)
Section sync.
Context {T : Type} (meta : T → ShardMetadata) (ready : T → bool).
Context (factory : ShardMetadata → res ShardError T) (checks : bool).
(** Shards can be built, and a shard knows its metadata. *)
Context (build : ShardMetadata → T).
Context (factory_ok : ∀ sm, factory sm = Ok (build sm)) (meta_build : ∀ sm, meta (build sm) = sm).

Definition stats_room (n : Z) (m : ShardManager T) : Prop :=
  (total_shards_created (stats m) + n ≤ u32_max)%Z ∧
  (active_shards (stats m) + n ≤ u32_max)%Z.

Lemma sync_shards_ok sm n m : stats_room (Z.of_nat (S n)) m → ∃ m',
  Manager.sync_shards factory checks sm m = (Ok tt, m') ∧ stats_room (Z.of_nat n) m' ∧
  ∀ id, running m' !! id
        = match running m !! id with
          | Some t => Some t
          | None => if decide (id = sm_id sm) then Some (build sm) else None
          end.
Proof using factory_ok.
  intros [H1 H2]. unfold Manager.sync_shards, Manager.contains. case_bool_decide as Hc.
  - exists m. split; [done|]. split; [split; lia|]. intros id. destruct Hc as [t Ht].
    destruct (running m !! id) eqn:E; [done|]. case_decide; [congruence|done].
  - unfold Manager.create_shard, Manager.count_created. rewrite factory_ok.
    unfold bind. simpl. unfold add_u32.
    rewrite !(proj2 (Z.leb_le _ _)) by lia. simpl. eexists. split; [done|].
    split; [split; simpl; lia|]. intros id. simpl. rewrite lookup_insert.
    apply eq_None_not_Some in Hc. destruct (decide (sm_id sm = id)) as [<-|Hne].
    + rewrite Hc. by rewrite decide_True.
    + destruct (running m !! id); [done|]. by rewrite decide_False.
Qed.

Lemma sync_all_ok (l : btree Z ShardMetadata) m :
  Forall (λ ks, sm_id ks.2 = ks.1) l → bt_wf l → stats_room (Z.of_nat (length l)) m → ∃ m',
  for_each (Manager.sync_shards factory checks) l.*2 m = (Ok tt, m') ∧
  ∀ id, running m' !! id
        = match running m !! id with Some t => Some t | None => build <$> bt_get id l end.
Proof using factory_ok.
  intros Hk Hl. revert m. induction Hl as [|[k sm] l Hl IH Hall]; intros m Hr.
  { exists m. split; [done|]. intros id. by destruct (running m !! id). }
  apply Forall_cons in Hk as [Hid Hk]. simpl in Hid.
  destruct (sync_shards_ok sm (length l) m Hr) as (m1 & E1 & R1 & G1).
  destruct (IH Hk m1 R1) as (m2 & E2 & G2). exists m2.
  split; [simpl; by rewrite (bind_ok _ _ _ _ _ E1)|]. intros id. rewrite G2, G1.
  destruct (running m !! id); [done|]. simpl. rewrite Hid.
  destruct (decide (id = k)) as [->|Hne]; [by rewrite cmp_refl|].
  destruct (cmp id k) eqn:E; [by apply cmp_eq in E|done..].
Qed.

Lemma local_shards_keyed (m : MetaManager) : meta_wf m →
  Forall (λ ks, sm_id ks.2 = ks.1) (local_shards m).
Proof.
  intros W. apply Forall_forall. intros [k s] Hin. apply bt_get_elem in Hin; [|apply W].
  by apply (mw_local_keyed m W) in Hin as [? _].
Qed.

(** The local shard of replica [k] of partition [i] of a new collection. *)
Lemma created_local request m m' i k : meta_wf m → default_request request m →
  created request m m' → (0 ≤ i < partition_count request)%Z →
  (0 ≤ k < replica_count request)%Z →
  let rc := replica_count request in
  bt_get (first_free m + i * rc + k)%Z (local_shards m')
  = if decide (place (members m) (i + k) = node_id m)
    then Some (Meta.shard_meta request i (default_assignment (members m) (first_free m) rc i)
                 (group (first_free m) rc i) (node_id m) (first_free m + i * rc + k))
    else None.
Proof.
  intros W D C Hi Hk rc. pose proof (first_free_pos m W).
  rewrite (cr_local _ _ _ C). unfold local_get. rewrite (cr_shards _ _ _ C).
  rewrite bool_decide_true by (unfold rc; nia).
  replace (first_free m + i * rc + k - first_free m)%Z with (i * rc + k)%Z by lia.
  rewrite nth_shard_at by done. cbn [sm_owner Meta.shard_meta].
  destruct (decide (place (members m) (i + k) = node_id m)) as [<-|Hne].
  - by rewrite bool_decide_true.
  - rewrite bool_decide_false by congruence.
    destruct (bt_get _ (local_shards m)) as [s|] eqn:E; [|done]. exfalso.
    apply (mw_local_keyed m W) in E as [_ Hs].
    rewrite first_free_fresh in Hs by (done || unfold rc; nia). by apply is_Some_None in Hs.
Qed.

(** A group of a new collection, searched for a running shard. *)
Lemma served_group request m m' sm' pid : meta_wf m → default_request request m →
  created request m m' → (0 ≤ pid < partition_count request)%Z →
  (∀ k, (0 ≤ k < replica_count request)%Z →
     running sm' !! (first_free m + pid * replica_count request + k)%Z
     = build <$> bt_get (first_free m + pid * replica_count request + k)%Z (local_shards m')) →
  let r := Manager.first_running (group (first_free m) (replica_count request) pid) sm' in
  if decide (node_id m ∈ place (members m) <$> seqZ pid (replica_count request))
  then ∃ t, r = Some t ∧ sm_collection (meta t) = req_name request ∧
       sm_partition_id (meta t) = as_u16 pid ∧ sm_owner (meta t) = Some (node_id m)
  else r = None.
Proof using meta_build.
  intros W D C Hpid Hr r. unfold r. clear r.
  assert (∀ id, id ∈ group (first_free m) (replica_count request) pid → ∃ k,
    (0 ≤ k < replica_count request)%Z ∧
    id = (first_free m + pid * replica_count request + k)%Z) as Hg.
  { intros id [? ?]%elem_of_seqZ.
    exists (id - (first_free m + pid * replica_count request))%Z. lia. }
  case_decide as Hin.
  - destruct (Manager.first_running _ sm') as [t|] eqn:Ef.
    + exists t. split; [done|]. apply first_running_Some in Ef as (id & Hid & Hrun).
      apply Hg in Hid as (k & Hk & ->). rewrite Hr, (created_local request m m') in Hrun by done.
      case_decide; [|done]. injection Hrun as <-. by rewrite meta_build.
    + exfalso. apply list_elem_of_fmap in Hin as (j & Hj & [? ?]%elem_of_seqZ).
      rewrite first_running_None in Ef.
      specialize (Ef (first_free m + pid * replica_count request + (j - pid))%Z).
      rewrite Hr, (created_local request m m') in Ef by (done || lia).
      rewrite decide_True in Ef by (rewrite Hj; f_equal; lia).
      simpl in Ef. discriminate Ef. apply elem_of_seqZ. lia.
  - apply first_running_None. intros id (k & Hk & ->)%Hg.
    rewrite Hr, (created_local request m m') by done. rewrite decide_False; [done|].
    intros Hp. apply Hin, list_elem_of_fmap. exists (pid + k)%Z. rewrite elem_of_seqZ.
    split; [done|lia].
Qed.

(** *** Theorems *)

(** C12. From the creation of a collection to the shard that serves it: on a node whose running
    shards are older than the collection, creating the collection and the next round of
    the watch loop succeed, keep every running shard, and then the node finds a shard for
    partition [pid] exactly when it is one of the [replica_count] members the partition is
    placed on in rotation, and that shard belongs to the collection, the partition and the
    node. *)
Theorem partition_served request (g : Grid T) pid :
  let m := metadata_manager g in
  meta_wf m → default_request request m → (0 ≤ pid < partition_count request)%Z →
  (∀ id, (first_free m ≤ id)%Z → running (shard_manager g) !! id = None) →
  (last_sync g ≤ watch m)%Z →
  stats_room (Z.of_nat (length (local_shards (Meta.create_collection checks request m).2)))
    (shard_manager g) →
  ∃ m' g',
  Meta.create_collection checks request m = (Ok (req_name request), m') ∧
  GridM.on_watch factory checks (watch m')
    {| metadata_manager := m'; shard_manager := shard_manager g; last_sync := last_sync g |}
  = (Ok tt, g') ∧
  (∀ id t, running (shard_manager g) !! id = Some t →
           running (shard_manager g') !! id = Some t) ∧
  if decide (node_id m ∈ place (members m) <$> seqZ pid (replica_count request))
  then ∃ t, GridM.get_local_shard (req_name request) pid g' = Some t ∧
       sm_collection (meta t) = req_name request ∧
       sm_partition_id (meta t) = as_u16 pid ∧ sm_owner (meta t) = Some (node_id m)
  else GridM.get_local_shard (req_name request) pid g' = None.
Proof using factory_ok meta_build.
  intros m W D Hpid Hold Hls Hroom.
  destruct (create_ok checks request m W D) as (m' & E & W' & C). rewrite E in Hroom.
  destruct (sync_all_ok (local_shards m') (shard_manager g))
    as (sm' & Es & Hrun); [by apply local_shards_keyed|apply W'|done|].
  exists m', {| metadata_manager := m'; shard_manager := sm'; last_sync := watch m' |}.
  split; [done|]. split; [|split].
  - unfold GridM.on_watch, zoom. rewrite (cr_watch _ _ _ C). simpl.
    rewrite (proj2 (Z.ltb_lt _ _)) by (unfold m in *; lia). simpl. by rewrite Es.
  - intros id t Ht. simpl. by rewrite Hrun, Ht.
  - assert (∀ k, (0 ≤ k < replica_count request)%Z →
      running sm' !! (first_free m + pid * replica_count request + k)%Z
      = build <$> bt_get (first_free m + pid * replica_count request + k)%Z (local_shards m'))
      as Hr.
    { intros k Hk. rewrite Hrun, Hold by nia. done. }
    unfold GridM.get_local_shard. simpl. rewrite (cr_collections _ _ _ C), bt_get_insert_eq.
    simpl. rewrite list_lookup_fmap, lookup_seqZ_lt, Z2Nat.id, Z.add_0_l by lia. simpl.
    by apply (served_group request m m').
Qed.

Lemma ready_partition (l : list T) :
  length l = length (filter (λ t, ready t = true) l) + length (filter (λ t, ready t = false) l).
Proof.
  induction l as [|t l IH]; [done|]. rewrite !filter_cons. destruct (ready t); simpl; lia.
Qed.

Lemma all_ready_iff (r : gmap Z T) :
  map_Forall (λ _ t, ready t = true) r ↔
  length (filter (λ t, ready t = false) (map_to_list r).*2) = 0.
Proof.
  rewrite map_Forall_to_list. induction (map_to_list r) as [|[k t] l IH]; simpl.
  { by rewrite Forall_nil. }
  rewrite Forall_cons, filter_cons, IH. simpl. destruct (ready t); simpl; intuition lia || done.
Qed.

Lemma nonempty_iff (r : gmap Z T) : r ≠ ∅ ↔ 0 < length (map_to_list r).*2.
Proof.
  rewrite length_fmap, length_map_to_list, <- Nat.neq_0_lt_0. by rewrite map_size_empty_iff.
Qed.

(** A health check always falls in exactly one class, and it is "healthy" exactly when
    there is a shard and all are ready. *)
Theorem health_classified m :
  let h := Manager.health_check ready m in
  total_shards h = healthy_shards h + unhealthy_shards h ∧
  (Health.is_healthy h, Health.is_degraded h, Health.is_critical h)
    ∈ [(true, false, false); (false, true, false); (false, false, true)] ∧
  (Health.is_healthy h = true ↔
   running m ≠ ∅ ∧ map_Forall (λ _ t, ready t = true) (running m)).
Proof.
  unfold Manager.health_check. simpl. set (l := (map_to_list (running m)).*2).
  pose proof (ready_partition l) as Hp. split; [done|]. split.
  - unfold Health.is_healthy, Health.is_degraded, Health.is_critical.
    cbn [total_shards healthy_shards unhealthy_shards]. rewrite !elem_of_cons.
    repeat match goal with
      | |- context [?a =? ?b] => destruct (Nat.eqb_spec a b)
      | |- context [?a <? ?b] => destruct (Nat.ltb_spec a b)
      | |- context [?a <=? ?b] => destruct (Nat.leb_spec a b) end; simpl; auto; exfalso; lia.
  - unfold Health.is_healthy. cbn [total_shards healthy_shards unhealthy_shards].
    rewrite andb_true_iff, Nat.eqb_eq, Nat.ltb_lt.
    rewrite all_ready_iff, nonempty_iff. tauto.
Qed.
End sync.

(** ** Node 1 of the example cluster; a shard is its metadata *)
Module DemoGrid.
Definition grid : Grid ShardMetadata :=
  {| metadata_manager := DemoMeta.manager; shard_manager := Manager.new; last_sync := 0 |}.

Definition factory (sm : ShardMetadata) : res ShardError ShardMetadata := Ok sm.

(** Partition 2 lives on nodes 3 and 1, partition 1 on nodes 2 and 3. *)
Lemma partition_served_witness : ∃ m' g',
  Meta.create_collection true DemoMeta.request DemoMeta.manager = (Ok (bs "sensors"), m') ∧
  GridM.on_watch factory true (watch m')
    {| metadata_manager := m'; shard_manager := Manager.new; last_sync := 0 |}
  = (Ok tt, g') ∧
  ∃ t, GridM.get_local_shard (bs "sensors") 2 g' = Some t ∧ sm_partition_id t = 2%Z ∧
       sm_owner t = Some 1%Z.
Proof.
  destruct (partition_served id factory true id (λ _, eq_refl) (λ _, eq_refl)
    DemoMeta.request grid 2 DemoMeta.manager_wf DemoMeta.request_default ltac:(done)
    ltac:(done) ltac:(done) ltac:(split; vm_compute; congruence))
    as (m' & g' & E1 & E2 & _ & H).
  exists m', g'. split; [exact E1|]. split; [exact E2|].
  rewrite decide_True in H by decide_now. destruct H as (t & ? & _ & ? & ?).
  by exists t.
Defined.

(** The state after creation and one round, evaluated. *)
Example grid_after :
  let m' := DemoMeta.created_manager in
  let g' := (GridM.on_watch factory true (watch m')
    {| metadata_manager := m'; shard_manager := Manager.new; last_sync := 0 |}).2 in
  (sm_id <$> GridM.get_local_shard (bs "sensors") 0 g',
   sm_id <$> GridM.get_local_shard (bs "sensors") 1 g',
   sm_id <$> GridM.get_local_shard (bs "sensors") 2 g',
   Manager.shard_count (shard_manager g'))
  = (Some 1%Z, None, Some 6%Z, 2).
Proof. vm_compute. reflexivity. Qed.
End DemoGrid.
