(* ===== verification/EntryStore.v ===== *)
(** * The granular entry store

    [data-plane/oprc-odgm/src/shard/entry_store_impl.rs]: the operations of the
    [EntryStore] trait on a shard, each handler whole. A [HashMap] argument is the list
    of its pairs in iteration order. [fuel] bounds the page loops; the theorems of
    [EntryList] show how much is enough. *)

From stdpp Require Import base tactics list numbers option gmap sorting strings.
From Stdlib Require Import Lia.
From S2P Require Import Prelude BTree Backend Replication StorageKey GranularKey Events ObjectData Shard.

Open Scope prog_scope.

Definition MAX_LIST_LIMIT : nat := 1024.
Definition LIST_SCAN_SLACK : nat := 16.

(** [last.saturating_add(1)] on the last byte of the prefix. *)
Definition compute_object_range_end (prefix : bytes) : bytes :=
  match last prefix with
  | Some b => removelast prefix ++ [zb (Z.min (bz b + 1) 255)]
  | None => [Byte.x01]
  end.

Record EntryListOptions := {
  key_prefix : option bytes;
  limit : nat;
  cursor : option bytes;
}.

Record EntryListResult := {
  page_entries : list (bytes * ObjectVal);
  next_cursor : option bytes;
}.

Record ObjectListOptions := {
  object_id_prefix : option bytes;
  o_limit : nat;
  o_cursor : option bytes;
}.

Record ObjectListItem := { li_object_id : bytes; li_version : Z; li_entry_count : Z }.

Record ObjectListResult := {
  objects : list ObjectListItem;
  o_next_cursor : option bytes;
}.

Module ES.
Section entry_store.
Context {R : Type} `{Storage R} `{!ReplicationLayer R} `{Codec}.

Notation Sh A := (M (Shard R) ShardError A).

Definition get_metadata (normalized_id : bytes) : Sh (option ObjectMetadata) :=
  let! v := app_storage (sto_get (build_metadata_key normalized_id)) in
  match v with
  | Some value =>
      match ObjectMeta.from_bytes value with
      | Some meta => ret (Some meta)
      | None => throw InvalidMetadata
      end
  | None => ret None
  end.

Definition set_metadata (normalized_id : bytes) (metadata : ObjectMetadata) : Sh unit :=
  replicate (write_op (build_metadata_key normalized_id) (ObjectMeta.to_bytes metadata)) ;;;
  ret tt.

(** [self.get_metadata(id).await?.unwrap_or_default()] *)
Definition metadata_or_default (normalized_id : bytes) : Sh ObjectMetadata :=
  let! m := get_metadata normalized_id in ret (default ObjectMeta.new m).

Definition get_entry (normalized_id key : bytes) : Sh (option ObjectVal) :=
  let! v := app_storage (sto_get (build_entry_key normalized_id key)) in
  match v with
  | Some value =>
      match val_decode value with
      | Some val => modify (upd_metrics Metrics.inc_entry_reads) ;;; ret (Some val)
      | None => throw DeserializationError
      end
  | None => ret None
  end.

Definition encode_value (value : ObjectVal) : Sh bytes :=
  lift_res (res_map_err SSerializationError (val_encode value)).

Definition entry_action (existed : bool) : MutAction := if existed then Update else Create.

Definition set_entry (normalized_id key : bytes) (value : ObjectVal) : Sh unit :=
  let! include := gets include_values in
  let raw_data := if include then Some (val_data value) else None in
  let! value_bytes := encode_value value in
  let storage_key := build_entry_key normalized_id key in
  let! v2 := gets v2_mode in
  let! existed_before := if v2 then app_storage (sto_exists storage_key) else ret false in
  replicate (write_op storage_key value_bytes) ;;;
  let! metadata := metadata_or_default normalized_id in
  let version_before := object_version metadata in
  let metadata := ObjectMeta.increment_version metadata in
  set_metadata normalized_id metadata ;;;
  modify (upd_metrics Metrics.inc_entry_writes) ;;;
  if v2 then
    let! event_cfg := load_event_config normalized_id in
    modify (λ s, try_emit
      (MutationCtx.with_event_config event_cfg
        (mutation normalized_id version_before (object_version metadata)
          [{| key_canonical := key; action := entry_action existed_before;
              ck_value := raw_data |}] s)) s)
  else ret tt.

Definition delete_entry (normalized_id key : bytes) : Sh unit :=
  let storage_key := build_entry_key normalized_id key in
  let! exists_ := app_storage (sto_exists storage_key) in
  if negb exists_ then ret tt else
  replicate (Delete storage_key) ;;;
  let! metadata := metadata_or_default normalized_id in
  let version_before := object_version metadata in
  let metadata := ObjectMeta.increment_version metadata in
  set_metadata normalized_id metadata ;;;
  let! v2 := gets v2_mode in
  (if v2 then
     modify (λ s, try_emit
       (mutation normalized_id version_before (object_version metadata)
         [{| key_canonical := key; action := ADelete; ck_value := None |}] s) s)
   else ret tt) ;;;
  modify (upd_metrics Metrics.inc_entry_deletes).

(** ** Listing *)

(** The mutable variables of [list_entries]' loops. *)
Record Listing := {
  l_entries : list (bytes * ObjectVal);
  l_last : option bytes;        (* last_emitted_key *)
  l_more : bool;                (* more_available *)
  l_seen : bool;                (* prefix_seen *)
  l_exhausted : bool;           (* prefix_exhausted *)
  l_skip : bool;                (* skip_cursor_match *)
}.

Definition no_skip (l : Listing) : Listing :=
  {| l_entries := l_entries l; l_last := l_last l; l_more := l_more l; l_seen := l_seen l;
     l_exhausted := l_exhausted l; l_skip := false |}.
Definition set_exhausted (l : Listing) : Listing :=
  {| l_entries := l_entries l; l_last := l_last l; l_more := l_more l; l_seen := l_seen l;
     l_exhausted := true; l_skip := l_skip l |}.
Definition set_seen (l : Listing) : Listing :=
  {| l_entries := l_entries l; l_last := l_last l; l_more := l_more l; l_seen := true;
     l_exhausted := l_exhausted l; l_skip := l_skip l |}.
Definition emit (key : bytes) (v : ObjectVal) (raw : bytes) (l : Listing) : Listing :=
  {| l_entries := l_entries l ++ [(key, v)]; l_last := Some raw; l_more := l_more l;
     l_seen := l_seen l; l_exhausted := l_exhausted l; l_skip := l_skip l |}.
Definition set_more (b : bool) (l : Listing) : Listing :=
  {| l_entries := l_entries l; l_last := l_last l; l_more := b; l_seen := l_seen l;
     l_exhausted := l_exhausted l; l_skip := l_skip l |}.

(** The entry key of a raw key of this object. *)
Definition own_entry (id raw : bytes) : res ShardError (option bytes) :=
  res_bind (parse_granular_key raw) (λ p,
    Ok match p with
       | Some (obj_id, GEntry k) => if bool_decide (obj_id = id) then Some k else None
       | _ => None
       end).

(** [additional_matches] once the page is full. *)
Definition additional_matches (id : bytes) (prefix : option bytes) (rest : store)
    (storage_cursor : option bytes) : res ShardError bool :=
  match prefix with
  | None => Ok (bool_decide (rest ≠ []) || bool_decide (is_Some storage_cursor))
  | Some p =>
      let cursor_entry (test : bytes → bool) :=
        match storage_cursor with
        | None => Ok false
        | Some ck => res_bind (own_entry id ck) (λ e,
                       Ok match e with Some k => test k | None => false end)
        end in
      match rest with
      | (next_key, _) :: _ =>
          res_bind (own_entry id next_key) (λ e,
            match e with
            | Some k => if starts_with p k then Ok true else cursor_entry (λ _, true)
            | None => cursor_entry (λ _, true)
            end)
      | [] => cursor_entry (starts_with p)
      end
  end.

(** The inner loop over one chunk; [true] stands for [break 'outer]. *)
Fixpoint scan_chunk (id : bytes) (prefix : option bytes) (lim : nat) (scan_start : bytes)
    (storage_cursor : option bytes) (chunk : store) (l : Listing) :
    res ShardError (bool * Listing) :=
  match chunk with
  | [] => Ok (false, l)
  | (raw_key, raw_value) :: rest =>
      let continue l := scan_chunk id prefix lim scan_start storage_cursor rest l in
      if l_skip l && bool_decide (raw_key = scan_start) then continue (no_skip l)
      else
        let l := no_skip l in
        res_bind (own_entry id raw_key) (λ e,
          match e with
          | None => continue l
          | Some entry_key =>
              let deliver l :=
                match val_decode raw_value with
                | None => continue l
                | Some val =>
                    let l := emit entry_key val raw_key l in
                    if (length (l_entries l) =? lim)%nat then
                      res_bind (additional_matches id prefix rest storage_cursor) (λ b,
                        Ok (true, set_more b l))
                    else continue l
                end in
              match prefix with
              | None => deliver l
              | Some p =>
                  if starts_with p entry_key then deliver (set_seen l)
                  else if l_seen l then Ok (true, set_exhausted l)
                  else continue l
              end
          end)
  end.

(** The outer [while] loop. *)
Fixpoint list_loop (fuel : nat) (id : bytes) (prefix : option bytes) (lim : nat)
    (scan_start range_end : bytes) (l : Listing) : Sh Listing :=
  match fuel with
  | O => panic "out of fuel"
  | S fuel =>
      if (length (l_entries l) <? lim)%nat then
        let remaining := (lim - length (l_entries l))%nat in
        let chunk_limit := (remaining + LIST_SCAN_SLACK)%nat in
        let! (chunk, storage_cursor) :=
          app_storage (sto_scan_range_paginated scan_start range_end (Some chunk_limit)) in
        match chunk with
        | [] => ret l
        | _ =>
            let! (stop, l) :=
              lift_res (scan_chunk id prefix lim scan_start storage_cursor chunk l) in
            if stop then ret l
            else match storage_cursor with
                 | Some next => list_loop fuel id prefix lim next range_end (no_skip l)
                 | None => ret l
                 end
        end
      else ret l
  end.

(** Where a listing starts: at the cursor if it belongs to the object. *)
Definition list_start (id : bytes) (cursor : option bytes) : res ShardError bytes :=
  match cursor with
  | None => Ok (build_entry_key id [])
  | Some c =>
      res_bind (parse_granular_key c) (λ p,
        Ok match p with
           | Some (obj_id, _) => if bool_decide (obj_id = id) then c else build_entry_key id []
           | None => build_entry_key id []
           end)
  end.

Definition list_entries (fuel : nat) (normalized_id : bytes) (options : EntryListOptions) :
    Sh EntryListResult :=
  if (limit options =? 0)%nat then
    ret {| page_entries := []; next_cursor := cursor options |}
  else
    let lim := Nat.min (limit options) MAX_LIST_LIMIT in
    let object_prefix := build_object_prefix normalized_id in
    let range_end := compute_object_range_end object_prefix in
    let! scan_start := lift_res (list_start normalized_id (cursor options)) in
    let! l := list_loop fuel normalized_id (key_prefix options) lim scan_start range_end
      {| l_entries := []; l_last := None; l_more := false; l_seen := false;
         l_exhausted := false; l_skip := bool_decide (is_Some (cursor options)) |} in
    let more := if l_exhausted l then false else l_more l in
    ret {| page_entries := l_entries l; next_cursor := if more then l_last l else None |}.

(** ** Batches *)

Fixpoint pre_exist_loop (id : bytes) (keys : list bytes) (acc : gmap bytes bool) :
    Sh (gmap bytes bool) :=
  match keys with
  | [] => ret acc
  | k :: keys =>
      let! e := app_storage (sto_exists (build_entry_key id k)) in
      pre_exist_loop id keys (<[k := e]> acc)
  end.

Fixpoint encode_batch (id : bytes) (values : list (bytes * ObjectVal)) : Sh (list Operation) :=
  match values with
  | [] => ret []
  | (key, value) :: values =>
      let! value_bytes := encode_value value in
      let! ops := encode_batch id values in
      ret (write_op (build_entry_key id key) value_bytes :: ops)
  end.

(** The changed keys of the event: each raw value is taken out of the map once. *)
Fixpoint changed_loop (keys : list bytes) (pre_exist : gmap bytes bool)
    (raw_data : gmap bytes bytes) : list ChangedKey :=
  match keys with
  | [] => []
  | k :: keys =>
      {| key_canonical := k; action := entry_action (default false (pre_exist !! k));
         ck_value := raw_data !! k |} :: changed_loop keys pre_exist (delete k raw_data)
  end.

Definition batch_set_entries (normalized_id : bytes) (values : list (bytes * ObjectVal))
    (expected_version : option Z) : Sh Z :=
  match values with
  | [] => let! meta := metadata_or_default normalized_id in ret (object_version meta)
  | _ =>
      let! metadata := metadata_or_default normalized_id in
      let version_before_batch := object_version metadata in
      match expected_version with
      | Some expected =>
          if (version_before_batch =? expected)%Z then ret tt
          else throw (VersionMismatch expected version_before_batch)
      | None => ret tt
      end ;;;
      let metadata := ObjectMeta.increment_version metadata in
      let new_version := object_version metadata in
      let changed_keys := values.*1 in
      let! v2 := gets v2_mode in
      let! include := gets include_values in
      let! pre_exist := if v2 then pre_exist_loop normalized_id changed_keys ∅ else ret ∅ in
      let raw_data : gmap bytes bytes :=
        if v2 && include
        then foldl (λ m kv, <[kv.1 := val_data kv.2]> m) ∅ values else ∅ in
      let! ops := encode_batch normalized_id values in
      let ops := ops ++ [write_op (build_metadata_key normalized_id)
                           (ObjectMeta.to_bytes metadata)] in
      replicate (Batch ops) ;;;
      modify (upd_metrics (Metrics.inc_entry_writes_by (Z.of_nat (length changed_keys)))) ;;;
      (if v2 then
         let changed := changed_loop changed_keys pre_exist raw_data in
         let! event_cfg := load_event_config normalized_id in
         modify (λ s, try_emit
           (MutationCtx.with_event_config event_cfg
             (mutation normalized_id version_before_batch new_version changed s)) s)
       else ret tt) ;;;
      ret new_version
  end.

Fixpoint delete_loop (id : bytes) (keys : list bytes) (deleted : list bytes) :
    Sh (list bytes) :=
  match keys with
  | [] => ret deleted
  | key :: keys =>
      let storage_key := build_entry_key id key in
      let! exists_ := app_storage (sto_exists storage_key) in
      if exists_ then
        replicate (Delete storage_key) ;;;
        modify (upd_metrics Metrics.inc_entry_deletes) ;;;
        delete_loop id keys (deleted ++ [key])
      else delete_loop id keys deleted
  end.

Definition batch_delete_entries (normalized_id : bytes) (keys : list bytes) : Sh unit :=
  let! v2 := gets v2_mode in
  let! actually_deleted := delete_loop normalized_id keys [] in
  if bool_decide (actually_deleted = []) then ret tt else
  let! metadata := metadata_or_default normalized_id in
  let version_before := object_version metadata in
  let metadata := ObjectMeta.increment_version metadata in
  set_metadata normalized_id metadata ;;;
  if v2 then
    let changed := (λ k, {| key_canonical := k; action := ADelete; ck_value := None |})
                     <$> actually_deleted in
    let! event_cfg := load_event_config normalized_id in
    modify (λ s, try_emit
      (MutationCtx.with_event_config event_cfg
        (mutation normalized_id version_before (object_version metadata) changed s)) s)
  else ret tt.

(** Directly on the storage, not through the replication layer. *)
Definition delete_object_granular (normalized_id : bytes) : Sh unit :=
  let start := build_object_prefix normalized_id in
  app_storage (sto_delete_range (Included start)
                 (Excluded (compute_object_range_end start))) ;;;
  ret tt.

Fixpoint count_loop (pages fuel : nat) (id : bytes) (total : nat) (cursor : option bytes) :
    Sh nat :=
  match pages with
  | O => panic "out of fuel"
  | S pages =>
      let! page := list_entries fuel id
        {| key_prefix := None; limit := MAX_LIST_LIMIT; cursor := cursor |} in
      let total := (total + length (page_entries page))%nat in
      match next_cursor page with
      | Some next => count_loop pages fuel id total (Some next)
      | None => ret total
      end
  end.

Definition count_entries (fuel : nat) (normalized_id : bytes) : Sh nat :=
  count_loop fuel fuel normalized_id 0 None.

(** ** Listing objects *)

Record OListing := {
  ol_objects : list ObjectListItem;
  ol_last : option bytes;
  ol_seen : bool;
  ol_skip : bool;
}.

(** [self.count_entries(id).await.unwrap_or(0) as u64] *)
Definition count_or_zero (fuel : nat) (id : bytes) : Sh Z := λ s,
  match count_entries fuel id s with
  | (Ok n, s) => (Ok (Z.of_nat n), s)
  | (Err _, s) => (Ok 0%Z, s)
  | (Panic m, s) => (Panic m, s)
  end.

Fixpoint objects_chunk (fuel : nat) (id_prefix : option bytes) (lim : nat)
    (current_start : bytes) (chunk : store) (l : OListing) : Sh (bool * OListing) :=
  match chunk with
  | [] => ret (false, l)
  | (raw_key, raw_value) :: rest =>
      let continue l := objects_chunk fuel id_prefix lim current_start rest l in
      let unskip l := {| ol_objects := ol_objects l; ol_last := ol_last l;
                         ol_seen := ol_seen l; ol_skip := false |} in
      if ol_skip l && bool_decide (raw_key = current_start) then continue (unskip l)
      else
        let l := unskip l in
        let! p := lift_res (parse_string_object_key raw_key) in
        match p with
        | Some (object_id, Meta) =>
            let deliver l :=
              let metadata := default ObjectMeta.new (ObjectMeta.from_bytes raw_value) in
              if tombstone metadata then continue l
              else
                let! entry_count := count_or_zero fuel object_id in
                let l := {| ol_objects := ol_objects l ++
                              [{| li_object_id := object_id;
                                  li_version := object_version metadata;
                                  li_entry_count := entry_count |}];
                            ol_last := Some raw_key; ol_seen := ol_seen l;
                            ol_skip := ol_skip l |} in
                if (lim <=? length (ol_objects l))%nat then ret (true, l) else continue l in
            match id_prefix with
            | None => deliver l
            | Some p =>
                if starts_with p object_id
                then deliver {| ol_objects := ol_objects l; ol_last := ol_last l;
                                ol_seen := true; ol_skip := ol_skip l |}
                else if ol_seen l then ret (true, l) else continue l
            end
        | _ => continue l
        end
  end.

Fixpoint objects_loop (rounds fuel : nat) (id_prefix : option bytes) (lim : nat)
    (current_start scan_end : bytes) (l : OListing) : Sh OListing :=
  match rounds with
  | O => panic "out of fuel"
  | S rounds =>
      let chunk_limit := (lim - length (ol_objects l) + LIST_SCAN_SLACK)%nat in
      let! (chunk, storage_cursor) :=
        app_storage (sto_scan_range_paginated current_start scan_end (Some chunk_limit)) in
      match chunk with
      | [] => ret l
      | _ =>
          let! (stop, l) := objects_chunk fuel id_prefix lim current_start chunk l in
          if stop then ret l
          else match storage_cursor with
               | Some next => objects_loop rounds fuel id_prefix lim next scan_end l
               | None => ret l
               end
      end
  end.

Definition list_objects (fuel : nat) (options : ObjectListOptions) : Sh ObjectListResult :=
  if (o_limit options =? 0)%nat then
    ret {| objects := []; o_next_cursor := o_cursor options |}
  else
    let lim := Nat.min (o_limit options) MAX_LIST_LIMIT in
    let scan_start := default [Byte.x00] (o_cursor options) in
    let! l := objects_loop fuel fuel (object_id_prefix options) lim scan_start [Byte.xff]
      {| ol_objects := []; ol_last := None; ol_seen := false;
         ol_skip := bool_decide (is_Some (o_cursor options)) |} in
    ret {| objects := ol_objects l;
           o_next_cursor := if (lim <=? length (ol_objects l))%nat then ol_last l else None |}.

End entry_store.
End ES.
