(* ===== verification/ObjectView.v ===== *)
(** * The objects held in a store

    The abstract view of a shard's store: for each object its metadata, its event
    configuration and its entries. Every record lives under a key of its own, so a write
    of one record changes the view in one place. *)

From stdpp Require Import base tactics list numbers option gmap sorting strings.
From Stdlib Require Import Lia.
From S2P Require Import Prelude BTree Backend StorageKey GranularKey Events ObjectData Shard EntryStore.

(** ** Record keys *)

Inductive rkey : Type :=
| KMeta (id : bytes)
| KEvent (id : bytes)
| KEntry (id key : bytes).

#[global] Instance rkey_eq_dec : EqDecision rkey.
Proof. solve_decision. Defined.

Definition rk (r : rkey) : bytes :=
  match r with
  | KMeta id => build_metadata_key id
  | KEvent id => string_object_event_config_key id
  | KEntry id key => build_entry_key id key
  end.

(** An object identifier the layout can carry. *)
Definition obj_ok (id : bytes) : Prop := id_ok id ∧ (Z.of_nat (length id) < 2 ^ 62)%Z.

Definition rkey_ok (r : rkey) : Prop :=
  match r with
  | KMeta id | KEvent id => obj_ok id
  | KEntry id key => obj_ok id ∧ key_ok key
  end.

#[global] Instance obj_ok_dec id : Decision (obj_ok id).
Proof. unfold obj_ok. apply _. Defined.

Definition rkey_record (r : rkey) : bytes * GranularRecord :=
  match r with
  | KMeta id => (id, GMetadata)
  | KEvent id => (id, GEventConfig)
  | KEntry id key => (id, GEntry key)
  end.

Lemma parse_rk {E} r : rkey_ok r → parse_granular_key (E:=E) (rk r) = Ok (Some (rkey_record r)).
Proof.
  destruct r as [id|id|id key]; simpl.
  - intros [? ?]. by apply parse_granular_meta.
  - intros [? ?]. unfold parse_granular_key. by rewrite parse_event_config_key.
  - intros [[? ?] ?]. by apply parse_granular_entry.
Qed.

Lemma rk_inj r r' : rkey_ok r → rkey_ok r' → rk r = rk r' → r = r'.
Proof.
  intros Hr Hr' Heq. pose proof (parse_rk (E:=unit) r Hr) as P.
  rewrite Heq, (parse_rk r' Hr') in P.
  destruct r, r'; simpl in P; congruence.
Qed.

Lemma get_insert_rk r r' v (d : store) :
  rkey_ok r → rkey_ok r' →
  bt_get (rk r) (bt_insert (rk r') v d) = if decide (r = r') then Some v else bt_get (rk r) d.
Proof.
  intros Hr Hr'. case_decide as E; [subst; apply bt_get_insert_eq|].
  apply bt_get_insert_ne. intros Heq. apply E. symmetry. by apply rk_inj.
Qed.

Lemma get_remove_rk r r' (d : store) :
  bt_wf d → rkey_ok r → rkey_ok r' →
  bt_get (rk r) (bt_remove (rk r') d) = if decide (r = r') then None else bt_get (rk r) d.
Proof.
  intros Hd Hr Hr'. case_decide as E; [subst; by apply bt_get_remove_eq|].
  apply bt_get_remove_ne. intros Heq. apply E. symmetry. by apply rk_inj.
Qed.

(** ** The view *)

Section view.
Context `{Codec}.
Implicit Types d : store.

Definition meta_of d (id : bytes) : option ObjectMetadata :=
  bt_get (rk (KMeta id)) d ≫= ObjectMeta.from_bytes.
Definition event_of d (id : bytes) : option ObjectEvent :=
  bt_get (rk (KEvent id)) d ≫= event_decode.
Definition entry_of d (id key : bytes) : option ObjectVal :=
  bt_get (rk (KEntry id key)) d ≫= val_decode.

(** The version an object is at; an object without metadata is at version 0. *)
Definition meta_or_new d (id : bytes) : ObjectMetadata := default ObjectMeta.new (meta_of d id).
Definition version_of d (id : bytes) : Z := object_version (meta_or_new d id).

(** ** The invariant of a shard's store *)

(** A record of the store: its key is a record key, its value can be read. *)
Inductive rec_ok : bytes * bytes → Prop :=
| rec_meta id m : obj_ok id → ObjectMeta.wf m → rec_ok (rk (KMeta id), ObjectMeta.to_bytes m)
| rec_event id v : obj_ok id → rec_ok (rk (KEvent id), v)
| rec_entry id key v o :
    obj_ok id → key_ok key → val_decode v = Some o → rec_ok (rk (KEntry id key), v).

Definition store_ok d : Prop := Forall rec_ok d.

Lemma meta_roundtrip m : ObjectMeta.wf m → ObjectMeta.from_bytes (ObjectMeta.to_bytes m) = Some m.
Proof.
  intros. rewrite <- (app_nil_r (ObjectMeta.to_bytes m)). by apply metadata_roundtrip_aux.
Qed.

Lemma rec_ok_inv k v : rec_ok (k, v) → ∃ r, k = rk r ∧ rkey_ok r ∧
  match r with
  | KMeta _ => ∃ m, v = ObjectMeta.to_bytes m ∧ ObjectMeta.wf m
  | KEvent _ => True
  | KEntry _ _ => is_Some (val_decode v)
  end.
Proof.
  inversion 1; subst.
  - by exists (KMeta id); eauto.
  - by exists (KEvent id).
  - exists (KEntry id key). split; [done|]. split; [done|]. by eexists.
Qed.

(** What the invariant says of the record found under a key. *)
Lemma store_ok_get r v d :
  bt_wf d → store_ok d → rkey_ok r → bt_get (rk r) d = Some v →
  match r with
  | KMeta _ => ∃ m, v = ObjectMeta.to_bytes m ∧ ObjectMeta.wf m
  | KEvent _ => True
  | KEntry _ _ => is_Some (val_decode v)
  end.
Proof.
  intros Hw Hd Hr Hg. apply bt_get_elem in Hg; [|done].
  unfold store_ok in Hd. rewrite Forall_forall in Hd. apply Hd in Hg.
  apply rec_ok_inv in Hg as (r' & Heq & Hr' & Hv).
  apply rk_inj in Heq; [|done..]. by subst.
Qed.

Lemma meta_or_new_wf d id : bt_wf d → store_ok d → obj_ok id → ObjectMeta.wf (meta_or_new d id).
Proof.
  intros Hw Hd Hi. unfold meta_or_new, meta_of.
  destruct (bt_get (rk (KMeta id)) d) as [v|] eqn:E; simpl; [|apply new_wf].
  apply (store_ok_get (KMeta id)) in E as (m & -> & Hm); [|done..].
  by rewrite meta_roundtrip.
Qed.

Lemma store_ok_insert r v d : rec_ok (r, v) → store_ok d → store_ok (bt_insert r v d).
Proof. intros. by apply bt_insert_Forall. Qed.

Lemma store_ok_remove r d : store_ok d → store_ok (bt_remove r d).
Proof. apply bt_remove_Forall. Qed.

Lemma store_ok_filter (P : bytes * bytes → Prop) `{!∀ x, Decision (P x)} d :
  store_ok d → store_ok (filter P d).
Proof.
  unfold store_ok. rewrite !Forall_forall. intros Hd x [_ Hx]%list_elem_of_filter. auto.
Qed.

(** ** Writes seen through the view *)

Lemma meta_of_insert_meta d id m id' :
  obj_ok id → obj_ok id' → ObjectMeta.wf m →
  meta_of (bt_insert (rk (KMeta id)) (ObjectMeta.to_bytes m) d) id'
  = if decide (id' = id) then Some m else meta_of d id'.
Proof.
  intros. unfold meta_of. rewrite get_insert_rk by done.
  repeat case_decide; simplify_eq; try done. simpl. by rewrite meta_roundtrip.
Qed.

Lemma meta_of_insert_other d r v id :
  rkey_ok r → obj_ok id → r ≠ KMeta id → meta_of (bt_insert (rk r) v d) id = meta_of d id.
Proof. intros. unfold meta_of. rewrite get_insert_rk by done. by rewrite decide_False by done. Qed.

Lemma entry_of_insert_entry d id key v o id' key' :
  obj_ok id → key_ok key → obj_ok id' → key_ok key' → val_decode v = Some o →
  entry_of (bt_insert (rk (KEntry id key)) v d) id' key'
  = if decide (id' = id ∧ key' = key) then Some o else entry_of d id' key'.
Proof.
  intros. unfold entry_of. rewrite get_insert_rk by done.
  repeat case_decide; simplify_eq; try done; exfalso; naive_solver.
Qed.

Lemma entry_of_insert_other d r v id key :
  rkey_ok r → obj_ok id → key_ok key → r ≠ KEntry id key →
  entry_of (bt_insert (rk r) v d) id key = entry_of d id key.
Proof. intros. unfold entry_of. rewrite get_insert_rk by done. by rewrite decide_False by done. Qed.

Lemma event_of_insert_other d r v id :
  rkey_ok r → obj_ok id → r ≠ KEvent id → event_of (bt_insert (rk r) v d) id = event_of d id.
Proof. intros. unfold event_of. rewrite get_insert_rk by done. by rewrite decide_False by done. Qed.

Lemma entry_of_remove d id key id' key' :
  bt_wf d → obj_ok id → key_ok key → obj_ok id' → key_ok key' →
  entry_of (bt_remove (rk (KEntry id key)) d) id' key'
  = if decide (id' = id ∧ key' = key) then None else entry_of d id' key'.
Proof.
  intros. unfold entry_of. rewrite get_remove_rk by done.
  repeat case_decide; simplify_eq; try done; exfalso; naive_solver.
Qed.

Lemma meta_of_remove_entry d id key id' :
  bt_wf d → obj_ok id → key_ok key → obj_ok id' →
  meta_of (bt_remove (rk (KEntry id key)) d) id' = meta_of d id'.
Proof. intros. unfold meta_of. rewrite get_remove_rk by done. by rewrite decide_False by done. Qed.

(** On a consistent store an entry is stored exactly when the view has it. *)
Lemma contains_entry d id key :
  bt_wf d → store_ok d → obj_ok id → key_ok key →
  bt_contains (rk (KEntry id key)) d = bool_decide (is_Some (entry_of d id key)).
Proof.
  intros Hw Hd Hi Hk. unfold bt_contains, entry_of.
  destruct (bt_get _ d) as [v|] eqn:E; simpl; [|done].
  apply (store_ok_get (KEntry id key)) in E as [o Ho]; [|done..].
  rewrite Ho. done.
Qed.
End view.

#[export] Hint Resolve store_ok_insert store_ok_remove meta_or_new_wf : oprc.

(** ** Updates of one object *)

Section update.
Context `{Codec}.
Implicit Types d : store.

(** From [d] to [d'] the object [id] gets the entries [f], the metadata [m] and the event
    configuration [ev]; every other object stays as it is. *)
Record obj_update d d' (id : bytes) (f : bytes → option ObjectVal)
    (m : option ObjectMetadata) (ev : option ObjectEvent) : Prop := {
  upd_entries id' key : obj_ok id' → key_ok key →
    entry_of d' id' key = if decide (id' = id) then f key else entry_of d id' key;
  upd_meta id' : obj_ok id' →
    meta_of d' id' = if decide (id' = id) then m else meta_of d id';
  upd_event id' : obj_ok id' →
    event_of d' id' = if decide (id' = id) then ev else event_of d id';
}.

Lemma obj_update_trans d d1 d2 id f1 m1 e1 f2 m2 e2 :
  obj_update d d1 id f1 m1 e1 → obj_update d1 d2 id f2 m2 e2 →
  obj_update d d2 id f2 m2 e2.
Proof.
  intros [A1 B1 C1] [A2 B2 C2]. split; intros.
  - rewrite A2 by done. case_decide; [done|]. rewrite A1 by done. by rewrite decide_False.
  - rewrite B2 by done. case_decide; [done|]. rewrite B1 by done. by rewrite decide_False.
  - rewrite C2 by done. case_decide; [done|]. rewrite C1 by done. by rewrite decide_False.
Qed.

Lemma obj_update_ext d d' id f g m ev :
  (∀ key, key_ok key → f key = g key) → obj_update d d' id f m ev → obj_update d d' id g m ev.
Proof.
  intros Hfg [A B C]. split; intros; [|by apply B|by apply C].
  rewrite A by done. case_decide; auto.
Qed.

Lemma obj_update_refl d id : obj_update d d id (entry_of d id) (meta_of d id) (event_of d id).
Proof. split; intros; by case_decide; subst. Qed.

Lemma obj_update_entry d id key v o :
  obj_ok id → key_ok key → val_decode v = Some o →
  obj_update d (bt_insert (rk (KEntry id key)) v d) id
    (λ k, if decide (k = key) then Some o else entry_of d id k) (meta_of d id) (event_of d id).
Proof.
  intros Hi Hk Hv. split; intros.
  - rewrite (entry_of_insert_entry d id key v o) by done.
    repeat case_decide; naive_solver.
  - rewrite meta_of_insert_other by done. by case_decide; subst.
  - rewrite event_of_insert_other by done. by case_decide; subst.
Qed.

Lemma obj_update_meta d id m :
  obj_ok id → ObjectMeta.wf m →
  obj_update d (bt_insert (rk (KMeta id)) (ObjectMeta.to_bytes m) d) id
    (entry_of d id) (Some m) (event_of d id).
Proof.
  intros Hi Hm. split; intros.
  - rewrite entry_of_insert_other by done. by case_decide; subst.
  - by rewrite meta_of_insert_meta by done.
  - rewrite event_of_insert_other by done. by case_decide; subst.
Qed.

Lemma obj_update_event d id v :
  obj_ok id →
  obj_update d (bt_insert (rk (KEvent id)) v d) id
    (entry_of d id) (meta_of d id) (event_decode v).
Proof.
  intros Hi. split; intros.
  - rewrite entry_of_insert_other by done. by case_decide; subst.
  - rewrite meta_of_insert_other by done. by case_decide; subst.
  - unfold event_of. rewrite get_insert_rk by done. repeat case_decide; simplify_eq; done.
Qed.

Lemma obj_update_remove d id key :
  bt_wf d → obj_ok id → key_ok key →
  obj_update d (bt_remove (rk (KEntry id key)) d) id
    (λ k, if decide (k = key) then None else entry_of d id k) (meta_of d id) (event_of d id).
Proof.
  intros Hd Hi Hk. split; intros.
  - rewrite entry_of_remove by done. repeat case_decide; naive_solver.
  - rewrite meta_of_remove_entry by done. by case_decide; subst.
  - unfold event_of. rewrite get_remove_rk by done. repeat case_decide; simplify_eq; done.
Qed.

(** Writing the metadata as the last step of an update. *)
Lemma obj_update_then_meta d d1 id f m0 m ev :
  obj_ok id → ObjectMeta.wf m → obj_update d d1 id f m0 ev →
  obj_update d (bt_insert (rk (KMeta id)) (ObjectMeta.to_bytes m) d1) id f (Some m) ev.
Proof.
  intros Hi Hm [A B C]. split; intros.
  - rewrite entry_of_insert_other by done. by apply A.
  - rewrite meta_of_insert_meta by done. case_decide; [done|]. rewrite B by done.
    by rewrite decide_False.
  - rewrite event_of_insert_other by done. by apply C.
Qed.

Lemma obj_update_then_entry d d1 id f m ev key v o :
  obj_ok id → key_ok key → val_decode v = Some o → obj_update d d1 id f m ev →
  obj_update d (bt_insert (rk (KEntry id key)) v d1) id
    (λ k, if decide (k = key) then Some o else f k) m ev.
Proof.
  intros Hi Hk Hv [A B C]. split; intros.
  - rewrite (entry_of_insert_entry d1 id key v o), A by done. repeat case_decide; naive_solver.
  - rewrite meta_of_insert_other by done. by apply B.
  - rewrite event_of_insert_other by done. by apply C.
Qed.

Lemma obj_update_then_remove d d1 id f m ev key :
  bt_wf d1 → obj_ok id → key_ok key → obj_update d d1 id f m ev →
  obj_update d (bt_remove (rk (KEntry id key)) d1) id
    (λ k, if decide (k = key) then None else f k) m ev.
Proof.
  intros Hd Hi Hk [A B C]. split; intros.
  - rewrite entry_of_remove, A by done. repeat case_decide; naive_solver.
  - rewrite meta_of_remove_entry by done. by apply B.
  - unfold event_of. rewrite get_remove_rk by done. rewrite decide_False by done. by apply C.
Qed.

Lemma obj_update_meta_of d d' id f m ev :
  obj_ok id → obj_update d d' id f m ev → meta_of d' id = m.
Proof. intros Hi U. rewrite (upd_meta _ _ _ _ _ _ U) by done. by rewrite decide_True. Qed.
Lemma obj_update_event_of d d' id f m ev :
  obj_ok id → obj_update d d' id f m ev → event_of d' id = ev.
Proof. intros Hi U. rewrite (upd_event _ _ _ _ _ _ U) by done. by rewrite decide_True. Qed.
Lemma obj_update_entry_of d d' id f m ev key :
  obj_ok id → key_ok key → obj_update d d' id f m ev → entry_of d' id key = f key.
Proof. intros Hi Hk U. rewrite (upd_entries _ _ _ _ _ _ U) by done. by rewrite decide_True. Qed.
End update.
