(* ===== verification/EntryOps.v ===== *)
(** * Point and batch operations of the entry store

    Theorems on [ES.get_entry], [ES.set_entry], [ES.delete_entry], the batches and the
    metadata, against the view of [ObjectView]; for every storage and replication layer
    that keeps its contract. *)

From stdpp Require Import base tactics list numbers option gmap sorting strings.
From Stdlib Require Import Lia.
From S2P Require Import Prelude BTree Backend Memory Replication StorageKey GranularKey Events ObjectData Shard EntryStore ObjectView.

Section ops.
Context {R : Type} `{StorageLaws R} `{!ReplicationLayer R} `{!ReplicationLaws R}.
Context `{CodecLaws}.
Implicit Types s : Shard R.

(** The invariant of a shard. *)
Definition shard_inv s : Prop := sh_ok s ∧ store_ok (sh_contents s).

Lemma shard_wf s : sh_ok s → bt_wf (sh_contents s).
Proof. apply contents_wf. Qed.

Lemma get_metadata_ok id s :
  shard_inv s → obj_ok id → ES.get_metadata id s = (Ok (meta_of (sh_contents s) id), s).
Proof.
  intros [Hs Hd] Hi. unfold ES.get_metadata.
  erewrite bind_ok by (apply app_read, law_get, Hs). fold (sh_contents s).
  unfold meta_of. simpl rk. destruct (bt_get _ _) as [v|] eqn:E; simpl; [|done].
  apply (store_ok_get (KMeta id)) in E as (m & -> & Hm); [|by apply shard_wf|done..].
  by rewrite meta_roundtrip.
Qed.

Lemma metadata_or_default_ok id s :
  shard_inv s → obj_ok id →
  ES.metadata_or_default id s = (Ok (meta_or_new (sh_contents s) id), s).
Proof.
  intros. unfold ES.metadata_or_default. by erewrite bind_ok by by apply get_metadata_ok.
Qed.

Lemma set_metadata_ok id m s :
  sh_ok s → ∃ r, sto_inv r ∧
  contents r = bt_insert (rk (KMeta id)) (ObjectMeta.to_bytes m) (sh_contents s) ∧
  ES.set_metadata id m s = (Ok tt, set_rep r s).
Proof.
  intros Hs. destruct (replicate_write_ok (build_metadata_key id) (ObjectMeta.to_bytes m) s Hs)
    as (r & Hr & Hc & resp & E).
  exists r. split; [done|]. split; [done|]. unfold ES.set_metadata.
  by erewrite bind_ok by exact E.
Qed.

Lemma encode_value_ok v s : ∃ b, ES.encode_value v s = (Ok b, s) ∧ val_decode b = Some v.
Proof.
  destruct (codec_roundtrip v) as (b & Hb & Hd). exists b.
  unfold ES.encode_value, lift_res. by rewrite Hb.
Qed.

Lemma exists_ok id key s :
  shard_inv s → obj_ok id → key_ok key →
  app_storage (sto_exists (build_entry_key id key)) s
  = (Ok (bool_decide (is_Some (entry_of (sh_contents s) id key))), s).
Proof.
  intros [Hs Hd] Hi Hk. apply app_read. rewrite law_exists by done.
  rewrite <- contains_entry; [done|by apply shard_wf|done..].
Qed.

(** Reading an entry returns what the view holds; on a hit the read counter advances. *)
Lemma get_entry_ok id key s :
  shard_inv s → obj_ok id → key_ok key →
  ES.get_entry id key s
  = (Ok (entry_of (sh_contents s) id key),
     match entry_of (sh_contents s) id key with
     | Some _ => upd_metrics Metrics.inc_entry_reads s
     | None => s
     end).
Proof.
  intros [Hs Hd] Hi Hk. unfold ES.get_entry.
  erewrite bind_ok by (apply app_read, law_get, Hs). fold (sh_contents s).
  unfold entry_of. simpl rk. destruct (bt_get _ _) as [v|] eqn:E; simpl; [|done].
  apply (store_ok_get (KEntry id key)) in E as [o Ho]; [|by apply shard_wf|done..].
  by rewrite Ho.
Qed.

(** The event a mutation leaves in the queue. *)
Definition emitted (id : bytes) (before after : Z) (changed : list ChangedKey)
    (cfg : option ObjectEvent) s : option Dispatcher :=
  (λ d, (Dispatch.try_send (MutationCtx.with_event_config cfg
           (mutation id before after changed s)) d).2) <$> sh_dispatcher s.

(** [s'] differs from [s] only in its storage, counters and dispatcher. *)
Definition same_config s s' : Prop :=
  sh_meta s' = sh_meta s ∧ sh_has_event_manager s' = sh_has_event_manager s ∧
  sh_prefetch_limit s' = sh_prefetch_limit s ∧ sh_now s' = sh_now s.

Definition value_of_event s (v : ObjectVal) : option bytes :=
  if include_values s then Some (val_data v) else None.

(** Incrementing the version: the metadata is read, incremented and written back. *)
Lemma bump_version d0 id f ev s :
  shard_inv s → obj_ok id →
  obj_update d0 (sh_contents s) id f (meta_of d0 id) ev →
  ∃ r, let m := meta_or_new d0 id in
    ES.metadata_or_default id s = (Ok m, s) ∧
    ES.set_metadata id (ObjectMeta.increment_version m) s = (Ok tt, set_rep r s) ∧
    shard_inv (set_rep r s) ∧
    obj_update d0 (contents r) id f (Some (ObjectMeta.increment_version m)) ev.
Proof.
  intros Hi Ho U. pose proof Hi as [Hs Hd].
  assert (meta_or_new (sh_contents s) id = meta_or_new d0 id) as Hm.
  { unfold meta_or_new. by rewrite (obj_update_meta_of _ _ _ _ _ _ Ho U). }
  assert (ObjectMeta.wf (meta_or_new d0 id)) as Hw.
  { rewrite <- Hm. apply meta_or_new_wf; [by apply shard_wf|done..]. }
  apply increment_version_wf in Hw.
  destruct (set_metadata_ok id (ObjectMeta.increment_version (meta_or_new d0 id)) s Hs)
    as (r & Hr & Hc & E).
  exists r. cbv zeta. split; [by rewrite metadata_or_default_ok, Hm|]. split; [done|].
  rewrite Hc. split; [|by eapply obj_update_then_meta].
  split; [done|]. unfold sh_contents. simpl. rewrite Hc.
  apply store_ok_insert; [|done]. by apply (rec_meta id).
Qed.

Lemma write_entry id key v b s :
  shard_inv s → obj_ok id → key_ok key → val_decode b = Some v →
  ∃ r resp, replicate (write_op (build_entry_key id key) b) s = (Ok resp, set_rep r s) ∧
    shard_inv (set_rep r s) ∧
    obj_update (sh_contents s) (contents r) id
      (λ k, if decide (k = key) then Some v else entry_of (sh_contents s) id k)
      (meta_of (sh_contents s) id) (event_of (sh_contents s) id).
Proof.
  intros [Hs Hd] Hi Hk Hb.
  destruct (replicate_write_ok (build_entry_key id key) b s Hs) as (r & Hr & Hc & resp & E).
  exists r, resp. split; [done|]. split.
  - split; [done|]. unfold sh_contents. simpl. rewrite Hc. apply store_ok_insert; [|done].
    by apply (rec_entry id key b v).
  - rewrite Hc. by apply (obj_update_entry _ id key b v).
Qed.

Lemma v2_false s : v2_mode s = false → sh_dispatcher s = None.
Proof. unfold v2_mode. by rewrite bool_decide_eq_false, <- eq_None_not_Some. Qed.

(** Setting an entry: the view gets the value and the next version, nothing else
    changes, and one event reports the key with the versions before and after. *)
Lemma set_entry_ok id key v s :
  shard_inv s → obj_ok id → key_ok key →
  let d := sh_contents s in
  let m := meta_or_new d id in
  let m' := ObjectMeta.increment_version m in
  ∃ s', ES.set_entry id key v s = (Ok tt, s') ∧ shard_inv s' ∧ same_config s s' ∧
  obj_update d (sh_contents s') id
    (λ k, if decide (k = key) then Some v else entry_of d id k) (Some m') (event_of d id) ∧
  sh_dispatcher s' = emitted id (object_version m) (object_version m')
    [{| key_canonical := key;
        action := ES.entry_action (bool_decide (is_Some (entry_of d id key)));
        ck_value := value_of_event s v |}] (event_of d id) s.
Proof.
  intros Hinv Hi Hk d m m'. unfold ES.set_entry. rewrite bind_gets.
  destruct (encode_value_ok v s) as (b & Eb & Hb). rewrite (bind_ok _ _ _ _ _ Eb), bind_gets.
  destruct (write_entry id key v b s Hinv Hi Hk Hb) as (r1 & resp & E1 & Hinv1 & U1).
  destruct (bump_version d id _ _ (set_rep r1 s) Hinv1 Hi U1) as (r2 & E2 & E3 & Hinv2 & U2).
  assert (∀ k : bool → M (Shard R) ShardError unit,
    bind (if v2_mode s then app_storage (sto_exists (build_entry_key id key)) else ret false) k s
    = k (if v2_mode s then bool_decide (is_Some (entry_of d id key)) else false) s) as ->.
  { intros k. destruct (v2_mode s); [|done]. by erewrite bind_ok by by apply exists_ok. }
  rewrite (bind_ok _ _ _ _ _ E1), (bind_ok _ _ _ _ _ E2), (bind_ok _ _ _ _ _ E3), bind_modify.
  fold m m'. unfold emitted, value_of_event. destruct (v2_mode s) eqn:Hv.
  - erewrite bind_ok by (apply load_event_config_ok; apply Hinv2).
    eexists. split; [reflexivity|]. split; [exact Hinv2|]. split; [done|]. split; [exact U2|].
    simpl. apply option_fmap_ext. intros dd. do 2 f_equal. unfold mutation. f_equal.
    exact (obj_update_event_of _ _ _ _ _ _ Hi U2).
  - eexists. split; [reflexivity|]. split; [exact Hinv2|]. split; [done|]. split; [exact U2|].
    simpl. by rewrite v2_false.
Qed.

Lemma remove_entry id key s :
  shard_inv s → obj_ok id → key_ok key →
  ∃ r resp, replicate (Delete (build_entry_key id key)) s = (Ok resp, set_rep r s) ∧
    shard_inv (set_rep r s) ∧ contents r = bt_remove (rk (KEntry id key)) (sh_contents s).
Proof.
  intros [Hs Hd] Hi Hk.
  destruct (replicate_delete_ok (build_entry_key id key) s Hs) as (r & Hr & Hc & resp & E).
  exists r, resp. split; [done|]. split; [|done].
  split; [done|]. unfold sh_contents. simpl. rewrite Hc. by apply store_ok_remove.
Qed.

(** Deleting an entry that is stored removes it and advances the version by one. The
    event carries no trigger configuration. *)
Lemma delete_entry_ok id key s :
  shard_inv s → obj_ok id → key_ok key → is_Some (entry_of (sh_contents s) id key) →
  let d := sh_contents s in
  let m := meta_or_new d id in
  let m' := ObjectMeta.increment_version m in
  ∃ s', ES.delete_entry id key s = (Ok tt, s') ∧ shard_inv s' ∧ same_config s s' ∧
  obj_update d (sh_contents s') id
    (λ k, if decide (k = key) then None else entry_of d id k) (Some m') (event_of d id) ∧
  sh_dispatcher s' = emitted id (object_version m) (object_version m')
    [{| key_canonical := key; action := ADelete; ck_value := None |}] None s.
Proof.
  intros Hinv Hi Hk He d m m'. unfold ES.delete_entry.
  erewrite bind_ok by by apply exists_ok. rewrite bool_decide_true by done. cbn [negb].
  destruct (remove_entry id key s Hinv Hi Hk) as (r1 & resp & E1 & Hinv1 & Hc1).
  assert (obj_update d (sh_contents (set_rep r1 s)) id
    (λ k, if decide (k = key) then None else entry_of d id k)
    (meta_of d id) (event_of d id)) as U1.
  { unfold sh_contents. simpl. rewrite Hc1. apply obj_update_remove; [|done..].
    apply shard_wf, Hinv. }
  destruct (bump_version d id _ _ (set_rep r1 s) Hinv1 Hi U1) as (r2 & E2 & E3 & Hinv2 & U2).
  rewrite (bind_ok _ _ _ _ _ E1), (bind_ok _ _ _ _ _ E2), (bind_ok _ _ _ _ _ E3), bind_gets.
  fold m m'. unfold emitted. destruct (v2_mode (set_rep r2 (set_rep r1 s))) eqn:Hv.
  - rewrite bind_modify. eexists. split; [reflexivity|].
    split; [exact Hinv2|]. split; [done|]. by split.
  - rewrite bind_ret. eexists. split; [reflexivity|].
    split; [exact Hinv2|]. split; [done|]. split; [done|].
    apply v2_false in Hv. simpl in *. by rewrite Hv.
Qed.

(** Deleting an entry that is not there does nothing. *)
Lemma delete_entry_absent id key s :
  shard_inv s → obj_ok id → key_ok key → entry_of (sh_contents s) id key = None →
  ES.delete_entry id key s = (Ok tt, s).
Proof.
  intros Hinv Hi Hk He. unfold ES.delete_entry.
  erewrite bind_ok by by apply exists_ok. by rewrite He.
Qed.

(** ** Batches *)

(** The entries after a batch: the batch's values, then the old ones. *)
Definition override (values : list (bytes * ObjectVal)) (f : bytes → option ObjectVal)
    (k : bytes) : option ObjectVal :=
  match bt_get k values with Some v => Some v | None => f k end.

Lemma encode_batch_ok id values s :
  obj_ok id → Forall key_ok values.*1 → NoDup values.*1 →
  ∃ ops, ES.encode_batch id values s = (Ok ops, s) ∧
  ∀ d0 d1 f m ev, bt_wf d1 → store_ok d1 → obj_update d0 d1 id f m ev →
  ∃ d2, ops_effect ops d1 = Some d2 ∧ bt_wf d2 ∧ store_ok d2 ∧
        obj_update d0 d2 id (override values f) m ev.
Proof.
  intros Hi. induction values as [|[k v] values IH]; intros Hk Hn; simpl in *.
  { exists []. split; [done|]. intros. exists d1. done. }
  inversion_clear Hk as [|?? Hk1 Hk2]. apply NoDup_cons in Hn as [Hnk Hn].
  destruct (encode_value_ok v s) as (b & Eb & Hb). destruct (IH Hk2 Hn) as (ops & Eo & Ho).
  exists (write_op (build_entry_key id k) b :: ops).
  split; [by rewrite (bind_ok _ _ _ _ _ Eb), (bind_ok _ _ _ _ _ Eo)|].
  intros d0 d1 f m ev Hw Hd U. simpl.
  destruct (Ho d0 (bt_insert (rk (KEntry id k)) b d1)
    (λ k', if decide (k' = k) then Some v else f k') m ev) as (d2 & E2 & Hw2 & Hd2 & U2).
  - by apply bt_insert_wf.
  - apply store_ok_insert; [|done]. by apply (rec_entry id k b v).
  - by eapply obj_update_then_entry.
  - exists d2. split; [done|]. split; [done|]. split; [done|].
    eapply obj_update_ext; [|exact U2]. intros k' _. unfold override. simpl.
    case_cmp k' k; [|by rewrite decide_False by by apply cmp_lt_ne|].
    + rewrite bt_get_notin by done. by rewrite decide_True.
    + rewrite decide_False; [done|]. intros ->. by apply (cmp_irrefl k).
Qed.

Lemma pre_exist_ok id keys acc s :
  shard_inv s → obj_ok id → Forall key_ok keys →
  ∃ m, ES.pre_exist_loop id keys acc s = (Ok m, s) ∧
  ∀ k, m !! k = if decide (k ∈ keys)
                then Some (bool_decide (is_Some (entry_of (sh_contents s) id k)))
                else acc !! k.
Proof.
  intros Hinv Hi. revert acc. induction keys as [|k keys IH]; intros acc Hk; simpl.
  { by exists acc. }
  inversion_clear Hk as [|?? Hk1 Hk2].
  erewrite bind_ok by by apply exists_ok.
  destruct (IH (<[k:=bool_decide (is_Some (entry_of (sh_contents s) id k))]> acc) Hk2)
    as (m & E & Hm). exists m. split; [done|]. intros k'. rewrite Hm, lookup_insert.
  repeat case_decide; set_solver.
Qed.

Lemma raw_data_lookup (values : list (bytes * ObjectVal)) (acc : gmap bytes bytes) k :
  NoDup values.*1 →
  foldl (λ m kv, <[kv.1 := val_data kv.2]> m) acc values !! k
  = match bt_get k values with Some v => Some (val_data v) | None => acc !! k end.
Proof.
  revert acc. induction values as [|[k' v] values IH]; intros acc; simpl; [done|].
  intros [Hk Hn]%NoDup_cons. rewrite IH by done. rewrite lookup_insert.
  case_cmp k k'; [rewrite bt_get_notin by done; by rewrite decide_True| |].
  - by rewrite decide_False by (intros ->; by apply (cmp_irrefl k)).
  - by rewrite decide_False by (intros ->; by apply (cmp_irrefl k)).
Qed.

(** What the event of a batch reports for each key. *)
Definition batch_changes s (id : bytes) (values : list (bytes * ObjectVal)) : list ChangedKey :=
  (λ kv, {| key_canonical := kv.1;
            action := ES.entry_action (bool_decide (is_Some (entry_of (sh_contents s) id kv.1)));
            ck_value := value_of_event s kv.2 |}) <$> values.

Lemma changed_loop_ok s id values pre raw :
  NoDup values.*1 →
  (∀ k, k ∈ values.*1 → pre !! k = Some (bool_decide (is_Some (entry_of (sh_contents s) id k)))) →
  (∀ k v, (k, v) ∈ values → raw !! k = value_of_event s v) →
  ES.changed_loop values.*1 pre raw = batch_changes s id values.
Proof.
  revert raw. induction values as [|[k v] values IH]; intros raw Hn Hp Hr; [done|].
  simpl in *. apply NoDup_cons in Hn as [Hk Hn].
  rewrite Hp by set_solver. rewrite (Hr k v) by set_solver. simpl. f_equal.
  apply IH; [done|set_solver|]. intros k' v' Hin. rewrite lookup_delete_ne; [set_solver|].
  intros ->. apply Hk. apply list_elem_of_fmap. by exists (k', v').
Qed.

(** A batch whose expected version, if any, is the current one writes all its values
    and advances the version exactly once; one event lists all its keys. *)
Lemma batch_set_ok id values expected s :
  shard_inv s → obj_ok id → Forall key_ok values.*1 → NoDup values.*1 → values ≠ [] →
  let d := sh_contents s in
  let m := meta_or_new d id in
  let m' := ObjectMeta.increment_version m in
  (∀ e, expected = Some e → e = object_version m) →
  ∃ s', ES.batch_set_entries id values expected s = (Ok (object_version m'), s') ∧
  shard_inv s' ∧ same_config s s' ∧
  obj_update d (sh_contents s') id (override values (entry_of d id)) (Some m') (event_of d id) ∧
  sh_dispatcher s' = emitted id (object_version m) (object_version m')
    (batch_changes s id values) (event_of d id) s.
Proof.
  intros Hinv Hi Hk Hn Hne d m m' Hexp. pose proof Hinv as [Hs Hd].
  assert (bt_wf d) as Hw by by apply shard_wf.
  destruct (encode_batch_ok id values s Hi Hk Hn) as (ops & Eo & Ho).
  destruct (Ho d d _ _ _ Hw Hd (obj_update_refl d id)) as (d2 & E2 & Hw2 & Hd2 & U2).
  assert (ObjectMeta.wf m') as Hmw by (apply increment_version_wf; by apply meta_or_new_wf).
  destruct (replicate_batch_ok
    (ops ++ [write_op (build_metadata_key id) (ObjectMeta.to_bytes m')])
    (bt_insert (rk (KMeta id)) (ObjectMeta.to_bytes m') d2) s Hs) as (r & Hr & Hc & resp & Er).
  { rewrite ops_effect_app. fold d. by rewrite E2. }
  eapply obj_update_then_meta in U2; [|exact Hi|exact Hmw]. rewrite <- Hc in U2.
  assert (shard_inv (set_rep r s)) as Hinv'.
  { split; [done|]. unfold sh_contents. simpl. rewrite Hc. apply store_ok_insert; [|done].
    by apply (rec_meta id). }
  unfold ES.batch_set_entries. destruct values as [|kv0 vs]; [done|].
  set (values := kv0 :: vs) in *.
  erewrite bind_ok by by apply metadata_or_default_ok. fold d m m'.
  assert (∀ k : unit → M (Shard R) ShardError Z,
    bind (match expected with
          | Some e => if (object_version m =? e)%Z then ret tt
                      else throw (VersionMismatch e (object_version m))
          | None => ret tt end) k s = k tt s) as ->.
  { intros k. destruct expected as [e|]; [|done]. by rewrite (Hexp e eq_refl), Z.eqb_refl. }
  rewrite !bind_gets.
  destruct (v2_mode s) eqn:Hv.
  - destruct (pre_exist_ok id values.*1 ∅ s Hinv Hi Hk) as (pre & Ep & Hp).
    rewrite (bind_ok _ _ _ _ _ Ep), (bind_ok _ _ _ _ _ Eo), (bind_ok _ _ _ _ _ Er), bind_modify.
    rewrite (changed_loop_ok s id values); [|done| |].
    + rewrite bind_assoc. erewrite bind_ok by (apply load_event_config_ok; apply Hinv').
      rewrite bind_modify. eexists. split; [reflexivity|]. split; [exact Hinv'|].
      split; [done|]. split; [exact U2|]. unfold emitted.
      apply option_fmap_ext. intros dd. do 2 f_equal. unfold mutation. f_equal.
      exact (obj_update_event_of _ _ _ _ _ _ Hi U2).
    + intros k Hin. rewrite Hp. by rewrite decide_True.
    + intros k v Hin. unfold value_of_event. cbn [andb]. destruct (include_values s); [|done].
      rewrite raw_data_lookup by done. by rewrite (bt_get_NoDup k v).
  - rewrite bind_ret, (bind_ok _ _ _ _ _ Eo), (bind_ok _ _ _ _ _ Er), bind_modify.
    eexists. split; [reflexivity|]. split; [exact Hinv'|].
    split; [done|]. split; [exact U2|]. simpl. unfold emitted. by rewrite v2_false.
Qed.

(** A stale expected version is refused and changes nothing. *)
Lemma batch_set_mismatch id values e s :
  shard_inv s → obj_ok id → values ≠ [] → e ≠ version_of (sh_contents s) id →
  ES.batch_set_entries id values (Some e) s
  = (Err (VersionMismatch e (version_of (sh_contents s) id)), s).
Proof.
  intros Hinv Hi Hne He. unfold ES.batch_set_entries. destruct values as [|kv0 vs]; [done|].
  erewrite bind_ok by by apply metadata_or_default_ok. fold (version_of (sh_contents s) id).
  by rewrite (proj2 (Z.eqb_neq _ _)) by done.
Qed.

(** ** Batch deletion *)

(** The entries after deleting [keys]. *)
Definition without (keys : list bytes) (f : bytes → option ObjectVal) (k : bytes) :=
  if decide (k ∈ keys) then None else f k.

Lemma without_cons key keys f k :
  without (key :: keys) f k = if decide (k = key) then None else without keys f k.
Proof. unfold without. repeat case_decide; set_solver. Qed.

Lemma delete_loop_ok id keys acc s :
  shard_inv s → obj_ok id → Forall key_ok keys →
  let d := sh_contents s in
  ∃ s' del, ES.delete_loop id keys acc s = (Ok (acc ++ del), s') ∧ shard_inv s' ∧
  same_config s s' ∧ sh_dispatcher s' = sh_dispatcher s ∧
  obj_update d (sh_contents s') id (without keys (entry_of d id)) (meta_of d id) (event_of d id) ∧
  NoDup del ∧ ∀ k, k ∈ del ↔ k ∈ keys ∧ is_Some (entry_of d id k).
Proof.
  intros Hinv Hi. revert acc s Hinv. induction keys as [|key keys IH]; intros acc s Hinv Hk d; simpl.
  { exists s, []. rewrite app_nil_r. do 4 (split; [done|]).
    split; [|split; [constructor|set_solver]].
    eapply obj_update_ext; [|apply obj_update_refl]. done. }
  inversion_clear Hk as [|?? Hk1 Hk2].
  erewrite bind_ok by by apply exists_ok. case_bool_decide as He.
  - destruct (remove_entry id key s Hinv Hi Hk1) as (r & resp & E1 & Hinv1 & Hc).
    rewrite (bind_ok _ _ _ _ _ E1), bind_modify.
    set (s1 := upd_metrics _ (set_rep r s)).
    assert (obj_update d (sh_contents s1) id (λ k, if decide (k = key) then None else entry_of d id k)
      (meta_of d id) (event_of d id)) as U1.
    { unfold s1, sh_contents. simpl. rewrite Hc. apply obj_update_remove; [|done..].
      apply shard_wf, Hinv. }
    destruct (IH (acc ++ [key]) s1 Hinv1 Hk2) as (s' & del & E & Hinv' & Hsc & Hdi & U & Hn & Hdel).
    exists s', (key :: del). rewrite E, <- app_assoc. split; [done|]. split; [done|].
    split; [by destruct Hsc as (? & ? & ? & ?)|]. split; [done|].
    assert (∀ k, k ∈ del ↔ k ∈ keys ∧ k ≠ key ∧ is_Some (entry_of d id k)) as Hdel'.
    { intros k. rewrite Hdel. split.
      - intros [Hin Hs']. assert (key_ok k) as Hkk by (rewrite Forall_forall in Hk2; auto).
        rewrite (obj_update_entry_of _ _ _ _ _ _ _ Hi Hkk U1) in Hs'. case_decide; [|done].
        by destruct Hs'.
      - intros (Hin & Hne & Hs'). split; [done|].
        assert (key_ok k) as Hkk by (rewrite Forall_forall in Hk2; auto).
        rewrite (obj_update_entry_of _ _ _ _ _ _ _ Hi Hkk U1). by rewrite decide_False. }
    split; [|split].
    + rewrite (obj_update_meta_of _ _ _ _ _ _ Hi U1) in U.
      rewrite (obj_update_event_of _ _ _ _ _ _ Hi U1) in U.
      eapply obj_update_ext; [|by eapply obj_update_trans].
      intros k Hkk. rewrite without_cons. unfold without.
      rewrite (obj_update_entry_of _ _ _ _ _ _ _ Hi Hkk U1). by repeat case_decide.
    + constructor; [|done]. rewrite Hdel'. naive_solver.
    + intros k. rewrite !elem_of_cons, Hdel'. split; [naive_solver|].
      intros [[->|Hin] Hs']; [auto|]. destruct (decide (k = key)); auto.
  - destruct (IH acc s Hinv Hk2) as (s' & del & E & Hinv' & Hsc & Hdi & U & Hn & Hdel).
    exists s', del. do 4 (split; [done|]). split; [|split; [done|]].
    + eapply obj_update_ext; [|exact U]. intros k Hkk. rewrite without_cons.
      case_decide as Hkey; [|done]. subst k. unfold without. case_decide; [done|].
      by apply eq_None_not_Some.
    + intros k. rewrite Hdel, elem_of_cons. naive_solver.
Qed.

(** Batch deletion removes the keys that are stored and, if there is one, advances the
    version once; the event lists exactly the keys removed. *)
Lemma batch_delete_ok id keys s :
  shard_inv s → obj_ok id → Forall key_ok keys →
  let d := sh_contents s in
  let m := meta_or_new d id in
  let m' := ObjectMeta.increment_version m in
  ∃ s' del, ES.batch_delete_entries id keys s = (Ok tt, s') ∧ shard_inv s' ∧ same_config s s' ∧
  NoDup del ∧ (∀ k, k ∈ del ↔ k ∈ keys ∧ is_Some (entry_of d id k)) ∧
  obj_update d (sh_contents s') id (without keys (entry_of d id))
    (if decide (del = []) then meta_of d id else Some m') (event_of d id) ∧
  sh_dispatcher s' =
    if decide (del = []) then sh_dispatcher s
    else emitted id (object_version m) (object_version m')
      ((λ k, {| key_canonical := k; action := ADelete; ck_value := None |}) <$> del)
      (event_of d id) s.
Proof.
  intros Hinv Hi Hk d m m'. unfold ES.batch_delete_entries. rewrite bind_gets.
  destruct (delete_loop_ok id keys [] s Hinv Hi Hk)
    as (s1 & del & E1 & Hinv1 & Hsc & Hdi & U1 & Hn & Hdel).
  rewrite (bind_ok _ _ _ _ _ E1). change ([] ++ del) with del.
  case_bool_decide as Hnil.
  { exists s1, del. rewrite !decide_True by done. by do 6 (split; [done|]). }
  destruct (bump_version d id _ _ s1 Hinv1 Hi U1) as (r & E2 & E3 & Hinv2 & U2).
  rewrite (bind_ok _ _ _ _ _ E2), (bind_ok _ _ _ _ _ E3). fold m m'.
  destruct Hsc as (Hm1 & Hm2 & Hm3 & Hm4).
  destruct (v2_mode s) eqn:Hv.
  - erewrite bind_ok by (apply load_event_config_ok; apply Hinv2).
    eexists _, del. split; [reflexivity|]. split; [exact Hinv2|]. split; [done|].
    split; [done|]. split; [done|]. rewrite !decide_False by done. split; [exact U2|].
    simpl. rewrite Hdi. unfold emitted. apply option_fmap_ext. intros dd. do 2 f_equal.
    unfold mutation, class_id, partition_id_u16. simpl. rewrite Hm1. f_equal.
    exact (obj_update_event_of _ _ _ _ _ _ Hi U2).
  - eexists _, del. split; [reflexivity|]. split; [exact Hinv2|]. split; [done|].
    split; [done|]. split; [done|]. rewrite !decide_False by done. split; [exact U2|].
    simpl. rewrite Hdi. unfold emitted. by rewrite v2_false.
Qed.
End ops.

(** ** Theorems *)

Section theorems.
Context {R : Type} `{StorageLaws R} `{!ReplicationLayer R} `{!ReplicationLaws R}.
Context `{CodecLaws}.
Implicit Types s : Shard R.

(** C2. [set_entry] succeeds, writes the value under its object and key and nothing else,
    advances the object's version by one (saturating) and queues one event that tells a
    creation from an update and carries the versions before and after and the object's
    trigger configuration. *)
Theorem set_entry_correct id key v s :
  shard_inv s → obj_ok id → key_ok key →
  let d := sh_contents s in
  let m := meta_or_new d id in
  let m' := ObjectMeta.increment_version m in
  ∃ s', ES.set_entry id key v s = (Ok tt, s') ∧ shard_inv s' ∧ same_config s s' ∧
  obj_update d (sh_contents s') id
    (λ k, if decide (k = key) then Some v else entry_of d id k) (Some m') (event_of d id) ∧
  sh_dispatcher s' = emitted id (object_version m) (object_version m')
    [{| key_canonical := key;
        action := ES.entry_action (bool_decide (is_Some (entry_of d id key)));
        ck_value := value_of_event s v |}] (event_of d id) s.
Proof. apply set_entry_ok. Qed.

(** C1. A value written is read back: [get_entry] after [set_entry] of the same object and
    key returns it, after a write elsewhere it returns what it returned before. *)
Theorem get_after_set id key v id' key' s s' :
  shard_inv s → obj_ok id → key_ok key → obj_ok id' → key_ok key' →
  ES.set_entry id key v s = (Ok tt, s') →
  (ES.get_entry id' key' s').1
  = if decide (id' = id ∧ key' = key) then Ok (Some v) else (ES.get_entry id' key' s).1.
Proof.
  intros Hinv Hi Hk Hi' Hk' E.
  destruct (set_entry_ok id key v s Hinv Hi Hk) as (s1 & E1 & Hinv1 & _ & U & _).
  rewrite E in E1. injection E1 as <-. rewrite !get_entry_ok by done. simpl.
  rewrite (upd_entries _ _ _ _ _ _ U) by done.
  destruct (decide (id' = id)) as [->|Hne]; [|rewrite decide_False; [done|naive_solver]].
  destruct (decide (key' = key)) as [->|Hne]; [by rewrite decide_True|].
  rewrite decide_False; [done|naive_solver].
Qed.

(** [delete_entry]: an entry that is stored is removed, the version advances by one and
    one event is queued; otherwise nothing happens, not even an event. The event of a
    deletion never carries the object's trigger configuration. *)
Theorem delete_entry_correct id key s :
  shard_inv s → obj_ok id → key_ok key →
  let d := sh_contents s in
  let m := meta_or_new d id in
  let m' := ObjectMeta.increment_version m in
  if decide (is_Some (entry_of d id key)) then
    ∃ s', ES.delete_entry id key s = (Ok tt, s') ∧ shard_inv s' ∧
    obj_update d (sh_contents s') id
      (λ k, if decide (k = key) then None else entry_of d id k) (Some m') (event_of d id) ∧
    sh_dispatcher s' = emitted id (object_version m) (object_version m')
      [{| key_canonical := key; action := ADelete; ck_value := None |}] None s
  else ES.delete_entry id key s = (Ok tt, s).
Proof.
  intros Hinv Hi Hk. cbv zeta. case_decide as He.
  - destruct (delete_entry_ok id key s Hinv Hi Hk He) as (s' & ? & ? & _ & ? & ?). eauto.
  - apply delete_entry_absent; [done..|]. by apply eq_None_not_Some.
Qed.


(** [batch_delete_entries] removes every listed key, advances the version once if any of
    them was stored and not at all otherwise, and reports exactly the keys removed. *)
Theorem batch_delete_correct id keys s :
  shard_inv s → obj_ok id → Forall key_ok keys →
  let d := sh_contents s in
  let m := meta_or_new d id in
  let m' := ObjectMeta.increment_version m in
  ∃ s' del, ES.batch_delete_entries id keys s = (Ok tt, s') ∧ shard_inv s' ∧ same_config s s' ∧
  NoDup del ∧ (∀ k, k ∈ del ↔ k ∈ keys ∧ is_Some (entry_of d id k)) ∧
  obj_update d (sh_contents s') id (without keys (entry_of d id))
    (if decide (del = []) then meta_of d id else Some m') (event_of d id) ∧
  sh_dispatcher s' =
    if decide (del = []) then sh_dispatcher s
    else emitted id (object_version m) (object_version m')
      ((λ k, {| key_canonical := k; action := ADelete; ck_value := None |}) <$> del)
      (event_of d id) s.
Proof. apply batch_delete_ok. Qed.
End theorems.

(** ** Witnesses: the operations on a shard in memory *)

Import Demo.

Lemma demo_inv : shard_inv Demo.shard.
Proof. split; [constructor|constructor]. Qed.

Definition demo_set (key v : string) (s : Shard MemoryStorage) : Shard MemoryStorage :=
  (ES.set_entry (bs "o") (bs key) (Demo.val v) s).2.

Lemma set_entry_correct_witness :
  ∃ s', ES.set_entry (bs "o") (bs "k") (Demo.val "v") Demo.shard = (Ok tt, s') ∧
  entry_of (sh_contents s') (bs "o") (bs "k") = Some (Demo.val "v") ∧
  version_of (sh_contents s') (bs "o") = 1%Z.
Proof.
  destruct (set_entry_correct (bs "o") (bs "k") (Demo.val "v") Demo.shard demo_inv
    ltac:(decide_now) ltac:(decide_now)) as (s' & E & _).
  exists s'. split; [exact E|]. vm_compute in E. injection E as <-. by vm_compute.
Defined.

Lemma get_after_set_witness :
  (ES.get_entry (bs "o") (bs "k") (demo_set "k" "v" Demo.shard)).1 = Ok (Some (Demo.val "v")).
Proof.
  rewrite (get_after_set (bs "o") (bs "k") (Demo.val "v") (bs "o") (bs "k") Demo.shard
    (demo_set "k" "v" Demo.shard) demo_inv ltac:(decide_now) ltac:(decide_now)
    ltac:(decide_now) ltac:(decide_now) ltac:(vm_compute; reflexivity)).
  reflexivity.
Defined.

Lemma delete_entry_correct_witness :
  ES.delete_entry (bs "o") (bs "k") Demo.shard = (Ok tt, Demo.shard).
Proof.
  pose proof (delete_entry_correct (bs "o") (bs "k") Demo.shard demo_inv
    ltac:(decide_now) ltac:(decide_now)) as H. exact H.
Defined.


Lemma batch_delete_correct_witness :
  ∃ s', ES.batch_delete_entries (bs "o") [bs "a"] Demo.shard = (Ok tt, s') ∧ shard_inv s'.
Proof.
  destruct (batch_delete_correct (bs "o") [bs "a"] Demo.shard demo_inv
    ltac:(decide_now) ltac:(decide_now)) as (s' & _ & E & Hinv & _).
  exists s'. exact (conj E Hinv).
Defined.
