(* ===== verification/EntryList.v ===== *)
(** * Listing the entries of an object

    What [ES.list_entries] and [ES.count_entries] return without a key prefix, page by
    page, and that walking the pages visits every entry once; with a key prefix, what is
    missed. *)

From stdpp Require Import base tactics list numbers option gmap sorting strings.
From Stdlib Require Import Lia.
From S2P Require Import Prelude BTree Backend Memory Replication StorageKey GranularKey Events ObjectData Shard EntryStore ObjectView EntryOps.

Section listing.
Context {R : Type} `{StorageLaws R} `{!ReplicationLayer R} `{!ReplicationLaws R}.
Context `{CodecLaws}.
Implicit Types s : Shard R.

(** ** The specification: rows, visible rows, pages *)

Definition range_end (id : bytes) : bytes := compute_object_range_end (build_object_prefix id).

(** The rows of an object from a key on. *)
Definition rows_from (id start : bytes) (d : store) : store :=
  bt_in_range (Included start) (Excluded (range_end id)) d.

(** The entry a row shows: its raw key, its entry key and its value. *)
Definition vis (id : bytes) (row : bytes * bytes) : option (bytes * (bytes * ObjectVal)) :=
  match ES.own_entry id row.1 with
  | Ok (Some e) => (λ o, (row.1, (e, o))) <$> val_decode row.2
  | _ => None
  end.

(** Collect [n] visible rows; the rows that follow the last one taken. *)
Fixpoint collect (id : bytes) (n : nat) (rows : store) :
    list (bytes * (bytes * ObjectVal)) * store :=
  match n, rows with
  | O, _ => ([], rows)
  | S _, [] => ([], [])
  | S n', row :: rows =>
      match vis id row with
      | None => collect id n rows
      | Some x => let (c, rest) := collect id n' rows in (x :: c, rest)
      end
  end.

(** A resumed listing leaves out the row its cursor names. *)
Definition drop_cursor (start : bytes) (rows : store) : store :=
  match rows with
  | (k, v) :: rest => if bool_decide (k = start) then rest else rows
  | [] => []
  end.

(** Every key of the rows can be parsed. *)
Definition parseable (id : bytes) (rows : store) : Prop :=
  Forall (λ row, ∃ e, ES.own_entry id row.1 = Ok e) rows.

Lemma collect_0 id rows : collect id 0 rows = ([], rows).
Proof. by destruct rows. Qed.

Lemma collect_fst id n rows : (collect id n rows).1 = take n (omap (vis id) rows).
Proof.
  revert n. induction rows as [|row rows IH]; intros [|n]; [done..|].
  simpl. destruct (vis id row) as [x|]; simpl; [|apply (IH (S n))].
  destruct (collect id n rows) as [c rest] eqn:E. simpl. specialize (IH n).
  rewrite E in IH. simpl in IH. by rewrite IH.
Qed.

Lemma collect_length id n rows : length (collect id n rows).1 ≤ n.
Proof. rewrite collect_fst, length_take. lia. Qed.

(** A page that is not full has used up the rows. *)
Lemma collect_short id n rows : length (collect id n rows).1 < n → (collect id n rows).2 = [].
Proof.
  revert n. induction rows as [|row rows IH]; intros [|n]; simpl; [lia|done|lia|].
  destruct (vis id row) as [x|]; [|apply IH]. specialize (IH n).
  destruct (collect id n rows) as [c rest]. simpl in *. intros. apply IH. lia.
Qed.

Lemma collect_app id n rows1 rows2 :
  collect id n (rows1 ++ rows2)
  = let (c, rest) := collect id n rows1 in
    if decide (length c < n)
    then let (c2, rest2) := collect id (n - length c) rows2 in (c ++ c2, rest2)
    else (c, rest ++ rows2).
Proof.
  revert n. induction rows1 as [|row rows1 IH]; intros [|n].
  - simpl. by rewrite collect_0.
  - simpl. by destruct (collect id (S n) rows2).
  - done.
  - simpl. destruct (vis id row) as [x|]; [|apply IH]. rewrite IH.
    destruct (collect id n rows1) as [c rest]. simpl.
    repeat case_decide; try lia; [|done].
    by destruct (collect id (n - length c) rows2).
Qed.

(** A full page splits the rows at the last one it took. *)
Lemma collect_full id n rows :
  n ≠ 0 → length (collect id n rows).1 = n →
  ∃ pre k v e o, rows = pre ++ (k, v) :: (collect id n rows).2 ∧
    last (collect id n rows).1 = Some (k, (e, o)) ∧ vis id (k, v) = Some (k, (e, o)).
Proof.
  revert n. induction rows as [|[k v] rows IH]; intros [|n] Hn; simpl; try done.
  destruct (vis id (k, v)) as [[k' [e o]]|] eqn:E.
  - assert (k' = k) as ->.
    { unfold vis in E. simpl in E. repeat case_match; simplify_eq.
      by apply fmap_Some in E as (? & _ & [= <- _ _]). }
    destruct n as [|n].
    + rewrite collect_0. simpl. intros _. by exists [], k, v, e, o.
    + specialize (IH (S n) ltac:(done)).
      destruct (collect id (S n) rows) as [c rest] eqn:Ec. simpl in *. intros [= Hl].
      destruct (IH Hl) as (pre & k1 & v1 & e1 & o1 & Hr & Hlast & Hv).
      exists ((k, v) :: pre), k1, v1, e1, o1. simpl. rewrite Hr. split; [done|].
      split; [|done]. by destruct c.
  - intros Hl. destruct (IH (S n) Hn Hl) as (pre & k1 & v1 & e1 & o1 & Hr & Hlast & Hv).
    exists ((k, v) :: pre), k1, v1, e1, o1. split; [simpl; congruence|done].
Qed.

(** ** One chunk *)

(** The loop variables after [c] was collected. *)
Definition advance (l : ES.Listing) (c : list (bytes * (bytes * ObjectVal))) : ES.Listing :=
  {| ES.l_entries := ES.l_entries l ++ c.*2;
     ES.l_last := match last c with Some x => Some x.1 | None => ES.l_last l end;
     ES.l_more := ES.l_more l; ES.l_seen := ES.l_seen l;
     ES.l_exhausted := ES.l_exhausted l; ES.l_skip := false |}.

Lemma advance_nil l : advance l [] = ES.no_skip l.
Proof. unfold advance, ES.no_skip. simpl. by rewrite app_nil_r. Qed.

Lemma advance_app l c1 c2 : advance (advance l c1) c2 = advance l (c1 ++ c2).
Proof.
  unfold advance. simpl. rewrite fmap_app, app_assoc, last_app. by destruct (last c2).
Qed.

Lemma scan_chunk_spec id lim start cur chunk l :
  parseable id chunk → ES.l_skip l = false → length (ES.l_entries l) < lim →
  let '(c, rest) := collect id (lim - length (ES.l_entries l)) chunk in
  ES.scan_chunk id None lim start cur chunk l
  = if decide (length c = lim - length (ES.l_entries l))
    then Ok (true, ES.set_more (bool_decide (rest ≠ []) || bool_decide (is_Some cur))
                     (advance l c))
    else Ok (false, advance l c).
Proof.
  intros Hp. revert l. induction Hp as [|[k v] chunk [e He] Hp IH]; intros l Hs Hlt.
  { replace (lim - _) with (S (lim - length (ES.l_entries l) - 1)) by lia. simpl.
    f_equal. f_equal. rewrite advance_nil. destruct l; simpl in *; by subst. }
  simpl in He. cbn [ES.scan_chunk]. rewrite Hs. cbn [andb]. rewrite He. cbn [res_bind].
  replace (ES.no_skip l) with l by (destruct l; simpl in *; by subst).
  specialize (IH l Hs Hlt) as IH0.
  replace (lim - length (ES.l_entries l)) with (S (lim - length (ES.l_entries l) - 1)) in * by lia.
  cbn [collect]. unfold vis at 1. simpl fst. simpl snd. rewrite He.
  destruct e as [e|]; [|exact IH0]. destruct (val_decode v) as [o|]; [|exact IH0]. clear IH0.
  cbn [fmap option_fmap option_map]. set (l1 := ES.emit e o k l).
  assert (length (ES.l_entries l1) = S (length (ES.l_entries l))) as Hl1.
  { unfold l1, ES.emit. simpl. rewrite length_app. simpl. lia. }
  assert (∀ c, advance l1 c = advance l ((k, (e, o)) :: c)) as Hadv.
  { intros c. unfold advance, l1, ES.emit. simpl. rewrite <- app_assoc. simpl.
    destruct c as [|x c]; [done|]. simpl. by destruct (last (x :: c)) eqn:El; [|apply last_None in El]. }
  destruct (Nat.eqb_spec (length (ES.l_entries l1)) lim) as [Hfull|Hnf].
  - replace (lim - length (ES.l_entries l) - 1) with 0 by lia. rewrite collect_0. simpl.
    cbn [ES.additional_matches res_bind]. f_equal. f_equal. f_equal. rewrite <- (Hadv []).
    rewrite advance_nil. unfold l1. simpl. destruct l; simpl in *; by subst.
  - specialize (IH l1 ltac:(by unfold l1) ltac:(lia)).
    replace (lim - length (ES.l_entries l1)) with (lim - length (ES.l_entries l) - 1) in IH by lia.
    destruct (collect id _ chunk) as [c rest]. simpl length.
    rewrite IH, Hadv. repeat case_decide; done || lia.
Qed.

(** ** The page loop *)

Lemma page_split (rows : store) n :
  let cur := fst <$> rows !! n in
  match cur with
  | None => take n rows = rows ∧ drop n rows = []
  | Some k => ∃ v rest, drop n rows = (k, v) :: rest ∧ rows !! n = Some (k, v)
  end.
Proof.
  simpl. destruct (rows !! n) as [[k v]|] eqn:E; simpl.
  - exists v, (drop (S n) rows). split; [|done]. by apply drop_S.
  - apply lookup_ge_None in E. split; [by apply take_ge|by apply drop_ge].
Qed.

Lemma rows_key_below id start d n k v :
  rows_from id start d !! n = Some (k, v) → leb k (range_end id) = true.
Proof.
  intros Hn. apply list_elem_of_lookup_2, list_elem_of_filter in Hn as [Hb _].
  apply Is_true_true, andb_true_iff in Hb as [_ Hb]. simpl in Hb.
  apply leb_spec. left. by apply ltb_lt.
Qed.

(** The loop variables once all rows were offered. *)
Definition finish (id : bytes) (need : nat) (rows : store) (l : ES.Listing) : ES.Listing :=
  let (c, rest) := collect id need rows in
  if decide (length c = need) then ES.set_more (bool_decide (rest ≠ [])) (advance l c)
  else advance l c.

Lemma nonempty_app {A} (l1 l2 : list A) :
  bool_decide (l1 ++ l2 ≠ []) = bool_decide (l1 ≠ []) || bool_decide (l2 ≠ []).
Proof. destruct l1, l2; done. Qed.

Lemma no_skip_id l : ES.l_skip l = false → ES.no_skip l = l.
Proof. destruct l. simpl. by intros ->. Qed.

(** The rows a listing goes through. *)
Definition pending_rows (skip : bool) (start : bytes) (rows : store) : store :=
  if skip then drop_cursor start rows else rows.

Lemma pending_rows_app skip start rows1 rows2 :
  rows1 ≠ [] → pending_rows skip start (rows1 ++ rows2) = pending_rows skip start rows1 ++ rows2.
Proof. intros. destruct rows1 as [|[k v] rows1], skip; simpl; try done. by case_bool_decide. Qed.

Lemma pending_rows_length skip start rows : length (pending_rows skip start rows) ≤ length rows.
Proof. destruct rows as [|[k v] rows], skip; simpl; try lia. case_bool_decide; simpl; lia. Qed.

Lemma pending_rows_Forall (P : bytes * bytes → Prop) skip start rows :
  Forall P rows → Forall P (pending_rows skip start rows).
Proof.
  destruct 1 as [|[k v] rows ? ?]; destruct skip; simpl; try constructor; try done.
  case_bool_decide; [done|]. by constructor.
Qed.

Lemma scan_chunk_skip id lim start cur chunk l :
  chunk ≠ [] →
  ES.scan_chunk id None lim start cur chunk l
  = ES.scan_chunk id None lim start cur (pending_rows (ES.l_skip l) start chunk) (ES.no_skip l).
Proof.
  intros Hne. destruct chunk as [|[k v] chunk]; [done|].
  destruct (ES.l_skip l) eqn:Hs; [|by rewrite no_skip_id].
  cbn [ES.scan_chunk pending_rows drop_cursor]. rewrite Hs. cbn [andb].
  by case_bool_decide.
Qed.

Lemma finish_no_skip id need rows l : finish id need rows (ES.no_skip l) = finish id need rows l.
Proof. done. Qed.

Lemma list_loop_spec fuel id lim start l s :
  sh_ok s → let rows := rows_from id start (sh_contents s) in
  parseable id rows → leb start (range_end id) = true →
  length (ES.l_entries l) < lim → length rows < fuel →
  ∃ l', ES.list_loop fuel id None lim start (range_end id) l s = (Ok l', s) ∧
  ES.no_skip l' = finish id (lim - length (ES.l_entries l))
                    (pending_rows (ES.l_skip l) start rows) l.
Proof.
  intros Hs. revert start l. induction fuel as [|fuel IH]; intros start l rows Hp Hle Hlt Hf;
    [lia|].
  cbn [ES.list_loop]. rewrite (proj2 (Nat.ltb_lt _ _)) by done.
  set (need := lim - length (ES.l_entries l)). set (n := need + LIST_SCAN_SLACK).
  erewrite bind_ok by (apply app_read; by apply law_page). fold (sh_contents s).
  change (bt_in_range _ _ _) with rows. unfold first_page.
  destruct (decide (rows = [])) as [->|Hne].
  { rewrite take_nil. exists l. split; [done|]. unfold finish.
    replace need with (S (need - 1)) by (unfold need; lia).
    destruct (ES.l_skip l); simpl; by rewrite advance_nil. }
  assert (0 < length rows) as Hpos by (by destruct rows; [|simpl; lia]).
  assert (take n rows ≠ []) as Htn.
  { destruct rows; [done|]. unfold n. by rewrite Nat.add_comm. }
  destruct (take n rows) as [|row0 chunk0] eqn:Hchunk; [done|]. rewrite <- Hchunk in *.
  set (chunk := pending_rows (ES.l_skip l) start (take n rows)).
  assert (parseable id chunk) as Hpc by by apply pending_rows_Forall, Forall_take.
  pose proof (scan_chunk_spec id lim start (fst <$> rows !! n) chunk (ES.no_skip l) Hpc
    eq_refl Hlt) as Hsc.
  unfold chunk in Hsc at 2. rewrite <- scan_chunk_skip in Hsc by done.
  assert (pending_rows (ES.l_skip l) start rows = chunk ++ drop n rows) as ->.
  { rewrite <- (take_drop n rows) at 1. by rewrite pending_rows_app. }
  rewrite <- finish_no_skip. unfold finish. rewrite collect_app.
  simpl in Hsc. fold need in Hsc. destruct (collect id need chunk) as [c rest] eqn:Ec.
  assert (length c ≤ need) as Hcl.
  { pose proof (collect_length id need chunk) as Hc. by rewrite Ec in Hc. }
  pose proof (page_split rows n) as Hps. cbv zeta in Hps.
  destruct (decide (length c = need)) as [Hfull|Hnf];
    (erewrite bind_ok; [|unfold lift_res; by rewrite Hsc]).
  - eexists. split; [reflexivity|]. rewrite (decide_False (P := length c < need)) by lia.
    rewrite decide_True by done. unfold ES.no_skip, ES.set_more. simpl. f_equal.
    rewrite nonempty_app. f_equal.
    destruct (rows !! n) as [[k v]|]; simpl in *.
    + destruct Hps as (? & ? & -> & _). done.
    + destruct Hps as [_ ->]. done.
  - cbv beta iota. rewrite (decide_True (P := length c < need)) by lia.
    destruct (rows !! n) as [[k v]|] eqn:En; simpl in *.
    + assert (rows_from id k (sh_contents s) = drop n rows) as Hrk.
      { apply (in_range_from _ _ _ n k v); [by apply shard_wf|done]. }
      set (l1 := advance (ES.no_skip l) c).
      assert (length (ES.l_entries l1) = length (ES.l_entries l) + length c) as Hla.
      { simpl. rewrite length_app, length_fmap. lia. }
      rewrite no_skip_id by done.
      destruct (IH k l1) as (l' & El & Hl'); [rewrite Hrk; by apply Forall_drop|
        by eapply rows_key_below|rewrite Hla; unfold need in *; lia|
        rewrite Hrk, length_drop; unfold n, LIST_SCAN_SLACK; lia|].
      exists l'. split; [exact El|]. rewrite Hl', Hrk, Hla. unfold finish. cbn [pending_rows ES.l_skip].
      replace (lim - (length (ES.l_entries l) + length c)) with (need - length c) by (unfold need; lia).
      simpl pending_rows. destruct (collect id (need - length c) (drop n rows)) as [c2 rest2].
      unfold l1. rewrite advance_app, length_app. repeat case_decide; try lia; done.
    + destruct Hps as [Ht ->]. eexists. split; [reflexivity|].
      replace (need - length c) with (S (need - length c - 1)) by lia. simpl.
      rewrite app_nil_r. by rewrite decide_False.
Qed.

(** ** Pages *)

(** One page of at most [n] entries, with the cursor when rows are left. *)
Definition page (id : bytes) (n : nat) (rows : store) : EntryListResult :=
  let (c, rest) := collect id n rows in
  {| page_entries := c.*2;
     next_cursor := if bool_decide (length c = n ∧ rest ≠ []) then fst <$> last c else None |}.

(** The rows a listing with this cursor still has to show. *)
Definition at_cursor (id : bytes) (d : store) (cursor : option bytes) (rows : store) : Prop :=
  match cursor with
  | None => rows = rows_from id (build_entry_key id []) d
  | Some c => (∃ e, c = rk (KEntry id e) ∧ key_ok e) ∧ rows = drop_cursor c (rows_from id c d)
  end.

Lemma range_end_eq id : range_end id = id ++ [Byte.x01].
Proof.
  unfold range_end, compute_object_range_end, build_object_prefix, string_object_prefix.
  rewrite last_snoc, removelast_snoc. done.
Qed.

Lemma below_range_end id r : leb (id ++ nul :: r) (range_end id) = true.
Proof. rewrite range_end_eq. unfold leb. by rewrite cmp_app_same. Qed.

Lemma rows_parseable id start d : store_ok d → parseable id (rows_from id start d).
Proof.
  intros Hd. apply Forall_forall. intros [k v] [_ Hr]%list_elem_of_filter.
  unfold store_ok in Hd. rewrite Forall_forall in Hd. apply Hd in Hr. apply rec_ok_inv in Hr as (r & -> & Hr & _). simpl.
  unfold ES.own_entry. rewrite parse_rk by done. by eexists.
Qed.

Lemma list_start_ok id d cursor rows :
  obj_ok id → at_cursor id d cursor rows →
  ∃ start, ES.list_start id cursor = Ok start ∧ leb start (range_end id) = true ∧
  rows = pending_rows (bool_decide (is_Some cursor)) start (rows_from id start d).
Proof.
  intros Hi. destruct cursor as [c|]; unfold at_cursor, ES.list_start.
  - intros [(e & -> & He) ->]. exists (rk (KEntry id e)).
    rewrite (parse_rk (KEntry id e)) by done. cbn [res_bind rkey_record].
    rewrite bool_decide_true by done. split; [done|].
    split; [apply (below_range_end id)|done].
  - intros ->. eexists. split; [done|]. split; [apply (below_range_end id)|done].
Qed.

Lemma rows_from_length id start d : length (rows_from id start d) ≤ length d.
Proof. apply length_filter. Qed.

(** A listing without prefix returns the page at its cursor. *)
Lemma list_entries_page fuel id n cursor rows s :
  shard_inv s → obj_ok id → n ≠ 0 → length (sh_contents s) < fuel →
  at_cursor id (sh_contents s) cursor rows →
  ES.list_entries fuel id {| key_prefix := None; limit := n; cursor := cursor |} s
  = (Ok (page id (Nat.min n MAX_LIST_LIMIT) rows), s).
Proof.
  intros [Hs Hd] Hi Hn Hf Hc. unfold ES.list_entries. simpl.
  rewrite (proj2 (Nat.eqb_neq _ _)) by done.
  destruct (list_start_ok _ _ _ _ Hi Hc) as (start & Est & Hle & Hrows).
  erewrite bind_ok by (unfold lift_res; by rewrite Est).
  set (lim := Nat.min n MAX_LIST_LIMIT).
  assert (0 < lim) as Hlim by (unfold lim, MAX_LIST_LIMIT; lia).
  match goal with |- context [ES.list_loop _ _ _ _ _ _ ?l0] => set (l := l0) end.
  destruct (list_loop_spec fuel id lim start l s Hs (rows_parseable id start _ Hd) Hle Hlim)
    as (l' & El & Hl').
  { pose proof (rows_from_length id start (sh_contents s)). lia. }
  fold (range_end id). rewrite (bind_ok _ _ _ _ _ El). unfold ret. f_equal. f_equal.
  simpl in Hl'. rewrite Nat.sub_0_r, <- Hrows in Hl'. unfold finish in Hl'. unfold page.
  destruct (collect id lim rows) as [c rest] eqn:Ec.
  assert (ES.l_entries l' = c.*2 ∧ ES.l_exhausted l' = false ∧
    ES.l_last l' = fst <$> last c ∧
    ES.l_more l' = bool_decide (length c = lim ∧ rest ≠ [])) as (-> & -> & -> & ->).
  { destruct l'. unfold ES.no_skip, ES.set_more, advance in Hl'. simpl in *.
    destruct (decide (length c = lim)); simplify_eq; simpl.
    - split; [done|]. split; [done|]. split; [by destruct (last c)|].
      apply bool_decide_ext. tauto.
    - split; [done|]. split; [done|]. split; [by destruct (last c)|].
      symmetry. apply bool_decide_eq_false. tauto. }
  done.
Qed.

(** ** From one page to the next *)

Lemma collect_omap id n rows :
  omap (vis id) rows = (collect id n rows).1 ++ omap (vis id) (collect id n rows).2.
Proof.
  revert n. induction rows as [|row rows IH]; intros [|n]; simpl; try done.
  destruct (vis id row) as [x|] eqn:E; [|apply IH]. specialize (IH n).
  destruct (collect id n rows) as [c rest]. simpl in *. f_equal. exact IH.
Qed.

Lemma rows_resume id start d pre c v rest :
  bt_wf d → rows_from id start d = pre ++ (c, v) :: rest →
  drop_cursor c (rows_from id c d) = rest.
Proof.
  intros Hd Heq. unfold rows_from in *.
  rewrite (in_range_from d start (range_end id) (length pre) c v); [|done|].
  - rewrite Heq, drop_app_length. simpl. by rewrite bool_decide_true.
  - rewrite Heq. by apply list_lookup_middle.
Qed.

(** Pending rows are a tail of the rows from some start. *)
Lemma at_cursor_suffix id d cursor rows :
  at_cursor id d cursor rows → ∃ start pre, rows_from id start d = pre ++ rows.
Proof.
  destruct cursor as [c|]; simpl.
  - intros [_ ->]. exists c. destruct (rows_from id c d) as [|[k v] rows']; [by exists []|].
    simpl. case_bool_decide; [by exists [(k, v)]|by exists []].
  - intros ->. eexists. by exists [].
Qed.

Lemma vis_rk id k v e o :
  obj_ok id → rec_ok (k, v) → vis id (k, v) = Some (k, (e, o)) →
  k = rk (KEntry id e) ∧ key_ok e ∧ val_decode v = Some o.
Proof.
  intros Hi Hr. apply rec_ok_inv in Hr as (r & -> & Hr & _).
  unfold vis, ES.own_entry. simpl. rewrite parse_rk by done. simpl.
  destruct r as [i|i|i e']; simpl; try done. case_bool_decide; [|done]. subst i.
  destruct (val_decode v); simpl; [|done]. intros [= <- <-]. by destruct Hr.
Qed.

Lemma next_page id d cursor rows n c :
  bt_wf d → store_ok d → obj_ok id → n ≠ 0 → at_cursor id d cursor rows →
  next_cursor (page id n rows) = Some c →
  let rest := (collect id n rows).2 in
  at_cursor id d (Some c) rest ∧ length rest < length rows ∧
  ∃ pre v, rows = pre ++ (c, v) :: rest.
Proof.
  intros Hw Hd Hi Hn Hc. unfold page.
  pose proof (collect_full id n rows Hn) as Hfull.
  destruct (collect id n rows) as [cs rest]. simpl in *.
  case_bool_decide as Hl; [|done]. destruct Hl as [Hl _].
  destruct (Hfull Hl) as (pre & k & v & e & o & Hrows & Hlast & Hv). rewrite Hlast. simpl.
  intros [= <-].
  destruct (at_cursor_suffix _ _ _ _ Hc) as (start & pre0 & Hs0).
  rewrite Hrows, app_assoc in Hs0.
  assert (rec_ok (k, v)) as Hr.
  { unfold store_ok in Hd. rewrite Forall_forall in Hd. apply Hd.
    assert ((k, v) ∈ rows_from id start d) as Hin by (rewrite Hs0; set_solver).
    by apply list_elem_of_filter in Hin as [_ ?]. }
  split; [|split].
  - split; [|symmetry; by eapply rows_resume].
    exists e. by apply vis_rk in Hv as (? & ? & _).
  - rewrite Hrows, length_app. simpl. lia.
  - eauto.
Qed.

(** A page without a cursor is the last one. *)
Lemma page_end id n rows :
  n ≠ 0 → next_cursor (page id n rows) = None → (collect id n rows).2 = [].
Proof.
  intros Hn. unfold page.
  pose proof (collect_full id n rows Hn) as Hfull.
  pose proof (collect_short id n rows) as Hshort.
  pose proof (collect_length id n rows) as Hle.
  destruct (collect id n rows) as [cs rest]. simpl in *. intros En.
  destruct (decide (length cs = n)) as [Hl|Hl]; [|apply Hshort; lia].
  destruct (decide (rest = [])) as [|Hne]; [done|].
  rewrite bool_decide_true in En by done.
  destruct (Hfull Hl) as (? & ? & ? & ? & ? & _ & Hlast & _). by rewrite Hlast in En.
Qed.

(** The cursor of a page is never among the rows still to come. *)
Lemma cursor_not_pending id d c rows k v :
  bt_wf d → at_cursor id d (Some c) rows → (k, v) ∈ rows → k ≠ c.
Proof.
  intros Hw [_ ->] Hin ->. unfold rows_from in Hin.
  pose proof (bt_wf_filter (λ kv, in_bounds (Included c) (Excluded (range_end id)) kv.1) d Hw) as Hs.
  destruct (bt_in_range _ _ d) as [|[k0 v0] rows'] eqn:E; [set_solver|].
  unfold bt_in_range in E. rewrite E in Hs. apply bt_wf_cons_inv in Hs as [_ Hall].
  rewrite Forall_forall in Hall. simpl in Hin. case_bool_decide as Hk; subst.
  - apply Hall in Hin. simpl in Hin. by apply (cmp_irrefl c).
  - assert ((k0, v0) ∈ filter (λ kv : bytes * bytes,
      in_bounds (Included c) (Excluded (range_end id)) kv.1) d) as H0in by (rewrite E; left).
    apply list_elem_of_filter in H0in as [Hb _]. apply Is_true_true, andb_true_iff in Hb as [Hb _].
    simpl in Hb. apply elem_of_cons in Hin as [[= -> ->]|Hin]; [done|].
    apply Hall in Hin. simpl in Hin. pose proof (le_lt_trans _ _ _ Hb Hin) as Hlt.
    by apply (cmp_irrefl c).
Qed.

(** ** All entries of an object *)

Definition all_rows (id : bytes) (d : store) : list (bytes * (bytes * ObjectVal)) :=
  omap (vis id) (rows_from id (build_entry_key id []) d).
Definition all_entries (id : bytes) (d : store) : list (bytes * ObjectVal) := (all_rows id d).*2.

Lemma entry_key_in_range id key :
  in_bounds (Included (build_entry_key id [])) (Excluded (range_end id)) (build_entry_key id key)
  = true.
Proof.
  unfold in_bounds. apply andb_true_iff. split; simpl.
  - unfold build_entry_key, string_object_entry_key_string, leb.
    rewrite (cmp_app_same id), (cmp_app_same [nul]), (cmp_app_same [Byte.x11]).
    change (encode_varint (Z.of_nat (length (@nil byte))) ++ []) with [nul].
    destruct (encode_varint_cons (Z.of_nat (length key))) as (b & l & ->).
    apply (leb_nul_cons b (l ++ key)).
  - rewrite range_end_eq. apply ltb_lt.
    unfold build_entry_key, string_object_entry_key_string. by rewrite cmp_app_same.
Qed.

Lemma row_rec_ok id start d k v : store_ok d → (k, v) ∈ rows_from id start d → rec_ok (k, v).
Proof.
  intros Hd [_ Hin]%list_elem_of_filter. unfold store_ok in Hd.
  rewrite Forall_forall in Hd. by apply Hd.
Qed.

Lemma all_rows_elem id d k e o :
  store_ok d → obj_ok id → (k, (e, o)) ∈ all_rows id d → k = rk (KEntry id e) ∧ key_ok e.
Proof.
  intros Hd Hi ([k' v] & Hin & Hv)%list_elem_of_omap.
  assert (k' = k) as ->.
  { unfold vis in Hv. simpl in Hv. repeat case_match; simplify_eq.
    by apply fmap_Some in Hv as (? & _ & [= -> _ _]). }
  apply vis_rk in Hv as (? & ? & _); [done|done|]. by eapply row_rec_ok.
Qed.

(** The listing shows exactly the entries of the view. *)
Lemma all_entries_elem id d key v :
  bt_wf d → store_ok d → obj_ok id →
  (key, v) ∈ all_entries id d ↔ key_ok key ∧ entry_of d id key = Some v.
Proof.
  intros Hw Hd Hi. unfold all_entries, all_rows. rewrite list_elem_of_fmap. split.
  - intros ([k [e o]] & [= -> ->] & ([k' raw] & Hin & Hv)%list_elem_of_omap).
    assert (rec_ok (k', raw)) as Hr by by eapply row_rec_ok.
    apply list_elem_of_filter in Hin as [_ Hin].
    assert (k = k') as ->.
    { unfold vis in Hv. simpl in Hv. repeat case_match; simplify_eq.
      by apply fmap_Some in Hv as (? & _ & [= -> _ _]). }
    apply vis_rk in Hv as (-> & ? & Hdec); [|done..]. split; [done|].
    unfold entry_of. apply bt_get_elem in Hin; [|done]. by rewrite Hin.
  - intros [Hk He]. unfold entry_of in He.
    destruct (bt_get _ d) as [raw|] eqn:Eg; [|done]. simpl in He.
    exists (rk (KEntry id key), (key, v)). split; [done|].
    apply list_elem_of_omap. exists (rk (KEntry id key), raw). split.
    + apply list_elem_of_filter. split; [|by apply bt_get_elem].
      apply Is_true_true. apply entry_key_in_range.
    + unfold vis, ES.own_entry. cbn [fst snd]. rewrite parse_rk by done. simpl.
      rewrite bool_decide_true by done. by rewrite He.
Qed.

Lemma all_entries_NoDup id d :
  bt_wf d → store_ok d → obj_ok id → NoDup (all_entries id d).*1.
Proof.
  intros Hw Hd Hi.
  assert (NoDup (all_rows id d).*1) as Hn.
  { unfold all_rows. assert (bt_wf (rows_from id (build_entry_key id []) d)) as Hr
      by by apply bt_wf_filter.
    induction Hr as [|[k v] rows Hr IH Hall]; simpl; [constructor|].
    destruct (vis id (k, v)) as [[k' x]|] eqn:E; [|done]. simpl. constructor; [|done].
    assert (∀ k1 v1 k2 x2, vis id (k1, v1) = Some (k2, x2) → k2 = k1) as Hkey.
    { intros k1 v1 k2 x2 Hv. unfold vis in Hv. simpl in Hv. repeat case_match; simplify_eq.
      by apply fmap_Some in Hv as (? & _ & [= -> _]). }
    apply Hkey in E as ->. intros ([k1 x1] & -> & Hin)%list_elem_of_fmap.
    apply list_elem_of_omap in Hin as ([k2 v2] & Hin & Hv). apply Hkey in Hv. simpl in *. subst.
    rewrite Forall_forall in Hall. apply Hall in Hin. by apply (cmp_irrefl k2). }
  assert ((all_rows id d).*1 = (λ e, rk (KEntry id e)) <$> (all_entries id d).*1) as Heq.
  { unfold all_entries. rewrite <- !list_fmap_compose. apply list_fmap_ext.
    intros i [k [e o]] Hx%list_elem_of_lookup_2. simpl.
    by apply all_rows_elem in Hx as [-> _]. }
  rewrite Heq in Hn. by apply NoDup_fmap_1 in Hn.
Qed.

(** ** Counting *)

Lemma count_loop_spec pages fuel id total cursor rows s :
  shard_inv s → obj_ok id → length (sh_contents s) < fuel →
  at_cursor id (sh_contents s) cursor rows → length rows < pages →
  ES.count_loop pages fuel id total cursor s
  = (Ok (total + length (omap (vis id) rows)), s).
Proof.
  intros Hinv Hi Hf. pose proof Hinv as [Hs Hd].
  revert total cursor rows. induction pages as [|pages IH]; intros total cursor rows Hc Hp; [lia|].
  cbn [ES.count_loop]. erewrite bind_ok by by apply list_entries_page.
  rewrite Nat.min_id. destruct (next_cursor (page id MAX_LIST_LIMIT rows)) as [c|] eqn:En.
  - destruct (next_page id _ _ _ MAX_LIST_LIMIT _ (shard_wf s Hs) Hd Hi ltac:(done) Hc En)
      as (Hc' & Hlt & _).
    rewrite (IH _ _ _ Hc') by lia. f_equal. f_equal.
    rewrite (collect_omap id MAX_LIST_LIMIT rows), length_app. unfold page.
    destruct (collect id MAX_LIST_LIMIT rows) as [cs rest]. simpl. rewrite length_fmap. lia.
  - unfold ret. f_equal. f_equal. rewrite (collect_omap id MAX_LIST_LIMIT rows), length_app.
    rewrite (page_end id MAX_LIST_LIMIT rows) by done. unfold page.
    destruct (collect id MAX_LIST_LIMIT rows) as [cs rest]. simpl. rewrite length_fmap. lia.
Qed.
End listing.

(** ** Listing with a key prefix *)

Section prefix.
Context {R : Type} `{StorageLaws R} `{!ReplicationLayer R} `{!ReplicationLaws R}.
Context `{CodecLaws}.
Implicit Types s : Shard R.

(** What has been collected so far: entries of the object that match the prefix, no more
    than the limit, each stored with that value. *)
Definition listed_ok (id : bytes) (p : option bytes) (lim : nat) (d : store) (l : ES.Listing) :=
  length (ES.l_entries l) ≤ lim ∧
  Forall (λ kv, entry_of d id kv.1 = Some kv.2 ∧ default true ((λ q, starts_with q kv.1) <$> p) = true)
    (ES.l_entries l).

Lemma own_entry_parse id k : (∃ r, k = rk r ∧ rkey_ok r) → ∃ e, ES.own_entry id k = Ok e.
Proof. intros (r & -> & Hr). unfold ES.own_entry. rewrite parse_rk by done. by eexists. Qed.

Lemma additional_matches_total id p rest cur :
  parseable id rest → (∀ k, cur = Some k → ∃ e, ES.own_entry id k = Ok e) →
  ∃ b, ES.additional_matches id p rest cur = Ok b.
Proof.
  intros Hr Hc. unfold ES.additional_matches. destruct p as [p|]; [|by eexists].
  assert (∀ t : bytes → bool, ∃ b, match cur with
    | Some ck => res_bind (ES.own_entry id ck) (λ e, Ok match e with Some k => t k | None => false end)
    | None => Ok false end = Ok (E := ShardError) b) as Hcur.
  { intros t. destruct cur as [ck|]; [|by eexists]. destruct (Hc ck eq_refl) as [e ->].
    by eexists. }
  destruct Hr as [|[k v] rest [e He] _]; [apply Hcur|]. simpl in He. rewrite He. simpl.
  destruct e as [e|]; [|apply Hcur]. destruct (starts_with p e); [by eexists|apply Hcur].
Qed.

(** An entry row of a consistent store carries the value the view has. *)
Lemma own_entry_value id k v e o d :
  bt_wf d → store_ok d → obj_ok id → (k, v) ∈ d → ES.own_entry id k = Ok (Some e) →
  val_decode v = Some o → entry_of d id e = Some o.
Proof.
  intros Hw Hd Hi Hin He Ho. assert (rec_ok (k, v)) as Hr.
  { unfold store_ok in Hd. rewrite Forall_forall in Hd. by apply Hd. }
  assert (vis id (k, v) = Some (k, (e, o))) as Hv.
  { unfold vis. simpl. by rewrite He, Ho. }
  apply vis_rk in Hv as (-> & _ & _); [|done..].
  unfold entry_of. apply bt_get_elem in Hin; [|done]. by rewrite Hin.
Qed.

Lemma scan_chunk_sound id p lim start cur chunk l d :
  bt_wf d → store_ok d → obj_ok id → (∀ row, row ∈ chunk → row ∈ d) →
  (∀ k, cur = Some k → ∃ e, ES.own_entry id k = Ok e) →
  listed_ok id p lim d l → length (ES.l_entries l) < lim →
  ∃ stop l', ES.scan_chunk id p lim start cur chunk l = Ok (stop, l') ∧
  listed_ok id p lim d l' ∧ (stop = false → length (ES.l_entries l') < lim).
Proof.
  intros Hw Hd Hi Hin Hc. revert l. induction chunk as [|[k v] chunk IH]; intros l Hl Hlt.
  { by exists false, l. }
  assert (∀ row, row ∈ chunk → row ∈ d) as Hin' by set_solver.
  specialize (IH Hin'). cbn [ES.scan_chunk].
  destruct (ES.l_skip l && bool_decide (k = start)); [by apply IH|].
  assert ((k, v) ∈ d) as Hkv by set_solver.
  destruct (own_entry_parse id k) as [e He].
  { unfold store_ok in Hd. rewrite Forall_forall in Hd. apply Hd, rec_ok_inv in Hkv.
    naive_solver. }
  rewrite He. cbn [res_bind]. destruct e as [e|]; [|by apply IH].
  assert (∀ l0, listed_ok id p lim d l0 → length (ES.l_entries l0) < lim →
    default true ((λ q, starts_with q e) <$> p) = true →
    ∃ stop l', match val_decode v with
      | Some val =>
          if (length (ES.l_entries (ES.emit e val k l0)) =? lim)%nat
          then res_bind (ES.additional_matches id p chunk cur)
                 (λ b, Ok (true, ES.set_more b (ES.emit e val k l0)))
          else ES.scan_chunk id p lim start cur chunk (ES.emit e val k l0)
      | None => ES.scan_chunk id p lim start cur chunk l0
      end = Ok (stop, l') ∧ listed_ok id p lim d l' ∧
      (stop = false → length (ES.l_entries l') < lim)) as Hdeliver.
  { intros l0 [Hl1 Hl2] Hlt0 Hpre. destruct (val_decode v) as [o|] eqn:Eo; [|by apply IH].
    assert (length (ES.l_entries (ES.emit e o k l0)) = S (length (ES.l_entries l0))) as Hlen.
    { simpl. rewrite length_app. simpl. lia. }
    assert (listed_ok id p lim d (ES.emit e o k l0)) as Hok.
    { split; [lia|]. simpl. apply Forall_app. split; [done|]. constructor; [|done].
      split; [|done]. by eapply own_entry_value. }
    destruct (Nat.eqb_spec (length (ES.l_entries (ES.emit e o k l0))) lim) as [Hf|Hf].
    - destruct (additional_matches_total id p chunk cur) as [b ->]; [|done|].
      + apply Forall_forall. intros [k1 v1] Hrow%Hin'. apply own_entry_parse.
        unfold store_ok in Hd. rewrite Forall_forall in Hd. apply Hd, rec_ok_inv in Hrow.
        naive_solver.
      + eexists _, _. by split.
    - apply IH; [done|lia]. }
  destruct p as [q|]; [|by apply Hdeliver].
  destruct (starts_with q e) eqn:Eq; [by apply (Hdeliver (ES.set_seen (ES.no_skip l)))|].
  destruct (ES.l_seen (ES.no_skip l)); [|by apply IH].
  eexists _, _. split; [reflexivity|]. by split.
Qed.

Lemma list_loop_sound fuel id p lim start l s :
  shard_inv s → obj_ok id → leb start (range_end id) = true →
  length (rows_from id start (sh_contents s)) < fuel →
  listed_ok id p lim (sh_contents s) l →
  ∃ l', ES.list_loop fuel id p lim start (range_end id) l s = (Ok l', s) ∧
  listed_ok id p lim (sh_contents s) l'.
Proof.
  intros [Hs Hd] Hi. revert start l. induction fuel as [|fuel IH]; intros start l Hle Hf Hl; [lia|].
  cbn [ES.list_loop]. destruct (Nat.ltb_spec (length (ES.l_entries l)) lim) as [Hlt|Hge];
    [|by exists l].
  set (n := lim - length (ES.l_entries l) + LIST_SCAN_SLACK).
  erewrite bind_ok by (apply app_read; by apply law_page). fold (sh_contents s).
  set (rows := rows_from id start (sh_contents s)).
  change (bt_in_range _ _ _) with rows. unfold first_page.
  destruct (take n rows) as [|row0 chunk0] eqn:Hchunk; [by exists l|]. rewrite <- Hchunk in *.
  assert (∀ row, row ∈ take n rows → row ∈ sh_contents s) as Hin.
  { intros row Hr. assert (row ∈ rows) as Hr' by (rewrite <- (take_drop n rows); set_solver).
    by apply list_elem_of_filter in Hr' as [_ ?]. }
  destruct (scan_chunk_sound id p lim start (fst <$> rows !! n) (take n rows) l (sh_contents s)
    (shard_wf s Hs) Hd Hi Hin) as (stop & l' & E & Hl' & Hstop); [|done|done|].
  { intros k Hk. apply fmap_Some in Hk as ([k' v] & Hk & ->). simpl.
    apply list_elem_of_lookup_2 in Hk. apply own_entry_parse.
    apply row_rec_ok, rec_ok_inv in Hk; [|done]. naive_solver. }
  erewrite bind_ok by (unfold lift_res; by rewrite E). cbv beta iota.
  destruct stop; [by exists l'|].
  destruct (rows !! n) as [[k v]|] eqn:En; simpl; [|by exists l'].
  assert (rows_from id k (sh_contents s) = drop n rows) as Hrk.
  { apply (in_range_from _ _ _ n k v); [by apply shard_wf|done]. }
  apply IH; [by eapply rows_key_below| |done].
  rewrite Hrk, length_drop. unfold n, LIST_SCAN_SLACK. apply lookup_lt_Some in En. fold rows in Hf. lia.
Qed.
End prefix.

(** ** Theorems *)

Section theorems.
Context {R : Type} `{StorageLaws R} `{!ReplicationLayer R} `{!ReplicationLaws R}.
Context `{CodecLaws}.
Implicit Types s : Shard R.

(** C38. The first page of a listing without a key prefix: the first [limit] (at most 1024)
    entries of the object in storage order, where the listing as a whole names each
    entry of the object exactly once with its value; the shard is unchanged. Fuel above
    the number of stored records is enough. *)
Theorem list_entries_correct fuel id n s :
  shard_inv s → obj_ok id → n ≠ 0 → length (sh_contents s) < fuel →
  let d := sh_contents s in
  ∃ res, ES.list_entries fuel id {| key_prefix := None; limit := n; cursor := None |} s
    = (Ok res, s) ∧
  page_entries res = take (Nat.min n MAX_LIST_LIMIT) (all_entries id d) ∧
  NoDup (all_entries id d).*1 ∧
  (∀ key v, (key, v) ∈ all_entries id d ↔ key_ok key ∧ entry_of d id key = Some v).
Proof.
  intros Hinv Hi Hn Hf d. eexists.
  split; [by eapply list_entries_page|]. pose proof Hinv as [Hs Hd].
  pose proof (shard_wf s Hs) as Hw.
  split; [|split; [by apply all_entries_NoDup|intros; by apply all_entries_elem]].
  unfold page, all_entries. rewrite <- fmap_take. unfold all_rows. fold d.
  rewrite <- collect_fst. by destruct (collect _ _ _).
Qed.

(** [count_entries] is the number of entries of the object, whatever number of pages it
    takes. *)
Theorem count_entries_correct fuel id s :
  shard_inv s → obj_ok id → length (sh_contents s) < fuel →
  ES.count_entries fuel id s = (Ok (length (all_entries id (sh_contents s))), s).
Proof.
  intros Hinv Hi Hf. unfold ES.count_entries.
  rewrite (count_loop_spec fuel fuel id 0 None _ s Hinv Hi Hf eq_refl).
  - unfold all_entries. by rewrite length_fmap.
  - pose proof (rows_from_length id (build_entry_key id []) (sh_contents s)). lia.
Qed.

(** Following the cursor: the next page continues exactly where the last one ended, and
    the page without a cursor is the last. *)
Theorem list_entries_resume fuel id n cursor rows c s :
  shard_inv s → obj_ok id → n ≠ 0 → n ≤ MAX_LIST_LIMIT → length (sh_contents s) < fuel →
  at_cursor id (sh_contents s) cursor rows →
  let options cur := {| key_prefix := None; limit := n; cursor := cur |} in
  ES.list_entries fuel id (options cursor) s = (Ok (page id n rows), s) ∧
  (next_cursor (page id n rows) = None →
     page_entries (page id n rows) = (omap (vis id) rows).*2) ∧
  (next_cursor (page id n rows) = Some c →
     ∃ rest, ES.list_entries fuel id (options (Some c)) s = (Ok (page id n rest), s) ∧
     (omap (vis id) rows).*2
     = page_entries (page id n rows) ++ (omap (vis id) rest).*2 ∧
     length rest < length rows).
Proof.
  intros Hinv Hi Hn Hm Hf Hc. cbv zeta. pose proof Hinv as [Hs Hd].
  assert (∀ cur rs, at_cursor id (sh_contents s) cur rs →
    ES.list_entries fuel id {| key_prefix := None; limit := n; cursor := cur |} s
    = (Ok (page id n rs), s)) as Hpage.
  { intros cur rs Hcur. rewrite (list_entries_page _ _ _ _ _ _ Hinv Hi Hn Hf Hcur).
    by rewrite Nat.min_l. }
  assert (page_entries (page id n rows) = (collect id n rows).1.*2) as Hpe.
  { unfold page. by destruct (collect id n rows). }
  split; [by apply Hpage|]. split.
  - intros En. apply page_end in En; [|done]. rewrite Hpe, (collect_omap id n rows), En.
    by rewrite app_nil_r.
  - intros En.
    destruct (next_page id _ _ _ n _ (shard_wf s Hs) Hd Hi Hn Hc En) as (Hc' & Hlt & _).
    exists (collect id n rows).2. split; [by apply Hpage|]. split; [|done].
    by rewrite Hpe, (collect_omap id n rows), fmap_app.
Qed.

(** A listing with a key prefix never returns a wrong entry: every entry of the page is
    stored under the object with that value and matches the prefix, and the page keeps
    within the limit. *)
Theorem list_prefix_sound fuel id p n s :
  shard_inv s → obj_ok id → n ≠ 0 → length (sh_contents s) < fuel →
  ∃ res, ES.list_entries fuel id {| key_prefix := Some p; limit := n; cursor := None |} s
    = (Ok res, s) ∧
  length (page_entries res) ≤ Nat.min n MAX_LIST_LIMIT ∧
  Forall (λ kv, entry_of (sh_contents s) id kv.1 = Some kv.2 ∧ starts_with p kv.1 = true)
    (page_entries res).
Proof.
  intros Hinv Hi Hn Hf. unfold ES.list_entries. cbn [limit key_prefix cursor].
  rewrite (proj2 (Nat.eqb_neq _ _)) by done.
  erewrite bind_ok by reflexivity. fold (range_end id).
  match goal with |- context [ES.list_loop _ _ _ ?lim0 _ _ ?l0] => set (lim := lim0); set (l := l0) end.
  destruct (list_loop_sound fuel id (Some p) lim (build_entry_key id []) l s Hinv Hi)
    as (l' & E & Hl1 & Hl2).
  - apply (below_range_end id).
  - pose proof (rows_from_length id (build_entry_key id []) (sh_contents s)). lia.
  - split; [simpl; lia|constructor].
  - rewrite (bind_ok _ _ _ _ _ E). eexists. split; [reflexivity|]. by split.
Qed.
End theorems.

Import Demo.

(** Three entries, written in the order [a], [b], [aa]. *)
Definition demo3 : Shard MemoryStorage :=
  demo_set "aa" "3" (demo_set "b" "2" (demo_set "a" "1" Demo.shard)).

Lemma demo3_inv : shard_inv demo3.
Proof.
  assert (∀ k v s, key_ok (bs k) → shard_inv s → shard_inv (demo_set k v s)) as Hset.
  { intros k v s Hk Hs. unfold demo_set.
    destruct (set_entry_ok (bs "o") (bs k) (Demo.val v) s Hs ltac:(decide_now) Hk)
      as (s' & E & Hs' & _). by rewrite E. }
  unfold demo3. repeat apply Hset; try decide_now. apply demo_inv.
Qed.

(** A listing with a key prefix stops at the first entry after a match that does not
    match. Entries are not stored in the order of their keys, so it misses some: of the
    entries [a], [b] and [aa], the prefix [a] lists only [a] and reports the end. *)
Theorem list_prefix_misses :
  (ES.list_entries 20 (bs "o") {| key_prefix := Some (bs "a"); limit := 10; cursor := None |}
     demo3).1
  = Ok {| page_entries := [(bs "a", Demo.val "1")]; next_cursor := None |} ∧
  entry_of (sh_contents demo3) (bs "o") (bs "aa") = Some (Demo.val "3").
Proof. split; vm_compute; reflexivity. Qed.

Lemma list_entries_correct_witness :
  ∃ res, ES.list_entries 20 (bs "o") {| key_prefix := None; limit := 2; cursor := None |} demo3
    = (Ok res, demo3) ∧ page_entries res = [(bs "a", Demo.val "1"); (bs "b", Demo.val "2")].
Proof.
  destruct (list_entries_correct 20 (bs "o") 2 demo3 demo3_inv ltac:(decide_now) ltac:(done)
    ltac:(apply Nat.ltb_lt; vm_compute; reflexivity)) as (res & E & Hp & _).
  exists res. split; [exact E|]. rewrite Hp. vm_compute. reflexivity.
Defined.

Lemma count_entries_correct_witness : (ES.count_entries 20 (bs "o") demo3).1 = Ok 3.
Proof.
  rewrite (count_entries_correct 20 (bs "o") demo3 demo3_inv ltac:(decide_now)
    ltac:(apply Nat.ltb_lt; vm_compute; reflexivity)).
  vm_compute. reflexivity.
Defined.

Lemma list_entries_resume_witness :
  ES.list_entries 20 (bs "o") {| key_prefix := None; limit := 2; cursor := None |} demo3
  = (Ok (page (bs "o") 2
           (rows_from (bs "o") (build_entry_key (bs "o") []) (sh_contents demo3))), demo3).
Proof.
  exact (proj1 (list_entries_resume 20 (bs "o") 2 None
    (rows_from (bs "o") (build_entry_key (bs "o") []) (sh_contents demo3)) [] demo3
    demo3_inv ltac:(decide_now) ltac:(done) ltac:(apply Nat.leb_le; reflexivity)
    ltac:(apply Nat.ltb_lt; vm_compute; reflexivity) eq_refl)).
Defined.

Lemma list_prefix_sound_witness :
  ∃ res, ES.list_entries 20 (bs "o")
    {| key_prefix := Some (bs "a"); limit := 10; cursor := None |} demo3 = (Ok res, demo3).
Proof.
  destruct (list_prefix_sound 20 (bs "o") (bs "a") 10 demo3 demo3_inv ltac:(decide_now)
    ltac:(done) ltac:(apply Nat.ltb_lt; vm_compute; reflexivity)) as (res & E & _).
  exists res. exact E.
Defined.
