(* ===== verification/ObjectShard.v ===== *)
(** * Whole objects

    [data-plane/oprc-odgm/src/shard/object_shard]: reading an object back from its
    entries, setting and deleting whole objects, counting and scanning them, and the
    creation of empty objects ([core.rs], [trait_impl.rs]). *)

From stdpp Require Import base tactics list numbers option gmap sorting strings.
From Stdlib Require Import Lia.
From S2P Require Import Prelude BTree Backend Memory Replication StorageKey GranularKey Events ObjectData Shard EntryStore ObjectView EntryOps EntryList.

Open Scope prog_scope.

Definition MAX_PAGES : nat := 4096.

Module OS.
Section object_shard.
Context {R : Type} `{Storage R} `{!ReplicationLayer R} `{Codec}.
Context (fuel : nat).

Notation Sh A := (M (Shard R) ShardError A).

(** The page loop of [reconstruct_object_from_entries]: at most [MAX_PAGES] rounds. *)
Fixpoint collect_pages (pages : nat) (id : bytes) (prefetch_limit : nat)
    (acc : btree bytes ObjectVal) (cursor : option bytes) : Sh (btree bytes ObjectVal) :=
  match pages with
  | O => throw (ConfigurationError "granular reconstruction exceeded pagination bounds")
  | S pages =>
      let! page := ES.list_entries fuel id
        {| key_prefix := None; limit := prefetch_limit; cursor := cursor |} in
      let acc := foldl (λ m kv, bt_insert kv.1 kv.2 m) acc (page_entries page) in
      match next_cursor page with
      | Some next =>
          if bool_decide (cursor = Some next)
          then throw (ConfigurationError "granular reconstruction encountered a stalled cursor")
          else collect_pages pages id prefetch_limit acc (Some next)
      | None => ret acc
      end
  end.

Definition reconstruct_object_from_entries (normalized_id : bytes) (prefetch_limit : nat) :
    Sh (option ObjectData) :=
  if (prefetch_limit =? 0)%nat
  then throw (ConfigurationError "granular prefetch limit must be greater than zero")
  else
    let! es := collect_pages MAX_PAGES normalized_id prefetch_limit [] None in
    let! metadata := ES.get_metadata normalized_id in
    let version :=
      match metadata with
      | Some meta => if tombstone meta then None else Some (object_version meta)
      | None => if bool_decide (es = []) then None else Some 0%Z
      end in
    match version with
    | None => ret None
    | Some version =>
        let! ev := load_event_config normalized_id in
        ret (Some {| last_updated := version; entries := es; event := ev |})
    end.

Definition get_object (object_id : bytes) : Sh (option ObjectData) := λ s,
  reconstruct_object_from_entries object_id (sh_prefetch_limit s) s.

Definition internal_get_object_by_str_id (normalized_id : bytes) : Sh (option ObjectData) :=
  get_object normalized_id.

(** Writing the event configuration of an object, if it comes with one. *)
Definition write_event_config (id : bytes) (ev : option ObjectEvent) : Sh unit :=
  match ev with
  | Some ev_cfg =>
      replicate (write_op (string_object_event_config_key id) (event_encode ev_cfg)) ;;; ret tt
  | None => ret tt
  end.

Definition set_object (object_id : bytes) (entry : ObjectData) : Sh unit :=
  let! _ := ES.get_metadata object_id in
  let! em := gets sh_has_event_manager in
  let! lim := gets sh_prefetch_limit in
  (if em && bool_decide (is_Some (event entry))
   then let! _ := reconstruct_object_from_entries object_id lim in ret tt else ret tt) ;;;
  write_event_config object_id (event entry) ;;;
  let! _ := ES.batch_set_entries object_id (entries entry) None in
  ret tt.

Definition internal_set_object (normalized_id : bytes) (entry : ObjectData) : Sh unit :=
  write_event_config normalized_id (event entry) ;;;
  let! _ := ES.batch_set_entries normalized_id (entries entry) None in
  ret tt.

Definition delete_object (object_id : bytes) : Sh unit :=
  let! meta_opt := ES.get_metadata object_id in
  match meta_opt with
  | None => ret tt
  | Some metadata =>
      if tombstone metadata then ret tt else
      let! v2 := gets v2_mode in
      let! lim := gets sh_prefetch_limit in
      let! existing_entry :=
        if v2 then reconstruct_object_from_entries object_id lim else ret None in
      let! predelete_event_cfg := load_event_config object_id in
      ES.delete_object_granular object_id ;;;
      let version_before := object_version metadata in
      let metadata := ObjectMeta.mark_tombstone (ObjectMeta.increment_version metadata) in
      ES.set_metadata object_id metadata ;;;
      match existing_entry with
      | Some entry =>
          let changed := (λ kv, {| key_canonical := kv.1; action := ADelete;
                                   ck_value := None |}) <$> entries entry in
          if bool_decide (changed = []) then ret tt
          else modify (λ s, try_emit
            (MutationCtx.with_event_config predelete_event_cfg
              (mutation object_id version_before (object_version metadata) changed s)) s)
      | None => ret tt
      end
  end.

(** The same handler under a normalised identifier. *)
Definition internal_delete_object (normalized_id : bytes) : Sh unit :=
  delete_object normalized_id.

Fixpoint count_metadata (rows : store) (total : nat) : res ShardError nat :=
  match rows with
  | [] => Ok total
  | (k, _) :: rows =>
      res_bind (parse_granular_key k) (λ p,
        match p with
        | Some (_, GMetadata) => count_metadata rows (S total)
        | _ => count_metadata rows total
        end)
  end.

Definition count_objects : Sh nat :=
  let! results := app_storage (sto_scan []) in
  lift_res (count_metadata results 0).

Fixpoint scan_rows (prefix : option bytes) (rows : store) (out : list (bytes * ObjectData)) :
    Sh (list (bytes * ObjectData)) :=
  match rows with
  | [] => ret out
  | (k, _) :: rows =>
      let! p := lift_res (parse_granular_key k) in
      match p with
      | Some (oid, GMetadata) =>
          if default true ((λ pref, starts_with pref oid) <$> prefix) then
            let! lim := gets sh_prefetch_limit in
            let! e := reconstruct_object_from_entries oid lim in
            match e with
            | Some entry => scan_rows prefix rows (out ++ [(oid, entry)])
            | None => scan_rows prefix rows out
            end
          else scan_rows prefix rows out
      | _ => scan_rows prefix rows out
      end
  end.

Definition scan_objects (prefix : option bytes) : Sh (list (bytes * ObjectData)) :=
  let! all := app_storage (sto_scan []) in
  scan_rows prefix all [].

Definition batch_set_objects (es : list (bytes * ObjectData)) : Sh unit :=
  modify (upd_metrics Metrics.inc_operations) ;;;
  for_each (λ kv, set_object kv.1 kv.2) es.

Definition batch_delete_objects (keys : list bytes) : Sh unit :=
  modify (upd_metrics Metrics.inc_operations) ;;;
  for_each delete_object keys.

Definition ensure_metadata_exists (obj_id : bytes) : Sh bool :=
  let! m := ES.get_metadata obj_id in
  match m with
  | Some _ => ret false
  | None =>
      let! resp := replicate (Write {| w_key := build_metadata_key obj_id;
                                       w_value := ObjectMeta.to_bytes ObjectMeta.new;
                                       w_ttl := None; w_return_old := true |}) in
      ret match extra resp with ExtraWrite overrode => negb overrode | ExtraNone => false end
  end.

End object_shard.
End OS.
