(* ===== verification/ObjectOps.v ===== *)
(** * Whole objects: theorems

    Reading an object back ([OS.get_object]), setting it, deleting it and counting, in
    terms of the view of [ObjectView]; for every storage and replication layer that keeps
    its contract. *)

From stdpp Require Import base tactics list numbers option gmap sorting strings.
From Stdlib Require Import Lia.
From S2P Require Import Prelude BTree Backend Memory Replication StorageKey GranularKey Events ObjectData Shard EntryStore ObjectView EntryOps EntryList ObjectShard.

Section reading.
Context {R : Type} `{StorageLaws R} `{!ReplicationLayer R} `{!ReplicationLaws R}.
Context `{CodecLaws}.
Implicit Types s : Shard R.

(** ** Collecting the pages *)

Definition load (l : list (bytes * ObjectVal)) (acc : btree bytes ObjectVal) :=
  foldl (λ m kv, bt_insert kv.1 kv.2 m) acc l.

Lemma load_wf l acc : bt_wf acc → bt_wf (load l acc).
Proof. revert acc. induction l; intros acc Hw; simpl; [done|]. by apply IHl, bt_insert_wf. Qed.

Lemma load_get k l acc :
  NoDup l.*1 →
  bt_get k (load l acc) = match bt_get k l with Some v => Some v | None => bt_get k acc end.
Proof.
  revert acc. induction l as [|[k' v] l IH]; intros acc; simpl; [done|].
  intros [Hk Hn]%NoDup_cons. rewrite IH by done.
  case_cmp k k'.
  - rewrite bt_get_notin by done. by rewrite bt_get_insert_eq.
  - rewrite bt_get_insert_ne; [done|]. intros ->. by apply (cmp_irrefl k).
  - rewrite bt_get_insert_ne; [done|]. intros ->. by apply (cmp_irrefl k).
Qed.

(** Enough pages: everything that is pending is added. *)
Lemma collect_pages_ok fuel pages id n acc cursor rows s :
  shard_inv s → obj_ok id → n ≠ 0 → length (sh_contents s) < fuel →
  at_cursor id (sh_contents s) cursor rows →
  length (omap (vis id) rows) < pages * Nat.min n MAX_LIST_LIMIT →
  OS.collect_pages fuel pages id n acc cursor s
  = (Ok (load (omap (vis id) rows).*2 acc), s).
Proof.
  intros Hinv Hi Hn Hf. pose proof Hinv as [Hs Hd].
  set (lim := Nat.min n MAX_LIST_LIMIT).
  assert (lim ≠ 0) as Hlim by (unfold lim, MAX_LIST_LIMIT; lia).
  revert acc cursor rows. induction pages as [|pages IH]; intros acc cursor rows Hc Hlt; [lia|].
  cbn [OS.collect_pages].
  rewrite (bind_ok _ _ _ _ _ (list_entries_page _ _ _ _ _ _ Hinv Hi Hn Hf Hc)). fold lim.
  pose proof (collect_omap id lim rows) as Hsplit.
  assert (page_entries (page id lim rows) = (collect id lim rows).1.*2) as Hpe.
  { unfold page. by destruct (collect id lim rows). }
  rewrite Hpe. destruct (next_cursor (page id lim rows)) as [c|] eqn:En.
  - destruct (next_page id _ _ _ lim _ (shard_wf s Hs) Hd Hi Hlim Hc En)
      as (Hc' & _ & pre & v & Hrows).
    rewrite bool_decide_false.
    2:{ intros ->. eapply (cursor_not_pending id _ c rows c v);
          [by apply shard_wf|exact Hc| |done]. rewrite Hrows. set_solver. }
    assert (length (collect id lim rows).1 = lim) as Hlen.
    { unfold page in En. destruct (collect id lim rows). simpl in *.
      by case_bool_decide as Hb; [destruct Hb|]. }
    rewrite (IH _ _ _ Hc').
    + rewrite Hsplit, fmap_app. unfold load. by rewrite foldl_app.
    + rewrite Hsplit, length_app in Hlt. lia.
  - apply page_end in En; [|done]. rewrite En, app_nil_r in Hsplit. by rewrite Hsplit.
Qed.

(** Too few pages: the read fails and nothing changes. *)
Lemma collect_pages_exceeded fuel pages id n acc cursor rows s :
  shard_inv s → obj_ok id → n ≠ 0 → length (sh_contents s) < fuel →
  at_cursor id (sh_contents s) cursor rows →
  pages * Nat.min n MAX_LIST_LIMIT < length (omap (vis id) rows) →
  OS.collect_pages fuel pages id n acc cursor s
  = (Err (ConfigurationError "granular reconstruction exceeded pagination bounds"), s).
Proof.
  intros Hinv Hi Hn Hf. pose proof Hinv as [Hs Hd].
  set (lim := Nat.min n MAX_LIST_LIMIT).
  assert (lim ≠ 0) as Hlim by (unfold lim, MAX_LIST_LIMIT; lia).
  revert acc cursor rows. induction pages as [|pages IH]; intros acc cursor rows Hc Hlt; [done|].
  cbn [OS.collect_pages].
  rewrite (bind_ok _ _ _ _ _ (list_entries_page _ _ _ _ _ _ Hinv Hi Hn Hf Hc)). fold lim.
  pose proof (collect_omap id lim rows) as Hsplit.
  pose proof (collect_length id lim rows) as Hlen.
  assert (length (omap (vis id) rows)
    = length (collect id lim rows).1 + length (omap (vis id) (collect id lim rows).2)) as Hl2.
  { by rewrite Hsplit at 1; rewrite length_app. }
  destruct (next_cursor (page id lim rows)) as [c|] eqn:En.
  - destruct (next_page id _ _ _ lim _ (shard_wf s Hs) Hd Hi Hlim Hc En)
      as (Hc' & _ & pre & v & Hrows).
    rewrite bool_decide_false.
    2:{ intros ->. eapply (cursor_not_pending id _ c rows c v);
          [by apply shard_wf|exact Hc| |done]. rewrite Hrows. set_solver. }
    apply (IH _ _ _ Hc'). lia.
  - apply page_end in En; [|done]. rewrite En in Hl2. simpl in Hl2. lia.
Qed.

(** ** The object the view holds *)

(** Its entries, as the map a read returns. *)
Definition object_entries (d : store) (id : bytes) : btree bytes ObjectVal :=
  load (all_entries id d) [].

(** What a read of the object returns: nothing for a deleted object and for one without
    metadata and entries. *)
Definition object_of (d : store) (id : bytes) : option ObjectData :=
  let obj v := Some {| last_updated := v; entries := object_entries d id;
                       event := event_of d id |} in
  match meta_of d id with
  | Some m => if tombstone m then None else obj (object_version m)
  | None => if bool_decide (object_entries d id = []) then None else obj 0%Z
  end.

(** The object is small enough to be read in [MAX_PAGES] pages. *)
Definition readable (s : Shard R) (id : bytes) : Prop :=
  length (all_entries id (sh_contents s))
  < MAX_PAGES * Nat.min (sh_prefetch_limit s) MAX_LIST_LIMIT.

Lemma object_entries_get d id key :
  bt_wf d → store_ok d → obj_ok id → key_ok key →
  bt_get key (object_entries d id) = entry_of d id key.
Proof.
  intros Hw Hd Hi Hk. unfold object_entries.
  rewrite load_get by by apply all_entries_NoDup. simpl.
  destruct (entry_of d id key) as [v|] eqn:E.
  - rewrite (bt_get_NoDup key v); [done|by apply all_entries_NoDup|].
    by apply all_entries_elem.
  - rewrite bt_get_notin; [done|]. intros ([k v] & -> & Hin)%list_elem_of_fmap.
    apply all_entries_elem in Hin as [_ Hin]; [|done..]. simpl in E. congruence.
Qed.

Lemma object_entries_keys d id :
  bt_wf d → store_ok d → obj_ok id → Forall key_ok (object_entries d id).*1.
Proof.
  intros Hw Hd Hi. apply Forall_forall. intros k ([k' v] & -> & Hin)%list_elem_of_fmap.
  assert (bt_wf (object_entries d id)) as Hwf by (apply load_wf; constructor).
  apply (bt_get_elem k' v) in Hin; [|done]. unfold object_entries in Hin.
  rewrite load_get in Hin by by apply all_entries_NoDup. simpl.
  destruct (decide (k' ∈ (all_entries id d).*1)) as [([k v'] & -> & Hel)%list_elem_of_fmap|Hno].
  - by apply all_entries_elem in Hel as [? _].
  - by rewrite bt_get_notin in Hin.
Qed.

Lemma object_entries_wf d id : bt_wf (object_entries d id).
Proof. apply load_wf. constructor. Qed.

(** Two stores that agree on the entries of an object agree on its map of entries. *)
Lemma object_entries_ext d id es :
  bt_wf d → store_ok d → obj_ok id → bt_wf es → Forall key_ok es.*1 →
  (∀ key, key_ok key → bt_get key es = entry_of d id key) → object_entries d id = es.
Proof.
  intros Hw Hd Hi Hes Hk Heq. apply bt_ext; [apply object_entries_wf|done|].
  intros key. destruct (decide (key_ok key)) as [Hok|Hno].
  { by rewrite object_entries_get, Heq. }
  transitivity (None (A := ObjectVal)); [|symmetry].
  - apply bt_get_notin. intros Hin. pose proof (object_entries_keys d id Hw Hd Hi) as Hf.
    rewrite Forall_forall in Hf. auto.
  - apply bt_get_notin. intros Hin. rewrite Forall_forall in Hk. auto.
Qed.

Lemma reconstruct_pages_ok fuel id n s :
  shard_inv s → obj_ok id → n ≠ 0 → length (sh_contents s) < fuel →
  length (all_entries id (sh_contents s)) < MAX_PAGES * Nat.min n MAX_LIST_LIMIT →
  OS.reconstruct_object_from_entries fuel id n s = (Ok (object_of (sh_contents s) id), s).
Proof.
  intros Hinv Hi Hn Hf Hr. unfold OS.reconstruct_object_from_entries.
  rewrite (proj2 (Nat.eqb_neq _ _)) by done.
  erewrite bind_ok.
  2:{ eapply (collect_pages_ok fuel MAX_PAGES id n [] None _ s);
        [done|done|done|done|reflexivity|].
      unfold all_entries, all_rows in Hr. by rewrite length_fmap in Hr. }
  fold (all_rows id (sh_contents s)). fold (all_entries id (sh_contents s)).
  fold (object_entries (sh_contents s) id).
  rewrite (bind_ok _ _ _ _ _ (get_metadata_ok id s Hinv Hi)).
  unfold object_of. destruct Hinv as [Hs Hd].
  destruct (meta_of (sh_contents s) id) as [m|].
  - destruct (tombstone m); [done|]. cbv zeta.
    by rewrite (bind_ok _ _ _ _ _ (load_event_config_ok id s Hs)).
  - case_bool_decide; [done|]. cbv zeta.
    by rewrite (bind_ok _ _ _ _ _ (load_event_config_ok id s Hs)).
Qed.

Lemma reconstruct_ok fuel id s :
  shard_inv s → obj_ok id → sh_prefetch_limit s ≠ 0 → length (sh_contents s) < fuel →
  readable s id →
  OS.reconstruct_object_from_entries fuel id (sh_prefetch_limit s) s
  = (Ok (object_of (sh_contents s) id), s).
Proof. intros. by apply reconstruct_pages_ok. Qed.

Lemma get_object_ok fuel id s :
  shard_inv s → obj_ok id → sh_prefetch_limit s ≠ 0 → length (sh_contents s) < fuel →
  readable s id → OS.get_object fuel id s = (Ok (object_of (sh_contents s) id), s).
Proof. intros. unfold OS.get_object. by apply reconstruct_ok. Qed.
End reading.

(** ** Writing whole objects *)

Section writing.
Context {R : Type} `{StorageLaws R} `{!ReplicationLayer R} `{!ReplicationLaws R}.
Context `{CodecLaws}.
Implicit Types s : Shard R.

Definition rkey_id (r : rkey) : bytes :=
  match r with KMeta id | KEvent id | KEntry id _ => id end.

(** The storage range of an object holds exactly its records. *)
Lemma in_object_range id r :
  obj_ok id → rkey_ok r →
  in_bounds (Included (build_object_prefix id)) (Excluded (range_end id)) (rk r)
  = bool_decide (rkey_id r = id).
Proof.
  intros [[Hi _] _] Hr. rewrite range_end_eq.
  unfold in_bounds, above, below, build_object_prefix, string_object_prefix.
  rewrite (prefix_range id (rk r) nul Byte.x01) by done.
  assert (∃ t, rk r = rkey_id r ++ nul :: t ∧ nul ∉ rkey_id r) as (t & -> & Hn).
  { destruct r as [i|i|i k]; simpl in *; eexists; (split; [done|]);
      [destruct Hr as [[? _] _]|destruct Hr as [[? _] _]|destruct Hr as [[[? _] _] _]]; done. }
  pose proof (starts_with_prefix_nul id (rkey_id r) t Hi Hn) as E.
  unfold string_object_prefix in E. rewrite E. apply bool_decide_ext. naive_solver.
Qed.

Lemma delete_granular_ok id s :
  shard_inv s → obj_ok id →
  ∃ r, ES.delete_object_granular id s = (Ok tt, set_rep r s) ∧ shard_inv (set_rep r s) ∧
  obj_update (sh_contents s) (contents r) id (λ _, None) None None.
Proof.
  intros [Hs Hd] Hi. unfold ES.delete_object_granular. cbv zeta.
  fold (range_end id). set (start := build_object_prefix id).
  destruct (law_delete_range (Included start) (Excluded (range_end id)) (sh_rep s) Hs)
    as (n & r & E & Hr & Hc).
  { simpl. rewrite range_end_eq. unfold start, build_object_prefix, string_object_prefix, ltb.
    by rewrite cmp_app_same. }
  exists r. split.
  { erewrite bind_ok; [reflexivity|]. unfold app_storage, map_err, zoom. by rewrite E. }
  fold (sh_contents s) in Hc.
  assert (∀ k, rkey_ok k → bt_get (rk k) (contents r)
    = if decide (rkey_id k = id) then None else bt_get (rk k) (sh_contents s)) as Hget.
  { intros k Hk. rewrite Hc.
    rewrite (bt_get_filter (λ x, negb (in_bounds (Included start) (Excluded (range_end id)) x))).
    unfold start. rewrite in_object_range by done. by case_bool_decide; case_decide. }
  split.
  - split; [done|]. unfold sh_contents. simpl. rewrite Hc. by apply store_ok_filter.
  - split; intros.
    + unfold entry_of. rewrite Hget by done. simpl. by case_decide.
    + unfold meta_of. rewrite Hget by done. simpl. by case_decide.
    + unfold event_of. rewrite Hget by done. simpl. by case_decide.
Qed.

Lemma write_event_ok id ev s :
  shard_inv s → obj_ok id →
  let d := sh_contents s in
  ∃ s', OS.write_event_config id ev s = (Ok tt, s') ∧ shard_inv s' ∧ same_config s s' ∧
  sh_dispatcher s' = sh_dispatcher s ∧
  obj_update d (sh_contents s') id (entry_of d id) (meta_of d id)
    (match ev with Some e => event_decode (event_encode e) | None => event_of d id end).
Proof.
  intros [Hs Hd] Hi d. destruct ev as [e|]; simpl.
  - destruct (replicate_write_ok (string_object_event_config_key id) (event_encode e) s Hs)
      as (r & Hr & Hc & resp & E).
    exists (set_rep r s). rewrite (bind_ok _ _ _ _ _ E). split; [done|]. split; [|split; [done|]].
    + split; [done|]. unfold sh_contents. simpl. rewrite Hc.
      apply store_ok_insert; [|done]. by apply (rec_event id).
    + split; [done|]. unfold sh_contents at 1. simpl. rewrite Hc. by apply obj_update_event.
  - exists s. do 4 (split; [done|]). apply obj_update_refl.
Qed.

(** The metadata, entries and event configuration of the object after it was set. *)
Definition set_event (ev : option ObjectEvent) (old : option ObjectEvent) :=
  match ev with Some e => event_decode (event_encode e) | None => old end.

Lemma internal_set_object_ok id entry s :
  shard_inv s → obj_ok id → Forall key_ok (entries entry).*1 → NoDup (entries entry).*1 →
  entries entry ≠ [] →
  let d := sh_contents s in
  let m' := ObjectMeta.increment_version (meta_or_new d id) in
  ∃ s', OS.internal_set_object id entry s = (Ok tt, s') ∧ shard_inv s' ∧ same_config s s' ∧
  obj_update d (sh_contents s') id (override (entries entry) (entry_of d id)) (Some m')
    (set_event (event entry) (event_of d id)).
Proof.
  intros Hinv Hi Hk Hn Hne d m'. unfold OS.internal_set_object.
  destruct (write_event_ok id (event entry) s Hinv Hi) as (s1 & E1 & Hinv1 & Hc1 & _ & U1).
  rewrite (bind_ok _ _ _ _ _ E1).
  destruct (batch_set_ok id (entries entry) None s1 Hinv1 Hi Hk Hn Hne)
    as (s2 & E2 & Hinv2 & Hc2 & U2 & _); [done|].
  rewrite (bind_ok _ _ _ _ _ E2). exists s2. split; [done|]. split; [done|].
  split. { destruct Hc1 as (?&?&?&?), Hc2 as (?&?&?&?). repeat split; congruence. }
  pose proof (obj_update_meta_of _ _ _ _ _ _ Hi U1) as Hm1.
  pose proof (obj_update_event_of _ _ _ _ _ _ Hi U1) as He1.
  rewrite He1 in U2. unfold meta_or_new in U2. rewrite Hm1 in U2.
  eapply obj_update_ext; [|by eapply obj_update_trans].
  intros key Hkey. unfold override. destruct (bt_get key (entries entry)); [done|].
  by apply (obj_update_entry_of _ _ _ _ _ _ key Hi Hkey U1).
Qed.

(** Setting through [set_object] has the effect of [internal_set_object]: what it reads
    first does not change the outcome. *)
Lemma set_object_internal fuel id entry s :
  shard_inv s → obj_ok id → sh_prefetch_limit s ≠ 0 → length (sh_contents s) < fuel →
  readable s id →
  OS.set_object fuel id entry s = OS.internal_set_object id entry s.
Proof.
  intros Hinv Hi Hn Hf Hr. unfold OS.set_object.
  rewrite (bind_ok _ _ _ _ _ (get_metadata_ok id s Hinv Hi)), !bind_gets.
  destruct (_ && _); [|done]. unfold bind at 1.
  by rewrite (bind_ok _ _ _ _ _ (reconstruct_ok fuel id s Hinv Hi Hn Hf Hr)).
Qed.

Definition deletions (es : btree bytes ObjectVal) : list ChangedKey :=
  (λ kv, {| key_canonical := kv.1; action := ADelete; ck_value := None |}) <$> es.

(** Deleting an object that is there. *)
Lemma delete_object_ok fuel id m s :
  shard_inv s → obj_ok id → sh_prefetch_limit s ≠ 0 → length (sh_contents s) < fuel →
  readable s id → meta_of (sh_contents s) id = Some m → tombstone m = false →
  let d := sh_contents s in
  let m' := ObjectMeta.mark_tombstone (ObjectMeta.increment_version m) in
  ∃ s', OS.delete_object fuel id s = (Ok tt, s') ∧ shard_inv s' ∧ same_config s s' ∧
  obj_update d (sh_contents s') id (λ _, None) (Some m') None ∧
  sh_dispatcher s' =
    if decide (object_entries d id = []) then sh_dispatcher s
    else emitted id (object_version m) (object_version m') (deletions (object_entries d id))
           (event_of d id) s.
Proof.
  intros Hinv Hi Hn Hf Hr Hm Ht d m'. unfold OS.delete_object.
  rewrite (bind_ok _ _ _ _ _ (get_metadata_ok id s Hinv Hi)), Hm, Ht, !bind_gets.
  destruct (delete_granular_ok id s Hinv Hi) as (r1 & E1 & Hinv1 & U1).
  assert (ObjectMeta.wf m') as Hmw.
  { pose proof (meta_or_new_wf d id (shard_wf s (proj1 Hinv)) (proj2 Hinv) Hi) as Hw.
    unfold meta_or_new, d in Hw. rewrite Hm in Hw.
    by apply mark_tombstone_wf, increment_version_wf. }
  destruct (set_metadata_ok id m' (set_rep r1 s) (proj1 Hinv1)) as (r2 & Hr2 & Hc2 & E2).
  assert (shard_inv (set_rep r2 s)) as Hinv2.
  { split; [done|]. unfold sh_contents. simpl. rewrite Hc2. apply store_ok_insert.
    - by apply (rec_meta id).
    - apply Hinv1. }
  assert (obj_update d (contents r2) id (λ _, None) (Some m') None) as U2.
  { rewrite Hc2. by eapply obj_update_then_meta. }
  assert (∀ k : option ObjectData → M (Shard R) ShardError unit,
    bind (if v2_mode s then OS.reconstruct_object_from_entries fuel id (sh_prefetch_limit s)
          else ret None) k s
    = k (if v2_mode s then object_of d id else None) s) as ->.
  { intros k. destruct (v2_mode s); [|done]. by erewrite bind_ok by by apply reconstruct_ok. }
  rewrite (bind_ok _ _ _ _ _ (load_event_config_ok id s (proj1 Hinv))),
    (bind_ok _ _ _ _ _ E1). cbv zeta. fold m'.
  rewrite (bind_ok _ _ _ _ _ E2). unfold object_of. fold d in Hm. rewrite Hm, Ht. cbn [entries].
  destruct (v2_mode s) eqn:Hv.
  - case_bool_decide as Hb.
    + apply fmap_nil_inv in Hb. eexists. split; [reflexivity|]. split; [exact Hinv2|].
      split; [done|]. split; [exact U2|]. by rewrite decide_True.
    + eexists. split; [reflexivity|]. split; [exact Hinv2|]. split; [done|].
      split; [exact U2|]. rewrite decide_False by (intros Heq; apply Hb; by rewrite Heq). done.
  - eexists. split; [reflexivity|]. split; [exact Hinv2|]. split; [done|]. split; [exact U2|].
    unfold emitted. simpl. rewrite (v2_false s Hv). by case_decide.
Qed.

(** An update of one object leaves every other object as it is. *)
Lemma object_of_other d d' id f m ev id' :
  bt_wf d → store_ok d → bt_wf d' → store_ok d' → obj_ok id' → id' ≠ id →
  obj_update d d' id f m ev → object_of d' id' = object_of d id'.
Proof.
  intros Hw Hd Hw' Hd' Hi Hne [A B C].
  assert (object_entries d' id' = object_entries d id') as He.
  { apply object_entries_ext; [done..|apply object_entries_wf|by apply object_entries_keys|].
    intros key Hk. rewrite object_entries_get, A by done. by rewrite decide_False. }
  unfold object_of. by rewrite He, B, C, !decide_False by done.
Qed.

(** The updated object itself. *)
Lemma object_of_updated d d' id f m ev :
  bt_wf d' → store_ok d' → obj_ok id → obj_update d d' id f (Some m) ev →
  object_of d' id = if tombstone m then None
                    else Some {| last_updated := object_version m;
                                 entries := object_entries d' id; event := ev |}.
Proof.
  intros Hw' Hd' Hi U. unfold object_of.
  by rewrite (obj_update_meta_of _ _ _ _ _ _ Hi U), (obj_update_event_of _ _ _ _ _ _ Hi U).
Qed.
End writing.

(** ** Counting and scanning *)

Section scanning.
Context {R : Type} `{StorageLaws R} `{!ReplicationLayer R} `{!ReplicationLaws R}.
Context `{CodecLaws}.
Implicit Types s : Shard R.

(** The object a row is the metadata of. *)
Definition meta_row (row : bytes * bytes) : option bytes :=
  match parse_granular_key (E := ShardError) row.1 with
  | Ok (Some (oid, GMetadata)) => Some oid
  | _ => None
  end.

(** All objects with metadata, in storage order. *)
Definition all_objects (d : store) : list bytes := omap meta_row d.

Lemma meta_row_rk r v : rkey_ok r → meta_row (rk r, v) = match r with KMeta id => Some id | _ => None end.
Proof. intros Hr. unfold meta_row. cbn [fst]. rewrite parse_rk by done. by destruct r. Qed.

Lemma all_objects_elem d id :
  bt_wf d → store_ok d → obj_ok id → id ∈ all_objects d ↔ is_Some (meta_of d id).
Proof.
  intros Hw Hd Hi. unfold all_objects. rewrite list_elem_of_omap. unfold store_ok in Hd.
  rewrite Forall_forall in Hd. split.
  - intros ([k v] & Hin & Hm). pose proof (Hd _ Hin) as Hr.
    apply rec_ok_inv in Hr as (r & -> & Hr & Hv). rewrite meta_row_rk in Hm by done.
    destruct r as [i|i|i e]; simplify_eq. destruct Hv as (m & -> & Hwf).
    unfold meta_of. apply bt_get_elem in Hin; [|done]. rewrite Hin. simpl.
    rewrite meta_roundtrip by done. by eexists.
  - intros [m Hm]. unfold meta_of in Hm.
    destruct (bt_get (rk (KMeta id)) d) as [v|] eqn:E; [|done].
    exists (rk (KMeta id), v). split; [by apply bt_get_elem|]. by rewrite meta_row_rk.
Qed.

Lemma all_objects_ok d id : store_ok d → id ∈ all_objects d → obj_ok id.
Proof.
  intros Hd. unfold all_objects. rewrite list_elem_of_omap. unfold store_ok in Hd.
  rewrite Forall_forall in Hd. intros ([k v] & Hin & Hm). pose proof (Hd _ Hin) as Hr.
  apply rec_ok_inv in Hr as (r & -> & Hr & Hv). rewrite meta_row_rk in Hm by done.
  by destruct r; simplify_eq.
Qed.

Lemma all_objects_NoDup d : bt_wf d → store_ok d → NoDup (all_objects d).
Proof.
  unfold store_ok. induction 1 as [|[k v] d Hw IH Hall]; intros Hd; [constructor|].
  inversion_clear Hd as [|?? Hr Hd']. unfold all_objects. simpl.
  apply rec_ok_inv in Hr as (r & -> & Hr & Hv). rewrite meta_row_rk by done.
  destruct r as [i|i|i e]; [|by apply IH..]. constructor; [|by apply IH].
  intros ([k v'] & Hin & Hm)%list_elem_of_omap. rewrite Forall_forall in Hd'.
  pose proof (Hd' _ Hin) as Hr'. apply rec_ok_inv in Hr' as (r' & -> & Hr' & _).
  rewrite meta_row_rk in Hm by done. destruct r'; simplify_eq.
  rewrite Forall_forall in Hall. apply Hall in Hin. by apply (cmp_irrefl (rk (KMeta i))).
Qed.

Lemma count_metadata_ok d n : store_ok d → OS.count_metadata d n = Ok (n + length (all_objects d)).
Proof.
  unfold store_ok. intros Hd. revert n. induction Hd as [|[k v] d Hr Hd IH]; intros n; cbn [OS.count_metadata].
  { f_equal. simpl. lia. }
  apply rec_ok_inv in Hr as (r & -> & Hr & _). rewrite parse_rk by done. cbn [res_bind].
  unfold all_objects. simpl omap. rewrite meta_row_rk by done.
  destruct r as [i|i|i e]; cbn [rkey_record]; rewrite IH; f_equal; [|done..]. cbn [length]. unfold all_objects. apply plus_n_Sm.
Qed.

Lemma scan_rows_ok fuel prefix rows out s :
  shard_inv s → sh_prefetch_limit s ≠ 0 → length (sh_contents s) < fuel →
  (∀ id, obj_ok id → readable s id) → store_ok rows →
  OS.scan_rows fuel prefix rows out s
  = (Ok (out ++ omap (λ id, if default true ((λ p, starts_with p id) <$> prefix)
                            then (λ o, (id, o)) <$> object_of (sh_contents s) id else None)
                     (all_objects rows)), s).
Proof.
  intros Hinv Hn Hf Hread Hd. unfold store_ok in Hd. revert out.
  induction Hd as [|[k v] rows Hr Hd IH]; intros out.
  { simpl. by rewrite app_nil_r. }
  cbn [OS.scan_rows]. apply rec_ok_inv in Hr as (r & -> & Hr & _).
  erewrite bind_ok by (unfold lift_res; by rewrite parse_rk).
  unfold all_objects. cbn [omap list_omap]. rewrite meta_row_rk by done.
  destruct r as [i|i|i e]; cbn [rkey_record]; [|apply IH..].
  cbn [omap list_omap]. destruct (default true _); [|apply IH].
  rewrite bind_gets. rewrite (bind_ok _ _ _ _ _ (reconstruct_ok fuel i s Hinv Hr Hn Hf (Hread i Hr))).
  destruct (object_of (sh_contents s) i) as [o|]; simpl; [|apply IH].
  rewrite IH. f_equal. f_equal. by rewrite <- app_assoc.
Qed.
End scanning.

(** ** Theorems *)

Section theorems.
Context {R : Type} `{StorageLaws R} `{!ReplicationLayer R} `{!ReplicationLaws R}.
Context `{CodecLaws}.
Implicit Types s : Shard R.

(** C4. [get_object] collects the object's entries page by page: with at most [MAX_PAGES]
    pages it returns the object of the view (nothing when it is deleted, or has neither
    metadata nor entries) with exactly its entries, its version and its event
    configuration; with more entries than the pages hold it fails; the shard is unchanged
    either way. *)
Theorem get_object_correct fuel id s :
  shard_inv s → obj_ok id → sh_prefetch_limit s ≠ 0 → length (sh_contents s) < fuel →
  let d := sh_contents s in
  let bound := MAX_PAGES * Nat.min (sh_prefetch_limit s) MAX_LIST_LIMIT in
  (length (all_entries id d) < bound →
     OS.get_object fuel id s = (Ok (object_of d id), s)) ∧
  (bound < length (all_entries id d) →
     OS.get_object fuel id s
     = (Err (ConfigurationError "granular reconstruction exceeded pagination bounds"), s)) ∧
  bt_wf (object_entries d id) ∧
  (∀ key, key_ok key → bt_get key (object_entries d id) = entry_of d id key).
Proof.
  intros Hinv Hi Hn Hf d bound. pose proof (shard_wf s (proj1 Hinv)) as Hw.
  split; [intros; by apply get_object_ok|]. split; [|split].
  - intros Hb. unfold OS.get_object, OS.reconstruct_object_from_entries.
    rewrite (proj2 (Nat.eqb_neq _ _)) by done. apply bind_err.
    eapply (collect_pages_exceeded fuel MAX_PAGES id _ [] None); [done|done|done|done|reflexivity|].
    unfold all_entries, all_rows in Hb. by rewrite length_fmap in Hb.
  - apply object_entries_wf.
  - intros. by apply object_entries_get; [| apply Hinv | |].
Qed.

(** C5. Setting an object and reading it: the entries written override the old ones, which
    stay when they are not overwritten; the version is one higher; other objects are as
    before. An object that was deleted before stays deleted: its metadata keeps the
    tombstone, and the read returns nothing. *)
Theorem set_then_get_object fuel id entry s :
  shard_inv s → obj_ok id → Forall key_ok (entries entry).*1 → bt_wf (entries entry) →
  entries entry ≠ [] → sh_prefetch_limit s ≠ 0 → length (sh_contents s) < fuel →
  readable s id →
  let d := sh_contents s in
  ∃ s', OS.set_object fuel id entry s = (Ok tt, s') ∧ shard_inv s' ∧
  (∀ id', obj_ok id' → id' ≠ id → object_of (sh_contents s') id' = object_of d id') ∧
  (∀ key, key_ok key → entry_of (sh_contents s') id key
                       = override (entries entry) (entry_of d id) key) ∧
  (length (sh_contents s') < fuel → readable s' id →
     OS.get_object fuel id s'
     = (Ok (if tombstone (meta_or_new d id) then None
            else Some {| last_updated := sat_add64 (version_of d id) 1;
                         entries := object_entries (sh_contents s') id;
                         event := set_event (event entry) (event_of d id) |}), s')).
Proof.
  intros Hinv Hi Hk Hwe Hne Hn Hf Hr d.
  rewrite (set_object_internal fuel id entry s Hinv Hi Hn Hf Hr).
  destruct (internal_set_object_ok id entry s Hinv Hi Hk (bt_wf_NoDup _ Hwe) Hne)
    as (s' & E & Hinv' & Hc & U).
  exists s'. split; [done|]. split; [done|].
  pose proof (shard_wf s (proj1 Hinv)) as Hw. pose proof (shard_wf s' (proj1 Hinv')) as Hw'.
  split; [|split].
  - intros id' Hi' Hne'. eapply (object_of_other d); [exact Hw|apply Hinv|exact Hw'|apply Hinv'|done..].
  - intros key Hkey. by apply (obj_update_entry_of _ _ _ _ _ _ key Hi Hkey U).
  - intros Hf' Hr'. rewrite get_object_ok; [|done|done| |done|done].
    + by rewrite (object_of_updated d _ id _ _ _ Hw' (proj2 Hinv') Hi U).
    + destruct Hc as (_ & _ & -> & _). done.
Qed.

(** C6. [delete_object]: an object that is there loses all its entries and its event
    configuration, keeps a tombstone with the next version and is no longer read; one event
    lists its entries as deleted and carries the configuration it had; other objects are
    as before. Without metadata, or when already deleted, nothing happens. *)
Theorem delete_object_correct fuel id s :
  shard_inv s → obj_ok id → sh_prefetch_limit s ≠ 0 → length (sh_contents s) < fuel →
  readable s id →
  let d := sh_contents s in
  match meta_of d id with
  | Some m =>
      if tombstone m then OS.delete_object fuel id s = (Ok tt, s) else
      let m' := ObjectMeta.mark_tombstone (ObjectMeta.increment_version m) in
      ∃ s', OS.delete_object fuel id s = (Ok tt, s') ∧ shard_inv s' ∧
      obj_update d (sh_contents s') id (λ _, None) (Some m') None ∧
      (∀ id', obj_ok id' → id' ≠ id → object_of (sh_contents s') id' = object_of d id') ∧
      (length (sh_contents s') < fuel → OS.get_object fuel id s' = (Ok None, s')) ∧
      sh_dispatcher s' =
        if decide (object_entries d id = []) then sh_dispatcher s
        else emitted id (object_version m) (object_version m')
               (deletions (object_entries d id)) (event_of d id) s
  | None => OS.delete_object fuel id s = (Ok tt, s)
  end.
Proof.
  intros Hinv Hi Hn Hf Hr d. destruct (meta_of d id) as [m|] eqn:Hm.
  2:{ unfold OS.delete_object. rewrite (bind_ok _ _ _ _ _ (get_metadata_ok id s Hinv Hi)).
      fold d. by rewrite Hm. }
  destruct (tombstone m) eqn:Ht.
  { unfold OS.delete_object. rewrite (bind_ok _ _ _ _ _ (get_metadata_ok id s Hinv Hi)).
    fold d. by rewrite Hm, Ht. }
  destruct (delete_object_ok fuel id m s Hinv Hi Hn Hf Hr Hm Ht)
    as (s' & E & Hinv' & Hc & U & Hdisp).
  exists s'. split; [done|]. split; [done|]. split; [done|].
  pose proof (shard_wf s (proj1 Hinv)) as Hw. pose proof (shard_wf s' (proj1 Hinv')) as Hw'.
  split; [|split; [|done]].
  - intros id' Hi' Hne'. eapply (object_of_other d); [exact Hw|apply Hinv|exact Hw'|apply Hinv'|done..].
  - intros Hf'. assert (sh_prefetch_limit s' ≠ 0) as Hn'.
    { destruct Hc as (_ & _ & -> & _). done. }
    rewrite get_object_ok; [|done|done|done|done|].
    + by rewrite (object_of_updated d _ id _ _ _ Hw' (proj2 Hinv') Hi U).
    + unfold readable. destruct (all_entries id (sh_contents s')) as [|[k v] es] eqn:Ea.
      * unfold MAX_PAGES, MAX_LIST_LIMIT. simpl length. lia.
      * assert ((k, v) ∈ all_entries id (sh_contents s')) as Hin by (rewrite Ea; left).
        apply all_entries_elem in Hin as [Hk Hin]; [|done|apply Hinv'|done].
        by rewrite (obj_update_entry_of _ _ _ _ _ _ k Hi Hk U) in Hin.
Qed.

(** [count_objects] is the number of objects that have metadata: deleted objects, which
    keep a tombstone, are counted. *)
Theorem count_objects_correct s :
  shard_inv s →
  let d := sh_contents s in
  OS.count_objects s = (Ok (length (all_objects d)), s) ∧ NoDup (all_objects d) ∧
  ∀ id, obj_ok id → id ∈ all_objects d ↔ is_Some (meta_of d id).
Proof.
  intros [Hs Hd] d. pose proof (shard_wf s Hs) as Hw. split; [|split].
  - unfold OS.count_objects. erewrite bind_ok by (apply app_read, law_scan_all, Hs).
    unfold lift_res. fold d. by rewrite count_metadata_ok.
  - by apply all_objects_NoDup.
  - intros. by apply all_objects_elem.
Qed.

(** [scan_objects] returns exactly the live objects whose identifier starts with the
    prefix, each once, as [get_object] would; deleted objects are left out. *)
Theorem scan_objects_correct fuel prefix s :
  shard_inv s → sh_prefetch_limit s ≠ 0 → length (sh_contents s) < fuel →
  (∀ id, obj_ok id → readable s id) →
  ∃ out, OS.scan_objects fuel prefix s = (Ok out, s) ∧ NoDup out.*1 ∧
  ∀ id o, (id, o) ∈ out ↔
    obj_ok id ∧ is_Some (meta_of (sh_contents s) id) ∧
    default true ((λ p, starts_with p id) <$> prefix) = true ∧
    object_of (sh_contents s) id = Some o.
Proof.
  intros Hinv Hn Hf Hread. pose proof Hinv as [Hs Hd]. pose proof (shard_wf s Hs) as Hw.
  eexists. split; [|split].
  - unfold OS.scan_objects. erewrite bind_ok by (apply app_read, law_scan_all, Hs).
    fold (sh_contents s). rewrite (scan_rows_ok fuel prefix (sh_contents s) [] s Hinv Hn Hf Hread Hd). reflexivity.
  - pose proof (all_objects_NoDup _ Hw Hd) as Hnd. simpl.
    induction Hnd as [|i l Hni Hnd IH]; simpl; [constructor|].
    case_match eqn:E; [|exact IH]. simpl. constructor; [|exact IH].
    case_match; [|done]. apply fmap_Some in E as (o & _ & ->). cbn [fst].
    intros ([i' o'] & Heq & Hin)%list_elem_of_fmap. simpl in Heq. subst i'.
    apply list_elem_of_omap in Hin as (j & Hj & Hsome). case_match; [|done].
    by apply fmap_Some in Hsome as (? & _ & [= -> _]).
  - intros id o. simpl. rewrite list_elem_of_omap. split.
    + intros (j & Hj & Hsome). case_match eqn:Ep; [|done].
      apply fmap_Some in Hsome as (o' & Ho & [= -> ->]).
      pose proof (all_objects_ok _ _ Hd Hj). split; [done|]. split; [|done].
      by apply all_objects_elem.
    + intros (Hi & Hm & Hp & Ho). exists id. split; [by apply all_objects_elem|].
      by rewrite Hp, Ho.
Qed.

(** [ensure_metadata_exists], on a layer that reports whether a write replaced a value:
    an object without metadata gets fresh metadata and the call reports that it created
    it; otherwise nothing changes. *)
Theorem ensure_metadata_exists_correct id s :
  shard_inv s → obj_ok id → extra (write_response None true) = ExtraWrite false →
  let d := sh_contents s in
  if decide (is_Some (meta_of d id))
  then OS.ensure_metadata_exists id s = (Ok false, s)
  else ∃ s', OS.ensure_metadata_exists id s = (Ok true, s') ∧ shard_inv s' ∧
       obj_update d (sh_contents s') id (entry_of d id) (Some ObjectMeta.new) (event_of d id).
Proof.
  intros Hinv Hi Hx d. pose proof Hinv as [Hs Hd]. unfold OS.ensure_metadata_exists.
  rewrite (bind_ok _ _ _ _ _ (get_metadata_ok id s Hinv Hi)). fold d.
  destruct (meta_of d id) as [m|] eqn:Hm; case_decide as Hsome; try done.
  { by destruct Hsome. }
  assert (bt_get (rk (KMeta id)) d = None) as Hg.
  { unfold meta_of in Hm. destruct (bt_get (rk (KMeta id)) d) as [v|] eqn:E; [|done].
    apply (store_ok_get (KMeta id)) in E as (m & -> & Hwf); [|by apply shard_wf|done..].
    simpl in Hm. by rewrite meta_roundtrip in Hm. }
  set (w := {| w_key := build_metadata_key id; w_value := ObjectMeta.to_bytes ObjectMeta.new;
               w_ttl := None; w_return_old := true |}).
  destruct (law_write w (sh_now s) 0 (sh_rep s) Hs) as (r & E & Hr & Hc).
  exists (set_rep r s). split.
  { erewrite bind_ok by (unfold replicate, map_err, zoom; by rewrite E).
    change (w_key w) with (rk (KMeta id)). fold (sh_contents s). fold d. rewrite Hg.
    change (w_return_old w) with true. by rewrite Hx. }
  change (contents r = bt_insert (rk (KMeta id)) (ObjectMeta.to_bytes ObjectMeta.new) d) in Hc.
  split.
  - split; [done|]. unfold sh_contents. simpl. rewrite Hc. apply store_ok_insert; [|done].
    apply (rec_meta id); [done|apply new_wf].
  - unfold sh_contents. simpl. rewrite Hc. apply obj_update_meta; [done|apply new_wf].
Qed.
End theorems.

(** ** Witnesses *)

Section small.
Context {R : Type} `{StorageLaws R} `{!ReplicationLayer R} `{!ReplicationLaws R}.
Context `{CodecLaws}.

Lemma readable_small (s : Shard R) id :
  length (sh_contents s) < MAX_PAGES * Nat.min (sh_prefetch_limit s) MAX_LIST_LIMIT →
  readable s id.
Proof.
  intros Hb. unfold readable, all_entries, all_rows. rewrite length_fmap.
  pose proof (rows_from_length id (build_entry_key id []) (sh_contents s)) as Hr.
  eapply Nat.le_lt_trans; [|exact Hb]. etransitivity; [|exact Hr]. clear Hr Hb.
  induction (rows_from id (build_entry_key id []) (sh_contents s)) as [|row rows IH]; simpl; [lia|].
  destruct (vis id row); simpl; [apply le_n_S, IH|apply le_S, IH].
Qed.
End small.

Import Demo.

Definition demo_object : ObjectData :=
  {| last_updated := 0; entries := [(bs "a", Demo.val "9"); (bs "c", Demo.val "8")];
     event := None |}.

(** [demo3] after its object was deleted, and after it was then set again. *)
Definition demo3_deleted : Shard MemoryStorage := (OS.delete_object 20 (bs "o") demo3).2.
Definition demo3_reset : Shard MemoryStorage :=
  (OS.set_object 20 (bs "o") demo_object demo3_deleted).2.

#[local] Ltac lt_now := apply Nat.ltb_lt; vm_compute; reflexivity.

Lemma get_object_correct_witness :
  (OS.get_object 20 (bs "o") demo3).1
  = Ok (Some {| last_updated := 3; event := None;
                entries := [(bs "a", Demo.val "1"); (bs "aa", Demo.val "3");
                            (bs "b", Demo.val "2")] |}).
Proof.
  rewrite (proj1 (get_object_correct 20 (bs "o") demo3 demo3_inv ltac:(decide_now)
    ltac:(done) ltac:(lt_now)) ltac:(lt_now)).
  vm_compute. reflexivity.
Defined.

Lemma set_then_get_object_witness :
  ∃ s', OS.set_object 20 (bs "o") demo_object demo3 = (Ok tt, s') ∧
  (OS.get_object 20 (bs "o") s').1
  = Ok (Some {| last_updated := 4; event := None;
                entries := [(bs "a", Demo.val "9"); (bs "aa", Demo.val "3");
                            (bs "b", Demo.val "2"); (bs "c", Demo.val "8")] |}).
Proof.
  destruct (set_then_get_object 20 (bs "o") demo_object demo3 demo3_inv ltac:(decide_now)
    ltac:(decide_now) ltac:(repeat constructor) ltac:(done) ltac:(done) ltac:(lt_now)
    ltac:(apply readable_small; lt_now)) as (s' & E & _ & _ & _ & Hg).
  exists s'. split; [exact E|]. vm_compute in E. injection E as <-. vm_compute. reflexivity.
Defined.

Lemma delete_object_correct_witness :
  OS.delete_object 20 (bs "p") demo3 = (Ok tt, demo3).
Proof.
  exact (delete_object_correct 20 (bs "p") demo3 demo3_inv ltac:(decide_now) ltac:(done)
    ltac:(lt_now) ltac:(apply readable_small; lt_now)).
Defined.

Lemma demo3_deleted_inv : shard_inv demo3_deleted.
Proof.
  destruct (delete_object_ok 20 (bs "o")
    {| object_version := 3; tombstone := false; attributes := [] |} demo3 demo3_inv
    ltac:(decide_now) ltac:(done) ltac:(lt_now) ltac:(apply readable_small; lt_now)
    ltac:(vm_compute; reflexivity) ltac:(done)) as (s' & E & Hinv & _).
  unfold demo3_deleted. by rewrite E.
Qed.

Lemma count_objects_correct_witness : (OS.count_objects demo3_deleted).1 = Ok 1.
Proof.
  rewrite (proj1 (count_objects_correct demo3_deleted demo3_deleted_inv)).
  vm_compute. reflexivity.
Defined.

Lemma scan_objects_correct_witness :
  ∃ out, OS.scan_objects 20 (Some (bs "o")) demo3 = (Ok out, demo3) ∧ NoDup out.*1.
Proof.
  destruct (scan_objects_correct 20 (Some (bs "o")) demo3 demo3_inv ltac:(done) ltac:(lt_now)
    ltac:(intros; apply readable_small; lt_now)) as (out & E & Hn & _).
  exists out. exact (conj E Hn).
Defined.

Lemma ensure_metadata_exists_correct_witness :
  ∃ s', OS.ensure_metadata_exists (bs "q") demo3 = (Ok true, s') ∧
  meta_of (sh_contents s') (bs "q") = Some ObjectMeta.new.
Proof.
  destruct (ensure_metadata_exists_correct (bs "q") demo3 demo3_inv ltac:(decide_now)
    eq_refl) as (s' & E & _).
  exists s'. split; [exact E|]. vm_compute in E. injection E as <-. vm_compute. reflexivity.
Defined.

(** A write to a deleted object succeeds and its entries are stored and can be read one
    by one, but the tombstone stays and the object as a whole remains absent. *)
Theorem write_after_delete_invisible :
  (OS.set_object 20 (bs "o") demo_object demo3_deleted).1 = Ok tt ∧
  (ES.get_entry (bs "o") (bs "a") demo3_reset).1 = Ok (Some (Demo.val "9")) ∧
  (OS.get_object 20 (bs "o") demo3_reset).1 = Ok None.
Proof. split; [|split]; vm_compute; reflexivity. Qed.
