(* ===== verification/ObjectApi.v ===== *)
(** * The object API

    [data-plane/oprc-odgm/src/shard/object_api.rs]: the layer the gRPC and Zenoh handlers
    call. Upserts, compare-and-set batches that set and delete, listings. *)

From stdpp Require Import base tactics list numbers option gmap sorting strings.
From Stdlib Require Import Lia.
From S2P Require Import Prelude BTree Backend Memory Replication StorageKey GranularKey Events ObjectData Shard EntryStore ObjectView EntryOps EntryList ObjectShard ObjectOps.

Open Scope prog_scope.

Module Api.
Section api.
Context {R : Type} `{Storage R} `{!ReplicationLayer R} `{Codec}.
Context (fuel : nat).

Notation Sh A := (M (Shard R) ShardError A).

Definition get_object (id : bytes) : Sh (option ObjectData) :=
  OS.reconstruct_object_from_entries fuel id 1024.

Definition ensure_exists (id : bytes) : Sh bool := OS.ensure_metadata_exists id.

Definition upsert_object (id : bytes) (obj : ObjectData) : Sh unit :=
  if bool_decide (entries obj = []) then
    let! _ := OS.ensure_metadata_exists id in
    if bool_decide (event obj = None) then ret tt else OS.internal_set_object id obj
  else OS.internal_set_object id obj.

Definition set_entry (id key : bytes) (val : ObjectVal) : Sh unit := ES.set_entry id key val.

Definition current_version (id : bytes) : Sh Z :=
  let! meta := ES.get_metadata id in
  ret (default 0%Z (object_version <$> meta)).

(** Both delete loops: each key that is stored is deleted on its own. The result is
    whether any was. *)
Fixpoint delete_each (id : bytes) (keys : list bytes) (deleted_any : bool) : Sh bool :=
  match keys with
  | [] => ret deleted_any
  | key :: keys =>
      let! existing := ES.get_entry id key in
      match existing with
      | Some _ => ES.delete_entry id key ;;; delete_each id keys true
      | None => delete_each id keys deleted_any
      end
  end.

Definition delete_only (id : bytes) (delete_keys : list bytes) (expected : option Z) : Sh Z :=
  (match expected with
   | Some expected =>
       let! current := current_version id in
       if (current =? expected)%Z then ret tt
       else throw (VersionMismatch expected current)
   | None => ret tt
   end) ;;;
  let! deleted_any := delete_each id delete_keys false in
  if deleted_any then
    let! meta := ES.metadata_or_default id in
    let meta := ObjectMeta.increment_version meta in
    ES.set_metadata id meta ;;;
    ret (object_version meta)
  else current_version id.

Definition batch_mutate_entries (id : bytes) (set_map : list (bytes * ObjectVal))
    (delete_keys : list bytes) (expected_version : option Z) : Sh Z :=
  if bool_decide (set_map = []) && bool_decide (delete_keys = []) then current_version id
  else
    let! new_version :=
      if bool_decide (set_map = []) then delete_only id delete_keys expected_version
      else ES.batch_set_entries id set_map expected_version in
    (if bool_decide (delete_keys ≠ []) && (0 <? new_version)%Z
     then let! _ := delete_each id delete_keys false in ret tt
     else ret tt) ;;;
    ret new_version.

Definition list_entries (id : bytes) (options : EntryListOptions) :
    Sh (list (bytes * ObjectVal) * option bytes * Z) :=
  let! version := current_version id in
  let! result := ES.list_entries fuel id options in
  ret (page_entries result, next_cursor result, version).

Definition list_objects (options : ObjectListOptions) : Sh ObjectListResult :=
  ES.list_objects fuel options.
End api.
End Api.

(** ** Lemmas *)

Section lemmas.
Context {R : Type} `{StorageLaws R} `{!ReplicationLayer R} `{!ReplicationLaws R}.
Context `{CodecLaws}.
Implicit Types s : Shard R.

Lemma current_version_ok id s :
  shard_inv s → obj_ok id →
  Api.current_version id s = (Ok (version_of (sh_contents s) id), s).
Proof.
  intros Hinv Hi. unfold Api.current_version, version_of, meta_or_new.
  rewrite (bind_ok _ _ _ _ _ (get_metadata_ok id s Hinv Hi)).
  by destruct (meta_of (sh_contents s) id).
Qed.

(** The metadata after [n] version steps. *)
Definition bumped (n : nat) (m : ObjectMetadata) : ObjectMetadata :=
  Nat.iter n ObjectMeta.increment_version m.

Definition bumped_meta (n : nat) (d : store) (id : bytes) : option ObjectMetadata :=
  match n with O => meta_of d id | S _ => Some (bumped n (meta_or_new d id)) end.

Lemma bumped_S n m : bumped n (ObjectMeta.increment_version m) = bumped (S n) m.
Proof. unfold bumped. by rewrite Nat.iter_succ_r. Qed.

(** Each stored key is deleted and advances the version by one. *)
Lemma delete_each_ok id keys any s :
  shard_inv s → obj_ok id → Forall key_ok keys →
  let d := sh_contents s in
  ∃ s' del, Api.delete_each id keys any s = (Ok (any || bool_decide (del ≠ [])), s') ∧
  shard_inv s' ∧ NoDup del ∧ (∀ k, k ∈ del ↔ k ∈ keys ∧ is_Some (entry_of d id k)) ∧
  obj_update d (sh_contents s') id (without keys (entry_of d id))
    (bumped_meta (length del) d id) (event_of d id).
Proof.
  intros Hinv Hi. revert any s Hinv. induction keys as [|key keys IH]; intros any s Hinv Hk d.
  { exists s, []. simpl. rewrite orb_false_r. do 2 (split; [done|]). split; [constructor|].
    split; [set_solver|]. eapply obj_update_ext; [|apply obj_update_refl]. done. }
  inversion_clear Hk as [|?? Hk1 Hk2]. cbn [Api.delete_each].
  rewrite (bind_ok _ _ _ _ _ (get_entry_ok id key s Hinv Hi Hk1)). fold d.
  destruct (entry_of d id key) as [v|] eqn:Ev.
  - set (s0 := upd_metrics Metrics.inc_entry_reads s).
    destruct (delete_entry_ok id key s0 Hinv Hi Hk1) as (s1 & E1 & Hinv1 & _ & U1 & _).
    { change (sh_contents s0) with d. by rewrite Ev. }
    rewrite (bind_ok _ _ _ _ _ E1). change (sh_contents s0) with d in U1.
    destruct (IH true s1 Hinv1 Hk2) as (s' & del & E & Hinv' & Hn & Hdel & U).
    pose proof (obj_update_meta_of _ _ _ _ _ _ Hi U1) as Hm1.
    exists s', (key :: del). rewrite E. simpl. rewrite orb_true_r. split; [done|]. split; [done|].
    assert (∀ k, k ∈ del ↔ k ∈ keys ∧ k ≠ key ∧ is_Some (entry_of d id k)) as Hdel'.
    { intros k. rewrite Hdel. rewrite Forall_forall in Hk2. split.
      - intros [Hin Hs']. rewrite (obj_update_entry_of _ _ _ _ _ _ k Hi (Hk2 _ Hin) U1) in Hs'.
        case_decide; [|done]. by destruct Hs'.
      - intros (Hin & Hne & Hs'). split; [done|].
        rewrite (obj_update_entry_of _ _ _ _ _ _ k Hi (Hk2 _ Hin) U1). by rewrite decide_False. }
    split; [constructor; [rewrite Hdel'; naive_solver|done]|]. split.
    + intros k. rewrite !elem_of_cons, Hdel'. split; [naive_solver|].
      intros [[->|Hin] Hs']; [auto|]. destruct (decide (k = key)); auto.
    + rewrite (obj_update_event_of _ _ _ _ _ _ Hi U1) in U.
      assert (bumped_meta (length del) (sh_contents s1) id
              = Some (bumped (S (length del)) (meta_or_new d id))) as Hb.
      { unfold bumped_meta, meta_or_new at 1. rewrite Hm1. simpl default.
        destruct (length del); [done|]. by rewrite bumped_S. }
      rewrite Hb in U. eapply obj_update_ext; [|by eapply obj_update_trans].
      intros k Hkk. rewrite without_cons. unfold without.
      rewrite (obj_update_entry_of _ _ _ _ _ _ _ Hi Hkk U1). by repeat case_decide.
  - destruct (IH any s Hinv Hk2) as (s' & del & E & Hinv' & Hn & Hdel & U).
    exists s', del. do 3 (split; [done|]). split.
    + intros k. rewrite Hdel, elem_of_cons. fold d. split; [naive_solver|].
      intros [[->|Hin] Hs']; [by rewrite Ev in Hs'; destruct Hs'|done].
    + eapply obj_update_ext; [|exact U]. intros k Hkk. rewrite without_cons.
      case_decide as Hkey; [|done]. subst k. unfold without. by case_decide.
Qed.

Lemma bumped_version_pos n m : ObjectMeta.wf m → (0 < object_version (bumped (S n) m))%Z.
Proof.
  intros Hm. assert (ObjectMeta.wf (bumped n m)) as Hw.
  { unfold bumped. induction n; simpl; [done|]. by apply increment_version_wf. }
  unfold bumped in *. simpl. destruct Hw as [Hv _]. unfold is_u64, u64_max in *.
  unfold sat_add64, u64_max. lia.
Qed.

(** Nothing is left to delete. *)
Lemma delete_each_none id keys any s :
  shard_inv s → obj_ok id → Forall key_ok keys →
  (∀ k, k ∈ keys → entry_of (sh_contents s) id k = None) →
  Api.delete_each id keys any s = (Ok any, s).
Proof.
  intros Hinv Hi Hk Hnone. induction Hk as [|key keys Hk1 Hk2 IH]; cbn [Api.delete_each]; [done|].
  rewrite (bind_ok _ _ _ _ _ (get_entry_ok id key s Hinv Hi Hk1)).
  rewrite Hnone by set_solver. apply IH. set_solver.
Qed.
(** A second pass over keys that were deleted finds nothing. *)
Lemma delete_each_again id keys f m ev d s :
  shard_inv s → obj_ok id → Forall key_ok keys →
  obj_update d (sh_contents s) id (without keys f) m ev →
  Api.delete_each id keys false s = (Ok false, s).
Proof.
  intros Hinv Hi Hk U. apply delete_each_none; [done..|]. intros k Hin.
  rewrite Forall_forall in Hk. rewrite (obj_update_entry_of _ _ _ _ _ _ k Hi (Hk _ Hin) U).
  unfold without. by rewrite decide_True.
Qed.

(** The number of version steps of a batch that deletes [del] only. *)
Definition delete_steps (del : list bytes) : nat :=
  match del with [] => 0 | _ => S (length del) end.

Lemma delete_only_ok id keys expected s :
  shard_inv s → obj_ok id → Forall key_ok keys →
  let d := sh_contents s in
  expected = None ∨ expected = Some (version_of d id) →
  ∃ s' del, NoDup del ∧ (∀ k, k ∈ del ↔ k ∈ keys ∧ is_Some (entry_of d id k)) ∧
  Api.delete_only id keys expected s
  = (Ok (object_version (bumped (delete_steps del) (meta_or_new d id))), s') ∧ shard_inv s' ∧
  obj_update d (sh_contents s') id (without keys (entry_of d id))
    (bumped_meta (delete_steps del) d id) (event_of d id).
Proof.
  intros Hinv Hi Hk d Hexp. unfold Api.delete_only.
  assert (∀ k : unit → M (Shard R) ShardError Z,
    bind (match expected with
          | Some e => let! current := Api.current_version id in
                      if (current =? e)%Z then ret tt else throw (VersionMismatch e current)
          | None => ret tt end) k s = k tt s) as ->.
  { intros k. destruct expected as [e|]; [|done]. rewrite bind_assoc.
    rewrite (bind_ok _ _ _ _ _ (current_version_ok id s Hinv Hi)). fold d.
    destruct Hexp as [|[= ->]]; [done|]. by rewrite Z.eqb_refl. }
  destruct (delete_each_ok id keys false s Hinv Hi Hk) as (s1 & del & E1 & Hinv1 & Hn & Hdel & U1).
  rewrite (bind_ok _ _ _ _ _ E1). fold d in U1, Hdel. cbn [orb].
  case_bool_decide as Hnil.
  - assert (bumped_meta (length del) d id = Some (bumped (length del) (meta_or_new d id))) as Hb
      by (by destruct del).
    rewrite Hb in U1.
    assert (meta_or_new (sh_contents s1) id = bumped (length del) (meta_or_new d id)) as Hm1.
    { unfold meta_or_new at 1. by rewrite (obj_update_meta_of _ _ _ _ _ _ Hi U1). }
    destruct (bump_version (sh_contents s1) id _ _ s1 Hinv1 Hi (obj_update_refl _ id))
      as (r & E2 & E3 & Hinv2 & U2).
    rewrite Hm1 in E2, E3, U2. rewrite (obj_update_event_of _ _ _ _ _ _ Hi U1) in U2.
    rewrite (bind_ok _ _ _ _ _ E2). cbv zeta. rewrite (bind_ok _ _ _ _ _ E3).
    eapply obj_update_trans in U2; [|exact U1].
    assert (delete_steps del = S (length del)) as Hst by (by destruct del).
    exists (set_rep r s1), del. rewrite Hst. do 4 (split; [done|]).
    eapply obj_update_ext; [|exact U2]. intros k Hkk.
    apply (obj_update_entry_of _ _ _ _ _ _ k Hi Hkk U1).
  - subst del. exists s1, []. do 2 (split; [done|]). split; [|done].
    rewrite (current_version_ok id s1 Hinv1 Hi). unfold version_of, meta_or_new.
    by rewrite (obj_update_meta_of _ _ _ _ _ _ Hi U1).
Qed.
End lemmas.

(** ** Theorems *)

Section theorems.
Context {R : Type} `{StorageLaws R} `{!ReplicationLayer R} `{!ReplicationLaws R}.
Context `{CodecLaws}.
Implicit Types s : Shard R.

(** A batch that sets and deletes, when its expected version is current or absent: all
    values are written, then the listed keys are deleted; the version advances once for
    the sets and once more for each deleted key, but the version returned is the one
    after the sets. A stale expectation changes nothing. *)
Theorem batch_mutate_set id values keys expected s :
  shard_inv s → obj_ok id → Forall key_ok values.*1 → NoDup values.*1 → values ≠ [] →
  Forall key_ok keys →
  let d := sh_contents s in
  let m' := ObjectMeta.increment_version (meta_or_new d id) in
  if decide (expected = None ∨ expected = Some (version_of d id)) then
    ∃ s' del, Api.batch_mutate_entries id values keys expected s
              = (Ok (object_version m'), s') ∧ shard_inv s' ∧
    NoDup del ∧ (∀ k, k ∈ del ↔ k ∈ keys ∧ is_Some (override values (entry_of d id) k)) ∧
    obj_update d (sh_contents s') id (without keys (override values (entry_of d id)))
      (Some (bumped (length del) m')) (event_of d id)
  else
    ∃ e, expected = Some e ∧
    Api.batch_mutate_entries id values keys expected s
    = (Err (VersionMismatch e (version_of d id)), s).
Proof.
  intros Hinv Hi Hkv Hnv Hne Hk. cbv zeta. unfold Api.batch_mutate_entries.
  rewrite (bool_decide_false (values = [])) by done. cbn [andb].
  set (d := sh_contents s). case_decide as Hexp.
  2:{ destruct expected as [e|]; [|naive_solver]. exists e. split; [done|].
      apply bind_err. apply batch_set_mismatch; [done..|]. naive_solver. }
  destruct (batch_set_ok id values expected s Hinv Hi Hkv Hnv Hne)
    as (s1 & E1 & Hinv1 & _ & U1 & _).
  { intros e ->. by destruct Hexp as [|[= ->]]. }
  rewrite (bind_ok _ _ _ _ _ E1). fold d in U1. fold d.
  assert (ObjectMeta.wf (meta_or_new d id)) as Hw.
  { apply meta_or_new_wf; [by apply shard_wf, Hinv|apply Hinv|done]. }
  pose proof (bumped_version_pos 0 _ Hw : 0 < object_version (ObjectMeta.increment_version (meta_or_new d id)))%Z as Hpos.
  rewrite (proj2 (Z.ltb_lt _ _) Hpos), andb_true_r.
  destruct (delete_each_ok id keys false s1 Hinv1 Hi Hk) as (s2 & del & E2 & Hinv2 & Hn & Hdel & U2).
  rewrite (obj_update_event_of _ _ _ _ _ _ Hi U1) in U2.
  assert (bumped_meta (length del) (sh_contents s1) id
          = Some (bumped (length del) (ObjectMeta.increment_version (meta_or_new d id)))) as Hb.
  { unfold bumped_meta, meta_or_new at 1. rewrite (obj_update_meta_of _ _ _ _ _ _ Hi U1).
    by destruct (length del). }
  rewrite Hb in U2. rewrite Forall_forall in Hk.
  assert (∀ k, k ∈ del ↔ k ∈ keys ∧ is_Some (override values (entry_of d id) k)) as Hdel'.
  { intros k. rewrite Hdel. split; intros [Hin Hs']; split; try done;
      by rewrite (obj_update_entry_of _ _ _ _ _ _ k Hi (Hk _ Hin) U1) in *. }
  eapply obj_update_trans in U2; [|exact U1].
  exists s2, del. split.
  - destruct keys as [|k0 keys']; [injection E2 as _ <-; done|].
    rewrite bool_decide_true by done. by rewrite bind_assoc, (bind_ok _ _ _ _ _ E2).
  - split; [done|]. split; [done|]. split; [done|].
    eapply obj_update_ext; [|exact U2]. intros k Hkk. unfold without.
    by rewrite (obj_update_entry_of _ _ _ _ _ _ k Hi Hkk U1).
Qed.

(** A batch that only deletes, with a current or absent expectation: the listed keys are
    removed. The version advances once for each key that was stored and once more for the
    batch, so a batch deleting [n] keys moves it by [n + 1]; the version returned is the
    new one. When no key was stored nothing changes. *)
Theorem batch_mutate_delete id keys expected s :
  shard_inv s → obj_ok id → Forall key_ok keys → keys ≠ [] →
  let d := sh_contents s in
  if decide (expected = None ∨ expected = Some (version_of d id)) then
    ∃ s' del, NoDup del ∧ (∀ k, k ∈ del ↔ k ∈ keys ∧ is_Some (entry_of d id k)) ∧
    Api.batch_mutate_entries id [] keys expected s
    = (Ok (object_version (bumped (delete_steps del) (meta_or_new d id))), s') ∧ shard_inv s' ∧
    obj_update d (sh_contents s') id (without keys (entry_of d id))
      (bumped_meta (delete_steps del) d id) (event_of d id)
  else
    ∃ e, expected = Some e ∧
    Api.batch_mutate_entries id [] keys expected s
    = (Err (VersionMismatch e (version_of d id)), s).
Proof.
  intros Hinv Hi Hk Hne. cbv zeta. unfold Api.batch_mutate_entries.
  rewrite (bool_decide_false (keys = [])) by done. rewrite bool_decide_true by done. cbn [andb].
  case_decide as Hexp.
  - destruct (delete_only_ok id keys expected s Hinv Hi Hk Hexp)
      as (s' & del & Hn & Hdel & E & Hinv' & U).
    exists s', del. split; [done|]. split; [done|]. split; [|by split].
    rewrite (bind_ok _ _ _ _ _ E). destruct (_ && _); [|done].
    rewrite bind_assoc. by rewrite (bind_ok _ _ _ _ _ (delete_each_again id keys _ _ _ _ s' Hinv' Hi Hk U)).
  - destruct expected as [e|]; [|naive_solver]. exists e. split; [done|].
    apply bind_err, bind_err.
    rewrite (bind_ok _ _ _ _ _ (current_version_ok id s Hinv Hi)).
    rewrite (proj2 (Z.eqb_neq _ _)) by naive_solver. done.
Qed.

(** [upsert_object] of an object with entries merges them into what is stored: an entry
    the new object does not have keeps its value. *)
Theorem upsert_object_merges id obj s :
  shard_inv s → obj_ok id → Forall key_ok (entries obj).*1 → bt_wf (entries obj) →
  entries obj ≠ [] →
  let d := sh_contents s in
  ∃ s', Api.upsert_object id obj s = (Ok tt, s') ∧ shard_inv s' ∧
  version_of (sh_contents s') id = sat_add64 (version_of d id) 1 ∧
  ∀ key, key_ok key →
    entry_of (sh_contents s') id key
    = match bt_get key (entries obj) with Some v => Some v | None => entry_of d id key end.
Proof.
  intros Hinv Hi Hk Hw Hne d. unfold Api.upsert_object. rewrite bool_decide_false by done.
  destruct (internal_set_object_ok id obj s Hinv Hi Hk (bt_wf_NoDup _ Hw) Hne)
    as (s' & E & Hinv' & _ & U).
  exists s'. split; [done|]. split; [done|]. split.
  - unfold version_of, meta_or_new at 1. by rewrite (obj_update_meta_of _ _ _ _ _ _ Hi U).
  - intros key Hkey. by apply (obj_update_entry_of _ _ _ _ _ _ key Hi Hkey U).
Qed.
End theorems.

(** ** Witnesses *)

Import Demo.

Lemma batch_mutate_set_witness :
  ∃ s', Api.batch_mutate_entries (bs "o") [(bs "c", Demo.val "7")] [bs "a"; bs "b"]
              (Some 3%Z) demo3 = (Ok 4%Z, s') ∧
  version_of (sh_contents s') (bs "o") = 6%Z.
Proof.
  destruct (batch_mutate_set (bs "o") [(bs "c", Demo.val "7")] [bs "a"; bs "b"] (Some 3%Z)
    demo3 demo3_inv ltac:(decide_now) ltac:(decide_now) ltac:(decide_now) ltac:(done)
    ltac:(decide_now)) as (s' & del & E & _).
  exists s'. split; [exact E|].
  assert (s' = (Api.batch_mutate_entries (bs "o") [(bs "c", Demo.val "7")] [bs "a"; bs "b"]
    (Some 3%Z) demo3).2) as -> by (by rewrite E).
  by vm_compute.
Defined.

Lemma batch_mutate_delete_witness :
  ∃ s' del, Api.batch_mutate_entries (bs "o") [] [bs "a"] None demo3
            = (Ok (object_version (bumped (delete_steps del)
                 (meta_or_new (sh_contents demo3) (bs "o")))), s') ∧
  version_of (sh_contents s') (bs "o") = 5%Z.
Proof.
  destruct (batch_mutate_delete (bs "o") [bs "a"] None demo3 demo3_inv ltac:(decide_now)
    ltac:(decide_now) ltac:(done)) as (s' & del & _ & _ & E & _).
  exists s', del. split; [exact E|].
  assert (s' = (Api.batch_mutate_entries (bs "o") [] [bs "a"] None demo3).2) as ->
    by (by rewrite E).
  by vm_compute.
Defined.

Lemma upsert_object_merges_witness :
  ∃ s', Api.upsert_object (bs "o") demo_object demo3 = (Ok tt, s') ∧
  entry_of (sh_contents s') (bs "o") (bs "b") = Some (Demo.val "2").
Proof.
  destruct (upsert_object_merges (bs "o") demo_object demo3 demo3_inv ltac:(decide_now)
    ltac:(decide_now) ltac:(repeat constructor) ltac:(done)) as (s' & E & _).
  exists s'. split; [exact E|].
  assert (s' = (Api.upsert_object (bs "o") demo_object demo3).2) as -> by (by rewrite E).
  by vm_compute.
Defined.
