(* ===== verification/Mst.v ===== *)
(** * The Merkle-search-tree replication layer

    [data-plane/oprc-odgm/src/replication/mst]: local writes that go through a merge
    function, and the exchange of pages between peers ([mst_layer.rs],
    [mst_network.rs], [config.rs], [types.rs], and [default_mst_config] of
    [shard/builder.rs]). The tree itself and its comparison are a library: they are
    parameters, and so is the call that fetches pages from a peer. *)

From stdpp Require Import base tactics list numbers option gmap sorting strings.
From Stdlib Require Import Lia.
From S2P Require Import Prelude BTree Backend Memory Replication StorageKey GranularKey Events ObjectData Shard EntryStore ObjectView EntryOps EntryList ObjectShard ObjectOps.

Open Scope prog_scope.

(** ** Configuration *)

Record MstConfig (T : Type) := {
  extract_timestamp : T → Z;
  merge_function : T → T → Z → T;
  serialize : T → res StorageError bytes;
  deserialize : bytes → res StorageError T;
}.
Arguments extract_timestamp {T} _.
Arguments merge_function {T} _.
Arguments serialize {T} _.
Arguments deserialize {T} _.

(** Last writer wins, with a tie broken by the parity of the node's identifier. The JSON
    codec is a parameter. *)
Definition simple_lww {T} (to_vec : T → res string bytes) (from_slice : bytes → res string T)
    (extract : T → Z) : MstConfig T := {|
  extract_timestamp := extract;
  merge_function local remote node_id :=
    match Z.compare (extract remote) (extract local) with
    | Gt => remote
    | Lt => local
    | Eq => if (node_id mod 2 =? 0)%Z then remote else local
    end;
  serialize v := res_map_err Serialization (to_vec v);
  deserialize b := res_map_err Serialization (from_slice b);
|}.

(** What shards are built with: bytes as they are, the remote value wins. *)
Definition default_mst_config : MstConfig bytes := {|
  extract_timestamp _ := 0%Z;
  merge_function _ remote _ := remote;
  serialize v := Ok v;
  deserialize b := Ok b;
|}.

(** A page of the tree, and a request for pages. *)
Record NetworkPage := { np_start : bytes; np_end : bytes; np_hash : bytes }.
Record PageQuery := { start_bounds : bytes; end_bounds : bytes }.

Definition from_pages (pages : list NetworkPage) : list PageQuery :=
  (λ p, {| start_bounds := np_start p; end_bounds := np_end p |}) <$> pages.

(** ** The layer *)

(** What the layer shares with the networking task. *)
Record MstState (S Tree : Type) := {
  m_storage : S;
  m_tree : Tree;
  m_dispatcher : option Dispatcher;
}.
Arguments m_storage {S Tree} _.
Arguments m_tree {S Tree} _.
Arguments m_dispatcher {S Tree} _.

Module Mst.
Section layer.
Context {T S Tree : Type} `{Storage S}.
Context (upsert : bytes → T → Tree → Tree).
Context (config : MstConfig T) (shard_id : Z).

Notation St := (MstState S Tree).

Definition set_storage (s : S) (m : St) : St :=
  {| m_storage := s; m_tree := m_tree m; m_dispatcher := m_dispatcher m |}.
Definition upd_tree (f : Tree → Tree) (m : St) : St :=
  {| m_storage := m_storage m; m_tree := f (m_tree m); m_dispatcher := m_dispatcher m |}.
Definition emit (c : MutationContext) (m : St) : St :=
  {| m_storage := m_storage m; m_tree := m_tree m;
     m_dispatcher := (λ d, (Dispatch.try_send c d).2) <$> m_dispatcher m |}.

Definition storage {A} (m : M S StorageError A) : M St StorageError A :=
  zoom m_storage set_storage m.

Definition rebuild_mst_from_storage : M St StorageError unit :=
  let! entries := storage (sto_scan []) in
  for_each (λ kv : bytes * bytes,
    match deserialize config kv.2 with
    | Ok entry => modify (upd_tree (upsert kv.1 entry))
    | _ => ret tt
    end) entries.

Definition get_raw (key : bytes) : M St StorageError (option T) :=
  let! v := storage (sto_get key) in
  match v with
  | Some value_bytes =>
      let! entry := lift_res (deserialize config value_bytes) in ret (Some entry)
  | None => ret None
  end.

Definition set_with_return_old_raw (key : bytes) (entry : T) :
    M St StorageError (option bytes) :=
  let! existing := storage (sto_get key) in
  let! final_entry :=
    match existing with
    | Some existing_bytes =>
        let! existing := lift_res (deserialize config existing_bytes) in
        ret (merge_function config existing entry shard_id)
    | None => ret entry
    end in
  let! value_bytes := lift_res (serialize config final_entry) in
  let! _ := storage (sto_put key value_bytes) in
  modify (upd_tree (upsert key final_entry)) ;;;
  ret existing.

(** The same without the old value. *)
Definition set_raw (key : bytes) (entry : T) : M St StorageError unit :=
  let! existing := storage (sto_get key) in
  let! final_entry :=
    match existing with
    | Some existing_bytes =>
        let! existing := lift_res (deserialize config existing_bytes) in
        ret (merge_function config existing entry shard_id)
    | None => ret entry
    end in
  let! value_bytes := lift_res (serialize config final_entry) in
  let! _ := storage (sto_put key value_bytes) in
  modify (upd_tree (upsert key final_entry)).

(** Only the storage forgets the key: the tree keeps it until it is rebuilt. *)
Definition delete_raw (key : bytes) : M St StorageError unit := storage (sto_delete key).

Definition expected (msg : string) {A} : M St ReplicationError A :=
  throw (RStorageError (InvalidOperation msg)).

Fixpoint replicate_op (o : Operation) : M St ReplicationError ReplicationResponse :=
  match o with
  | Write w =>
      let! value := map_err RStorageError (lift_res (deserialize config (w_value w))) in
      let! old_value :=
        map_err RStorageError
          (if w_return_old w then set_with_return_old_raw (w_key w) value
           else set_raw (w_key w) value ;;; ret None) in
      ret {| status := Applied; resp_data := old_value; extra := ExtraNone;
             resp_metadata := ∅ |}
  | Delete key => map_err RStorageError (delete_raw key) ;;; ret default_response
  | Batch operations => for_each replicate_op operations ;;; ret default_response
  | Read _ => expected "Expected write or delete operation"
  end.

Definition replicate_write (request : ShardRequest) : M St ReplicationError ReplicationResponse :=
  replicate_op (operation request).

Definition replicate_read (request : ShardRequest) : M St ReplicationError ReplicationResponse :=
  match operation request with
  | Read key =>
      let! v := map_err RStorageError (get_raw key) in
      match v with
      | Some value =>
          let! serialized := map_err RStorageError (lift_res (serialize config value)) in
          ret {| status := Applied; resp_data := Some serialized; extra := ExtraNone;
                 resp_metadata := ∅ |}
      | None => ret default_response
      end
  | _ => expected "Expected read operation"
  end.

(** ** Peers *)

(** One page of [handle]: the entries in its closed range that can be decoded. *)
Fixpoint page_items (start stop : bytes) (entries : store) (items : btree bytes T) :
    btree bytes T :=
  match entries with
  | [] => items
  | (key, value) :: entries =>
      page_items start stop entries
        (if leb start key && leb key stop then
           match deserialize config value with
           | Ok entry => bt_insert key entry items
           | _ => items
           end
         else items)
  end.

(** The answer to a page request. A storage that cannot be read gives no items. *)
Fixpoint handle_pages (pages : list PageQuery) (items : btree bytes T) :
    M S StorageError (btree bytes T) := λ s,
  match pages with
  | [] => (Ok items, s)
  | page :: pages =>
      match sto_scan [] s with
      | (Ok entries, s) =>
          handle_pages pages (page_items (start_bounds page) (end_bounds page) entries items) s
      | (Err _, s) => (Ok [], s)
      | (Panic m, s) => (Panic m, s)
      end
  end.

Definition handle (pages : list PageQuery) : M S StorageError (btree bytes T) :=
  handle_pages pages [].

Context `{Codec} (cls_id : bytes) (partition_id : Z) (include_entry_values : bool).

(** [storage.get(key).await.ok().flatten()] *)
Definition ok_flatten (m : M St StorageError (option bytes)) : M St string (option bytes) := λ st,
  match m st with
  | (Ok v, st) => (Ok v, st)
  | (Err _, st) => (Ok None, st)
  | (Panic msg, st) => (Panic msg, st)
  end.

(** One received item: merged with what is stored, written, put in the tree and, if it is
    an entry, announced as an update by synchronisation. Errors are their text. *)
Definition merge_item (node_id : Z) (kv : bytes * T) : M St string unit :=
  let (key, remote_value) := kv in
  let! existing_bytes := ok_flatten (storage (sto_get key)) in
  let! final_value :=
    match existing_bytes with
    | Some eb =>
        let! existing := map_err display_error (lift_res (deserialize config eb)) in
        ret (merge_function config existing remote_value node_id)
    | None => ret remote_value
    end in
  let! serialized := map_err display_error (lift_res (serialize config final_value)) in
  let! has_dispatcher := gets (λ m, bool_decide (is_Some (m_dispatcher m))) in
  let entry_value :=
    if include_entry_values && has_dispatcher
    then val_data <$> val_decode serialized else None in
  let! _ := map_err display_error (storage (sto_put key serialized)) in
  modify (upd_tree (upsert key final_value)) ;;;
  if has_dispatcher then
    let! parsed := lift_res (parse_granular_key key) in
    match parsed with
    | Some (obj_id, GEntry entry_key) =>
        modify (emit (MutationCtx.new_sync obj_id cls_id partition_id 0 0
          [{| key_canonical := entry_key; action := Update; ck_value := entry_value |}]))
    | _ => ret tt
    end
  else ret tt.

Definition merge_items (node_id : Z) (items : btree bytes T) : M St string unit :=
  for_each (merge_item node_id) items.

(** Up to three attempts to fetch the pages. *)
Fixpoint fetch (call : nat → res string (btree bytes T)) (attempts more : nat) :
    res string (btree bytes T) :=
  match call attempts, more with
  | Err _, Datatypes.S more => fetch call (Datatypes.S attempts) more
  | r, _ => r
  end.

(** The notification of a peer: [page_ranges] and [diff] are the tree library's. *)
Definition handle_page_update (page_ranges : Tree → list NetworkPage)
    (diff : list NetworkPage → list NetworkPage → list PageQuery)
    (call : list PageQuery → nat → res string (btree bytes T))
    (node_id owner : Z) (pages : list NetworkPage) : M St string unit :=
  if (owner =? node_id)%Z then ret tt
  else
    let! local_pages := gets (λ m, page_ranges (m_tree m)) in
    let r := diff local_pages pages in
    let req := if bool_decide (r = []) && bool_decide (local_pages = [])
               then from_pages pages else r in
    if bool_decide (req = []) then ret tt
    else
      let! items := lift_res (fetch (call req) 1 2) in
      merge_items node_id items.
End layer.
End Mst.

(** ** The layer keeps the shard's contract *)

Section layer_laws.
Context {S Tree : Type} `{StorageLaws S} (upsert : bytes → bytes → Tree → Tree) (shard_id : Z).
Notation St := (MstState S Tree).
Implicit Types m : St.

Lemma set_storage_same m : Mst.set_storage (m_storage m) m = m.
Proof. by destruct m. Qed.

#[local] Instance mst_storage : Storage St := zoomed_storage m_storage Mst.set_storage.
#[local] Instance mst_storage_laws : StorageLaws St :=
  zoomed_laws m_storage Mst.set_storage (λ _ _, eq_refl) set_storage_same.

#[local] Instance mst_layer : ReplicationLayer St := {|
  replicate_write := Mst.replicate_write upsert default_mst_config shard_id;
  replicate_read := Mst.replicate_read default_mst_config;
|}.

Definition mst_response (old : option bytes) (ret : bool) : ReplicationResponse :=
  {| status := Applied; resp_data := if ret then old else None; extra := ExtraNone;
     resp_metadata := ∅ |}.

Lemma storage_run {A} (op : M S StorageError A) m a s' :
  op (m_storage m) = (Ok a, s') → Mst.storage op m = (Ok a, Mst.set_storage s' m).
Proof. apply zoom_eq. Qed.

Lemma mst_write_ok w m :
  sto_inv (m_storage m) →
  ∃ m', Mst.replicate_op upsert default_mst_config shard_id (Write w) m
        = (Ok (mst_response (bt_get (w_key w) (contents (m_storage m))) (w_return_old w)), m') ∧
  sto_inv (m_storage m') ∧
  contents (m_storage m') = bt_insert (w_key w) (w_value w) (contents (m_storage m)).
Proof.
  intros Hs. pose proof (law_get (w_key w) _ Hs) as Eg.
  destruct (law_put (w_key w) (w_value w) _ Hs) as (s' & Ep & Hs' & Hc).
  exists (Mst.upd_tree (upsert (w_key w) (w_value w)) (Mst.set_storage s' m)).
  split; [|done]. cbn [Mst.replicate_op].
  unfold Mst.set_with_return_old_raw, Mst.set_raw, mst_response, map_err, bind, lift_res.
  destruct (w_return_old w); simpl;
    rewrite (storage_run _ _ _ _ Eg), set_storage_same;
    destruct (bt_get (w_key w) _); simpl; by rewrite (storage_run _ _ _ _ Ep).
Qed.

Lemma mst_delete_ok k m :
  sto_inv (m_storage m) →
  ∃ m', Mst.replicate_op upsert default_mst_config shard_id (Delete k) m
        = (Ok default_response, m') ∧
  sto_inv (m_storage m') ∧ contents (m_storage m') = bt_remove k (contents (m_storage m)).
Proof.
  intros Hs. destruct (law_delete k _ Hs) as (s' & E & Hs' & Hc).
  exists (Mst.set_storage s' m). split; [|done]. cbn [Mst.replicate_op].
  unfold Mst.delete_raw, map_err, bind. by rewrite (storage_run _ _ _ _ E).
Qed.

Lemma mst_ops_ok os m d :
  sto_inv (m_storage m) → ops_effect os (contents (m_storage m)) = Some d →
  ∃ m', for_each (Mst.replicate_op upsert default_mst_config shard_id) os m = (Ok tt, m') ∧
  sto_inv (m_storage m') ∧ contents (m_storage m') = d.
Proof.
  revert m. induction os as [|o os IH]; intros m Hs; simpl.
  { intros [= <-]. eauto. }
  destruct o as [w| |k|]; simpl; try done; intros Hd.
  - destruct (mst_write_ok w m Hs) as (m' & E & Hs' & Hc).
    rewrite <- Hc in Hd. rewrite (bind_ok _ _ _ _ _ E). by apply IH.
  - destruct (mst_delete_ok k m Hs) as (m' & E & Hs' & Hc).
    rewrite <- Hc in Hd. rewrite (bind_ok _ _ _ _ _ E). by apply IH.
Qed.

(** With the configuration shards are built with, the layer applies every local write:
    it keeps the contract, and never reports whether a value was replaced. *)
#[program] Definition mst_laws : @ReplicationLaws St mst_storage mst_storage_laws mst_layer := {|
  write_response := mst_response;
|}.
Next Obligation. done. Qed.
Next Obligation. intros w now src m Hs. by apply mst_write_ok. Qed.
Next Obligation. intros k now src m Hs. by apply mst_delete_ok. Qed.
Next Obligation.
  intros os now src m d Hs Hd. destruct (mst_ops_ok os m d Hs Hd) as (m' & E & ?).
  exists m'. split; [|done]. simpl. unfold Mst.replicate_write. simpl.
  by rewrite (bind_ok _ _ _ _ _ E).
Qed.
Next Obligation.
  intros k now src m Hs. simpl. unfold Mst.replicate_read. simpl.
  unfold Mst.get_raw, map_err, bind, lift_res.
  rewrite (storage_run _ _ _ _ (law_get k (m_storage m) Hs)), set_storage_same.
  destruct (bt_get k _); simpl; by eexists.
Qed.
End layer_laws.

(** ** Merging what a peer sent *)

Section merging.
Context {T S Tree : Type} `{StorageLaws S} (upsert : bytes → T → Tree → Tree).
Context (config : MstConfig T).
Context `{Codec} (cls_id : bytes) (partition_id : Z) (include : bool).
Notation St := (MstState S Tree).
Implicit Types (m : St) (d : store).

(** What is written can be read back. *)
Hypothesis config_roundtrip :
  ∀ v, ∃ b, serialize config v = Ok b ∧ deserialize config b = Ok v.

(** The value of a key, and that all of a store can be read. *)
Definition decoded d (k : bytes) : option T := bt_get k d ≫= (λ b, ok_opt (deserialize config b)).
Definition decodable d : Prop := ∀ k b, bt_get k d = Some b → ∃ v, deserialize config b = Ok v.
Definition parses (k : bytes) : Prop := ∃ p, parse_granular_key (E := string) k = Ok p.

(** The value a key has after the remote value [r] was merged in. *)
Definition merged (node_id : Z) (local : option T) (r : T) : T :=
  match local with Some l => merge_function config l r node_id | None => r end.

Lemma merge_item_ok node_id k r m :
  sto_inv (m_storage m) → decodable (contents (m_storage m)) → parses k →
  let d := contents (m_storage m) in
  ∃ m' b, Mst.merge_item upsert config cls_id partition_id include node_id (k, r) m = (Ok tt, m') ∧
  sto_inv (m_storage m') ∧ contents (m_storage m') = bt_insert k b d ∧
  deserialize config b = Ok (merged node_id (decoded d k) r).
Proof.
  intros Hs Hd [p Hp] d. unfold Mst.merge_item.
  pose proof (law_get k _ Hs) as Eg. fold d in Eg.
  set (final := merged node_id (decoded d k) r).
  destruct (config_roundtrip final) as (b & Hb & Hdb).
  destruct (law_put k b _ Hs) as (s' & Ep & Hs' & Hc).
  assert (Mst.ok_flatten (Mst.storage (sto_get k)) m = (Ok (bt_get k d), m)) as E1.
  { unfold Mst.ok_flatten. by rewrite (storage_run _ _ _ _ Eg), set_storage_same. }
  rewrite (bind_ok _ _ _ _ _ E1).
  assert (∀ kk : T → M St string unit,
    bind (match bt_get k d with
          | Some eb => let! existing := map_err display_error (lift_res (deserialize config eb)) in
                       ret (merge_function config existing r node_id)
          | None => ret r end) kk m = kk final m) as ->.
  { intros kk. unfold final, merged, decoded. destruct (bt_get k d) as [eb|] eqn:Ek; simpl; [|done].
    destruct (Hd k eb Ek) as [l Hl]. unfold map_err, lift_res, bind. by rewrite Hl. }
  erewrite (bind_ok (map_err _ (lift_res (serialize config final))) _ m b m)
    by (unfold map_err, lift_res; by rewrite Hb).
  rewrite bind_gets. cbv zeta.
  erewrite (bind_ok (map_err _ (Mst.storage (sto_put k b))))
    by (unfold map_err; by rewrite (storage_run _ _ _ _ Ep)).
  rewrite bind_modify. case_bool_decide; [|by eexists _, b].
  erewrite bind_ok by (unfold lift_res; by rewrite Hp).
  destruct p as [[o []]|]; by eexists _, b.
Qed.

Lemma merge_items_ok node_id items m :
  sto_inv (m_storage m) → decodable (contents (m_storage m)) →
  Forall parses items.*1 → NoDup items.*1 →
  let d := contents (m_storage m) in
  ∃ m', Mst.merge_items upsert config cls_id partition_id include node_id items m = (Ok tt, m') ∧
  sto_inv (m_storage m') ∧ decodable (contents (m_storage m')) ∧
  ∀ k, decoded (contents (m_storage m')) k
       = match bt_get k items with
         | Some r => Some (merged node_id (decoded d k) r)
         | None => decoded d k
         end.
Proof.
  revert m. induction items as [|[k r] items IH]; intros m Hs Hd Hp Hn d.
  { exists m. done. }
  simpl in Hp, Hn. inversion_clear Hp as [|?? Hpk Hp']. apply NoDup_cons in Hn as [Hk Hn].
  destruct (merge_item_ok node_id k r m Hs Hd Hpk) as (m1 & b & E1 & Hs1 & Hc1 & Hb).
  fold d in Hc1, Hb.
  assert (decodable (contents (m_storage m1))) as Hd1.
  { intros k' b'. rewrite Hc1. destruct (decide (k = k')) as [<-|Hne].
    - rewrite bt_get_insert_eq. intros [= <-]. eauto.
    - rewrite bt_get_insert_ne by done. apply Hd. }
  destruct (IH m1 Hs1 Hd1 Hp' Hn) as (m2 & E2 & Hs2 & Hd2 & Hget).
  exists m2. split; [|split; [done|split; [done|]]].
  { unfold Mst.merge_items in *. simpl. by rewrite (bind_ok _ _ _ _ _ E1). }
  intros k'. rewrite Hget. simpl.
  assert (decoded (contents (m_storage m1)) k'
          = if decide (k' = k) then Some (merged node_id (decoded d k) r) else decoded d k') as Hdk.
  { unfold decoded. rewrite Hc1. case_decide as Hkk.
    - subst k'. rewrite bt_get_insert_eq. simpl. by rewrite Hb.
    - by rewrite bt_get_insert_ne by done. }
  rewrite Hdk. case_cmp k' k.
  - rewrite bt_get_notin by done. by rewrite decide_True.
  - by rewrite decide_False by by apply cmp_lt_ne.
  - rewrite decide_False; [done|]. intros ->. by apply (cmp_irrefl k).
Qed.
(** ** Answering a page request *)

Definition covers (pages : list PageQuery) (k : bytes) : bool :=
  existsb (λ p, leb (start_bounds p) k && leb k (end_bounds p)) pages.

Lemma page_items_get k start stop d items :
  NoDup d.*1 →
  bt_get k (Mst.page_items config start stop d items)
  = if leb start k && leb k stop
    then match decoded d k with Some v => Some v | None => bt_get k items end
    else bt_get k items.
Proof.
  revert items. induction d as [|[k' b] d IH]; intros items; simpl.
  { intros _. by destruct (_ && _). }
  intros [Hk Hn]%NoDup_cons. rewrite IH by done. unfold decoded. simpl.
  destruct (decide (k = k')) as [->|Hne].
  - rewrite cmp_refl, bt_get_notin by done. simpl.
    destruct (leb start k' && leb k' stop); [|done].
    destruct (deserialize config b); simpl; [by rewrite bt_get_insert_eq|done..].
  - assert (bt_get k (if leb start k' && leb k' stop
      then match deserialize config b with Ok entry => bt_insert k' entry items | _ => items end
      else items) = bt_get k items) as ->.
    { destruct (leb start k' && leb k' stop); [|done].
      destruct (deserialize config b); [|done..]. apply bt_get_insert_ne. congruence. }
    by destruct (cmp k k') eqn:E; [apply cmp_eq in E|..].
Qed.

Lemma page_items_wf start stop d items :
  bt_wf items → bt_wf (Mst.page_items config start stop d items).
Proof.
  revert items. induction d as [|[k b] d IH]; intros items Hw; simpl; [done|].
  apply IH. destruct (_ && _); [|done].
  destruct (deserialize config b); [by apply bt_insert_wf|done..].
Qed.

Lemma handle_ok pages (s : S) :
  sto_inv s →
  ∃ items, Mst.handle config pages s = (Ok items, s) ∧ bt_wf items ∧
  ∀ k, bt_get k items = if covers pages k then decoded (contents s) k else None.
Proof.
  intros Hs. unfold Mst.handle. pose proof (law_scan_all s Hs) as Escan.
  pose proof (bt_wf_NoDup _ (contents_wf s Hs)) as Hn.
  assert (∀ items, bt_wf items → ∃ items', Mst.handle_pages config pages items s = (Ok items', s) ∧
    bt_wf items' ∧ ∀ k, bt_get k items'
      = if covers pages k
        then match decoded (contents s) k with Some v => Some v | None => bt_get k items end
        else bt_get k items) as Hgen.
  { induction pages as [|p pages IH]; intros items Hw; simpl; [by exists items|].
    rewrite Escan.
    destruct (IH (Mst.page_items config (start_bounds p) (end_bounds p) (contents s) items))
      as (items' & E & Hw' & Hget); [by apply page_items_wf|].
    exists items'. split; [done|]. split; [done|]. intros k. rewrite Hget, page_items_get by done.
    destruct (leb (start_bounds p) k && leb k (end_bounds p)), (covers pages k); simpl; try done.
    by destruct (decoded (contents s) k). }
  destruct (Hgen [] ltac:(constructor)) as (items & E & Hw & Hget).
  exists items. split; [done|]. split; [done|]. intros k. rewrite Hget. simpl.
  by destruct (covers pages k), (decoded (contents s) k).
Qed.

(** ** Two peers *)

(** What a node holds for a key after it merged in what its peer had. *)
Definition combine (node_id : Z) (local remote : option T) : option T :=
  match remote with Some r => Some (merged node_id local r) | None => local end.

(** The state of a node that can take part in an exchange; [pages] are what its peer
    will ask it for. *)
Definition peer_ok m (pages : list PageQuery) : Prop :=
  sto_inv (m_storage m) ∧ decodable (contents (m_storage m)) ∧
  ∀ k b, bt_get k (contents (m_storage m)) = Some b → parses k ∧ covers pages k = true.

Lemma pull_ok n m pages (s : S) m0 :
  peer_ok m0 pages → m_storage m0 = s →
  sto_inv (m_storage m) → decodable (contents (m_storage m)) →
  ∃ items m', Mst.handle config pages s = (Ok items, s) ∧
  Mst.merge_items upsert config cls_id partition_id include n items m = (Ok tt, m') ∧
  ∀ k, decoded (contents (m_storage m')) k
       = combine n (decoded (contents (m_storage m)) k) (decoded (contents s) k).
Proof.
  intros (Hs0 & Hd0 & Hk0) <- Hs Hd.
  destruct (handle_ok pages (m_storage m0) Hs0) as (items & E & Hw & Hget).
  assert (∀ k, bt_get k items = decoded (contents (m_storage m0)) k) as Hget'.
  { intros k. rewrite Hget. unfold decoded.
    destruct (bt_get k (contents (m_storage m0))) as [b|] eqn:Ek; simpl; [|by destruct (covers pages k)].
    destruct (Hk0 k b Ek) as [_ ->]. done. }
  destruct (merge_items_ok n items m Hs Hd) as (m' & E' & _ & _ & Hm').
  - apply Forall_forall. intros k ([k' v] & -> & Hin)%list_elem_of_fmap. simpl.
    apply (bt_get_elem k' v) in Hin; [|done]. rewrite Hget' in Hin. unfold decoded in Hin.
    destruct (bt_get k' (contents (m_storage m0))) as [b|] eqn:Ek; [|done].
    by apply (Hk0 k' b).
  - by apply bt_wf_NoDup.
  - exists items, m'. split; [done|]. split; [done|]. intros k. rewrite Hm', Hget'.
    unfold combine. by destruct (decoded (contents (m_storage m0)) k).
Qed.

(** ** Theorems *)

(** C10. Two nodes that fetch each other's entries at the same time and merge them end with
    the same value for every key, provided the merge function gives both nodes the same
    result. *)
Theorem exchange_converges n1 n2 m1 m2 pages1 pages2 :
  peer_ok m1 pages1 → peer_ok m2 pages2 →
  (∀ x y, merge_function config x y n1 = merge_function config y x n2) →
  ∃ items1 items2 m1' m2',
  Mst.handle config pages1 (m_storage m1) = (Ok items1, m_storage m1) ∧
  Mst.handle config pages2 (m_storage m2) = (Ok items2, m_storage m2) ∧
  Mst.merge_items upsert config cls_id partition_id include n1 items2 m1 = (Ok tt, m1') ∧
  Mst.merge_items upsert config cls_id partition_id include n2 items1 m2 = (Ok tt, m2') ∧
  ∀ k, decoded (contents (m_storage m1')) k = decoded (contents (m_storage m2')) k.
Proof.
  intros H1ok H2ok Hsym. pose proof H1ok as (Hs1 & Hd1 & _). pose proof H2ok as (Hs2 & Hd2 & _).
  destruct (pull_ok n1 m1 pages2 _ m2 H2ok eq_refl Hs1 Hd1) as (items2 & m1' & E2 & E1' & Hm1).
  destruct (pull_ok n2 m2 pages1 _ m1 H1ok eq_refl Hs2 Hd2) as (items1 & m2' & E1 & E2' & Hm2).
  exists items1, items2, m1', m2'. do 4 (split; [done|]). intros k. rewrite Hm1, Hm2.
  unfold combine, merged.
  destruct (decoded (contents (m_storage m1)) k), (decoded (contents (m_storage m2)) k);
    try done. by rewrite Hsym.
Qed.

(** A key deleted on one node comes back with the next exchange: the deletion reaches
    neither the tree nor the peer, and the peer's value is taken as new. *)
Theorem deleted_key_returns n m m0 pages k v :
  peer_ok m0 pages → sto_inv (m_storage m) → decodable (contents (m_storage m)) →
  decoded (contents (m_storage m0)) k = Some v →
  ∃ m1 items m2, Mst.delete_raw k m = (Ok tt, m1) ∧
  decoded (contents (m_storage m1)) k = None ∧ m_tree m1 = m_tree m ∧
  Mst.handle config pages (m_storage m0) = (Ok items, m_storage m0) ∧
  Mst.merge_items upsert config cls_id partition_id include n items m1 = (Ok tt, m2) ∧
  decoded (contents (m_storage m2)) k = Some v.
Proof.
  intros Hok Hs Hd Hv. destruct (law_delete k _ Hs) as (s1 & E & Hs1 & Hc1).
  set (m1 := Mst.set_storage s1 m).
  assert (decoded (contents (m_storage m1)) k = None) as Hnone.
  { unfold decoded. simpl. rewrite Hc1, bt_get_remove_eq; [done|by apply contents_wf]. }
  assert (decodable (contents (m_storage m1))) as Hd1.
  { intros k' b. simpl. rewrite Hc1. destruct (decide (k = k')) as [<-|Hne].
    - rewrite bt_get_remove_eq; [done|by apply contents_wf].
    - rewrite bt_get_remove_ne by done. apply Hd. }
  destruct (pull_ok n m1 pages _ m0 Hok eq_refl Hs1 Hd1) as (items & m2 & E2 & E3 & Hm2).
  exists m1, items, m2. split; [by apply storage_run|]. do 4 (split; [done|]).
  rewrite Hm2, Hnone, Hv. done.
Qed.
End merging.

Lemma lww_agrees {T} (to_vec : T → res string bytes) from_slice extract (x y : T) n1 n2 :
  let merge := merge_function (simple_lww to_vec from_slice extract) in
  merge x y n1 = merge y x n2 ↔
  extract x ≠ extract y ∨ x = y ∨ (n1 mod 2 ≠ n2 mod 2)%Z.
Proof.
  cbv zeta. cbn [merge_function simple_lww].
  rewrite (Z.compare_antisym (extract y) (extract x)).
  pose proof (Z.mod_pos_bound n1 2 ltac:(lia)). pose proof (Z.mod_pos_bound n2 2 ltac:(lia)).
  destruct (Z.compare_spec (extract y) (extract x)) as [E|E|E]; simpl.
  - destruct (Z.eqb_spec (n1 mod 2) 0), (Z.eqb_spec (n2 mod 2) 0);
      (split; [intros Heq|intros [?|[Heq|?]]]); subst; try done; try lia; try congruence;
      right; (left; congruence) || (right; lia).
  - split; [|done]. intros _. left. lia.
  - split; [|done]. intros _. left. lia.
Qed.

(** The merge of [simple_lww] is the same on both sides of an exchange exactly when the
    timestamps differ, or the values are equal, or one node's identifier is even and the
    other's is odd: two even or two odd nodes never agree on a tie. *)
Theorem lww_agrees_iff {T} (to_vec : T → res string bytes) from_slice extract (x y : T) n1 n2 :
  let merge := merge_function (simple_lww to_vec from_slice extract) in
  merge x y n1 = merge y x n2 ↔
  extract x ≠ extract y ∨ x = y ∨ (n1 mod 2 ≠ n2 mod 2)%Z.
Proof. apply lww_agrees. Qed.

(** ** The configuration in use *)

(** With the configuration shards are built with, two nodes that hold different values
    for a key and exchange them at the same time swap them, however recent either is. *)
Theorem default_config_swaps {S Tree : Type} `{StorageLaws S} `{Codec}
    (upsert : bytes → bytes → Tree → Tree) cls pid inc n1 n2 (m1 m2 : MstState S Tree)
    pages1 pages2 k x y :
  peer_ok default_mst_config m1 pages1 → peer_ok default_mst_config m2 pages2 →
  bt_get k (contents (m_storage m1)) = Some x → bt_get k (contents (m_storage m2)) = Some y →
  ∃ items1 items2 m1' m2',
  Mst.handle default_mst_config pages1 (m_storage m1) = (Ok items1, m_storage m1) ∧
  Mst.handle default_mst_config pages2 (m_storage m2) = (Ok items2, m_storage m2) ∧
  Mst.merge_items upsert default_mst_config cls pid inc n1 items2 m1 = (Ok tt, m1') ∧
  Mst.merge_items upsert default_mst_config cls pid inc n2 items1 m2 = (Ok tt, m2') ∧
  bt_get k (contents (m_storage m1')) = Some y ∧ bt_get k (contents (m_storage m2')) = Some x.
Proof.
  intros H1ok H2ok Hx Hy. pose proof H1ok as (Hs1 & Hd1 & _). pose proof H2ok as (Hs2 & Hd2 & _).
  assert (∀ v : bytes, ∃ b, serialize default_mst_config v = Ok b ∧
    deserialize default_mst_config b = Ok v) as Hrt by (intros v; by exists v).
  assert (∀ d k, decoded default_mst_config d k = bt_get k d) as Hdec.
  { intros d k'. unfold decoded. by destruct (bt_get k' d). }
  destruct (pull_ok upsert _ cls pid inc Hrt n1 m1 pages2 _ m2 H2ok eq_refl Hs1 Hd1)
    as (items2 & m1' & E2 & E1' & Hm1).
  destruct (pull_ok upsert _ cls pid inc Hrt n2 m2 pages1 _ m1 H1ok eq_refl Hs2 Hd2)
    as (items1 & m2' & E1 & E2' & Hm2).
  exists items1, items2, m1', m2'. do 4 (split; [done|]).
  specialize (Hm1 k). specialize (Hm2 k). rewrite !Hdec, Hx, Hy in *. done.
Qed.

(** ** Witnesses *)

Notation demo_mst := (MstState MemoryStorage unit).

Definition keep (_ : bytes) (_ : bytes) (t : unit) : unit := t.
Definition node_with (k v : string) : demo_mst :=
  {| m_storage := (Memory.put (bs k) (bs v) Memory.new).2; m_tree := tt; m_dispatcher := None |}.
Definition all_pages : list PageQuery := [{| start_bounds := []; end_bounds := [Byte.xff] |}].

(** Values that are stored as they are, the longer one being the newer one. *)
Definition demo_lww : MstConfig bytes := simple_lww Ok Ok (λ v, Z.of_nat (length v)).

Lemma node_peer_ok (config : MstConfig bytes) k v :
  (∀ b, ∃ x, deserialize config b = Ok x) → parses (bs k) →
  covers all_pages (bs k) = true →
  peer_ok config (node_with k v) all_pages.
Proof.
  intros Hd Hp Hc. split; [repeat constructor|]. split; [intros k' b _; apply Hd|].
  intros k' b. simpl. destruct (cmp k' (bs k)) eqn:E; [|done..]. apply cmp_eq in E as ->. done.
Qed.

#[local] Existing Instance demo_codec.

Lemma exchange_converges_witness :
  ∃ m1' m2' : demo_mst, ∀ k, decoded demo_lww (contents (m_storage m1')) k
                             = decoded demo_lww (contents (m_storage m2')) k.
Proof.
  destruct (exchange_converges keep demo_lww (bs "c") 0 false ltac:(intros v; by exists v) 2 3
    (node_with "k" "x") (node_with "k" "y") all_pages all_pages
    ltac:(apply node_peer_ok; [by eexists|by eexists|reflexivity])
    ltac:(apply node_peer_ok; [by eexists|by eexists|reflexivity])
    ltac:(intros x y; apply (lww_agrees Ok Ok); right; right; done))
    as (i1 & i2 & m1' & m2' & _ & _ & _ & _ & Hk).
  exists m1', m2'. exact Hk.
Defined.

Lemma deleted_key_returns_witness :
  ∃ m1 m2 : demo_mst, Mst.delete_raw (bs "k") (node_with "k" "x") = (Ok tt, m1) ∧
  decoded demo_lww (contents (m_storage m2)) (bs "k") = Some (bs "y").
Proof.
  destruct (deleted_key_returns keep demo_lww (bs "c") 0 false ltac:(intros v; by exists v) 2
    (node_with "k" "x") (node_with "k" "y") all_pages (bs "k") (bs "y")
    ltac:(apply node_peer_ok; [by eexists|by eexists|reflexivity])
    ltac:(repeat constructor) ltac:(by eexists) eq_refl)
    as (m1 & items & m2 & E & _ & _ & _ & _ & Hv).
  exists m1, m2. split; [exact E|exact Hv].
Defined.

Lemma default_config_swaps_witness :
  ∃ m1' m2' : demo_mst, bt_get (bs "k") (contents (m_storage m1')) = Some (bs "y") ∧
  bt_get (bs "k") (contents (m_storage m2')) = Some (bs "x").
Proof.
  destruct (default_config_swaps keep (bs "c") 0 false 1 2 (node_with "k" "x") (node_with "k" "y")
    all_pages all_pages (bs "k") (bs "x") (bs "y")
    ltac:(apply node_peer_ok; [by eexists|by eexists|reflexivity])
    ltac:(apply node_peer_ok; [by eexists|by eexists|reflexivity]) eq_refl eq_refl)
    as (i1 & i2 & m1' & m2' & _ & _ & _ & _ & Hx & Hy).
  exists m1', m2'. split; [exact Hx|exact Hy].
Defined.

(** ** Creating an object over this layer *)

#[local] Existing Instance mst_storage.
#[local] Instance demo_mst_layer : ReplicationLayer demo_mst := mst_layer keep 1.
#[local] Existing Instance mst_storage_laws.

Definition mst_shard : Shard demo_mst :=
  new_shard {| m_storage := Memory.new; m_tree := tt; m_dispatcher := None |} Demo.meta
    None false 16 0.

(** The layer does not say whether a write replaced a value, so creating the metadata of
    a new object is reported as if it had existed. *)
Theorem mst_creation_unreported :
  (OS.ensure_metadata_exists (bs "o") mst_shard).1 = Ok false ∧
  meta_of (sh_contents (OS.ensure_metadata_exists (bs "o") mst_shard).2) (bs "o")
  = Some ObjectMeta.new ∧
  meta_of (sh_contents mst_shard) (bs "o") = None.
Proof. split_and!; vm_compute; reflexivity. Qed.
