(* ===== verification/Placement.v ===== *)
(** * Placement by the package manager

    [control-plane/oprc-pm/src/services/deployment/shard_assignments.rs]: the nodes and
    shard identifiers the package manager assigns to the partitions of a collection. The
    primary of each partition goes to the member with the fewest primaries so far, the
    other replicas to the members after it. *)

From stdpp Require Import base tactics list list_numbers numbers option gmap strings sorting.
From Stdlib Require Import Lia.
From S2P Require Import Prelude BTree Metadata.

Set Default Proof Using "Type".

Module Pm.

(** [min_by_key(|i| (primary_counts[*i], *i))]: the first least count. *)
Fixpoint min_from (i : nat) (counts : list nat) (best : nat * nat) : nat * nat :=
  match counts with
  | [] => best
  | c :: counts => min_from (S i) counts (if (c <? best.2)%nat then (i, c) else best)
  end.

Definition min_index (counts : list nat) : nat :=
  match counts with
  | [] => 0
  | c :: counts => (min_from 1 counts (0, c)).1
  end.

(** The body of the loop over the partitions; identifiers are too few to overflow, each is
    an element of a vector. *)
Fixpoint assign_loop (partitions replica_count : nat) (members : list Z)
    (primary_counts : list nat) (next_shard_id : Z) : list ShardAssignment :=
  match partitions with
  | O => []
  | S partitions =>
      let primary_index := min_index primary_counts in
      let primary_counts := alter S primary_index primary_counts in
      let replica_nodes :=
        (λ i, members !!! ((primary_index + i) mod length members)) <$> seq 0 replica_count in
      let shard_ids := seqZ next_shard_id (Z.of_nat replica_count) in
      {| primary := head shard_ids; replica := replica_nodes; shard_ids := shard_ids |}
      :: assign_loop partitions replica_count members primary_counts
           (next_shard_id + Z.of_nat replica_count)
  end.

Definition generate_shard_assignments_spec (partition_count replica_count : nat)
    (members : list Z) : list ShardAssignment :=
  if (partition_count =? 0) || (replica_count =? 0) || bool_decide (members = []) then []
  else assign_loop partition_count replica_count members
         (replicate (length members) 0) 1.

(** [Vec::dedup] *)
Fixpoint dedup (l : list Z) : list Z :=
  match l with
  | x :: ((y :: _) as l') => if bool_decide (x = y) then dedup l' else x :: dedup l'
  | _ => l
  end.

(** The assignments of the collections of a deployment, in
    [create_deployment_units_for_env]: all nodes of all environments are members. *)
Definition collection_assignments `{Countable K} (collections : list K)
    (partition_count replica_count : option Z) (target_replicas : Z)
    (env_node_ids : list (list Z)) : gmap K (list ShardAssignment) :=
  match collections with
  | [] => ∅
  | _ =>
      let partitions := Z.max (default 1%Z partition_count) 1 in
      let replicas := Z.max (default target_replicas replica_count) 1 in
      let all_nodes := dedup (merge_sort Z.le (concat env_node_ids)) in
      match all_nodes with
      | [] => ∅
      | _ => foldl (λ m col, <[col := generate_shard_assignments_spec (Z.to_nat partitions)
                                        (Z.to_nat replicas) all_nodes]> m) ∅ collections
      end
  end.

End Pm.

(** ** The loop counts in rotation *)

(** The counts when [k] of [n] members have one primary more than the others. *)
Definition ring (n k q : nat) : list nat := replicate k (S q) ++ replicate (n - k) q.

Lemma min_from_high i counts best :
  Forall (λ c, best.2 ≤ c) counts → Pm.min_from i counts best = best.
Proof.
  intros H. revert i. induction H as [|c counts Hc _ IH]; intros i; simpl; [done|].
  destruct (Nat.ltb_spec c best.2); [lia|]. apply IH.
Qed.

Lemma min_from_ring i k q m b : 0 < m → q < b.2 →
  Pm.min_from i (replicate k (S q) ++ replicate m q) b = (i + k, q).
Proof.
  intros Hm Hb. revert i b Hb. induction k as [|k IH]; intros i b Hb.
  - destruct m as [|m]; [lia|]. simpl. destruct (Nat.ltb_spec q b.2); [|lia].
    rewrite min_from_high; [f_equal; lia|]. by apply Forall_replicate.
  - simpl. rewrite IH; [f_equal; lia|]. destruct (_ <? _)%nat; simpl; lia.
Qed.

Lemma min_index_ring n k q : k < n → Pm.min_index (ring n k q) = k.
Proof.
  intros Hk. unfold ring. destruct k as [|k].
  - destruct n as [|n]; [lia|]. simpl. rewrite min_from_high; [done|].
    by apply Forall_replicate.
  - simpl. rewrite min_from_ring; simpl; lia.
Qed.

Lemma alter_ring n k q : k < n → alter S k (ring n k q) = ring n (S k) q.
Proof.
  intros Hk. unfold ring. rewrite alter_app_r_alt by (rewrite length_replicate; lia).
  rewrite length_replicate, Nat.sub_diag.
  replace (n - k) with (S (n - S k)) by lia. simpl.
  by rewrite app_comm_cons, replicate_cons_app, <- app_assoc.
Qed.

Lemma ring_full n q : ring n n q = ring n 0 (S q).
Proof. unfold ring. rewrite Nat.sub_diag, Nat.sub_0_r. simpl. by rewrite app_nil_r. Qed.

(** The counts after [p] partitions, and the next one. *)
Lemma ring_step n p : 0 < n →
  let counts := ring n (p mod n) (p / n) in
  Pm.min_index counts = p mod n ∧
  alter S (p mod n) counts = ring n (S p mod n) (S p / n).
Proof.
  intros Hn. pose proof (Nat.mod_upper_bound p n ltac:(lia)) as Hb.
  pose proof (Nat.div_mod p n ltac:(lia)) as Hp. simpl.
  split; [by apply min_index_ring|]. rewrite alter_ring by done.
  destruct (decide (S (p mod n) = n)) as [E|E].
  - rewrite E, ring_full. f_equal.
    + apply (Nat.mod_unique _ _ (S (p / n))); nia.
    + apply (Nat.div_unique _ _ _ 0); nia.
  - f_equal.
    + apply (Nat.mod_unique _ _ (p / n)); nia.
    + apply (Nat.div_unique _ _ _ (S (p mod n))); nia.
Qed.

(** The replicas of partition [p], on the members from [p] on in rotation. *)
Lemma replica_nodes members p rc : members ≠ [] →
  (λ i, members !!! ((p mod length members + i) mod length members)) <$> seq 0 rc
  = place members <$> seqZ (Z.of_nat p) (Z.of_nat rc).
Proof.
  intros Hm. assert (length members ≠ 0) as Hl by (by destruct members).
  unfold seqZ. rewrite Nat2Z.id, <- list_fmap_compose. apply list_fmap_ext.
  intros k i _. simpl. unfold place. f_equal.
  rewrite Nat.Div0.add_mod_idemp_l, <- Nat2Z.inj_add, <- Nat2Z.inj_mod, Nat2Z.id.
  f_equal. lia.
Qed.

Lemma assign_loop_rotation n rc members p : members ≠ [] → 0 < rc →
  Pm.assign_loop n rc members (ring (length members) (p mod length members)
    (p / length members)) (1 + Z.of_nat p * Z.of_nat rc)
  = default_assignment members 1 (Z.of_nat rc) <$> seqZ (Z.of_nat p) (Z.of_nat n).
Proof.
  intros Hm Hrc. assert (0 < length members) as Hl by (destruct members; simpl; [done|lia]).
  revert p. induction n as [|n IH]; intros p; [done|]. cbn [Pm.assign_loop].
  destruct (ring_step (length members) p Hl) as [-> ->].
  rewrite (seqZ_cons (Z.of_nat p)) by lia. rewrite fmap_cons. f_equal.
  - unfold default_assignment, group. rewrite replica_nodes by done.
    f_equal. rewrite (seqZ_cons (1 + _)) by lia. done.
  - replace (1 + Z.of_nat p * Z.of_nat rc + Z.of_nat rc)%Z
      with (1 + Z.of_nat (S p) * Z.of_nat rc)%Z by lia.
    rewrite IH. f_equal. f_equal; lia.
Qed.

Lemma pm_rotation pc rc members : members ≠ [] → 0 < rc →
  Pm.generate_shard_assignments_spec pc rc members
  = default_assignment members 1 (Z.of_nat rc) <$> seqZ 0 (Z.of_nat pc).
Proof.
  intros Hm Hrc. unfold Pm.generate_shard_assignments_spec.
  rewrite (bool_decide_false (members = [])) by done.
  destruct (Nat.eqb_spec pc 0) as [->|]; [done|].
  destruct (Nat.eqb_spec rc 0); [lia|]. simpl.
  assert (length members ≠ 0) by (by destruct members).
  pose proof (assign_loop_rotation pc rc members 0 Hm Hrc) as E.
  rewrite Nat.Div0.mod_0_l, Nat.Div0.div_0_l in E. unfold ring in E.
  rewrite Nat.sub_0_r in E. exact E.
Qed.

(** *** Theorems *)

(** Giving each primary to the member with the fewest primaries places partition [p] on the
    members [p], [p+1], ... in rotation, with consecutive identifiers from 1: the package
    manager assigns exactly what a data grid without shards would choose by itself. *)
Theorem pm_matches_odgm checks node members request pc rc :
  partition_count request = Z.of_nat pc → replica_count request = Z.of_nat rc →
  members ≠ [] → 0 < rc → (1 + Z.of_nat pc * Z.of_nat rc ≤ u64_max)%Z →
  Meta.generate_default_assignments checks request (Meta.new node members)
  = Ok (Pm.generate_shard_assignments_spec pc rc members) ∧
  Pm.generate_shard_assignments_spec pc rc members
  = default_assignment members 1 (Z.of_nat rc) <$> seqZ 0 (Z.of_nat pc).
Proof.
  intros Hpc Hr Hm Hrc Hb.
  pose proof (pm_rotation pc rc members Hm Hrc) as E.
  split; [|done]. rewrite E.
  unfold Meta.generate_default_assignments, Meta.with_capacity.
  rewrite Hpc, Hr, (proj2 (Z.ltb_ge _ _)) by lia. cbn [res_bind].
  unfold Meta.last_shard_id, add_u64. simpl shards. cbn [bt_last last fmap option_fmap].
  simpl. pose proof (assign_loop_ok checks members (Z.of_nat rc) pc 0 1) as E2.
  rewrite Z.mul_0_l, Z.add_0_r in E2. apply E2; try done; lia.
Qed.

Lemma pm_matches_odgm_witness :
  Meta.generate_default_assignments true DemoMeta.request (Meta.new 1 [1; 2; 3]%Z)
  = Ok (Pm.generate_shard_assignments_spec 3 2 [1; 2; 3]%Z).
Proof.
  exact (proj1 (pm_matches_odgm true 1 [1; 2; 3]%Z DemoMeta.request 3 2 eq_refl eq_refl
    ltac:(done) ltac:(lia) ltac:(done))).
Defined.

(** All collections of a deployment are given the same identifiers. *)
Theorem collections_share_ids `{Countable K} (cols : list K) pc rc target envs c1 c2 a1 a2 :
  let m := Pm.collection_assignments cols pc rc target envs in
  m !! c1 = Some a1 → m !! c2 = Some a2 → a1 = a2.
Proof.
  simpl. unfold Pm.collection_assignments. destruct cols as [|c cols]; [done|].
  destruct (Pm.dedup _) as [|n ns]; [done|].
  set (a := Pm.generate_shard_assignments_spec _ _ _).
  assert (∀ l (m : gmap K (list ShardAssignment)), map_Forall (λ _ x, x = a) m →
    map_Forall (λ _ x, x = a) (foldl (λ m col, <[col:=a]> m) m l)) as Hall.
  { induction l as [|d l IH]; intros m Hm; [done|]. simpl. apply IH.
    by apply map_Forall_insert_2. }
  pose proof (Hall (c :: cols) ∅ (map_Forall_empty _)) as Hf.
  intros E1%Hf E2%Hf. congruence.
Qed.

Lemma collections_share_ids_witness :
  let m := Pm.collection_assignments [bs "a"; bs "b"] (Some 2%Z) None 2 [[2; 1]; [2]]%Z in
  ∃ l, m !! bs "a" = Some l ∧ m !! bs "b" = Some l ∧ length l = 2.
Proof.
  set (m := Pm.collection_assignments _ _ _ _ _).
  destruct (m !! bs "a") as [a1|] eqn:E1; [|vm_compute in E1; discriminate].
  destruct (m !! bs "b") as [a2|] eqn:E2; [|vm_compute in E2; discriminate].
  exists a1. split; [exact E1|]. split.
  - rewrite E2. f_equal. symmetry. exact (collections_share_ids _ _ _ _ _ _ _ _ _ E1 E2).
  - vm_compute in E1. injection E1 as <-. reflexivity.
Defined.
