(* ===== verification/Collections.v ===== *)
(** * Collection requests of the class runtime manager

    [control-plane/oprc-crm/src/collections.rs]: the request that creates a collection on
    the data grid, with the invocation routes in fully qualified form and the shard
    assignments of the package manager, dropped when they do not fit the collection. The
    theorems follow assignments from the package manager through this check into the data
    grid. [ShardAssignmentSpec] and the protobuf [ShardAssignment] have the same fields and
    are one type here. *)

From stdpp Require Import base tactics list list_numbers numbers option gmap strings sorting.
From Stdlib Require Import Lia.
From S2P Require Import Prelude BTree Shard Metadata Placement.

Set Default Proof Using "Type".

(** [CrdFunctionRoute] and [FuncInvokeRoute] *)
Record FunctionRoute := {
  route_url : bytes;
  route_wasm_module_url : option bytes;
  route_wasm_fuel : option Z;
  route_stateless : option bool;
  route_standby : option bool;
  route_active_group : list Z;
}.

Record FuncInvokeRoute := {
  inv_url : bytes;
  inv_stateless : bool;
  inv_standby : bool;
  inv_active_group : list Z;
  inv_wasm_module_url : option bytes;
  inv_wasm_fuel : option Z;
}.

Record InvocationsSpec := { fn_routes : btree bytes FunctionRoute; disabled_fn : list bytes }.
Record InvocationRoute := {
  invoke_routes : gmap bytes FuncInvokeRoute;
  invoke_disabled : list bytes;
}.

Module Crm.

Definition slash : byte := Byte.x2f.
Definition dot : byte := Byte.x2e.

(** [str::split_once('/')] *)
Fixpoint split_once (s : bytes) : option (bytes * bytes) :=
  match s with
  | [] => None
  | c :: s => if bool_decide (c = slash) then Some ([], s)
              else (λ ab, (c :: ab.1, ab.2)) <$> split_once s
  end.

Fixpoint drop_slashes (s : bytes) : bytes :=
  match s with c :: s' => if bool_decide (c = slash) then drop_slashes s' else s | [] => [] end.
(** [str::trim_end_matches('/')] *)
Definition trim_end_slashes (s : bytes) : bytes := reverse (drop_slashes (reverse s)).

Definition strip_prefix (p s : bytes) : option bytes :=
  if starts_with p s then Some (drop (length p) s) else None.
Definition strip_suffix (p s : bytes) : option bytes :=
  reverse <$> strip_prefix (reverse p) (reverse s).

(** A short service address becomes a fully qualified one. *)
Definition normalize_url (namespace url : bytes) : bytes :=
  match strip_prefix (bs "http://") url with
  | None => url
  | Some stripped =>
      if bool_decide (dot ∈ stripped) then url else
      let '(svc_part, rest) :=
        match split_once stripped with
        | Some (a, b) => (a, slash :: b)
        | None => (trim_end_slashes stripped, [slash])
        end in
      let svc_core := trim_end_slashes svc_part in
      let svc_core := default svc_core (strip_suffix (bs ":80") svc_core) in
      let norm_url :=
        bs "http://" ++ svc_core ++ bs "." ++ namespace ++ bs ".svc.cluster.local" ++
        match rest with [] => [slash] | _ => rest end in
      if bool_decide (last norm_url = Some slash) then norm_url else norm_url ++ [slash]
  end.

Definition invoke_route (namespace : bytes) (r : FunctionRoute) : FuncInvokeRoute :=
  {| inv_url := normalize_url namespace (route_url r);
     inv_stateless := default true (route_stateless r);
     inv_standby := default false (route_standby r);
     inv_active_group := route_active_group r;
     inv_wasm_module_url := route_wasm_module_url r;
     inv_wasm_fuel := route_wasm_fuel r |}.

Definition invocation_routes (namespace : bytes) (inv : InvocationsSpec) : InvocationRoute :=
  {| invoke_routes :=
       foldl (λ m kv, <[kv.1 := invoke_route namespace kv.2]> m) ∅ (fn_routes inv);
     invoke_disabled := disabled_fn inv |}.

(** The loop over the shard identifiers of a partition: the ones seen, or a duplicate. *)
Fixpoint seen_loop (ids : list Z) (seen : gset Z) : option (gset Z) :=
  match ids with
  | [] => Some seen
  | sid :: ids => if bool_decide (sid ∈ seen) then None else seen_loop ids ({[sid]} ∪ seen)
  end.

Fixpoint validate_loop (list_ : list ShardAssignment) (replica_count : Z) (seen : gset Z) : bool :=
  match list_ with
  | [] => true
  | a :: list_ =>
      if negb (bool_decide (length (replica a) = Z.to_nat replica_count)) then false
      else if negb (bool_decide (length (shard_ids a) = Z.to_nat replica_count)) then false
      else if match primary a with
              | Some p => negb (bool_decide (p ∈ shard_ids a))
              | None => false
              end then false
      else match seen_loop (shard_ids a) seen with
           | None => false
           | Some seen => validate_loop list_ replica_count seen
           end
  end.

Definition validate_assignments (list_ : list ShardAssignment)
    (partition_count replica_count : Z) : bool :=
  if (partition_count <=? 0)%Z || (replica_count <=? 0)%Z then false
  else if negb (bool_decide (length list_ = Z.to_nat partition_count)) then false
  else validate_loop list_ replica_count ∅.

Definition build_collection_request (name namespace : bytes) (partition_count replica_count : Z)
    (shard_type : bytes) (invocations : option InvocationsSpec)
    (options : option (btree bytes bytes)) (assignments : option (list ShardAssignment)) :
    CreateCollectionRequest * option InvocationRoute :=
  let options_map := foldl (λ m kv, <[kv.1 := kv.2]> m) ∅ (default [] options) in
  let shard_assignments :=
    match assignments with
    | Some list_ => if validate_assignments list_ partition_count replica_count
                    then list_ else []
    | None => []
    end in
  ({| req_name := name; partition_count := partition_count; replica_count := replica_count;
      shard_assignments := shard_assignments; shard_type := shard_type;
      req_options := options_map |},
   invocation_routes namespace <$> invocations).

End Crm.

Example url_short :
  Crm.normalize_url (bs "default") (bs "http://order-fn-0:80/") 
  = bs "http://order-fn-0.default.svc.cluster.local/".
Proof. vm_compute. reflexivity. Qed.
Example url_path :
  Crm.normalize_url (bs "ns") (bs "http://svc/a/b") = bs "http://svc.ns.svc.cluster.local/a/b/".
Proof. vm_compute. reflexivity. Qed.
Example url_external :
  Crm.normalize_url (bs "ns") (bs "http://example.org/x") = bs "http://example.org/x".
Proof. vm_compute. reflexivity. Qed.

(** ** The check of the assignments *)

Definition assignment_fits (rc : Z) (a : ShardAssignment) : Prop :=
  length (replica a) = Z.to_nat rc ∧ length (shard_ids a) = Z.to_nat rc ∧
  (∀ p, primary a = Some p → p ∈ shard_ids a).

(** All identifiers of a list of assignments. *)
Definition all_ids (l : list ShardAssignment) : list Z := concat (shard_ids <$> l).

Lemma seen_loop_spec ids seen :
  match Crm.seen_loop ids seen with
  | Some seen' => seen' = list_to_set ids ∪ seen ∧ NoDup ids ∧ ∀ i, i ∈ ids → i ∉ seen
  | None => ¬ (NoDup ids ∧ ∀ i, i ∈ ids → i ∉ seen)
  end.
Proof.
  revert seen. induction ids as [|i ids IH]; intros seen; simpl.
  { split; [set_solver|]. split; [constructor|set_solver]. }
  case_bool_decide as Hi.
  { intros [_ H]. by apply (H i ltac:(left)). }
  specialize (IH ({[i]} ∪ seen)). destruct (Crm.seen_loop _ _) as [s|].
  - destruct IH as (-> & Hn & Hs). split; [set_solver|]. split; [|set_solver].
    constructor; [|done]. intros Hin. apply Hs in Hin. set_solver.
  - intros [[Hi' Hn]%NoDup_cons Hs]. apply IH. split; [done|]. set_solver.
Qed.

Lemma validate_loop_spec l rc seen :
  Crm.validate_loop l rc seen = true ↔
  Forall (assignment_fits rc) l ∧ NoDup (all_ids l) ∧ ∀ i, i ∈ all_ids l → i ∉ seen.
Proof.
  revert seen. induction l as [|a l IH]; intros seen; simpl.
  { split; [|done]. intros _. split; [done|]. split; [constructor|].
    by intros ? ?%not_elem_of_nil. }
  assert (all_ids (a :: l) = shard_ids a ++ all_ids l) as -> by done.
  rewrite Forall_cons. unfold assignment_fits at 1.
  case_bool_decide as H1; simpl; [|split; [done|]; by intros [[[? _] _] _]].
  case_bool_decide as H2; simpl; [|split; [done|]; by intros [[(_ & ? & _) _] _]].
  assert ((∀ p, primary a = Some p → p ∈ shard_ids a) ↔
    match primary a with Some p => negb (bool_decide (p ∈ shard_ids a)) | None => false end
    = false) as Hp.
  { destruct (primary a) as [p|]; [|naive_solver]. rewrite negb_false_iff, bool_decide_eq_true.
    naive_solver. }
  destruct (match primary a with Some p => _ | None => _ end).
  { split; [done|]. intros [[(_ & _ & H3) _] _]. by apply Hp in H3. }
  pose proof (seen_loop_spec (shard_ids a) seen) as Hs.
  rewrite NoDup_app. destruct (Crm.seen_loop _ _) as [s|].
  - destruct Hs as (-> & Hn & Hs). rewrite IH. split.
    + intros (F & N & D). setoid_rewrite not_elem_of_union in D.
      split; [by split; [split_and!; [done..|by apply Hp]|]|].
      split; [split; [done|]; split; [|done]|].
      * intros i Hi Hl. destruct (D i Hl) as [Hn' _]. by apply Hn', elem_of_list_to_set.
      * intros i [?|Hi]%elem_of_app; [by apply Hs|]. by apply D.
    + intros ([_ F] & (_ & Hd & N) & D). split; [done|]. split; [done|].
      intros i Hi. apply not_elem_of_union. split; [|by apply D, elem_of_app; right].
      rewrite elem_of_list_to_set. intros Ha. by apply (Hd i).
  - split; [done|]. intros (_ & (Hn & _ & _) & D). exfalso. apply Hs. split; [done|].
    intros i Hi. apply D. apply elem_of_app. by left.
Qed.

Lemma validate_iff l pc rc :
  Crm.validate_assignments l pc rc = true ↔
  (0 < pc)%Z ∧ (0 < rc)%Z ∧ Z.of_nat (length l) = pc ∧ Forall (assignment_fits rc) l ∧
  NoDup (all_ids l).
Proof.
  unfold Crm.validate_assignments.
  destruct (Z.leb_spec pc 0); simpl; [split; [done|]; lia|].
  destruct (Z.leb_spec rc 0); simpl; [split; [done|]; lia|].
  case_bool_decide as Hl; simpl; [|split; [done|]; lia].
  rewrite validate_loop_spec. split.
  - intros (F & N & _). split_and!; [lia|lia|lia|done|done].
  - intros (_ & _ & _ & F & N). split_and!; [done|done|]. set_solver.
Qed.

(** Exactly the assignments that fit the collection are passed on: one per partition, with
    as many nodes and identifiers as replicas, a primary among them, and no identifier
    used twice. *)
Theorem validate_assignments_iff l pc rc :
  Crm.validate_assignments l pc rc = true ↔
  (0 < pc)%Z ∧ (0 < rc)%Z ∧ Z.of_nat (length l) = pc ∧ Forall (assignment_fits rc) l ∧
  NoDup (all_ids l).
Proof. apply validate_iff. Qed.

(** ** Assigned collections on the data grid *)

Section assigned.
Context (request : CreateCollectionRequest).

(** The shards an assignment of partition [p] describes, by identifier. *)
Definition replica_rows (p : Z) (a : ShardAssignment) (k : Z) (ids : list Z) :
    btree Z ShardMetadata :=
  imap (λ j id, (id, Meta.shard_meta request p a (shard_ids a)
                       (place (replica a) (k + Z.of_nat j)) id)) ids.

Fixpoint assigned_rows (p : Z) (l : list ShardAssignment) : btree Z ShardMetadata :=
  match l with
  | [] => []
  | a :: l => replica_rows p a 0 (shard_ids a) ++ assigned_rows (p + 1) l
  end.

Notation add_rows := (foldl (λ s (kv : Z * ShardMetadata), bt_insert kv.1 kv.2 s)).

Lemma replica_shards_assigned p a k ids m : replica a ≠ [] →
  Meta.replica_shards request p a (shard_ids a) k ids m
  = (Ok tt, Meta.set_shards (add_rows (shards m) (replica_rows p a k ids)) m).
Proof.
  intros Hr. revert k m. induction ids as [|id ids IH]; intros k m; simpl.
  { by destruct m. }
  unfold bind at 1. rewrite round_robin_ok by done. simpl. rewrite bind_modify, IH. simpl.
  unfold replica_rows, Meta.set_shards. simpl. rewrite Z.add_0_r. do 3 f_equal.
  apply imap_ext. intros j x _. simpl. do 2 f_equal. f_equal. lia.
Qed.

Definition usable (a : ShardAssignment) : Prop := replica a ≠ [] ∧ shard_ids a ≠ [].

Lemma partition_loop_assigned pre l m : Forall usable l →
  Meta.partition_loop request (pre ++ l) (seqZ (Z.of_nat (length pre)) (Z.of_nat (length l))) m
  = (Ok (shard_ids <$> l),
     Meta.set_shards (add_rows (shards m) (assigned_rows (Z.of_nat (length pre)) l)) m).
Proof.
  intros Hl. revert pre m. induction Hl as [|a l [Hr Hi] _ IH]; intros pre m.
  { simpl. by destruct m. }
  rewrite seqZ_cons by (simpl; lia). cbn [Meta.partition_loop]. rewrite Nat2Z.id.
  rewrite lookup_app_r, Nat.sub_diag by lia. cbn [lookup list_lookup].
  assert (Meta.fill_ids request (shard_ids a) m = (Ok (shard_ids a), m)) as Ef
    by (by destruct (shard_ids a)).
  rewrite (bind_ok _ _ _ _ _ Ef).
  rewrite (bind_ok _ _ _ _ _ (replica_shards_assigned _ a 0 (shard_ids a) m Hr)).
  replace (pre ++ a :: l) with ((pre ++ [a]) ++ l) by (by rewrite <- app_assoc).
  replace (Z.succ (Z.of_nat (length pre))) with (Z.of_nat (length (pre ++ [a])))
    by (rewrite length_app; simpl; lia).
  replace (Z.pred (Z.of_nat (length (a :: l)))) with (Z.of_nat (length l)) by (simpl; lia).
  rewrite (bind_ok _ _ _ _ _ (IH (pre ++ [a]) _)). simpl. unfold ret, Meta.set_shards.
  simpl. rewrite foldl_app, length_app. simpl.
  by replace (Z.of_nat (length pre + 1)) with (Z.of_nat (length pre) + 1)%Z by lia.
Qed.

Lemma add_rows_ok (rows s : btree Z ShardMetadata) : bt_wf s → NoDup rows.*1 →
  bt_wf (add_rows s rows) ∧
  ∀ id, bt_get id (add_rows s rows)
        = match bt_get id rows with Some v => Some v | None => bt_get id s end.
Proof.
  revert s. induction rows as [|[k v] rows IH]; intros s Hs; [done|].
  intros [Hk Hn]%NoDup_cons. simpl in Hk.
  destruct (IH (bt_insert k v s) ltac:(by apply bt_insert_wf) Hn) as [Hw Hg].
  split; [done|]. intros id. simpl. rewrite Hg. destruct (decide (id = k)) as [->|Hne].
  - by rewrite cmp_refl, bt_get_notin, bt_get_insert_eq.
  - rewrite bt_get_insert_ne by congruence.
    destruct (cmp id k) eqn:E; [by apply cmp_eq in E|done..].
Qed.

Lemma replica_rows_keys p a k ids : (replica_rows p a k ids).*1 = ids.
Proof.
  unfold replica_rows. apply list_eq. intros i. rewrite list_lookup_fmap, list_lookup_imap.
  by destruct (ids !! i).
Qed.

Lemma assigned_rows_keys p l : (assigned_rows p l).*1 = all_ids l.
Proof.
  revert p. induction l as [|a l IH]; intros p; simpl; [done|].
  by rewrite fmap_app, replica_rows_keys, IH.
Qed.

Lemma assigned_rows_elem p0 l p a k id :
  l !! p = Some a → shard_ids a !! k = Some id →
  (id, Meta.shard_meta request (p0 + Z.of_nat p) a (shard_ids a)
         (place (replica a) (Z.of_nat k)) id) ∈ assigned_rows p0 l.
Proof.
  revert p0 p. induction l as [|b l IH]; intros p0 p Hp Hk; [done|].
  simpl. apply elem_of_app. destruct p as [|p]; simpl in Hp.
  - simplify_eq. left. rewrite Z.add_0_r. apply list_elem_of_lookup. exists k.
    unfold replica_rows. rewrite list_lookup_imap, Hk. simpl. by rewrite Z.add_0_l.
  - right. replace (p0 + Z.of_nat (S p))%Z with (p0 + 1 + Z.of_nat p)%Z by lia.
    by apply IH.
Qed.

Lemma place_nth ms k n : ms !! k = Some n → place ms (Z.of_nat k) = n.
Proof.
  intros Hk. pose proof (lookup_lt_Some _ _ _ Hk). unfold place.
  rewrite Z.mod_small, Nat2Z.id by lia. by apply list_lookup_total_correct.
Qed.

Lemma given_assignments {S E B} (l : list ShardAssignment) (d : M S E (list ShardAssignment))
    (f : list ShardAssignment → M S E B) m : l ≠ [] →
  bind (match l with [] => d | a :: l' => ret (a :: l') end) f m = f l m.
Proof. by destruct l. Qed.

(** What the grid does with a request whose assignments fit. *)
Lemma create_assigned checks m :
  meta_wf m → bt_get (req_name request) (collections m) = None → (watch m < u64_max)%Z →
  (0 < partition_count request)%Z →
  Z.of_nat (length (shard_assignments request)) = partition_count request →
  Forall usable (shard_assignments request) → NoDup (all_ids (shard_assignments request)) →
  ∃ m', Meta.create_collection checks request m = (Ok (req_name request), m') ∧
  collections m' = bt_insert (req_name request)
    {| col_name := req_name request; col_shards := shard_ids <$> shard_assignments request;
       col_seed := 0; col_replication := 1 |} (collections m) ∧
  (∀ p a k id n, shard_assignments request !! p = Some a → shard_ids a !! k = Some id →
     replica a !! k = Some n →
     bt_get id (shards m')
     = Some (Meta.shard_meta request (Z.of_nat p) a (shard_ids a) n id)) ∧
  (∀ id, id ∉ all_ids (shard_assignments request) →
     bt_get id (shards m') = bt_get id (shards m)).
Proof.
  intros W Hn Hw Hpc Hl Hu Hnd. set (l := shard_assignments request) in *.
  destruct (add_rows_ok (assigned_rows 0 l) (shards m) (mw_shards m W)
    ltac:(by rewrite assigned_rows_keys)) as [_ Hg].
  pose proof (partition_loop_assigned [] l m Hu) as Ep. simpl in Ep. rewrite Hl in Ep.
  eexists. split.
  { unfold Meta.create_collection. rewrite bind_gets. unfold bt_contains.
    rewrite Hn, bool_decide_false by (by intros []). unfold Meta.with_capacity.
    rewrite (proj2 (Z.ltb_ge _ _)), bind_ret_res by lia. fold l.
    rewrite given_assignments by (intros E; rewrite E in Hl; simpl in Hl; lia).
    rewrite (bind_ok _ _ _ _ _ Ep), bind_modify.
    unfold Meta.update_local_shards. rewrite bind_modify, bind_gets. unfold add_u64. simpl.
    rewrite (proj2 (Z.leb_le _ _)) by lia. reflexivity. }
  split; [done|]. simpl. split.
  - intros p a k id n Hp Hk Hr. rewrite Hg.
    erewrite bt_get_NoDup; [|by rewrite assigned_rows_keys|by eapply assigned_rows_elem].
    by rewrite (place_nth _ _ _ Hr).
  - intros id Hid. rewrite Hg, bt_get_notin; [done|]. by rewrite assigned_rows_keys.
Qed.
End assigned.

Lemma fits_usable rc a : (0 < rc)%Z → assignment_fits rc a → usable a.
Proof.
  intros Hrc (Hr & Hi & _). split; intros E; [rewrite E in Hr|rewrite E in Hi];
    simpl in *; lia.
Qed.

(** *** Theorems *)

(** C14. Assignments that pass the check of the class runtime manager are carried out by the data
    grid as written: the collection gets exactly these groups, each shard has its
    partition, primary and owner, and no other shard is touched. *)
Theorem assignments_honoured checks name ns pc rc ty inv opts l m :
  Crm.validate_assignments l pc rc = true →
  meta_wf m → bt_get name (collections m) = None → (watch m < u64_max)%Z →
  let request := (Crm.build_collection_request name ns pc rc ty inv opts (Some l)).1 in
  ∃ m', Meta.create_collection checks request m = (Ok name, m') ∧
  col_shards <$> bt_get name (collections m') = Some (shard_ids <$> l) ∧
  (∀ p a k id n, l !! p = Some a → shard_ids a !! k = Some id → replica a !! k = Some n →
     bt_get id (shards m')
     = Some (Meta.shard_meta request (Z.of_nat p) a (shard_ids a) n id)) ∧
  (∀ id, id ∉ all_ids l → bt_get id (shards m') = bt_get id (shards m)).
Proof.
  intros Hv W Hn Hw. pose proof (proj1 (validate_iff l pc rc) Hv) as (Hpc & Hrc & Hl & HF & HN).
  simpl. rewrite Hv.
  destruct (create_assigned {| req_name := name; partition_count := pc; replica_count := rc;
    shard_assignments := l; shard_type := ty;
    req_options := foldl (λ m kv, <[kv.1:=kv.2]> m) ∅ (default [] opts) |} checks m)
    as (m' & E & Hc & Hs & Ho); try done.
  { simpl. eapply Forall_impl; [exact HF|]. intros a. by apply fits_usable. }
  exists m'. split; [done|]. rewrite Hc, bt_get_insert_eq. done.
Qed.

(** ** From the package manager to the data grid *)

Lemma pm_ids pc rc members : members ≠ [] → 0 < rc →
  all_ids (Pm.generate_shard_assignments_spec pc rc members)
  = seqZ 1 (Z.of_nat pc * Z.of_nat rc).
Proof.
  intros Hm Hrc. rewrite pm_rotation by done. unfold all_ids.
  rewrite <- list_fmap_compose.
  assert (∀ n i, concat ((shard_ids ∘ default_assignment members 1 (Z.of_nat rc))
                           <$> seqZ (Z.of_nat i) (Z.of_nat n))
                 = seqZ (1 + Z.of_nat i * Z.of_nat rc) (Z.of_nat n * Z.of_nat rc)) as H.
  { induction n as [|n IH]; intros i; [done|].
    rewrite (seqZ_cons (Z.of_nat i)) by lia. rewrite fmap_cons. simpl concat.
    replace (Z.pred (Z.of_nat (S n))) with (Z.of_nat n) by lia.
    replace (Z.succ (Z.of_nat i)) with (Z.of_nat (S i)) by lia. rewrite IH.
    unfold group. replace (Z.of_nat (S n) * Z.of_nat rc)%Z
      with (Z.of_nat rc + Z.of_nat n * Z.of_nat rc)%Z by lia.
    rewrite seqZ_app by lia. do 2 f_equal. lia. }
  apply (H pc 0).
Qed.

Lemma pm_valid pc rc members :
  0 < pc → 0 < rc → members ≠ [] →
  Crm.validate_assignments (Pm.generate_shard_assignments_spec pc rc members)
    (Z.of_nat pc) (Z.of_nat rc) = true.
Proof.
  intros Hpc Hrc Hm. apply validate_iff.
  split; [lia|]. split; [lia|]. rewrite pm_ids by done. rewrite pm_rotation by done.
  rewrite length_fmap, length_seqZ. split; [lia|]. split; [|apply NoDup_seqZ].
  rewrite Forall_fmap. apply Forall_true. intros i. unfold assignment_fits, group. simpl.
  rewrite length_fmap, !length_seqZ. split; [done|]. split; [by unfold group; rewrite length_seqZ|].
  intros p [= <-]. unfold group. apply elem_of_seqZ. lia.
Qed.

(** The assignments of the package manager fit the collection they are made for. *)
Theorem pm_assignments_valid pc rc members :
  0 < pc → 0 < rc → members ≠ [] →
  Crm.validate_assignments (Pm.generate_shard_assignments_spec pc rc members)
    (Z.of_nat pc) (Z.of_nat rc) = true.
Proof. apply pm_valid. Qed.

Lemma pm_assignments_valid_witness :
  Crm.validate_assignments (Pm.generate_shard_assignments_spec 3 2 [5; 7; 9]%Z) 3 2 = true.
Proof. exact (pm_assignments_valid 3 2 [5; 7; 9]%Z ltac:(lia) ltac:(lia) ltac:(done)). Defined.

(** Identifiers start from 1 for every collection: when a second collection of a
    deployment is created with the assignments the package manager made for it, every
    identifier of the first one that it also uses names a shard of the second. *)
Theorem second_collection_takes_over checks first second ns pc rc ty inv opts members m id :
  0 < pc → 0 < rc → members ≠ [] →
  let l := Pm.generate_shard_assignments_spec pc rc members in
  meta_wf m → first ≠ second → bt_get second (collections m) = None →
  col_shards <$> bt_get first (collections m) = Some (shard_ids <$> l) →
  (watch m < u64_max)%Z → id ∈ all_ids l →
  let request := (Crm.build_collection_request second ns (Z.of_nat pc) (Z.of_nat rc) ty
                    inv opts (Some l)).1 in
  ∃ m', Meta.create_collection checks request m = (Ok second, m') ∧
  col_shards <$> bt_get first (collections m') = Some (shard_ids <$> l) ∧
  sm_collection <$> bt_get id (shards m') = Some second.
Proof.
  intros Hpc Hrc Hm l W Hne Hnew Hold Hw Hid.
  pose proof (pm_valid pc rc members Hpc Hrc Hm) as Hv. fold l in Hv.
  pose proof (proj1 (validate_iff _ _ _) Hv) as (H1 & H2 & H3 & HF & HN).
  simpl. rewrite Hv.
  destruct (create_assigned {| req_name := second; partition_count := Z.of_nat pc;
    replica_count := Z.of_nat rc; shard_assignments := l; shard_type := ty;
    req_options := foldl (λ m kv, <[kv.1:=kv.2]> m) ∅ (default [] opts) |} checks m)
    as (m' & E & Hc & Hs & _); try done.
  { simpl. eapply Forall_impl; [exact HF|]. intros a. by apply fits_usable. }
  exists m'. split; [done|]. split; [rewrite Hc; simpl; by rewrite bt_get_insert_ne by done|].
  unfold all_ids in Hid. apply list_elem_of_In, in_concat in Hid as (ids & Hids & Hin).
  apply list_elem_of_In in Hids, Hin. apply list_elem_of_lookup in Hids as [p Hp]. rewrite list_lookup_fmap in Hp.
  destruct (l !! p) as [a|] eqn:Ea; [|done]. simplify_eq/=.
  apply list_elem_of_lookup in Hin as [k Hk].
  assert (is_Some (replica a !! k)) as [n Hn].
  { apply lookup_lt_is_Some. pose proof (lookup_lt_Some _ _ _ Hk).
    rewrite Forall_forall in HF.
    destruct (HF a ltac:(by eapply list_elem_of_lookup_2)) as (-> & <- & _). done. }
  by rewrite (Hs p a k id n Ea Hk Hn).
Qed.

Lemma assignments_honoured_witness :
  let l := Pm.generate_shard_assignments_spec 3 2 [1; 2; 3]%Z in
  let request := (Crm.build_collection_request (bs "sensors") (bs "ns") 3 2 (bs "raft") None
                    None (Some l)).1 in
  ∃ m', Meta.create_collection true request DemoMeta.manager = (Ok (bs "sensors"), m') ∧
  sm_owner <$> bt_get 6%Z (shards m') = Some (Some 1%Z).
Proof.
  destruct (assignments_honoured true (bs "sensors") (bs "ns") 3 2 (bs "raft") None None
    (Pm.generate_shard_assignments_spec 3 2 [1; 2; 3]%Z) DemoMeta.manager
    ltac:(vm_compute; reflexivity) DemoMeta.manager_wf eq_refl ltac:(done))
    as (m' & E & _ & H & _).
  exists m'. split; [exact E|].
  rewrite (H 2 {| primary := Some 5%Z; replica := [3; 1]%Z; shard_ids := [5; 6]%Z |} 1 6%Z 1%Z
    ltac:(vm_compute; reflexivity) eq_refl eq_refl). reflexivity.
Defined.

(** The two collections of one deployment. *)
Lemma second_collection_takes_over_witness :
  let l := Pm.generate_shard_assignments_spec 3 2 [1; 2; 3]%Z in
  let request := (Crm.build_collection_request (bs "actuators") (bs "ns") 3 2 (bs "raft") None
                    None (Some l)).1 in
  ∃ m', Meta.create_collection true request DemoMeta.created_manager = (Ok (bs "actuators"), m') ∧
  col_shards <$> bt_get (bs "sensors") (collections m') = Some [[1; 2]; [3; 4]; [5; 6]]%Z ∧
  sm_collection <$> bt_get 4%Z (shards m') = Some (bs "actuators").
Proof.
  exact (second_collection_takes_over true (bs "sensors") (bs "actuators") (bs "ns") 3 2
    (bs "raft") None None [1; 2; 3]%Z DemoMeta.created_manager 4%Z ltac:(lia) ltac:(lia)
    ltac:(done) DemoMeta.created_manager_wf ltac:(done) ltac:(vm_compute; reflexivity)
    ltac:(vm_compute; reflexivity) ltac:(vm_compute; reflexivity)
    ltac:(apply (bool_decide_unpack _); vm_compute; exact I)).
Defined.

(** ** Invocation routes *)

Lemma strip_prefix_app p s : Crm.strip_prefix p (p ++ s) = Some s.
Proof. unfold Crm.strip_prefix. by rewrite starts_with_app, drop_app_length. Qed.

(** Qualifying an address twice is qualifying it once. *)
Theorem normalize_url_idempotent ns url :
  Crm.normalize_url ns (Crm.normalize_url ns url) = Crm.normalize_url ns url.
Proof.
  unfold Crm.normalize_url at 2 3. destruct (Crm.strip_prefix (bs "http://") url) as [st|] eqn:E.
  2:{ unfold Crm.normalize_url. by rewrite E. }
  case_bool_decide as Hd.
  { unfold Crm.normalize_url. by rewrite E, bool_decide_true. }
  destruct (match Crm.split_once st with Some _ => _ | None => _ end) as [svc rest].
  set (core := default _ (Crm.strip_suffix _ _)). set (tail := match rest with [] => _ | _ => _ end).
  assert (∀ x, Crm.normalize_url ns
    ((bs "http://" ++ core ++ bs "." ++ ns ++ bs ".svc.cluster.local" ++ tail) ++ x)
    = (bs "http://" ++ core ++ bs "." ++ ns ++ bs ".svc.cluster.local" ++ tail) ++ x) as H.
  { intros x. unfold Crm.normalize_url. rewrite <- app_assoc, strip_prefix_app.
    rewrite bool_decide_true; [done|]. rewrite <- !app_assoc, elem_of_app. right.
    apply elem_of_app. left. by apply list_elem_of_singleton. }
  case_bool_decide; [|apply H]. specialize (H []). by rewrite app_nil_r in H.
Qed.
