(* ===== verification/Routing.v ===== *)
(** * Names of function services

    [control-plane/oprc-crm/src/routing.rs] and [TemplateManager::dns1035_safe]: the names
    and addresses under which the class runtime manager deploys the functions of a class,
    and by which the controller recognises them afterwards. A string is the sequence of
    its characters. *)

From stdpp Require Import base tactics list numbers option strings pretty.
From Stdlib Require Import Lia.
From S2P Require Import Prelude.

Set Default Proof Using "Type".

(** Code points of a [&str]. *)
Notation str := (list Z).

(** A literal, and the digits [format!("{}", n)] writes. *)
Definition lit (s : string) : str := bz <$> bs s.
Definition dec (n : nat) : str := lit (pretty n).

(** Strings compare by their UTF-8 bytes, which is the order of the code points. *)
Fixpoint str_cmp (s t : str) : comparison :=
  match s, t with
  | [], [] => Eq
  | [], _ :: _ => Lt
  | _ :: _, [] => Gt
  | a :: s, b :: t => match Z.compare a b with Eq => str_cmp s t | c => c end
  end.

#[global] Program Instance str_total_cmp : TotalCmp str := {| cmp := str_cmp |}.
Next Obligation.
  induction x as [|a x IH]; intros [|b y]; simpl; try naive_solver.
  destruct (Z.compare_spec a b) as [->|E|E]; [rewrite IH; naive_solver| |];
    (split; [done|]; intros [= -> ->]; lia).
Qed.
Next Obligation.
  induction x as [|a x IH]; intros [|b y]; simpl; try done.
  rewrite (Z.compare_antisym a b). destruct (a ?= b)%Z; simpl; auto.
Qed.
Next Obligation.
  induction x as [|a x IH]; intros [|b y] [|c z]; simpl; try done.
  destruct (Z.compare_spec a b) as [->|E|E]; try done;
    destruct (Z.compare_spec b c) as [->|F|F]; try done; intros;
    rewrite ?Z.compare_refl; eauto;
    by rewrite (proj2 (Z.compare_lt_iff _ _)) by lia.
Qed.

Module Names.

Definition is_lower (c : Z) : bool := (97 <=? c)%Z && (c <=? 122)%Z.
Definition is_upper (c : Z) : bool := (65 <=? c)%Z && (c <=? 90)%Z.
Definition is_digit (c : Z) : bool := (48 <=? c)%Z && (c <=? 57)%Z.
(** [char::is_ascii_alphabetic] and [is_ascii_alphanumeric] *)
Definition is_alpha (c : Z) : bool := is_lower c || is_upper c.
Definition is_alnum (c : Z) : bool := is_alpha c || is_digit c.

Definition dash : Z := 45.

Definition lower (c : Z) : Z := if is_upper c then (c + 32)%Z else c.
Definition sanitize (c : Z) : Z := if is_alnum c || (c =? dash)%Z then c else dash.

(** [while s.starts_with('-') { s.remove(0); }] *)
Fixpoint trim_start (s : str) : str :=
  match s with
  | c :: s' => if (c =? dash)%Z then trim_start s' else s
  | [] => []
  end.

(** [while s.ends_with('-') { s.pop(); }] *)
Definition trim_end (s : str) : str := reverse (trim_start (reverse s)).

Definition default_name : str := lit "default".

Definition dns1035_safe (name : str) : str :=
  let s := sanitize <$> (lower <$> name) in
  let s := trim_end (trim_start s) in
  match s with
  | [] => default_name
  | c :: _ =>
      let s := if is_alpha c then s else 97%Z :: s in
      let s := if (63 <? length s)%nat then take 63 s else s in
      let s := trim_end s in
      match last s with
      | None => default_name
      | Some l =>
          let s := if is_alnum l then s else removelast s in
          match s with [] => default_name | _ => s end
      end
  end.

Definition function_service_name (class_name : str) (idx total : nat) : str :=
  let base := dns1035_safe class_name in
  if (1 <? total)%nat then base ++ lit "-fn-" ++ dec idx else base.

Definition function_service_url (class_name : str) (idx total : nat) : str :=
  lit "http://" ++ function_service_name class_name idx total ++ lit ":80/".
Definition function_service_url_knative (class_name : str) (idx total : nat) : str :=
  lit "http://" ++ function_service_name class_name idx total ++ lit "/".
Definition function_service_url_fqdn (class_name namespace : str) (idx total : nat) : str :=
  lit "http://" ++ function_service_name class_name idx total ++ lit "." ++ namespace
  ++ lit ".svc.cluster.local/".
Definition function_service_url_knative_fqdn (class_name namespace : str) (idx total : nat) :
    str := function_service_url_fqdn class_name namespace idx total.

End Names.

Example dns_digit : Names.dns1035_safe (lit "9abc") = lit "a9abc".
Proof. reflexivity. Qed.
Example dns_dirty : Names.dns1035_safe (lit "--My_Class!!") = lit "my-class".
Proof. reflexivity. Qed.
Example fn_name : Names.function_service_name (lit "Order") 12 13 = lit "order-fn-12".
Proof. vm_compute. reflexivity. Qed.

(** ** DNS labels *)

Definition label_char (c : Z) : bool :=
  Names.is_lower c || Names.is_digit c || (c =? Names.dash)%Z.

(** RFC 1035 labels as Kubernetes requires them of services: lower-case letters, digits and
    dashes, starting with a letter, not ending with a dash, at most 63 characters. *)
Definition dns_label (s : str) : Prop :=
  length s ≤ 63 ∧ Forall (λ c, label_char c = true) s ∧
  (∃ c, head s = Some c ∧ Names.is_lower c = true) ∧ last s ≠ Some Names.dash.

Lemma range_true a b c : (a <=? c)%Z && (c <=? b)%Z = true ↔ (a ≤ c ≤ b)%Z.
Proof. rewrite andb_true_iff, !Z.leb_le. done. Qed.

(** Decide a statement about classes of characters by arithmetic. *)
Ltac char_lia :=
  unfold label_char, Names.sanitize, Names.lower, Names.is_alnum, Names.is_alpha,
    Names.is_lower, Names.is_upper, Names.is_digit, Names.dash in *;
  repeat match goal with
    | |- context [(?x <=? ?y)%Z] => destruct (Z.leb_spec x y); simpl in *
    | H : context [(?x <=? ?y)%Z] |- _ => destruct (Z.leb_spec x y); simpl in *
    | |- context [(?x =? ?y)%Z] => destruct (Z.eqb_spec x y); simpl in *
    | H : context [(?x =? ?y)%Z] |- _ => destruct (Z.eqb_spec x y); simpl in *
    end; (done || lia || congruence).

Lemma sanitize_lower c : label_char (Names.sanitize (Names.lower c)) = true.
Proof. char_lia. Qed.

Lemma label_char_fixed c : label_char c = true → Names.sanitize (Names.lower c) = c.
Proof. char_lia. Qed.

Lemma trim_start_spec s : ∃ pre,
  s = pre ++ Names.trim_start s ∧ Forall (λ c, c = Names.dash) pre ∧
  head (Names.trim_start s) ≠ Some Names.dash.
Proof.
  induction s as [|c s (pre & E & Hp & Hh)]; simpl; [by exists []|].
  destruct (Z.eqb_spec c Names.dash) as [->|Hne].
  - exists (Names.dash :: pre). split; [simpl; congruence|]. by split; [constructor|].
  - exists []. simpl. split; [done|]. split; [constructor|]. congruence.
Qed.

Lemma trim_start_id s : head s ≠ Some Names.dash → Names.trim_start s = s.
Proof.
  destruct s as [|c s]; simpl; [done|]. intros Hne.
  destruct (Z.eqb_spec c Names.dash); [congruence|done].
Qed.

Lemma head_reverse {A} (s : list A) : head (reverse s) = last s.
Proof. by rewrite <- (reverse_involutive s) at 2; rewrite last_reverse. Qed.

Lemma trim_end_spec s : ∃ suf,
  s = Names.trim_end s ++ suf ∧ Forall (λ c, c = Names.dash) suf ∧
  last (Names.trim_end s) ≠ Some Names.dash.
Proof.
  unfold Names.trim_end. destruct (trim_start_spec (reverse s)) as (pre & E & Hp & Hh).
  exists (reverse pre). split; [|split].
  - rewrite <- reverse_app, <- E. by rewrite reverse_involutive.
  - apply Forall_forall. intros c Hc. rewrite elem_of_reverse in Hc.
    rewrite Forall_forall in Hp. by apply Hp.
  - by rewrite last_reverse.
Qed.

Lemma trim_end_id s : last s ≠ Some Names.dash → Names.trim_end s = s.
Proof.
  intros Hl. unfold Names.trim_end. rewrite trim_start_id by (by rewrite head_reverse).
  apply reverse_involutive.
Qed.

(** Cutting dashes off the end of a label that starts with something else. *)
Lemma trim_end_head s c : head s = Some c → c ≠ Names.dash → head (Names.trim_end s) = Some c.
Proof.
  destruct (trim_end_spec s) as (suf & E & Hs & _). intros Hh Hne.
  destruct (Names.trim_end s) as [|d t] eqn:Et.
  - simpl in E. subst suf. destruct s as [|c' s]; [done|]. simplify_eq/=.
    apply Forall_inv in Hs. by simplify_eq.
  - rewrite E in Hh. by simplify_eq/=.
Qed.

Lemma trim_end_Forall (P : Z → Prop) s : Forall P s → Forall P (Names.trim_end s).
Proof.
  destruct (trim_end_spec s) as (suf & E & _ & _). rewrite E at 1. by intros [? _]%Forall_app.
Qed.

Lemma trim_end_length s : length (Names.trim_end s) ≤ length s.
Proof.
  destruct (trim_end_spec s) as (suf & E & _ & _). rewrite E at 2. rewrite length_app. lia.
Qed.

Lemma default_label : dns_label Names.default_name.
Proof.
  split; [simpl; lia|]. split; [repeat constructor|]. split; [by exists 100%Z|done].
Qed.

(** What is left to do once the text starts with a letter. *)
Lemma finish_label s c :
  Forall (λ c, label_char c = true) s → head s = Some c → Names.is_lower c = true →
  let t := Names.trim_end (if (63 <? length s)%nat then take 63 s else s) in
  dns_label t ∧ ∃ l, last t = Some l ∧ Names.is_alnum l = true.
Proof.
  intros Hall Hh Hc. set (u := if (63 <? length s)%nat then take 63 s else s). intros t.
  assert (Forall (λ c, label_char c = true) u ∧ head u = Some c ∧ length u ≤ 63)
    as (Hu & Hhu & Hlu).
  { unfold u. destruct (Nat.ltb_spec 63 (length s)); [|by repeat split].
    split; [by apply Forall_take|]. split; [by destruct s|]. rewrite length_take. lia. }
  assert (c ≠ Names.dash) as Hcd by (intros ->; done).
  pose proof (trim_end_head u c Hhu Hcd) as Hht. fold t in Hht.
  pose proof (trim_end_Forall _ u Hu) as Hft. fold t in Hft.
  pose proof (trim_end_length u) as Hlt. fold t in Hlt.
  destruct (trim_end_spec u) as (suf & _ & _ & Hlast). fold t in Hlast.
  split.
  { split; [lia|]. split; [done|]. split; [by exists c|done]. }
  destruct (last t) as [l|] eqn:El.
  - exists l. split; [done|]. apply last_Some_elem_of in El.
    rewrite Forall_forall in Hft. apply Hft in El.
    assert (l ≠ Names.dash) by congruence. clear -El H. char_lia.
  - apply last_None in El. by rewrite El in Hht.
Qed.

Lemma dns1035_label name : dns_label (Names.dns1035_safe name).
Proof.
  unfold Names.dns1035_safe. set (s0 := Names.sanitize <$> _).
  assert (Forall (λ c, label_char c = true) s0) as H0.
  { unfold s0. rewrite !Forall_fmap. apply Forall_true. intros c. apply sanitize_lower. }
  destruct (trim_start_spec s0) as (pre & E1 & _ & Hh1).
  assert (Forall (λ c, label_char c = true) (Names.trim_start s0)) as H1
    by (rewrite E1 in H0; by apply Forall_app in H0 as [_ ?]).
  pose proof (trim_end_Forall _ _ H1) as H2.
  destruct (Names.trim_start s0) as [|d s1] eqn:Es1.
  { apply default_label. }
  assert (d ≠ Names.dash) as Hd by (intros ->; by apply Hh1).
  pose proof (trim_end_head (d :: s1) d eq_refl Hd) as Hh2.
  destruct (Names.trim_end (d :: s1)) as [|c s2] eqn:Es2; [apply default_label|].
  injection Hh2 as ->. apply Forall_cons in H2 as Hd2. destruct Hd2 as [Hdl _].
  set (s3 := if Names.is_alpha d then d :: s2 else 97%Z :: d :: s2).
  assert (∃ c', Forall (λ c, label_char c = true) s3 ∧ head s3 = Some c' ∧
                Names.is_lower c' = true) as (c' & H3 & Hh3 & Hl3).
  { unfold s3. destruct (Names.is_alpha d) eqn:Ea.
    - exists d. split; [done|]. split; [done|]. clear -Ea Hdl. char_lia.
    - exists 97%Z. split; [by constructor|done]. }
  destruct (finish_label s3 c' H3 Hh3 Hl3) as (Hlab & l & Hlast & Hal).
  rewrite Hlast, Hal.
  destruct (Names.trim_end (if (63 <? length s3)%nat then take 63 s3 else s3)); [|done].
  by destruct Hlab as (_ & _ & (? & ? & _) & _).
Qed.

Lemma dns1035_fixed s : dns_label s → Names.dns1035_safe s = s.
Proof.
  intros (Hlen & Hall & (c & Hh & Hc) & Hlast). unfold Names.dns1035_safe.
  assert (Names.sanitize <$> (Names.lower <$> s) = s) as ->.
  { clear -Hall. induction Hall as [|d s Hd _ IH]; [done|].
    rewrite !fmap_cons, IH. by rewrite label_char_fixed. }
  rewrite trim_start_id by (rewrite Hh; intros [= ->]; done).
  rewrite (trim_end_id s) by done. destruct s as [|d s]; [done|]. injection Hh as ->.
  assert (Names.is_alpha c = true) as -> by (unfold Names.is_alpha; by rewrite Hc).
  destruct (Nat.ltb_spec 63 (length (c :: s))); [lia|].
  rewrite trim_end_id by done.
  destruct (last (c :: s)) as [l|] eqn:El; [|by apply last_None in El].
  assert (Names.is_alnum l = true) as ->; [|done].
  apply last_Some_elem_of in El. rewrite Forall_forall in Hall. apply Hall in El.
  assert (l ≠ Names.dash) by congruence. clear -El H0. char_lia.
Qed.

(** *** Theorems *)

(** Whatever text a class is named with, [dns1035_safe] gives a valid DNS label, and it
    leaves valid labels, its own results among them, as they are. *)
Theorem dns1035_safe_sound name :
  dns_label (Names.dns1035_safe name) ∧
  (dns_label name ↔ Names.dns1035_safe name = name).
Proof.
  split; [apply dns1035_label|]. split; [apply dns1035_fixed|].
  intros <-. apply dns1035_label.
Qed.

Lemma lit_inj s t : lit s = lit t → s = t.
Proof.
  unfold lit, bs. intros E. apply list_fmap_eq_inj in E; [|intros ??; apply bz_inj].
  rewrite <- (String.string_of_list_byte_of_string s), E.
  apply String.string_of_list_byte_of_string.
Qed.

(** Functions of a class have pairwise different service names. *)
Theorem service_names_distinct class_name total i j :
  i < total → j < total → i ≠ j →
  Names.function_service_name class_name i total
  ≠ Names.function_service_name class_name j total.
Proof.
  intros Hi Hj Hne. unfold Names.function_service_name.
  destruct (Nat.ltb_spec 1 total); [|lia].
  intros E%app_inv_head%app_inv_head%lit_inj. by apply pretty_nat_inj in E.
Qed.

Lemma service_names_distinct_witness :
  Names.function_service_name (lit "Order") 1 12
  ≠ Names.function_service_name (lit "Order") 11 12.
Proof.
  exact (service_names_distinct (lit "Order") 12 1 11 ltac:(lia) ltac:(lia) ltac:(lia)).
Defined.

(** The name of one of several functions need not be a label: the suffix is added after the
    class name was cut to 63 characters. *)
Theorem function_name_too_long class_name i total :
  1 < total → length (Names.dns1035_safe class_name) = 63 →
  ¬ dns_label (Names.function_service_name class_name i total).
Proof.
  intros Ht Hl (Hlen & _). unfold Names.function_service_name in Hlen.
  rewrite (proj2 (Nat.ltb_lt 1 total)) in Hlen by lia.
  rewrite !length_app, Hl in Hlen. simpl in Hlen. lia.
Qed.

Lemma function_name_too_long_witness :
  ¬ dns_label (Names.function_service_name (replicate 63 97%Z) 0 2).
Proof.
  apply (function_name_too_long (replicate 63 97%Z) 0 2); [lia|vm_compute; reflexivity].
Defined.
