(* ===== verification/Json.v ===== *)
(** * JSON values, number parsing and external calls

    [serde_json::Value] with the accessors the control plane uses, the [FromStr] parsers of
    integers and [f64], and calls to services outside the program. A string is the sequence
    of its characters, as in [Routing]. *)

From stdpp Require Import base tactics list numbers option strings.
From Stdlib Require Import ZArith Lia.
From Stdlib Require Import Floats.SpecFloat.
From S2P Require Import Prelude BTree Float64 Routing.

Set Default Proof Using "Type".

(** ** Values *)

Inductive Number : Type :=
| PosInt (n : Z)
| NegInt (n : Z)
| Float (x : f64).

Inductive Value : Type :=
| VNull
| VBool (b : bool)
| VNumber (n : Number)
| VString (s : str)
| VArray (l : list Value)
| VObject (m : btree str Value).

Module Json.

Definition as_u64 (n : Number) : option Z :=
  match n with PosInt n => Some n | _ => None end.

(** [Number::from_f64]: JSON has no infinities and no NaN. *)
Definition from_f64 (x : f64) : option Number :=
  if F64.is_finite x then Some (Float x) else None.

(** [Number::from] of an integer *)
Definition from_int (n : Z) : Number := if (n <? 0)%Z then NegInt n else PosInt n.

Definition get (k : str) (v : Value) : option Value :=
  match v with VObject m => bt_get k m | _ => None end.
Definition as_array (v : Value) : option (list Value) :=
  match v with VArray l => Some l | _ => None end.
Definition as_str (v : Value) : option str :=
  match v with VString s => Some s | _ => None end.

End Json.

(** ** Parsing numbers *)

Module Parse.

Definition digit (c : Z) : option Z := if Names.is_digit c then Some (c - 48)%Z else None.

(** The value of a digit sequence after [acc]; [None] when a character is not a digit. *)
Fixpoint digits (acc : Z) (s : str) : option Z :=
  match s with
  | [] => Some acc
  | c :: s => d ← digit c; digits (10 * acc + d) s
  end.

(** [s.parse()] into an unsigned integer of the given maximum: an optional plus sign and at
    least one digit. *)
Definition unsigned (max : Z) (s : str) : option Z :=
  let s := match s with 43%Z :: s' => s' | _ => s end in
  match s with
  | [] => None
  | _ => n ← digits 0 s; if (n <=? max)%Z then Some n else None
  end.

Definition u32 : str → option Z := unsigned u32_max.
Definition u64 : str → option Z := unsigned u64_max.

(** The leading digits and the rest. *)
Fixpoint span_digits (s : str) : str * str :=
  match s with
  | c :: s' => if Names.is_digit c then let '(d, r) := span_digits s' in (c :: d, r)
               else ([], s)
  | [] => ([], [])
  end.

(** [n * 10^e], rounded once. *)
Definition scale (n e : Z) : f64 :=
  match n with
  | Z.pos p =>
      if (0 <=? e)%Z then F64.of_Z (n * 10 ^ e)
      else match (10 ^ (- e))%Z with
           | Z.pos q => F64.div (S754_finite false p 0) (S754_finite false q 0)
           | _ => F64.zero
           end
  | _ => F64.zero
  end.

Definition exponent (s : str) : option Z :=
  match s with
  | [] => None
  | 45%Z :: s' => match s' with [] => None | _ => Z.opp <$> digits 0 s' end
  | 43%Z :: s' => match s' with [] => None | _ => digits 0 s' end
  | _ => digits 0 s
  end.

(** An unsigned decimal: digits with an optional fraction, at least one digit in all, and an
    optional exponent. *)
Definition decimal (s : str) : option f64 :=
  let '(i, r) := span_digits s in
  let '(f, r) := match r with 46%Z :: r' => span_digits r' | _ => ([], r) end in
  match i ++ f with
  | [] => None
  | ds =>
      n ← digits 0 ds;
      let e := (- Z.of_nat (length f))%Z in
      match r with
      | [] => Some (scale n e)
      | c :: r' => if (Names.lower c =? 101)%Z
                   then x ← exponent r'; Some (scale n (e + x)) else None
      end
  end.

(** [s.parse::<f64>().ok()] *)
Definition f64_of (s : str) : option f64 :=
  let '(neg, s) := match s with
                   | 45%Z :: s' => (true, s')
                   | 43%Z :: s' => (false, s')
                   | _ => (false, s)
                   end in
  let low := Names.lower <$> s in
  x ← (if decide (low = lit "inf" ∨ low = lit "infinity") then Some (S754_infinity false)
       else if decide (low = lit "nan") then Some S754_nan else decimal s);
  Some (if neg then SFopp x else x).

Example parse_decimal : f64_of (lit "0.25") = Some (F64.lit 1 4) ∧
  f64_of (lit "-1.5e3") = Some (F64.of_Z (-1500)) ∧ f64_of (lit ".") = None ∧
  f64_of (lit "NaN") = Some S754_nan ∧ u32 (lit "+07") = Some 7%Z ∧ u32 (lit "4294967296") = None.
Proof. vm_compute. done. Qed.

End Parse.

(** ** Calls to the outside

    What a service answers may depend on everything asked before: an answer is a function of
    the history of requests, the present one last. *)

Section calls.
Context {Req : Type}.

Definition call {E A} (answer : list Req → A) (r : Req) : M (list Req) E A :=
  λ h, (Ok (answer (h ++ [r])), h ++ [r]).

(** A request whose answer is not used. *)
Definition tell {E} (r : Req) : M (list Req) E unit := λ h, (Ok tt, h ++ [r]).
End calls.
