(* ===== verification/Controller.v ===== *)
(** * The class runtime controller

    [control-plane/oprc-crm/src/controller/fsm], [status.rs] and [status_reducer.rs]: the
    pure core of the reconcile loop. From the children observed in the cluster the state
    machine derives the phase of a class runtime and what to do (apply the workload, delete
    orphans); the status of the resource is built from the phase and merged into the
    previous one. Listing and applying Kubernetes objects is outside. *)

From stdpp Require Import base tactics list numbers option gmap strings sorting.
From Stdlib Require Import Lia.
From S2P Require Import Prelude BTree Routing.

Set Default Proof Using "Type".

(** ** The state machine *)

Inductive Phase : Type :=
  Pending | Applying | Progressing | Available | Degraded | Deleting.
#[global] Instance Phase_eq_dec : EqDecision Phase.
Proof. solve_decision. Defined.

Inductive ManagedKind : Type :=
  KDeployment | KService | KKnativeService | KOdgmDeployment | KOdgmService | KHpa.

Record ReadinessResult := {
  result_ready : bool;
  result_reason : option str;
  result_message : option str;
}.

Record ChildStatus := {
  child_name : str;
  child_kind : str;
  child_ready : bool;
  child_reason : option str;
  child_message : option str;
}.

(** [Observed] *)
Notation Observed := (list ChildStatus).

Record ReadinessRule := {
  rule_kind : ManagedKind;
  contributes_to_available : bool;
  evaluator : Observed → ReadinessResult;
}.

Record TemplateDescriptor := {
  desc_id : str;
  managed : list ManagedKind;
  readiness : list ReadinessRule;
  function_namer : str → nat → nat → str;
  label_selector : str → str * str;
  supports_odgm : bool;
}.

Inductive FsmAction : Type :=
| ApplyWorkload
| EnsureMetricsTargets
| DeleteOrphans (names : list str)
| EnforceReplicas (n : Z).

Record EvalInput := {
  in_phase : option Phase;
  in_desc : TemplateDescriptor;
  in_observed : Observed;
  is_deleting : bool;
  generation_changed : bool;
  in_class_name : str;
  functions_total : nat;
}.

Record EvalOutput := { out_phase : Phase; out_actions : list FsmAction }.

Module Fsm.

(** [char::is_whitespace] *)
Definition is_whitespace (c : Z) : bool :=
  ((9 <=? c) && (c <=? 13) || (8192 <=? c) && (c <=? 8202))%Z ||
  bool_decide (c ∈ [32; 133; 160; 5760; 8232; 8233; 8239; 8287; 12288])%Z.

Fixpoint trim_left (s : str) : str :=
  match s with c :: s' => if is_whitespace c then trim_left s' else s | [] => [] end.
(** [str::trim] *)
Definition trim (s : str) : str := reverse (trim_left (reverse (trim_left s))).

(** [Phase::from], and the text the controller writes into the status. *)
Definition phase_from (s : str) : Phase :=
  let s := Names.lower <$> trim s in
  if bool_decide (s = lit "pending") then Pending
  else if bool_decide (s = lit "applying") then Applying
  else if bool_decide (s = lit "progressing") then Progressing
  else if bool_decide (s = lit "available") then Available
  else if bool_decide (s = lit "degraded") then Degraded
  else if bool_decide (s = lit "deleting") then Deleting
  else Progressing.

Definition phase_text (p : Phase) : str :=
  match p with
  | Pending => lit "pending" | Applying => lit "applying"
  | Progressing => lit "progressing" | Available => lit "available"
  | Degraded => lit "degraded" | Deleting => lit "deleting"
  end.

(** The loop over the readiness rules: whether one contributes, and whether all those are
    satisfied. *)
Fixpoint rules_loop (rules : list ReadinessRule) (obs : Observed)
    (any_contributing all_ready : bool) : bool * bool :=
  match rules with
  | [] => (any_contributing, all_ready)
  | rule :: rules =>
      if contributes_to_available rule
      then rules_loop rules obs true (if result_ready (evaluator rule obs) then all_ready else false)
      else rules_loop rules obs any_contributing all_ready
  end.

Definition expected_names (input : EvalInput) : list str :=
  (λ i, function_namer (in_desc input) (in_class_name input) i (functions_total input))
  <$> seq 0 (functions_total input).

(** The kinds of the primary function workloads of a descriptor. *)
Definition function_kinds (kinds : list ManagedKind) : list str :=
  kinds ≫= λ k, match k with
                | KDeployment => [lit "Deployment"]
                | KService => [lit "Service"]
                | KKnativeService => [lit "KnativeService"]
                | KOdgmDeployment | KOdgmService | KHpa => []
                end.

Definition ends_with (suffix s : str) : bool :=
  bool_decide (drop (length s - length suffix) s = suffix).

Definition is_odgm (name : str) : bool :=
  ends_with (lit "-odgm") name || ends_with (lit "-odgm-svc") name.

Fixpoint orphan_loop (kinds expected : list str) (children : Observed) : list str :=
  match children with
  | [] => []
  | c :: children =>
      if is_odgm (child_name c) then orphan_loop kinds expected children
      else if bool_decide (child_kind c ∈ kinds) && negb (bool_decide (child_name c ∈ expected))
      then child_name c :: orphan_loop kinds expected children
      else orphan_loop kinds expected children
  end.

Definition evaluate (input : EvalInput) : EvalOutput :=
  if is_deleting input then {| out_phase := Deleting; out_actions := [] |}
  else if generation_changed input
  then {| out_phase := Applying; out_actions := [ApplyWorkload] |}
  else match in_observed input with
  | [] =>
      if bool_decide (in_phase input = Some Applying ∨ in_phase input = Some Progressing)
         && negb (generation_changed input)
      then {| out_phase := Applying; out_actions := [] |}
      else {| out_phase := Applying; out_actions := [ApplyWorkload] |}
  | _ =>
      let '(any_contributing, all_ready) :=
        rules_loop (readiness (in_desc input)) (in_observed input) false true in
      let orphans := orphan_loop (function_kinds (managed (in_desc input)))
                       (expected_names input) (in_observed input) in
      let actions := match orphans with [] => [] | _ => [DeleteOrphans orphans] end in
      if any_contributing && all_ready
      then {| out_phase := Available; out_actions := actions |}
      else {| out_phase := Progressing; out_actions := actions |}
  end.

(** ** The built-in descriptors *)

Definition owner_selector (class : str) : str * str := (lit "oaas.io/owner", class).

(** The children of a kind, all ready and at least one. *)
Definition kind_ready (kind none : str) (obs : Observed) : ReadinessResult :=
  match filter (λ c, child_kind c = kind) obs with
  | [] => {| result_ready := false; result_reason := Some none; result_message := None |}
  | ds => {| result_ready := forallb child_ready ds; result_reason := None;
             result_message := None |}
  end.

Definition deployments_ready : Observed → ReadinessResult :=
  kind_ready (lit "Deployment") (lit "NoDeployments").
Definition knative_services_ready : Observed → ReadinessResult :=
  kind_ready (lit "KnativeService") (lit "NoKnativeServices").

Definition descriptor_k8s : TemplateDescriptor :=
  {| desc_id := lit "k8s_deployment";
     managed := [KDeployment; KService; KOdgmDeployment; KOdgmService];
     readiness := [{| rule_kind := KDeployment; contributes_to_available := true;
                      evaluator := deployments_ready |}];
     function_namer := Names.function_service_name; label_selector := owner_selector;
     supports_odgm := true |}.

Definition descriptor_knative : TemplateDescriptor :=
  {| desc_id := lit "knative";
     managed := [KKnativeService; KOdgmDeployment; KOdgmService];
     readiness := [{| rule_kind := KKnativeService; contributes_to_available := true;
                      evaluator := knative_services_ready |}];
     function_namer := Names.function_service_name; label_selector := owner_selector;
     supports_odgm := true |}.

End Fsm.

(** ** The status of a class runtime *)

Inductive ConditionType : Type :=
  CAvailable | CProgressing | CDegraded | NfrObserved | TelemetryConfigured
| TelemetryDegraded | CUnknown.
#[global] Instance ConditionType_eq_dec : EqDecision ConditionType.
Proof. solve_decision. Defined.

Inductive ConditionStatus : Type := CTrue | CFalse | CStatusUnknown.

Record Condition := {
  type_ : ConditionType;
  cstatus : ConditionStatus;
  creason : option str;
  cmessage : option str;
  clast_transition_time : option str;
}.

Record FunctionStatus := {
  function_key : str;
  service : str;
  port : Z;
  predicted_url : str;
  observed_url : option str;
  template : str;
  fready : option bool;
  freason : option str;
  fmessage : option str;
  flast_transition_time : option str;
}.

(** [ClassRuntimeStatus]; the parts of the status other controllers write are of any types. *)
Record ClassRuntimeStatus {Ref Recommendations Applied Router : Type} := {
  phase : option str;
  message : option str;
  observed_generation : option Z;
  last_updated : option str;
  conditions : option (list Condition);
  resource_refs : option (list Ref);
  nfr_recommendations : option Recommendations;
  last_applied_recommendations : option (list Applied);
  last_applied_at : option str;
  routers : option (list Router);
  functions : option (list FunctionStatus);
}.
Arguments ClassRuntimeStatus : clear implicits.

Module Status.

Definition phase_condition (p : Phase) : ConditionType * ConditionStatus * string * string :=
  match p with
  | Pending => (CProgressing, CFalse, "Pending", "Awaiting apply")
  | Applying => (CProgressing, CTrue, "Applying", "Applying resources")
  | Progressing => (CProgressing, CTrue, "Progressing", "Waiting for readiness")
  | Available => (CAvailable, CTrue, "Ready", "All readiness rules satisfied")
  | Degraded => (CDegraded, CTrue, "Degraded",
                 "One or more readiness rules failing beyond threshold")
  | Deleting => (CProgressing, CFalse, "Deleting", "Deleting child resources")
  end.

Definition preserved (t : ConditionType) : bool :=
  match t with NfrObserved | TelemetryConfigured | TelemetryDegraded => true | _ => false end.

Definition build_conditions (now : str) (p : Phase) (prev : option (list Condition)) :
    list Condition :=
  let '(ptype, status, reason, msg) := phase_condition p in
  {| type_ := ptype; cstatus := status; creason := Some (lit reason);
     cmessage := Some (lit msg); clast_transition_time := Some now |}
  :: match prev with
     | Some prev_list => filter (λ c, preserved (type_ c) = true) prev_list
     | None => []
     end.

Definition build_telemetry_configured_condition (now : str) (enabled endpoint_present : bool) :
    Condition :=
  let mk t s r m := {| type_ := t; cstatus := s; creason := Some (lit r);
                       cmessage := Some (lit m); clast_transition_time := Some now |} in
  if enabled && endpoint_present
  then mk TelemetryConfigured CTrue "TelemetryEnabled"
         "Telemetry is enabled with valid endpoint"
  else if enabled
  then mk TelemetryDegraded CTrue "NoEndpoint"
         "Telemetry enabled but no OTLP endpoint configured"
  else mk TelemetryConfigured CFalse "TelemetryDisabled" "Telemetry is disabled".

(** [update_function_readiness], for one function. *)
Definition update_readiness (obs : Observed) (f : FunctionStatus) : FunctionStatus :=
  let is_ready := existsb (λ c, bool_decide (child_name c = service f) && child_ready c) obs in
  {| function_key := function_key f; service := service f; port := port f;
     predicted_url := predicted_url f; observed_url := observed_url f;
     template := template f; fready := Some is_ready;
     freason := if is_ready then None else freason f;
     fmessage := if is_ready then None else fmessage f;
     flast_transition_time := flast_transition_time f |}.

Definition update_function_readiness (fs : list FunctionStatus) (obs : Observed) :
    list FunctionStatus := update_readiness obs <$> fs.

Definition cond_rank (t : ConditionType) : nat :=
  match t with
  | CAvailable => 0 | CProgressing => 1 | CDegraded => 2 | NfrObserved => 3
  | TelemetryConfigured => 4 | TelemetryDegraded => 5 | CUnknown => 250
  end.

(** Replace the first condition of the type, or append. *)
Fixpoint upsert (inc : Condition) (out : list Condition) : list Condition :=
  match out with
  | [] => [inc]
  | c :: out => if bool_decide (type_ c = type_ inc) then inc :: out else c :: upsert inc out
  end.

(** [sort_by] is stable. *)
Fixpoint insert_ranked (c : Condition) (l : list Condition) : list Condition :=
  match l with
  | [] => [c]
  | d :: l' => if (cond_rank (type_ c) <=? cond_rank (type_ d))%nat then c :: l
               else d :: insert_ranked c l'
  end.
Definition sort_ranked (l : list Condition) : list Condition := foldr insert_ranked [] l.

Definition upsert_conditions (existing incoming : list Condition) : list Condition :=
  sort_ranked (foldl (λ out inc, upsert inc out) existing incoming).

(** [if d.is_none() { d = c }] *)
Definition or_else {A} (d c : option A) : option A := match d with Some _ => d | None => c end.

Definition merge_function (c d : FunctionStatus) : FunctionStatus :=
  {| function_key := function_key d; service := service d; port := port d;
     predicted_url := predicted_url d; observed_url := or_else (observed_url d) (observed_url c);
     template := template d; fready := or_else (fready d) (fready c);
     freason := or_else (freason d) (freason c); fmessage := or_else (fmessage d) (fmessage c);
     flast_transition_time := or_else (flast_transition_time d) (flast_transition_time c) |}.

Definition merge_into (cur : list FunctionStatus) (d : FunctionStatus) : FunctionStatus :=
  match find (λ f, bool_decide (function_key f = function_key d)) cur with
  | Some c => merge_function c d
  | None => d
  end.

Definition merge_functions (cur des : list FunctionStatus) : list FunctionStatus :=
  merge_into cur <$> des.

Section status.
Context {Ref Recommendations Applied Router : Type}.
Notation S := (ClassRuntimeStatus Ref Recommendations Applied Router).

Definition merge_status (current : option S) (desired : S) : S :=
  match current with
  | None => desired
  | Some cur =>
      {| phase := phase desired; message := message desired;
         observed_generation := observed_generation desired;
         last_updated := last_updated desired;
         conditions := Some (upsert_conditions (default [] (conditions cur))
                               (default [] (conditions desired)));
         resource_refs := or_else (resource_refs desired) (resource_refs cur);
         nfr_recommendations := or_else (nfr_recommendations desired) (nfr_recommendations cur);
         last_applied_recommendations :=
           or_else (last_applied_recommendations desired) (last_applied_recommendations cur);
         last_applied_at := or_else (last_applied_at desired) (last_applied_at cur);
         routers := or_else (routers desired) (routers cur);
         functions :=
           match functions desired with
           | Some des => Some match functions cur with
                              | Some c => merge_functions c des | None => des end
           | None => functions cur
           end |}
  end.

(** [status::progressing]: the status written after an apply; the functions are those of
    [build_function_statuses]. *)
Definition function_status (keys : list str) (name namespace tpl : str) (i : nat) (key : str) :
    FunctionStatus :=
  let total := length keys in
  let svc := Names.function_service_name name i total in
  let kn := bool_decide (Names.lower <$> tpl ∈ [lit "knative"; lit "kn"; lit "knsvc"]) in
  {| function_key := match Fsm.trim key with [] => svc | _ => key end;
     service := svc; port := 80;
     predicted_url := if kn then Names.function_service_url_knative_fqdn name namespace i total
                      else Names.function_service_url_fqdn name namespace i total;
     observed_url := None; template := tpl; fready := None; freason := None;
     fmessage := None; flast_transition_time := None |}.

Definition build_function_statuses (keys : list str) (name namespace tpl : str) :
    option (list FunctionStatus) :=
  match keys with
  | [] => None
  | _ => Some (imap (function_status keys name namespace tpl) keys)
  end.

Definition progressing (now : str) (generation : option Z) (keys : list str)
    (name namespace tpl : str) : S :=
  {| phase := Some (lit "progressing"); message := Some (lit "Applied workload");
     observed_generation := generation; last_updated := Some now;
     conditions := Some [{| type_ := CProgressing; cstatus := CTrue;
                            creason := Some (lit "ApplySuccessful");
                            cmessage := Some (lit "Resources applied");
                            clast_transition_time := Some now |}];
     resource_refs := None; nfr_recommendations := None;
     last_applied_recommendations := None; last_applied_at := None; routers := None;
     functions := build_function_statuses keys name namespace tpl |}.

(** The status part of [reconcile] with the state machine enabled: phase text, conditions
    with a fresh telemetry condition, readiness of the functions, discovered routers, and
    the merge with the previous status. The clock is read three times: [now] for the status,
    [now_c] for the condition of the phase and [now_t] for the telemetry condition. *)
Definition reconcile_status (now now_c now_t : str) (generation : option Z) (keys : list str)
    (name namespace tpl : str) (p : Phase) (telemetry endpoint : bool) (obs : Observed)
    (discovered : list Router) (previous : option S) : S :=
  let st := progressing now generation keys name namespace tpl in
  let conds := build_conditions now_c p (previous ≫= conditions) in
  let conds := filter (λ c, type_ c ≠ TelemetryConfigured ∧ type_ c ≠ TelemetryDegraded) conds
               ++ [build_telemetry_configured_condition now_t telemetry endpoint] in
  let st :=
    {| phase := Some (Fsm.phase_text p); message := message st;
       observed_generation := observed_generation st; last_updated := last_updated st;
       conditions := Some conds; resource_refs := resource_refs st;
       nfr_recommendations := nfr_recommendations st;
       last_applied_recommendations := last_applied_recommendations st;
       last_applied_at := last_applied_at st;
       routers := match discovered with [] => None | _ => Some discovered end;
       functions := match keys with
                    | [] => functions st
                    | _ => (λ fs, update_function_readiness fs obs) <$> functions st
                    end |} in
  merge_status previous st.
End status.

End Status.

(** ** Properties of the state machine *)

Definition builtin (knative : bool) : TemplateDescriptor :=
  if knative then Fsm.descriptor_knative else Fsm.descriptor_k8s.

(** The kind whose readiness decides. *)
Definition primary_kind (knative : bool) : str :=
  lit (if knative then "KnativeService" else "Deployment").

(** At least one workload, and all of them ready. *)
Definition workloads_ready (knative : bool) (obs : Observed) : Prop :=
  Exists (λ c, child_kind c = primary_kind knative) obs ∧
  Forall (λ c, child_kind c = primary_kind knative → child_ready c = true) obs.

Lemma kind_ready_iff kind none obs :
  result_ready (Fsm.kind_ready kind none obs) = true ↔
  Exists (λ c, child_kind c = kind) obs ∧
  Forall (λ c, child_kind c = kind → child_ready c = true) obs.
Proof.
  unfold Fsm.kind_ready.
  assert (Forall (λ c, child_kind c = kind → child_ready c = true) obs ↔
          forallb child_ready (filter (λ c, child_kind c = kind) obs) = true) as ->.
  { rewrite Forall_forall, forallb_forall. setoid_rewrite <- list_elem_of_In.
    setoid_rewrite list_elem_of_filter. naive_solver. }
  assert (Exists (λ c, child_kind c = kind) obs ↔
          filter (λ c, child_kind c = kind) obs ≠ []) as ->.
  { rewrite Exists_exists. split.
    - intros (c & Hin & Hk) E. eapply (not_elem_of_nil c). rewrite <- E.
      by apply list_elem_of_filter.
    - destruct (filter _ obs) as [|c l] eqn:E; [done|]. intros _. exists c.
      assert (c ∈ filter (λ c, child_kind c = kind) obs) as Hc by (rewrite E; left).
      apply list_elem_of_filter in Hc as [? ?]. done. }
  destruct (filter _ obs); simpl; [naive_solver|]. intuition congruence.
Qed.

Lemma builtin_rules knative obs : ∃ r,
  Fsm.rules_loop (readiness (builtin knative)) obs false true = (true, r) ∧
  (r = true ↔ workloads_ready knative obs).
Proof.
  destruct knative; simpl; eexists; (split; [done|]); unfold workloads_ready, primary_kind.
  - rewrite <- (kind_ready_iff _ (lit "NoKnativeServices")).
    unfold Fsm.knative_services_ready. by destruct (result_ready _).
  - rewrite <- (kind_ready_iff _ (lit "NoDeployments")).
    unfold Fsm.deployments_ready. by destruct (result_ready _).
Qed.

(** The expected service names of a class under a built-in template. *)
Lemma builtin_expected knative input : in_desc input = builtin knative →
  Fsm.expected_names input
  = (λ i, Names.function_service_name (in_class_name input) i (functions_total input))
    <$> seq 0 (functions_total input).
Proof. unfold Fsm.expected_names. intros ->. by destruct knative. Qed.

(** An output orders the deletion of a child. *)
Definition deletes (out : EvalOutput) (n : str) : Prop :=
  ∃ names, DeleteOrphans names ∈ out_actions out ∧ n ∈ names.

Lemma orphan_loop_elem kinds expected obs n :
  n ∈ Fsm.orphan_loop kinds expected obs ↔
  ∃ c, c ∈ obs ∧ child_name c = n ∧ child_kind c ∈ kinds ∧
       Fsm.is_odgm n = false ∧ n ∉ expected.
Proof.
  induction obs as [|c obs IH]; simpl.
  { split; [by intros ?%not_elem_of_nil|]. by intros (? & ?%not_elem_of_nil & _). }
  assert ((∃ c', c' ∈ c :: obs ∧ child_name c' = n ∧ child_kind c' ∈ kinds ∧
                 Fsm.is_odgm n = false ∧ n ∉ expected) ↔
          (child_name c = n ∧ child_kind c ∈ kinds ∧ Fsm.is_odgm n = false ∧ n ∉ expected) ∨
          n ∈ Fsm.orphan_loop kinds expected obs) as ->.
  { rewrite IH. split.
    - intros (c' & [->|Hin]%elem_of_cons & H); [by left|right; by exists c'].
    - intros [H|(c' & Hin & H)]; [exists c; split; [left|done]|].
      exists c'. split; [by right|done]. }
  destruct (Fsm.is_odgm (child_name c)) eqn:Eo.
  { split; [by right|]. intros [(<- & _ & ? & _)|?]; [congruence|done]. }
  case_bool_decide as Hk; simpl.
  - case_bool_decide as He; simpl.
    + split; [by right|]. by intros [(<- & _ & _ & ?)|?].
    + rewrite elem_of_cons. split.
      * intros [->|?]; [by left|by right].
      * intros [(-> & _)|?]; [by left|by right].
  - split; [by right|]. by intros [(_ & ? & _)|?].
Qed.

(** *** Theorems *)

(** The phase of a class runtime under a built-in template is a function of what is
    observed: deleting, applying while the specification is new or nothing exists yet,
    available exactly when the template has a workload and all its workloads are ready, and
    progressing otherwise; and the workload is applied exactly for a new specification, or
    when nothing exists and no apply is already under way. *)
Theorem evaluate_builtin knative input :
  in_desc input = builtin knative →
  let out := Fsm.evaluate input in
  (out_phase out = Deleting ↔ is_deleting input = true) ∧
  (out_phase out = Applying ↔
     is_deleting input = false ∧ (generation_changed input = true ∨ in_observed input = [])) ∧
  (out_phase out = Available ↔
     is_deleting input = false ∧ generation_changed input = false ∧
     workloads_ready knative (in_observed input)) ∧
  out_phase out ≠ Pending ∧ out_phase out ≠ Degraded ∧
  (ApplyWorkload ∈ out_actions out ↔
     is_deleting input = false ∧
     (generation_changed input = true ∨
      in_observed input = [] ∧ in_phase input ≠ Some Applying ∧
      in_phase input ≠ Some Progressing)).
Proof.
  intros Hd. unfold Fsm.evaluate. rewrite Hd.
  destruct (builtin_rules knative (in_observed input)) as (r & Er & Hr). rewrite Er.
  assert (∀ l, ApplyWorkload ∉ match l with [] => [] | _ => [DeleteOrphans l] end) as Ha.
  { intros [|x l]; [apply not_elem_of_nil|]. by rewrite list_elem_of_singleton. }
  assert (in_observed input = [] → ¬ workloads_ready knative (in_observed input)) as Hnil.
  { intros -> [He _]. by apply Exists_nil in He. }
  destruct (is_deleting input); simpl; [rewrite elem_of_nil; intuition congruence|].
  destruct (generation_changed input); simpl;
    [rewrite list_elem_of_singleton; intuition congruence|].
  destruct (in_observed input) as [|c obs].
  - case_bool_decide; simpl; rewrite ?elem_of_nil, ?list_elem_of_singleton;
      intuition congruence.
  - specialize (Ha (Fsm.orphan_loop (Fsm.function_kinds (managed (builtin knative)))
      (Fsm.expected_names input) (c :: obs))).
    destruct r; simpl; intuition congruence.
Qed.

(** Orphan deletion is exact: while a runtime is neither being deleted nor reapplied, a name
    is ordered to be deleted exactly when an observed child of one of the template's
    function kinds has it, it is not an ODGM resource and not one of the expected names; so
    under the built-in templates no service of a function of the class is ever deleted. *)
Theorem orphans_exact input n :
  (deletes (Fsm.evaluate input) n ↔
   is_deleting input = false ∧ generation_changed input = false ∧
   ∃ c, c ∈ in_observed input ∧ child_name c = n ∧
        child_kind c ∈ Fsm.function_kinds (managed (in_desc input)) ∧
        Fsm.is_odgm n = false ∧ n ∉ Fsm.expected_names input) ∧
  (∀ knative i, in_desc input = builtin knative → i < functions_total input →
   ¬ deletes (Fsm.evaluate input)
       (Names.function_service_name (in_class_name input) i (functions_total input))).
Proof.
  assert (∀ n, deletes (Fsm.evaluate input) n ↔
    is_deleting input = false ∧ generation_changed input = false ∧
    n ∈ Fsm.orphan_loop (Fsm.function_kinds (managed (in_desc input)))
          (Fsm.expected_names input) (in_observed input)) as Hd.
  { clear n. intros n. unfold Fsm.evaluate, deletes.
    destruct (is_deleting input); simpl.
    { split; [by intros (? & ?%not_elem_of_nil & _)|]. by intros [? _]. }
    destruct (generation_changed input); simpl.
    { split; [by intros (? & ?%list_elem_of_singleton & _)|]. by intros (_ & ? & _). }
    destruct (in_observed input) as [|c obs].
    { split; [|by intros (_ & _ & ?%not_elem_of_nil)].
      case_bool_decide; simpl; [by intros (? & ?%not_elem_of_nil & _)|].
      by intros (? & ?%list_elem_of_singleton & _). }
    destruct (Fsm.rules_loop _ _ _ _) as [any all].
    set (l := Fsm.orphan_loop _ _ _).
    assert (out_actions (if any && all
      then {| out_phase := Available;
              out_actions := match l with [] => [] | _ => [DeleteOrphans l] end |}
      else {| out_phase := Progressing;
              out_actions := match l with [] => [] | _ => [DeleteOrphans l] end |})
      = match l with [] => [] | _ => [DeleteOrphans l] end) as -> by by destruct (any && all).
    clearbody l. destruct l as [|x l].
    { split; [by intros (? & ?%not_elem_of_nil & _)|]. by intros (_ & _ & ?%not_elem_of_nil). }
    split; [by intros (? & [= ->]%list_elem_of_singleton & ?)|].
    intros (_ & _ & ?). eexists. split; [by apply list_elem_of_singleton|done]. }
  split; [by rewrite Hd, orphan_loop_elem|]. intros knative i Hb Hi.
  rewrite Hd, orphan_loop_elem. intros (_ & _ & c & _ & _ & _ & _ & Hne). apply Hne.
  rewrite (builtin_expected knative) by done. apply list_elem_of_fmap. exists i.
  split; [done|]. apply elem_of_seq. lia.
Qed.

(** The phase written into the status is the phase read back from it. *)
Theorem phase_text_roundtrip p : Fsm.phase_from (Fsm.phase_text p) = p.
Proof. destruct p; vm_compute; reflexivity. Qed.

(** ** Properties of the status *)

(** The first condition of a type. *)
Definition cond_get (t : ConditionType) (l : list Condition) : option Condition :=
  find (λ c, bool_decide (type_ c = t)) l.

Definition one_per_type (l : list Condition) : Prop := NoDup (type_ <$> l).

Lemma cond_get_elem t c l : one_per_type l → cond_get t l = Some c ↔ c ∈ l ∧ type_ c = t.
Proof.
  unfold one_per_type, cond_get. induction l as [|d l IH]; simpl.
  { split; [done|]. by intros [?%not_elem_of_nil _]. }
  intros [Hd Hn]%NoDup_cons. rewrite elem_of_cons. case_bool_decide as E.
  - split; [intros [= ->]; by split; [left|]|]. intros [[->|Hin] Ht]; [done|].
    exfalso. apply Hd. rewrite E, <- Ht. by apply list_elem_of_fmap_2.
  - rewrite IH by done. split; [naive_solver|]. intros [[->|?] ?]; [congruence|done].
Qed.

Lemma upsert_get t inc l :
  cond_get t (Status.upsert inc l) = if decide (t = type_ inc) then Some inc else cond_get t l.
Proof.
  unfold cond_get. induction l as [|c l IH]; simpl.
  { case_bool_decide; case_decide; congruence. }
  case_bool_decide as E; simpl.
  - destruct (decide (t = type_ inc)) as [->|Hne].
    + by rewrite bool_decide_true.
    + by rewrite !bool_decide_false by congruence.
  - rewrite IH. case_bool_decide as F; [|done]. rewrite decide_False by congruence. done.
Qed.

Lemma upsert_elem_type t inc l :
  t ∈ type_ <$> Status.upsert inc l ↔ t = type_ inc ∨ t ∈ type_ <$> l.
Proof.
  induction l as [|c l IH]; simpl.
  { rewrite list_elem_of_singleton, elem_of_nil. tauto. }
  case_bool_decide as E; simpl; rewrite !elem_of_cons, ?IH, ?E; tauto.
Qed.

Lemma upsert_one_per_type inc l : one_per_type l → one_per_type (Status.upsert inc l).
Proof.
  unfold one_per_type. induction l as [|c l IH]; simpl.
  { intros _. repeat constructor. apply not_elem_of_nil. }
  intros [Hc Hn]%NoDup_cons. case_bool_decide as E; simpl; apply NoDup_cons.
  - by rewrite <- E.
  - split; [|by apply IH]. by rewrite upsert_elem_type; intros [?|?].
Qed.

Lemma upserts_one_per_type incoming l :
  one_per_type l → one_per_type (foldl (λ out inc, Status.upsert inc out) l incoming).
Proof.
  revert l. induction incoming as [|inc incoming IH]; intros l Hl; simpl; [done|].
  by apply IH, upsert_one_per_type.
Qed.

Lemma upserts_get t incoming l :
  cond_get t (foldl (λ out inc, Status.upsert inc out) l incoming)
  = match cond_get t (reverse incoming) with Some c => Some c | None => cond_get t l end.
Proof.
  induction incoming as [|inc incoming IH] using rev_ind; [done|].
  rewrite foldl_snoc, upsert_get, IH, reverse_snoc. unfold cond_get at 3. simpl.
  case_decide; case_bool_decide; congruence || done.
Qed.

(** *** Sorting by rank *)

Definition rank (c : Condition) : Z := Z.of_nat (Status.cond_rank (type_ c)).

Lemma rank_inj c d : rank c = rank d → type_ c = type_ d.
Proof. unfold rank. by destruct (type_ c), (type_ d). Qed.

Lemma insert_ranked_perm c l : Status.insert_ranked c l ≡ₚ c :: l.
Proof.
  induction l as [|d l IH]; simpl; [done|]. destruct (_ <=? _)%nat; [done|].
  rewrite IH. apply Permutation_swap.
Qed.

Lemma sort_ranked_perm l : Status.sort_ranked l ≡ₚ l.
Proof. induction l as [|c l IH]; simpl; [done|]. by rewrite insert_ranked_perm, IH. Qed.

Definition rank_le (c d : Condition) : Prop := (rank c ≤ rank d)%Z.

Lemma insert_ranked_sorted c l :
  StronglySorted rank_le l → StronglySorted rank_le (Status.insert_ranked c l).
Proof.
  induction 1 as [|d l Hl IH Hall]; simpl; [repeat constructor|].
  destruct (Nat.leb_spec (Status.cond_rank (type_ c)) (Status.cond_rank (type_ d))).
  - constructor; [by constructor|]. constructor; [unfold rank_le, rank; lia|].
    eapply Forall_impl; [exact Hall|]. unfold rank_le, rank. lia.
  - constructor; [done|]. rewrite insert_ranked_perm. constructor; [|done].
    unfold rank_le, rank. lia.
Qed.

Lemma sort_ranked_sorted l : StronglySorted rank_le (Status.sort_ranked l).
Proof. induction l; simpl; [constructor|by apply insert_ranked_sorted]. Qed.

Lemma upsert_conditions_one_per_type ex inc :
  one_per_type ex → one_per_type (Status.upsert_conditions ex inc).
Proof.
  intros H. unfold one_per_type, Status.upsert_conditions. rewrite sort_ranked_perm.
  by apply upserts_one_per_type.
Qed.

(** The last incoming condition of a type replaces the existing one; the others stay. *)
Lemma upsert_conditions_get t ex inc : one_per_type ex →
  cond_get t (Status.upsert_conditions ex inc)
  = match cond_get t (reverse inc) with Some c => Some c | None => cond_get t ex end.
Proof.
  intros Hex. rewrite <- upserts_get. apply option_eq. intros c.
  rewrite !cond_get_elem by (by apply upsert_conditions_one_per_type || by apply upserts_one_per_type).
  unfold Status.upsert_conditions. by rewrite sort_ranked_perm.
Qed.

(** A sorted list with one condition per type is determined by its lookups. *)
Lemma ranked_wf l : StronglySorted rank_le l → one_per_type l →
  bt_wf ((λ c, (rank c, c)) <$> l).
Proof.
  unfold one_per_type. induction 1 as [|c l Hl IH Hall]; simpl; [constructor|].
  intros [Hc Hn]%NoDup_cons. apply bt_wf_cons; [by apply IH|].
  rewrite Forall_fmap. apply Forall_forall. intros d Hd. simpl.
  rewrite Forall_forall in Hall. apply Hall in Hd as Hle. unfold rank_le in Hle.
  unfold cmp. simpl. apply Z.compare_lt_iff.
  destruct (Z.eq_dec (rank c) (rank d)) as [E|]; [|lia]. exfalso. apply Hc.
  rewrite (rank_inj _ _ E). by apply list_elem_of_fmap_2.
Qed.

Lemma ranked_ext l1 l2 :
  StronglySorted rank_le l1 → StronglySorted rank_le l2 → one_per_type l1 → one_per_type l2 →
  (∀ t, cond_get t l1 = cond_get t l2) → l1 = l2.
Proof.
  intros S1 S2 O1 O2 Hget.
  assert ((λ c, (rank c, c)) <$> l1 = (λ c, (rank c, c)) <$> l2) as E.
  { apply bt_ext; [by apply ranked_wf..|]. intros k. apply option_eq. intros c.
    rewrite !bt_get_elem by (by apply ranked_wf). rewrite !list_elem_of_fmap.
    assert (∀ c, c ∈ l1 ↔ c ∈ l2) as Hin.
    { intros d. specialize (Hget (type_ d)). pose proof (cond_get_elem (type_ d) d l1 O1).
      pose proof (cond_get_elem (type_ d) d l2 O2). rewrite Hget in H. tauto. }
    setoid_rewrite Hin. done. }
  apply (f_equal (fmap snd)) in E. rewrite <- !list_fmap_compose in E.
  by rewrite !list_fmap_id in E.
Qed.

Lemma upsert_conditions_idemp ex inc : one_per_type ex →
  Status.upsert_conditions (Status.upsert_conditions ex inc) inc
  = Status.upsert_conditions ex inc.
Proof.
  intros Hex. pose proof (upsert_conditions_one_per_type ex inc Hex) as H1.
  apply ranked_ext; [apply sort_ranked_sorted..|by apply upsert_conditions_one_per_type|done|].
  intros t. rewrite !upsert_conditions_get by done. by destruct (cond_get t (reverse inc)).
Qed.

(** *** Functions *)

Lemma or_else_idemp {A} (d c : option A) :
  Status.or_else d (Status.or_else d c) = Status.or_else d c.
Proof. by destruct d. Qed.

Lemma merge_into_key cur d : function_key (Status.merge_into cur d) = function_key d.
Proof. unfold Status.merge_into. by destruct (find _ cur). Qed.

Lemma find_key_merged cur des d : NoDup (function_key <$> des) → d ∈ des →
  find (λ f, bool_decide (function_key f = function_key d)) (Status.merge_functions cur des)
  = Some (Status.merge_into cur d).
Proof.
  unfold Status.merge_functions. induction des as [|e des IH]; [by intros _ ?%not_elem_of_nil|].
  rewrite !fmap_cons. cbn [find]. rewrite merge_into_key.
  intros [He Hn]%NoDup_cons [->|Hin]%elem_of_cons.
  - by rewrite bool_decide_true.
  - rewrite bool_decide_false; [by apply IH|]. intros E. apply He. rewrite E.
    by apply list_elem_of_fmap_2.
Qed.

Lemma merge_functions_idemp cur des : NoDup (function_key <$> des) →
  Status.merge_functions (Status.merge_functions cur des) des = Status.merge_functions cur des.
Proof.
  intros Hn. unfold Status.merge_functions at 1 3. apply list_fmap_ext. intros i d Hd.
  unfold Status.merge_into at 1.
  rewrite (find_key_merged cur des d Hn) by (by eapply list_elem_of_lookup_2).
  unfold Status.merge_into. destruct (find _ cur) as [c|].
  - unfold Status.merge_function. simpl. by rewrite !or_else_idemp.
  - unfold Status.merge_function. by destruct d as [? ? ? ? [] ? [] [] [] []].
Qed.

Lemma merge_functions_self des : NoDup (function_key <$> des) →
  Status.merge_functions des des = des.
Proof.
  intros Hn. pose proof (merge_functions_idemp [] des Hn) as E.
  assert (Status.merge_functions [] des = des) as Hd by (apply list_fmap_id).
  by rewrite Hd in E.
Qed.

(** *** The conditions of a reconciliation *)

Lemma cond_get_app t l k :
  cond_get t (l ++ k) = match cond_get t l with Some c => Some c | None => cond_get t k end.
Proof.
  unfold cond_get. induction l as [|c l IH]; simpl; [done|]. by case_bool_decide.
Qed.

Lemma cond_get_cons t c l :
  cond_get t (c :: l) = if decide (type_ c = t) then Some c else cond_get t l.
Proof. unfold cond_get. simpl. by case_bool_decide; case_decide. Qed.

(** The conditions taken over from the previous status. *)
Lemma kept_get t prev : one_per_type prev →
  cond_get t (reverse (filter (λ c, type_ c ≠ TelemetryConfigured ∧ type_ c ≠ TelemetryDegraded)
                        (filter (λ c, Status.preserved (type_ c) = true) prev)))
  = if decide (t = NfrObserved) then cond_get t prev else None.
Proof.
  intros Hp. set (G := filter _ (filter _ prev)).
  assert (∀ c, c ∈ reverse G ↔ c ∈ prev ∧ type_ c = NfrObserved) as HG.
  { intros c. unfold G. rewrite elem_of_reverse, !list_elem_of_filter.
    destruct (type_ c); simpl; intuition congruence. }
  assert (one_per_type (reverse G)) as HO.
  { unfold one_per_type. rewrite reverse_Permutation. unfold G, one_per_type in *.
    eapply sublist_NoDup; [exact Hp|]. apply fmap_sublist.
    etransitivity; apply sublist_filter. }
  apply option_eq. intros c. rewrite cond_get_elem, HG by done.
  case_decide as Ht; [rewrite cond_get_elem by done; subst; tauto|].
  split; [intros [[_ ?] ?]; congruence|done].
Qed.

Definition phase_cond (now : str) (p : Phase) : Condition :=
  let '(ptype, status, reason, msg) := Status.phase_condition p in
  {| type_ := ptype; cstatus := status; creason := Some (lit reason);
     cmessage := Some (lit msg); clast_transition_time := Some now |}.

Section theorems.
Context {Ref Recommendations Applied Router : Type}.
Notation S := (ClassRuntimeStatus Ref Recommendations Applied Router).

(** Merging is stable: once the desired status has been merged into a status with one
    condition per type, merging it again changes nothing, so an unchanged cluster does not
    make the controller rewrite the status. *)
Theorem merge_status_stable (cur desired : S) :
  one_per_type (default [] (conditions cur)) →
  NoDup (function_key <$> default [] (functions desired)) →
  let merged := Status.merge_status (Some cur) desired in
  Status.merge_status (Some merged) desired = merged ∧
  one_per_type (default [] (conditions merged)).
Proof.
  intros Hc Hf. simpl. split; [|by apply upsert_conditions_one_per_type].
  rewrite upsert_conditions_idemp by done. unfold Status.merge_status; simpl.
  rewrite !or_else_idemp. f_equal. destruct (functions desired) as [des|]; [|done].
  simpl in Hf. f_equal. destruct (functions cur) as [fs|].
  - by apply merge_functions_idemp.
  - by apply merge_functions_self.
Qed.

(** The conditions after a reconciliation: one per type; the condition of the current phase
    and the telemetry condition are fresh, and every other condition is the one of the
    previous status. In particular the condition of an earlier phase of another type stays:
    a runtime that was available and is progressing again shows both as true. *)
Theorem reconcile_conditions now now_c now_t gen keys name ns tpl p tel ep obs disc (prev : S) t :
  one_per_type (default [] (conditions prev)) →
  let st := Status.reconcile_status now now_c now_t gen keys name ns tpl p tel ep obs disc
              (Some prev) in
  let tc := Status.build_telemetry_configured_condition now_t tel ep in
  one_per_type (default [] (conditions st)) ∧
  cond_get t (default [] (conditions st))
  = if decide (t = type_ (phase_cond now_c p)) then Some (phase_cond now_c p)
    else if decide (t = type_ tc) then Some tc
    else cond_get t (default [] (conditions prev)).
Proof.
  intros Hp st tc. unfold st, Status.reconcile_status. simpl.
  split; [by apply upsert_conditions_one_per_type|].
  rewrite upsert_conditions_get by done.
  set (pc := phase_cond now_c p). set (old := default [] (conditions prev)) in *.
  assert (Status.build_conditions now_c p (conditions prev)
          = pc :: filter (λ c, Status.preserved (type_ c) = true) old) as ->.
  { unfold Status.build_conditions, pc, phase_cond, old.
    destruct (Status.phase_condition p) as [[[??]?]?]. by destruct (conditions prev). }
  assert (type_ pc ≠ TelemetryConfigured ∧ type_ pc ≠ TelemetryDegraded ∧
          type_ pc ≠ NfrObserved) as (N1 & N2 & N3).
  { unfold pc. by destruct p. }
  rewrite filter_cons_True by done. rewrite reverse_snoc, reverse_cons. fold tc.
  rewrite cond_get_cons, cond_get_app, kept_get, cond_get_cons by done.
  assert (type_ tc ≠ type_ pc ∧ type_ tc ≠ NfrObserved) as [N4 N5].
  { unfold tc, Status.build_telemetry_configured_condition. destruct tel, ep; simpl;
      split; congruence. }
  change (cond_get t []) with (@None Condition).
  repeat case_decide; subst; try congruence; try done; by destruct (cond_get _ old).
Qed.
End theorems.

(** ** An example runtime *)
Module DemoRuntime.
Definition child (name kind : string) (r : bool) : ChildStatus :=
  {| child_name := lit name; child_kind := lit kind; child_ready := r;
     child_reason := None; child_message := None |}.

Definition input (obs : Observed) (ph : option Phase) : EvalInput :=
  {| in_phase := ph; in_desc := Fsm.descriptor_k8s; in_observed := obs; is_deleting := false;
     generation_changed := false; in_class_name := lit "Order"; functions_total := 1 |}.

Definition ready_obs : Observed :=
  [child "order" "Deployment" true; child "order-odgm" "Deployment" true;
   child "order-fn-1" "Deployment" true].

Lemma evaluate_builtin_witness :
  out_phase (Fsm.evaluate (input [] None)) = Applying ∧
  ApplyWorkload ∈ out_actions (Fsm.evaluate (input [] None)).
Proof.
  destruct (evaluate_builtin false (input [] None) eq_refl) as (_ & H1 & _ & _ & _ & H2).
  split; [apply H1|apply H2]; (split; [reflexivity|right]); done.
Defined.

(** The former second function is an orphan, the ODGM deployment is not. *)
Example orphan_found :
  Fsm.evaluate (input ready_obs (Some Progressing))
  = {| out_phase := Available; out_actions := [DeleteOrphans [lit "order-fn-1"]] |}.
Proof. vm_compute. reflexivity. Qed.

Notation status := (ClassRuntimeStatus unit unit unit unit).

Definition available_status : status :=
  Status.reconcile_status (lit "t0") (lit "t0") (lit "t0") (Some 1%Z) [lit "create"]
    (lit "Order") (lit "default")
    (lit "k8s_deployment") Available false false ready_obs [] None.

Lemma available_one : one_per_type (default [] (conditions available_status)).
Proof. apply (bool_decide_unpack _). vm_compute. exact I. Qed.

Definition desired_status : status :=
  Status.progressing (lit "t1") (Some 1%Z) [lit "create"] (lit "Order") (lit "default")
    (lit "k8s_deployment").

Lemma desired_keys : NoDup (function_key <$> default [] (functions desired_status)).
Proof. apply (bool_decide_unpack _). vm_compute. exact I. Qed.

Lemma merge_status_stable_witness :
  let merged := Status.merge_status (Some available_status) desired_status in
  Status.merge_status (Some merged) desired_status = merged.
Proof.
  exact (proj1 (merge_status_stable available_status desired_status available_one
    desired_keys)).
Defined.

(** The runtime was available and is progressing: the old condition stays true. *)
Lemma reconcile_conditions_witness :
  let st := Status.reconcile_status (lit "t1") (lit "t2") (lit "t3") (Some 1%Z) [lit "create"]
    (lit "Order") (lit "default") (lit "k8s_deployment") Progressing false false [] []
    (Some available_status) in
  cstatus <$> cond_get CAvailable (default [] (conditions st)) = Some CTrue ∧
  cstatus <$> cond_get CProgressing (default [] (conditions st)) = Some CTrue.
Proof.
  split.
  - rewrite (proj2 (reconcile_conditions (lit "t1") (lit "t2") (lit "t3") (Some 1%Z)
      [lit "create"] (lit "Order") (lit "default") (lit "k8s_deployment") Progressing false
      false [] [] available_status
      CAvailable available_one)). reflexivity.
  - reflexivity.
Defined.
End DemoRuntime.
