(* ===== verification/Enforcer.v ===== *)
(** * Analysis and enforcement of non-functional requirements

    [control-plane/oprc-crm/src/controller/enforcer.rs], [analyzer.rs], [hpa_helper.rs],
    [types.rs] and the analyzer of [nfr/mod.rs]: the analyzer turns measurements into
    recommendations in the status of a class runtime, the enforcer applies the recommended
    number of replicas once it has been stable for a while and then pauses. Kubernetes and
    Prometheus are external calls; instants are nanoseconds. *)

From stdpp Require Import base tactics list numbers option gmap strings.
From Stdlib Require Import ZArith Lia.
From S2P Require Import Prelude BTree Float64 Routing Json Controller.

Set Default Proof Using "Type".

(** ** The decision *)

Inductive EnforceDecision : Type := SkipCooldown | SkipStability | Apply.
#[global] Instance EnforceDecision_eq_dec : EqDecision EnforceDecision.
Proof. solve_decision. Defined.

Record StabilityState := {
  last_target : option Z;
  since : option Z;
  cooldown_until : option Z;
}.

(** Instants and durations of the chrono library: [plus_seconds t s] is [t +
    Duration::seconds(s)], which may panic, and [num_seconds] the whole seconds of a duration
    in nanoseconds. *)
Class Chrono := {
  plus_seconds : Z → Z → option Z;
  num_seconds : Z → Z;
}.

Definition ns : Z := 10 ^ 9.

Class ChronoLaws `{Chrono} := {
  plus_seconds_spec t s t' : plus_seconds t s = Some t' → t' = (t + s * ns)%Z;
  num_seconds_spec d : num_seconds d = Z.quot d ns;
}.

(** [x as i64] of a [u64] *)
Definition as_i64 (z : Z) : Z := if (z <? 2 ^ 63)%Z then z else (z - 2 ^ 64)%Z.

Module Enforce.

Definition default_state : StabilityState :=
  {| last_target := None; since := None; cooldown_until := None |}.

Section eval.
Context `{Chrono}.

Definition cooling (now : Z) (st : StabilityState) : bool :=
  match cooldown_until st with Some until => (now <? until)%Z | None => false end.

Definition eval_enforce (target now stability_secs cooldown_secs : Z) :
    M StabilityState Empty_set EnforceDecision := λ st,
  if cooling now st then (Ok SkipCooldown, st)
  else if decide (last_target st = Some target) then
    match since st with
    | None => (Ok SkipStability, {| last_target := last_target st; since := Some now;
                                    cooldown_until := cooldown_until st |})
    | Some since =>
        if (stability_secs <=? wrap64 (num_seconds (now - since)))%Z then
          match plus_seconds now (as_i64 cooldown_secs) with
          | Some until => (Ok Apply, {| last_target := last_target st; since := None;
                                        cooldown_until := Some until |})
          | None => (Panic "TimeDelta::seconds out of bounds",
                     {| last_target := last_target st; since := None;
                        cooldown_until := cooldown_until st |})
          end
        else (Ok SkipStability, st)
    end
  else (Ok SkipStability, {| last_target := Some target; since := Some now;
                             cooldown_until := cooldown_until st |}).
End eval.

End Enforce.

(** ** Observations over time *)

Record Tick := { tk_target : Z; tk_now : Z; tk_decision : EnforceDecision }.

Section trace.
Context `{HC : !Chrono, HL : !ChronoLaws} (stability cooldown : Z).

(** The decisions taken on a class runtime since the enforcer started, the latest first, with
    a clock that does not run backwards. *)
Inductive run : list Tick → StabilityState → Prop :=
| run_start : run [] Enforce.default_state
| run_tick h st target now d st' :
    run h st → Forall (λ t, tk_now t ≤ now)%Z h →
    Enforce.eval_enforce target now stability cooldown st = (Ok d, st') →
    run ({| tk_target := target; tk_now := now; tk_decision := d |} :: h) st'.

(** An apply lies at least the cooldown before [w]. *)
Definition cooled (w : Z) (t : Tick) : Prop :=
  tk_decision t = Apply → (tk_now t + cooldown * ns ≤ w)%Z.

(** What the state says about the past. *)
Record trace_inv (h : list Tick) (st : StabilityState) : Prop := {
  inv_cooldown : Forall (λ t, tk_decision t = Apply →
    ∃ u, cooldown_until st = Some u ∧ tk_now t + cooldown * ns ≤ u)%Z h;
  inv_window w : since st = Some w → ∃ x window older first,
    last_target st = Some x ∧ h = window ++ older ∧ last window = Some first ∧
    tk_now first = w ∧
    Forall (λ t, tk_target t = x ∧ tk_decision t = SkipStability) window ∧
    Forall (cooled w) older ∧
    Enforce.cooling w st = false;
}.

Context (Hcool : (0 ≤ cooldown < 2 ^ 63)%Z) (Hstab : (0 ≤ stability)%Z).

Lemma cooled_of_cooldown h st now :
  Forall (λ t, tk_decision t = Apply →
    ∃ u, cooldown_until st = Some u ∧ tk_now t + cooldown * ns ≤ u)%Z h →
  Enforce.cooling now st = false → Forall (cooled now) h.
Proof.
  intros Hh Hc. eapply Forall_impl; [exact Hh|]. intros t Ht Ha.
  destruct (Ht Ha) as (u & Hu & Hle). unfold Enforce.cooling in Hc. rewrite Hu in Hc.
  apply Z.ltb_ge in Hc. lia.
Qed.

(** A window that has just been opened. *)
Lemma fresh_window h st st' x now :
  trace_inv h st → Enforce.cooling now st = false →
  st' = {| last_target := Some x; since := Some now; cooldown_until := cooldown_until st |} →
  trace_inv ({| tk_target := x; tk_now := now; tk_decision := SkipStability |} :: h) st'.
Proof.
  intros [Hcd _] Hc ->. split; simpl.
  - constructor; [done|]. exact Hcd.
  - intros w [= <-]. exists x, [{| tk_target := x; tk_now := now; tk_decision := SkipStability |}], h.
    eexists. repeat split; eauto using cooled_of_cooldown.
Qed.

Lemma run_inv h st : run h st → trace_inv h st.
Proof using All.
  induction 1 as [|h st x now d st' _ IH Hmono E].
  { split; [constructor|done]. }
  unfold Enforce.eval_enforce in E.
  destruct (Enforce.cooling now st) eqn:Hc.
  { injection E as <- <-. destruct IH as [Hcd Hw]. split; [by constructor|].
    intros w Hs. destruct (Hw w Hs) as (y & win & older & first & ? & -> & Hl & Hf & ? & ? & Hcw).
    exfalso. unfold Enforce.cooling in Hc, Hcw. destruct (cooldown_until st) as [u|]; [|done].
    apply Z.ltb_lt in Hc. apply Z.ltb_ge in Hcw.
    assert (tk_now first ≤ now)%Z; [|lia].
    apply Forall_app in Hmono as [Hmono _]. rewrite Forall_forall in Hmono.
    apply Hmono. by apply last_Some_elem_of. }
  destruct (decide _) as [Hx|Hx]; [|injection E as <- <-; by eapply fresh_window].
  destruct (since st) as [w|] eqn:Hs.
  2:{ injection E as <- <-. eapply fresh_window; [done..|]. by rewrite Hx. }
  destruct (Z.leb_spec stability (wrap64 (num_seconds (now - w)))) as [Hle|Hlt].
  - destruct (plus_seconds _ _) as [until|] eqn:Hp; [|done]. injection E as <- <-.
    apply plus_seconds_spec in Hp. split; [|done]. simpl.
    unfold as_i64 in Hp. rewrite (proj2 (Z.ltb_lt _ _)) in Hp by lia.
    constructor; [intros _; eexists; split; [done|]; simpl; lia|].
    destruct IH as [Hcd _]. pose proof (cooled_of_cooldown _ _ _ Hcd Hc) as Hold.
    eapply Forall_impl; [exact Hold|]. intros t Ht Ha. exists until. split; [done|].
    specialize (Ht Ha). unfold ns in *. lia.
  - injection E as <- <-. destruct IH as [Hcd Hw]. split; [by constructor|].
    intros w' Hw'. destruct (Hw w' Hw') as (y & win & older & first & Hy & -> & Hl & Hf & Hall & Ho & Hcw).
    exists y, ({| tk_target := x; tk_now := now; tk_decision := SkipStability |} :: win), older, first.
    repeat split; try done.
    + by destruct win.
    + constructor; [|done]. split; [simpl; congruence|done].
Qed.

(** Whole seconds between two instants in order, below the width of the conversion. *)
Lemma whole_seconds a b :
  (a ≤ b)%Z → (b - a < 2 ^ 63)%Z →
  wrap64 (num_seconds (b - a)) = ((b - a) / ns)%Z.
Proof using HL.
  intros Hle Hlt. rewrite num_seconds_spec, Z.quot_div_nonneg by (unfold ns; lia).
  apply wrap64_small. unfold is_u64, u64_max, ns. split; [apply Z.div_pos; lia|].
  apply Z.div_le_upper_bound; lia.
Qed.

End trace.

(** Successive decisions on one target. *)
Fixpoint decisions `{Chrono} (target stability cooldown : Z) (times : list Z)
    (st : StabilityState) : list (res Empty_set EnforceDecision) :=
  match times with
  | [] => []
  | now :: times =>
      let '(d, st') := Enforce.eval_enforce target now stability cooldown st in
      d :: decisions target stability cooldown times st'
  end.

Section steady.
Context `{HC : !Chrono, HL : !ChronoLaws} (x stability cooldown : Z).

Lemma waiting_applies times w cd t0 now :
  (w ≤ now < w + 2 ^ 63)%Z → Forall (λ t, t0 ≤ t)%Z (times ++ [now]) →
  (∀ t, t0 ≤ t → Enforce.cooling t
     {| last_target := Some x; since := Some w; cooldown_until := cd |} = false)%Z →
  (∀ t, is_Some (plus_seconds t (as_i64 cooldown))) →
  (w + stability * ns ≤ now)%Z →
  Ok Apply ∈ decisions x stability cooldown (times ++ [now])
    {| last_target := Some x; since := Some w; cooldown_until := cd |}.
Proof using HL.
  intros Hn Ht Hc Hp Hs. induction times as [|t times IH]; simpl in *;
    apply Forall_cons in Ht as [Ht Hts]; unfold Enforce.eval_enforce;
    rewrite Hc, decide_True by done; simpl.
  - rewrite whole_seconds, (proj2 (Z.leb_le _ _)) by
      (lia || (apply Z.div_le_lower_bound; unfold ns in *; lia)).
    destruct (Hp now) as [u ->]. left.
  - destruct (Z.leb _ _); [destruct (Hp t) as [u ->]; left|]. right. by apply IH.
Qed.

(** A steady recommendation is applied: outside the cooldown, when every observation is the
    same target and the last one comes the stability period after the first, one of them
    is applied. *)
Theorem steady_target_applies t0 times now st :
  Enforce.cooling t0 st = false → (∀ w, since st = Some w → w ≤ t0 ∧ now < w + 2 ^ 63)%Z →
  Forall (λ t, t0 ≤ t)%Z times → (0 ≤ stability)%Z →
  (t0 + stability * ns ≤ now < t0 + 2 ^ 63)%Z →
  (∀ t, is_Some (plus_seconds t (as_i64 cooldown))) →
  Ok Apply ∈ decisions x stability cooldown (t0 :: times ++ [now]) st.
Proof using HL.
  intros Hc Hw Ht H0 Hs Hp. simpl. unfold Enforce.eval_enforce. rewrite Hc.
  assert (t0 ≤ now)%Z by (unfold ns in *; lia).
  assert (∀ w, w ≤ t0 → now < w + 2 ^ 63 → Ok Apply ∈ decisions x stability cooldown
    (times ++ [now]) {| last_target := Some x; since := Some w;
                        cooldown_until := cooldown_until st |})%Z as Hnew.
  { intros w Hwt Hwn. apply (waiting_applies _ _ _ t0); [lia| | |done|lia].
    - apply Forall_app. split; [done|]. by constructor.
    - intros t Htt. unfold Enforce.cooling in *. simpl. destruct (cooldown_until st); [|done].
      apply Z.ltb_ge in Hc. apply Z.ltb_ge. lia. }
  destruct (decide _) as [Hl|]; [|right; apply Hnew; lia].
  destruct (since st) as [w|] eqn:E; [|rewrite Hl; right; apply Hnew; lia].
  destruct (Z.leb _ _); [destruct (Hp t0) as [u ->]; left|]. right.
  destruct (Hw w eq_refl). replace st with {| last_target := Some x; since := Some w;
    cooldown_until := cooldown_until st |} by (destruct st; simpl in *; congruence).
  by apply Hnew.
Qed.

(** A clock that is set back by a second or more ends the waiting at once: the negative
    number of seconds is converted to a huge unsigned one. *)
Theorem clock_set_back_applies w cd now u :
  Enforce.cooling now {| last_target := Some x; since := Some w; cooldown_until := cd |} = false →
  (now + ns ≤ w < now + 2 ^ 32 * ns)%Z → (0 ≤ stability ≤ 2 ^ 63)%Z →
  plus_seconds now (as_i64 cooldown) = Some u →
  (Enforce.eval_enforce x now stability cooldown
     {| last_target := Some x; since := Some w; cooldown_until := cd |}).1 = Ok Apply.
Proof using HL.
  intros Hc Hw Hs Hp. unfold Enforce.eval_enforce. rewrite Hc, decide_True by done. simpl.
  rewrite num_seconds_spec. replace (now - w)%Z with (- (w - now))%Z by lia.
  rewrite Z.quot_opp_l, Z.quot_div_nonneg by (unfold ns in *; lia).
  assert (1 ≤ (w - now) / ns < 2 ^ 32)%Z as Hq.
  { split; [apply Z.div_le_lower_bound; unfold ns in *; lia|].
    apply Z.div_lt_upper_bound; unfold ns in *; lia. }
  set (q := ((w - now) / ns)%Z) in *.
  assert (wrap64 (- q) = 2 ^ 64 - q)%Z as ->.
  { unfold wrap64. rewrite <- (Z_mod_plus_full _ 1), Z.mod_small; lia. }
  rewrite (proj2 (Z.leb_le _ _)) by lia. by rewrite Hp.
Qed.
End steady.

(** ** The enforcer *)

Record NfrRecommendation := {
  component : str;
  dimension : str;
  rec_target : f64;
  basis : option str;
  confidence : option f64;
}.

Inductive EnforcementMode : Type := Off | Observe | EnforceMode.
#[global] Instance EnforcementMode_eq_dec : EqDecision EnforcementMode.
Proof. solve_decision. Defined.

Record EnforcementSpec := {
  mode : option str;
  dimensions : option (list str);
}.

Section enforcer.
Context {Ref Router : Type}.
Notation Status := (ClassRuntimeStatus Ref (btree str Value) NfrRecommendation Router).

(** The parts of a [ClassRuntime] the two loops read and write. *)
Record ClassRuntime := {
  cr_namespace : option str;
  cr_name : str;
  cr_deleting : bool;
  cr_enforcement : option EnforcementSpec;
  cr_min_throughput_rps : option Z;
  cr_status : option Status;
}.

Record EnforcerConfig := {
  stability_secs : Z;
  cooldown_secs : Z;
  max_replicas : Z;
  hpa : option bool;
  include_knative : bool;
}.

(** Calls to the cluster. *)
Inductive Request : Type :=
| GetRuntime (namespace name : str)
| PatchHpa (namespace name : str) (min : Z)
| PatchKnative (namespace name : str) (min : Z)
| PatchDeployment (namespace name : str) (min : Z)
| PatchApplied (namespace name : str) (target : Z) (now : str)
| PatchRecommendations (namespace name : str) (recs : btree str Value)
    (conds : list Condition) (now : str)
| EmitApplied (namespace name : str) (target : Z)
| Sleep (millis : Z)
| Clock
| PromQuery (url query : str)
| PromQueryRange (url query : str) (start end_ step : Z).

(** What the cluster answers: the live object (or an error), the error text of a failed patch,
    the time, and of Prometheus (unless the request fails) whether the status is a success
    and the body when it is JSON. *)
Record Cluster := {
  live : list Request → option (option ClassRuntime);
  patch_error : list Request → option str;
  clock : list Request → Z;
  prometheus : list Request → option (bool * option Value);
}.

Record EnforcerState := {
  stability_of : gmap str StabilityState;
  dr_cache : gmap str ClassRuntime;
  history : list Request;
}.

Definition set_history (h : list Request) (s : EnforcerState) : EnforcerState :=
  {| stability_of := stability_of s; dr_cache := dr_cache s; history := h |}.
Definition set_cache (c : gmap str ClassRuntime) (s : EnforcerState) : EnforcerState :=
  {| stability_of := stability_of s; dr_cache := c; history := history s |}.
Definition set_stability (m : gmap str StabilityState) (s : EnforcerState) : EnforcerState :=
  {| stability_of := m; dr_cache := dr_cache s; history := history s |}.
End enforcer.
Arguments ClassRuntime : clear implicits.
Arguments Request : clear implicits.
Arguments Cluster : clear implicits.
Arguments EnforcerState : clear implicits.

(** [str::contains] *)
Fixpoint contains (p s : str) : bool :=
  bool_decide (take (length p) s = p) ||
  match s with [] => false | _ :: s' => contains p s' end.

Module Loop.
Section loop.
Context `{Chrono} {Ref Router : Type} (rfc3339 : Z → str).
Notation Status := (ClassRuntimeStatus Ref (btree str Value) NfrRecommendation Router).
Notation Runtime := (ClassRuntime Ref Router).
Notation State := (EnforcerState Ref Router).
Context (cl : Cluster Ref Router) (cfg : EnforcerConfig).

Local Open Scope prog_scope.

(** [EnforcementMode::from_str] *)
Definition mode_from_str (s : str) : EnforcementMode :=
  let s := Names.lower <$> s in
  if decide (s = lit "off") then Off
  else if decide (s = lit "enforce") then EnforceMode else Observe.

Definition value_u32 (v : Value) : option Z :=
  match v with
  | VNumber n => u ← Json.as_u64 n; Some (u mod 2 ^ 32)%Z
  | VString s => Parse.u32 s
  | _ => None
  end.

(** The recommended number of replicas in a status. *)
Definition replicas_rec (st : option Status) : option Z :=
  s ← st; recs ← nfr_recommendations s; v ← bt_get (lit "replicas") recs; r ← value_u32 v;
  Some (Z.min (Z.max r 1) (max_replicas cfg)).

Definition retryable (msg : str) : bool :=
  negb (contains (lit "NotFound") msg || contains (lit "forbidden") msg).

(** The loop of [patch_hpa_minreplicas]; [further] more attempts are allowed. *)
Fixpoint hpa_loop (namespace name : str) (min : Z) (attempt further : nat) :
    M (list Request) str unit :=
  let! e := call (patch_error cl) (PatchHpa namespace name min) in
  match e with
  | None => ret tt
  | Some msg =>
      if retryable msg then
        match further with
        | O => throw msg
        | S further =>
            tell (Sleep (100 * 2 ^ Z.of_nat attempt)) ;;;
            hpa_loop namespace name min (S attempt) further
        end
      else throw msg
  end.

Definition patch_hpa_minreplicas (namespace name : str) (min : Z) (max_retries : nat) :
    M (list Request) str unit :=
  hpa_loop namespace name min 0 (max_retries - 1).

Definition apply_replicas_min (namespace name : str) (min : Z) : M (list Request) str unit :=
  let! e := call (patch_error cl) (if include_knative cfg then PatchKnative namespace name min
                                   else PatchDeployment namespace name min) in
  match e with None => ret tt | Some msg => throw msg end.

Definition apply_replicas_min_hpa_aware (namespace name : str) (min : Z) :
    M (list Request) str unit := λ h,
  if default false (hpa cfg) && negb (include_knative cfg) then
    match patch_hpa_minreplicas namespace name min 3 h with
    | (Ok _, h') => (Ok tt, h')
    | (_, h') => apply_replicas_min namespace name min h'
    end
  else apply_replicas_min namespace name min h.

(** A call of the cluster from the loop; an error is a value here. *)
Definition outside {E A} (m : M (list Request) E A) : M State Empty_set (option A) := λ s,
  match m (history s) with
  | (Ok a, h) => (Ok (Some a), set_history h s)
  | (Err _, h) => (Ok None, set_history h s)
  | (Panic p, h) => (Panic p, set_history h s)
  end.

Definition utc_now : M State Empty_set Z := λ s,
  let h := history s ++ [Clock] in (Ok (clock cl h), set_history h s).

Definition applied (target : Z) : NfrRecommendation :=
  {| component := lit "function"; dimension := lit "replicas"; rec_target := F64.of_Z target;
     basis := Some (lit "enforcer"); confidence := Some F64.one |}.

Definition empty_status : Status :=
  {| phase := None; message := None; observed_generation := None; last_updated := None;
     conditions := None; resource_refs := None; nfr_recommendations := None;
     last_applied_recommendations := None; last_applied_at := None; routers := None;
     functions := None |}.

Definition set_applied (target : Z) (now : str) (dr : Runtime) : Runtime :=
  let st := default empty_status (cr_status dr) in
  {| cr_namespace := cr_namespace dr; cr_name := cr_name dr; cr_deleting := cr_deleting dr;
     cr_enforcement := cr_enforcement dr; cr_min_throughput_rps := cr_min_throughput_rps dr;
     cr_status := Some {|
       phase := phase st; message := message st;
       observed_generation := observed_generation st; last_updated := last_updated st;
       conditions := conditions st; resource_refs := resource_refs st;
       nfr_recommendations := nfr_recommendations st;
       last_applied_recommendations := Some [applied target];
       last_applied_at := Some now; routers := routers st; functions := functions st |} |}.

Definition cache_key (namespace name : str) : str := namespace ++ lit "/" ++ name.

Definition cache_list (s : State) : list Runtime := (map_to_list (dr_cache s)).*2.

(** The live recommendation, when the cached object has none. *)
Definition live_rec (namespace name : str) : M State Empty_set (option Z) :=
  let! r := outside (E:=Empty_set) (call (live cl) (GetRuntime namespace name)) in
  ret (o ← r; dr ← o; dr ← dr; replicas_rec (cr_status dr)).

(** The part after [EnforceDecision::Apply]. *)
Definition enforce_apply (namespace name : str) (target : Z) : M State Empty_set unit :=
  let! ok := outside (apply_replicas_min_hpa_aware namespace name target) in
  match ok with
  | None => ret tt
  | Some _ =>
      let! now := utc_now in
      let! e := outside (E:=Empty_set)
        (call (patch_error cl) (PatchApplied namespace name target (rfc3339 now))) in
      match e with
      | Some None =>
          let! items := gets cache_list in
          match list_find (λ d, cr_name d = name ∧ cr_namespace d = Some namespace) items with
          | Some (_, current) =>
              let! now2 := utc_now in
              modify (λ s, set_cache (<[cache_key namespace name :=
                set_applied target (rfc3339 now2) current]> (dr_cache s)) s)
          | None => ret tt
          end
      | _ => ret tt
      end ;;;
      outside (E:=Empty_set) (tell (EmitApplied namespace name target)) ;;;
      ret tt
  end.

(** One class runtime in a round of [enforcer_loop]. *)
Definition enforce_item (dr : Runtime) : M State Empty_set unit :=
  if cr_deleting dr then ret tt else
  match cr_namespace dr with
  | None => ret tt
  | Some namespace =>
      let name := cr_name dr in
      let mode_s := default (lit "observe") (e ← cr_enforcement dr; mode e) in
      if decide (mode_from_str mode_s ≠ EnforceMode) then ret tt else
      let dims := default [] (e ← cr_enforcement dr; dimensions e) in
      if decide (lit "replicas" ∉ dims) then ret tt else
      let! rec := match replicas_rec (cr_status dr) with
                  | Some r => ret (Some r)
                  | None => live_rec namespace name
                  end in
      match rec with
      | None => ret tt
      | Some target =>
          let key := cache_key namespace name in
          let! now := utc_now in
          let! d := (λ s,
            match Enforce.eval_enforce target now (stability_secs cfg) (cooldown_secs cfg)
                    (default Enforce.default_state (stability_of s !! key)) with
            | (d, st) => (d, set_stability (<[key := st]> (stability_of s)) s)
            end) in
          match d with
          | SkipCooldown | SkipStability => ret tt
          | Apply => enforce_apply namespace name target
          end
      end
  end.

(** One round of [enforcer_loop]. *)
Definition enforcer_round : M State Empty_set unit := λ s,
  for_each enforce_item (cache_list s) s.
End loop.
End Loop.

(** ** Properties of a round *)

(** A request that sets a number of replicas. *)
Definition replicas_patch (r : Request) : option (str * str * Z) :=
  match r with
  | PatchHpa n m k | PatchKnative n m k | PatchDeployment n m k => Some (n, m, k)
  | _ => None
  end.

Section round.
Context `{Chrono} {Ref Router : Type} (rfc3339 : Z → str).
Context (cl : Cluster Ref Router) (cfg : EnforcerConfig).
Notation Runtime := (ClassRuntime Ref Router).
Notation State := (EnforcerState Ref Router).

(** The requests [patch_hpa_minreplicas] makes in [n + 1] attempts. *)
Fixpoint hpa_trace (namespace name : str) (min : Z) (attempt n : nat) : list Request :=
  PatchHpa namespace name min ::
  match n with
  | O => []
  | S n => Sleep (100 * 2 ^ Z.of_nat attempt) :: hpa_trace namespace name min (S attempt) n
  end.

Lemma hpa_loop_spec namespace name min attempt further h : ∃ n r,
  n ≤ further ∧
  Loop.hpa_loop cl namespace name min attempt further h
  = (r, h ++ hpa_trace namespace name min attempt n) ∧
  match patch_error cl (h ++ hpa_trace namespace name min attempt n) with
  | None => r = Ok tt
  | Some msg => r = Err msg ∧ (Loop.retryable msg = true → n = further)
  end.
Proof.
  revert attempt h. induction further as [|further IH]; intros attempt h; simpl;
    unfold bind, call; simpl.
  - exists 0. simpl. destruct (patch_error cl _) as [msg|]; [|by eexists].
    destruct (Loop.retryable msg); eauto.
  - destruct (patch_error cl (h ++ [_])) as [msg|] eqn:E.
    2:{ exists 0, (Ok tt). simpl. rewrite E. split_and!; [lia|done..]. }
    destruct (Loop.retryable msg) eqn:Er.
    2:{ exists 0, (Err msg). simpl. rewrite E. split_and!; [lia|done|done|congruence]. }
    destruct (IH (S attempt) ((h ++ [PatchHpa namespace name min])
      ++ [Sleep (100 * 2 ^ Z.of_nat attempt)])) as (n & r & Hn & Hl & Hr).
    exists (S n), r. simpl. rewrite <- !app_assoc in *. simpl in *.
    split_and!; [lia|exact Hl|]. revert Hr.
    destruct (patch_error cl (h ++ _ :: _ :: _)); [|done].
    intros [-> Hr]. split; [done|]. intros Hm. by rewrite Hr.
Qed.

(** Patching the autoscaler gives up: after at most [max_retries] calls (one when that is 0),
    with pauses that double, it returns; with success exactly when the last call succeeded,
    and with the error of the last call otherwise, before the last allowed attempt only for
    an error that is not worth a retry. *)
Theorem hpa_retries_bounded namespace name min max_retries h : ∃ n r,
  n < Nat.max 1 max_retries ∧
  Loop.patch_hpa_minreplicas cl namespace name min max_retries h
  = (r, h ++ hpa_trace namespace name min 0 n) ∧
  match patch_error cl (h ++ hpa_trace namespace name min 0 n) with
  | None => r = Ok tt
  | Some msg => r = Err msg ∧ (Loop.retryable msg = true → S n = Nat.max 1 max_retries)
  end.
Proof.
  destruct (hpa_loop_spec namespace name min 0 (max_retries - 1) h)
    as (n & r & Hn & Hl & Hr).
  exists n, r. split_and!; [lia|exact Hl|]. destruct (patch_error cl _); [|done].
  destruct Hr as [-> Hr]. split; [done|]. intros ?%Hr. lia.
Qed.

(** A call only adds requests that satisfy [P]. *)
Definition only_adds {E A} (P : Request → Prop) (m : M (list Request) E A) : Prop :=
  ∀ h, ∃ new, (m h).2 = h ++ new ∧ Forall P new.

Definition round_adds {A} (P : Request → Prop) (m : M State Empty_set A) : Prop :=
  ∀ s, ∃ new, history (m s).2 = history s ++ new ∧ Forall P new.

Lemma adds_nil {A} P (m : M State Empty_set A) :
  (∀ s, history (m s).2 = history s) → round_adds P m.
Proof. intros Hm s. exists []. by rewrite Hm, app_nil_r. Qed.

Lemma adds_bind {A B} P (m : M State Empty_set A) (f : A → M State Empty_set B) :
  round_adds P m → (∀ a, round_adds P (f a)) → round_adds P (bind m f).
Proof.
  intros Hm Hf s. unfold bind. destruct (Hm s) as (new & Hn & HP).
  destruct (m s) as [[a|e|p] s']; simpl in *; eauto.
  destruct (Hf a s') as (new' & Hn' & HP'). exists (new ++ new').
  rewrite Hn', Hn, app_assoc. split; [done|]. by apply Forall_app.
Qed.

Lemma adds_outside {E A} P (m : M (list Request) E A) :
  only_adds P m → round_adds P (Loop.outside m).
Proof.
  intros Hm s. destruct (Hm (history s)) as (new & Hn & HP). exists new.
  unfold Loop.outside. by destruct (m (history s)) as [[]].
Qed.

Lemma adds_call {E A} P (answer : list Request → A) r :
  P r → only_adds P (call (E:=E) answer r).
Proof. intros Hr h. exists [r]. simpl. repeat constructor. done. Qed.

Lemma adds_now P : P Clock → round_adds P (Loop.utc_now cl).
Proof. intros Hr s. exists [Clock]. simpl. repeat constructor. done. Qed.

Lemma adds_apply P namespace name min :
  (∀ n r, replicas_patch r = Some n → n = (namespace, name, min) → P r) →
  (∀ ms, P (Sleep ms)) →
  only_adds P (Loop.apply_replicas_min_hpa_aware cl cfg namespace name min).
Proof.
  intros HP Hs h. unfold Loop.apply_replicas_min_hpa_aware.
  assert (only_adds P (Loop.apply_replicas_min cl cfg namespace name min)) as Hmin.
  { intros h'. unfold Loop.apply_replicas_min, bind, call. simpl.
    eexists [_]. destruct (patch_error cl _); simpl; (split; [done|]); constructor; try done;
      (eapply HP; [|reflexivity]; by destruct (include_knative cfg)). }
  destruct (_ && _); [|apply Hmin].
  destruct (hpa_retries_bounded namespace name min 3 h) as (n & r & _ & -> & _).
  assert (∀ k a, Forall P (hpa_trace namespace name min a k)) as Htr.
  { induction k; intros a; simpl; repeat constructor; eauto. }
  destruct r as [[]|e|p]; simpl; [eauto|..];
    destruct (Hmin (h ++ hpa_trace namespace name min 0 n)) as (new & -> & Hnew);
    (eexists; rewrite <- app_assoc; split; [done|]; by apply Forall_app).
Qed.

(** A class runtime whose replicas may be changed: it asks for it and is not on its way out. *)
Definition enforced (dr : Runtime) : Prop :=
  cr_deleting dr = false ∧
  Loop.mode_from_str (default (lit "observe") (e ← cr_enforcement dr; mode e)) = EnforceMode ∧
  lit "replicas" ∈ default [] (e ← cr_enforcement dr; dimensions e).

(** What a round may ask of the cluster for the runtimes [items]. *)
Definition allowed (items : list Runtime) (r : Request) : Prop :=
  ∀ namespace name n, replicas_patch r = Some (namespace, name, n) →
  (1 ≤ n ≤ max_replicas cfg)%Z ∧
  ∃ dr, dr ∈ items ∧ enforced dr ∧ cr_name dr = name ∧ cr_namespace dr = Some namespace.

Lemma replicas_rec_bounds st n :
  (1 ≤ max_replicas cfg)%Z → Loop.replicas_rec (Ref:=Ref) (Router:=Router) cfg st = Some n →
  (1 ≤ n ≤ max_replicas cfg)%Z.
Proof.
  intros Hm. unfold Loop.replicas_rec. intros E.
  repeat (apply bind_Some in E as (? & _ & E)). injection E as <-. lia.
Qed.

Lemma enforce_item_allowed items dr :
  (1 ≤ max_replicas cfg)%Z → dr ∈ items →
  round_adds (allowed items) (Loop.enforce_item rfc3339 cl cfg dr).
Proof.
  intros Hm Hin. assert (∀ r, replicas_patch r = None → allowed items r) as Hother.
  { intros r Hr ????. congruence. }
  unfold Loop.enforce_item. destruct (cr_deleting dr) eqn:Hdel; [by apply adds_nil|].
  destruct (cr_namespace dr) as [namespace|] eqn:Hns; [|by apply adds_nil].
  destruct (decide _) as [|Hmode%dec_stable]; [by apply adds_nil|].
  destruct (decide _) as [|Hdim%dec_stable]; [by apply adds_nil|].
  intros s. unfold bind at 1.
  assert (∃ rec s', match Loop.replicas_rec cfg (cr_status dr) with
    | Some r => ret (Some r) | None => Loop.live_rec cl cfg namespace (cr_name dr) end s
    = (Ok rec, s') ∧ (∀ n, rec = Some n → (1 ≤ n ≤ max_replicas cfg)%Z) ∧
    ∃ new, history s' = history s ++ new ∧ Forall (allowed items) new)
    as (rec & s' & -> & Hrec & new & Hnew & Hall).
  { destruct (Loop.replicas_rec cfg (cr_status dr)) as [n|] eqn:E.
    - exists (Some n), s. split; [done|]. split; [|exists []; by rewrite app_nil_r].
      intros ? [= <-]. by eapply replicas_rec_bounds.
    - eexists _, _. split; [reflexivity|]. split.
      + intros n Hn. do 3 (apply bind_Some in Hn as (? & _ & Hn)).
        by eapply replicas_rec_bounds.
      + eexists. split; [done|]. constructor; [by apply Hother|done]. }
  destruct rec as [n|]; [|simpl; eauto]. specialize (Hrec n eq_refl).
  assert (round_adds (allowed items) (Loop.enforce_apply rfc3339 cl cfg namespace (cr_name dr) n))
    as Happly.
  { unfold Loop.enforce_apply. apply adds_bind.
    - apply adds_outside, adds_apply; [|intros; by apply Hother].
      intros ? r Hr -> ??? Hr'. rewrite Hr in Hr'. simplify_eq. split; [lia|].
      exists dr. by repeat split.
    - intros [[]|]; [|by apply adds_nil]. apply adds_bind; [by apply adds_now, Hother|].
      intros now. apply adds_bind; [by apply adds_outside, adds_call, Hother|].
      intros e. apply adds_bind.
      + destruct e as [[]|]; try by apply adds_nil. apply adds_bind; [by apply adds_nil|].
        intros l. destruct (list_find _ l) as [[]|]; [|by apply adds_nil].
        apply adds_bind; [by apply adds_now, Hother|]. intros; by apply adds_nil.
      + intros []. apply adds_bind; [|intros; by apply adds_nil].
        apply adds_outside. intros h. exists [EmitApplied namespace (cr_name dr) n].
        split; [done|]. constructor; [by apply Hother|constructor]. }
  match goal with |- context [ ?m s' ] => assert (round_adds (allowed items) m) as Hrest end.
  { apply adds_bind; [by apply adds_now, Hother|]. intros now. apply adds_bind.
    - apply adds_nil. intros s0. by destruct (Enforce.eval_enforce _ _ _ _ _).
    - intros []; [by apply adds_nil..|done]. }
  destruct (Hrest s') as (new' & -> & Hall'). rewrite Hnew, <- app_assoc.
  eexists. split; [done|]. by apply Forall_app.
Qed.

(** A round never asks for a number of replicas outside [1, max_replicas], and only for class
    runtimes of the cache that are in enforcing mode for replicas and are not being deleted;
    whatever the cluster answers. *)
Theorem enforced_replicas_bounded s :
  (1 ≤ max_replicas cfg)%Z → ∃ new,
  history (Loop.enforcer_round rfc3339 cl cfg s).2 = history s ++ new ∧
  Forall (allowed (Loop.cache_list s)) new.
Proof.
  intros Hm. unfold Loop.enforcer_round.
  assert (∀ l, l ⊆ Loop.cache_list s →
    round_adds (allowed (Loop.cache_list s)) (for_each (Loop.enforce_item rfc3339 cl cfg) l)) as Hl.
  { induction l as [|dr l IH]; intros Hsub; [by apply adds_nil|]. simpl. apply adds_bind.
    - apply enforce_item_allowed; [done|]. apply Hsub. left.
    - intros _. apply IH. set_solver. }
  apply (Hl _ ltac:(done) s).
Qed.
End round.

(** ** An example *)

Module DemoEnforcer.

#[local] Instance demo_chrono : Chrono :=
  {| plus_seconds t s := Some (t + s * ns)%Z; num_seconds d := Z.quot d ns |}.
#[local] Instance demo_chrono_laws : ChronoLaws.
Proof. split; [|done]. intros t s t' [= <-]. done. Qed.

(** Three replicas are recommended at 0, 1 and 2 seconds. *)
Definition tick (t : Z) (d : EnforceDecision) : Tick :=
  {| tk_target := 3; tk_now := t * ns; tk_decision := d |}.

Definition demo_ticks : list Tick := [tick 1 SkipStability; tick 0 SkipStability].

Lemma demo_run : ∃ st, run 2 3 (tick 2 Apply :: demo_ticks) st.
Proof.
  eexists. unfold demo_ticks, tick. eapply run_tick; [eapply run_tick; [eapply run_tick|..]|..].
  1: apply run_start. all: try reflexivity; repeat constructor; unfold ns; simpl; lia.
Defined.


Lemma steady_target_applies_witness :
  Ok Apply ∈ decisions 3 2 3 [0; ns; 2 * ns]%Z Enforce.default_state.
Proof.
  apply (steady_target_applies 3 2 3 0 [ns] (2 * ns) Enforce.default_state);
    [reflexivity|done|repeat constructor; unfold ns; lia|lia|unfold ns; lia|].
  intros t. by eexists.
Defined.

Lemma clock_set_back_applies_witness :
  (Enforce.eval_enforce 3 0 180 120
     {| last_target := Some 3%Z; since := Some ns; cooldown_until := None |}).1 = Ok Apply.
Proof.
  apply (clock_set_back_applies 3 180 120 ns None 0 (120 * ns)); [done|unfold ns; lia|lia|done].
Defined.

(** A class runtime that asks for enforcement and has a recommendation above the limit. *)
Definition demo_runtime : ClassRuntime unit unit :=
  {| cr_namespace := Some (lit "default"); cr_name := lit "order"; cr_deleting := false;
     cr_enforcement := Some {| mode := Some (lit "enforce");
                               dimensions := Some [lit "replicas"] |};
     cr_min_throughput_rps := None;
     cr_status := Some {| phase := None; message := None; observed_generation := None;
       last_updated := None; conditions := None; resource_refs := None;
       nfr_recommendations := Some [(lit "replicas", VNumber (PosInt 50))];
       last_applied_recommendations := None; last_applied_at := None; routers := None;
       functions := None |} |}.

Definition demo_config : EnforcerConfig :=
  {| stability_secs := 0; cooldown_secs := 120; max_replicas := 20; hpa := Some true;
     include_knative := false |}.

(** The autoscaler cannot be patched, everything else works. *)
Definition demo_cluster : Cluster unit unit :=
  {| live _ := None;
     patch_error h := match last h with Some (PatchHpa _ _ _) => Some (lit "timeout") | _ => None end;
     clock h := (Z.of_nat (length h) * ns)%Z;
     prometheus _ := None |}.

Definition demo_state : EnforcerState unit unit :=
  {| stability_of := {[ lit "default/order" := {| last_target := Some 20%Z; since := Some 0%Z;
                                                  cooldown_until := None |} ]};
     dr_cache := {[ lit "default/order" := demo_runtime ]}; history := [] |}.

Definition demo_round := Loop.enforcer_round (λ _, lit "now") demo_cluster demo_config demo_state.

Lemma enforced_replicas_bounded_witness :
  PatchDeployment (lit "default") (lit "order") 20 ∈ history demo_round.2 ∧
  ∃ new, history demo_round.2 = [] ++ new ∧
  Forall (allowed demo_config (Loop.cache_list demo_state)) new.
Proof.
  split; [apply list_elem_of_lookup; exists 6; vm_compute; reflexivity|].
  apply (enforced_replicas_bounded (λ _, lit "now") demo_cluster demo_config demo_state).
  simpl. lia.
Defined.

End DemoEnforcer.
