(* ===== verification/Analyzer.v ===== *)
(** * Recommendations from measurements

    The analyzer of [control-plane/oprc-crm/src/nfr/mod.rs] and the loop of
    [controller/analyzer.rs]: CPU, memory, latency and throughput of a class runtime are read
    from Prometheus, turned into recommendations and published in its status. The theorems
    bound what is published and follow it to the enforcer. *)

From stdpp Require Import base tactics list numbers option gmap strings.
From Stdlib Require Import ZArith Lia.
From Stdlib Require Import Floats.SpecFloat.
From S2P Require Import Prelude BTree Float64 Routing Json Controller Enforcer.

Set Default Proof Using "Type".

Record PromConfig := {
  prom_url : option str;
  prom_range : str;
  prom_step : str;
  prom_timeout_secs : Z;
}.

Record Analyzer := {
  prom_base : option str;
  knative_enabled : bool;
  prom_range_secs : Z;
  prom_step_secs : Z;
  query_timeout_secs : Z;
}.

Inductive Aggregate : Type := Avg | Max.

Module Nfr.

(** [a * b] on [u64] *)
Definition mul_u64 (checks : bool) (a b : Z) : res Empty_set Z :=
  if (a * b <=? u64_max)%Z then Ok (a * b)%Z
  else if checks then Panic "attempt to multiply with overflow" else Ok (wrap64 (a * b)).

(** A number and a unit letter; the text is cut before its last byte, which must begin a
    character. *)
Definition parse_duration_secs (checks : bool) (s : str) : res Empty_set (option Z) :=
  let s := Fsm.trim s in
  match last s with
  | None => Ok None
  | Some unit =>
      if (unit <? 128)%Z then
        match Parse.u64 (removelast s) with
        | None => Ok None
        | Some n =>
            let u := Names.lower unit in
            if (u =? 115)%Z then Ok (Some n)
            else if (u =? 109)%Z then res_bind (mul_u64 checks n 60) (λ n, Ok (Some n))
            else if (u =? 104)%Z then res_bind (mul_u64 checks n 3600) (λ n, Ok (Some n))
            else Ok None
        end
      else Panic "byte index is not a char boundary"
  end.

Definition new (checks : bool) (pc : PromConfig) (knative : bool) : res Empty_set Analyzer :=
  res_bind (parse_duration_secs checks (prom_range pc)) (λ range,
  res_bind (parse_duration_secs checks (prom_step pc)) (λ step,
  Ok {| prom_base := match prom_url pc with Some [] | None => None | u => u end;
        knative_enabled := knative; prom_range_secs := default 600%Z range;
        prom_step_secs := default 30%Z step; query_timeout_secs := prom_timeout_secs pc |})).

Definition is_configured (a : Analyzer) : bool := bool_decide (is_Some (prom_base a)).

(** [trim_end_matches('/')] *)
Definition trim_slashes (s : str) : str :=
  reverse ((fix go s := match s with c :: s' => if (c =? 47)%Z then go s' else s | [] => [] end)
             (reverse s)).

Section queries.
Context {Ref Router : Type} (cl : Cluster Ref Router).
Local Open Scope prog_scope.

(** The value of a sample: the second element of a pair, as a string. *)
Definition sample (pair : Value) : option f64 :=
  arr ← Json.as_array pair; v ← arr !! 1; s ← Json.as_str v; Parse.f64_of s.

Definition results (body : Value) : option (list Value) :=
  d ← Json.get (lit "data") body; r ← Json.get (lit "result") d; Json.as_array r.

(** [None] is an error. *)
Definition query_instant (base expr : str) : M (list Request) Empty_set (option f64) :=
  let! r := call (prometheus cl) (PromQuery (trim_slashes base ++ lit "/api/v1/query") expr) in
  ret match r with
      | None => None
      | Some (false, _) => Some F64.zero
      | Some (true, None) => None
      | Some (true, Some body) =>
          Some (default F64.zero
            (arr ← results body; s ← head arr; v ← Json.get (lit "value") s; sample v))
      end.

Definition series_values (series : Value) : list f64 :=
  match v ← Json.get (lit "values") series; Json.as_array v with
  | Some vs => omap sample vs
  | None => []
  end.

Definition f64_min : f64 := S754_finite true (2 ^ 53 - 1) 971.

Definition aggregate (mode : Aggregate) (values : list f64) : f64 :=
  match values with
  | [] => F64.zero
  | _ =>
      match mode with
      | Avg => F64.div (F64.sum values) (F64.of_Z (Z.of_nat (length values)))
      | Max => foldl (λ a b, if F64.lt a b then b else a) f64_min values
      end
  end.

Definition query_range_aggregate (base expr : str) (start_ts end_ts step_secs : Z)
    (mode : Aggregate) : M (list Request) Empty_set (option f64) :=
  if (end_ts <=? start_ts)%Z then ret (Some F64.zero) else
  let! r := call (prometheus cl)
    (PromQueryRange (trim_slashes base ++ lit "/api/v1/query_range") expr start_ts end_ts
       step_secs) in
  ret match r with
      | None => None
      | Some (false, _) => Some F64.zero
      | Some (true, None) => None
      | Some (true, Some body) =>
          Some (aggregate mode (default [] (results body) ≫= series_values))
      end.

(** A positive windowed average, or else the instant value. *)
Definition measure (a : Analyzer) (base expr : str) (start_ts end_ts : Z) :
    M (list Request) Empty_set f64 :=
  let! r := query_range_aggregate base expr start_ts end_ts (prom_step_secs a) Avg in
  match r with
  | Some v => if F64.lt F64.zero v then ret v
              else let! v := query_instant base expr in ret (default F64.zero v)
  | None => let! v := query_instant base expr in ret (default F64.zero v)
  end.

Definition heuristic_replicas_cpu (cpu_mcores p99_ms : f64) : f64 :=
  let base := F64.max (F64.ceil (F64.div cpu_mcores (F64.of_Z 500))) F64.one in
  if F64.lt (F64.of_Z 250) p99_ms then F64.add base F64.one else base.

Definition quote : str := [34%Z].

Definition rps_query (ns name : str) : str :=
  lit "sum(rate(activator_request_count{namespace_name=" ++ quote ++ ns ++ quote
  ++ lit ", configuration_name=" ++ quote ++ name ++ quote ++ lit "}[1m]))".

Definition p99_query (knative : bool) (ns name : str) : str :=
  if knative then
    lit "1000 * max(histogram_quantile(0.99, sum(rate(activator_request_latencies_bucket{namespace_name="
    ++ quote ++ ns ++ quote ++ lit ", configuration_name=" ++ quote ++ name ++ quote
    ++ lit "}[1m])) by (revision_name, le)))"
  else
    lit "1000 * histogram_quantile(0.99, sum(rate(http_server_requests_seconds_bucket{oaas_owner="
    ++ quote ++ name ++ quote ++ lit ",namespace=" ++ quote ++ ns ++ quote
    ++ lit "}[5m])) by (le))".

Definition pod_selector (ns name : str) : str :=
  lit "namespace=" ++ quote ++ ns ++ quote ++ lit ", pod=~" ++ quote ++ name ++ lit "-.*"
  ++ quote ++ lit ", container!=" ++ quote ++ quote.

Definition cpu_query (ns name : str) : str :=
  lit "1000 * sum(rate(container_cpu_usage_seconds_total{" ++ pod_selector ns name
  ++ lit "}[5m]))".
Definition mem_query (ns name : str) : str :=
  lit "sum(container_memory_working_set_bytes{" ++ pod_selector ns name ++ lit "})".

(** Replicas from the target and current throughput and the CPU in use. *)
Definition replicas_from_rps (tgt_rps rps cpu_mcores req_cpu p99_ms : f64) : f64 :=
  let ratio := if F64.lt F64.zero rps then F64.div tgt_rps rps else F64.one in
  let v := F64.max (F64.ceil (F64.mul ratio (F64.div cpu_mcores req_cpu))) F64.one in
  if F64.lt (F64.of_Z 250) p99_ms then F64.add v F64.one else v.

(** [show_f64] is the [Display] text of a number. *)
Definition recommendations (show_f64 : f64 → str) (a : Analyzer)
    (target_rps req_cpu_per_pod_m : option f64) (rps p99_ms cpu_mcores mem_bytes : f64) :
    list NfrRecommendation :=
  let window := dec (Z.to_nat (prom_range_secs a)) ++ lit "s" in
  let rec dim target basis :=
    {| component := lit "function"; dimension := lit dim; rec_target := target;
       basis := Some basis; confidence := Some (F64.lit 6 10) |} in
  (if F64.lt F64.zero cpu_mcores then
     let req := default (F64.of_Z 500) req_cpu_per_pod_m in
     let replicas := match target_rps with
                     | Some tgt => replicas_from_rps tgt rps cpu_mcores req p99_ms
                     | None => heuristic_replicas_cpu cpu_mcores p99_ms
                     end in
     [rec "replicas" replicas
        (lit "replicas = target_rps/current_rps * total_cpu/" ++ show_f64 req ++ lit "m over "
         ++ window);
      rec "cpu" (F64.ceil (F64.mul cpu_mcores (F64.lit 13 10)))
        (lit "avg of container cpu mcores over " ++ window)]
   else []) ++
  (if F64.lt F64.zero mem_bytes then
     [rec "memory" (F64.ceil (F64.mul mem_bytes (F64.lit 12 10)))
        (lit "avg of working set bytes over " ++ window)]
   else []).

(** [now] is the time in seconds; [client_ok] whether the HTTP client could be built. *)
Definition observe_only (show_f64 : f64 → str) (client_ok : bool) (now : Z) (a : Analyzer)
    (ns name : str) (target_rps req_cpu_per_pod_m : option f64) :
    M (list Request) unit (list NfrRecommendation) :=
  match prom_base a with
  | None => ret []
  | Some base =>
      if negb client_ok then throw tt else
      let start_ts := (now - as_i64 (prom_range_secs a))%Z in
      let get expr := map_err (λ e : Empty_set, match e with end)
                        (measure a base expr start_ts now) in
      let! rps := if knative_enabled a then get (rps_query ns name) else ret F64.zero in
      let! p99_ms := get (p99_query (knative_enabled a) ns name) in
      let! cpu_mcores := get (cpu_query ns name) in
      let! mem_bytes := get (mem_query ns name) in
      ret (recommendations show_f64 a target_rps req_cpu_per_pod_m rps p99_ms cpu_mcores
             mem_bytes)
  end.
End queries.

Example heuristic_501 :
  heuristic_replicas_cpu (F64.of_Z 501) F64.zero = F64.of_Z 2 ∧
  heuristic_replicas_cpu (F64.of_Z 1000) (F64.of_Z 300) = F64.of_Z 3.
Proof. vm_compute. done. Qed.

End Nfr.

(** ** The loop *)

Module Analyze.
Section analyze.
Context {Ref Router : Type} (rfc3339 : Z → str) (show_f64 : f64 → str).
Context (cl : Cluster Ref Router) (analyzer : Analyzer) (client_ok : bool).
Notation Status := (ClassRuntimeStatus Ref (btree str Value) NfrRecommendation Router).
Notation Runtime := (ClassRuntime Ref Router).
Notation State := (EnforcerState Ref Router).
Local Open Scope prog_scope.

Definition i32_max : Z := 2 ^ 31 - 1.

(** The condition the analyzer reports. *)
Definition observed_condition (now : str) : Condition :=
  {| type_ := NfrObserved; cstatus := CTrue; creason := Some (lit "PrometheusQueryOK");
     cmessage := Some (lit "NFR signals observed"); clast_transition_time := Some now |}.

(** The first condition of the type is rewritten, or one is added. *)
Fixpoint observe_condition (now : str) (conds : list Condition) : list Condition :=
  match conds with
  | [] => [observed_condition now]
  | c :: conds => if decide (type_ c = NfrObserved) then observed_condition now :: conds
                  else c :: observe_condition now conds
  end.

(** The JSON value of one recommendation. *)
Definition rec_value (r : NfrRecommendation) : Value :=
  if decide (dimension r = lit "replicas") then
    VNumber (default (PosInt 1)
      (Json.from_f64 (F64.min (F64.max (rec_target r) F64.one) (F64.of_Z i32_max))))
  else match Json.from_f64 (rec_target r) with
       | Some n => VNumber n
       | None => VNull
       end.

Definition recs_obj (recs : list NfrRecommendation) : btree str Value :=
  foldl (λ m r, bt_insert (dimension r) (rec_value r) m) [] recs.

(** The cached object after the status was patched. *)
Definition set_recommendations (recs : btree str Value) (conds : list Condition) (now : str)
    (dr : Runtime) : Runtime :=
  {| cr_namespace := cr_namespace dr; cr_name := cr_name dr; cr_deleting := cr_deleting dr;
     cr_enforcement := cr_enforcement dr; cr_min_throughput_rps := cr_min_throughput_rps dr;
     cr_status := Some match cr_status dr with
       | Some s =>
           {| phase := phase s; message := message s;
              observed_generation := observed_generation s; last_updated := Some now;
              conditions := Some conds; resource_refs := resource_refs s;
              nfr_recommendations := Some recs; last_applied_recommendations := None;
              last_applied_at := last_applied_at s; routers := routers s;
              functions := functions s |}
       | None =>
           {| phase := None; message := None; observed_generation := None;
              last_updated := Some now; conditions := Some conds; resource_refs := None;
              nfr_recommendations := Some recs; last_applied_recommendations := None;
              last_applied_at := None; routers := None; functions := None |}
       end |}.

Definition analyze_item (dr : Runtime) : M State Empty_set unit :=
  if cr_deleting dr then ret tt else
  match cr_namespace dr with
  | None => ret tt
  | Some namespace =>
      let name := cr_name dr in
      let! now := Loop.utc_now cl in
      let! r := Loop.outside (Nfr.observe_only cl show_f64 client_ok (now / 10 ^ 9) analyzer
        namespace name (F64.of_Z <$> cr_min_throughput_rps dr) None) in
      match r with
      | None => ret tt
      | Some recs =>
          let! now := Loop.utc_now cl in
          let now := rfc3339 now in
          let conds := observe_condition now (default [] (s ← cr_status dr; conditions s)) in
          let obj := recs_obj recs in
          let! e := Loop.outside (E:=Empty_set) (call (patch_error cl)
            (PatchRecommendations namespace name obj conds now)) in
          match e with
          | Some None =>
              modify (λ s, set_cache (<[Loop.cache_key namespace name :=
                set_recommendations obj conds now dr]> (dr_cache s)) s)
          | _ => ret tt
          end
      end
  end.

(** One round of [analyzer_loop], which ends at once without a Prometheus address. *)
Definition analyzer_round : M State Empty_set unit := λ s,
  if Nfr.is_configured analyzer then for_each analyze_item (Loop.cache_list s) s
  else (Ok tt, s).
End analyze.
End Analyze.

(** ** What is published *)

(** A published number of replicas lies between 1 and the largest [i32]. *)
Definition published_ok (v : Value) : Prop :=
  ∃ x, v = VNumber (Float x) ∧ F64.lt x F64.one = false ∧
       F64.lt (F64.of_Z Analyze.i32_max) x = false.

Lemma clamped_replicas x :
  let y := F64.min (F64.max x F64.one) (F64.of_Z Analyze.i32_max) in
  F64.is_finite y = true ∧ F64.lt y F64.one = false ∧
  F64.lt (F64.of_Z Analyze.i32_max) y = false.
Proof.
  set (m := F64.of_Z Analyze.i32_max). set (z := F64.max x F64.one). simpl.
  assert (F64.lt z F64.one = false) as Hz by by apply F64.max_ge.
  assert (F64.is_nan z = false) as Hn.
  { unfold z, F64.max. destruct (F64.is_nan x) eqn:E; [done|]. by destruct (F64.lt x F64.one). }
  unfold F64.min. rewrite Hn. destruct (F64.lt m z) eqn:E.
  { split_and!; [done|done|apply F64.lt_irrefl]. }
  split_and!; [|done|done].
  clearbody z. destruct z as [s|[]| |s mz ez]; try done.
Qed.

Lemma recs_obj_get recs d v :
  bt_get d (Analyze.recs_obj recs) = Some v →
  ∃ r, r ∈ recs ∧ dimension r = d ∧ v = Analyze.rec_value r.
Proof.
  unfold Analyze.recs_obj. induction recs as [|r recs IH] using rev_ind; [done|].
  rewrite foldl_app. simpl. destruct (decide (dimension r = d)) as [<-|Hne].
  - rewrite bt_get_insert_eq. intros [= <-]. exists r. set_solver.
  - rewrite bt_get_insert_ne by done. intros (r' & ? & ? & ?)%IH. exists r'. set_solver.
Qed.

Lemma replicas_value_ok r : dimension r = lit "replicas" → published_ok (Analyze.rec_value r).
Proof.
  intros Hd. unfold Analyze.rec_value. rewrite decide_True by done.
  destruct (clamped_replicas (rec_target r)) as (Hf & H1 & H2). simpl in *.
  unfold Json.from_f64. rewrite Hf. simpl. by eexists.
Qed.

(** The conditions of all types but the reported one are as before. *)
Lemma observe_condition_spec now conds t :
  cond_get t (Analyze.observe_condition now conds)
  = if decide (t = NfrObserved) then Some (Analyze.observed_condition now) else cond_get t conds.
Proof.
  induction conds as [|c conds IH]; cbn [Analyze.observe_condition].
  - rewrite cond_get_cons. by repeat case_decide.
  - destruct (decide (type_ c = NfrObserved)) as [E|E]; rewrite !cond_get_cons.
    + repeat case_decide; simpl in *; congruence.
    + rewrite IH. repeat case_decide; simpl in *; congruence.
Qed.

Section analysis.
Context {Ref Router : Type} (rfc3339 : Z → str) (show_f64 : f64 → str).
Context (cl : Cluster Ref Router) (a : Analyzer) (client_ok : bool).
Notation Runtime := (ClassRuntime Ref Router).
Notation State := (EnforcerState Ref Router).

(** What one class runtime leads to: nothing, or one accepted status patch with the same
    content in the cache. *)
Theorem analyze_item_publishes (dr : Runtime) (s s' : State) :
  Analyze.analyze_item rfc3339 show_f64 cl a client_ok dr s = (Ok tt, s') →
  dr_cache s' = dr_cache s ∨
  ∃ namespace recs conds now,
  cr_namespace dr = Some namespace ∧ cr_deleting dr = false ∧
  last (history s') = Some (PatchRecommendations namespace (cr_name dr) recs conds now) ∧
  dr_cache s' = <[Loop.cache_key namespace (cr_name dr) :=
                  Analyze.set_recommendations recs conds now dr]> (dr_cache s) ∧
  (∀ t, cond_get t conds
        = if decide (t = NfrObserved) then Some (Analyze.observed_condition now)
          else cond_get t (default [] (s ← cr_status dr; conditions s))) ∧
  (∀ v, bt_get (lit "replicas") recs = Some v → published_ok v) ∧
  ∀ cfg, Loop.replicas_rec cfg
    (cr_status (Analyze.set_recommendations recs conds now dr)) = None.
Proof.
  unfold Analyze.analyze_item. destruct (cr_deleting dr); [intros [= <-]; by left|].
  destruct (cr_namespace dr) as [namespace|]; [|intros [= <-]; by left].
  unfold bind at 1. simpl. unfold bind at 1.
  destruct (Loop.outside (Nfr.observe_only _ _ _ _ _ _ _ _ _) _) as [[[recs|]|e|p] s1] eqn:E;
    try done.
  2:{ intros [= <-]. left. revert E. unfold Loop.outside.
      by destruct (Nfr.observe_only _ _ _ _ _ _ _ _ _ _) as [[]]; intros [= <-]. }
  assert (dr_cache s1 = dr_cache s) as Hc.
  { revert E. unfold Loop.outside.
    by destruct (Nfr.observe_only _ _ _ _ _ _ _ _ _ _) as [[]]; intros [= _ <-]. }
  unfold bind, Loop.utc_now, Loop.outside, call, set_history. simpl.
  destruct (patch_error cl _); intros [= <-]; [by left|]. right.
  do 4 eexists. split_and!; [done..| | | | |].
  - simpl. by rewrite last_snoc.
  - simpl. by rewrite Hc.
  - intros t. apply observe_condition_spec.
  - intros v (r & _ & Hd & ->)%recs_obj_get. by apply replicas_value_ok.
  - intros cfg. unfold Loop.replicas_rec, Analyze.set_recommendations. simpl.
    destruct (cr_status dr); simpl;
      (destruct (bt_get (lit "replicas") (Analyze.recs_obj recs)) as [v|] eqn:Hv; [|done];
       apply recs_obj_get in Hv as (r & _ & Hd & ->);
       destruct (replicas_value_ok r Hd) as (x & -> & _); done).
Qed.
End analysis.

(** ** An example *)

Module DemoAnalyzer.

(** Prometheus reports 1200 millicores for every query. *)
Definition body : Value :=
  VObject [(lit "data", VObject [(lit "result", VArray [VObject
    [(lit "value", VArray [VNumber (PosInt 0); VString (lit "1200")]);
     (lit "values", VArray [VArray [VNumber (PosInt 0); VString (lit "1200")]])]])])].

Definition cluster : Cluster unit unit :=
  {| live _ := None; patch_error _ := None; clock _ := (10 ^ 18)%Z;
     prometheus _ := Some (true, Some body) |}.

Definition analyzer : Analyzer :=
  {| prom_base := Some (lit "http://prom/"); knative_enabled := false; prom_range_secs := 600;
     prom_step_secs := 30; query_timeout_secs := 5 |}.

Definition after := Analyze.analyze_item (λ _, lit "now") (λ _, lit "500") cluster analyzer true
  DemoEnforcer.demo_runtime DemoEnforcer.demo_state.

(** Four replicas (three for the load and one for the latency) are published as a
    floating-point number. *)
Example after_recommends :
  (dr ← dr_cache after.2 !! lit "default/order"; s ← cr_status dr; m ← nfr_recommendations s;
   bt_get (lit "replicas") m) = Some (VNumber (Float (F64.of_Z 4))).
Proof. vm_compute. reflexivity. Qed.

Lemma analyze_item_publishes_witness :
  dr_cache after.2 = dr_cache DemoEnforcer.demo_state ∨
  ∃ recs conds now, ∀ cfg, Loop.replicas_rec cfg
    (cr_status (Analyze.set_recommendations recs conds now DemoEnforcer.demo_runtime)) = None.
Proof.
  destruct (analyze_item_publishes (λ _, lit "now") (λ _, lit "500") cluster analyzer true
    DemoEnforcer.demo_runtime DemoEnforcer.demo_state after.2) as [H|(n & r & c & t & H)].
  - vm_compute. reflexivity.
  - by left.
  - right. exists r, c, t. apply H.
Defined.

End DemoAnalyzer.
