(* ===== verification/Quorum.v ===== *)
(** * Quorum availability

    The arithmetic of [control-plane/oprc-pm/src/services/deployment/workflow.rs] that decides
    how many environments a deployment needs: the availability of a majority quorum by dynamic
    programming over the number of available environments, and the smallest number of
    environments that reaches a target. The operations are taken over a class of numbers: the
    program runs them on [f64]; on exact rationals they are shown to compute the probability
    that a majority is available. *)

From stdpp Require Import base tactics list numbers option sets.
From Stdlib Require Import ZArith QArith Qcanon Lia.
From S2P Require Import Prelude Float64.

Set Default Proof Using "Type".
Open Scope nat_scope.

Class Num (A : Type) := {
  nzero : A;
  none_ : A;
  nadd : A → A → A;
  nsub : A → A → A;
  nmul : A → A → A;
  (** [x >= y] *)
  nge : A → A → bool;
  nclamp : A → A → A → A;
  (** The sum of a non-empty sequence. *)
  nsum : list A → A;
}.

#[global] Instance f64_num : Num f64 := {|
  nzero := F64.zero; none_ := F64.one; nadd := F64.add; nsub := F64.sub; nmul := F64.mul;
  nge x y := F64.le y x; nclamp := F64.clamp; nsum := F64.sum |}.

#[global] Instance Qc_num : Num Qc := {|
  nzero := 0%Qc; none_ := 1%Qc; nadd := Qcplus; nsub := Qcminus; nmul := Qcmult;
  nge x y := Qle_bool y x;
  nclamp x lo hi := let x := if Qle_bool lo x then x else lo in if Qle_bool x hi then x else hi;
  nsum := foldr Qcplus 0%Qc |}.

Module Quorum.
Section quorum.
Context `{Num A}.

(** One round of the outer loop: [carry] is what the previous cell has added to the present
    one. *)
Fixpoint spread (p carry : A) (dist : list A) : list A :=
  match dist with
  | [] => [carry]
  | base :: dist =>
      nadd carry (nmul base (nsub none_ p)) :: spread p (nadd nzero (nmul base p)) dist
  end.

Definition distribution (avails : list A) : list A :=
  foldl (λ dist p, spread p nzero dist) [none_] avails.

Definition cluster_quorum_availability (avails : list A) : A :=
  match avails with
  | [] => nzero
  | _ => nsum (drop (length avails / 2 + 1) (distribution avails))
  end.

(** The loop of [required_replicas_quorum]; [current] are the availabilities so far. *)
Fixpoint required_loop (t : A) (max_r : nat) (current rest : list A) : option nat :=
  match rest with
  | [] => None
  | p :: rest =>
      let current := current ++ [nclamp p nzero none_] in
      if nge (cluster_quorum_availability current) t then Some (length current)
      else if max_r <=? length current then None
      else required_loop t max_r current rest
  end.

(** [upper] is the literal the target is cut to. *)
Definition required_replicas_quorum (upper target : A) (sorted_worst_first : list A)
    (max_r : nat) : nat :=
  let t := nclamp target nzero upper in
  match sorted_worst_first with
  | [] => 1
  | _ =>
      match required_loop t max_r [] sorted_worst_first with
      | Some n => n
      | None => Nat.max (Nat.min (length sorted_worst_first) max_r) 1
      end
  end.
End quorum.

(** 0.999999999 *)
Definition upper_f64 : f64 := F64.lit 999999999 1000000000.

Definition required_replicas (target : f64) (sorted : list f64) (max_r : nat) : nat :=
  required_replicas_quorum upper_f64 target sorted max_r.

Definition f9 : f64 := F64.lit 9 10.
Example availability_of_three :
  F64.lt (F64.lit 971999 1000000) (cluster_quorum_availability [f9; f9; f9]) = true ∧
  F64.lt (cluster_quorum_availability [f9; f9; f9]) (F64.lit 972001 1000000) = true.
Proof. vm_compute. done. Qed.

Example one_replica :
  required_replicas (F64.lit 90 100) [F64.lit 92 100; F64.lit 94 100; F64.lit 97 100] 10 = 1.
Proof. vm_compute. done. Qed.
End Quorum.

(** ** The number of replicas *)

Section required.
Context `{Num A}.

(** The availability of the first [n] environments. *)
Definition prefix_availability (l : list A) (n : nat) : A :=
  Quorum.cluster_quorum_availability (take n ((λ p, nclamp p nzero none_) <$> l)).

Lemma required_loop_spec t max_r l i :
  let limit := Nat.max 1 (Nat.min (length l) max_r) in
  i < limit ∨ i = 0 →
  (∀ j, 0 < j ≤ i → nge (prefix_availability l j) t = false) →
  match Quorum.required_loop t max_r (take i ((λ p, nclamp p nzero none_) <$> l)) (drop i l) with
  | Some n => i < n ≤ limit ∧ n ≤ length l ∧ nge (prefix_availability l n) t = true ∧
              ∀ j, 0 < j < n → nge (prefix_availability l j) t = false
  | None => ∀ j, 0 < j ≤ limit → j ≤ length l → nge (prefix_availability l j) t = false
  end.
Proof.
  intros limit. remember (drop i l) as rest eqn:E. revert i E.
  induction rest as [|p rest IH]; intros i E Hi Hj; simpl.
  { intros j Hj1 Hj2. apply Hj.
    assert (length (drop i l) = 0) as Hd by by rewrite <- E. rewrite length_drop in Hd. lia. }
  assert (l !! i = Some p) as Hp.
  { rewrite <- (Nat.add_0_r i), <- lookup_drop, <- E. done. }
  pose proof (lookup_lt_Some _ _ _ Hp) as Hlt.
  assert (take i ((λ p, nclamp p nzero none_) <$> l) ++ [nclamp p nzero none_]
          = take (S i) ((λ p, nclamp p nzero none_) <$> l)) as ->.
  { symmetry. apply take_S_r. by rewrite list_lookup_fmap, Hp. }
  rewrite length_take, length_fmap, Nat.min_l by lia.
  fold (prefix_availability l (S i)).
  destruct (nge (prefix_availability l (S i)) t) eqn:Eg.
  { split_and!; try lia; [done|]. intros j Hj'. apply Hj. lia. }
  assert (∀ j, 0 < j ≤ S i → nge (prefix_availability l j) t = false) as Hj'.
  { intros j ?. destruct (decide (j = S i)) as [->|]; [done|]. apply Hj. lia. }
  destruct (Nat.leb_spec max_r (S i)).
  - intros j Hj1 Hj2. apply Hj'. lia.
  - assert (rest = drop (S i) l) as Er.
    { rewrite (drop_S _ _ _ Hp) in E. by injection E. }
    destruct (decide (S i < length l)) as [Hl|Hl].
    + specialize (IH (S i) Er ltac:(left; lia) Hj').
      destruct (Quorum.required_loop t max_r _ rest); [|done]. intuition lia.
    + rewrite Er, drop_ge by lia. simpl. intros j Hj1 Hj2. apply Hj'. lia.
Qed.

Lemma required_replicas_bounds upper target l max_r :
  l ≠ [] →
  let n := Quorum.required_replicas_quorum upper target l max_r in
  1 ≤ n ≤ Nat.max 1 (Nat.min (length l) max_r) ∧ n ≤ length l.
Proof.
  intros Hl n. assert (0 < length l) by (destruct l; simpl; [done|lia]).
  pose proof (required_loop_spec (nclamp target nzero upper) max_r l 0 ltac:(by right) ltac:(lia)) as Hs.
  rewrite drop_0, take_0 in Hs. subst n.
  unfold Quorum.required_replicas_quorum. destruct l as [|p l']; [done|].
  destruct (Quorum.required_loop _ _ _ _) as [n|]; lia.
Qed.

(** The number of environments is between 1 and the limit, and it is the least that reaches
    the target or, when none within the limit does, all that are allowed. *)
Theorem required_replicas_least upper target l max_r :
  l ≠ [] →
  let t := nclamp target nzero upper in
  let limit := Nat.max 1 (Nat.min (length l) max_r) in
  let n := Quorum.required_replicas_quorum upper target l max_r in
  1 ≤ n ≤ limit ∧ n ≤ length l ∧
  (∀ j, 0 < j < n → nge (prefix_availability l j) t = false) ∧
  (nge (prefix_availability l n) t = true ∨
   n = limit ∧ nge (prefix_availability l n) t = false).
Proof.
  intros Hl t limit n. assert (0 < length l) by (destruct l; simpl; [done|lia]).
  pose proof (required_loop_spec t max_r l 0 ltac:(by right) ltac:(lia)) as Hs.
  rewrite drop_0, take_0 in Hs. fold limit in Hs. subst n.
  unfold Quorum.required_replicas_quorum. fold t. destruct l as [|p l']; [done|].
  destruct (Quorum.required_loop _ _ _ _) as [n|].
  - destruct Hs as (? & ? & ? & ?). split_and!; [lia|lia|lia|done|by left].
  - replace (Nat.max (Nat.min (length (p :: l')) max_r) 1) with limit by lia.
    split_and!; [lia|lia|lia| |right; split; [done|]]; intros; apply Hs; lia.
Qed.
End required.

(** ** Exactness *)

Section exact.
Open Scope Qc_scope.

(** All outcomes of independent environments: how many are available, with which
    probability. *)
Definition extend (p : Qc) (os : list (nat * Qc)) : list (nat * Qc) :=
  ((λ o, (o.1, o.2 * (1 - p))) <$> os) ++ ((λ o, (S o.1, o.2 * p)) <$> os).

Definition outcomes (avails : list Qc) : list (nat * Qc) :=
  foldl (λ os p, extend p os) [(0%nat, 1)] avails.

Definition weight (P : nat → bool) (os : list (nat * Qc)) : Qc :=
  foldr (λ o acc, (if P o.1 then o.2 else 0) + acc) 0 os.

Lemma weight_app P os1 os2 : weight P (os1 ++ os2) = weight P os1 + weight P os2.
Proof. induction os1 as [|o os IH]; simpl; [ring|]. rewrite IH. ring. Qed.

Lemma weight_stay P q os : weight P ((λ o, (o.1, o.2 * q)) <$> os) = weight P os * q.
Proof.
  induction os as [|o os IH]; csimpl; [ring|]. rewrite IH. destruct (P o.1); ring.
Qed.

Lemma weight_up P q os :
  weight P ((λ o, (S o.1, o.2 * q)) <$> os) = weight (λ n, P (S n)) os * q.
Proof.
  induction os as [|o os IH]; csimpl; [ring|]. rewrite IH. destruct (P (S o.1)); ring.
Qed.

Lemma weight_none os : weight (λ _, false) os = 0.
Proof. induction os as [|o os IH]; simpl; [done|]. rewrite IH. ring. Qed.

Lemma weight_ext P Q os : (∀ o, o ∈ os → P o.1 = Q o.1) → weight P os = weight Q os.
Proof.
  induction os as [|o os IH]; simpl; intros HPQ; [done|].
  rewrite HPQ, IH by set_solver. done.
Qed.

Definition exactly (k : nat) (n : nat) : bool := (n =? k)%nat.

Lemma weight_extend k p os :
  weight (exactly k) (extend p os)
  = weight (exactly k) os * (1 - p)
    + (match k with O => 0 | S k' => weight (exactly k') os end) * p.
Proof.
  unfold extend. rewrite weight_app, weight_stay, weight_up. f_equal.
  destruct k as [|k]; [|done]. by rewrite <- (weight_none os).
Qed.

(** The cells of the table are the probabilities of the numbers. *)
Definition cells (os : list (nat * Qc)) (i m : nat) : list Qc :=
  (λ k, weight (exactly k) os) <$> seq i m.

Lemma cells_S os i m : cells os i (S m) = weight (exactly i) os :: cells os (S i) m.
Proof. done. Qed.

Lemma spread_cells p os carry i m :
  carry = (match i with O => 0 | S k => weight (exactly k) os end) * p →
  weight (exactly (i + m)) os = 0 →
  Quorum.spread p carry (cells os i m) = cells (extend p os) i (S m).
Proof.
  revert i carry. induction m as [|m IH]; intros i carry -> Hz;
    rewrite (cells_S (extend p os)), weight_extend.
  - rewrite Nat.add_0_r in Hz. rewrite Hz. simpl. f_equal. ring.
  - rewrite cells_S. cbn [Quorum.spread]. rewrite IH; [|cbn; ring|by rewrite Nat.add_succ_comm].
    f_equal. cbn. ring.
Qed.

Lemma outcomes_count avails o : o ∈ outcomes avails → (o.1 ≤ length avails)%nat.
Proof.
  unfold outcomes. revert o. induction avails as [|p avails IH] using rev_ind; intros o.
  - simpl. set_solver.
  - rewrite foldl_app, length_app. simpl. unfold extend.
    rewrite elem_of_app, !list_elem_of_fmap.
    intros [(o' & -> & Ho)|(o' & -> & Ho)]; apply IH in Ho; simpl; lia.
Qed.

Lemma weight_above os k : (∀ o, o ∈ os → (o.1 < k)%nat) → weight (exactly k) os = 0.
Proof.
  induction os as [|o os IH]; intros Hk; simpl; [done|].
  rewrite IH by set_solver. unfold exactly.
  rewrite (proj2 (Nat.eqb_neq _ _)) by (specialize (Hk o ltac:(left)); lia). ring.
Qed.

Lemma distribution_cells avails :
  Quorum.distribution avails = cells (outcomes avails) 0 (S (length avails)).
Proof.
  unfold Quorum.distribution, outcomes. induction avails as [|p avails IH] using rev_ind.
  - done.
  - rewrite !foldl_app, IH, length_app, Nat.add_1_r. cbn [foldl].
    apply spread_cells; [simpl; ring|]. apply weight_above.
    intros o Ho. apply outcomes_count in Ho. lia.
Qed.

Lemma sum_cells os i m :
  (∀ o, o ∈ os → (o.1 < i + m)%nat) →
  foldr Qcplus 0 (cells os i m) = weight (λ n, i <=? n)%nat os.
Proof.
  revert i. induction m as [|m IH]; intros i Ho.
  - symmetry. rewrite Nat.add_0_r in Ho. rewrite (weight_ext _ (λ _, false)).
    + apply weight_none.
    + intros o Hin. apply Nat.leb_gt. by apply Ho.
  - rewrite cells_S. cbn [foldr].
    rewrite IH by (intros o Hin; specialize (Ho o Hin); lia).
    clear. induction os as [|o os IH]; simpl; [ring|].
    transitivity (((if exactly i o.1 then o.2 else 0) + (if (S i <=? o.1)%nat then o.2 else 0))
      + (weight (exactly i) os + weight (λ n, S i <=? n)%nat os)); [simpl; ring|].
    rewrite IH. unfold exactly.
    destruct (Nat.eqb_spec o.1 i), (Nat.leb_spec (S i) o.1), (Nat.leb_spec i o.1); try lia; ring.
Qed.

(** C28. On exact numbers the table computes the probability that a majority of the
    environments is available, as the sum over all outcomes. *)
Theorem quorum_is_majority_probability (avails : list Qc) :
  avails ≠ [] →
  Quorum.cluster_quorum_availability avails
  = weight (λ up, length avails <? 2 * up)%nat (outcomes avails).
Proof.
  intros Hne. unfold Quorum.cluster_quorum_availability.
  replace (match avails with [] => nzero | _ :: _ => _ end) with
    (foldr Qcplus 0 (drop (length avails / 2 + 1) (Quorum.distribution avails)))
    by (by destruct avails).
  rewrite distribution_cells. unfold cells. rewrite <- fmap_drop, drop_seq.
  fold (cells (outcomes avails) (0 + (length avails / 2 + 1))
         (S (length avails) - (length avails / 2 + 1))).
  assert (length avails / 2 < length avails)%nat.
  { apply Nat.div_lt; [destruct avails; simpl; [done|lia]|lia]. }
  rewrite sum_cells by (intros o Ho%outcomes_count; lia).
  apply weight_ext. intros o _. apply eq_true_iff_eq.
  rewrite Nat.leb_le, Nat.ltb_lt.
  pose proof (Nat.div_mod_eq (length avails) 2). pose proof (Nat.mod_upper_bound (length avails) 2).
  lia.
Qed.
End exact.

Lemma required_replicas_least_witness :
  let l := [F64.lit 80 100; F64.lit 99 100; F64.lit 99 100] in
  let n := Quorum.required_replicas_quorum Quorum.upper_f64 (F64.lit 95 100) l 50 in
  n = 3 ∧ ∀ j, 0 < j < n →
  nge (prefix_availability l j) (nclamp (F64.lit 95 100) nzero Quorum.upper_f64) = false.
Proof.
  split; [vm_compute; reflexivity|].
  apply (required_replicas_least Quorum.upper_f64 (F64.lit 95 100)
    [F64.lit 80 100; F64.lit 99 100; F64.lit 99 100] 50). done.
Defined.

Lemma quorum_is_majority_probability_witness :
  Quorum.cluster_quorum_availability [Q2Qc (9 # 10); Q2Qc (9 # 10); Q2Qc (9 # 10)]
  = weight (λ up, 3 <? 2 * up) (outcomes [Q2Qc (9 # 10); Q2Qc (9 # 10); Q2Qc (9 # 10)]).
Proof.
  apply (quorum_is_majority_probability [Q2Qc (9 # 10); Q2Qc (9 # 10); Q2Qc (9 # 10)]). done.
Defined.
