(* ===== verification/PmModel.v ===== *)
(** * Packages, deployments and their storage

    The data of the package manager ([commons/oprc-models/src/package.rs], [deployment.rs],
    [nfr.rs], [enums.rs]) and the storage it keeps them in
    ([commons/oprc-cp-storage/src/traits.rs], [memory/mod.rs]): two traits, as classes with
    the contract the services rely on, and the in-memory implementation. A [HashMap] is a
    finite map; where its iteration order shows, the contract is up to permutation. *)

From stdpp Require Import base tactics list numbers option gmap strings.
From S2P Require Import Prelude BTree Float64 Routing Json Enforcer.

Set Default Proof Using "Type".

(** ** Data *)

Inductive FunctionType : Type := FBuiltin | FCustom | FMacro | FLogical | FWasm.
Inductive DeploymentCondition : Type := DPending | DDeploying | DRunning | DDown | DDeleted.
Inductive FunctionAccessModifier : Type := AccPublic | AccInternal | AccPrivate.
Inductive ConsistencyModel : Type := CmNone | ReadYourWrite | BoundedStaleness | Strong.

#[global] Instance DeploymentCondition_eq_dec : EqDecision DeploymentCondition.
Proof. solve_decision. Defined.
#[global] Instance ConsistencyModel_eq_dec : EqDecision ConsistencyModel.
Proof. solve_decision. Defined.

Record ProvisionConfig := {
  container_image : option str;
  wasm_module_url : option str;
  pc_port : option Z;
  max_concurrency : Z;
  need_http2 : bool;
  cpu_request : option str;
  memory_request : option str;
  cpu_limit : option str;
  memory_limit : option str;
  min_scale : option Z;
  max_scale : option Z;
  wasm_fuel : option Z;
}.

Definition default_provision : ProvisionConfig :=
  {| container_image := None; wasm_module_url := None; pc_port := None; max_concurrency := 0;
     need_http2 := false; cpu_request := None; memory_request := None; cpu_limit := None;
     memory_limit := None; min_scale := None; max_scale := None; wasm_fuel := None |}.

Record NfrRequirements := {
  min_throughput_rps : option Z;
  availability : option f64;
  cpu_utilization_target : option f64;
}.

Record FunctionBinding := {
  fb_name : str;
  fb_function_key : str;
  access_modifier : FunctionAccessModifier;
  fb_stateless : bool;
  fb_parameters : list str;
}.

Record StateSpecification := {
  key_specs : list (str * str);
  default_provider : str;
  consistency_model : ConsistencyModel;
  persistent : bool;
  serialization_format : str;
}.

Record OClass := {
  cls_key : str;
  cls_description : option str;
  state_spec : option StateSpecification;
  function_bindings : list FunctionBinding;
  cls_options : gmap str str;
}.

Record OFunction := {
  fn_key : str;
  function_type : FunctionType;
  fn_description : option str;
  fn_provision_config : option ProvisionConfig;
  fn_config : gmap str str;
}.

Record FunctionDeploymentSpec := {
  fd_function_key : str;
  fd_description : option str;
  fd_available_location : option str;
  fd_qos_requirement : option (Z * f64);
  fd_provision_config : option ProvisionConfig;
  fd_config : gmap str str;
}.

Record OdgmDataSpec := {
  od_collections : list str;
  od_partition_count : option Z;
  od_replica_count : option Z;
  od_shard_type : option str;
  env_node_ids : gmap str (list Z);
  od_log : option str;
  od_options : gmap str str;
  zenoh_mode : option str;
}.

Record TelemetryConfig := {
  tel_enabled : option bool;
  tel_traces : option bool;
  tel_metrics : option bool;
  tel_logs : option bool;
  tel_sampling_rate : option f64;
  tel_service_name : option str;
  tel_resource_attributes : gmap str str;
}.

Record DeploymentStatusSummary := {
  replication_factor : Z;
  selected_envs : list str;
  achieved_quorum_availability : option f64;
  last_error : option str;
}.

Record OClassDeployment := {
  dep_key : str;
  dep_package_name : str;
  dep_class_key : str;
  target_envs : list str;
  available_envs : list str;
  dep_nfr : NfrRequirements;
  env_templates : gmap str str;
  dep_functions : list FunctionDeploymentSpec;
  dep_condition : DeploymentCondition;
  dep_odgm : option OdgmDataSpec;
  dep_telemetry : option TelemetryConfig;
  dep_status : option DeploymentStatusSummary;
  created_at : option Z;
  updated_at : option Z;
}.

Record PackageMetadata := {
  pm_author : option str;
  pm_description : option str;
  pm_tags : list str;
  pm_created_at : option Z;
  pm_updated_at : option Z;
}.

Record OPackage := {
  pkg_name : str;
  pkg_version : option str;
  pkg_metadata : PackageMetadata;
  pkg_classes : list OClass;
  pkg_functions : list OFunction;
  pkg_dependencies : list str;
  pkg_deployments : list OClassDeployment;
}.

(** ** Errors *)

Inductive CpStorageError : Type :=
| StNotFound (s : str) | StAlreadyExists (s : str) | StSerialization (s : str)
| StConnection (s : str) | StTimeout (s : str) | StInvalidKey (s : str)
| StBackend (s : str) | StInternal (s : str).

Inductive PackageError : Type :=
| PkgNotFound (s : str) | PkgAlreadyExists (s : str) | PkgInvalid (s : str)
| DependencyNotFound (s : str) | CircularDependency (s : str).

Inductive DeploymentError : Type :=
| DepNotFound (s : str) | DepAlreadyExists (s : str) | DepInvalid (s : str)
| InsufficientResources (s : str) | ClusterUnavailable (s : str).

Inductive CrmError : Type :=
| ServiceUnavailable | ClusterNotFound (s : str) | NoDefaultCluster
| CrmConfiguration (s : str) | CrmInternal (s : str).

Inductive PackageManagerError : Type :=
| EPackage (e : PackageError)
| EDeployment (e : DeploymentError)
| EStorage (e : CpStorageError)
| ECrm (e : CrmError)
| EConfig (s : str)
| EValidation (s : str)
| EInternal (s : str).

(** [Display] of a [CrmError] *)
Definition crm_text (e : CrmError) : str :=
  match e with
  | ServiceUnavailable => lit "CRM service unavailable"
  | ClusterNotFound s => lit "Cluster not found: " ++ s
  | NoDefaultCluster => lit "No default cluster configured"
  | CrmConfiguration s => lit "Client configuration error: " ++ s
  | CrmInternal s => lit "Internal CRM error: " ++ s
  end.

(** ** The storage traits *)

Record PackageFilter := {
  name_pattern : option str;
  author : option str;
  tags : list str;
}.

Record DeploymentFilter := {
  f_package_name : option str;
  f_class_key : option str;
  f_target_env : option str;
  f_condition : option DeploymentCondition;
}.

Class PackageStorage (S : Type) := {
  store_package : OPackage → M S CpStorageError unit;
  get_package : str → M S CpStorageError (option OPackage);
  list_packages : PackageFilter → M S CpStorageError (list OPackage);
  delete_package : str → M S CpStorageError unit;
  package_exists : str → M S CpStorageError bool;
}.

Class DeploymentStorage (S : Type) := {
  store_deployment : OClassDeployment → M S CpStorageError unit;
  get_deployment : str → M S CpStorageError (option OClassDeployment);
  list_deployments : DeploymentFilter → M S CpStorageError (list OClassDeployment);
  delete_deployment : str → M S CpStorageError unit;
  deployment_exists : str → M S CpStorageError bool;
  save_cluster_mapping : str → str → str → M S CpStorageError unit;
  get_cluster_mappings : str → M S CpStorageError (gmap str str);
  remove_cluster_mappings : str → M S CpStorageError unit;
}.

Module Filters.

(** The test of [list_packages]. *)
Definition package_matches (filter : PackageFilter) (p : OPackage) : bool :=
  match name_pattern filter with
  | Some pattern => contains pattern (pkg_name p)
  | None => true
  end &&
  match author filter with
  | Some a => bool_decide (pm_author (pkg_metadata p) = Some a)
  | None => true
  end &&
  match tags filter with
  | [] => true
  | ts => existsb (λ t, bool_decide (t ∈ pm_tags (pkg_metadata p))) ts
  end.

(** The test of [list_deployments]; the condition is not looked at. *)
Definition deployment_matches (filter : DeploymentFilter) (d : OClassDeployment) : bool :=
  match f_package_name filter with
  | Some n => bool_decide (dep_package_name d = n)
  | None => true
  end &&
  match f_class_key filter with
  | Some k => bool_decide (dep_class_key d = k)
  | None => true
  end &&
  match f_target_env filter with
  | Some e => bool_decide (e ∈ target_envs d)
  | None => true
  end.

End Filters.

(** What a storage that does not fail promises: it is a map. *)
Class PackageStorageLaws (S : Type) `{PackageStorage S} := {
  packages : S → gmap str OPackage;
  law_store_package p s : ∃ s', store_package p s = (Ok tt, s') ∧
    packages s' = <[pkg_name p := p]> (packages s);
  law_get_package n s : get_package n s = (Ok (packages s !! n), s);
  law_list_packages f s : ∃ l, list_packages f s = (Ok l, s) ∧
    l ≡ₚ filter (λ p, Filters.package_matches f p = true) (map_to_list (packages s)).*2;
  law_delete_package n s : ∃ s', delete_package n s = (Ok tt, s') ∧
    packages s' = delete n (packages s);
  law_package_exists n s : package_exists n s = (Ok (bool_decide (is_Some (packages s !! n))), s);
}.

Class DeploymentStorageLaws (S : Type) `{DeploymentStorage S} := {
  deployments : S → gmap str OClassDeployment;
  mappings : S → gmap str (gmap str str);
  law_store_deployment d s : ∃ s', store_deployment d s = (Ok tt, s') ∧
    deployments s' = <[dep_key d := d]> (deployments s) ∧ mappings s' = mappings s;
  law_get_deployment k s : get_deployment k s = (Ok (deployments s !! k), s);
  law_list_deployments f s : ∃ l, list_deployments f s = (Ok l, s) ∧
    l ≡ₚ filter (λ d, Filters.deployment_matches f d = true) (map_to_list (deployments s)).*2;
  law_delete_deployment k s : ∃ s', delete_deployment k s = (Ok tt, s') ∧
    deployments s' = delete k (deployments s) ∧ mappings s' = mappings s;
  law_deployment_exists k s :
    deployment_exists k s = (Ok (bool_decide (is_Some (deployments s !! k))), s);
  law_save_mapping k c i s : ∃ s', save_cluster_mapping k c i s = (Ok tt, s') ∧
    deployments s' = deployments s ∧
    mappings s' = <[k := <[c := i]> (default ∅ (mappings s !! k))]> (mappings s);
  law_get_mappings k s : get_cluster_mappings k s = (Ok (default ∅ (mappings s !! k)), s);
  law_remove_mappings k s : ∃ s', remove_cluster_mappings k s = (Ok tt, s') ∧
    deployments s' = deployments s ∧ mappings s' = delete k (mappings s);
}.

(** ** The in-memory storage *)

Definition MemoryPackageStorage : Type := gmap str OPackage.

Record MemoryDeploymentStorage := {
  mem_store : gmap str OClassDeployment;
  cluster_mappings : gmap str (gmap str str);
}.

Module MemStore.

Definition store_package (p : OPackage) : M MemoryPackageStorage CpStorageError unit :=
  modify (λ s, <[pkg_name p := p]> s).
Definition get_package (n : str) : M MemoryPackageStorage CpStorageError (option OPackage) :=
  gets (λ s, s !! n).
Definition list_packages (f : PackageFilter) :
    M MemoryPackageStorage CpStorageError (list OPackage) :=
  gets (λ s, filter (λ p, Filters.package_matches f p = true) (map_to_list s).*2).
Definition delete_package (n : str) : M MemoryPackageStorage CpStorageError unit :=
  modify (delete n).
Definition package_exists (n : str) : M MemoryPackageStorage CpStorageError bool :=
  gets (λ s, bool_decide (is_Some (s !! n))).

Definition store_deployment (d : OClassDeployment) :
    M MemoryDeploymentStorage CpStorageError unit :=
  modify (λ s, {| mem_store := <[dep_key d := d]> (mem_store s);
                  cluster_mappings := cluster_mappings s |}).
Definition get_deployment (k : str) :
    M MemoryDeploymentStorage CpStorageError (option OClassDeployment) :=
  gets (λ s, mem_store s !! k).
Definition list_deployments (f : DeploymentFilter) :
    M MemoryDeploymentStorage CpStorageError (list OClassDeployment) :=
  gets (λ s, filter (λ d, Filters.deployment_matches f d = true) (map_to_list (mem_store s)).*2).
Definition delete_deployment (k : str) : M MemoryDeploymentStorage CpStorageError unit :=
  modify (λ s, {| mem_store := delete k (mem_store s);
                  cluster_mappings := cluster_mappings s |}).
Definition deployment_exists (k : str) : M MemoryDeploymentStorage CpStorageError bool :=
  gets (λ s, bool_decide (is_Some (mem_store s !! k))).
Definition save_cluster_mapping (k c i : str) : M MemoryDeploymentStorage CpStorageError unit :=
  modify (λ s, {| mem_store := mem_store s;
                  cluster_mappings := <[k := <[c := i]> (default ∅ (cluster_mappings s !! k))]>
                                        (cluster_mappings s) |}).
Definition get_cluster_mappings (k : str) :
    M MemoryDeploymentStorage CpStorageError (gmap str str) :=
  gets (λ s, default ∅ (cluster_mappings s !! k)).
Definition remove_cluster_mappings (k : str) : M MemoryDeploymentStorage CpStorageError unit :=
  modify (λ s, {| mem_store := mem_store s; cluster_mappings := delete k (cluster_mappings s) |}).

End MemStore.

#[global] Instance memory_packages : PackageStorage MemoryPackageStorage := {|
  store_package := MemStore.store_package; get_package := MemStore.get_package;
  list_packages := MemStore.list_packages; delete_package := MemStore.delete_package;
  package_exists := MemStore.package_exists |}.

#[global] Program Instance memory_packages_laws : PackageStorageLaws MemoryPackageStorage :=
  {| packages := id |}.
Solve All Obligations with (intros; by eexists).

#[global] Instance memory_deployments : DeploymentStorage MemoryDeploymentStorage := {|
  store_deployment := MemStore.store_deployment; get_deployment := MemStore.get_deployment;
  list_deployments := MemStore.list_deployments;
  delete_deployment := MemStore.delete_deployment;
  deployment_exists := MemStore.deployment_exists;
  save_cluster_mapping := MemStore.save_cluster_mapping;
  get_cluster_mappings := MemStore.get_cluster_mappings;
  remove_cluster_mappings := MemStore.remove_cluster_mappings |}.

#[global] Program Instance memory_deployments_laws :
    DeploymentStorageLaws MemoryDeploymentStorage :=
  {| deployments := mem_store; mappings := cluster_mappings |}.
Solve All Obligations with (intros; by eexists).
