(* ===== verification/PmUnits.v ===== *)
(** * Deployment units

    [control-plane/oprc-pm/src/services/deployment/units.rs]: the unit the package manager
    sends to each environment: functions, data grid configuration with the merged options,
    the shard assignments and the routes, under a generated identifier. Identifiers draw on
    the nanoid library, whose results are an argument. *)

From stdpp Require Import base tactics list list_numbers numbers option gmap strings sorting.
From Stdlib Require Import ZArith Lia.
From S2P Require Import Prelude BTree Float64 Routing Json Metadata Placement PmModel.

Set Default Proof Using "Type".

(** ** The unit *)

Record UnitFunction := {
  uf_function_key : str;
  uf_description : option str;
  uf_available_location : option str;
  uf_nfr : NfrRequirements;
  uf_provision_config : ProvisionConfig;
  uf_config : gmap str str;
}.

Record UnitRoute := {
  ur_url : str;
  ur_stateless : option bool;
  ur_standby : option bool;
  ur_active_group : list Z;
  ur_function_key : option str;
}.

Record OdgmConfig := {
  oc_collections : list str;
  oc_partition_count : option Z;
  oc_replica_count : option Z;
  oc_shard_type : option str;
  oc_invocations : option (gmap str UnitRoute * list str);
  oc_options : gmap str str;
  oc_log : option str;
  oc_env_node_ids : gmap str (list Z);
  oc_odgm_node_id : option Z;
  oc_collection_assignments : gmap str (list ShardAssignment);
  oc_zenoh_mode : option str;
}.

Record UnitBinding := {
  ub_name : str;
  ub_function_key : str;
  ub_access_modifier : option str;
  ub_stateless : option bool;
  ub_parameters : list str;
}.

Record UnitTelemetry := {
  ut_enabled : bool;
  ut_traces : option bool;
  ut_metrics : option bool;
  ut_logs : option bool;
  ut_sampling_rate : option f64;
  ut_service_name : option str;
  ut_resource_attributes : gmap str str;
}.

Record DeploymentUnit := {
  unit_id : str;
  unit_package_name : str;
  unit_class_key : str;
  unit_functions : list UnitFunction;
  unit_target_env : str;
  unit_function_bindings : list UnitBinding;
  unit_created_at : Z;
  unit_odgm_config : option OdgmConfig;
  unit_selected_template : option str;
  unit_telemetry : option UnitTelemetry;
}.

Record DeploymentRequirements := {
  min_replicas : Z;
  max_replicas_ : Z;
  target_replicas : Z;
}.

Module Units.

(** [dns_label_safe] *)
Definition dns_label_safe (s : str) : str :=
  let s := Names.sanitize <$> (Names.lower <$> s) in
  let s := Names.trim_end (Names.trim_start s) in
  let s := match s with [] => lit "x" | _ => s end in
  let s := match s with c :: _ => if Names.is_alpha c then s else 97%Z :: s | [] => s end in
  let s := Names.trim_end s in
  match s with [] => lit "x" | _ => s end.

Definition suffix_len : nat := 8.

(** The loop that gathers lower-case letters and digits; [candidates] are the successive
    results of [nanoid!()], [None] when they do not suffice. *)
Fixpoint gather (suffix : str) (candidates : list str) : option str :=
  if (length suffix <? suffix_len)%nat then
    match candidates with
    | [] => None
    | c :: candidates =>
        let suffix := suffix ++ (Names.lower <$> filter (λ x, Names.is_alnum x = true) c) in
        gather (if (suffix_len <? length suffix)%nat then take suffix_len suffix else suffix)
          candidates
    end
  else Some suffix.

Definition gen_safe_deployment_id (class_name : str) (candidates : list str) : option str :=
  let base := dns_label_safe class_name in
  suffix ← gather [] candidates;
  let max_base := (63 - 1 - suffix_len)%nat in
  let base := if (max_base <? length base)%nat then take max_base base else base in
  let base := Names.trim_end base in
  let base := match base with [] => lit "x" | _ => base end in
  Some (base ++ [Names.dash] ++ suffix).

Definition unit_function (dep : OClassDeployment) (req : DeploymentRequirements)
    (f : FunctionDeploymentSpec) : UnitFunction :=
  let pc := default default_provision (fd_provision_config f) in
  {| uf_function_key := fd_function_key f; uf_description := fd_description f;
     uf_available_location := fd_available_location f;
     uf_nfr := dep_nfr dep;
     uf_provision_config :=
       {| container_image := container_image pc; wasm_module_url := wasm_module_url pc;
          pc_port := pc_port pc; max_concurrency := max_concurrency pc;
          need_http2 := need_http2 pc; cpu_request := cpu_request pc;
          memory_request := memory_request pc; cpu_limit := cpu_limit pc;
          memory_limit := memory_limit pc; min_scale := Some (Z.max (target_replicas req) 1);
          max_scale := max_scale pc; wasm_fuel := wasm_fuel pc |};
     uf_config := fd_config f |}.

(** A route per binding whose function is deployed; a later binding of the same name wins. *)
Definition inv_routes (cls : OClass) (dep : OClassDeployment) :
    option (gmap str UnitRoute * list str) :=
  match function_bindings cls with
  | [] => None
  | bindings =>
      Some (foldl (λ m b,
        if existsb (λ f, bool_decide (fd_function_key f = fb_function_key b)) (dep_functions dep)
        then <[fb_name b := {| ur_url := []; ur_stateless := Some (fb_stateless b);
                               ur_standby := Some false; ur_active_group := [];
                               ur_function_key := Some (fb_function_key b) |}]> m
        else m) ∅ bindings, [])
  end.

Definition default_collection (cls : OClass) (dep : OClassDeployment) : str :=
  dep_package_name dep ++ lit "." ++ cls_key cls.

(** Class options, overlaid by the options of the deployment, with a durable backend when the
    class is persistent and the options name none. *)
Definition merged_options (cls : OClass) (dep : OClassDeployment) (o : OdgmDataSpec) :
    gmap str str :=
  let m := od_options o ∪ cls_options cls in
  if decide (is_Some (m !! lit "storage_backend")) then m
  else if default false (persistent <$> state_spec cls) then
    let m := <[lit "storage_backend" := lit "fjall"]> m in
    if decide (is_Some (m !! lit "storage_path")) then m
    else
      let col := match head (od_collections o) with
                 | Some c => c
                 | None => default_collection cls dep
                 end in
      <[lit "storage_path" := lit "/data/odgm/" ++ col]> m
  else m.

Definition shard_type_of (cls : OClass) (o : OdgmDataSpec) : str :=
  match od_shard_type o with
  | Some t => t
  | None =>
      match consistency_model <$> state_spec cls with
      | Some Strong => lit "raft"
      | _ => lit "mst"
      end
  end.

Definition odgm_config (cls : OClass) (dep : OClassDeployment) (env : str)
    (req : DeploymentRequirements) (o : OdgmDataSpec) : OdgmConfig :=
  {| oc_collections := od_collections o; oc_partition_count := od_partition_count o;
     oc_replica_count := match od_replica_count o with
                         | Some r => Some r
                         | None => Some (target_replicas req)
                         end;
     oc_shard_type := Some (shard_type_of cls o);
     oc_invocations := inv_routes cls dep;
     oc_options := merged_options cls dep o; oc_log := od_log o;
     oc_env_node_ids := env_node_ids o;
     oc_odgm_node_id := head (default [] (env_node_ids o !! env));
     oc_collection_assignments :=
       Pm.collection_assignments (od_collections o) (od_partition_count o) (od_replica_count o)
         (target_replicas req) (map_to_list (env_node_ids o)).*2;
     oc_zenoh_mode := zenoh_mode o |}.

(** [format!("{:?}", access_modifier)] *)
Definition access_text (a : FunctionAccessModifier) : str :=
  lit match a with AccPublic => "Public" | AccInternal => "Internal" | AccPrivate => "Private" end.

Definition unit_binding (b : FunctionBinding) : UnitBinding :=
  {| ub_name := fb_name b; ub_function_key := fb_function_key b;
     ub_access_modifier := Some (access_text (access_modifier b));
     ub_stateless := Some (fb_stateless b); ub_parameters := fb_parameters b |}.

Definition unit_telemetry_of (t : TelemetryConfig) : UnitTelemetry :=
  {| ut_enabled := default true (tel_enabled t); ut_traces := tel_traces t;
     ut_metrics := tel_metrics t; ut_logs := tel_logs t;
     ut_sampling_rate := tel_sampling_rate t; ut_service_name := tel_service_name t;
     ut_resource_attributes := tel_resource_attributes t |}.

(** [id] and [now] are the generated identifier and the time. *)
Definition create_deployment_units_for_env (cls : OClass) (dep : OClassDeployment) (env : str)
    (req : DeploymentRequirements) (id : str) (now : Z) : DeploymentUnit :=
  {| unit_id := id; unit_package_name := dep_package_name dep;
     unit_class_key := dep_class_key dep;
     unit_functions := unit_function dep req <$> dep_functions dep;
     unit_target_env := env;
     unit_function_bindings := unit_binding <$> function_bindings cls;
     unit_created_at := now;
     unit_odgm_config := odgm_config cls dep env req <$> dep_odgm dep;
     unit_selected_template := env_templates dep !! env;
     unit_telemetry := unit_telemetry_of <$> dep_telemetry dep |}.

End Units.

(** ** Generated identifiers *)

Definition lower_alnum (c : Z) : bool := Names.is_lower c || Names.is_digit c.

Lemma gather_done suffix candidates r :
  length suffix ≤ Units.suffix_len → Forall (λ c, lower_alnum c = true) suffix →
  Units.gather suffix candidates = Some r →
  length r = Units.suffix_len ∧ Forall (λ c, lower_alnum c = true) r.
Proof.
  revert suffix. induction candidates as [|c cs IH]; intros suffix Hl Hs; simpl;
    destruct (Nat.ltb_spec (length suffix) Units.suffix_len); try done.
  1: intros [= <-]; split; [lia|done].
  2: intros [= <-]; split; [lia|done].
  set (s' := suffix ++ _). intros E. eapply IH; [| |exact E].
  - destruct (Nat.ltb_spec Units.suffix_len (length s')); [rewrite length_take; lia|lia].
  - assert (Forall (λ c, lower_alnum c = true) s') as Hs'.
    { apply Forall_app. split; [done|]. apply Forall_fmap, Forall_forall. intros x Hx.
      apply list_elem_of_filter in Hx as [Hx _]. simpl.
      revert Hx. unfold lower_alnum, Names.lower, Names.is_alnum, Names.is_alpha. char_lia. }
    destruct (Nat.ltb _ _); [by apply Forall_take|done].
Qed.

Lemma gather_enough suffix candidates :
  Forall (λ c, Exists (λ x, Names.is_alnum x = true) c) candidates →
  Units.suffix_len ≤ length suffix + length candidates →
  is_Some (Units.gather suffix candidates).
Proof.
  revert suffix. induction candidates as [|c cs IH]; intros suffix Hc Hl; simpl in *;
    destruct (Nat.ltb_spec (length suffix) Units.suffix_len); eauto; [lia|].
  apply Forall_cons in Hc as [Hx Hc]. apply IH; [done|].
  assert (0 < length (filter (λ x, Names.is_alnum x = true) c)) as Hpos.
  { apply Exists_exists in Hx as (x & Hx & Ha).
    destruct (filter _ c) as [|y l] eqn:E; [|simpl; lia]. exfalso.
    assert (x ∈ filter (λ x, Names.is_alnum x = true) c) as Hin by (by apply list_elem_of_filter).
    rewrite E in Hin. set_solver. }
  destruct (Nat.ltb_spec Units.suffix_len
    (length (suffix ++ (Names.lower <$> filter (λ x, Names.is_alnum x = true) c)))) as [Hlt|Hge].
  - rewrite length_take. lia.
  - rewrite length_app, length_fmap. lia.
Qed.

Lemma dns_label_safe_spec name :
  Forall (λ c, label_char c = true) (Units.dns_label_safe name) ∧
  ∃ c, head (Units.dns_label_safe name) = Some c ∧ Names.is_lower c = true.
Proof.
  unfold Units.dns_label_safe. set (s0 := Names.sanitize <$> _).
  assert (Forall (λ c, label_char c = true) s0) as H0.
  { unfold s0. rewrite !Forall_fmap. apply Forall_true. intros c. apply sanitize_lower. }
  destruct (trim_start_spec s0) as (pre & E1 & _ & _).
  assert (Forall (λ c, label_char c = true) (Names.trim_start s0)) as H1
    by (rewrite E1 in H0; by apply Forall_app in H0 as [_ ?]).
  pose proof (trim_end_Forall _ _ H1) as H2.
  set (s1 := Names.trim_end (Names.trim_start s0)) in *. clearbody s1. clear -H2.
  set (s2 := match s1 with [] => lit "x" | _ => s1 end).
  assert (Forall (λ c, label_char c = true) s2 ∧ s2 ≠ []) as [H3 Hne].
  { unfold s2. destruct s1; [split; [repeat constructor|done]|done]. }
  clearbody s2. destruct s2 as [|c s2]; [done|].
  assert (∃ s3 d, (if Names.is_alpha c then c :: s2 else 97%Z :: c :: s2) = d :: s3 ∧
    Names.is_lower d = true ∧ Forall (λ c, label_char c = true) (d :: s3)) as (s3 & d & -> & Hd & H4).
  { apply Forall_cons in H3 as [Hc H3]. destruct (Names.is_alpha c) eqn:Ha.
    - exists s2, c. split_and!; [done| |by constructor]. revert Hc Ha.
      unfold label_char, Names.is_alpha. char_lia.
    - exists (c :: s2), 97%Z. split_and!; [done|done|repeat constructor; done]. }
  assert (d ≠ Names.dash) as Hdd by (intros ->; done).
  pose proof (trim_end_head (d :: s3) d eq_refl Hdd) as Hh.
  pose proof (trim_end_Forall _ _ H4) as H5.
  destruct (Names.trim_end (d :: s3)) as [|e t]; [done|]. injection Hh as ->.
  split; [done|]. by exists d.
Qed.

(** Generating an identifier ends as soon as eight candidates have a letter or a digit each,
    and what is generated is a valid DNS label: the start of the class name made safe and
    eight lower-case letters or digits. *)
Theorem deployment_id_valid class_name candidates :
  Forall (λ c, Exists (λ x, Names.is_alnum x = true) c) candidates →
  Units.suffix_len ≤ length candidates →
  ∃ base suffix, Units.gen_safe_deployment_id class_name candidates
                 = Some (base ++ [Names.dash] ++ suffix) ∧
  dns_label (base ++ [Names.dash] ++ suffix) ∧
  length suffix = 8 ∧ Forall (λ c, lower_alnum c = true) suffix ∧
  base `prefix_of` Units.dns_label_safe class_name.
Proof.
  intros Hc Hl. destruct (gather_enough [] candidates Hc Hl) as [suffix Es].
  destruct (gather_done [] candidates suffix ltac:(simpl; lia) ltac:(constructor) Es) as [Hsl Hsa].
  destruct (dns_label_safe_spec class_name) as [Hall (c & Hh & Hc')].
  unfold Units.gen_safe_deployment_id. rewrite Es. simpl option_bind.
  set (b := Units.dns_label_safe class_name) in *.
  set (u := if (63 - 1 - Units.suffix_len <? length b)%nat
            then take (63 - 1 - Units.suffix_len) b else b).
  assert (u `prefix_of` b ∧ head u = Some c ∧ length u ≤ 54) as (Hu & Hhu & Hlu).
  { unfold u, Units.suffix_len. destruct (Nat.ltb_spec (63 - 1 - 8) (length b)).
    - split; [exists (drop 54 b); by rewrite take_drop|]. split; [by destruct b|].
      rewrite length_take. lia.
    - split; [done|]. split; [done|lia]. }
  assert (c ≠ Names.dash) as Hcd by (intros ->; done).
  destruct (trim_end_spec u) as (suf & Eu & _ & _).
  pose proof (trim_end_head u c Hhu Hcd) as Hht. pose proof (trim_end_length u) as Hlt.
  destruct (Names.trim_end u) as [|d t] eqn:Et; [done|]. injection Hht as ->.
  exists (c :: t), suffix.
  assert ((c :: t) `prefix_of` b) as Hp.
  { destruct Hu as [r Hb]. rewrite Hb, Eu. exists (suf ++ r). by rewrite app_assoc. }
  split_and!; [done| |done|done|done].
  assert (Forall (λ c, label_char c = true) (c :: t)) as Hct.
  { destruct Hp as [r Hp]. rewrite Hp in Hall. by apply Forall_app in Hall as [? _]. }
  split; [|split; [|split]].
  - rewrite !length_app, Hsl. unfold Units.suffix_len. simpl in *. lia.
  - rewrite !Forall_app. split_and!; [done|repeat constructor|].
    eapply Forall_impl; [exact Hsa|]. intros x. unfold lower_alnum, label_char. char_lia.
  - exists c. done.
  - destruct suffix as [|x xs _] using rev_ind; [done|].
    rewrite app_assoc, app_assoc, last_snoc. apply Forall_app in Hsa as [_ Hx].
    apply Forall_cons in Hx as [Hx _]. intros [= ->]. done.
Qed.

Lemma deployment_id_valid_witness : ∃ base suffix,
  Units.gen_safe_deployment_id (lit "Order Item") (replicate 8 (lit "_a-Z9"))
  = Some (base ++ [Names.dash] ++ suffix) ∧ dns_label (base ++ [Names.dash] ++ suffix).
Proof.
  destruct (deployment_id_valid (lit "Order Item") (replicate 8 (lit "_a-Z9")))
    as (b & s & E & H & _).
  - decide_now.
  - vm_compute. lia.
  - by exists b, s.
Defined.
