(* ===== verification/PmCrm.v ===== *)
(** * The clusters of the package manager

    [control-plane/oprc-pm/src/crm/manager.rs]: the configured clusters, their health with a
    cache and retries, and the class runtimes of all of them. The calls to a cluster, pauses,
    the clock and random numbers are external. *)

From stdpp Require Import base tactics list numbers option gmap strings.
From Stdlib Require Import ZArith Lia.
From S2P Require Import Prelude BTree Float64 Routing Json PmModel PmUnits.

Set Default Proof Using "Type".

Record ClusterHealth := {
  ch_cluster_name : str;
  ch_status : str;
  ch_crm_version : option str;
  ch_last_seen : Z;
  node_count : option Z;
  ready_nodes : option Z;
  ch_availability : option f64;
}.

(** A class runtime as a cluster lists it: its identifier, the condition of its status, and the
    cluster it was found in. *)
Record RuntimeSummary := {
  rs_id : str;
  rs_condition : option Z;
  rs_cluster_name : option str;
}.

Record DeploymentStatus := {
  ds_id : str;
  ds_status : str;
  ds_phase : str;
  ds_message : option str;
  ds_last_updated : str;
}.

Record ClientConfig := {
  retry_attempts : nat;
  timeout_secs : option Z;
}.

Inductive PmRequest : Type :=
| HealthCheck (cluster : str)
| DeployUnit (cluster : str) (unit : DeploymentUnit)
| DeleteUnit (cluster id : str)
| ListRuntimes (cluster : str)
| GetRuntime (cluster id : str)
| GetStatus (cluster id : str)
| PmSleep (millis : Z)
| PmClock
| RandomU32
| Nanoid.

(** The answers: a health check may also time out, which is an error. *)
Record CrmWorld := {
  w_health : list PmRequest → CrmError + ClusterHealth;
  w_deploy : list PmRequest → CrmError + str;
  w_delete : list PmRequest → option CrmError;
  w_runtimes : list PmRequest → CrmError + list RuntimeSummary;
  w_runtime : list PmRequest → CrmError + RuntimeSummary;
  w_status : list PmRequest → CrmError + DeploymentStatus;
  w_clock : list PmRequest → Z;
  w_random : list PmRequest → Z;
  w_nanoid : list PmRequest → list str;
}.

Record CrmManager := {
  clients : list (str * ClientConfig);
  default_client : option str;
  health_cache_ttl : Z;
}.

Record CrmState := {
  health_cache : gmap str (ClusterHealth * Z);
  pm_log : list PmRequest;
}.

Module Crm_.
Section crm.
Context (w : CrmWorld) (m : CrmManager).
Local Open Scope prog_scope.

Definition healthy : str := lit "Healthy".

Definition ask {E A} (answer : list PmRequest → A) (r : PmRequest) : M CrmState E A := λ s,
  let h := pm_log s ++ [r] in
  (Ok (answer h), {| health_cache := health_cache s; pm_log := h |}).

Definition note {E} (r : PmRequest) : M CrmState E unit := ask (λ _, tt) r.

Definition set_cache (c : gmap str (ClusterHealth * Z)) : M CrmState CrmError unit :=
  modify (λ s, {| health_cache := c; pm_log := pm_log s |}).

Definition find_client (name : str) : option ClientConfig :=
  snd <$> (snd <$> list_find (λ c, c.1 = name) (clients m)).

Definition get_client (name : str) : M CrmState CrmError ClientConfig :=
  match find_client name with
  | Some c => ret c
  | None => throw (ClusterNotFound name)
  end.

Definition get_default_client : M CrmState CrmError str :=
  match default_client m with Some c => ret c | None => throw NoDefaultCluster end.

Definition list_clusters : list str := (clients m).*1.

(** [100u64.saturating_mul(1u64 << (attempt - 1))], for up to 64 attempts *)
Definition backoff (attempt : nat) : Z :=
  Z.min (100 * 2 ^ Z.of_nat (attempt - 1)) u64_max.

(** The attempts of a health check, [further] after the present one. *)
Fixpoint health_loop (name : str) (attempt further : nat) : M CrmState CrmError ClusterHealth :=
  let! r := ask (w_health w) (HealthCheck name) in
  match r with
  | inr h => ret h
  | inl e =>
      match further with
      | O => throw e
      | S further => note (PmSleep (backoff attempt)) ;;; health_loop name (S attempt) further
      end
  end.

Definition get_cluster_health (name : str) : M CrmState CrmError ClusterHealth :=
  let! cache := gets health_cache in
  let! fresh :=
    match cache !! name with
    | Some (h, at_) =>
        let! now := ask (w_clock w) PmClock in
        ret (if (now - at_ <? health_cache_ttl m)%Z && bool_decide (ch_status h = healthy)
             then Some h else None)
    | None => ret None
    end in
  match fresh with
  | Some h => ret h
  | None =>
      let! c := get_client name in
      let! h := health_loop name 1 (Nat.max (retry_attempts c) 1 - 1) in
      let! cache := gets health_cache in
      (if decide (ch_status h = healthy) then
         let! now := ask (w_clock w) PmClock in set_cache (<[name := (h, now)]> cache)
       else set_cache (delete name cache)) ;;;
      ret h
  end.

(** An error as a value ([match ... { Ok(h) => ..., Err(e) => ... }]). *)
Definition attempt_ {A} (c : M CrmState CrmError A) : M CrmState CrmError (CrmError + A) := λ s,
  match c s with
  | (Ok a, s') => (Ok (inr a), s')
  | (Err e, s') => (Ok (inl e), s')
  | (Panic p, s') => (Panic p, s')
  end.

Definition tag (cluster : str) (r : RuntimeSummary) : RuntimeSummary :=
  {| rs_id := rs_id r; rs_condition := rs_condition r; rs_cluster_name := Some cluster |}.

Fixpoint collect_runtimes (names : list str) : M CrmState CrmError (list RuntimeSummary) :=
  match names with
  | [] => ret []
  | c :: names =>
      let! rs := match find_client c with
                 | Some _ =>
                     let! r := ask (w_runtimes w) (ListRuntimes c) in
                     ret match r with inr rs => tag c <$> rs | inl _ => [] end
                 | None => ret []
                 end in
      let! rest := collect_runtimes names in
      ret (rs ++ rest)
  end.

Definition get_all_class_runtimes (cluster : option str) (limit : option nat) :
    M CrmState CrmError (list RuntimeSummary) :=
  let! all := collect_runtimes match cluster with Some c => [c] | None => list_clusters end in
  ret match limit with Some n => take n all | None => all end.

Fixpoint check_all (names : list str) : M CrmState CrmError (list (str * (CrmError + ClusterHealth))) :=
  match names with
  | [] => ret []
  | c :: names =>
      let! r := attempt_ (get_cluster_health c) in
      let! rest := check_all names in
      ret ((c, r) :: rest)
  end.

Definition is_healthy (r : CrmError + ClusterHealth) : bool :=
  match r with inr h => bool_decide (ch_status h = healthy) | inl _ => false end.

Definition get_healthy_clusters : M CrmState CrmError (list str) :=
  let! rs := check_all list_clusters in
  ret (filter (λ cr, is_healthy cr.2 = true) rs).*1.

(** The targets so far: the healthy ones and the others. *)
Fixpoint select_loop (targets avail other : list str) : M CrmState CrmError (list str) :=
  match targets with
  | [] => ret (avail ++ other)
  | c :: targets =>
      match find_client c with
      | None => throw (ClusterNotFound c)
      | Some _ =>
          let! r := attempt_ (get_cluster_health c) in
          if is_healthy r then select_loop targets (avail ++ [c]) other
          else select_loop targets avail (other ++ [c])
      end
  end.

Definition select_deployment_clusters (targets : list str) : M CrmState CrmError (list str) :=
  match targets with
  | [] =>
      let! h := get_healthy_clusters in
      match h with [] => throw ServiceUnavailable | _ => ret h end
  | _ => select_loop targets [] []
  end.
End crm.

(** The first cluster is the default when the configured one is not among them. *)
Definition new (configured : list (str * ClientConfig)) (default_cluster : option str) (ttl : Z) :
    CrmManager :=
  {| clients := configured;
     default_client :=
       match default_cluster with
       | Some d => if decide (d ∈ configured.*1) then Some d else head configured.*1
       | None => head configured.*1
       end;
     health_cache_ttl := ttl |}.
End Crm_.

(** ** Health *)

Definition cache_healthy (s : CrmState) : Prop :=
  map_Forall (λ _ e, ch_status (e : ClusterHealth * Z).1 = Crm_.healthy) (health_cache s).

Section health.
Context (w : CrmWorld) (m : CrmManager).

(** The requests of a health check with [n + 1] attempts. *)
Fixpoint health_trace (name : str) (attempt n : nat) : list PmRequest :=
  HealthCheck name ::
  match n with
  | O => []
  | S n => PmSleep (Crm_.backoff attempt) :: health_trace name (S attempt) n
  end.

Lemma health_loop_spec name attempt further s : ∃ n,
  n ≤ further ∧
  let s' := {| health_cache := health_cache s;
               pm_log := pm_log s ++ health_trace name attempt n |} in
  Crm_.health_loop w name attempt further s
  = (match w_health w (pm_log s') with inr h => Ok h | inl e => Err e end, s') ∧
  (is_Some (match w_health w (pm_log s') with inl e => Some e | inr _ => None end) → n = further).
Proof.
  revert attempt s. induction further as [|further IH]; intros attempt s; simpl;
    unfold bind, Crm_.ask; simpl.
  - exists 0. simpl. destruct (w_health w _) as [e|h]; (split; [lia|]); by split.
  - destruct (w_health w (pm_log s ++ [_])) as [e|h] eqn:E.
    2:{ exists 0. simpl. rewrite E. split; [lia|]. split; [done|]. by intros []. }
    simpl. destruct (IH (S attempt) {| health_cache := health_cache s;
      pm_log := (pm_log s ++ [HealthCheck name]) ++ [PmSleep (Crm_.backoff attempt)] |})
      as (n & Hn & Hl & Hr).
    exists (S n). simpl in *. rewrite <- !app_assoc in *. simpl in *.
    split; [lia|]. split; [exact Hl|]. intros ?. f_equal. by apply Hr.
Qed.

Definition health_checks (l : list PmRequest) : nat :=
  length (filter (λ q, match q with HealthCheck _ => true | _ => false end = true) l).

Lemma health_checks_app l1 l2 : health_checks (l1 ++ l2) = health_checks l1 + health_checks l2.
Proof. unfold health_checks. by rewrite filter_app, length_app. Qed.

Lemma health_trace_checks name attempt n : health_checks (health_trace name attempt n) = S n.
Proof.
  revert attempt. induction n as [|n IH]; intros attempt; [done|].
  simpl. unfold health_checks in *. rewrite filter_cons_True by done. simpl.
  rewrite filter_cons_False by done. by rewrite IH.
Qed.

(** What one call of [get_cluster_health] does to the state: [r] is its result. *)
Definition health_step (name : str) (s s' : CrmState) (r : res CrmError ClusterHealth) : Prop :=
  cache_healthy s' ∧
  match r with
  | Ok h => if decide (ch_status h = Crm_.healthy)
            then ∃ at_, health_cache s' !! name = Some (h, at_)
            else health_cache s' !! name = None
  | Err _ => health_cache s' = health_cache s
  | Panic _ => False
  end ∧
  (∀ other, other ≠ name → health_cache s' !! other = health_cache s !! other) ∧
  ∃ new, pm_log s' = pm_log s ++ new ∧
  health_checks new
  ≤ match Crm_.find_client m name with Some c => Nat.max (retry_attempts c) 1 | None => 0 end.

(** The part of [get_cluster_health] that asks the cluster. *)
Lemma health_asked name s s0 r s' (c : ClientConfig) :
  cache_healthy s → Crm_.find_client m name = Some c →
  health_cache s0 = health_cache s → (∃ new, pm_log s0 = pm_log s ++ new ∧ health_checks new = 0) →
  bind (Crm_.health_loop w name 1 (Nat.max (retry_attempts c) 1 - 1)) (λ h,
    bind (gets health_cache) (λ cache,
    bind (if decide (ch_status h = Crm_.healthy) then
            bind (Crm_.ask (w_clock w) PmClock) (λ now, Crm_.set_cache (<[name := (h, now)]> cache))
          else Crm_.set_cache (delete name cache)) (λ _, ret h))) s0 = (r, s') →
  health_step name s s' r.
Proof.
  intros Hs Hc Hsame (new & Hnew & Hzero) Hrun. unfold bind at 1 in Hrun.
  destruct (health_loop_spec name 1 (Nat.max (retry_attempts c) 1 - 1) s0) as (n & Hn & Hl & _).
  rewrite Hl in Hrun. clear Hl. simpl in Hrun. unfold health_step. rewrite Hc.
  assert (Hbound : health_checks (new ++ health_trace name 1 n) ≤ Nat.max (retry_attempts c) 1)
    by (rewrite health_checks_app, health_trace_checks; lia).
  destruct (w_health w _) as [e|h]; simpl in Hrun.
  - injection Hrun as <- <-. unfold cache_healthy. simpl. rewrite Hsame, Hnew.
    split; [done|]. split; [done|]. split; [done|]. exists (new ++ health_trace name 1 n).
    by rewrite <- app_assoc.
  - unfold bind, gets in Hrun. simpl in Hrun. case_decide as Hh; simpl in Hrun;
      injection Hrun as <- <-; unfold cache_healthy; simpl; rewrite Hsame, ?Hnew.
    + split; [by apply map_Forall_insert_2|]. split; [rewrite decide_True, lookup_insert_eq by done; by eexists|].
      split; [by intros o Ho; rewrite lookup_insert_ne|].
      exists (new ++ health_trace name 1 n ++ [PmClock]). rewrite !app_assoc. split; [done|].
      rewrite <- (app_assoc new), health_checks_app in *. rewrite health_checks_app in *.
      unfold health_checks at 3. simpl. lia.
    + split; [by apply map_Forall_delete|]. split; [by rewrite decide_False, lookup_delete_eq by done|].
      split; [by intros o Ho; rewrite lookup_delete_ne|].
      exists (new ++ health_trace name 1 n). by rewrite app_assoc.
Qed.

(** A health check keeps the cache free of clusters that are not healthy: a result is
    remembered exactly when it is healthy, and an unhealthy one removes what was
    remembered; and the cluster is asked at most as often as configured (at least once). *)
Lemma cluster_health_kept name s r s' :
  cache_healthy s → Crm_.get_cluster_health w m name s = (r, s') → health_step name s s' r.
Proof.
  intros Hs Hrun. unfold Crm_.get_cluster_health in Hrun. unfold bind at 1, gets at 1 in Hrun.
  simpl in Hrun. unfold bind at 1 in Hrun.
  assert (Hnone : ∀ s0 new, health_cache s0 = health_cache s → pm_log s0 = pm_log s ++ new →
    health_checks new = 0 → ∀ r', health_step name s s0 (Err r')).
  { intros s0 new Hc Hl Hz r'. unfold health_step, cache_healthy. rewrite Hc.
    split; [done|]. split; [done|]. split; [done|]. exists new. split; [done|]. lia. }
  destruct (health_cache s !! name) as [[h at_]|] eqn:E; simpl in Hrun.
  - unfold bind at 1, Crm_.ask at 1 in Hrun. simpl in Hrun.
    destruct (_ && bool_decide _) eqn:Hfresh; simpl in Hrun.
    + injection Hrun as <- <-. apply andb_true_iff in Hfresh as [_ Hh%bool_decide_eq_true].
      unfold health_step, cache_healthy. simpl. split; [done|].
      rewrite decide_True, E by done. split; [by eexists|]. split; [done|]. exists [PmClock]. split; [done|].
      unfold health_checks. simpl. lia.
    + unfold bind at 1, Crm_.get_client in Hrun.
      destruct (Crm_.find_client m name) as [c|] eqn:Hc; simpl in Hrun.
      * eapply health_asked in Hrun; try done. by exists [PmClock].
      * injection Hrun as <- <-. by apply (Hnone _ [PmClock]).
  - unfold bind at 1, Crm_.get_client in Hrun.
    destruct (Crm_.find_client m name) as [c|] eqn:Hc; simpl in Hrun.
    + eapply health_asked in Hrun; try done. exists []. by rewrite app_nil_r.
    + injection Hrun as <- <-. apply (Hnone _ []); try done. by rewrite app_nil_r.
Qed.

(** [select_loop] on the remaining targets. *)
Lemma select_loop_spec targets avail other s r s' :
  cache_healthy s → Crm_.select_loop w m targets avail other s = (r, s') →
  cache_healthy s' ∧
  (∀ c, c ∉ targets → health_cache s' !! c = health_cache s !! c) ∧
  match r with
  | Ok cs => ∃ a o, cs = (avail ++ a) ++ (other ++ o) ∧ a ++ o ≡ₚ targets ∧
      (∀ c, c ∈ targets → is_Some (Crm_.find_client m c)) ∧
      (NoDup targets → ∀ c, c ∈ a → is_Some (health_cache s' !! c))
  | Err e => ∃ c, e = ClusterNotFound c ∧ c ∈ targets ∧ Crm_.find_client m c = None
  | Panic _ => False
  end.
Proof.
  revert avail other s. induction targets as [|c targets IH]; intros avail other s Hs Hrun.
  - injection Hrun as <- <-. split; [done|]. split; [done|]. exists [], [].
    rewrite !app_nil_r. split; [done|]. split; [done|]. split; by intros; set_solver.
  - simpl in Hrun. destruct (Crm_.find_client m c) as [cc|] eqn:Hc.
    2:{ injection Hrun as <- <-. split; [done|]. split; [done|]. exists c. set_solver. }
    unfold bind at 1, Crm_.attempt_ in Hrun.
    destruct (Crm_.get_cluster_health w m c s) as [q s1] eqn:Hq.
    destruct (cluster_health_kept _ _ _ _ Hs Hq) as (Hs1 & Hr & Hothers & _).
    assert (Hstep : ∀ h : bool, (h = true → is_Some (health_cache s1 !! c)) →
      (if h then Crm_.select_loop w m targets (avail ++ [c]) other
       else Crm_.select_loop w m targets avail (other ++ [c])) s1 = (r, s') →
      cache_healthy s' ∧ (∀ d, d ∉ c :: targets → health_cache s' !! d = health_cache s !! d) ∧
      match r with
      | Ok cs => ∃ a o, cs = (avail ++ a) ++ (other ++ o) ∧ a ++ o ≡ₚ c :: targets ∧
          (∀ d, d ∈ c :: targets → is_Some (Crm_.find_client m d)) ∧
          (NoDup (c :: targets) → ∀ d, d ∈ a → is_Some (health_cache s' !! d))
      | Err e => ∃ d, e = ClusterNotFound d ∧ d ∈ c :: targets ∧ Crm_.find_client m d = None
      | Panic _ => False
      end).
    { intros h Hh Hrest.
      assert (∃ av ot, Crm_.select_loop w m targets av ot s1 = (r, s') ∧
        av = avail ++ (if h then [c] else []) ∧ ot = other ++ (if h then [] else [c]))
        as (av & ot & Hrun' & -> & ->)
        by (destruct h; do 2 eexists; rewrite ?app_nil_r; by split).
      destruct (IH _ _ _ Hs1 Hrun') as (Hs' & Hkeep & Hres). split; [done|].
      split; [intros d Hd; rewrite Hkeep, Hothers; set_solver|].
      destruct r as [cs|e|p]; [|destruct Hres as (d & ? & ? & ?); exists d; set_solver|done].
      destruct Hres as (a & o & -> & Hp & Hcl & Hav).
      exists ((if h then [c] else []) ++ a), ((if h then [] else [c]) ++ o).
      split; [by rewrite <- !app_assoc|]. split.
      { destruct h; simpl; [by rewrite Hp|]. by rewrite <- Permutation_middle, Hp. }
      split; [intros d [->|Hd]%elem_of_cons; [by rewrite Hc|by apply Hcl]|].
      intros [Hnc Hnd]%NoDup_cons d Hd. destruct h; simpl in Hd; [|by apply Hav].
      apply elem_of_cons in Hd as [->|Hd]; [|by apply Hav].
      rewrite Hkeep by done. by apply Hh. }
    destruct q as [h|e|p]; [| |done]; simpl in Hrun; [|by apply (Hstep false)].
    eapply Hstep; [|exact Hrun]. simpl. intros Hh%bool_decide_eq_true. rewrite decide_True in Hr by done.
    destruct Hr as [at_ ->]. by eexists.
Qed.

Lemma check_all_spec names s r s' :
  cache_healthy s → Crm_.check_all w m names s = (r, s') →
  cache_healthy s' ∧ ∃ rs, r = Ok rs ∧ rs.*1 = names.
Proof.
  revert s r s'. induction names as [|c names IH]; intros s r s' Hs Hrun.
  { injection Hrun as <- <-. split; [done|]. by exists []. }
  simpl in Hrun. unfold bind, Crm_.attempt_ in Hrun.
  destruct (Crm_.get_cluster_health w m c s) as [q s1] eqn:Hq.
  destruct (cluster_health_kept _ _ _ _ Hs Hq) as (Hs1 & Hr & _).
  assert (Hrest : ∀ (v : CrmError + ClusterHealth), (match Crm_.check_all w m names s1 with
    | (Ok rest, s'') => ret ((c, v) :: rest) s''
    | (Err e, s'') => (Err e, s'') | (Panic p, s'') => (Panic p, s'') end) = (r, s') →
    cache_healthy s' ∧ ∃ rs, r = Ok rs ∧ rs.*1 = c :: names).
  { intros v Hv. destruct (Crm_.check_all w m names s1) as [q2 s2] eqn:E2.
    destruct (IH _ _ _ Hs1 E2) as (Hs2 & rs & -> & <-). injection Hv as <- <-.
    split; [done|]. by exists ((c, v) :: rs). }
  destruct q as [h|e|p]; [| |done]; by eapply Hrest.
Qed.

(** Selecting the clusters of a deployment: given targets, all of them are used, each exactly
    as often as it was given, the healthy ones first (each with a healthy result remembered),
    and an unknown target is an error that names it; with no targets, the healthy clusters
    among the configured ones, and it is an error when there is none. It never panics. *)
Theorem clusters_selected targets s r s' :
  cache_healthy s → Crm_.select_deployment_clusters w m targets s = (r, s') →
  cache_healthy s' ∧
  match targets, r with
  | [], Ok cs => cs ≠ [] ∧ cs ⊆+ Crm_.list_clusters m
  | [], Err e => e = ServiceUnavailable
  | _, Ok cs => ∃ avail other, cs = avail ++ other ∧ cs ≡ₚ targets ∧
      (∀ c, c ∈ cs → is_Some (Crm_.find_client m c)) ∧
      (NoDup targets → ∀ c, c ∈ avail → is_Some (health_cache s' !! c))
  | _, Err e => ∃ c, e = ClusterNotFound c ∧ c ∈ targets ∧ Crm_.find_client m c = None
  | _, Panic _ => False
  end.
Proof.
  intros Hs Hrun. destruct targets as [|c targets]; simpl in Hrun.
  - unfold bind, Crm_.get_healthy_clusters in Hrun. unfold bind in Hrun.
    destruct (Crm_.check_all w m (Crm_.list_clusters m) s) as [q s1] eqn:Hq.
    destruct (check_all_spec _ _ _ _ Hs Hq) as (Hs1 & rs & -> & Hrs). simpl in Hrun.
    destruct (filter _ rs).*1 as [|d ds] eqn:Hf; injection Hrun as <- <-; split; try done.
    split; [done|]. rewrite <- Hf, <- Hrs. apply sublist_submseteq, fmap_sublist, sublist_filter.
  - destruct (select_loop_spec (c :: targets) [] [] _ _ _ Hs Hrun) as (Hs' & _ & Hr).
    split; [done|]. destruct r as [cs|e|p]; [|done..].
    destruct Hr as (a & o & -> & Hp & Hcl & Hav). exists a, o. simpl. split; [done|].
    split; [done|]. split; [|done]. intros d Hd. apply Hcl. by rewrite <- Hp.
Qed.
End health.

(** Calls that return, with or without an error. *)
Definition calm {S E A} (c : M S E A) : Prop :=
  ∀ s, match (c s).1 with Panic _ => False | _ => True end.

Lemma calm_bind {S E A B} (c : M S E A) (f : A → M S E B) :
  calm c → (∀ a, calm (f a)) → calm (bind c f).
Proof.
  intros Hc Hf s. specialize (Hc s). unfold bind.
  destruct (c s) as [[a|e|p] s']; [apply Hf|done..].
Qed.

Section calm.
Context (w : CrmWorld) (m : CrmManager).

Lemma calm_health name : calm (Crm_.get_cluster_health w m name).
Proof.
  assert (Hloop : ∀ further attempt, calm (Crm_.health_loop w name attempt further)).
  { induction further as [|further IH]; intros attempt; simpl;
      (apply calm_bind; [done|]; intros [e|h]; [|done]); [done|].
    apply calm_bind; [done|]. intros ?. apply IH. }
  apply calm_bind; [done|]. intros cache. apply calm_bind.
  { by destruct (cache !! name) as [[h at_]|]. }
  intros [h|]; [done|]. apply calm_bind.
  { unfold Crm_.get_client. by destruct (Crm_.find_client m name). }
  intros c. apply calm_bind; [apply Hloop|]. intros h. apply calm_bind; [done|].
  intros cache'. apply calm_bind; [|done]. by case_decide.
Qed.

Lemma calm_runtimes cluster limit : calm (Crm_.get_all_class_runtimes w m cluster limit).
Proof.
  apply calm_bind; [|done].
  induction (match cluster with Some c => [c] | None => Crm_.list_clusters m end)
    as [|c names IH]; simpl; [done|].
  apply calm_bind; [by destruct (Crm_.find_client m c)|]. intros rs.
  apply calm_bind; [apply IH|done].
Qed.
End calm.

Module DemoCrm.
Definition health (name status : str) : ClusterHealth :=
  {| ch_cluster_name := name; ch_status := status; ch_crm_version := None; ch_last_seen := 0%Z;
     node_count := None; ready_nodes := None; ch_availability := None |}.

(** Cluster [b] is healthy, any other cluster does not answer. *)
Definition world : CrmWorld :=
  {| w_health := λ h, match last h with
                      | Some (HealthCheck c) =>
                          if decide (c = lit "b") then inr (health c Crm_.healthy)
                          else inl ServiceUnavailable
                      | _ => inl ServiceUnavailable
                      end;
     w_deploy := λ _, inl ServiceUnavailable; w_delete := λ _, None;
     w_runtimes := λ _, inr []; w_runtime := λ _, inl ServiceUnavailable;
     w_status := λ _, inl ServiceUnavailable; w_clock := λ h, Z.of_nat (length h); w_random := λ _, 7%Z;
     w_nanoid := λ _, [] |}.

Definition manager : CrmManager :=
  Crm_.new [(lit "a", {| retry_attempts := 2; timeout_secs := None |});
            (lit "b", {| retry_attempts := 0; timeout_secs := None |})] None 10.

Definition start : CrmState := {| health_cache := ∅; pm_log := [] |}.

Lemma clusters_selected_witness :
  fst (Crm_.select_deployment_clusters world manager [lit "a"; lit "b"] start)
  = Ok [lit "b"; lit "a"] ∧
  ∃ avail other, [lit "b"; lit "a"] = avail ++ other ∧ [lit "b"; lit "a"] ≡ₚ [lit "a"; lit "b"] ∧
    (∀ c, c ∈ [lit "b"; lit "a"] → is_Some (Crm_.find_client manager c)) ∧
    (NoDup [lit "a"; lit "b"] → ∀ c, c ∈ avail → is_Some (health_cache
       (snd (Crm_.select_deployment_clusters world manager [lit "a"; lit "b"] start)) !! c)).
Proof.
  split; [vm_compute; reflexivity|].
  refine (proj2 (clusters_selected world manager [lit "a"; lit "b"] start
    (Ok [lit "b"; lit "a"]) _ _ _)); [apply map_Forall_empty|vm_compute; reflexivity].
Defined.
End DemoCrm.
