(* ===== verification/PmDeploy.v ===== *)
(** * Deploying a class

    [control-plane/oprc-pm/src/services/deployment/workflow.rs] and [requirements.rs]: choosing
    the environments of a deployment, storing it, sending a unit to each environment with
    retries, rolling back, listing and deleting. The storage is any implementation of
    [DeploymentStorage]; the clusters are those of [PmCrm.v]. *)

From stdpp Require Import base tactics list list_numbers numbers option gmap strings sorting.
From Stdlib Require Import ZArith Lia.
From S2P Require Import Prelude BTree Float64 Routing Json Metadata Placement Quorum PmModel PmUnits PmCrm.

Set Default Proof Using "Type".

Record DeploymentPolicyConfig := {
  max_retries : nat;
  rollback_on_partial : bool;
  package_delete_cascade : bool;
}.

(** The filter of the service; [target_cluster] is not read. *)
Record ServiceFilter := {
  sf_package_name : option str;
  sf_class_key : option str;
  sf_target_env : option str;
  sf_limit : option nat;
  sf_offset : option nat;
}.

(** The storage, the clusters, and the rollbacks that were spawned as tasks of their own. *)
Record PmState (S : Type) := {
  store : S;
  crm : CrmState;
  spawned : list (list (str * str) * str);
}.
Arguments store {S} _.
Arguments crm {S} _.
Arguments spawned {S} _.

Module Deploy.
Section deploy.
Context {S : Type} `{!DeploymentStorage S} (w : CrmWorld) (m : CrmManager) (policy : DeploymentPolicyConfig).
Local Open Scope prog_scope.

Notation PM A := (M (PmState S) PackageManagerError A).

Definition set_store (x : S) (s : PmState S) : PmState S :=
  {| store := x; crm := crm s; spawned := spawned s |}.
Definition set_crm (x : CrmState) (s : PmState S) : PmState S :=
  {| store := store s; crm := x; spawned := spawned s |}.

Definition on_store {A} (c : M S CpStorageError A) : PM A :=
  map_err EStorage (zoom store set_store c).
Definition on_crm {A} (f : CrmError → PackageManagerError) (c : M CrmState CrmError A) : PM A :=
  map_err f (zoom crm set_crm c).
Definition asked {A} (answer : list PmRequest → A) (r : PmRequest) : PM A :=
  on_crm ECrm (Crm_.ask answer r).

Definition invalid {A} (msg : str) : PM A := throw (EDeployment (DepInvalid msg)).

(** *** Requirements *)

(** [(r as f64 / n as f64).clamp(0.0, 1.0)] *)
Definition ready_ratio (r n : Z) : f64 :=
  F64.clamp (F64.div (F64.of_Z r) (F64.of_Z n)) F64.zero F64.one.

Definition cluster_ratio (c : str) (h : ClusterHealth) : PM f64 :=
  match ch_availability h with
  | Some av => ret (F64.clamp av F64.zero F64.one)
  | None =>
      match ready_nodes h, node_count h with
      | Some r, Some n =>
          if (n =? 0)%Z then invalid (lit "Cluster " ++ c ++ lit " reported zero nodes")
          else ret (ready_ratio r n)
      | _, _ => invalid (lit "Cluster " ++ c ++ lit " missing availability and ready/node counts")
      end
  end.

Fixpoint ratios (clusters : list str) : PM (list f64) :=
  match clusters with
  | [] => ret []
  | c :: clusters =>
      let! h := on_crm (λ e, EDeployment (DepInvalid
                  (lit "Failed to get cluster health for " ++ c ++ lit ": " ++ crm_text e)))
                  (Crm_.get_cluster_health w m c) in
      let! p := cluster_ratio c h in
      let! ps := ratios clusters in
      ret (p :: ps)
  end.

(** The majority of a strongly consistent class: 2f + 1 with at least one failure, cut to 50. *)
Definition strong_replicas (n : nat) : nat :=
  let quorum := (n / 2 + 1)%nat in
  let f := (quorum - 1)%nat in
  let f := if (f =? 0)%nat then 1%nat else f in
  let strong_needed := (2 * f + 1)%nat in
  let n := if (n <? strong_needed)%nat then strong_needed else n in
  if (50 <? n)%nat then 50%nat else n.

Definition target_availability (nfr : NfrRequirements) : f64 :=
  match availability nfr with
  | Some av => if F64.le F64.zero av && F64.le av F64.one then av else F64.lit 99 100
  | None => F64.lit 99 100
  end.

Definition calculate_requirements (cls : OClass) (dep : OClassDeployment) :
    PM DeploymentRequirements :=
  let! rs := ratios (target_envs dep) in
  match rs with
  | [] => invalid (lit "No cluster health data available for availability calculation")
  | _ =>
      let sorted := sort_by F64.cmp_or_equal rs in
      let n := Quorum.required_replicas (target_availability (dep_nfr dep)) sorted 50 in
      (if (length sorted <? n)%nat then panic "range end index out of range" else ret tt) ;;;
      let n := match state_spec cls with
               | Some spec => if decide (consistency_model spec = Strong) then strong_replicas n else n
               | None => n
               end in
      ret {| min_replicas := 1; max_replicas_ := 100; target_replicas := Z.of_nat n |}
  end.

(** *** Environments *)

Definition select_candidate_envs (dep : OClassDeployment) : PM (list str) :=
  let all_clusters := Crm_.list_clusters m in
  let envs := match target_envs dep with
              | [] => match available_envs dep with
                      | [] => all_clusters
                      | av => filter (λ c, c ∈ all_clusters) av
                      end
              | ts => ts
              end in
  match envs with
  | [] => invalid
      (lit "No eligible environments found (check available_envs or cluster config)")
  | _ => ret envs
  end.

Definition temp_deployment_with_envs (dep : OClassDeployment) (envs : list str) :
    OClassDeployment :=
  {| dep_key := dep_key dep; dep_package_name := dep_package_name dep;
     dep_class_key := dep_class_key dep; target_envs := envs;
     available_envs := available_envs dep; dep_nfr := dep_nfr dep;
     env_templates := env_templates dep; dep_functions := dep_functions dep;
     dep_condition := dep_condition dep; dep_odgm := dep_odgm dep;
     dep_telemetry := dep_telemetry dep; dep_status := dep_status dep;
     created_at := created_at dep; updated_at := updated_at dep |}.

(** The availability of an environment for the selection; unlike in [cluster_ratio], what is
    missing counts as zero. *)
Definition env_availability (r : CrmError + ClusterHealth) : f64 :=
  match r with
  | inr h =>
      let p := match ch_availability h with
               | Some av => av
               | None =>
                   match ready_nodes h, node_count h with
                   | Some r, Some n => if (n =? 0)%Z then F64.zero else ready_ratio r n
                   | _, _ => F64.zero
                   end
               end in
      F64.clamp p F64.zero F64.one
  | inl _ => F64.zero
  end.

Fixpoint env_avails (envs : list str) : PM (list (str * f64)) :=
  match envs with
  | [] => ret []
  | c :: envs =>
      let! r := tried (zoom crm set_crm (Crm_.get_cluster_health w m c)) in
      let! rest := env_avails envs in
      ret ((c, env_availability r) :: rest)
  end.

(** Best first: [b.1.partial_cmp(&a.1)] *)
Definition best_first (a b : str * f64) : comparison := F64.cmp_or_equal b.2 a.2.

Definition select_environments (dep : OClassDeployment) (candidates : list str) (n : Z) :
    PM (list str * list (str * f64)) :=
  let! avails := env_avails candidates in
  let avails := sort_by best_first avails in
  let selected := (take (Nat.max (Z.to_nat n) 1) avails).*1 in
  ret (match target_envs dep with [] => selected | ts => ts end, avails).

Definition compute_achieved_quorum (selected : list str) (avails : list (str * f64)) : f64 :=
  let found := omap (λ n, snd <$> (snd <$> list_find (λ ca, ca.1 = n) avails)) selected in
  match sort_by F64.cmp_or_equal found with
  | [] => F64.zero
  | l => Quorum.cluster_quorum_availability l
  end.

Definition with_replicas (n : Z) (o : OdgmDataSpec) : OdgmDataSpec :=
  {| od_collections := od_collections o; od_partition_count := od_partition_count o;
     od_replica_count := Some n; od_shard_type := od_shard_type o;
     env_node_ids := env_node_ids o; od_log := od_log o; od_options := od_options o;
     zenoh_mode := zenoh_mode o |}.

Definition prepare_effective_deployment (dep : OClassDeployment) (selected : list str)
    (achieved : f64) : OClassDeployment :=
  {| dep_key := dep_key dep; dep_package_name := dep_package_name dep;
     dep_class_key := dep_class_key dep;
     target_envs := match target_envs dep with [] => selected | ts => ts end;
     available_envs := available_envs dep; dep_nfr := dep_nfr dep;
     env_templates := env_templates dep; dep_functions := dep_functions dep;
     dep_condition := dep_condition dep;
     dep_odgm := with_replicas (Z.of_nat (length selected)) <$> dep_odgm dep;
     dep_telemetry := dep_telemetry dep;
     dep_status := Some {| replication_factor := Z.of_nat (length selected);
                           selected_envs := selected;
                           achieved_quorum_availability := Some achieved; last_error := None |};
     created_at := created_at dep; updated_at := updated_at dep |}.

Definition with_odgm (o : OdgmDataSpec) (dep : OClassDeployment) : OClassDeployment :=
  {| dep_key := dep_key dep; dep_package_name := dep_package_name dep;
     dep_class_key := dep_class_key dep; target_envs := target_envs dep;
     available_envs := available_envs dep; dep_nfr := dep_nfr dep;
     env_templates := env_templates dep; dep_functions := dep_functions dep;
     dep_condition := dep_condition dep; dep_odgm := Some o;
     dep_telemetry := dep_telemetry dep; dep_status := dep_status dep;
     created_at := created_at dep; updated_at := updated_at dep |}.

Fixpoint random_ids (envs : list str) (ids : gmap str (list Z)) : PM (gmap str (list Z)) :=
  match envs with
  | [] => ret ids
  | env :: envs =>
      let! id := asked (w_random w) RandomU32 in
      random_ids envs (<[env := [id]]> ids)
  end.

Definition with_ids (ids : gmap str (list Z)) (o : OdgmDataSpec) : OdgmDataSpec :=
  {| od_collections := od_collections o; od_partition_count := od_partition_count o;
     od_replica_count := od_replica_count o; od_shard_type := od_shard_type o;
     env_node_ids := ids; od_log := od_log o; od_options := od_options o;
     zenoh_mode := zenoh_mode o |}.

Definition ensure_odgm_node_ids (effective : OClassDeployment) (selected : list str) :
    PM OClassDeployment :=
  match dep_odgm effective with
  | Some o =>
      if decide (env_node_ids o = ∅) then
        let! ids := random_ids selected ∅ in
        ret (with_odgm (with_ids ids o) effective)
      else ret effective
  | None => ret effective
  end.

(** *** Units *)

(** The generated identifiers need enough characters from nanoid; the loop that draws them
    does not end otherwise. *)
Fixpoint create_deployment_units (cls : OClass) (dep : OClassDeployment)
    (req : DeploymentRequirements) (envs : list str) : PM (list DeploymentUnit) :=
  match envs with
  | [] => ret []
  | env :: envs =>
      let! candidates := asked (w_nanoid w) Nanoid in
      match Units.gen_safe_deployment_id (cls_key cls) candidates with
      | None => panic "no end of nanoids"
      | Some id =>
          let! now := asked (w_clock w) PmClock in
          asked (w_clock w) PmClock ;;;
          let! rest := create_deployment_units cls dep req envs in
          ret (Units.create_deployment_units_for_env cls dep env req id now :: rest)
      end
  end.

(** One unit: the attempts, [further] after the present one. A mapping that cannot be saved
    is only reported. *)
Fixpoint dispatch_unit (key : str) (u : DeploymentUnit) (attempt further : nat) :
    PM (option str) :=
  let cluster := unit_target_env u in
  let! done_ :=
    match Crm_.find_client m cluster with
    | Some _ =>
        let! r := asked (w_deploy w) (DeployUnit cluster u) in
        match r with
        | inr id =>
            let! _ := tried (zoom store set_store (save_cluster_mapping key cluster id)) in
            ret (Some id)
        | inl _ => ret None
        end
    | None => ret None
    end in
  match done_ with
  | Some id => ret (Some id)
  | None =>
      match further with
      | O => ret None
      | Datatypes.S further =>
          asked (λ _, tt) (PmSleep (200 * Z.of_nat attempt)) ;;;
          dispatch_unit key u (Datatypes.S attempt) further
      end
  end.

(** [max_retries] attempts follow the first one. *)
Fixpoint dispatch_units_with_retry (key : str) (units : list DeploymentUnit) :
    PM (list (str * str)) :=
  match units with
  | [] => ret []
  | u :: units =>
      let! r := dispatch_unit key u 1 (max_retries policy) in
      let! rest := dispatch_units_with_retry key units in
      ret match r with Some id => (unit_target_env u, id) :: rest | None => rest end
  end.

Definition rollback (successes : list (str * str)) (key : str) : PM unit :=
  modify (λ s, {| store := store s; crm := crm s; spawned := spawned s ++ [(successes, key)] |}).

(** What a spawned rollback does when it runs. *)
Fixpoint rollback_task (successes : list (str * str)) (key : str) : PM unit :=
  match successes with
  | [] => let! _ := tried (zoom store set_store (remove_cluster_mappings key)) in ret tt
  | (cluster, id) :: successes =>
      match Crm_.find_client m cluster with
      | Some _ => asked (w_delete w) (DeleteUnit cluster id) ;;; rollback_task successes key
      | None => rollback_task successes key
      end
  end.

Definition finalize_dispatch (successes : list (str * str)) (effective : OClassDeployment)
    (key : str) : PM str :=
  match successes with
  | [] => invalid (lit "Deployment failed in all clusters")
  | (_, id) :: _ =>
      if (length successes =? length (target_envs effective))%nat then ret id
      else if rollback_on_partial policy then
        rollback successes key ;;;
        invalid (lit "Deployment rolled back due to partial failure")
      else ret id
  end.

Definition with_updated_at (now : Z) (dep : OClassDeployment) : OClassDeployment :=
  {| dep_key := dep_key dep; dep_package_name := dep_package_name dep;
     dep_class_key := dep_class_key dep; target_envs := target_envs dep;
     available_envs := available_envs dep; dep_nfr := dep_nfr dep;
     env_templates := env_templates dep; dep_functions := dep_functions dep;
     dep_condition := dep_condition dep; dep_odgm := dep_odgm dep;
     dep_telemetry := dep_telemetry dep; dep_status := dep_status dep;
     created_at := created_at dep; updated_at := Some now |}.

Definition deploy_class (cls : OClass) (dep : OClassDeployment) : PM str :=
  let! candidates := select_candidate_envs dep in
  let temp := temp_deployment_with_envs dep candidates in
  let! req := calculate_requirements cls temp in
  let! (selected, avails) := select_environments dep candidates (target_replicas req) in
  let achieved := compute_achieved_quorum selected avails in
  let effective := prepare_effective_deployment dep selected achieved in
  let! effective := ensure_odgm_node_ids effective selected in
  let! units := create_deployment_units cls effective req (target_envs effective) in
  let! now := asked (w_clock w) PmClock in
  let effective := with_updated_at now effective in
  on_store (store_deployment effective) ;;;
  let! successes := dispatch_units_with_retry (dep_key dep) units in
  finalize_dispatch successes effective (dep_key dep).

(** *** Listing, reading, deleting *)

Definition condition_severity (c : DeploymentCondition) : nat :=
  match c with
  | DDown | DDeleted => 4
  | DDeploying => 3
  | DPending => 2
  | DRunning => 1
  end.

(** The numbers of the protocol; one it does not define counts as pending. *)
Definition map_proto_condition (c : Z) : DeploymentCondition :=
  match c with
  | 3 => DRunning | 2 => DDeploying | 4 => DDown | 5 => DDeleted | _ => DPending
  end%Z.

(** The condition after one runtime more. *)
Definition worse (overall : option DeploymentCondition) (c : DeploymentCondition) :
    option DeploymentCondition :=
  match overall with
  | Some o => if (condition_severity o <? condition_severity c)%nat then Some c else Some o
  | None => Some c
  end.

Definition runtime_condition (runtimes : gmap str RuntimeSummary) (id : str) :
    option DeploymentCondition :=
  r ← runtimes !! id; map_proto_condition <$> rs_condition r.

(** The runtimes a deployment is mapped to, in the order of the hash map. *)
Definition overall_condition (runtimes : gmap str RuntimeSummary) (mapped : gmap str str) :
    option DeploymentCondition :=
  foldl worse None (omap (runtime_condition runtimes) (map_to_list mapped).*2).

Definition with_condition (c : DeploymentCondition) (now : Z) (dep : OClassDeployment) :
    OClassDeployment :=
  {| dep_key := dep_key dep; dep_package_name := dep_package_name dep;
     dep_class_key := dep_class_key dep; target_envs := target_envs dep;
     available_envs := available_envs dep; dep_nfr := dep_nfr dep;
     env_templates := env_templates dep; dep_functions := dep_functions dep;
     dep_condition := c; dep_odgm := dep_odgm dep;
     dep_telemetry := dep_telemetry dep; dep_status := dep_status dep;
     created_at := created_at dep; updated_at := Some now |}.

Fixpoint attach_loop (runtimes : gmap str RuntimeSummary) (deps : list OClassDeployment) :
    PM (list OClassDeployment) :=
  match deps with
  | [] => ret []
  | d :: deps =>
      let! r := tried (zoom store set_store (get_cluster_mappings (dep_key d))) in
      let! d' := match r with
                 | inr mapped =>
                     match overall_condition runtimes mapped with
                     | Some c =>
                         let! now := asked (w_clock w) PmClock in ret (with_condition c now d)
                     | None => ret d
                     end
                 | inl _ => ret d
                 end in
      let! rest := attach_loop runtimes deps in
      ret (d' :: rest)
  end.

Definition attach_runtime_conditions (deps : list OClassDeployment) :
    PM (list OClassDeployment) :=
  match deps with
  | [] => ret []
  | _ =>
      let! r := tried (zoom crm set_crm (Crm_.get_all_class_runtimes w m None None)) in
      match r with
      | inl _ => ret deps
      | inr items => attach_loop (foldl (λ rs r, <[rs_id r := r]> rs) ∅ items) deps
      end
  end.

Definition list_deployments (f : ServiceFilter) : PM (list OClassDeployment) :=
  let! deps := on_store (PmModel.list_deployments
                 {| f_package_name := sf_package_name f; f_class_key := sf_class_key f;
                    f_target_env := sf_target_env f; f_condition := None |}) in
  let! deps := attach_runtime_conditions deps in
  let deps := match sf_offset f with Some n => drop n deps | None => deps end in
  ret match sf_limit f with Some n => take n deps | None => deps end.

Definition get_deployment (key : str) : PM (option OClassDeployment) :=
  on_store (PmModel.get_deployment key).

(** The environments of a deployment: the selected ones if any were, else the targets. *)
Definition deployed_envs (dep : OClassDeployment) : list str :=
  match dep_status dep with
  | Some st => match selected_envs st with [] => target_envs dep | envs => envs end
  | None => target_envs dep
  end.

Fixpoint delete_from (key : str) (ids : gmap str str) (envs : list str) : PM unit :=
  match envs with
  | [] => ret tt
  | c :: envs =>
      match Crm_.find_client m c with
      | Some _ =>
          asked (w_delete w) (DeleteUnit c (default key (ids !! c))) ;;; delete_from key ids envs
      | None => delete_from key ids envs
      end
  end.

Definition delete_deployment (key : str) : PM unit :=
  let! found := on_store (PmModel.get_deployment key) in
  match found with
  | None => throw (EDeployment (DepNotFound key))
  | Some dep =>
      let! r := tried (zoom store set_store (PmModel.get_cluster_mappings (dep_key dep))) in
      let ids := match r with inr ids => ids | inl _ => ∅ end in
      delete_from key ids (deployed_envs dep) ;;;
      on_store (PmModel.delete_deployment key) ;;;
      let! _ := tried (zoom store set_store (PmModel.remove_cluster_mappings key)) in
      ret tt
  end.

Definition get_cluster_mappings (key : str) : PM (gmap str str) :=
  on_store (PmModel.get_cluster_mappings key).
End deploy.
End Deploy.

(** ** Calls that touch only the clusters *)

Section reads.
Context {S : Type}.

(** [c] leaves the storage and the spawned tasks alone, does not panic, and what it returns
    satisfies [P]. *)
Definition reads {A} (c : M (PmState S) PackageManagerError A) (P : A → Prop) : Prop :=
  ∀ s, ∃ x, match c s with
            | (Ok a, s') => s' = Deploy.set_crm x s ∧ P a
            | (Err _, s') => s' = Deploy.set_crm x s
            | (Panic _, _) => False
            end.

Lemma set_crm_same (s : PmState S) : s = Deploy.set_crm (crm s) s.
Proof. by destruct s. Qed.

Lemma reads_ret {A} (a : A) (P : A → Prop) : P a → reads (ret a) P.
Proof. intros ? s. exists (crm s). split; [apply set_crm_same|done]. Qed.

Lemma reads_throw {A} e (P : A → Prop) : reads (throw e) P.
Proof. intros s. exists (crm s). apply set_crm_same. Qed.

Lemma reads_bind {A B} (c : M (PmState S) PackageManagerError A)
    (f : A → M (PmState S) PackageManagerError B) P Q :
  reads c P → (∀ a, P a → reads (f a) Q) → reads (bind c f) Q.
Proof.
  intros Hc Hf s. destruct (Hc s) as [x Hx]. unfold bind.
  destruct (c s) as [[a|e|p] s']; [|by exists x|done]. destruct Hx as [-> Ha].
  destruct (Hf a Ha (Deploy.set_crm x s)) as [y Hy]. exists y.
  by destruct (f a _) as [[] ?].
Qed.

Lemma reads_weaken {A} (c : M (PmState S) PackageManagerError A) (P Q : A → Prop) :
  reads c P → (∀ a, P a → Q a) → reads c Q.
Proof.
  intros Hc HPQ s. destruct (Hc s) as [x Hx]. exists x.
  destruct (c s) as [[a|e|p] s']; [|done..]. destruct Hx. auto.
Qed.

Lemma reads_on_crm {A} f (c : M CrmState CrmError A) : calm c → reads (Deploy.on_crm f c) (λ _, True).
Proof.
  intros Hc s. unfold Deploy.on_crm, map_err, zoom. specialize (Hc (crm s)).
  destruct (c (crm s)) as [[a|e|p] x]; [by exists x..|done].
Qed.

Lemma reads_tried {A} (c : M CrmState CrmError A) :
  calm c → reads (tried (zoom crm Deploy.set_crm c)) (λ _, True).
Proof.
  intros Hc s. unfold tried, zoom. specialize (Hc (crm s)).
  destruct (c (crm s)) as [[a|e|p] x]; [by exists x..|done].
Qed.

Lemma reads_asked {A} (answer : list PmRequest → A) r : reads (Deploy.asked answer r) (λ _, True).
Proof. by apply reads_on_crm. Qed.

(** [c] reads, then fails or continues as one of [K]. *)
Definition leads {A} (K : M (PmState S) PackageManagerError A → Prop)
    (c : M (PmState S) PackageManagerError A) : Prop :=
  ∀ s, ∃ x, (∃ e, c s = (Err e, Deploy.set_crm x s)) ∨
            (∃ k, K k ∧ c s = k (Deploy.set_crm x s)).

Lemma leads_done {A} (K : M (PmState S) PackageManagerError A → Prop) c : K c → leads K c.
Proof.
  intros Hc s. exists (crm s). right. exists c. split; [done|]. by rewrite <- set_crm_same.
Qed.

Lemma leads_bind {A B} (K : M (PmState S) PackageManagerError B → Prop)
    (c : M (PmState S) PackageManagerError A)
    (f : A → M (PmState S) PackageManagerError B) P :
  reads c P → (∀ a, P a → leads K (f a)) → leads K (bind c f).
Proof.
  intros Hc Hf s. destruct (Hc s) as [x Hx]. unfold bind.
  destruct (c s) as [[a|e|p] s']; [|exists x; left; exists e; by subst|done].
  destruct Hx as [-> Ha]. destruct (Hf a Ha (Deploy.set_crm x s)) as [y Hy]. by exists y.
Qed.
End reads.

#[export] Hint Resolve reads_asked calm_health calm_runtimes : oprc.

(** ** Requirements *)

Section requirements.
Context {S : Type} `{!DeploymentStorage S} (w : CrmWorld) (m : CrmManager).

Lemma reads_health {A} f c (k : ClusterHealth → M (PmState S) PackageManagerError A) P :
  (∀ h, reads (k h) P) → reads (bind (Deploy.on_crm f (Crm_.get_cluster_health w m c)) k) P.
Proof. intros Hk. eapply reads_bind; [apply reads_on_crm, calm_health|]. auto. Qed.

Lemma reads_ratios cs : reads (S:=S) (Deploy.ratios w m cs) (λ rs, length rs = length cs).
Proof.
  induction cs as [|c cs IH]; simpl; [by apply reads_ret|]. apply reads_health. intros h.
  apply (reads_bind _ _ (λ _, True)).
  - unfold Deploy.cluster_ratio, Deploy.invalid. destruct (ch_availability h); [by apply reads_ret|].
    destruct (ready_nodes h), (node_count h); try apply reads_throw.
    case_match; [apply reads_throw|by apply reads_ret].
  - intros p _. eapply reads_bind; [exact IH|]. intros ps <-. by apply reads_ret.
Qed.

Lemma strong_replicas_spec n : 1 ≤ n ≤ 50 →
  3 ≤ Deploy.strong_replicas n ≤ 50 ∧
  (Z.odd (Z.of_nat (Deploy.strong_replicas n)) = true ∨ Deploy.strong_replicas n = 50) ∧
  n ≤ Deploy.strong_replicas n.
Proof.
  intros Hn. do 51 (destruct n as [|n]; [first [lia | vm_compute; intuition lia]|]). lia.
Qed.

Lemma requirements_read cls dep :
  reads (S:=S) (Deploy.calculate_requirements w m cls dep) (λ req,
    ∃ n, n ≤ length (target_envs dep) ∧ 1 ≤ n ≤ 50 ∧
    target_replicas req = Z.of_nat
      (if decide (consistency_model <$> state_spec cls = Some Strong)
       then Deploy.strong_replicas n else n)).
Proof.
  unfold Deploy.calculate_requirements. eapply reads_bind; [apply reads_ratios|].
  intros rs Hrs. destruct rs as [|r rs]; [apply reads_throw|].
  set (sorted := sort_by F64.cmp_or_equal (r :: rs)).
  assert (Hsorted : length sorted = length (r :: rs)) by apply sort_by_length.
  assert (Hne : sorted ≠ []) by (by destruct sorted).
  unfold Quorum.required_replicas.
  destruct (required_replicas_bounds Quorum.upper_f64
    (Deploy.target_availability (dep_nfr dep)) sorted 50 Hne) as [Hb Hl].
  set (n := Quorum.required_replicas_quorum _ _ sorted 50) in *.
  apply (reads_bind _ _ (λ _, True)).
  { destruct (Nat.ltb_spec (length sorted) n); [lia|by apply reads_ret]. }
  intros _ _. apply reads_ret. exists n. split; [lia|]. split; [lia|]. simpl. f_equal.
  destruct (state_spec cls) as [spec|]; [|done]. simpl.
  destruct (decide (consistency_model spec = Strong)) as [E|E].
  - by rewrite decide_True by (by rewrite E).
  - by rewrite decide_False by naive_solver.
Qed.

End requirements.

(** ** Environments *)

Section environments.
Context {S : Type} `{!DeploymentStorage S} (w : CrmWorld) (m : CrmManager).

Lemma reads_env_avails envs : reads (S:=S) (Deploy.env_avails w m envs) (λ l, l.*1 = envs).
Proof.
  induction envs as [|c envs IH]; simpl; [by apply reads_ret|].
  eapply reads_bind; [apply reads_tried, calm_health|]. intros r _.
  eapply reads_bind; [exact IH|]. intros l <-. by apply reads_ret.
Qed.

Lemma not_better x y : number x → number y → F64.cmp_or_equal y x ≠ Gt → F64.lt x y = false.
Proof.
  intros Hx Hy. rewrite cmp_flip_f64 by done. unfold F64.cmp_or_equal, F64.lt, SpecFloat.SFltb.
  fold (F64.partial_cmp x y). rewrite F64.partial_cmp_key by done. simpl.
  by destruct (F64.key_compare _ _).
Qed.

(** Sorted best first, none after the first [k] is better than one of them. *)
Lemma best_first_split (l : list (str * f64)) k a b :
  let l' := sort_by Deploy.best_first l in
  Forall (λ a, number a.2) l' → a ∈ take k l' → b ∈ drop k l' → F64.lt a.2 b.2 = false.
Proof.
  intros l' Hl Ha Hb. assert (Hin : number a.2 ∧ number b.2).
  { rewrite Forall_forall in Hl. split; apply Hl.
    - by apply (subseteq_take k).
    - by apply (subseteq_drop k). }
  destruct Hin. apply not_better; [done..|].
  assert (Hs : StronglySorted (λ a b, Deploy.best_first a b ≠ Gt) (take k l' ++ drop k l')).
  { rewrite take_drop. apply (sort_by_sorted Deploy.best_first (λ a, number a.2)).
    - intros. by apply cmp_flip_f64.
    - intros x y z ???? ?. by apply (cmp_trans_f64 z.2 y.2 x.2).
    - unfold l' in Hl. by rewrite sort_by_perm in Hl. }
  by apply (StronglySorted_app_1_elem_of _ _ _ a b) in Hs.
Qed.

(** The environments of a deployment without targets are the best of the candidates: as many
    as there are replicas (at least one, at most all), and none that is left out has a higher
    availability than one that is taken, when the availabilities are comparable. Targets
    are taken as they are given. *)
Theorem environments_best dep candidates n :
  reads (S:=S) (Deploy.select_environments w m dep candidates n) (λ '(selected, avails),
    avails.*1 ≡ₚ candidates ∧
    match target_envs dep with
    | [] =>
        let k := Nat.max (Z.to_nat n) 1 in
        selected = (take k avails).*1 ∧ length selected = Nat.min k (length candidates) ∧
        (Forall (λ a, number a.2) avails →
         ∀ a b, a ∈ take k avails → b ∈ drop k avails → F64.lt a.2 b.2 = false)
    | ts => selected = ts
    end).
Proof.
  eapply reads_bind; [apply reads_env_avails|]. intros l Hl. apply reads_ret.
  pose proof (sort_by_perm Deploy.best_first l) as Hp.
  split; [rewrite <- Hl; by apply fmap_Permutation|].
  destruct (target_envs dep) as [|t ts]; [|done]. split; [done|]. split.
  - rewrite length_fmap, length_take, Hp, <- Hl, length_fmap. lia.
  - intros Hf a b. by apply best_first_split.
Qed.
End environments.

(** ** Deploying *)

(** The mappings after [successes] were saved. *)
Definition saved (key : str) (successes : list (str * str)) (mm : gmap str (gmap str str)) :
    gmap str (gmap str str) :=
  foldl (λ mm ci, <[key := <[ci.1 := ci.2]> (default ∅ (mm !! key))]> mm) mm successes.

Definition deploys (l : list PmRequest) : nat :=
  length (filter (λ q, match q with DeployUnit _ _ => true | _ => false end = true) l).

Lemma deploys_app l1 l2 : deploys (l1 ++ l2) = deploys l1 + deploys l2.
Proof. unfold deploys. by rewrite filter_app, length_app. Qed.

Section dispatch.
Context {S : Type} `{!DeploymentStorage S} `{!DeploymentStorageLaws S}.
Context (w : CrmWorld) (m : CrmManager) (policy : DeploymentPolicyConfig).

(** From [s] to [s'] only mappings for [key] were saved and at most [n] units sent. *)
Definition dispatched (key : str) (successes : list (str * str)) (n : nat) (s s' : PmState S) : Prop :=
  spawned s' = spawned s ∧ deployments (store s') = deployments (store s) ∧
  mappings (store s') = saved key successes (mappings (store s)) ∧
  ∃ new, pm_log (crm s') = pm_log (crm s) ++ new ∧ deploys new ≤ n.

Lemma dispatched_trans key l1 l2 n1 n2 s1 s2 s3 :
  dispatched key l1 n1 s1 s2 → dispatched key l2 n2 s2 s3 →
  dispatched key (l1 ++ l2) (n1 + n2) s1 s3.
Proof.
  intros (Hp1 & Hd1 & Hm1 & new1 & Hl1 & Hn1) (Hp2 & Hd2 & Hm2 & new2 & Hl2 & Hn2).
  split; [congruence|]. split; [congruence|]. split.
  { rewrite Hm2, Hm1. unfold saved. by rewrite foldl_app. }
  exists (new1 ++ new2). rewrite Hl2, Hl1, app_assoc. split; [done|]. rewrite deploys_app. lia.
Qed.

Lemma dispatched_ask key s q :
  dispatched key [] (deploys [q]) s
    (Deploy.set_crm {| health_cache := health_cache (crm s); pm_log := pm_log (crm s) ++ [q] |} s).
Proof. repeat split. by exists [q]. Qed.

Lemma save_step key c id s : ∃ s',
  tried (F:=PackageManagerError) (zoom store Deploy.set_store (save_cluster_mapping key c id)) s
  = (Ok (inr tt), s') ∧ dispatched key [(c, id)] 0 s s'.
Proof.
  destruct (law_save_mapping key c id (store s)) as (x & Es & Ed & Em).
  unfold tried. rewrite (zoom_eq _ _ _ _ _ _ Es). eexists. split; [done|].
  split; [done|]. split; [done|]. split; [done|]. exists []. by rewrite app_nil_r.
Qed.

(** One attempt. *)
Definition send_once (key : str) (u : DeploymentUnit) :
    M (PmState S) PackageManagerError (option str) :=
  match Crm_.find_client m (unit_target_env u) with
  | Some _ =>
      bind (Deploy.asked (w_deploy w) (DeployUnit (unit_target_env u) u)) (λ r,
      match r with
      | inr id =>
          bind (tried (zoom store Deploy.set_store
                         (save_cluster_mapping key (unit_target_env u) id))) (λ _, ret (Some id))
      | inl _ => ret None
      end)
  | None => ret None
  end.

Definition sent (u : DeploymentUnit) (r : option str) : list (str * str) :=
  match r with Some id => [(unit_target_env u, id)] | None => [] end.

Definition reached (r : list (str * str)) : Prop :=
  Forall (λ ci, is_Some (Crm_.find_client m ci.1)) r.

Lemma send_once_spec key u s : ∃ r s',
  send_once key u s = (Ok r, s') ∧ reached (sent u r) ∧ dispatched key (sent u r) 1 s s'.
Proof.
  unfold send_once. destruct (Crm_.find_client m (unit_target_env u)) as [c|] eqn:Hc; simpl.
  2:{ do 2 eexists. split; [done|]. split; [constructor|]. repeat split. exists [].
      rewrite app_nil_r. split; [done|]. unfold deploys. simpl. lia. }
  set (q := DeployUnit (unit_target_env u) u). pose proof (dispatched_ask key s q) as D1.
  unfold bind at 1, Deploy.asked, Deploy.on_crm, map_err, zoom at 1, Crm_.ask. simpl.
  destruct (w_deploy w (pm_log (crm s) ++ [q])) as [e|id].
  { do 2 eexists. split; [done|]. split; [constructor|done]. }
  match goal with |- context [bind _ _ ?t] => destruct (save_step key (unit_target_env u) id t)
    as (s' & E & D2) end.
  exists (Some id), s'. unfold bind. rewrite E. split; [done|].
  split; [constructor; [by exists c|constructor]|].
  exact (dispatched_trans _ _ _ _ _ _ _ _ D1 D2).
Qed.

Lemma dispatch_unit_spec key u attempt further s : ∃ r s',
  Deploy.dispatch_unit w m key u attempt further s = (Ok r, s') ∧ reached (sent u r) ∧
  dispatched key (sent u r) (Datatypes.S further) s s'.
Proof.
  revert attempt s. induction further as [|further IH]; intros attempt s; simpl;
    fold (send_once key u); destruct (send_once_spec key u s) as ([id|] & s1 & E & Hr & D);
    unfold bind at 1; rewrite E; try by (do 2 eexists; split; [done|]; eauto).
  1:{ exists (Some id), s1. split; [done|]. split; [done|]. destruct D as (? & ? & ? & new & ? & ?).
      repeat split; try done. exists new. split; [done|lia]. }
  destruct (IH (Datatypes.S attempt) (Deploy.set_crm {| health_cache := health_cache (crm s1);
    pm_log := pm_log (crm s1) ++ [PmSleep (200 * Z.of_nat attempt)] |} s1)) as (r & s2 & E2 & Hr2 & D2).
  exists r, s2. split; [exact E2|]. split; [done|].
  pose proof (dispatched_trans _ _ _ _ _ _ _ _ D
    (dispatched_trans _ _ _ _ _ _ _ _
      (dispatched_ask key s1 (PmSleep (200 * Z.of_nat attempt))) D2)) as D3. exact D3.
Qed.

(** Dispatching always ends: every unit is sent at most [max_retries + 1] times, the units that
    succeed are recorded in the mappings of the deployment in their order, and neither the
    records nor anything else is changed. *)
Lemma dispatch_spec key units s : ∃ successes s',
  Deploy.dispatch_units_with_retry w m policy key units s = (Ok successes, s') ∧
  successes.*1 `sublist_of` (unit_target_env <$> units) ∧ reached successes ∧
  dispatched key successes (length units * Datatypes.S (max_retries policy)) s s'.
Proof.
  revert s. induction units as [|u units IH]; intros s; simpl.
  { do 2 eexists. split; [done|]. split; [done|]. split; [constructor|]. repeat split.
    exists []. by rewrite app_nil_r. }
  destruct (dispatch_unit_spec key u 1 (max_retries policy) s) as (r & s1 & E & Hr & D).
  unfold bind. rewrite E. destruct (IH s1) as (l & s2 & E2 & Hsub & Hl & D2). rewrite E2.
  do 2 eexists. split; [done|]. split; [|split; [destruct r; [|done]; inversion Hr; by constructor|]].
  - destruct r as [id|]; simpl; [by apply sublist_skip|by apply sublist_cons].
  - pose proof (dispatched_trans _ _ _ _ _ _ _ _ D D2) as D3. by destruct r.
Qed.
End dispatch.

Section deploy.
Context {S : Type} `{!DeploymentStorage S} `{!DeploymentStorageLaws S}.
Context (w : CrmWorld) (m : CrmManager) (policy : DeploymentPolicyConfig).

Lemma reads_candidates dep :
  reads (S:=S) (Deploy.select_candidate_envs m dep) (λ cs, cs ≠ [] ∧
    match target_envs dep with [] => cs ⊆ Crm_.list_clusters m | ts => cs = ts end).
Proof.
  unfold Deploy.select_candidate_envs, Deploy.invalid.
  destruct (target_envs dep) as [|t ts]; [|by apply reads_ret].
  destruct (available_envs dep) as [|a av].
  - destruct (Crm_.list_clusters m) eqn:E; [apply reads_throw|]. by apply reads_ret.
  - set (l := filter _ _). destruct l as [|c l'] eqn:E; [apply reads_throw|]. apply reads_ret.
    split; [done|]. intros x Hx. rewrite <- E in Hx. unfold l in Hx.
    by apply list_elem_of_filter in Hx as [? _].
Qed.

Lemma reads_selected dep candidates n : candidates ≠ [] →
  reads (S:=S) (Deploy.select_environments w m dep candidates n) (λ r, r.1 ≠ [] ∧
    match target_envs dep with [] => r.1 ⊆ candidates | ts => r.1 = ts end).
Proof.
  intros Hne. eapply reads_bind; [apply reads_env_avails|]. intros l Hl. apply reads_ret.
  simpl. destruct (target_envs dep) as [|t ts]; [|done].
  pose proof (sort_by_perm Deploy.best_first l) as Hp. split.
  - intros E. apply (f_equal length) in E. rewrite length_fmap, length_take, Hp in E.
    simpl in E. assert (length l = 0) as El by lia. destruct l; [|done]. by subst.
  - rewrite fmap_take. intros x Hx%subseteq_take. rewrite Hp, Hl in Hx. done.
Qed.

Lemma reads_random_ids envs ids :
  reads (S:=S) (Deploy.random_ids w envs ids) (λ ids',
    (∀ e, e ∈ envs → ∃ i, ids' !! e = Some [i]) ∧ (∀ e, e ∉ envs → ids' !! e = ids !! e)).
Proof.
  revert ids. induction envs as [|env envs IH]; intros ids; simpl.
  { apply reads_ret. set_solver. }
  eapply reads_bind; [apply reads_asked|]. intros id _.
  eapply reads_weaken; [apply IH|]. intros ids' [Hin Hout]. split.
  - intros e [->|He]%elem_of_cons; [|by apply Hin].
    destruct (decide (env ∈ envs)); [by apply Hin|]. exists id. rewrite Hout by done.
    apply lookup_insert_eq.
  - intros e He. rewrite Hout by set_solver. apply lookup_insert_ne. set_solver.
Qed.

(** What the identifiers of the nodes become: they are kept when there are any, else each
    selected environment is given one. *)
Definition ids_given (eff eff' : OClassDeployment) (selected : list str) : Prop :=
  match dep_odgm eff with
  | Some o =>
      ∃ ids, eff' = Deploy.with_odgm (Deploy.with_ids ids o) eff ∧
      (env_node_ids o ≠ ∅ → ids = env_node_ids o) ∧
      (env_node_ids o = ∅ → ∀ e, (∃ i, ids !! e = Some [i]) ∧ e ∈ selected ∨
                                 ids !! e = None ∧ e ∉ selected)
  | None => eff' = eff
  end.

Lemma reads_ensure eff selected :
  reads (S:=S) (Deploy.ensure_odgm_node_ids w eff selected) (λ eff', ids_given eff eff' selected).
Proof.
  unfold Deploy.ensure_odgm_node_ids, ids_given.
  destruct (dep_odgm eff) as [o|] eqn:E; [|by apply reads_ret].
  destruct (decide (env_node_ids o = ∅)) as [Ho|Ho].
  - eapply reads_bind; [apply reads_random_ids|]. intros ids [Hin Hout]. apply reads_ret.
    exists ids. split; [done|]. split; [done|]. intros _ e.
    destruct (decide (e ∈ selected)) as [He|He]; [left; eauto|right].
    by rewrite Hout, lookup_empty.
  - apply reads_ret. exists (env_node_ids o). split; [|done].
    destruct eff as []; simpl in *. unfold Deploy.with_odgm. simpl. f_equal. by destruct o.
Qed.

Lemma reads_units cls dep req envs :
  (∀ h, is_Some (Units.gen_safe_deployment_id (cls_key cls) (w_nanoid w h))) →
  reads (S:=S) (Deploy.create_deployment_units w cls dep req envs) (λ us,
    Forall2 (λ env u, ∃ id now,
      u = Units.create_deployment_units_for_env cls dep env req id now) envs us).
Proof.
  intros Hid. induction envs as [|env envs IH]; simpl; [by apply reads_ret|].
  intros s. unfold bind at 1, Deploy.asked at 1, Deploy.on_crm, map_err, zoom, Crm_.ask. simpl.
  destruct (Hid (pm_log (crm s) ++ [Nanoid])) as [id ->].
  match goal with |- context [bind ?c ?f ?s'] =>
    assert (Hr : reads (bind c f) (λ us, Forall2 (λ env u, ∃ id now,
      u = Units.create_deployment_units_for_env cls dep env req id now) (env :: envs) us));
    [|destruct (Hr s') as [x Hx]; exists x; by destruct (bind c f s') as [[] ?]] end.
  eapply reads_bind; [apply reads_asked|]. intros now _.
  eapply reads_bind; [apply reads_asked|]. intros _ _.
  eapply reads_bind; [exact IH|]. intros us Hus. apply reads_ret. constructor; eauto.
Qed.

(** The part of [deploy_class] after the record to store is known. *)
Definition store_and_send (dep eff : OClassDeployment) (units : list DeploymentUnit) :
    M (PmState S) PackageManagerError str :=
  bind (Deploy.on_store (store_deployment eff)) (λ _,
  bind (Deploy.dispatch_units_with_retry w m policy (dep_key dep) units) (λ successes,
  Deploy.finalize_dispatch policy successes eff (dep_key dep))).

(** What is known of the record and the units by then: everything but the targets, the replica
    count, the node identifiers, the status and the time is as given. *)
Definition effective_of (cls : OClass) (dep eff : OClassDeployment)
    (units : list DeploymentUnit) : Prop :=
  ∃ selected achieved req eff1 now,
    selected ≠ [] ∧
    match target_envs dep with
    | [] => selected ⊆ Crm_.list_clusters m
    | ts => selected = ts
    end ∧
    ids_given (Deploy.prepare_effective_deployment dep selected achieved) eff1 selected ∧
    eff = Deploy.with_updated_at now eff1 ∧
    Forall2 (λ env u, ∃ id now,
      u = Units.create_deployment_units_for_env cls eff1 env req id now) selected units.

Lemma ids_given_targets eff eff' selected :
  ids_given eff eff' selected → target_envs eff' = target_envs eff ∧ dep_key eff' = dep_key eff.
Proof. unfold ids_given. destruct (dep_odgm eff); [by intros (ids & -> & _)|by intros ->]. Qed.

Lemma effective_targets dep selected achieved :
  match target_envs dep with [] => True | ts => selected = ts end →
  target_envs (Deploy.prepare_effective_deployment dep selected achieved) = selected.
Proof. simpl. by destruct (target_envs dep). Qed.

Lemma deploy_class_prepared cls dep :
  (∀ h, is_Some (Units.gen_safe_deployment_id (cls_key cls) (w_nanoid w h))) →
  leads (λ k, ∃ eff units, effective_of cls dep eff units ∧ k = store_and_send dep eff units)
    (Deploy.deploy_class w m policy cls dep).
Proof.
  intros Hid. unfold Deploy.deploy_class.
  eapply leads_bind; [apply reads_candidates|]. intros cs [Hcs Hcl].
  eapply leads_bind; [apply requirements_read|]. intros req _.
  eapply leads_bind; [by apply reads_selected|]. intros [selected avails] [Hsel Hsub].
  simpl in Hsel, Hsub. set (achieved := Deploy.compute_achieved_quorum selected avails).
  eapply leads_bind; [apply reads_ensure|]. intros eff1 Hgiven.
  assert (Htargets : target_envs eff1 = selected).
  { destruct (ids_given_targets _ _ _ Hgiven) as [-> _]. apply effective_targets.
    by destruct (target_envs dep). }
  eapply leads_bind; [by apply reads_units|]. intros units Hunits.
  eapply leads_bind; [apply reads_asked|]. intros now _.
  apply leads_done. exists (Deploy.with_updated_at now eff1), units. split; [|done].
  exists selected, achieved, req, eff1, now. rewrite Htargets in Hunits.
  split_and!; try done. destruct (target_envs dep); [|done]. set_solver.
Qed.

Lemma effective_names cls dep eff units : effective_of cls dep eff units →
  dep_key eff = dep_key dep ∧ target_envs eff ≠ [] ∧
  unit_target_env <$> units = target_envs eff ∧
  match target_envs dep with
  | [] => target_envs eff ⊆ Crm_.list_clusters m
  | ts => target_envs eff = ts
  end.
Proof.
  intros (selected & achieved & req & eff1 & now & Hne & Hsel & Hg & -> & Hu). simpl.
  destruct (ids_given_targets _ _ _ Hg) as [Ht Hk].
  rewrite effective_targets in Ht by (by destruct (target_envs dep)).
  rewrite Ht, Hk. split; [done|]. split; [done|]. split; [|by destruct (target_envs dep)].
  clear -Hu. induction Hu as [|env u envs us (id & now & ->) _ IH]; [done|].
  rewrite fmap_cons, IH. done.
Qed.

(** What [deploy_class] on [dep] may come to. *)
Definition deploy_result (dep : OClassDeployment) (s s' : PmState S)
    (r : res PackageManagerError str) : Prop :=
  (∃ e, r = Err e ∧ store s' = store s ∧ spawned s' = spawned s) ∨
  ∃ eff successes,
    dep_key eff = dep_key dep ∧ target_envs eff ≠ [] ∧
    Deploy.deployed_envs eff = target_envs eff ∧
    match target_envs dep with
    | [] => target_envs eff ⊆ Crm_.list_clusters m
    | ts => target_envs eff = ts
    end ∧
    successes.*1 `sublist_of` target_envs eff ∧ reached m successes ∧
    deployments (store s') = <[dep_key dep := eff]> (deployments (store s)) ∧
    mappings (store s') = saved (dep_key dep) successes (mappings (store s)) ∧
    match successes with
    | [] => r = Err (EDeployment (DepInvalid (lit "Deployment failed in all clusters"))) ∧
            spawned s' = spawned s
    | (_, id) :: _ =>
        if decide (length successes = length (target_envs eff)) then
          r = Ok id ∧ spawned s' = spawned s
        else if rollback_on_partial policy then
          r = Err (EDeployment (DepInvalid
                (lit "Deployment rolled back due to partial failure"))) ∧
          spawned s' = spawned s ++ [(successes, dep_key dep)]
        else r = Ok id ∧ spawned s' = spawned s
    end.

Lemma effective_deployed cls dep eff units : effective_of cls dep eff units →
  Deploy.deployed_envs eff = target_envs eff.
Proof.
  intros Heff. destruct (effective_names _ _ _ _ Heff) as (_ & Hne & _).
  destruct Heff as (selected & achieved & req & eff1 & now & Hs & Hsel & Hg & -> & Hu).
  destruct (ids_given_targets _ _ _ Hg) as [Ht _].
  rewrite effective_targets in Ht by (by destruct (target_envs dep)).
  assert (Hst : dep_status eff1 = dep_status (Deploy.prepare_effective_deployment dep selected achieved)).
  { unfold ids_given in Hg. destruct (dep_odgm _); [by destruct Hg as (? & -> & _)|by rewrite Hg]. }
  unfold Deploy.deployed_envs. simpl. rewrite Hst, Ht. simpl. by destruct selected.
Qed.

Lemma deploy_class_spec cls dep s :
  (∀ h, is_Some (Units.gen_safe_deployment_id (cls_key cls) (w_nanoid w h))) →
  ∃ r s', Deploy.deploy_class w m policy cls dep s = (r, s') ∧ deploy_result dep s s' r.
Proof.
  intros Hid.
  destruct (deploy_class_prepared cls dep Hid s) as [x [[e ->]|(k & (eff & units & Heff & ->) & ->)]].
  { do 2 eexists. split; [done|]. left. by exists e. }
  pose proof (effective_deployed _ _ _ _ Heff) as Hdep.
  destruct (effective_names _ _ _ _ Heff) as (Hk & Hne & Hunits & Htargets).
  destruct (law_store_deployment eff (store s)) as (y & Ey & Hd & Hm).
  unfold store_and_send, bind. unfold Deploy.on_store, map_err.
  rewrite (zoom_eq _ _ _ (Deploy.set_crm x s) _ _ Ey). simpl.
  match goal with |- context [Deploy.dispatch_units_with_retry _ _ _ _ _ ?t] =>
    destruct (dispatch_spec w m policy (dep_key dep) units t)
      as (successes & s' & -> & Hsub & Hr & (Hsp & Hd' & Hm' & _)) end.
  simpl in Hsp, Hd', Hm'. rewrite Hunits in Hsub. rewrite Hd, Hk in Hd'. rewrite Hm in Hm'.
  unfold Deploy.finalize_dispatch, Deploy.invalid.
  destruct successes as [|[c id] rest] eqn:Es.
  { do 2 eexists. split; [done|]. right. exists eff, []. by rewrite Hsp. }
  destruct (Nat.eqb_spec (length ((c, id) :: rest)) (length (target_envs eff))) as [E|E].
  { do 2 eexists. split; [done|].
    right. exists eff, ((c, id) :: rest). rewrite decide_True by done. by rewrite Hsp. }
  destruct (rollback_on_partial policy) eqn:Ep; simpl; do 2 eexists; (split; [done|]);
    right; exists eff, ((c, id) :: rest); rewrite decide_False, Ep by done; by rewrite ?Hsp.
Qed.

(** A rollback asks each environment that accepted its unit to delete it and removes the
    mappings. *)
Lemma rollback_task_spec successes key s : ∃ s',
  Deploy.rollback_task w m successes key s = (Ok tt, s') ∧
  deployments (store s') = deployments (store s) ∧
  mappings (store s') = delete key (mappings (store s)) ∧
  pm_log (crm s') = pm_log (crm s) ++
    ((λ ci, DeleteUnit ci.1 ci.2) <$> filter (λ ci, is_Some (Crm_.find_client m ci.1)) successes).
Proof.
  revert s. induction successes as [|[c id] l IH]; intros s; simpl.
  - destruct (law_remove_mappings key (store s)) as (x & Ex & Hd & Hm).
    unfold bind, tried. rewrite (zoom_eq _ _ _ _ _ _ Ex). eexists. split; [done|].
    rewrite app_nil_r. by split_and!.
  - destruct (Crm_.find_client m c) as [cc|] eqn:Hc.
    2:{ rewrite filter_cons_False by (simpl; rewrite Hc; by intros []). apply IH. }
    rewrite filter_cons_True by (simpl; rewrite Hc; eauto). unfold bind. simpl.
    match goal with |- context [Deploy.rollback_task _ _ _ _ ?t] =>
      destruct (IH t) as (s' & -> & Hd & Hm & Hl) end.
    exists s'. split; [done|]. split; [done|]. split; [done|].
    rewrite Hl. simpl. by rewrite <- app_assoc.
Qed.


End deploy.

(** ** Placement *)

Lemma dedup_elem (l : list Z) x : x ∈ Pm.dedup l ↔ x ∈ l.
Proof.
  induction l as [|y l IH]; [done|]. destruct l as [|z l]; [done|].
  change (Pm.dedup (y :: z :: l)) with
    (if bool_decide (y = z) then Pm.dedup (z :: l) else y :: Pm.dedup (z :: l)).
  case_bool_decide as E; set_solver.
Qed.

Lemma dedup_length (l : list Z) : length (Pm.dedup l) ≤ length l.
Proof.
  induction l as [|y l IH]; [done|]. destruct l as [|z l]; [done|].
  change (Pm.dedup (y :: z :: l)) with
    (if bool_decide (y = z) then Pm.dedup (z :: l) else y :: Pm.dedup (z :: l)).
  case_bool_decide; simpl in *; lia.
Qed.

(** As many consecutive places as there are members, or more, reach each member. *)
Lemma place_covers members rc p x :
  length members ≤ rc → x ∈ members → x ∈ place members <$> seqZ p (Z.of_nat rc).
Proof.
  intros Hrc Hx. apply list_elem_of_lookup_1 in Hx as [k Hk].
  pose proof (lookup_lt_Some _ _ _ Hk) as Hlt.
  set (n := Z.of_nat (length members)). assert (Hn : (0 < n)%Z) by lia.
  pose proof (Z.mod_pos_bound (Z.of_nat k - p) n Hn) as Hb.
  apply list_elem_of_fmap. exists (p + (Z.of_nat k - p) mod n)%Z. split.
  - unfold place. fold n. rewrite Z.add_mod_idemp_r by lia.
    replace (p + (Z.of_nat k - p))%Z with (Z.of_nat k) by lia.
    rewrite Z.mod_small, Nat2Z.id by lia. by rewrite (list_lookup_total_correct _ _ _ Hk).
  - apply elem_of_seqZ. lia.
Qed.

Lemma assigned_everywhere (cols : list str) col pc rc target (ids : list (list Z)) i :
  col ∈ cols → [i] ∈ ids → length (concat ids) ≤ Z.to_nat rc →
  ∃ asg, Pm.collection_assignments cols pc (Some rc) target ids !! col = Some asg ∧
  Z.of_nat (length asg) = Z.max (default 1%Z pc) 1 ∧ ∀ a, a ∈ asg → i ∈ replica a.
Proof.
  intros Hcol Hi Hlen. unfold Pm.collection_assignments.
  destruct cols as [|c cols]; [set_solver|].
  assert (Hin : i ∈ concat ids) by (apply list_elem_of_In, in_concat; exists [i]; rewrite <- list_elem_of_In; split; [done|by left]).
  set (all := Pm.dedup (merge_sort Z.le (concat ids))).
  assert (Hall : i ∈ all) by (unfold all; by rewrite dedup_elem, merge_sort_Permutation).
  assert (Hal : length all ≤ Z.to_nat rc).
  { unfold all. rewrite dedup_length, merge_sort_Permutation. done. }
  destruct all as [|n ns] eqn:Eall; [set_solver|]. simpl default.
  set (asg := Pm.generate_shard_assignments_spec _ _ (n :: ns)).
  exists asg. split.
  { assert (Hm : ∀ l (m : gmap str (list ShardAssignment)), (col ∈ l ∨ m !! col = Some asg) →
      foldl (λ m d, <[d := asg]> m) m l !! col = Some asg).
    { induction l as [|d l IH]; intros mm Hd; simpl; [set_solver|]. apply IH.
      destruct (decide (col = d)) as [->|Hne]; [right; apply lookup_insert_eq|].
      rewrite lookup_insert_ne by done. set_solver. }
    apply Hm. by left. }
  unfold asg. rewrite pm_rotation by (done || (simpl in Hal; lia)).
  rewrite length_fmap, length_seqZ. split; [lia|].
  intros a (p & -> & Hp)%list_elem_of_fmap. apply place_covers; [simpl in *; lia|done].
Qed.

(** Node identifiers with one per environment are at most as many as the environments. *)
Lemma ids_few (ids : gmap str (list Z)) (selected : list str) :
  (∀ e, (∃ i, ids !! e = Some [i]) ∧ e ∈ selected ∨ ids !! e = None ∧ e ∉ selected) →
  length (concat (map_to_list ids).*2) ≤ length selected.
Proof.
  intros Hids. transitivity (size ids).
  - rewrite <- length_map_to_list.
    assert (Hall : Forall (λ v, length v = 1) (map_to_list ids).*2).
    { apply Forall_fmap, Forall_forall. intros [e v] Hin%elem_of_map_to_list. simpl.
      destruct (Hids e) as [[[i Hi] _]|[Hn _]]; [|congruence].
      rewrite Hin in Hi. injection Hi as ->. done. }
    rewrite <- (length_fmap snd). induction Hall as [|v l Hv _ IH]; simpl; [done|].
    rewrite length_app. lia.
  - rewrite <- length_map_to_list, <- (length_fmap fst). apply submseteq_length, NoDup_submseteq.
    + apply NoDup_fst_map_to_list.
    + intros e ([e' v] & -> & Hin%elem_of_map_to_list)%list_elem_of_fmap. simpl.
      destruct (Hids e') as [[_ ?]|[? _]]; [done|congruence].
Qed.

Section placed.
Context {S : Type} `{!DeploymentStorage S} `{!DeploymentStorageLaws S}.
Context (w : CrmWorld) (m : CrmManager) (policy : DeploymentPolicyConfig).

(** When a deployment comes without node identifiers, every environment it is sent to is given
    one, and the node of every environment is a replica of every partition of every collection
    of the deployment: the assignments cover all environments even when the random
    identifiers of two of them collide. *)
Theorem partitions_everywhere cls dep o :
  (∀ h, is_Some (Units.gen_safe_deployment_id (cls_key cls) (w_nanoid w h))) →
  dep_odgm dep = Some o → env_node_ids o = ∅ →
  leads (λ k, ∃ eff units, k = store_and_send w m policy dep eff units ∧
    unit_target_env <$> units = target_envs eff ∧
    ∀ u, u ∈ units → ∃ oc i, unit_odgm_config u = Some oc ∧ oc_odgm_node_id oc = Some i ∧
      ∀ col, col ∈ od_collections o → ∃ asg, oc_collection_assignments oc !! col = Some asg ∧
        Z.of_nat (length asg) = Z.max (default 1%Z (od_partition_count o)) 1 ∧
        ∀ a, a ∈ asg → i ∈ replica a)
    (Deploy.deploy_class w m policy cls dep).
Proof.
  intros Hid Ho Hnone s.
  destruct (deploy_class_prepared w m policy cls dep Hid s)
    as [x [He|(k & (eff & units & Heff & ->) & E)]]; exists x; [by left|right].
  exists (store_and_send w m policy dep eff units). split; [|done].
  exists eff, units. split; [done|].
  destruct (effective_names _ _ _ _ _ Heff) as (_ & _ & Hunits & _). split; [done|].
  destruct Heff as (selected & achieved & req & eff1 & now & Hne & Hsel & Hg & -> & Hu).
  unfold ids_given in Hg. simpl in Hg. rewrite Ho in Hg.
  destruct Hg as (ids & -> & _ & Hids). specialize (Hids Hnone). pose proof (ids_few _ _ Hids) as Hfew.
  intros u (k & Hk)%list_elem_of_lookup_1.
  destruct (Forall2_lookup_r _ _ _ _ _ Hu Hk) as (env & Henv & (id & t & ->)).
  apply list_elem_of_lookup_2 in Henv.
  destruct (Hids env) as [[[i Hi] _]|[_ ?]]; [|done].
  eexists _, i. split; [done|]. split; [simpl; by rewrite Hi|].
  intros col Hcol. simpl. apply assigned_everywhere; [done| |rewrite Nat2Z.id; done].
  apply list_elem_of_fmap. exists (env, [i]). by split; [|apply elem_of_map_to_list].
Qed.
End placed.

(** ** Deleting *)

Section deleting.
Context {S : Type} `{!DeploymentStorage S} `{!DeploymentStorageLaws S}.
Context (w : CrmWorld) (m : CrmManager) (policy : DeploymentPolicyConfig).

(** The requests of [delete_from]. *)
Definition deletions (key : str) (ids : gmap str str) (envs : list str) : list PmRequest :=
  (λ c, DeleteUnit c (default key (ids !! c))) <$>
  filter (λ c, is_Some (Crm_.find_client m c)) envs.

Lemma delete_from_spec key ids envs (s : PmState S) :
  Deploy.delete_from w m key ids envs s
  = (Ok tt, Deploy.set_crm {| health_cache := health_cache (crm s);
                              pm_log := pm_log (crm s) ++ deletions key ids envs |} s).
Proof.
  unfold deletions. revert s. induction envs as [|c envs IH]; intros s; simpl.
  { rewrite app_nil_r. by destruct s as [? [] ?]. }
  destruct (Crm_.find_client m c) as [cc|] eqn:E.
  - rewrite filter_cons_True by (rewrite E; eauto). unfold bind. simpl. rewrite IH. simpl.
    rewrite <- app_assoc. done.
  - rewrite filter_cons_False by (rewrite E; by intros []). apply IH.
Qed.

(** Deleting a deployment asks each environment it was deployed to, once and in order, to delete
    the unit it was mapped to (or the key of the deployment when there is none), whether or
    not they answer with an error, and removes the record and its mappings and nothing
    else; a deployment that is not stored is an error and changes nothing. *)
Lemma delete_deployment_spec key s :
  let '(r, s') := Deploy.delete_deployment w m key s in
  spawned s' = spawned s ∧
  match deployments (store s) !! key with
  | None => r = Err (EDeployment (DepNotFound key)) ∧ s' = s
  | Some dep =>
      r = Ok tt ∧ deployments (store s') = delete key (deployments (store s)) ∧
      mappings (store s') = delete key (mappings (store s)) ∧
      pm_log (crm s') = pm_log (crm s) ++
        deletions key (default ∅ (mappings (store s) !! dep_key dep)) (Deploy.deployed_envs dep)
  end.
Proof.
  unfold Deploy.delete_deployment, bind at 1, Deploy.on_store at 1, map_err at 1.
  rewrite (zoom_eq _ _ _ _ _ _ (law_get_deployment key (store s))). simpl.
  assert (Hs : Deploy.set_store (store s) s = s) by (by destruct s). rewrite Hs.
  destruct (deployments (store s) !! key) as [dep|] eqn:E; [|by destruct s].
  unfold bind at 1, tried at 1.
  rewrite (zoom_eq _ _ _ _ _ _ (law_get_mappings (dep_key dep) (store s))), Hs.
  unfold bind at 1. rewrite delete_from_spec. set (s1 := Deploy.set_crm _ s).
  destruct (law_delete_deployment key (store s1)) as (x & Ex & Hd & Hm).
  unfold bind at 1, Deploy.on_store, map_err. rewrite (zoom_eq _ _ _ _ _ _ Ex). simpl.
  destruct (law_remove_mappings key x) as (y & Ey & Hd' & Hm').
  unfold bind, tried. rewrite (zoom_eq store Deploy.set_store _
    (Deploy.set_store x s1) _ _ Ey). simpl.
  split; [done|]. split; [done|]. split; [rewrite Hd'; exact Hd|].
  split; [rewrite Hm', Hm; done|done].
Qed.

Lemma saved_other key l mm k : k ≠ key → saved key l mm !! k = mm !! k.
Proof.
  intros Hk. revert mm. induction l as [|ci l IH]; intros mm; [done|].
  simpl. rewrite IH. by apply lookup_insert_ne.
Qed.

Lemma saved_entries key l mm c id :
  default ∅ (saved key l mm !! key) !! c = Some id →
  c ∈ l.*1 ∨ default ∅ (mm !! key) !! c = Some id.
Proof.
  revert mm. induction l as [|[c' i'] l IH]; intros mm Hc; [by right|]. simpl in Hc.
  apply IH in Hc as [Hc|Hc]; [left; by right|].
  rewrite lookup_insert_eq in Hc. simpl in Hc.
  destruct (decide (c = c')) as [->|Hne]; [left; by left|].
  rewrite lookup_insert_ne in Hc by done. by right.
Qed.

(** Deploying under a fresh key and then deleting: the records and the mappings are as before,
    whatever the deployment came to, and every environment that accepted a unit is asked to
    delete exactly that unit. *)
Theorem deploy_then_delete cls dep s :
  (∀ h, is_Some (Units.gen_safe_deployment_id (cls_key cls) (w_nanoid w h))) →
  deployments (store s) !! dep_key dep = None → mappings (store s) !! dep_key dep = None →
  ∃ r s1 r2 s2 new,
    Deploy.deploy_class w m policy cls dep s = (r, s1) ∧
    Deploy.delete_deployment w m (dep_key dep) s1 = (r2, s2) ∧
    deployments (store s2) = deployments (store s) ∧
    mappings (store s2) = mappings (store s) ∧
    pm_log (crm s2) = pm_log (crm s1) ++ new ∧
    ∀ c id, default ∅ (mappings (store s1) !! dep_key dep) !! c = Some id → DeleteUnit c id ∈ new.
Proof.
  intros Hid Hfresh Hmfresh.
  destruct (deploy_class_spec w m policy cls dep s Hid) as (r & s1 & E & Hres).
  pose proof (delete_deployment_spec (dep_key dep) s1) as Hdel.
  destruct (Deploy.delete_deployment w m (dep_key dep) s1) as [r2 s2] eqn:E2.
  exists r, s1, r2, s2. destruct Hdel as [_ Hdel].
  destruct Hres as [(e & -> & Hs & _)|
    (eff & l & Hk & _ & Henvs & _ & Hsub & Hreach & Hd & Hm & _)].
  - rewrite Hs, Hfresh in Hdel. destruct Hdel as [-> ->]. exists []. rewrite app_nil_r.
    rewrite Hs, Hmfresh. by split_and!.
  - rewrite Hd, lookup_insert_eq in Hdel. destruct Hdel as (-> & Hd2 & Hm2 & Hlog).
    eexists. split; [done|]. split; [done|]. split; [|split; [|split; [exact Hlog|]]].
    + by rewrite Hd2, delete_insert_id.
    + rewrite Hm2, Hm. apply map_eq. intros k. destruct (decide (k = dep_key dep)) as [->|Hne].
      * by rewrite lookup_delete_eq.
      * by rewrite lookup_delete_ne, saved_other.
    + intros c id Hc. assert (Hin : c ∈ l.*1).
      { rewrite Hm in Hc. apply saved_entries in Hc as [?|Hc]; [done|]. by rewrite Hmfresh in Hc. }
      apply list_elem_of_fmap. exists c. rewrite Hk, Hc. split; [done|].
      apply list_elem_of_filter. rewrite Henvs. split; [|by apply (sublist_subseteq _ _ Hsub)].
      apply list_elem_of_fmap in Hin as (ci & -> & Hin).
      exact (proj1 (Forall_forall _ _) Hreach ci Hin).
Qed.
End deleting.

(** ** Listing *)

Lemma worse_foldl l o :
  match foldl Deploy.worse o l with
  | Some c => (o = Some c ∨ c ∈ l) ∧
      (∀ d, o = Some d ∨ d ∈ l → Deploy.condition_severity d ≤ Deploy.condition_severity c)
  | None => o = None ∧ l = []
  end.
Proof.
  revert o. induction l as [|c l IH]; intros o; simpl.
  { destruct o as [d|]; [|done]. split; [by left|]. intros ? [[= ->]|?]; [done|set_solver]. }
  specialize (IH (Deploy.worse o c)). destruct (foldl _ _ l) as [r|] eqn:E.
  - destruct IH as [Hr Hmax]. destruct o as [d|]; simpl in *.
    + destruct (Nat.ltb_spec (Deploy.condition_severity d) (Deploy.condition_severity c)).
      * split; [destruct Hr as [[= ->]|]; set_solver|]. intros e [[= ->]|[->|He]%elem_of_cons];
          [|by apply Hmax; left|by apply Hmax; right].
        pose proof (Hmax c ltac:(by left)). lia.
      * split; [destruct Hr as [[= ->]|]; set_solver|]. intros e [[= ->]|[->|He]%elem_of_cons];
          [by apply Hmax; left| |by apply Hmax; right].
        pose proof (Hmax d ltac:(by left)). lia.
    + split; [destruct Hr as [[= ->]|]; set_solver|].
      intros e [?|[->|He]%elem_of_cons]; [done|by apply Hmax; left|by apply Hmax; right].
  - destruct IH as [IH _]. destruct o as [d|]; simpl in IH; [by case_match|done].
Qed.

(** The condition listed for a deployment is the worst of the conditions its clusters report for
    the runtimes it is mapped to, in whatever order they are visited; the stored condition
    is listed when none of them reports a status. *)
Theorem listed_condition_worst runtimes mapped :
  match Deploy.overall_condition runtimes mapped with
  | Some c =>
      (∃ env id, mapped !! env = Some id ∧ Deploy.runtime_condition runtimes id = Some c) ∧
      ∀ env id c', mapped !! env = Some id → Deploy.runtime_condition runtimes id = Some c' →
        Deploy.condition_severity c' ≤ Deploy.condition_severity c
  | None => ∀ env id, mapped !! env = Some id → Deploy.runtime_condition runtimes id = None
  end.
Proof.
  unfold Deploy.overall_condition.
  assert (Hin : ∀ c, c ∈ omap (Deploy.runtime_condition runtimes) (map_to_list mapped).*2 ↔
    ∃ env id, mapped !! env = Some id ∧ Deploy.runtime_condition runtimes id = Some c).
  { intros c. rewrite list_elem_of_omap. split.
    - intros (id & ([env id'] & -> & Hm%elem_of_map_to_list)%list_elem_of_fmap & Hc). eauto.
    - intros (env & id & Hm%elem_of_map_to_list & Hc). exists id. split; [|done].
      apply list_elem_of_fmap. by exists (env, id). }
  pose proof (worse_foldl (omap (Deploy.runtime_condition runtimes) (map_to_list mapped).*2) None) as H.
  destruct (foldl _ _ _) as [c|].
  - destruct H as [[?|Hc] Hmax]; [done|]. apply Hin in Hc. split; [done|].
    intros env id c' Hm Hc'. apply Hmax. right. apply Hin. eauto.
  - destruct H as [_ Hnil]. intros env id Hm.
    destruct (Deploy.runtime_condition runtimes id) as [c|] eqn:Hc; [|done].
    assert (c ∈ omap (Deploy.runtime_condition runtimes) (map_to_list mapped).*2) as Hbad
      by (apply Hin; eauto). rewrite Hnil in Hbad. set_solver.
Qed.

(** Calls that do not end in an error. *)
Definition firm {S E A} (c : M S E A) : Prop :=
  ∀ s, match (c s).1 with Err _ => False | _ => True end.

Lemma firm_bind {S E A B} (c : M S E A) (f : A → M S E B) :
  firm c → (∀ a, firm (f a)) → firm (bind c f).
Proof.
  intros Hc Hf s. specialize (Hc s). unfold bind.
  destruct (c s) as [[a|e|p] s']; [apply Hf|done..].
Qed.

Lemma firm_tried {S E F A} (c : M S E A) : firm (tried (F:=F) c).
Proof. intros s. unfold tried. by destruct (c s) as [[] ?]. Qed.

Section listing.
Context {S : Type} `{!DeploymentStorage S} `{!DeploymentStorageLaws S}.
Context (w : CrmWorld) (m : CrmManager).

(** Only the condition and the time of an update differ. *)
Definition same_record (d d' : OClassDeployment) : Prop :=
  d' = d ∨ ∃ c now, d' = Deploy.with_condition c now d.

Lemma reads_attach_loop runtimes deps :
  reads (S:=S) (Deploy.attach_loop w runtimes deps) (λ l, Forall2 same_record deps l).
Proof using Type*.
  induction deps as [|d deps IH]; simpl; [by apply reads_ret|].
  apply (reads_bind _ _ (λ _, True)).
  { intros s. exists (crm s). unfold tried.
    rewrite (zoom_eq _ _ _ _ _ _ (law_get_mappings (dep_key d) (store s))).
    split; [by destruct s|done]. }
  intros r _. apply (reads_bind _ _ (same_record d)).
  { destruct r as [e|mapped]; [by apply reads_ret; left|].
    destruct (Deploy.overall_condition runtimes mapped) as [c|]; [|by apply reads_ret; left].
    eapply reads_bind; [apply reads_asked|]. intros now _. apply reads_ret. right. by exists c, now. }
  intros d' Hd'. eapply reads_bind; [exact IH|]. intros l Hl. apply reads_ret. by constructor.
Qed.

Lemma reads_attach deps :
  reads (S:=S) (Deploy.attach_runtime_conditions w m deps) (λ l, Forall2 same_record deps l).
Proof using Type*.
  destruct deps as [|d deps]; [by apply reads_ret|].
  eapply reads_bind; [apply reads_tried, calm_runtimes|]. intros [e|items] _.
  - apply reads_ret. constructor; [by left|]. clear. induction deps; constructor; [by left|done].
  - apply reads_attach_loop.
Qed.

(** Nothing in attaching the conditions fails. *)
Lemma attach_firm deps s : ∃ l x,
  Deploy.attach_runtime_conditions w m deps s = (Ok l, Deploy.set_crm x s) ∧
  Forall2 same_record deps l.
Proof using Type*.
  destruct (reads_attach deps s) as [x Hx].
  assert (Hfirm : firm (Deploy.attach_runtime_conditions w m deps)).
  { destruct deps as [|d deps]; [done|]. apply firm_bind; [apply firm_tried|].
    intros [e|items]; [done|]. generalize (d :: deps). intros l.
    induction l as [|d' l IH]; [done|]. apply firm_bind; [apply firm_tried|]. intros r.
    apply firm_bind; [|intros ?; apply firm_bind; [exact IH|done]].
    destruct r as [|mapped]; [done|]. by destruct (Deploy.overall_condition _ mapped). }
  specialize (Hfirm s). destruct (Deploy.attach_runtime_conditions w m deps s) as [[l|e|p] s'];
    [|done..]. destruct Hx as [-> Hl]. by exists l, x.
Qed.

(** Listing everything of a filter: the matching records, up to their conditions. *)
Lemma list_all_spec f s : sf_limit f = None → sf_offset f = None → ∃ l l0 x,
  Deploy.list_deployments w m f s = (Ok l, Deploy.set_crm x s) ∧ Forall2 same_record l0 l ∧
  l0 ≡ₚ filter (λ d, Filters.deployment_matches
             {| f_package_name := sf_package_name f; f_class_key := sf_class_key f;
                f_target_env := sf_target_env f; f_condition := None |} d = true)
             (map_to_list (deployments (store s))).*2.
Proof.
  intros Hl Ho. unfold Deploy.list_deployments. rewrite Hl, Ho.
  set (ff := {| f_package_name := _ |}).
  destruct (law_list_deployments ff (store s)) as (l0 & El & Hp).
  unfold bind at 1, Deploy.on_store, map_err. rewrite (zoom_eq _ _ _ _ _ _ El). simpl.
  replace (Deploy.set_store (store s) s) with s by (by destruct s).
  unfold bind. destruct (attach_firm l0 s) as (l & x & -> & Hf). by exists l, l0, x.
Qed.
End listing.

(** ** A deployment to two clusters, one of which refuses it *)

Module DemoDeploy.
Definition health (name : str) : ClusterHealth :=
  {| ch_cluster_name := name; ch_status := Crm_.healthy; ch_crm_version := None;
     ch_last_seen := 0%Z; node_count := Some 4%Z; ready_nodes := Some 3%Z;
     ch_availability := None |}.

Definition world : CrmWorld :=
  {| w_health := λ h, match last h with
                      | Some (HealthCheck c) => inr (health c)
                      | _ => inl ServiceUnavailable
                      end;
     w_deploy := λ h, match last h with
                      | Some (DeployUnit c u) =>
                          if decide (c = lit "b") then inr (unit_id u) else inl ServiceUnavailable
                      | _ => inl ServiceUnavailable
                      end;
     w_delete := λ _, None; w_runtimes := λ _, inr [];
     w_runtime := λ _, inl ServiceUnavailable; w_status := λ _, inl ServiceUnavailable;
     w_clock := λ h, Z.of_nat (length h); w_random := λ _, 7%Z;
     w_nanoid := λ _, [lit "abcdefgh"] |}.

Definition policy : DeploymentPolicyConfig :=
  {| max_retries := 1; rollback_on_partial := true; package_delete_cascade := true |}.

Definition cls : OClass :=
  {| cls_key := lit "Order"; cls_description := None; state_spec := None;
     function_bindings := []; cls_options := ∅ |}.

Definition grid : OdgmDataSpec :=
  {| od_collections := [lit "shop.Order"]; od_partition_count := Some 4%Z;
     od_replica_count := None; od_shard_type := None; env_node_ids := ∅; od_log := None;
     od_options := ∅; zenoh_mode := None |}.

Definition dep : OClassDeployment :=
  {| dep_key := lit "d1"; dep_package_name := lit "shop"; dep_class_key := lit "Order";
     target_envs := [lit "a"; lit "b"]; available_envs := [];
     dep_nfr := {| min_throughput_rps := None; availability := None;
                   cpu_utilization_target := None |};
     env_templates := ∅; dep_functions := []; dep_condition := DPending;
     dep_odgm := Some grid; dep_telemetry := None; dep_status := None; created_at := None;
     updated_at := None |}.

Definition start : PmState MemoryDeploymentStorage :=
  {| store := {| mem_store := ∅; cluster_mappings := ∅ |};
     crm := DemoCrm.start; spawned := [] |}.

Definition finish := Deploy.deploy_class world DemoCrm.manager policy cls dep start.

Definition accepted : list (str * str) := [(lit "b", lit "order-abcdefgh")].

Lemma ids_suffice : ∀ h, is_Some (Units.gen_safe_deployment_id (cls_key cls) (w_nanoid world h)).
Proof. intros h. exists (lit "order-abcdefgh"). vm_compute. reflexivity. Qed.


Lemma partitions_everywhere_witness : ∃ x eff units,
  finish = store_and_send world DemoCrm.manager policy dep eff units (Deploy.set_crm x start) ∧
  unit_target_env <$> units = target_envs eff.
Proof.
  destruct (partitions_everywhere (S:=MemoryDeploymentStorage) world DemoCrm.manager policy cls dep
    grid ids_suffice eq_refl eq_refl start) as [x [[e E]|(k & (eff & units & -> & Hu & _) & E)]].
  - exfalso. assert (Hs : spawned finish.2 = spawned (Deploy.set_crm x start)).
    { unfold finish. by rewrite E. }
    vm_compute in Hs. discriminate.
  - exists x, eff, units. by split.
Defined.

Lemma deploy_then_delete_witness : ∃ r s1 r2 s2 new,
  finish = (r, s1) ∧ Deploy.delete_deployment world DemoCrm.manager (lit "d1") s1 = (r2, s2) ∧
  deployments (store s2) = ∅ ∧ pm_log (crm s2) = pm_log (crm s1) ++ new ∧
  DeleteUnit (lit "b") (lit "order-abcdefgh") ∈ new.
Proof.
  destruct (deploy_then_delete (DeploymentStorageLaws0:=memory_deployments_laws)
    world DemoCrm.manager policy cls dep start ids_suffice eq_refl eq_refl)
    as (r & s1 & r2 & s2 & new & E & E2 & Hd & _ & Hlog & Hin).
  exists r, s1, r2, s2, new. split; [exact E|]. split; [exact E2|]. split; [exact Hd|].
  split; [exact Hlog|]. apply Hin.
  assert (Hs : s1 = finish.2) by (unfold finish; by rewrite E). rewrite Hs. vm_compute. reflexivity.
Defined.
End DemoDeploy.
