(* ===== verification/PmPackage.v ===== *)
(** * Packages and the API of the package manager

    [control-plane/oprc-pm/src/services/validation.rs], [services/package.rs], the handlers
    [api/handlers/package.rs], [deployment.rs], [cluster.rs] and [topology.rs], and the rules
    of [commons/oprc-models/src/package.rs]. The two storages are any implementations of
    [PackageStorage] and [DeploymentStorage]. *)

From stdpp Require Import base tactics list list_numbers numbers option gmap strings sorting.
From Stdlib Require Import ZArith Lia.
From S2P Require Import Prelude BTree Float64 Routing Json Enforcer Metadata Placement Quorum PmModel PmUnits PmCrm PmDeploy.

Set Default Proof Using "Type".

(** ** Validation *)

Inductive ValidationError : Type :=
| EmptyPackageName | DuplicateClassKey (s : str) | DuplicateFunctionKey (s : str)
| EmptyDependencyName | EmptyClassKey | EmptyFunctionBindings
| InvalidResourceRequirement (s : str) | InvalidNfrRequirement (s : str) | ValidatorError (s : str).

Module Validator.

Definition validate_package_structure (p : OPackage) : res PackageError unit :=
  if decide (pkg_name p = []) then Err (PkgInvalid (lit "Package name cannot be empty"))
  else if decide (32%Z ∈ pkg_name p) then
    Err (PkgInvalid (lit "Package name cannot contain spaces"))
  else Ok tt.

(** The first binding, in order, that fails a test. *)
Fixpoint first_bad (bad : OClass → FunctionBinding → option str) (cls : OClass)
    (bs : list FunctionBinding) : option str :=
  match bs with
  | [] => None
  | b :: bs => match bad cls b with Some msg => Some msg | None => first_bad bad cls bs end
  end.

Fixpoint check_bindings (bad : OClass → FunctionBinding → option str) (cs : list OClass) :
    res PackageError unit :=
  match cs with
  | [] => Ok tt
  | c :: cs => match first_bad bad c (function_bindings c) with
               | Some msg => Err (PkgInvalid msg)
               | None => check_bindings bad cs
               end
  end.

Definition validate_class_function_consistency (p : OPackage) : res PackageError unit :=
  let function_keys := fn_key <$> pkg_functions p in
  check_bindings (λ c b,
    if decide (fb_function_key b ∈ function_keys) then None
    else Some (lit "Class " ++ cls_key c ++ lit " references non-existent function: "
               ++ fb_function_key b)) (pkg_classes p).

Definition validate_function_bindings (p : OPackage) : res PackageError unit :=
  check_bindings (λ c b,
    if decide (fb_function_key b = []) then
      Some (lit "Class " ++ cls_key c ++ lit " has empty function key in binding")
    else None) (pkg_classes p).

Definition validate (p : OPackage) : res PackageManagerError unit :=
  res_map_err EPackage
    (res_bind (validate_package_structure p) (λ _,
     res_bind (validate_class_function_consistency p) (λ _,
     validate_function_bindings p))).

(** The first key that is already among those before it. *)
Fixpoint first_duplicate (seen : list str) (keys : list str) : option str :=
  match keys with
  | [] => None
  | k :: keys => if decide (k ∈ seen) then Some k else first_duplicate (k :: seen) keys
  end.

(** [OPackage::validate_business_rules], which no code calls. *)
Definition validate_business_rules (p : OPackage) : res ValidationError unit :=
  match first_duplicate [] (cls_key <$> pkg_classes p) with
  | Some k => Err (DuplicateClassKey k)
  | None =>
      match first_duplicate [] (fn_key <$> pkg_functions p) with
      | Some k => Err (DuplicateFunctionKey k)
      | None => if decide ([] ∈ pkg_dependencies p) then Err EmptyDependencyName else Ok tt
      end
  end.
End Validator.

(** ** The service *)

(** The filter of the service; [disabled] is not read. *)
Record PackageServiceFilter := {
  pf_name_pattern : option str;
  pf_tags : list str;
  pf_limit : option nat;
  pf_offset : option nat;
}.

Record AppState (P D : Type) := {
  app_packages : P;
  app_pm : PmState D;
}.
Arguments app_packages {P D} _.
Arguments app_pm {P D} _.

Module Packages.
Section service.
Context {P D : Type} `{!PackageStorage P} `{!DeploymentStorage D}.
Context (w : CrmWorld) (m : CrmManager) (policy : DeploymentPolicyConfig).
Local Open Scope prog_scope.

Notation PM A := (M (AppState P D) PackageManagerError A).

Definition set_packages (x : P) (s : AppState P D) : AppState P D :=
  {| app_packages := x; app_pm := app_pm s |}.
Definition set_pm (x : PmState D) (s : AppState P D) : AppState P D :=
  {| app_packages := app_packages s; app_pm := x |}.

Definition on_packages {A} (c : M P CpStorageError A) : PM A :=
  map_err EStorage (zoom app_packages set_packages c).
Definition on_deployments {A} (c : M (PmState D) PackageManagerError A) : PM A :=
  zoom app_pm set_pm c.

Definition fail {A} (e : PackageError) : PM A := throw (EPackage e).

Fixpoint validate_dependencies (deps : list str) : PM unit :=
  match deps with
  | [] => ret tt
  | d :: deps =>
      let! known := on_packages (package_exists d) in
      if known : bool then validate_dependencies deps else fail (DependencyNotFound d)
  end.

(** [store_pkg.deployments.clear()] *)
Definition without_deployments (p : OPackage) : OPackage :=
  {| pkg_name := pkg_name p; pkg_version := pkg_version p; pkg_metadata := pkg_metadata p;
     pkg_classes := pkg_classes p; pkg_functions := pkg_functions p;
     pkg_dependencies := pkg_dependencies p; pkg_deployments := [] |}.

Definition create_package (p : OPackage) : PM str :=
  lift_res (Validator.validate p) ;;;
  let! known := on_packages (package_exists (pkg_name p)) in
  if known : bool then fail (PkgAlreadyExists (pkg_name p)) else
  validate_dependencies (pkg_dependencies p) ;;;
  on_packages (store_package (without_deployments p)) ;;;
  ret (pkg_name p).

Definition get_package (name : str) : PM (option OPackage) := on_packages (PmModel.get_package name).

Definition list_packages (f : PackageServiceFilter) : PM (list OPackage) :=
  let! ps := on_packages (PmModel.list_packages
               {| name_pattern := pf_name_pattern f; author := None; tags := pf_tags f |}) in
  let ps := match pf_offset f with Some n => drop n ps | None => ps end in
  ret match pf_limit f with Some n => take n ps | None => ps end.

Definition update_package (p : OPackage) : PM unit :=
  lift_res (Validator.validate p) ;;;
  let! known := on_packages (package_exists (pkg_name p)) in
  if negb known then fail (PkgNotFound (pkg_name p)) else
  validate_dependencies (pkg_dependencies p) ;;;
  on_packages (store_package (without_deployments p)).

(** Deletes that fail are only reported. *)
Fixpoint delete_each (keys : list str) : PM unit :=
  match keys with
  | [] => ret tt
  | k :: keys =>
      let! _ := tried (on_deployments (Deploy.delete_deployment w m k)) in
      delete_each keys
  end.

Definition of_package (name : str) : ServiceFilter :=
  {| sf_package_name := Some name; sf_class_key := None; sf_target_env := None;
     sf_limit := None; sf_offset := None |}.

Definition delete_package (name : str) : PM unit :=
  let! known := on_packages (package_exists name) in
  if negb known then fail (PkgNotFound name) else
  (if package_delete_cascade policy then
     let! ds := on_deployments (Deploy.list_deployments w m (of_package name)) in
     delete_each (dep_key <$> ds)
   else ret tt) ;;;
  on_packages (PmModel.delete_package name).
End service.
End Packages.

(** ** What is validated *)

Lemma check_bindings_ok bad cs :
  Validator.check_bindings bad cs = Ok tt ↔
  ∀ c b, c ∈ cs → b ∈ function_bindings c → bad c b = None.
Proof.
  assert (Hfirst : ∀ c bs, Validator.first_bad bad c bs = None ↔ ∀ b, b ∈ bs → bad c b = None).
  { intros c bs. induction bs as [|b bs IH]; simpl; [set_solver|].
    destruct (bad c b) eqn:E; [split; [done|]|rewrite IH; set_solver].
    intros H. specialize (H b ltac:(left)). congruence. }
  induction cs as [|c cs IH]; simpl; [set_solver|].
  destruct (Validator.first_bad bad c (function_bindings c)) eqn:E.
  - split; [done|]. intros H.
    assert (Validator.first_bad bad c (function_bindings c) = None); [|congruence].
    apply Hfirst. intros b. apply H. left.
  - rewrite IH. rewrite Hfirst in E. set_solver.
Qed.

Lemma check_bindings_cases bad cs :
  Validator.check_bindings bad cs = Ok tt ∨ ∃ msg, Validator.check_bindings bad cs = Err (PkgInvalid msg).
Proof.
  induction cs as [|c cs IH]; simpl; [by left|].
  destruct (Validator.first_bad _ _ _); [right; eauto|done].
Qed.

(** What every stored package satisfies. *)
Definition valid_package (p : OPackage) : Prop :=
  pkg_name p ≠ [] ∧ (32%Z ∉ pkg_name p) ∧
  ∀ c b, c ∈ pkg_classes p → b ∈ function_bindings c →
    fb_function_key b ≠ [] ∧ ∃ f, f ∈ pkg_functions p ∧ fn_key f = fb_function_key b.

Lemma validate_ok p : Validator.validate p = Ok tt ↔ valid_package p.
Proof.
  unfold Validator.validate, Validator.validate_package_structure, valid_package.
  case_decide as Hn; [naive_solver|]. case_decide as Hs; [naive_solver|]. simpl.
  assert (Hc : Validator.validate_class_function_consistency p = Ok tt ↔
    ∀ c b, c ∈ pkg_classes p → b ∈ function_bindings c → fb_function_key b ∈ fn_key <$> pkg_functions p).
  { unfold Validator.validate_class_function_consistency. rewrite check_bindings_ok.
    split; intros H c b Hc Hb; specialize (H c b Hc Hb); by case_decide. }
  assert (Hb : Validator.validate_function_bindings p = Ok tt ↔
    ∀ c b, c ∈ pkg_classes p → b ∈ function_bindings c → fb_function_key b ≠ []).
  { unfold Validator.validate_function_bindings. rewrite check_bindings_ok.
    split; intros H c b Hc' Hb; specialize (H c b Hc' Hb); by case_decide. }
  assert (Hcc : Validator.validate_class_function_consistency p = Ok tt ∨ ∃ msg,
    Validator.validate_class_function_consistency p = Err (PkgInvalid msg))
    by apply check_bindings_cases.
  assert (Hbb : Validator.validate_function_bindings p = Ok tt ∨ ∃ msg,
    Validator.validate_function_bindings p = Err (PkgInvalid msg)) by apply check_bindings_cases.
  destruct Hcc as [Ec|[msg Ec]]; rewrite Ec; simpl; rewrite Ec in Hc.
  - destruct Hbb as [Eb|[msg Eb]]; rewrite Eb; simpl; rewrite Eb in Hb.
    + split; [|done]. intros _. split; [done|]. split; [done|]. intros c b Hic Hib.
      split; [by apply (proj1 Hb eq_refl c b)|].
      apply (proj1 Hc eq_refl c b Hic) in Hib as (f & -> & Hf)%list_elem_of_fmap. eauto.
    + split; [done|]. intros (_ & _ & H).
      assert (Err (PkgInvalid msg) = Ok tt :> res PackageError unit); [|done].
      apply Hb. intros c b Hic Hib. by apply (H c b).
  - split; [done|]. intros (_ & _ & H).
    assert (Err (PkgInvalid msg) = Ok tt :> res PackageError unit); [|done].
    apply Hc. intros c b Hic Hib. destruct (H c b Hic Hib) as (_ & f & Hf & <-).
    by apply list_elem_of_fmap_2.
Qed.

Lemma validate_err p : Validator.validate p = Ok tt ∨
  ∃ msg, Validator.validate p = Err (EPackage (PkgInvalid msg)).
Proof.
  unfold Validator.validate, Validator.validate_package_structure.
  case_decide; [right; by eexists|]. case_decide; [right; by eexists|]. simpl.
  destruct (check_bindings_cases (λ c b,
    if decide (fb_function_key b ∈ fn_key <$> pkg_functions p) then None
    else Some (lit "Class " ++ cls_key c ++ lit " references non-existent function: "
               ++ fb_function_key b)) (pkg_classes p)) as [E|[msg E]];
    unfold Validator.validate_class_function_consistency; rewrite E; [|right; by eexists].
  simpl. destruct (check_bindings_cases (λ c b,
    if decide (fb_function_key b = []) then
      Some (lit "Class " ++ cls_key c ++ lit " has empty function key in binding")
    else None) (pkg_classes p)) as [E2|[msg E2]];
    unfold Validator.validate_function_bindings; rewrite E2; [by left|right; by eexists].
Qed.

(** ** The registry *)

Section registry.
Context {P D : Type} `{!PackageStorage P} `{!PackageStorageLaws P}.

Definition known (s : AppState P D) : gmap str OPackage := packages (app_packages s).

Lemma set_packages_same (s : AppState P D) : Packages.set_packages (app_packages s) s = s.
Proof. by destruct s. Qed.

Lemma exists_spec n (s : AppState P D) :
  Packages.on_packages (package_exists n) s = (Ok (bool_decide (is_Some (known s !! n))), s).
Proof.
  unfold Packages.on_packages, map_err.
  rewrite (zoom_eq _ _ _ _ _ _ (law_package_exists n (app_packages s))). simpl.
  by rewrite set_packages_same.
Qed.

Lemma dependencies_spec deps (s : AppState P D) :
  Packages.validate_dependencies deps s
  = (match list_find (λ d, known s !! d = None) deps with
     | Some (_, d) => Err (EPackage (DependencyNotFound d))
     | None => Ok tt
     end, s).
Proof using Type*.
  induction deps as [|d deps IH]; [done|]. simpl. unfold bind. rewrite exists_spec.
  destruct (known s !! d) as [p|] eqn:E.
  - rewrite bool_decide_true by eauto. rewrite decide_False by done. rewrite IH.
    by destruct (list_find _ deps) as [[]|].
  - rewrite bool_decide_false by (by intros []). by rewrite decide_True.
Qed.

Lemma store_spec p (s : AppState P D) : ∃ s',
  Packages.on_packages (store_package p) s = (Ok tt, s') ∧
  known s' = <[pkg_name p := p]> (known s) ∧ app_pm s' = app_pm s.
Proof.
  destruct (law_store_package p (app_packages s)) as (x & E & Hx).
  unfold Packages.on_packages, map_err. rewrite (zoom_eq _ _ _ _ _ _ E). by eexists.
Qed.

(** Storing a package once it was found present or absent as required. *)
Definition stored_or (p : OPackage) (s s' : AppState P D) (r : res PackageManagerError unit) : Prop :=
  app_pm s' = app_pm s ∧
  match list_find (λ d, known s !! d = None) (pkg_dependencies p) with
  | Some (_, d) => r = Err (EPackage (DependencyNotFound d)) ∧ s' = s
  | None => r = Ok tt ∧ known s' = <[pkg_name p := Packages.without_deployments p]> (known s)
  end.

Lemma check_and_store p (s : AppState P D) : ∃ r s',
  bind (Packages.validate_dependencies (pkg_dependencies p)) (λ _,
    Packages.on_packages (store_package (Packages.without_deployments p))) s = (r, s') ∧
  stored_or p s s' r.
Proof using Type*.
  unfold bind. rewrite dependencies_spec. unfold stored_or.
  destruct (list_find _ _) as [[i d]|]; [by do 2 eexists|].
  destruct (store_spec (Packages.without_deployments p) s) as (s' & E & Hk & Hpm).
  exists (Ok tt), s'. by rewrite E.
Qed.

(** Creating a package: an invalid one, one whose name is taken and one with an unknown
    dependency (the first is named) are errors that change nothing; else it is stored under
    its name without embedded deployments, and nothing else changes. *)
Lemma create_package_spec p (s : AppState P D) : ∃ r s',
  Packages.create_package (D:=D) p s = (r, s') ∧ app_pm s' = app_pm s ∧
  match Validator.validate p with
  | Ok _ =>
      if decide (is_Some (known s !! pkg_name p)) then
        r = Err (EPackage (PkgAlreadyExists (pkg_name p))) ∧ s' = s
      else
        match list_find (λ d, known s !! d = None) (pkg_dependencies p) with
        | Some (_, d) => r = Err (EPackage (DependencyNotFound d)) ∧ s' = s
        | None => r = Ok (pkg_name p) ∧ valid_package p ∧
            known s' = <[pkg_name p := Packages.without_deployments p]> (known s)
        end
  | Err e => r = Err e ∧ s' = s
  | Panic _ => False
  end.
Proof.
  unfold Packages.create_package, bind at 1, lift_res.
  destruct (validate_err p) as [E|[msg E]]; rewrite E; [|by do 2 eexists].
  unfold bind at 1. rewrite exists_spec. case_decide as Hd.
  { rewrite bool_decide_true by done. by do 2 eexists. }
  rewrite bool_decide_false by done.
  destruct (check_and_store p s) as (r & s' & Er & Hpm & Hr).
  rewrite <- (bind_assoc (Packages.validate_dependencies (pkg_dependencies p))).
  unfold bind at 1. rewrite Er. destruct (list_find _ _) as [[i d]|].
  - destruct Hr as [-> ->]. by do 2 eexists.
  - destruct Hr as [-> Hk]. do 2 eexists. split; [done|]. split; [done|].
    split; [done|]. split; [by apply validate_ok|done].
Qed.
End registry.

Section cascade.
Context {P D : Type} `{!PackageStorage P} `{!PackageStorageLaws P}.
Context `{!DeploymentStorage D} `{!DeploymentStorageLaws D}.
Context (w : CrmWorld) (m : CrmManager) (policy : DeploymentPolicyConfig).

Definition records (s : AppState P D) : gmap str OClassDeployment :=
  deployments (store (app_pm s)).

(** Records are stored under their keys. *)
Definition keyed (s : AppState P D) : Prop := map_Forall (λ k d, dep_key d = k) (records s).

Lemma delete_each_spec keys (s : AppState P D) : ∃ s',
  Packages.delete_each w m keys s = (Ok tt, s') ∧ known s' = known s ∧
  records s' = foldr delete (records s) keys.
Proof using Type*.
  revert s. induction keys as [|k keys IH]; intros s; [by exists s|]. simpl.
  unfold bind, tried, Packages.on_deployments, zoom.
  pose proof (delete_deployment_spec w m k (app_pm s)) as Hdel.
  destruct (Deploy.delete_deployment w m k (app_pm s)) as [r x]. destruct Hdel as [_ Hdel].
  assert (Hx : deployments (store x) = delete k (records s) ∧ ∀ p, r ≠ Panic p).
  { unfold records. destruct (deployments (store (app_pm s)) !! k) eqn:E.
    - by destruct Hdel as (-> & -> & _).
    - destruct Hdel as [-> ->]. by rewrite delete_id. }
  destruct Hx as [Hx Hr], r as [a|e|p]; [| |by destruct (Hr p)];
    destruct (IH (Packages.set_pm x s)) as (s' & -> & Hk & Hrec); exists s';
    (split; [done|]); (split; [done|]); rewrite Hrec; unfold records at 1; simpl; rewrite Hx;
    clear; induction keys as [|k' keys IH]; simpl; try done; by rewrite IH, delete_delete.
Qed.

Lemma foldr_delete_lookup {A} (keys : list str) (mm : gmap str A) k :
  foldr delete mm keys !! k = if decide (k ∈ keys) then None else mm !! k.
Proof.
  induction keys as [|k' keys IH]; simpl; [done|].
  destruct (decide (k = k')) as [->|Hne].
  - rewrite lookup_delete_eq, decide_True; [done|left].
  - rewrite lookup_delete_ne, IH by done. apply decide_ext. set_solver.
Qed.

Lemma same_record_keys l0 l : Forall2 same_record l0 l → dep_key <$> l = dep_key <$> l0.
Proof.
  induction 1 as [|d d' l0 l Hd _ IH]; [done|]. rewrite !fmap_cons, IH. f_equal.
  by destruct Hd as [->|(c & now & ->)].
Qed.

(** Deleting a package that is known removes it; with the cascade it also deletes all the
    deployments of the package, and keeps those of every other package. An unknown
    package is an error that changes nothing. *)
Lemma delete_package_spec name (s : AppState P D) : keyed s → ∃ r s',
  Packages.delete_package w m policy name s = (r, s') ∧
  if decide (is_Some (known s !! name)) then
    r = Ok tt ∧ known s' = delete name (known s) ∧
    records s' = if package_delete_cascade policy
                 then filter (λ kd, dep_package_name kd.2 ≠ name) (records s)
                 else records s
  else r = Err (EPackage (PkgNotFound name)) ∧ s' = s.
Proof.
  intros Hkeyed. unfold Packages.delete_package, bind at 1. rewrite exists_spec.
  case_decide as Hn; [rewrite bool_decide_true by done|rewrite bool_decide_false by done; by do 2 eexists].
  simpl. assert (Hdel : ∀ s1, known s1 = known s → ∃ s',
    Packages.on_packages (PmModel.delete_package name) s1 = (Ok tt, s') ∧
    known s' = delete name (known s) ∧ records s' = records s1).
  { intros s1 Hk. destruct (law_delete_package name (app_packages s1)) as (x & E & Hx).
    unfold Packages.on_packages, map_err. rewrite (zoom_eq _ _ _ _ _ _ E). eexists.
    split; [done|]. split; [|done]. unfold known in *. simpl. by rewrite Hx, Hk. }
  destruct (package_delete_cascade policy).
  2:{ destruct (Hdel s eq_refl) as (s' & E & Hk & Hr). unfold bind, ret. rewrite E. by do 2 eexists. }
  destruct (list_all_spec w m (Packages.of_package name) (app_pm s) eq_refl eq_refl)
    as (l & l0 & x & El & Hsame & Hp).
  unfold bind at 1. unfold bind at 1. unfold Packages.on_deployments.
  rewrite (zoom_eq _ _ _ _ _ _ El). set (s1 := Packages.set_pm _ s).
  destruct (delete_each_spec (dep_key <$> l) s1) as (s2 & E2 & Hk2 & Hr2). rewrite E2.
  destruct (Hdel s2) as (s' & E & Hk & Hr); [by rewrite Hk2|]. rewrite E.
  do 2 eexists. split; [done|]. split; [done|]. split; [done|]. rewrite Hr, Hr2.
  change (records s1) with (records s).
  rewrite (same_record_keys _ _ Hsame). apply map_eq. intros k. rewrite foldr_delete_lookup.
  assert (Hin : k ∈ dep_key <$> l0 ↔ ∃ d, records s !! k = Some d ∧ dep_package_name d = name).
  { rewrite Hp. clear -Hkeyed. rewrite list_elem_of_fmap. split.
    - intros (d & -> & [Hm ([k' d'] & -> & Hd%elem_of_map_to_list)%list_elem_of_fmap]%list_elem_of_filter).
      simpl in *. rewrite (Hkeyed _ _ Hd). exists d'. split; [done|].
      unfold Filters.deployment_matches in Hm. simpl in Hm.
      destruct (bool_decide_reflect (dep_package_name d' = name)); [done|]. done.
    - intros (d & Hd & Hname). exists d. split; [by rewrite (Hkeyed _ _ Hd)|].
      apply list_elem_of_filter. split.
      + unfold Filters.deployment_matches. simpl. by rewrite bool_decide_true.
      + apply list_elem_of_fmap. exists (k, d). by rewrite elem_of_map_to_list. }
  symmetry. case_decide as Hc.
  - apply map_lookup_filter_None. right. intros d Hd. simpl. apply Hin in Hc as (d' & Hd' & ?).
    rewrite Hd in Hd'. injection Hd' as ->. naive_solver.
  - destruct (records s !! k) as [d|] eqn:Hd.
    + apply map_lookup_filter_Some. split; [done|]. simpl. intros Hname. apply Hc, Hin. eauto.
    + apply map_lookup_filter_None. by left.
Qed.
End cascade.
