(* ===== verification/PmApi.v ===== *)
(** * The API of the package manager

    [control-plane/oprc-pm/src/api/handlers/package.rs], [deployment.rs], [cluster.rs] and
    [topology.rs] and the texts of [errors.rs]: the handlers on the state of the services, and
    what holds of every state they can reach. *)

From stdpp Require Import base tactics list list_numbers numbers option gmap strings sorting.
From Stdlib Require Import ZArith Lia.
From S2P Require Import Prelude BTree Float64 Routing Json Enforcer Metadata Placement Quorum PmModel PmUnits PmCrm PmDeploy PmPackage.

Set Default Proof Using "Type".

Inductive ApiError : Type :=
| BadRequest (msg : str) | NotFound (msg : str)
| InternalServerError (msg : str) | Unavailable (msg : str).

(** [into_response]: the status and the text. *)
Definition into_response (e : ApiError) : Z * str :=
  match e with
  | BadRequest msg => (400%Z, msg)
  | NotFound msg => (404%Z, msg)
  | InternalServerError msg => (500%Z, msg)
  | Unavailable msg => (503%Z, msg)
  end.

Definition storage_text (e : CpStorageError) : str :=
  match e with
  | StNotFound s => lit "Item not found: " ++ s
  | StAlreadyExists s => lit "Item already exists: " ++ s
  | StSerialization s => lit "Serialization error: " ++ s
  | StConnection s => lit "Connection error: " ++ s
  | StTimeout s => lit "Timeout error: " ++ s
  | StInvalidKey s => lit "Invalid key: " ++ s
  | StBackend s => lit "Storage backend error: " ++ s
  | StInternal s => lit "Internal error: " ++ s
  end.

Definition package_text (e : PackageError) : str :=
  match e with
  | PkgNotFound s => lit "Package not found: " ++ s
  | PkgAlreadyExists s => lit "Package already exists: " ++ s
  | PkgInvalid s => lit "Invalid package: " ++ s
  | DependencyNotFound s => lit "Dependency not found: " ++ s
  | CircularDependency s => lit "Circular dependency detected: " ++ s
  end.

Definition deployment_text (e : DeploymentError) : str :=
  match e with
  | DepNotFound s => lit "Deployment not found: " ++ s
  | DepAlreadyExists s => lit "Deployment already exists: " ++ s
  | DepInvalid s => lit "Invalid deployment: " ++ s
  | InsufficientResources s => lit "Insufficient resources: " ++ s
  | ClusterUnavailable s => lit "Target cluster not available: " ++ s
  end.

Definition error_text (e : PackageManagerError) : str :=
  match e with
  | EPackage e => lit "Package error: " ++ package_text e
  | EDeployment e => lit "Deployment error: " ++ deployment_text e
  | EStorage e => lit "Storage error: " ++ storage_text e
  | ECrm e => lit "CRM error: " ++ crm_text e
  | EConfig s => lit "Configuration error: " ++ s
  | EValidation s => lit "Validation error: " ++ s
  | EInternal s => lit "Internal error: " ++ s
  end.

Record ApiResponse := {
  resp_id : str;
  resp_status : str;
  resp_message : option str;
}.

Record ClusterInfo := {
  ci_name : str;
  ci_health : ClusterHealth;
}.

Record TopologyNode := {
  node_id_ : str;
  node_type : str;
  node_status : str;
  node_metadata : gmap str str;
  deployed_classes : list str;
}.

Record TopologyEdge := {
  from_id : str;
  to_id : str;
}.

Record TopologySnapshot := {
  topo_nodes : list TopologyNode;
  topo_edges : list TopologyEdge;
  topo_timestamp : Z;
}.

Module Topo.
Definition class_id (d : OClassDeployment) : str := lit "class::" ++ dep_class_key d.
Definition package_id (d : OClassDeployment) : str := lit "package::" ++ dep_package_name d.
Definition env_id (env : str) : str := lit "env::" ++ env.
Definition function_id (d : OClassDeployment) (f : FunctionDeploymentSpec) : str :=
  lit "function::" ++ dep_class_key d ++ lit "::" ++ fd_function_key f.

Definition node (id type_ : str) (md : gmap str str) (classes : list str) : TopologyNode :=
  {| node_id_ := id; node_type := type_; node_status := lit "healthy"; node_metadata := md;
     deployed_classes := classes |}.
Definition edge (a b : str) : TopologyEdge := {| from_id := a; to_id := b |}.

(** The identifiers of the environments and packages so far ([env_nodes], [package_nodes]) and
    the graph so far. *)
Record Graph := {
  env_seen : gset str;
  package_seen : gset str;
  nodes : list TopologyNode;
  edges : list TopologyEdge;
}.

Definition push (ns : list TopologyNode) (es : list TopologyEdge) (g : Graph) : Graph :=
  {| env_seen := env_seen g; package_seen := package_seen g;
     nodes := nodes g ++ ns; edges := edges g ++ es |}.

Definition add_package (d : OClassDeployment) (g : Graph) : Graph :=
  if decide (package_id d ∈ package_seen g) then g
  else {| env_seen := env_seen g; package_seen := {[package_id d]} ∪ package_seen g;
          nodes := nodes g ++ [node (package_id d) (lit "package") ∅ []]; edges := edges g |}.

Definition class_metadata (d : OClassDeployment) : gmap str str :=
  let md := {[lit "package" := dep_package_name d]} in
  match o ← dep_odgm d; od_partition_count o with
  | Some n => <[lit "partitions" := dec (Z.to_nat n)]> md
  | None => md
  end.

Definition add_class (d : OClassDeployment) (g : Graph) : Graph :=
  push [node (class_id d) (lit "class") (class_metadata d) [dep_class_key d]]
       [edge (package_id d) (class_id d)] g.

Definition add_function (d : OClassDeployment) (g : Graph) (f : FunctionDeploymentSpec) : Graph :=
  push [node (function_id d f) (lit "function") {[lit "class" := dep_class_key d]} []]
       [edge (class_id d) (function_id d f)] g.

Definition add_env (d : OClassDeployment) (g : Graph) (env : str) : Graph :=
  let g := if decide (env_id env ∈ env_seen g) then g
           else {| env_seen := {[env_id env]} ∪ env_seen g; package_seen := package_seen g;
                   nodes := nodes g ++ [node (env_id env) (lit "environment")
                                          {[lit "name" := env]} []];
                   edges := edges g |} in
  push [] [edge (class_id d) (env_id env)] g.

Definition add_deployment (g : Graph) (d : OClassDeployment) : Graph :=
  let g := add_class d (add_package d g) in
  let g := foldl (add_function d) g (dep_functions d) in
  foldl (add_env d) g (target_envs d).

Definition empty : Graph := {| env_seen := ∅; package_seen := ∅; nodes := []; edges := [] |}.

Definition of_deployments (ds : list OClassDeployment) (now : Z) : TopologySnapshot :=
  let g := foldl add_deployment empty ds in
  {| topo_nodes := nodes g; topo_edges := edges g; topo_timestamp := now |}.
End Topo.

Module Api.
Section api.
Context {P D : Type} `{!PackageStorage P} `{!DeploymentStorage D}.
Context (w : CrmWorld) (m : CrmManager) (policy : DeploymentPolicyConfig).
Local Open Scope prog_scope.

Notation AM A := (M (AppState P D) ApiError A).

(** [InternalServerError(format!("{what}: {e}"))] *)
Definition internal (what : str) (e : PackageManagerError) : ApiError :=
  InternalServerError (what ++ lit ": " ++ error_text e).

Definition respond (id : str) (status message : string) : ApiResponse :=
  {| resp_id := id; resp_status := lit status; resp_message := Some (lit message) |}.

(** *** Packages *)

Definition create_package (p : OPackage) : AM (Z * ApiResponse) :=
  let! id := map_err (internal (lit "Failed to create package")) (Packages.create_package p) in
  ret (201%Z, respond id "created" "Package created successfully").

Definition get_package (name : str) : AM OPackage :=
  let! p := map_err (internal (lit "Failed to get package")) (Packages.get_package name) in
  match p with
  | Some p => ret p
  | None => throw (NotFound (lit "Package not found: " ++ name))
  end.

Definition list_packages (f : PackageServiceFilter) : AM (list OPackage) :=
  map_err (internal (lit "Failed to list packages")) (Packages.list_packages f).

Definition update_package (name : str) (p : OPackage) : AM ApiResponse :=
  if decide (pkg_name p = name) then
    map_err (internal (lit "Failed to update package")) (Packages.update_package p) ;;;
    ret (respond name "updated" "Package updated successfully")
  else throw (BadRequest (lit "Package name in URL does not match package name in body")).

Definition delete_package (name : str) : AM Z :=
  map_err (λ e, match e with
                | EPackage (PkgNotFound _) => NotFound (lit "Package not found: " ++ name)
                | _ => internal (lit "Failed to delete package") e
                end) (Packages.delete_package w m policy name) ;;;
  ret 204%Z.

(** *** Deployments *)

Definition on_crm {A} (f : CrmError → ApiError) (c : M CrmState CrmError A) : AM A :=
  map_err f (zoom (λ s, crm (app_pm s))
                  (λ x s, Packages.set_pm (Deploy.set_crm x (app_pm s)) s) c).

(** The specs of the functions a class binds, from the functions of the package. *)
Fixpoint enrich_functions (p : OPackage) (bs : list FunctionBinding) :
    res ApiError (list FunctionDeploymentSpec) :=
  match bs with
  | [] => Ok []
  | b :: bs =>
      match list_find (λ f, fn_key f = fb_function_key b) (pkg_functions p) with
      | None => Err (BadRequest (lit "Function '" ++ fb_function_key b
                  ++ lit "' referenced by binding '" ++ fb_name b
                  ++ lit "' not found in package '" ++ pkg_name p))
      | Some (_, f) =>
          res_bind (enrich_functions p bs) (λ rest,
          Ok ({| fd_function_key := fn_key f; fd_description := fn_description f;
                 fd_available_location := None; fd_qos_requirement := None;
                 fd_provision_config := fn_provision_config f; fd_config := fn_config f |}
              :: rest))
      end
  end.

Definition default_odgm : OdgmDataSpec :=
  {| od_collections := []; od_partition_count := None; od_replica_count := None;
     od_shard_type := None; env_node_ids := ∅; od_log := None; od_options := ∅;
     zenoh_mode := None |}.

(** The data grid of a deployment, with a default collection and log level. *)
Definition enrich_odgm (dep : OClassDeployment) : OdgmDataSpec :=
  let o := default default_odgm (dep_odgm dep) in
  {| od_collections := match od_collections o with
                       | [] => [dep_package_name dep ++ lit "." ++ dep_class_key dep]
                       | cs => cs
                       end;
     od_partition_count := od_partition_count o; od_replica_count := od_replica_count o;
     od_shard_type := od_shard_type o; env_node_ids := env_node_ids o;
     od_log := match od_log o with None => Some (lit "info") | l => l end;
     od_options := od_options o; zenoh_mode := zenoh_mode o |}.

Definition enriched (dep : OClassDeployment) (fs : list FunctionDeploymentSpec) :
    OClassDeployment :=
  {| dep_key := dep_key dep; dep_package_name := dep_package_name dep;
     dep_class_key := dep_class_key dep; target_envs := target_envs dep;
     available_envs := available_envs dep; dep_nfr := dep_nfr dep;
     env_templates := env_templates dep; dep_functions := fs;
     dep_condition := dep_condition dep; dep_odgm := Some (enrich_odgm dep);
     dep_telemetry := dep_telemetry dep; dep_status := dep_status dep;
     created_at := created_at dep; updated_at := updated_at dep |}.

Definition create_deployment (dep : OClassDeployment) : AM ApiResponse :=
  let! p := map_err (internal (lit "Failed to load package"))
              (Packages.get_package (dep_package_name dep)) in
  match p with
  | None => throw (NotFound (lit "Package not found: " ++ dep_package_name dep))
  | Some p =>
      match list_find (λ c, cls_key c = dep_class_key dep) (pkg_classes p) with
      | None => throw (BadRequest (lit "Class '" ++ dep_class_key dep
                  ++ lit "' not found in package '" ++ pkg_name p))
      | Some (_, cls) =>
          on_crm (λ _, BadRequest (lit "Invalid target envs"))
            (Crm_.select_deployment_clusters w m (target_envs dep)) ;;;
          let! fs := match dep_functions dep with
                     | [] => lift_res (enrich_functions p (function_bindings cls))
                     | fs => ret fs
                     end in
          let! id := map_err (internal (lit "Failed to create deployment"))
                       (Packages.on_deployments
                          (Deploy.deploy_class w m policy cls (enriched dep fs))) in
          ret (respond id "created" "Deployment created successfully")
      end
  end.

Definition list_deployments (f : ServiceFilter) : AM (list OClassDeployment) :=
  map_err (internal (lit "Failed to list deployments"))
    (Packages.on_deployments (Deploy.list_deployments w m f)).

Definition get_deployment (key : str) : AM OClassDeployment :=
  let! d := map_err (internal (lit "Failed to get deployment"))
              (Packages.on_deployments (Deploy.get_deployment key)) in
  match d with
  | Some d => ret d
  | None => throw (NotFound (lit "Deployment not found: " ++ key))
  end.

(** The environments are those of the record before it is deleted. *)
Definition delete_deployment (id : str) : AM (str * list str) :=
  let! d := map_err (internal (lit "Failed to load deployment"))
              (Packages.on_deployments (Deploy.get_deployment id)) in
  match d with
  | None => throw (NotFound (lit "Deployment not found: " ++ id))
  | Some d =>
      map_err (internal (lit "Failed to delete deployment"))
        (Packages.on_deployments (Deploy.delete_deployment w m id)) ;;;
      ret (id, Deploy.deployed_envs d)
  end.

Definition get_deployment_mappings (key : str) : AM (gmap str str) :=
  map_err (internal (lit "Failed to get deployment mappings"))
    (Packages.on_deployments (Deploy.get_cluster_mappings key)).

(** *** Class runtimes *)

Definition list_class_runtimes (cluster : option str) (limit : option nat) :
    AM (list RuntimeSummary) :=
  on_crm (λ e, InternalServerError (lit "Failed to list class runtimes: " ++ crm_text e))
    (Crm_.get_all_class_runtimes w m cluster limit).

(** [cluster] is the parameter [env] or else [cluster] of the request. Without one all
    environments are searched, one record being asked for. *)
Definition get_class_runtime (cluster : option str) (id : str) : AM RuntimeSummary :=
  match cluster with
  | Some c =>
      on_crm (λ _, BadRequest (lit "Invalid env: " ++ c)) (Crm_.get_client m c) ;;;
      let! r := on_crm (λ _, Unavailable []) (Crm_.ask (w_runtime w) (GetRuntime c id)) in
      match r with
      | inr item => ret item
      | inl _ => throw (NotFound (lit "Class runtime not found"))
      end
  | None =>
      let! items := on_crm (λ e, InternalServerError
                      (lit "Failed to search class runtimes: " ++ crm_text e))
                      (Crm_.get_all_class_runtimes w m None (Some 1)) in
      match list_find (λ r, rs_id r = id) items with
      | Some (_, r) => ret r
      | None => throw (NotFound (lit "Class runtime not found"))
      end
  end.

Definition get_deployment_status (cluster : option str) (id : str) : AM DeploymentStatus :=
  let! c := match cluster with
            | Some c => on_crm (λ _, BadRequest (lit "Invalid env: " ++ c)) (Crm_.get_client m c) ;;;
                        ret c
            | None => on_crm (λ _, Unavailable (lit "No default cluster available"))
                        (Crm_.get_default_client m)
            end in
  let! r := on_crm (λ _, Unavailable []) (Crm_.ask (w_status w) (GetStatus c id)) in
  match r with
  | inr st => ret st
  | inl _ => throw (NotFound (lit "Deployment status not found"))
  end.

(** *** Clusters *)

Definition unknown_health (name : str) (now : Z) : ClusterHealth :=
  {| ch_cluster_name := name; ch_status := lit "Unknown"; ch_crm_version := None;
     ch_last_seen := now; node_count := None; ready_nodes := None; ch_availability := None |}.

Definition health_or_unknown (c : str) : AM ClusterHealth :=
  let! r := on_crm (λ _, Unavailable []) (Crm_.attempt_ (Crm_.get_cluster_health w m c)) in
  match r with
  | inr h => ret h
  | inl _ =>
      let! now := on_crm (λ _, Unavailable []) (Crm_.ask (w_clock w) PmClock) in
      ret (unknown_health c now)
  end.

Fixpoint health_list (cs : list str) : AM (list ClusterHealth) :=
  match cs with
  | [] => ret []
  | c :: cs => let! h := health_or_unknown c in let! rest := health_list cs in ret (h :: rest)
  end.

Definition list_clusters_health : AM (list ClusterHealth) := health_list (Crm_.list_clusters m).

Definition list_clusters : AM (list ClusterInfo) :=
  let! hs := health_list (Crm_.list_clusters m) in
  ret (zip_with (λ n h, {| ci_name := n; ci_health := h |}) (Crm_.list_clusters m) hs).

Definition get_cluster_health (c : str) : AM ClusterHealth :=
  on_crm (λ e, match e with
               | ClusterNotFound _ => NotFound (lit "Cluster not found: " ++ c)
               | _ => InternalServerError (lit "Failed to get cluster health: " ++ crm_text e)
               end) (Crm_.get_cluster_health w m c).

Definition any_package : PackageServiceFilter :=
  {| pf_name_pattern := None; pf_tags := []; pf_limit := None; pf_offset := None |}.

(** The key of a class, qualified by its package. *)
Definition qualify (p : OPackage) (c : OClass) : OClass :=
  {| cls_key := pkg_name p ++ lit "." ++ cls_key c; cls_description := cls_description c;
     state_spec := state_spec c; function_bindings := function_bindings c;
     cls_options := cls_options c |}.

Definition list_classes : AM (list OClass) :=
  let! ps := map_err (internal (lit "Failed to list classes")) (Packages.list_packages any_package) in
  ret (concat ((λ p, qualify p <$> pkg_classes p) <$> ps)).

Definition list_functions : AM (list OFunction) :=
  let! ps := map_err (internal (lit "Failed to list functions")) (Packages.list_packages any_package) in
  ret (concat (pkg_functions <$> ps)).

(** *** Topology *)

Definition any_deployment : ServiceFilter :=
  {| sf_package_name := None; sf_class_key := None; sf_target_env := None;
     sf_limit := None; sf_offset := None |}.

Definition build_deployment_topology : AM TopologySnapshot :=
  let! ds := map_err (internal (lit "Failed to list deployments"))
               (Packages.on_deployments (Deploy.list_deployments w m any_deployment)) in
  let! now := on_crm (λ _, Unavailable []) (Crm_.ask (w_clock w) PmClock) in
  ret (Topo.of_deployments ds now).
End api.
End Api.

(** ** The topology *)

Section topology.
Implicit Types (g : Topo.Graph) (d : OClassDeployment).

Definition ids_of (type_ : string) (ns : list TopologyNode) : list str :=
  node_id_ <$> filter (λ n, node_type n = lit type_) ns.

(** The graph is closed, and the sets hold the environments and the packages in it. *)
Definition graph_ok (g : Topo.Graph) : Prop :=
  (∀ e, e ∈ Topo.edges g →
     from_id e ∈ node_id_ <$> Topo.nodes g ∧ to_id e ∈ node_id_ <$> Topo.nodes g) ∧
  (∀ i, i ∈ Topo.env_seen g ↔ i ∈ ids_of "environment" (Topo.nodes g)) ∧
  (∀ i, i ∈ Topo.package_seen g ↔ i ∈ ids_of "package" (Topo.nodes g)) ∧
  NoDup (ids_of "environment" (Topo.nodes g)) ∧ NoDup (ids_of "package" (Topo.nodes g)).

Lemma ids_of_app t l1 l2 : ids_of t (l1 ++ l2) = ids_of t l1 ++ ids_of t l2.
Proof. unfold ids_of. by rewrite filter_app, fmap_app. Qed.

Lemma ids_of_nodes t ns i : i ∈ ids_of t ns → i ∈ node_id_ <$> ns.
Proof.
  unfold ids_of. intros (n & -> & [_ Hn]%list_elem_of_filter)%list_elem_of_fmap.
  by apply list_elem_of_fmap_2.
Qed.

(** Adding nodes of other kinds, and edges between nodes that are there then. *)
Lemma push_ok ns es g :
  graph_ok g → ids_of "environment" ns = [] → ids_of "package" ns = [] →
  (∀ e, e ∈ es → from_id e ∈ node_id_ <$> (Topo.nodes g ++ ns) ∧
                 to_id e ∈ node_id_ <$> (Topo.nodes g ++ ns)) →
  graph_ok (Topo.push ns es g).
Proof.
  intros (He & Henv & Hpkg & Hn1 & Hn2) H1 H2 Hes. unfold graph_ok. simpl.
  rewrite !ids_of_app, H1, H2, !app_nil_r. split; [|done].
  intros e [Hin|Hin]%elem_of_app; [|by apply Hes].
  rewrite fmap_app, !elem_of_app. destruct (He e Hin). auto.
Qed.

Lemma package_ok d g :
  graph_ok g → graph_ok (Topo.add_package d g) ∧
  Topo.package_id d ∈ node_id_ <$> Topo.nodes (Topo.add_package d g).
Proof.
  intros Hg. pose proof Hg as (He & Henv & Hpkg & Hn1 & Hn2). unfold Topo.add_package.
  destruct (decide (Topo.package_id d ∈ Topo.package_seen g)) as [Hs|Hs].
  { split; [done|]. by apply (ids_of_nodes "package"), Hpkg. }
  split; [|simpl; rewrite fmap_app, elem_of_app; right; by left].
  unfold graph_ok. simpl. rewrite !ids_of_app.
  replace (ids_of "environment" [_]) with ([] : list str) by (vm_compute; reflexivity).
  replace (ids_of "package" [Topo.node (Topo.package_id d) _ _ _]) with [Topo.package_id d]
    by (vm_compute; reflexivity).
  rewrite app_nil_r. split_and!; [|done| |done|].
  - intros e Hin. rewrite fmap_app, !elem_of_app. destruct (He e Hin). auto.
  - intros i. rewrite elem_of_union, elem_of_singleton, elem_of_app, Hpkg, list_elem_of_singleton.
    tauto.
  - apply NoDup_app. split; [done|]. split; [|apply NoDup_singleton].
    intros i Hi Hi'%list_elem_of_singleton. subst i. by apply Hs, Hpkg.
Qed.

Lemma env_ok d g env :
  graph_ok g → Topo.class_id d ∈ node_id_ <$> Topo.nodes g →
  graph_ok (Topo.add_env d g env) ∧ Topo.nodes g ⊆ Topo.nodes (Topo.add_env d g env) ∧
  Topo.env_id env ∈ ids_of "environment" (Topo.nodes (Topo.add_env d g env)).
Proof.
  intros Hg Hc. pose proof Hg as (He & Henv & Hpkg & Hn1 & Hn2). unfold Topo.add_env.
  assert (Hpush : ∀ g', graph_ok g' → Topo.nodes g ⊆ Topo.nodes g' →
    Topo.env_id env ∈ ids_of "environment" (Topo.nodes g') →
    graph_ok (Topo.push [] [Topo.edge (Topo.class_id d) (Topo.env_id env)] g') ∧
    Topo.nodes g ⊆ Topo.nodes g' ++ [] ∧
    Topo.env_id env ∈ ids_of "environment" (Topo.nodes g' ++ [])).
  { intros g' Hg' Hsub Hin. rewrite app_nil_r. split; [|done]. apply push_ok; [done..|].
    intros e ->%list_elem_of_singleton. rewrite app_nil_r. simpl.
    split; [|by eapply ids_of_nodes].
    apply list_elem_of_fmap in Hc as (n & -> & Hn). apply list_elem_of_fmap_2. by apply Hsub. }
  destruct (decide (Topo.env_id env ∈ Topo.env_seen g)) as [Hs|Hs].
  { apply Hpush; [done..|by apply Henv]. }
  apply Hpush; simpl; [|set_solver|].
  - unfold graph_ok. simpl. rewrite !ids_of_app.
    replace (ids_of "package" [_]) with ([] : list str) by (vm_compute; reflexivity).
    replace (ids_of "environment" [Topo.node (Topo.env_id env) _ _ _]) with [Topo.env_id env]
      by (vm_compute; reflexivity).
    rewrite app_nil_r. split_and!; [| |done| |done].
    + intros e Hin. rewrite fmap_app, !elem_of_app. destruct (He e Hin). auto.
    + intros i. rewrite elem_of_union, elem_of_singleton, elem_of_app, Henv, list_elem_of_singleton.
      tauto.
    + apply NoDup_app. split; [done|]. split; [|apply NoDup_singleton].
      intros i Hi Hi'%list_elem_of_singleton. subst i. by apply Hs, Henv.
  - rewrite ids_of_app, elem_of_app. right.
    replace (ids_of "environment" [Topo.node (Topo.env_id env) _ _ _]) with [Topo.env_id env]
      by (vm_compute; reflexivity). by left.
Qed.

Lemma functions_ok d fs g :
  graph_ok g → Topo.class_id d ∈ node_id_ <$> Topo.nodes g →
  let g' := foldl (Topo.add_function d) g fs in
  graph_ok g' ∧ Topo.nodes g ⊆ Topo.nodes g'.
Proof.
  revert g. induction fs as [|f fs IH]; intros g Hg Hc; simpl; [done|].
  assert (Hg1 : graph_ok (Topo.add_function d g f)).
  { apply push_ok; [done|by vm_compute..|]. intros e ->%list_elem_of_singleton. simpl.
    rewrite fmap_app, !elem_of_app. split; [by left|right; by left]. }
  assert (Hsub : Topo.nodes g ⊆ Topo.nodes (Topo.add_function d g f)) by (simpl; set_solver).
  destruct (IH (Topo.add_function d g f) Hg1) as [Hok Hs]; [|split; [done|by etransitivity]].
  apply list_elem_of_fmap in Hc as (n & -> & Hn). apply list_elem_of_fmap_2. by apply Hsub.
Qed.

Lemma envs_ok d envs g :
  graph_ok g → Topo.class_id d ∈ node_id_ <$> Topo.nodes g →
  let g' := foldl (Topo.add_env d) g envs in
  graph_ok g' ∧ Topo.nodes g ⊆ Topo.nodes g'.
Proof.
  revert g. induction envs as [|env envs IH]; intros g Hg Hc; simpl; [done|].
  destruct (env_ok d g env Hg Hc) as (Hg1 & Hsub & _).
  destruct (IH (Topo.add_env d g env) Hg1) as [Hok Hs]; [|split; [done|by etransitivity]].
  apply list_elem_of_fmap in Hc as (n & -> & Hn). apply list_elem_of_fmap_2. by apply Hsub.
Qed.

Lemma add_deployment_ok g d :
  graph_ok g → graph_ok (Topo.add_deployment g d) ∧
  Topo.nodes g ⊆ Topo.nodes (Topo.add_deployment g d) ∧
  Topo.class_id d ∈ node_id_ <$> Topo.nodes (Topo.add_deployment g d).
Proof.
  intros Hg. unfold Topo.add_deployment. destruct (package_ok d g Hg) as [Hp Hpin].
  assert (Hc : graph_ok (Topo.add_class d (Topo.add_package d g))).
  { apply push_ok; [done|by vm_compute..|]. intros e ->%list_elem_of_singleton. simpl.
    rewrite fmap_app, !elem_of_app. split; [by left|right; by left]. }
  assert (Hin : Topo.class_id d ∈ node_id_ <$> Topo.nodes (Topo.add_class d (Topo.add_package d g))).
  { simpl. rewrite fmap_app, elem_of_app. right. by left. }
  assert (Hsub0 : Topo.nodes g ⊆ Topo.nodes (Topo.add_class d (Topo.add_package d g))).
  { simpl. unfold Topo.add_package. case_decide; simpl; set_solver. }
  destruct (functions_ok d (dep_functions d) _ Hc Hin) as [Hf Hsub1].
  assert (Hin1 : Topo.class_id d ∈ node_id_ <$> Topo.nodes
    (foldl (Topo.add_function d) (Topo.add_class d (Topo.add_package d g)) (dep_functions d))).
  { apply list_elem_of_fmap in Hin as (n & -> & Hn). apply list_elem_of_fmap_2. by apply Hsub1. }
  destruct (envs_ok d (target_envs d) _ Hf Hin1) as [He Hsub2].
  split; [done|]. split; [set_solver|].
  apply list_elem_of_fmap in Hin1 as (n & -> & Hn). apply list_elem_of_fmap_2. by apply Hsub2.
Qed.

(** The topology of the deployments is a graph: every edge joins two of its nodes, each
    package and each environment is one node, and every deployed class is a node. *)
Theorem topology_closed ds now :
  let t := Topo.of_deployments ds now in
  (∀ e, e ∈ topo_edges t → from_id e ∈ node_id_ <$> topo_nodes t ∧
                           to_id e ∈ node_id_ <$> topo_nodes t) ∧
  NoDup (ids_of "environment" (topo_nodes t)) ∧ NoDup (ids_of "package" (topo_nodes t)) ∧
  ∀ d, d ∈ ds → Topo.class_id d ∈ node_id_ <$> topo_nodes t.
Proof.
  assert (Hfold : ∀ g, graph_ok g →
    let g' := foldl Topo.add_deployment g ds in
    graph_ok g' ∧ Topo.nodes g ⊆ Topo.nodes g' ∧
    ∀ d, d ∈ ds → Topo.class_id d ∈ node_id_ <$> Topo.nodes g').
  { induction ds as [|d ds IH]; intros g Hg; simpl; [set_solver|].
    destruct (add_deployment_ok g d Hg) as (Hg1 & Hsub & Hin).
    destruct (IH _ Hg1) as (Hok & Hsub' & Hall). split; [done|].
    split; [by etransitivity|]. intros d' [->|Hd']%elem_of_cons; [|by apply Hall].
    apply list_elem_of_fmap in Hin as (n & -> & Hn). apply list_elem_of_fmap_2. by apply Hsub'. }
  destruct (Hfold Topo.empty) as ((He & _ & _ & H1 & H2) & _ & Hall); [|done].
  split_and!; simpl; try constructor; set_solver.
Qed.
End topology.

(** ** Class runtimes *)

Section runtimes.
Context {P D : Type} `{!PackageStorage P} `{!DeploymentStorage D}.
Context (w : CrmWorld) (m : CrmManager).

(** Searching a class runtime in all environments asks all of them but looks at the first record
    only: a runtime that any other record describes is not found. *)
Theorem class_runtime_search id (s : AppState P D) : ∃ all s',
  Api.list_class_runtimes w m None None s = (Ok all, s') ∧
  Api.get_class_runtime w m None id s
  = (match all with
     | r :: _ => if decide (rs_id r = id) then Ok r else Err (NotFound (lit "Class runtime not found"))
     | [] => Err (NotFound (lit "Class runtime not found"))
     end, s').
Proof.
  unfold Api.get_class_runtime, Api.list_class_runtimes, bind at 1.
  unfold Api.on_crm, map_err, zoom, Crm_.get_all_class_runtimes, bind.
  assert (Hfirm : ∀ names, firm (Crm_.collect_runtimes w m names)).
  { induction names as [|c names IH]; [done|]. apply firm_bind; [by destruct (Crm_.find_client m c)|].
    intros rs. apply firm_bind; [exact IH|done]. }
  pose proof (calm_runtimes w m None None (crm (app_pm s))) as Hcalm.
  specialize (Hfirm (Crm_.list_clusters m) (crm (app_pm s))).
  unfold Crm_.get_all_class_runtimes, bind in Hcalm.
  destruct (Crm_.collect_runtimes w m (Crm_.list_clusters m) (crm (app_pm s))) as [[all|e|p] x];
    [|done..]. simpl. do 2 eexists. split; [done|].
  destruct all as [|r all]; [done|]. simpl. by case_decide.
Qed.
End runtimes.

(** ** Every state the API can reach *)

Inductive ApiCall : Type :=
| CallCreatePackage (p : OPackage)
| CallUpdatePackage (name : str) (p : OPackage)
| CallDeletePackage (name : str)
| CallCreateDeployment (d : OClassDeployment)
| CallDeleteDeployment (key : str)
(** A spawned rollback runs. *)
| RunRollback (successes : list (str * str)) (key : str).

Lemma enrich_complete p bs :
  (∀ b, b ∈ bs → ∃ f, f ∈ pkg_functions p ∧ fn_key f = fb_function_key b) →
  ∃ fs, Api.enrich_functions p bs = Ok fs ∧ fd_function_key <$> fs = fb_function_key <$> bs.
Proof.
  induction bs as [|b bs IH]; intros Hb; [by exists []|]. simpl.
  destruct (list_find _ (pkg_functions p)) as [[i f]|] eqn:E.
  - destruct IH as (fs & -> & Hfs); [set_solver|]. apply list_find_Some in E as (_ & Hf & _).
    eexists. split; [done|]. rewrite !fmap_cons, Hfs. by rewrite Hf.
  - exfalso. destruct (Hb b ltac:(left)) as (f & Hf & Hk). apply list_find_None in E.
    rewrite Forall_forall in E. by apply (E f).
Qed.

Section reachable.
Context {P D : Type} `{!PackageStorage P} `{!PackageStorageLaws P}.
Context `{!DeploymentStorage D} `{!DeploymentStorageLaws D}.
Context (w : CrmWorld) (m : CrmManager) (policy : DeploymentPolicyConfig).
Hypothesis ids_suffice : ∀ name h, is_Some (Units.gen_safe_deployment_id name (w_nanoid w h)).

Definition api_call (c : ApiCall) (s : AppState P D) : AppState P D :=
  match c with
  | CallCreatePackage p => (Api.create_package p s).2
  | CallUpdatePackage n p => (Api.update_package n p s).2
  | CallDeletePackage n => (Api.delete_package w m policy n s).2
  | CallCreateDeployment d => (Api.create_deployment w m policy d s).2
  | CallDeleteDeployment k => (Api.delete_deployment w m k s).2
  | RunRollback l k => (Packages.on_deployments (Deploy.rollback_task w m l k) s).2
  end.

Definition stored_ok (n : str) (p : OPackage) : Prop :=
  pkg_name p = n ∧ valid_package p ∧ pkg_deployments p = [].

Definition registry_ok (s : AppState P D) : Prop :=
  map_Forall stored_ok (known s) ∧ keyed s.

Lemma map_err_snd {S E F A} (f : E → F) (c : M S E A) s : (map_err f c s).2 = (c s).2.
Proof. unfold map_err. by destruct (c s). Qed.

(** A call that only builds an answer from the result of another leaves its state. *)
Lemma bind_pure_snd {S E A B} (c : M S E A) (f : A → M S E B) s :
  (∀ a s', (f a s').2 = s') → (bind c f s).2 = (c s).2.
Proof. intros Hf. unfold bind. by destruct (c s) as [[] ?]; simpl; rewrite ?Hf. Qed.

Lemma store_ok p (s s' : AppState P D) :
  registry_ok s → app_pm s' = app_pm s → Validator.validate p = Ok tt →
  known s' = <[pkg_name p := Packages.without_deployments p]> (known s) → registry_ok s'.
Proof.
  intros [Hk Hd] Hpm Hv Hs'. split.
  - rewrite Hs'. apply map_Forall_insert_2; [|done]. split; [done|]. split; [|done].
    by apply validate_ok in Hv.
  - unfold keyed, records in *. by rewrite Hpm.
Qed.

Lemma create_package_ok p (s : AppState P D) : registry_ok s → registry_ok (Packages.create_package p s).2.
Proof.
  intros Hs. destruct (create_package_spec p s) as (r & s' & -> & Hpm & H). simpl.
  destruct (validate_err p) as [E|[msg E]]; rewrite E in H; [|by destruct H as [_ ->]].
  case_decide; [by destruct H as [_ ->]|].
  destruct (list_find _ _) as [[i d]|]; [by destruct H as [_ ->]|].
  destruct H as (_ & _ & H). by eapply store_ok.
Qed.

Lemma update_ok p (s : AppState P D) : registry_ok s → registry_ok (Packages.update_package p s).2.
Proof.
  intros Hs. unfold Packages.update_package, bind at 1, lift_res.
  destruct (validate_err p) as [E|[msg E]]; rewrite E; [|done].
  unfold bind at 1. rewrite exists_spec. case_bool_decide; [|done]. simpl.
  destruct (check_and_store p s) as (r & s' & Er & Hpm & Hr).
  rewrite Er. simpl. destruct (list_find _ _) as [[i d]|]; [by destruct Hr as [_ ->]|].
  destruct Hr as [_ Hr]. by eapply store_ok.
Qed.

Lemma delete_ok n (s : AppState P D) :
  registry_ok s → registry_ok (Packages.delete_package w m policy n s).2.
Proof.
  intros [Hk Hd]. destruct (delete_package_spec w m policy n s Hd) as (r & s' & -> & H). simpl.
  case_decide; [|by destruct H as [_ ->]]. destruct H as (_ & Hk' & Hr'). split.
  - rewrite Hk'. by apply map_Forall_delete.
  - unfold keyed. rewrite Hr'. destruct (package_delete_cascade policy); [|done].
    intros k d [Hkd _]%map_lookup_filter_Some. by apply Hd.
Qed.

(** Calls that touch the deployments only. *)
Lemma deployments_ok (s s' : AppState P D) :
  registry_ok s → known s' = known s →
  (records s' ⊆ records s ∨ ∃ d, records s' = <[dep_key d := d]> (records s)) → registry_ok s'.
Proof.
  intros [Hk Hd] Hk' Hr. split; [by rewrite Hk'|]. unfold keyed in *.
  destruct Hr as [Hr|[d ->]]; [|by apply map_Forall_insert_2].
  intros k d Hkd. apply Hd. by eapply lookup_weaken.
Qed.

Lemma deploy_ok cls d (s : AppState P D) :
  registry_ok s → registry_ok (Packages.on_deployments (Deploy.deploy_class w m policy cls d) s).2.
Proof using Type*.
  intros Hs. destruct (deploy_class_spec w m policy cls d (app_pm s)) as (r & x & E & H).
  { apply ids_suffice. }
  unfold Packages.on_deployments. rewrite (zoom_eq _ _ _ _ _ _ E). simpl.
  eapply deployments_ok; [exact Hs|done|]. unfold records. simpl.
  destruct H as [(e & _ & -> & _)|(eff & l & Hk & _ & _ & _ & _ & _ & -> & _)]; [by left|].
  right. exists eff. by rewrite Hk.
Qed.

Lemma get_package_spec n (s : AppState P D) :
  Packages.get_package n s = (Ok (known s !! n), s).
Proof.
  unfold Packages.get_package, Packages.on_packages, map_err.
  rewrite (zoom_eq _ _ _ _ _ _ (law_get_package n (app_packages s))). simpl.
  by rewrite set_packages_same.
Qed.

Lemma on_crm_ok {A} f (c : M CrmState CrmError A) (s : AppState P D) :
  registry_ok s → registry_ok (Api.on_crm f c s).2.
Proof.
  intros Hs. unfold Api.on_crm, map_err, zoom. destruct (c _) as [r x]. simpl.
  eapply deployments_ok; [exact Hs|done|by left].
Qed.

Lemma create_deployment_ok d (s : AppState P D) :
  registry_ok s → registry_ok (Api.create_deployment w m policy d s).2.
Proof using Type*.
  intros Hs. unfold Api.create_deployment, bind at 1, map_err at 1. rewrite get_package_spec.
  simpl. destruct (known s !! dep_package_name d) as [p|]; [|done].
  destruct (list_find _ (pkg_classes p)) as [[i cls]|]; [|done].
  match goal with |- context [bind (Api.on_crm ?f ?c) _ _] =>
    pose proof (on_crm_ok f c s Hs) as H1; unfold bind at 1;
    destruct (Api.on_crm f c s) as [[?|?|?] s1]; simpl in H1; [|done..] end.
  match goal with |- context [bind ?c _ s1] => assert (Hfs : (c s1).2 = s1)
    by (by destruct (dep_functions d)); unfold bind at 1;
    destruct (c s1) as [[fs|?|?] s2]; simpl in Hfs; subst s2; [|done..] end.
  rewrite bind_pure_snd by done. rewrite map_err_snd. by apply deploy_ok.
Qed.

Lemma delete_deployment_ok k (s : AppState P D) :
  registry_ok s → registry_ok (Api.delete_deployment w m k s).2.
Proof.
  intros Hs. unfold Api.delete_deployment, bind at 1, map_err.
  unfold Packages.on_deployments, Deploy.get_deployment, Deploy.on_store, map_err.
  unfold zoom at 1. rewrite (zoom_eq _ _ _ _ _ _ (law_get_deployment k (store (app_pm s)))). simpl.
  set (s1 := Packages.set_pm _ s).
  assert (Hs1 : s1 = s) by (unfold s1; by destruct s as [? []]). rewrite Hs1.
  destruct (deployments (store (app_pm s)) !! k) as [d|] eqn:E; [|done].
  rewrite bind_pure_snd by done. unfold zoom.
  pose proof (delete_deployment_spec w m k (app_pm s)) as Hdel.
  destruct (Deploy.delete_deployment w m k (app_pm s)) as [r x]. destruct Hdel as [_ Hdel].
  rewrite E in Hdel. destruct Hdel as (_ & Hd & _). simpl.
  eapply deployments_ok; [exact Hs|done|]. left. unfold records. simpl. rewrite Hd.
  apply delete_subseteq.
Qed.

Lemma rollback_ok l k (s : AppState P D) :
  registry_ok s → registry_ok (Packages.on_deployments (Deploy.rollback_task w m l k) s).2.
Proof.
  intros Hs. destruct (rollback_task_spec w m l k (app_pm s)) as (x & E & Hd & _).
  unfold Packages.on_deployments. rewrite (zoom_eq _ _ _ _ _ _ E). simpl.
  eapply deployments_ok; [exact Hs|done|]. left. unfold records. simpl. by rewrite Hd.
Qed.

Lemma api_call_ok c (s : AppState P D) : registry_ok s → registry_ok (api_call c s).
Proof using Type*.
  intros Hs. destruct c as [p|n p|n|d|k|l k]; simpl.
  - unfold Api.create_package. rewrite bind_pure_snd, map_err_snd by done. by apply create_package_ok.
  - unfold Api.update_package. case_decide; [|done].
    rewrite bind_pure_snd, map_err_snd by done. by apply update_ok.
  - unfold Api.delete_package. rewrite bind_pure_snd, map_err_snd by done. by apply delete_ok.
  - by apply create_deployment_ok.
  - by apply delete_deployment_ok.
  - by apply rollback_ok.
Qed.

Lemma reachable_ok calls (s0 : AppState P D) :
  known s0 = ∅ → records s0 = ∅ → registry_ok (foldl (λ s c, api_call c s) s0 calls).
Proof using Type*.
  intros Hk Hr. assert (H0 : registry_ok s0).
  { split; unfold keyed; rewrite ?Hk, ?Hr; apply map_Forall_empty. }
  clear Hk Hr. revert s0 H0. induction calls as [|c calls IH]; intros s0 H0; [done|].
  apply IH. by apply api_call_ok.
Qed.

(** C21. Whatever calls are made, from an empty registry on: every stored package is stored under its
    name, is valid and has no embedded deployments, and every deployment is stored under
    its key. So the functions of every class of a stored package are found when the class
    is deployed: [create_deployment] never refuses a binding of a stored package. *)
Theorem registry_valid calls (s0 : AppState P D) :
  known s0 = ∅ → records s0 = ∅ →
  let s := foldl (λ s c, api_call c s) s0 calls in
  registry_ok s ∧
  ∀ n p cls, known s !! n = Some p → cls ∈ pkg_classes p → ∃ fs,
    Api.enrich_functions p (function_bindings cls) = Ok fs ∧
    fd_function_key <$> fs = fb_function_key <$> function_bindings cls.
Proof using Type*.
  intros Hk Hr s. pose proof (reachable_ok calls s0 Hk Hr) as Hok. fold s in Hok.
  split; [done|]. intros n p cls Hp Hcls. apply Hok in Hp as (_ & (_ & _ & Hb) & _).
  apply enrich_complete. intros b Hin. apply (Hb cls b Hcls Hin).
Qed.

(** In every reachable state, deleting a package with the cascade leaves no deployment of it and
    all the deployments of the other packages. *)
Theorem package_delete_cascades calls (s0 : AppState P D) name :
  known s0 = ∅ → records s0 = ∅ → package_delete_cascade policy = true →
  let s := foldl (λ s c, api_call c s) s0 calls in
  let s' := api_call (CallDeletePackage name) s in
  is_Some (known s !! name) →
  known s' = delete name (known s) ∧
  ∀ k d, records s' !! k = Some d ↔ records s !! k = Some d ∧ dep_package_name d ≠ name.
Proof using Type*.
  intros Hk Hr Hc s s' Hn. pose proof (reachable_ok calls s0 Hk Hr) as Hok. fold s in Hok.
  unfold s'. simpl. unfold Api.delete_package. rewrite bind_pure_snd, map_err_snd by done.
  destruct (delete_package_spec w m policy name s (proj2 Hok)) as (r & s1 & -> & H).
  rewrite decide_True in H by done. rewrite Hc in H. destruct H as (_ & Hk' & Hr').
  simpl. split; [done|]. intros k d. rewrite Hr', map_lookup_filter_Some. done.
Qed.
End reachable.

(** ** A package is created, a class of it deployed *)

Module DemoApi.
Definition package : OPackage :=
  {| pkg_name := lit "shop"; pkg_version := None;
     pkg_metadata := {| pm_author := None; pm_description := None; pm_tags := [];
                        pm_created_at := None; pm_updated_at := None |};
     pkg_classes := [DemoDeploy.cls]; pkg_functions := []; pkg_dependencies := [];
     pkg_deployments := [DemoDeploy.dep] |}.

Definition start : AppState MemoryPackageStorage MemoryDeploymentStorage :=
  {| app_packages := ∅; app_pm := DemoDeploy.start |}.

Definition calls : list ApiCall :=
  [CallCreatePackage package; CallCreateDeployment DemoDeploy.dep].

Definition reached_ : AppState MemoryPackageStorage MemoryDeploymentStorage :=
  foldl (λ s c, api_call DemoDeploy.world DemoCrm.manager DemoDeploy.policy c s) start calls.

Lemma gather_ids name h : is_Some (Units.gen_safe_deployment_id name (w_nanoid DemoDeploy.world h)).
Proof. unfold Units.gen_safe_deployment_id. simpl. by eexists. Qed.

Lemma registry_valid_witness :
  is_Some (known reached_ !! lit "shop") ∧ is_Some (records reached_ !! lit "d1") ∧
  registry_ok reached_.
Proof.
  split; [exists (Packages.without_deployments package); vm_compute; reflexivity|].
  split; [apply (bool_decide_unpack _); vm_compute; exact I|].
  exact (proj1 (registry_valid DemoDeploy.world DemoCrm.manager DemoDeploy.policy gather_ids calls
    start eq_refl eq_refl)).
Defined.

Definition deleted_ : AppState MemoryPackageStorage MemoryDeploymentStorage :=
  api_call DemoDeploy.world DemoCrm.manager DemoDeploy.policy (CallDeletePackage (lit "shop")) reached_.

Lemma package_delete_cascades_witness :
  known deleted_ = delete (lit "shop") (known reached_) ∧
  ∀ k d, records deleted_ !! k = Some d ↔
         records reached_ !! k = Some d ∧ dep_package_name d ≠ lit "shop".
Proof.
  refine (package_delete_cascades DemoDeploy.world DemoCrm.manager DemoDeploy.policy gather_ids
    calls start (lit "shop") eq_refl eq_refl eq_refl _).
  exists (Packages.without_deployments package). vm_compute. reflexivity.
Defined.
End DemoApi.
