(* ===== verification/NetSim.v ===== *)
(** * Network simulation

    [commons/oprc-netsim/src/state.rs], [types.rs], [zrpc_types.rs] and [proxy.rs]: the matrix of
    links of the development server and the byte pump of the proxies;
    [data-plane/oprc-router/src/netsim.rs]: the links a router keeps;
    [control-plane/oprc-crm/src/grpc/netsim.rs] and [oprc-pm/src/services/netsim.rs]: the package
    manager sends each command through the class runtime managers to the routers of both ends.
    The routers together are shown to refine the matrix. *)

From stdpp Require Import base tactics list numbers option gmap strings.
From Stdlib Require Import ZArith Lia.
From S2P Require Import Prelude BTree Float64 Routing Json Controller PmModel PmUnits PmCrm.

Set Default Proof Using "Type".

(** ** The matrix *)

Record LinkState := {
  env_a : str;
  env_b : str;
  connected : bool;
  latency_ms : Z;
}.

Record NetworkSimState := {
  env_names : list str;
  links : gmap (str * str) LinkState;
}.

Module Matrix.
Local Open Scope prog_scope.

Definition link_key (a b : str) : str * str := if leb a b then (a, b) else (b, a).

(** The links of the first environment with those after it. *)
Fixpoint all_links (envs : list str) (m : gmap (str * str) LinkState) :
    gmap (str * str) LinkState :=
  match envs with
  | [] => m
  | a :: envs =>
      all_links envs (foldl (λ m b, <[link_key a b :=
        {| env_a := a; env_b := b; connected := true; latency_ms := 0 |}]> m) m envs)
  end.

Definition new (envs : list str) : NetworkSimState :=
  {| env_names := envs; links := all_links envs ∅ |}.

Definition is_active (a b : str) (s : NetworkSimState) : bool :=
  if decide (a = b) then true
  else match links s !! link_key a b with Some l => connected l | None => false end.

Definition latency (a b : str) (s : NetworkSimState) : Z :=
  if decide (a = b) then 0
  else match links s !! link_key a b with
       | Some l => if connected l then latency_ms l else 0
       | None => 0
       end.

(** The error is the status [NOT_FOUND]. *)
Definition op (A : Type) : Type := M NetworkSimState unit A.

Definition set_links (m : gmap (str * str) LinkState) : op unit :=
  modify (λ s, {| env_names := env_names s; links := m |}).

Definition partitioned (l : LinkState) : LinkState :=
  {| env_a := env_a l; env_b := env_b l; connected := false; latency_ms := latency_ms l |}.
Definition healed (l : LinkState) : LinkState :=
  {| env_a := env_a l; env_b := env_b l; connected := true; latency_ms := 0 |}.
Definition with_latency (ms : Z) (l : LinkState) : LinkState :=
  {| env_a := env_a l; env_b := env_b l; connected := connected l; latency_ms := ms |}.

(** [get_mut] on a link, or [NOT_FOUND]. *)
Definition on_link (a b : str) (f : LinkState → LinkState) : op (bool * Z) :=
  let! m := gets links in
  match m !! link_key a b with
  | None => throw tt
  | Some l =>
      set_links (<[link_key a b := f l]> m) ;;;
      ret (connected (f l), latency_ms (f l))
  end.

(** [body] is the latency of a request that has a body. *)
Definition partition_link (a b : str) (body : option (option Z)) : op (bool * Z) :=
  on_link a b (λ l, match body with
                    | Some ms => with_latency (default 0%Z ms) (partitioned l)
                    | None => partitioned l
                    end).
Definition heal_link (a b : str) : op (bool * Z) := on_link a b healed.
Definition set_link_latency (a b : str) (ms : Z) : op (bool * Z) := on_link a b (with_latency ms).

Definition touches (env : str) (l : LinkState) : bool :=
  bool_decide (env_a l = env) || bool_decide (env_b l = env).
Definition other (env : str) (l : LinkState) : str :=
  if decide (env_a l = env) then env_b l else env_a l.

(** The environments affected are a set, listed in their order. *)
Definition on_env (env : str) (f : LinkState → LinkState) : op (gset str) :=
  let! envs := gets env_names in
  if decide (env ∈ envs) then
    let! m := gets links in
    set_links ((λ l, if touches env l then f l else l) <$> m) ;;;
    ret (list_to_set (other env <$> filter (λ l, touches env l = true) (map_to_list m).*2))
  else throw tt.

Definition partition_env (env : str) : op (gset str) := on_env env partitioned.
Definition heal_env (env : str) : op (gset str) := on_env env healed.

Definition on_all (f : LinkState → LinkState) : op (list str) :=
  let! m := gets links in set_links (f <$> m) ;;; gets env_names.
Definition partition_all : op (list str) := on_all partitioned.
Definition heal_all : op (list str) := on_all healed.
End Matrix.

(** ** The routers *)

Record PeerLink := {
  peer_connected : bool;
  peer_latency : Z;
}.

Record RouterNetsimState := {
  router_env : str;
  peer_links : gmap str PeerLink;
}.

Inductive NetsimCommand : Type :=
| Partition (peer : str)
| Heal (peer : str)
| SetLatency (peer : str) (ms : Z)
| GetNetStatus.

Module RouterSim.
(** The peers named by the configuration. *)
Definition new (env : str) (peers : list str) : RouterNetsimState :=
  {| router_env := env;
     peer_links := foldl (λ m p, <[p := {| peer_connected := true; peer_latency := 0 |}]> m)
                     ∅ peers |}.

Definition is_active (b : str) (r : RouterNetsimState) : bool :=
  match peer_links r !! b with Some l => peer_connected l | None => false end.

Definition latency (b : str) (r : RouterNetsimState) : Z :=
  match peer_links r !! b with
  | Some l => if peer_connected l then peer_latency l else 0
  | None => 0
  end.

(** The change of one link. *)
Definition apply (c : NetsimCommand) (l : PeerLink) : PeerLink :=
  match c with
  | Partition _ => {| peer_connected := false; peer_latency := peer_latency l |}
  | Heal _ => {| peer_connected := true; peer_latency := 0 |}
  | SetLatency _ ms => {| peer_connected := peer_connected l; peer_latency := ms |}
  | GetNetStatus => l
  end.

Definition peer_of (c : NetsimCommand) : option str :=
  match c with
  | Partition p | Heal p | SetLatency p _ => Some p
  | GetNetStatus => None
  end.

(** The new state and the answer: the name of the environment and its links. *)
Definition handle (c : NetsimCommand) (r : RouterNetsimState) :
    RouterNetsimState * (str * gmap str PeerLink) :=
  let ls := match peer_of c with
            | Some p => alter (apply c) p (peer_links r)
            | None => peer_links r
            end in
  ({| router_env := router_env r; peer_links := ls |}, (router_env r, ls)).

(** [parse_peers]: entries [env=host:port] separated by commas. *)
Fixpoint split_on (sep : Z) (s : str) : list str :=
  match s with
  | [] => [[]]
  | c :: s =>
      if (c =? sep)%Z then [] :: split_on sep s
      else match split_on sep s with
           | [] => [[c]]
           | w :: ws => (c :: w) :: ws
           end
  end.

Fixpoint split_once (sep : Z) (s : str) : option (str * str) :=
  match s with
  | [] => None
  | c :: s =>
      if (c =? sep)%Z then Some ([], s)
      else match split_once sep s with Some (a, b) => Some (c :: a, b) | None => None end
  end.

(** The name and the address of an entry; an entry without [=] is skipped. *)
Definition parse_peers (raw : str) : list (str * str) :=
  omap (λ entry, match split_once 61 (Fsm.trim entry) with
                 | Some (name, addr) => Some (Fsm.trim name, Fsm.trim addr)
                 | None => None
                 end) (split_on 44 raw).
End RouterSim.

(** ** The class runtime managers and the package manager *)

Inductive NetsimAction : Type := AGetStatus | APartition | AHeal | ASetLatency.

Record NetsimControlRequest := {
  action : NetsimAction;
  req_peer : str;
  req_latency_ms : Z;
}.

(** What becomes of a request on its way from the package manager to a router and back: it is
    answered, lost before the router acts, or its answer is lost. *)
Inductive Fate : Type := Answered | LostRequest | LostAnswer.

(** The routers by environment, and the requests sent so far. *)
Record NetsimWorld := {
  routers : gmap str RouterNetsimState;
  sent_requests : list (str * NetsimControlRequest);
}.

Module Netsim.
Section netsim.
Context (m : CrmManager) (fate : list (str * NetsimControlRequest) → Fate).
Local Open Scope prog_scope.

Definition op (A : Type) : Type := M NetsimWorld unit A.

(** [NetsimSvc::control]: the command of a request. *)
Definition command (r : NetsimControlRequest) : NetsimCommand :=
  match action r with
  | AGetStatus => GetNetStatus
  | APartition => Partition (req_peer r)
  | AHeal => Heal (req_peer r)
  | ASetLatency => SetLatency (req_peer r) (req_latency_ms r)
  end.

(** The class runtime manager of [cluster] passes the command to the router of its
    environment. *)
Definition control (cluster : str) (r : NetsimControlRequest) : op (str * gmap str PeerLink) := λ s,
  let h := sent_requests s ++ [(cluster, r)] in
  match fate h, routers s !! cluster with
  | LostRequest, _ | _, None => (Err tt, {| routers := routers s; sent_requests := h |})
  | f, Some rt =>
      let '(rt', ans) := RouterSim.handle (command r) rt in
      (match f with Answered => Ok ans | _ => Err tt end,
       {| routers := <[cluster := rt']> (routers s); sent_requests := h |})
  end.

Definition send_cmd (cluster : str) (a : NetsimAction) (peer : str) (ms : Z) :
    op (str * gmap str PeerLink) :=
  match Crm_.find_client m cluster with
  | Some _ => control cluster {| action := a; req_peer := peer; req_latency_ms := ms |}
  | None => throw tt
  end.

(** A command that fails is only reported. *)
Definition try_cmd (cluster : str) (a : NetsimAction) (peer : str) (ms : Z) : op unit := λ s,
  match send_cmd cluster a peer ms s with
  | (Panic p, s') => (Panic p, s')
  | (_, s') => (Ok tt, s')
  end.

Definition both (a : NetsimAction) (x y : str) (ms : Z) : op unit :=
  try_cmd x a y ms ;;; try_cmd y a x ms.

Definition partition_link (x y : str) : op unit := both APartition x y 0.
Definition heal_link (x y : str) : op unit := both AHeal x y 0.
Definition set_link_latency (x y : str) (ms : Z) : op unit := both ASetLatency x y ms.

Definition others (env : str) : list str := filter (λ k, k ≠ env) (Crm_.list_clusters m).

Definition partition_env (env : str) : op (list str) :=
  for_each (partition_link env) (others env) ;;; ret (others env).
Definition heal_env (env : str) : op (list str) :=
  for_each (heal_link env) (others env) ;;; ret (others env).

(** The pairs of the two nested loops. *)
Fixpoint pairs (envs : list str) : list (str * str) :=
  match envs with
  | [] => []
  | x :: envs => ((λ y, (x, y)) <$> envs) ++ pairs envs
  end.

Definition partition_all : op (list str) :=
  for_each (λ p, partition_link p.1 p.2) (pairs (Crm_.list_clusters m)) ;;;
  ret (Crm_.list_clusters m).
Definition heal_all : op (list str) :=
  for_each (λ p, heal_link p.1 p.2) (pairs (Crm_.list_clusters m)) ;;;
  ret (Crm_.list_clusters m).

(** The links all environments report. *)
Fixpoint collect_links (envs : list str) : op (list LinkState) :=
  match envs with
  | [] => ret []
  | env :: envs =>
      let! ls := (λ s, match send_cmd env AGetStatus [] 0 s with
                       | (Ok (name, ls), s') =>
                           (Ok ((λ pl, {| env_a := name; env_b := pl.1;
                                          connected := peer_connected pl.2;
                                          latency_ms := peer_latency pl.2 |}) <$> map_to_list ls), s')
                       | (Err _, s') => (Ok [], s')
                       | (Panic p, s') => (Panic p, s')
                       end) in
      let! rest := collect_links envs in
      ret (ls ++ rest)
  end.

(** One direction per pair is kept, the first. *)
Fixpoint first_of_pair (seen : list (str * str)) (ls : list LinkState) : list LinkState :=
  match ls with
  | [] => []
  | l :: ls =>
      let key := Matrix.link_key (env_a l) (env_b l) in
      if decide (key ∈ seen) then first_of_pair seen ls
      else l :: first_of_pair (key :: seen) ls
  end.

Definition link_order (x y : LinkState) : comparison :=
  match cmp (env_a x) (env_a y) with Eq => cmp (env_b x) (env_b y) | c => c end.

Definition get_network_state : op (list str * list LinkState) :=
  let! ls := collect_links (Crm_.list_clusters m) in
  ret (Crm_.list_clusters m, sort_by link_order (first_of_pair [] ls)).
End netsim.
End Netsim.

(** ** The pump of a proxy *)

(** What one turn of the loop finds: what a read yields ([None] for an error), the state of the
    link and its latency then, and whether the write succeeds. *)
Record Turn := {
  bytes_read : option (list Z);
  link_active : bool;
  link_latency : Z;
  write_ok : bool;
}.

Module Proxy.
(** The delays and the bytes the pump writes until it stops: at a cancellation (the end of the
    list), at the end of the input, at an error, when the link is found partitioned, or when
    writing fails. *)
Fixpoint pump (turns : list Turn) : list (Z * list Z) :=
  match turns with
  | [] => []
  | t :: turns =>
      match bytes_read t with
      | None | Some [] => []
      | Some b =>
          if negb (link_active t) then []
          else if write_ok t then (link_latency t, b) :: pump turns
          else []
      end
  end.

(** Both directions of an accepted connection; a connection over a partitioned link is dropped at
    once. *)
Definition handle_connection (active : bool) (client target : list Turn) :
    list (Z * list Z) * list (Z * list Z) :=
  if active then (pump client, pump target) else ([], []).
End Proxy.

(** ** The routers refine the matrix *)

Lemma link_key_sym x y : Matrix.link_key x y = Matrix.link_key y x.
Proof.
  unfold Matrix.link_key, leb. rewrite (cmp_flip x y). destruct (cmp x y) eqn:E; try done.
  by apply cmp_eq in E as ->.
Qed.

Lemma link_key_eq x y a b :
  Matrix.link_key x y = Matrix.link_key a b ↔ (x = a ∧ y = b) ∨ (x = b ∧ y = a).
Proof.
  split; [|intros [[-> ->]|[-> ->]]; [done|apply link_key_sym]].
  unfold Matrix.link_key. destruct (leb x y), (leb a b); intros [= -> ->]; auto.
Qed.

(** What a side knows of a link. *)
Definition mview (s : NetworkSimState) (x y : str) : option (bool * Z) :=
  (λ l, (connected l, latency_ms l)) <$> links s !! Matrix.link_key x y.
Definition rview (w : NetsimWorld) (x y : str) : option (bool * Z) :=
  (λ l, (peer_connected l, peer_latency l)) <$> (routers w !! x ≫= λ r, peer_links r !! y).

Inductive NetOp : Type :=
| NPartition (a b : str) | NHeal (a b : str) | NLatency (a b : str) (ms : Z)
| NPartitionEnv (a : str) | NHealEnv (a : str) | NPartitionAll | NHealAll.

Definition run_matrix (o : NetOp) (s : NetworkSimState) : NetworkSimState :=
  match o with
  | NPartition a b => (Matrix.partition_link a b None s).2
  | NHeal a b => (Matrix.heal_link a b s).2
  | NLatency a b ms => (Matrix.set_link_latency a b ms s).2
  | NPartitionEnv a => (Matrix.partition_env a s).2
  | NHealEnv a => (Matrix.heal_env a s).2
  | NPartitionAll => (Matrix.partition_all s).2
  | NHealAll => (Matrix.heal_all s).2
  end.

Definition run_manager (m : CrmManager) fate (o : NetOp) (w : NetsimWorld) : NetsimWorld :=
  match o with
  | NPartition a b => (Netsim.partition_link m fate a b w).2
  | NHeal a b => (Netsim.heal_link m fate a b w).2
  | NLatency a b ms => (Netsim.set_link_latency m fate a b ms w).2
  | NPartitionEnv a => (Netsim.partition_env m fate a w).2
  | NHealEnv a => (Netsim.heal_env m fate a w).2
  | NPartitionAll => (Netsim.partition_all m fate w).2
  | NHealAll => (Netsim.heal_all m fate w).2
  end.

(** The links an operation is about, and what it does to them. *)
Definition hit (o : NetOp) (x y : str) : Prop :=
  match o with
  | NPartition a b | NHeal a b | NLatency a b _ => (x = a ∧ y = b) ∨ (x = b ∧ y = a)
  | NPartitionEnv a | NHealEnv a => x = a ∨ y = a
  | NPartitionAll | NHealAll => True
  end.

#[local] Instance hit_dec o x y : Decision (hit o x y).
Proof. destruct o; simpl; apply _. Defined.

Definition act (a : NetsimAction) (ms : Z) (v : bool * Z) : bool * Z :=
  match a with
  | APartition => (false, v.2)
  | AHeal => (true, 0%Z)
  | ASetLatency => (v.1, ms)
  | AGetStatus => v
  end.

Definition effect (o : NetOp) : bool * Z → bool * Z :=
  match o with
  | NPartition _ _ | NPartitionEnv _ | NPartitionAll => act APartition 0
  | NHeal _ _ | NHealEnv _ | NHealAll => act AHeal 0
  | NLatency _ _ ms => act ASetLatency ms
  end.

(** Links are stored under the names of their ends. *)
Definition links_ok (s : NetworkSimState) : Prop :=
  map_Forall (λ k l, Matrix.link_key (env_a l) (env_b l) = k) (links s).

Section matrix.
Implicit Types s : NetworkSimState.

Lemma on_link_view a b f s s' (u : bool * Z → bool * Z) x y :
  (∀ l, (connected (f l), latency_ms (f l)) = u (connected l, latency_ms l)) →
  s' = (Matrix.on_link a b f s).2 →
  mview s' x y = if decide ((x = a ∧ y = b) ∨ (x = b ∧ y = a)) then u <$> mview s x y else mview s x y.
Proof.
  intros Hf ->. unfold Matrix.on_link, bind, gets. unfold mview. simpl.
  destruct (links s !! Matrix.link_key a b) as [l|] eqn:E; simpl.
  - case_decide as Hd.
    + rewrite (proj2 (link_key_eq x y a b) Hd), lookup_insert_eq, E. simpl. by rewrite Hf.
    + rewrite lookup_insert_ne; [done|]. intros ?%eq_sym%link_key_eq. tauto.
  - case_decide as Hd; [|done]. by rewrite (proj2 (link_key_eq x y a b) Hd), E.
Qed.

Lemma on_link_ok a b f s :
  (∀ l, env_a (f l) = env_a l ∧ env_b (f l) = env_b l) → links_ok s →
  links_ok (Matrix.on_link a b f s).2 ∧ env_names (Matrix.on_link a b f s).2 = env_names s.
Proof.
  intros Hf Hs. unfold Matrix.on_link, bind, gets. simpl.
  destruct (links s !! Matrix.link_key a b) as [l|] eqn:E; simpl; [|done].
  split; [|done]. apply map_Forall_insert_2; [|done]. destruct (Hf l) as [-> ->].
  exact (Hs _ _ E).
Qed.

Lemma on_env_view e f s (u : bool * Z → bool * Z) x y :
  (∀ l, (connected (f l), latency_ms (f l)) = u (connected l, latency_ms l)) →
  links_ok s → e ∈ env_names s →
  mview (Matrix.on_env e f s).2 x y = if decide (x = e ∨ y = e) then u <$> mview s x y else mview s x y.
Proof.
  intros Hf Hs He. unfold Matrix.on_env, bind, gets. rewrite decide_True by done. unfold mview. simpl.
  rewrite lookup_fmap. destruct (links s !! Matrix.link_key x y) as [l|] eqn:E; simpl; [|by case_decide].
  pose proof (Hs _ _ E) as Hk. apply link_key_eq in Hk.
  assert (Ht : Matrix.touches e l = true ↔ x = e ∨ y = e).
  { unfold Matrix.touches. rewrite orb_true_iff, !bool_decide_eq_true. naive_solver. }
  case_decide as Hd.
  - rewrite (proj2 Ht Hd). by rewrite Hf.
  - destruct (Matrix.touches e l); [|done]. by destruct Hd; apply Ht.
Qed.

Lemma on_env_ok e f s :
  (∀ l, env_a (f l) = env_a l ∧ env_b (f l) = env_b l) → links_ok s →
  links_ok (Matrix.on_env e f s).2 ∧ env_names (Matrix.on_env e f s).2 = env_names s.
Proof.
  intros Hf Hs. unfold Matrix.on_env, bind, gets. case_decide; [|done]. simpl. split; [|done].
  intros k l' (l & <- & Hl)%lookup_fmap_Some. destruct (Matrix.touches e l); [|exact (Hs _ _ Hl)].
  destruct (Hf l) as [-> ->]. exact (Hs _ _ Hl).
Qed.

Lemma matrix_step o s x y :
  links_ok s → (∀ e, o = NPartitionEnv e ∨ o = NHealEnv e → e ∈ env_names s) →
  links_ok (run_matrix o s) ∧ env_names (run_matrix o s) = env_names s ∧
  mview (run_matrix o s) x y = if decide (hit o x y) then effect o <$> mview s x y else mview s x y.
Proof.
  intros Hs He. destruct o as [a b|a b|a b ms|a|a| |]; simpl.
  1,2,3: split_and!; [by apply on_link_ok; [|done].. |by erewrite on_link_view; [..|reflexivity]].
  1,2: split_and!; [by apply on_env_ok; [|done].. |apply on_env_view; [done|done|by apply He; auto]].
  all: split_and!; [intros k l' (l & <- & Hl)%lookup_fmap_Some; exact (Hs _ _ Hl)|done|];
    unfold mview; simpl; rewrite lookup_fmap;
    by destruct (links s !! _).
Qed.
End matrix.

Section manager.
Context (m : CrmManager) (fate : list (str * NetsimControlRequest) → Fate).
Hypothesis Hfate : ∀ h, fate h = Answered.
Notation envs := (Crm_.list_clusters m).
Implicit Types w : NetsimWorld.

Lemma find_client_listed e : e ∈ envs → is_Some (Crm_.find_client m e).
Proof using Type.
  unfold Crm_.list_clusters. intros ((k & c) & -> & Hin)%list_elem_of_fmap. unfold Crm_.find_client. simpl.
  destruct (list_find_elem_of (λ c : str * ClientConfig, c.1 = k) _ _ Hin eq_refl) as [? ->]. eauto.
Qed.

Lemma act_idemp a ms (v : option (bool * Z)) : act a ms <$> (act a ms <$> v) = act a ms <$> v.
Proof using Type. by destruct v as [[]|], a. Qed.

(** A run that changes what the routers of the pairs in [P] know, and nothing else. *)
Definition updates (a : NetsimAction) (ms : Z) (P : str → str → Prop)
    `{!∀ x y, Decision (P x y)} (act_run : M NetsimWorld unit unit) : Prop :=
  ∀ w, ∃ w', act_run w = (Ok tt, w') ∧
    ∀ x y, rview w' x y = if decide (P x y) then act a ms <$> rview w x y else rview w x y.

Lemma try_cmd_updates c a p ms :
  c ∈ envs → updates a ms (λ x y, x = c ∧ y = p) (Netsim.try_cmd m fate c a p ms).
Proof using Hfate.
  intros Hc w. unfold Netsim.try_cmd, Netsim.send_cmd, Netsim.control.
  destruct (find_client_listed c Hc) as [cl ->]. simpl. rewrite Hfate. unfold rview.
  destruct (routers w !! c) as [r|] eqn:Hr; eexists; (split; [done|]); intros x y; simpl.
  - destruct (decide (x = c)) as [->|Hx].
    + rewrite lookup_insert_eq, Hr. simpl. destruct a; simpl.
      1: by case_decide; destruct (peer_links r !! y).
      all: destruct (decide (y = p)) as [->|Hy];
        [rewrite lookup_alter_eq, decide_True by done
        |rewrite lookup_alter_ne, decide_False by naive_solver]; by destruct (peer_links r !! _).
    + by rewrite lookup_insert_ne, decide_False by naive_solver.
  - case_decide as Hd; [|done]. destruct Hd as [-> ->]. by rewrite Hr.
Qed.

Lemma updates_seq a ms P Q R `{!∀ x y, Decision (P x y), !∀ x y, Decision (Q x y),
    !∀ x y, Decision (R x y)} f g :
  updates a ms P f → updates a ms Q g → (∀ x y, R x y ↔ P x y ∨ Q x y) →
  updates a ms R (bind f (λ _, g)).
Proof using Type.
  intros Hf Hg HR w. destruct (Hf w) as (w1 & E1 & V1), (Hg w1) as (w2 & E2 & V2).
  exists w2. split; [by unfold bind; rewrite E1|]. intros x y. rewrite V2, V1.
  pose proof (HR x y). repeat case_decide; try rewrite act_idemp; tauto || done.
Qed.

Lemma both_updates a b c ms :
  b ∈ envs → c ∈ envs →
  updates a ms (λ x y, (x = b ∧ y = c) ∨ (x = c ∧ y = b)) (Netsim.both m fate a b c ms).
Proof using Hfate.
  intros Hb Hc. by eapply updates_seq; [apply try_cmd_updates..|]; done.
Qed.

Lemma loop_updates {A} a ms (f : A → str * str) (body : A → M NetsimWorld unit unit) l :
  (∀ z, z ∈ l → updates a ms (λ x y, (x = (f z).1 ∧ y = (f z).2) ∨ (x = (f z).2 ∧ y = (f z).1))
                  (body z)) →
  updates a ms (λ x y, (x, y) ∈ f <$> l ∨ (y, x) ∈ f <$> l) (for_each body l).
Proof using Type.
  clear Hfate. induction l as [|z l IH]; intros Hb.
  - intros w. exists w. split; [done|]. intros x y. rewrite decide_False; [done|set_solver].
  - simpl. eapply updates_seq; [apply Hb; by left|apply IH; intros; apply Hb; by right|].
    intros x y. simpl. rewrite !elem_of_cons. destruct (f z) as [u v]. simpl. naive_solver.
Qed.

Lemma elem_of_pairs x y l : (x, y) ∈ Netsim.pairs l → x ∈ l ∧ y ∈ l.
Proof using Type.
  clear Hfate. induction l as [|z l IH]; simpl; [set_solver|].
  rewrite elem_of_app, list_elem_of_fmap, !elem_of_cons. naive_solver.
Qed.

Lemma pairs_total x y l :
  x ∈ l → y ∈ l → x ≠ y → (x, y) ∈ Netsim.pairs l ∨ (y, x) ∈ Netsim.pairs l.
Proof using Type.
  clear Hfate. induction l as [|z l IH]; simpl; [set_solver|].
  rewrite !elem_of_app, !list_elem_of_fmap, !elem_of_cons. naive_solver.
Qed.

Definition valid_op (o : NetOp) : Prop :=
  match o with
  | NPartition a b | NHeal a b | NLatency a b _ => a ∈ envs ∧ b ∈ envs
  | NPartitionEnv a | NHealEnv a => a ∈ envs
  | NPartitionAll | NHealAll => True
  end.

Notation about l x y := ((x, y) ∈ l ∨ (y, x) ∈ l).

Lemma env_updates a e :
  e ∈ envs →
  updates a 0 (λ x y, about ((λ o, (e, o)) <$> Netsim.others m e) x y)
    (for_each (λ o, Netsim.both m fate a e o 0) (Netsim.others m e)).
Proof using Hfate.
  intros He. apply (loop_updates a 0 (λ o, (e, o))). intros o [_ Ho]%list_elem_of_filter.
  by apply both_updates.
Qed.

Lemma all_updates a :
  updates a 0 (λ x y, about (id <$> Netsim.pairs envs) x y)
    (for_each (λ p, Netsim.both m fate a p.1 p.2 0) (Netsim.pairs envs)).
Proof using Hfate.
  apply (loop_updates a 0 id). intros [x y] Hp. apply elem_of_pairs in Hp as [??].
  by apply both_updates.
Qed.

Lemma env_hits e x y :
  x ∈ envs → y ∈ envs → x ≠ y →
  about ((λ o, (e, o)) <$> Netsim.others m e) x y ↔ x = e ∨ y = e.
Proof using Type.
  clear Hfate. intros Hx Hy Hne. unfold Netsim.others. rewrite !list_elem_of_fmap.
  setoid_rewrite list_elem_of_filter. split; [naive_solver|]. intros [->| ->]; [left|right]; eauto.
Qed.

(** The outcome of an operation over proper links. *)
Lemma update_view a ms P `{!∀ x y, Decision (P x y)} f w o x y :
  updates a ms P f → effect o = act a ms → (P x y ↔ hit o x y) →
  rview (f w).2 x y = if decide (hit o x y) then effect o <$> rview w x y else rview w x y.
Proof using Type.
  intros Hf -> HP. destruct (Hf w) as (w' & -> & V). simpl. rewrite V.
  repeat case_decide; tauto || done.
Qed.

Lemma then_ret_state {A B} (f : M NetsimWorld unit A) (b : B) w :
  (bind f (λ _, ret b) w).2 = (f w).2.
Proof using Type. unfold bind. by destruct (f w) as [[] ?]. Qed.

Lemma manager_step o w x y :
  valid_op o → x ∈ envs → y ∈ envs → x ≠ y →
  rview (run_manager m fate o w) x y =
    if decide (hit o x y) then effect o <$> rview w x y else rview w x y.
Proof using Hfate.
  intros Ho Hx Hy Hne.
  destruct o as [a b|a b|a b ms|a|a| |]; simpl in Ho.
  1,2,3: by eapply update_view; [apply both_updates; apply Ho|done|].
  all: unfold run_manager, Netsim.partition_env, Netsim.heal_env, Netsim.partition_all, Netsim.heal_all;
    rewrite then_ret_state.
  1,2: by eapply update_view; [by apply env_updates|done|by apply env_hits].
  1,2: eapply update_view; [apply all_updates|done|]; rewrite list_fmap_id;
    split; [done|intros _; by apply pairs_total].
Qed.
End manager.

(** ** The start *)

Definition fresh_links (m : gmap (str * str) LinkState) : Prop :=
  map_Forall (λ k l, Matrix.link_key (env_a l) (env_b l) = k ∧
                     connected l = true ∧ latency_ms l = 0%Z) m.

Definition link_row (a : str) (bs : list str) (m : gmap (str * str) LinkState) :=
  foldl (λ m b, <[Matrix.link_key a b :=
    {| env_a := a; env_b := b; connected := true; latency_ms := 0 |}]> m) m bs.

Lemma link_row_spec a bs m :
  fresh_links m → fresh_links (link_row a bs m) ∧ dom m ⊆ dom (link_row a bs m) ∧
  ∀ b, b ∈ bs → Matrix.link_key a b ∈ dom (link_row a bs m).
Proof.
  revert m. induction bs as [|b bs IH]; intros m Hm; simpl; [set_solver|].
  destruct (IH (<[Matrix.link_key a b :=
    {| env_a := a; env_b := b; connected := true; latency_ms := 0 |}]> m)) as (F & S & D);
    [by apply map_Forall_insert_2|].
  fold (link_row a). split_and!; [done|set_solver|].
  intros b' [->|Hb]%elem_of_cons; [|by apply D]. apply S. set_solver.
Qed.

Lemma all_links_spec envs m :
  fresh_links m → fresh_links (Matrix.all_links envs m) ∧ dom m ⊆ dom (Matrix.all_links envs m) ∧
  ∀ x y, x ∈ envs → y ∈ envs → x ≠ y → Matrix.link_key x y ∈ dom (Matrix.all_links envs m).
Proof.
  revert m. induction envs as [|a envs IH]; intros m Hm; simpl; [set_solver|].
  fold (link_row a envs m). destruct (link_row_spec a envs m Hm) as (F & S & D).
  destruct (IH _ F) as (F' & S' & D'). split_and!; [done|set_solver|].
  intros x y [->|Hx]%elem_of_cons [->|Hy]%elem_of_cons Hne; [done|by apply S', D| |by apply D'].
  rewrite link_key_sym. by apply S', D.
Qed.

Lemma new_view envs x y :
  x ∈ envs → y ∈ envs → x ≠ y → mview (Matrix.new envs) x y = Some (true, 0%Z).
Proof.
  intros Hx Hy Hne. destruct (all_links_spec envs ∅ (map_Forall_empty _)) as (F & _ & D).
  destruct (proj1 (elem_of_dom _ _) (D x y Hx Hy Hne)) as [l Hl].
  destruct (F _ _ Hl) as (_ & C & L). unfold mview. simpl. rewrite Hl. simpl. by rewrite C, L.
Qed.

Lemma new_links_ok envs : links_ok (Matrix.new envs).
Proof.
  destruct (all_links_spec envs ∅ (map_Forall_empty _)) as (F & _ & _).
  intros k l Hl. by destruct (F k l Hl).
Qed.

Lemma router_new_lookup e peers p :
  p ∈ peers →
  peer_links (RouterSim.new e peers) !! p = Some {| peer_connected := true; peer_latency := 0 |}.
Proof.
  unfold RouterSim.new. simpl. revert p.
  induction peers as [|q peers IH] using rev_ind; [set_solver|]. intros p Hp.
  rewrite foldl_app. simpl. destruct (decide (q = p)) as [->|Hne]; [by rewrite lookup_insert_eq|].
  rewrite lookup_insert_ne by done. apply IH. set_solver.
Qed.

Section runs.
Context (m : CrmManager) (fate : list (str * NetsimControlRequest) → Fate).
Notation envs := (Crm_.list_clusters m).

(** The routers of all environments, each configured with the others as its peers. *)
Definition configured (w : NetsimWorld) : Prop :=
  ∀ e, e ∈ envs → routers w !! e = Some (RouterSim.new e (Netsim.others m e)).

Lemma configured_view w x y :
  configured w → x ∈ envs → y ∈ envs → x ≠ y → rview w x y = Some (true, 0%Z).
Proof.
  intros Hw Hx Hy Hne. unfold rview. rewrite (Hw x Hx).
  cbn [option_bind mbind]. rewrite router_new_lookup; [done|]. apply list_elem_of_filter. auto.
Qed.

Lemma runs_agree ops s w :
  (∀ h, fate h = Answered) → Forall (valid_op m) ops → links_ok s → env_names s = envs →
  (∀ x y, x ∈ envs → y ∈ envs → x ≠ y → is_Some (mview s x y) ∧ rview w x y = mview s x y) →
  ∀ x y, x ∈ envs → y ∈ envs → x ≠ y →
    is_Some (mview (foldl (flip run_matrix) s ops) x y) ∧
    rview (foldl (flip (run_manager m fate)) w ops) x y = mview (foldl (flip run_matrix) s ops) x y.
Proof.
  intros Hf Hops. revert s w. induction Hops as [|o ops Ho _ IH]; intros s w Hs He Hv; [done|].
  assert (Hm := matrix_step o s). rewrite He in Hm.
  assert (Hin : ∀ e, o = NPartitionEnv e ∨ o = NHealEnv e → e ∈ envs) by (by intros e [->| ->]).
  simpl. apply IH; [by apply (Hm [] [])|by apply (Hm [] [])|].
  intros x y Hx Hy Hne. destruct (Hv x y Hx Hy Hne) as [[v Hsome] Heq]. simpl.
  destruct (Hm x y Hs Hin) as (_ & _ & ->).
  rewrite manager_step by done. rewrite Heq, Hsome. case_decide; simpl; eauto.
Qed.


(** A partition whose command to the second environment is lost is reported as done all the same:
    the first router closes its end, the second keeps the link as it was. *)
Theorem partition_one_sided w x y :
  x ∈ envs → y ∈ envs → x ≠ y →
  (let r z p := (z, {| action := APartition; req_peer := p; req_latency_ms := 0 |}) in
   fate (sent_requests w ++ [r x y]) = Answered ∧
   fate ((sent_requests w ++ [r x y]) ++ [r y x]) = LostRequest) →
  (Netsim.partition_link m fate x y w).1 = Ok tt ∧
  rview (Netsim.partition_link m fate x y w).2 x y = act APartition 0 <$> rview w x y ∧
  rview (Netsim.partition_link m fate x y w).2 y x = rview w y x.
Proof.
  intros Hx Hy Hne [H1 H2].
  destruct (find_client_listed m x Hx) as [cx Ex], (find_client_listed m y Hy) as [cy Ey].
  unfold Netsim.partition_link, Netsim.both, bind, Netsim.try_cmd, Netsim.send_cmd, Netsim.control.
  rewrite Ex, Ey. simpl. rewrite H1. destruct (routers w !! x) as [r|] eqn:Hr; simpl; rewrite H2.
  - split; [done|]. unfold rview. simpl. rewrite lookup_insert_eq, lookup_insert_ne by done. simpl.
    rewrite lookup_alter_eq, Hr. simpl. by destruct (peer_links r !! y).
  - split; [done|]. unfold rview. simpl. by rewrite Hr.
Qed.
End runs.

Module DemoNetsim.
Definition config : ClientConfig := {| retry_attempts := 1; timeout_secs := None |}.
Definition manager : CrmManager :=
  Crm_.new [(lit "a", config); (lit "b", config); (lit "c", config)] None 10.
Definition names : list str := [lit "a"; lit "b"; lit "c"].
Definition world : NetsimWorld :=
  {| routers := list_to_map ((λ e, (e, RouterSim.new e (Netsim.others manager e))) <$> names);
     sent_requests := [] |}.

Lemma configured_world : configured manager world.
Proof.
  intros e He. repeat (apply elem_of_cons in He as [->|He]; [by vm_compute|]).
  by apply not_elem_of_nil in He.
Qed.

Lemma listed e : bool_decide (e ∈ Crm_.list_clusters manager) = true → e ∈ Crm_.list_clusters manager.
Proof. apply bool_decide_eq_true_1. Qed.

Definition ops : list NetOp :=
  [NLatency (lit "a") (lit "b") 20; NPartitionEnv (lit "c"); NHeal (lit "b") (lit "c")].

Definition final : NetworkSimState :=
  foldl (flip run_matrix) (Matrix.new (Crm_.list_clusters manager)) ops.


(** The second request is lost. *)
Definition second_lost (h : list (str * NetsimControlRequest)) : Fate :=
  match h with [_; _] => LostRequest | _ => Answered end.

Lemma partition_one_sided_witness :
  (Netsim.partition_link manager second_lost (lit "a") (lit "b") world).1 = Ok tt ∧
  rview (Netsim.partition_link manager second_lost (lit "a") (lit "b") world).2 (lit "a") (lit "b") =
    act APartition 0 <$> rview world (lit "a") (lit "b") ∧
  rview (Netsim.partition_link manager second_lost (lit "a") (lit "b") world).2 (lit "b") (lit "a") =
    rview world (lit "b") (lit "a").
Proof.
  apply partition_one_sided; [by apply listed..|done|done].
Defined.
End DemoNetsim.
