(* ===== verification/DataService.v ===== *)
(** * The gRPC data service

    [data-plane/oprc-odgm/src/grpc_service/data.rs]: the requests clients send for objects and
    their entries. A request is checked, its identifier and keys are normalised, the shard of
    its partition is looked up in the grid and the object API does the work there; errors
    become statuses. A stream of envelopes is the list of its items. *)

From stdpp Require Import base tactics list numbers option gmap sorting strings.
From Stdlib Require Import Lia.
From S2P Require Import Prelude BTree Backend Memory Replication StorageKey GranularKey Identity Events ObjectData Shard Metadata Cluster EntryStore ObjectView EntryOps EntryList ObjectShard ObjectOps ObjectApi.

Set Default Proof Using "Type".
Open Scope prog_scope.

(** ** Requests and answers *)

Inductive Code : Type :=
| CInvalidArgument | CNotFound | CUnimplemented | CAborted | CInternal | CUnavailable
| CFailedPrecondition.

(** The message of a status: a literal, or the error it is rendered from. *)
Inductive Reason : Type :=
| Text (msg : string)
| OfIdentity (e : NormalizationError)
| OfEntryKey (e : NormalizationError)
| OfObject (e : ObjectError)
| OfShard (e : ShardError)
| UpsertFailed (e : ShardError).

Record Status := { code : Code; reason : Reason }.

(** The fields all requests start with. The partition is an [i32] in requests that write a
    value or an object and a [u32] in the others. *)
Record ObjectRef := {
  cls_id : bytes;
  partition_id : Z;
  object_id : option bytes;
}.

Record SingleKeyRequest := { sk_ref : ObjectRef; sk_key : option bytes }.
Record SetKeyRequest := { kv_ref : ObjectRef; kv_key : option bytes; kv_value : option ValData }.
Record SetObjectRequest := { so_ref : ObjectRef; so_object : option ObjData }.
Record BatchSetValuesRequest := {
  bs_ref : ObjectRef;
  bs_values : list (bytes * ValData);
  bs_delete_keys : list bytes;
  bs_expected_version : option Z;
}.
Record ListValuesRequest := {
  lv_ref : ObjectRef;
  lv_key_prefix : option bytes;
  lv_limit : nat;
  lv_cursor : option bytes;
}.
Record ListObjectsRequest := {
  lo_cls_id : bytes;
  lo_partition_id : Z;
  lo_prefix : option bytes;
  lo_limit : nat;
  lo_cursor : option bytes;
}.

(** [ObjData] with its metadata. *)
Record ObjectResponse := { or_data : ObjData; or_cls_id : bytes; or_partition_id : Z; or_object_id : bytes }.
Record ValueResponse := { vr_value : option ValData; vr_version : option Z; vr_key : bytes }.
Record ValueEnvelope := {
  ve_key : bytes;
  ve_value : option ValData;
  ve_version : Z;
  ve_next_cursor : option bytes;
}.
Record ObjectMetaEnvelope := {
  oe_object_id : bytes;
  oe_version : Z;
  oe_entry_count : Z;
  oe_next_cursor : option bytes;
}.
Record ShardStats := { ss_shard_id : Z; ss_collection : bytes; ss_partition_id : Z; ss_count : nat }.
Record CapabilitiesResponse := {
  string_ids : bool;
  string_entry_keys : bool;
  granular_entry_storage : bool;
  event_pipeline_v2 : bool;
}.

Record OdgmDataService := {
  max_string_id_len : nat;
  enable_string_entry_keys : bool;
  enable_granular_entry_storage : bool;
  granular_prefetch_limit : nat;
}.

Module Svc.
Definition invalid (r : Reason) : Status := {| code := CInvalidArgument; reason := r |}.
Definition no_shard : Status := {| code := CNotFound; reason := Text "not found shard" |}.
Definition keys_disabled : Status :=
  {| code := CUnimplemented; reason := Text "string entry keys feature disabled" |}.

Definition from_object_error (e : ObjectError) : Status :=
  {| code := match e with
             | CrdtError _ => CInternal
             | ObjSerializationError _ | InvalidDataFormat _ => CInvalidArgument
             end;
     reason := OfObject e |}.

Definition from_shard_error (e : ShardError) : Status :=
  {| code := match e with
             | SStorageError _ | SReplicationError _ | SOdgmError _ | InvalidMetadata
             | DeserializationError => CInternal
             | SSerializationError _ | ConfigurationError _ | InvalidKey => CInvalidArgument
             | TransactionError _ | VersionMismatch _ _ => CAborted
             | NotReady => CUnavailable
             | SNotLeader => CFailedPrecondition
             | NoShardsFound _ => CNotFound
             end;
     reason := OfShard e |}.

Section service.
Context {R : Type} `{Storage R} `{!ReplicationLayer R} `{Codec}.
Context (fuel : nat) (am_merge : bytes → bytes → res ObjectError bytes).
(** The order in which a hash map is iterated. *)
Context (hash_order : gmap bytes ObjectVal → list (bytes * ObjectVal)).
Context (svc : OdgmDataService).

Notation Sh A := (M (Shard R) ShardError A).
Notation G A := (M (Grid (Shard R)) Status A).

Definition build_identity_from_string (id : bytes) : res Status ObjectIdentity :=
  if bool_decide (id = []) then Err (invalid (Text "object_id required"))
  else res_map_err (λ e, invalid (OfIdentity e))
         (build_identity None (Some id) (max_string_id_len svc)).

Definition ensure_string_entry_keys_enabled : res Status unit :=
  if enable_string_entry_keys svc then Ok tt else Err keys_disabled.

Definition normalize_entry_key_or_error (raw : bytes) : res Status bytes :=
  res_map_err (λ e, invalid (OfEntryKey e)) (normalize_entry_key raw (max_string_id_len svc)).

Definition resolve_entry_key (key : option bytes) : res Status bytes :=
  match key with
  | Some k => res_bind ensure_string_entry_keys_enabled (λ _, normalize_entry_key_or_error k)
  | None => Err (invalid (Text "key required"))
  end.

(** The first running shard of a group, with its identifier. *)
Fixpoint first_of (group : list Z) (m : ShardManager (Shard R)) : option (Z * Shard R) :=
  match group with
  | [] => None
  | id :: group =>
      match Manager.get_shard id m with Some s => Some (id, s) | None => first_of group m end
  end.

(** [get_local_shard]: the shard is shared, so what an operation does to it stays. *)
Definition local_shard (cls : bytes) (pid : Z) (g : Grid (Shard R)) : option (Z * Shard R) :=
  col ← bt_get cls (collections (metadata_manager g));
  group ← col_shards col !! Z.to_nat pid;
  first_of group (shard_manager g).

Definition put_shard (id : Z) (s : Shard R) (g : Grid (Shard R)) : Grid (Shard R) :=
  GridM.set_shards (Manager.set_running (<[id := s]> (running (shard_manager g))) (shard_manager g)) g.

(** The shard of a request's partition, or [NOT_FOUND]; the partition is cut to 16 bits. *)
Definition on_shard {A} (cls : bytes) (pid : Z) (op : M (Shard R) Status A) : G A := λ g,
  match local_shard cls (as_u16 pid) g with
  | None => (Err no_shard, g)
  | Some (id, s) => let '(r, s') := op s in (r, put_shard id s' g)
  end.

(** [?] on a shard operation. *)
Definition call {A} (op : Sh A) : M (Shard R) Status A := map_err from_shard_error op.

(** The identifier of a request, and then its shard. *)
Definition on_object {A} (r : ObjectRef) (body : ObjectIdentity → M (Shard R) Status A) : G A :=
  let! ident := lift_res (build_identity_from_string (default [] (object_id r))) in
  on_shard (cls_id r) (partition_id r) (body ident).

(** [ObjectIdentity::Numeric(_) => unreachable!()] *)
Definition str_of {S} (i : ObjectIdentity) : M S Status bytes :=
  match i with
  | Str sid => ret sid
  | Numeric _ => lift_res (Panic "internal error: entered unreachable code")
  end.

Definition response (r : ObjectRef) (sid : bytes) (o : ObjectData) : ObjectResponse :=
  {| or_data := Obj.to_data o; or_cls_id := cls_id r; or_partition_id := partition_id r;
     or_object_id := sid |}.

Definition get (r : ObjectRef) : G ObjectResponse :=
  on_object r (λ ident,
    let! sid := str_of ident in
    let! o := call (OS.reconstruct_object_from_entries fuel sid (granular_prefetch_limit svc)) in
    match o with
    | Some entry => ret (response r sid entry)
    | None => throw {| code := CNotFound; reason := Text "object not found" |}
    end).

Definition get_value (q : SingleKeyRequest) : G ValueResponse :=
  on_object (sk_ref q) (λ ident,
    let! sid := str_of ident in
    let! key := lift_res (resolve_entry_key (sk_key q)) in
    let! v := call (ES.get_entry sid key) in
    let! m := call (ES.get_metadata sid) in
    ret {| vr_value := into_val <$> v; vr_version := object_version <$> m; vr_key := key |}).

Definition delete (r : ObjectRef) : G unit :=
  on_object r (λ ident,
    match ident with
    | Str sid => call (OS.internal_delete_object fuel sid)
    | Numeric _ => ret tt
    end).

(** [object.unwrap()] panics; [now] is the clock in milliseconds. *)
Definition set (now : Z) (q : SetObjectRequest) : G unit :=
  on_object (so_ref q) (λ ident,
    match so_object q with
    | None => lift_res (Panic "called `Option::unwrap()` on a `None` value")
    | Some raw =>
        if negb (enable_string_entry_keys svc) && bool_decide (od_entries raw ≠ [])
        then throw keys_disabled
        else
          match ident with
          | Str sid =>
              map_err (λ e, {| code := CInternal; reason := UpsertFailed e |})
                (Api.upsert_object sid (Obj.from_data now raw))
          | Numeric _ => ret tt
          end
    end).

Definition set_value (q : SetKeyRequest) : G unit :=
  on_object (kv_ref q) (λ ident,
    match kv_value q with
    | None => throw (invalid (Text "object must not be none"))
    | Some value =>
        let! sid := str_of ident in
        let! key := lift_res (resolve_entry_key (kv_key q)) in
        call (ES.set_entry sid key (from_val_data value))
    end).

(** [existing.merge(new)?] on a local copy. *)
Definition merged (existing : option ObjectData) (new : ObjectData) : res Status ObjectData :=
  match existing with
  | Some o =>
      match Obj.merge am_merge new o with
      | (Ok _, o) => Ok o
      | (Err e, _) => Err (from_object_error e)
      | (Panic p, _) => Panic p
      end
  | None => Ok new
  end.

Definition merge (now : Z) (q : SetObjectRequest) : G ObjectResponse :=
  on_object (so_ref q) (λ ident,
    match so_object q with
    | None => throw (invalid (Text "object must not be none"))
    | Some raw =>
        if negb (enable_string_entry_keys svc) && bool_decide (od_entries raw ≠ [])
        then throw keys_disabled
        else
          let! sid := str_of ident in
          let! existing := call (OS.internal_get_object_by_str_id fuel sid) in
          let! o := lift_res (merged existing (Obj.from_data now raw)) in
          call (OS.internal_set_object sid o) ;;;
          ret (response (so_ref q) sid o)
    end).

(** A shard that cannot be counted is left out. *)
Fixpoint stats_of (shards : list (Z * Shard R)) : M (Grid (Shard R)) Status (list ShardStats) :=
  match shards with
  | [] => ret []
  | (id, s) :: shards => λ g,
      match OS.count_objects s with
      | (Panic p, s') => (Panic p, put_shard id s' g)
      | (Err _, s') => stats_of shards (put_shard id s' g)
      | (Ok n, s') =>
          (let! rest := stats_of shards in
           ret ({| ss_shard_id := id; ss_collection := sm_collection (sh_meta s);
                   ss_partition_id := sm_partition_id (sh_meta s); ss_count := n |} :: rest))
          (put_shard id s' g)
      end
  end.

Definition stats : G (list ShardStats) :=
  λ g, stats_of (map_to_list (running (shard_manager g))) g.

(** [pipeline] is the parsed environment variable. *)
Definition capabilities (pipeline : option bool) : G CapabilitiesResponse :=
  ret {| string_ids := true; string_entry_keys := enable_string_entry_keys svc;
         granular_entry_storage := enable_granular_entry_storage svc;
         event_pipeline_v2 := default false pipeline |}.

Definition delete_value (q : SingleKeyRequest) : G unit :=
  on_object (sk_ref q) (λ ident,
    let! sid := str_of ident in
    let! key := lift_res (resolve_entry_key (sk_key q)) in
    call (ES.delete_entry sid key)).

(** The two loops that normalise the keys of a batch; the first error ends the request. *)
Fixpoint set_map (values : list (bytes * ValData)) (acc : gmap bytes ObjectVal) :
    res Status (gmap bytes ObjectVal) :=
  match values with
  | [] => Ok acc
  | (key, value) :: values =>
      res_bind (normalize_entry_key_or_error key) (λ k,
        set_map values (<[k := from_val_data value]> acc))
  end.

Fixpoint normalize_keys (keys : list bytes) : res Status (list bytes) :=
  match keys with
  | [] => Ok []
  | key :: keys =>
      res_bind (normalize_entry_key_or_error key) (λ k,
        res_bind (normalize_keys keys) (λ ks, Ok (k :: ks)))
  end.

Definition batch_set_values (q : BatchSetValuesRequest) : G unit :=
  let! _ := lift_res ensure_string_entry_keys_enabled in
  on_object (bs_ref q) (λ ident,
    let! sid := str_of ident in
    let! values := lift_res (set_map (bs_values q) ∅) in
    let! keys := lift_res (normalize_keys (bs_delete_keys q)) in
    let! _ := call (Api.batch_mutate_entries sid (hash_order values) keys (bs_expected_version q)) in
    ret tt).

(** The envelopes of a page: the last one carries the cursor, and a page without entries is an
    envelope of its own when there is a cursor. *)
Definition value_envelopes (es : list (bytes * ObjectVal)) (next : option bytes) (version : Z) :
    list ValueEnvelope :=
  match es with
  | [] => match next with
          | Some c => [{| ve_key := []; ve_value := None; ve_version := version;
                          ve_next_cursor := Some c |}]
          | None => []
          end
  | _ => imap (λ idx kv, {| ve_key := kv.1; ve_value := Some (into_val kv.2);
                            ve_version := version;
                            ve_next_cursor := if (idx =? length es - 1)%nat then next else None |}) es
  end.

Definition page_limit (n : nat) : nat := if (n =? 0)%nat then 100 else n.

Definition prefix_of (p : option bytes) : res Status (option bytes) :=
  match p with
  | Some p => res_bind (normalize_entry_key_or_error p) (λ k, Ok (Some k))
  | None => Ok None
  end.

Definition list_values (q : ListValuesRequest) : G (list ValueEnvelope) :=
  let! _ := lift_res ensure_string_entry_keys_enabled in
  on_object (lv_ref q) (λ ident,
    let! sid := str_of ident in
    let! p := lift_res (prefix_of (lv_key_prefix q)) in
    let! page :=
      call (Api.list_entries fuel sid
              {| key_prefix := p; limit := page_limit (lv_limit q); cursor := lv_cursor q |}) in
    let '(es, next, version) := page in ret (value_envelopes es next version)).

Definition object_envelopes (r : ObjectListResult) : list ObjectMetaEnvelope :=
  match objects r with
  | [] => match o_next_cursor r with
          | Some c => [{| oe_object_id := []; oe_version := 0; oe_entry_count := 0;
                          oe_next_cursor := Some c |}]
          | None => []
          end
  | os => imap (λ idx i, {| oe_object_id := li_object_id i; oe_version := li_version i;
                            oe_entry_count := li_entry_count i;
                            oe_next_cursor := if (idx =? length os - 1)%nat
                                              then o_next_cursor r else None |}) os
  end.

Definition list_objects (q : ListObjectsRequest) : G (list ObjectMetaEnvelope) :=
  on_shard (lo_cls_id q) (lo_partition_id q)
    (let! result := call (Api.list_objects fuel
       {| object_id_prefix := lo_prefix q; o_limit := page_limit (lo_limit q);
          o_cursor := lo_cursor q |}) in
     ret (object_envelopes result)).
End service.
End Svc.

(** ** Lookup *)

Section lookup.
Context {R : Type}.
Implicit Types g : Grid (Shard R).

Lemma first_of_running group (m : ShardManager (Shard R)) :
  snd <$> Svc.first_of group m = Manager.first_running group m.
Proof.
  induction group as [|id group IH]; [done|]. simpl.
  by destruct (Manager.get_shard id m).
Qed.

(** The service works on the shard the grid finds for the partition. *)
Lemma local_shard_grid cls pid g :
  snd <$> Svc.local_shard cls pid g = GridM.get_local_shard cls pid g.
Proof.
  unfold Svc.local_shard, GridM.get_local_shard.
  destruct (bt_get cls _) as [col|]; [|done]. simpl.
  destruct (col_shards col !! _) as [group|]; [|done]. apply first_of_running.
Qed.

Lemma first_of_elem group (m : ShardManager (Shard R)) id s :
  Svc.first_of group m = Some (id, s) → running m !! id = Some s.
Proof.
  induction group as [|id' group IH]; simpl; [done|].
  unfold Manager.get_shard. destruct (running m !! id') eqn:E; [|done]. by intros [= -> ->].
Qed.

Lemma local_shard_running cls pid g id s :
  Svc.local_shard cls pid g = Some (id, s) → running (shard_manager g) !! id = Some s.
Proof.
  unfold Svc.local_shard. intros (col & _ & (group & _ & E)%bind_Some)%bind_Some.
  by eapply first_of_elem.
Qed.

Lemma local_shard_put cls pid g id s s' :
  Svc.local_shard cls pid g = Some (id, s) →
  Svc.local_shard cls pid (Svc.put_shard id s' g) = Some (id, s').
Proof.
  unfold Svc.local_shard. intros (col & E1 & (group & E2 & E)%bind_Some)%bind_Some.
  simpl. rewrite E1. simpl. rewrite E2. simpl. clear E1 E2.
  induction group as [|id' group IH]; simpl in *; [done|]. unfold Manager.get_shard in *. simpl.
  destruct (decide (id' = id)) as [->|Hne]; [by rewrite lookup_insert_eq|].
  rewrite lookup_insert_ne by done. destruct (running (shard_manager g) !! id'); [congruence|].
  by apply IH.
Qed.
End lookup.

(** Normal forms fit the key layout when their length is bounded. *)
Lemma normal_form_fits max_len raw id :
  (Z.of_nat max_len < 2 ^ 62)%Z → normalize_object_id raw max_len = Ok id → obj_ok id ∧ key_ok id.
Proof.
  intros Hlen [_ Hn]%normalize_ok_iff. pose proof (normal_id_ok _ _ Hn) as Hok.
  destruct Hn as (_ & Hl & _). repeat split; try apply Hok; lia.
Qed.

(** ** Requests that are well formed *)

Section requests.
Context {R : Type} `{StorageLaws R} `{!ReplicationLayer R} `{!ReplicationLaws R}.
Context `{CodecLaws}.
Context (svc : OdgmDataService).
(** Identifiers fit a [String]. *)
Hypothesis Hlen : (Z.of_nat (max_string_id_len svc) < 2 ^ 62)%Z.
Implicit Types (g : Grid (Shard R)) (s : Shard R).

Definition grid_inv g : Prop := map_Forall (λ _ s, shard_inv s) (running (shard_manager g)).

(** The request names the object [sid], and shard [id] in state [s] answers for it. *)
Definition names (r : ObjectRef) (sid : bytes) : Prop :=
  normalize_object_id (default [] (object_id r)) (max_string_id_len svc) = Ok sid.
Definition served (r : ObjectRef) g (id : Z) s : Prop :=
  Svc.local_shard (cls_id r) (as_u16 (partition_id r)) g = Some (id, s).
Definition key_of (key : option bytes) (k : bytes) : Prop :=
  enable_string_entry_keys svc = true ∧
  ∃ raw, key = Some raw ∧ normalize_entry_key raw (max_string_id_len svc) = Ok k.

Lemma normal_fits raw id :
  normalize_object_id raw (max_string_id_len svc) = Ok id → obj_ok id ∧ key_ok id.
Proof using Hlen. by apply normal_form_fits. Qed.

Lemma names_identity r sid :
  names r sid → Svc.build_identity_from_string svc (default [] (object_id r)) = Ok (Str sid).
Proof using Type.
  unfold names, Svc.build_identity_from_string. intros E.
  rewrite bool_decide_false by (intros Heq; by rewrite Heq in E). simpl. by rewrite E.
Qed.

Lemma key_of_resolve key k : key_of key k → Svc.resolve_entry_key svc key = Ok k.
Proof using Type.
  intros (He & raw & -> & E). simpl. unfold Svc.ensure_string_entry_keys_enabled. rewrite He. simpl.
  unfold Svc.normalize_entry_key_or_error. by rewrite E.
Qed.

Lemma on_object_ok {A} r sid (body : ObjectIdentity → M (Shard R) Status A) g id s x s' :
  names r sid → served r g id s → body (Str sid) s = (x, s') →
  Svc.on_object svc r body g = (x, Svc.put_shard id s' g).
Proof using Type.
  intros Hn Hs Hb. unfold Svc.on_object. rewrite (names_identity r sid Hn).
  unfold bind. simpl. unfold Svc.on_shard. rewrite Hs. by rewrite Hb.
Qed.

Lemma put_shard_inv g id s : grid_inv g → shard_inv s → grid_inv (Svc.put_shard id s g).
Proof using Type. intros Hg Hs. by apply map_Forall_insert_2. Qed.

Lemma served_put r r' g id s s' :
  served r g id s → cls_id r' = cls_id r → as_u16 (partition_id r') = as_u16 (partition_id r) →
  served r' (Svc.put_shard id s' g) id s'.
Proof using Type.
  unfold served. intros Hs -> ->. by eapply local_shard_put.
Qed.

Lemma served_inv r g id s : grid_inv g → served r g id s → shard_inv s.
Proof using Type. intros Hg Hs. by eapply Hg, local_shard_running. Qed.


(** ** Whole objects *)

(** An object set through the service is what the service then returns: its entries over those
    the object had, the next version not shown but kept, and the identity in its normal form;
    a deleted object stays deleted. *)
Theorem object_roundtrip fuel now q r raw g id s sid :
  grid_inv g → served (so_ref q) g id s → names (so_ref q) sid → so_object q = Some raw →
  enable_string_entry_keys svc = true → od_entries raw ≠ [] → bt_wf (od_entries raw) →
  Forall key_ok (od_entries raw).*1 →
  cls_id r = cls_id (so_ref q) → as_u16 (partition_id r) = as_u16 (partition_id (so_ref q)) →
  names r sid → granular_prefetch_limit svc ≠ 0 →
  ∃ s', Svc.set svc now q g = (Ok tt, Svc.put_shard id s' g) ∧
        grid_inv (Svc.put_shard id s' g) ∧
        (∀ key, key_ok key → entry_of (sh_contents s') sid key
           = match bt_get key (od_entries raw) with
             | Some v => Some (from_val_data v)
             | None => entry_of (sh_contents s) sid key
             end) ∧
        (length (sh_contents s') < fuel →
         length (all_entries sid (sh_contents s'))
           < MAX_PAGES * Nat.min (granular_prefetch_limit svc) MAX_LIST_LIMIT →
         (Svc.get fuel svc r (Svc.put_shard id s' g)).1
         = if tombstone (meta_or_new (sh_contents s) sid)
           then Err {| code := CNotFound; reason := Text "object not found" |}
           else Ok (Svc.response r sid
             {| last_updated := sat_add64 (version_of (sh_contents s) sid) 1;
                entries := object_entries (sh_contents s') sid;
                event := set_event (od_event raw) (event_of (sh_contents s) sid) |})).
Proof using All.
  intros Hg Hs Hn Hraw Hkeys Hne Hwf Hk Hcls Hpid Hn' Hlim.
  pose proof (served_inv _ _ _ _ Hg Hs) as Hinv. destruct (normal_fits _ _ Hn) as [Hi _].
  set (o := Obj.from_data now raw).
  assert (Hk1 : (entries o).*1 = (od_entries raw).*1).
  { unfold o. simpl. unfold Obj.map_vals. rewrite <- list_fmap_compose. by apply list_fmap_ext. }
  assert (Hne' : entries o ≠ []) by (unfold o; simpl; by destruct (od_entries raw)).
  destruct (internal_set_object_ok sid o s Hinv Hi) as (s' & E & Hinv' & _ & U);
    [by rewrite Hk1|rewrite Hk1; by apply bt_wf_NoDup|done|].
  exists s'. split; [|split; [by apply put_shard_inv|split]].
  - eapply on_object_ok; [done|done|]. rewrite Hraw, Hkeys. cbn [negb andb].
    fold o. unfold map_err, Api.upsert_object. rewrite bool_decide_false by done. by rewrite E.
  - intros key Hkey. rewrite (obj_update_entry_of _ _ _ _ _ _ key Hi Hkey U). unfold override.
    unfold o. simpl. rewrite bt_get_map_vals. by destruct (bt_get key (od_entries raw)).
  - intros Hf Hr. pose proof (served_put _ _ _ _ _ s' Hs Hcls Hpid) as Hs'.
    pose proof (object_of_updated _ _ _ _ _ _ (shard_wf s' (proj1 Hinv')) (proj2 Hinv') Hi U) as Ho.
    pose proof (reconstruct_pages_ok fuel sid _ s' Hinv' Hi Hlim Hf Hr) as Er. rewrite Ho in Er.
    change (tombstone (ObjectMeta.increment_version ?m)) with (tombstone m) in Er.
    destruct (tombstone (meta_or_new (sh_contents s) sid));
      (unfold Svc.get; erewrite on_object_ok; [|done|done|]; [reflexivity|];
       unfold bind; simpl; unfold Svc.call, map_err; rewrite Er; reflexivity).
Qed.

(** ** Batches *)

Lemma put_shard_same g id s : running (shard_manager g) !! id = Some s → Svc.put_shard id s g = g.
Proof using Type.
  intros Hs. unfold Svc.put_shard, GridM.set_shards, Manager.set_running.
  rewrite insert_id by done. by destruct g as [? [] ?].
Qed.

Lemma set_map_keys values acc m :
  Svc.set_map svc values acc = Ok m → (∀ k, k ∈ dom acc → key_ok k) → ∀ k, k ∈ dom m → key_ok k.
Proof using Hlen.
  revert acc. induction values as [|[raw v] values IH]; simpl; intros acc E Hacc; [by injection E as <-|].
  unfold Svc.normalize_entry_key_or_error in E.
  destruct (normalize_entry_key raw _) as [k|e|?] eqn:Ek; simpl in E; [|done..].
  eapply IH; [exact E|]. intros k'. rewrite dom_insert, elem_of_union, elem_of_singleton.
  intros [->|?]; [by apply (normal_fits raw)|by apply Hacc].
Qed.

Lemma normalize_keys_ok raws ks : Svc.normalize_keys svc raws = Ok ks → Forall key_ok ks.
Proof using Hlen.
  revert ks. induction raws as [|raw raws IH]; simpl; intros ks E; [by injection E as <-|].
  unfold Svc.normalize_entry_key_or_error in E.
  destruct (normalize_entry_key raw _) as [k|e|?] eqn:Ek; simpl in E; [|done..].
  destruct (Svc.normalize_keys svc raws) as [ks'|?|?]; simpl in E; [|done..].
  injection E as <-. constructor; [by apply (normal_fits raw)|by apply IH].
Qed.

(** A hash map iterated in any order. *)
Definition iterates (l : list (bytes * ObjectVal)) (m : gmap bytes ObjectVal) : Prop :=
  l ≡ₚ map_to_list m.

Lemma iterates_NoDup l m : iterates l m → NoDup l.*1.
Proof using Type. unfold iterates. intros ->. apply NoDup_fst_map_to_list. Qed.

Lemma iterates_get l m k : iterates l m → bt_get k l = m !! k.
Proof using Type.
  intros Hl. destruct (m !! k) as [v|] eqn:E.
  - apply bt_get_NoDup; [by eapply iterates_NoDup|]. unfold iterates in Hl. rewrite Hl.
    by apply elem_of_map_to_list.
  - apply bt_get_notin. intros ([k' v] & -> & Hin)%list_elem_of_fmap. unfold iterates in Hl.
    rewrite Hl in Hin. apply elem_of_map_to_list in Hin. simpl in E. congruence.
Qed.

Lemma iterates_keys l m : iterates l m → (∀ k, k ∈ dom m → key_ok k) → Forall key_ok l.*1.
Proof using Type.
  intros Hl Hm. apply Forall_forall. intros k ([k' v] & -> & Hin)%list_elem_of_fmap.
  unfold iterates in Hl. rewrite Hl in Hin. apply elem_of_map_to_list in Hin.
  apply Hm, elem_of_dom. eauto.
Qed.

Lemma iterates_nil l m : iterates l m → l = [] → m = ∅.
Proof using Type.
  unfold iterates. intros Hl ->. apply map_to_list_empty_iff. by apply Permutation_nil_l in Hl.
Qed.

(** What the object API makes of a batch. *)
Lemma batch_mutate_ok sid l m keys expected s :
  shard_inv s → obj_ok sid → iterates l m → (∀ k, k ∈ dom m → key_ok k) → Forall key_ok keys →
  let d := sh_contents s in
  if decide ((m = ∅ ∧ keys = []) ∨ expected = None ∨ expected = Some (version_of d sid)) then
    ∃ n s', Api.batch_mutate_entries sid l keys expected s = (Ok n, s') ∧ shard_inv s' ∧
    ∀ k, key_ok k → entry_of (sh_contents s') sid k
      = if decide (k ∈ keys) then None
        else match m !! k with Some v => Some v | None => entry_of d sid k end
  else ∃ e, expected = Some e ∧
    Api.batch_mutate_entries sid l keys expected s = (Err (VersionMismatch e (version_of d sid)), s).
Proof using All.
  intros Hinv Hi Hl Hm Hk d. assert (Hget := λ k, iterates_get l m k Hl).
  destruct (decide (l = [])) as [->|Hne].
  - assert (m = ∅) as -> by (by eapply iterates_nil). destruct (decide (keys = [])) as [->|Hks].
    + rewrite decide_True by auto. unfold Api.batch_mutate_entries.
      rewrite !bool_decide_true by done. cbn [andb]. exists (version_of d sid), s. rewrite current_version_ok by done. split; [done|]. split; [done|].
      intros k _. rewrite decide_False by (by intros ?%not_elem_of_nil). by rewrite lookup_empty.
    + pose proof (batch_mutate_delete sid keys expected s Hinv Hi Hk Hks) as Hb. cbv zeta in Hb. fold d in Hb.
      destruct (decide (expected = None ∨ expected = Some (version_of d sid))) as [He|He].
      * rewrite decide_True by auto. destruct Hb as (s' & del & _ & _ & E & Hinv' & U).
        do 2 eexists. split; [exact E|]. split; [done|]. intros k Hkk.
        rewrite (obj_update_entry_of _ _ _ _ _ _ k Hi Hkk U). unfold without. by case_decide.
      * rewrite decide_False by tauto. exact Hb.
  - assert (Hm0 : m ≠ ∅).
    { intros ->. apply Hne. unfold iterates in Hl. rewrite map_to_list_empty in Hl.
      by apply Permutation_nil_r in Hl. }
    pose proof (batch_mutate_set sid l keys expected s Hinv Hi (iterates_keys _ _ Hl Hm)
      (iterates_NoDup _ _ Hl) Hne Hk) as Hb. cbv zeta in Hb. fold d in Hb.
    destruct (decide (expected = None ∨ expected = Some (version_of d sid))) as [He|He].
    + rewrite decide_True by auto. destruct Hb as (s' & del & E & Hinv' & _ & _ & U).
      do 2 eexists. split; [exact E|]. split; [done|]. intros k Hkk.
      rewrite (obj_update_entry_of _ _ _ _ _ _ k Hi Hkk U). unfold without, override.
      case_decide; [done|]. by rewrite Hget.
    + rewrite decide_False by tauto. exact Hb.
Qed.

(** ** Every request *)

(** An operation on a shard that keeps its invariant and changes nothing when it fails, and one
    that changes nothing at all. *)
Definition tame {A} (op : M (Shard R) Status A) : Prop := ∀ s, shard_inv s →
  shard_inv (op s).2 ∧
  match (op s).1 with
  | Ok _ => True
  | Err _ => sh_contents (op s).2 = sh_contents s
  | Panic _ => False
  end.
Definition quiet {A} (op : M (Shard R) Status A) : Prop := ∀ s, shard_inv s →
  shard_inv (op s).2 ∧ sh_contents (op s).2 = sh_contents s ∧ ∀ p, (op s).1 ≠ Panic p.

Lemma quiet_bind {A B} (m : M (Shard R) Status A) (k : A → M (Shard R) Status B) :
  quiet m → (∀ a, tame (k a)) → tame (bind m k).
Proof using Type.
  intros Hm Hk s Hs. destruct (Hm s Hs) as (Hi & Hc & Hp). unfold bind.
  destruct (m s) as [[a|e|p] s1]; simpl in *; [|done|by destruct (Hp p)].
  destruct (Hk a s1 Hi) as [Hi' Hr]. split; [done|]. destruct (k a s1) as [[] s2]; simpl in *; congruence.
Qed.

Lemma quiet_tame {A} (m : M (Shard R) Status A) : quiet m → tame m.
Proof using Type.
  intros Hm s Hs. destruct (Hm s Hs) as (Hi & Hc & Hp). split; [done|].
  destruct (m s) as [[] s1]; simpl in *; [done|done|by eapply Hp].
Qed.

Lemma quiet_res {A} (r : res Status A) : (∀ p, r ≠ Panic p) → quiet (lift_res r).
Proof using Type. intros Hr s Hs. unfold lift_res. by destruct r. Qed.

Lemma entry_key_total raw p : Svc.normalize_entry_key_or_error svc raw ≠ Panic p.
Proof using Type.
  unfold Svc.normalize_entry_key_or_error, normalize_entry_key, normalize_object_id.
  by repeat (case_bool_decide || case_match).
Qed.

Lemma resolve_total key p : Svc.resolve_entry_key svc key ≠ Panic p.
Proof using Type.
  destruct key as [raw|]; [|done]. simpl. unfold Svc.ensure_string_entry_keys_enabled.
  destruct (enable_string_entry_keys svc); [|done]. apply entry_key_total.
Qed.

Lemma resolve_fits key k : Svc.resolve_entry_key svc key = Ok k → key_ok k.
Proof using Hlen.
  destruct key as [raw|]; [|done]. simpl. unfold Svc.ensure_string_entry_keys_enabled.
  destruct (enable_string_entry_keys svc); [|done]. simpl. unfold Svc.normalize_entry_key_or_error.
  destruct (normalize_entry_key raw _) as [k'| |] eqn:E; simpl; [|done..]. intros [= <-].
  by apply (normal_fits raw).
Qed.

Lemma set_map_total values acc p : Svc.set_map svc values acc ≠ Panic p.
Proof using Type.
  revert acc. induction values as [|[raw v] values IH]; intros acc; simpl; [done|].
  pose proof (entry_key_total raw). destruct (Svc.normalize_entry_key_or_error svc raw); naive_solver.
Qed.

Lemma normalize_keys_total raws p : Svc.normalize_keys svc raws ≠ Panic p.
Proof using Type.
  revert p. induction raws as [|raw raws IH]; intros p; simpl; [done|].
  pose proof (entry_key_total raw). destruct (Svc.normalize_entry_key_or_error svc raw); [|naive_solver..].
  simpl. destruct (Svc.normalize_keys svc raws); naive_solver.
Qed.

(** The key of a request, resolved or refused. *)
Lemma tame_key {A} key (k : bytes → M (Shard R) Status A) :
  (∀ key, key_ok key → tame (k key)) → tame (bind (lift_res (Svc.resolve_entry_key svc key)) k).
Proof using Hlen.
  intros Hk s Hs. unfold bind, lift_res. pose proof (resolve_total key) as Ht.
  destruct (Svc.resolve_entry_key svc key) as [k'|e|p] eqn:E; [|done|by destruct (Ht p)].
  apply (Hk k' (resolve_fits _ _ E) s Hs).
Qed.

Lemma call_ok {A} (op : M (Shard R) ShardError A) s a s' :
  op s = (Ok a, s') → Svc.call op s = (Ok a, s').
Proof using Type. unfold Svc.call, map_err. by intros ->. Qed.

Inductive EntryRequest : Type :=
| GetValue (q : SingleKeyRequest)
| SetValue (q : SetKeyRequest)
| DeleteValue (q : SingleKeyRequest)
| BatchSetValues (q : BatchSetValuesRequest).

Definition run_entry (hash_order : gmap bytes ObjectVal → list (bytes * ObjectVal)) (r : EntryRequest) :
    M (Grid (Shard R)) Status unit :=
  match r with
  | GetValue q => Svc.get_value svc q ;;; ret tt
  | SetValue q => Svc.set_value svc q
  | DeleteValue q => Svc.delete_value svc q
  | BatchSetValues q => Svc.batch_set_values hash_order svc q
  end.

(** What a request may do to the grid. *)
Definition confined (x : res Status unit) g g' : Prop :=
  grid_inv g' ∧ metadata_manager g' = metadata_manager g ∧ (∀ p, x ≠ Panic p) ∧
  ∃ id, (∀ id', id' ≠ id → running (shard_manager g') !! id' = running (shard_manager g) !! id') ∧
  (x ≠ Ok tt → sh_contents <$> running (shard_manager g') !! id
               = sh_contents <$> running (shard_manager g) !! id).

Lemma confined_refl x g : grid_inv g → (∀ p, x ≠ Panic p) → confined x g g.
Proof using Type. intros Hg Hx. split_and!; [done..|]. by exists 0%Z. Qed.

Lemma on_object_confined {A} r (body : ObjectIdentity → M (Shard R) Status A) g :
  grid_inv g → (∀ sid, obj_ok sid → tame (body (Str sid))) →
  confined (res_bind (Svc.on_object svc r body g).1 (λ _, Ok tt)) g (Svc.on_object svc r body g).2.
Proof using Hlen.
  intros Hg Hb. unfold Svc.on_object, bind, lift_res.
  destruct (Svc.build_identity_from_string svc (default [] (object_id r))) as [i|e|p] eqn:Ei;
    [|by apply confined_refl| ].
  2:{ exfalso. revert Ei. unfold Svc.build_identity_from_string. simpl. unfold normalize_object_id.
      by repeat (case_bool_decide || case_match). }
  unfold Svc.build_identity_from_string in Ei. case_bool_decide; [done|]. simpl in Ei.
  destruct (normalize_object_id (default [] (object_id r)) _) as [sid| |] eqn:En; simpl in Ei; [|done..].
  injection Ei as <-. unfold Svc.on_shard.
  destruct (Svc.local_shard (cls_id r) (as_u16 (partition_id r)) g) as [[id s]|] eqn:El;
    [|by apply confined_refl].
  pose proof (local_shard_running _ _ _ _ _ El) as Hs. pose proof (Hg _ _ Hs) as Hinv.
  destruct (Hb sid (proj1 (normal_fits _ _ En)) s Hinv) as [Hinv' Hr].
  destruct (body (Str sid) s) as [x s']. simpl in *.
  split_and!; [by apply put_shard_inv|done|by destruct x|]. exists id. split.
  - intros id' Hne. simpl. by rewrite lookup_insert_ne.
  - intros Hx. simpl. rewrite lookup_insert_eq, Hs. simpl. by destruct x; simplify_eq/=; rewrite ?Hr.
Qed.

Lemma unit_res (x : res Status unit) : res_bind x (λ _, Ok tt) = x.
Proof using Type. by destruct x as [[]| |]. Qed.

Lemma then_unit {S A} (m : M S Status A) (s : S) :
  bind m (λ _, ret tt) s = (res_bind (m s).1 (λ _, Ok tt), (m s).2).
Proof using Type. unfold bind. by destruct (m s) as [[] ?]. Qed.

Lemma tame_batch hash_order q sid :
  (∀ m, iterates (hash_order m) m) → obj_ok sid →
  tame (let! values := lift_res (Svc.set_map svc (bs_values q) ∅) in
        let! keys := lift_res (Svc.normalize_keys svc (bs_delete_keys q)) in
        let! _ := Svc.call (Api.batch_mutate_entries sid (hash_order values) keys
                              (bs_expected_version q)) in ret tt).
Proof using All.
  intros Hh Hi s Hs. unfold bind, lift_res.
  pose proof (set_map_total (bs_values q) ∅) as Hp.
  destruct (Svc.set_map svc (bs_values q) ∅) as [m|e|p] eqn:Em; [|done|by destruct (Hp p)].
  pose proof (normalize_keys_total (bs_delete_keys q)) as Hp'.
  destruct (Svc.normalize_keys svc (bs_delete_keys q)) as [ks|e|p] eqn:Ek; [|done|by destruct (Hp' p)].
  pose proof (batch_mutate_ok sid (hash_order m) m ks (bs_expected_version q) s Hs Hi (Hh m)
    (set_map_keys _ _ _ Em ltac:(set_solver)) (normalize_keys_ok _ _ Ek)) as Hb. cbv zeta in Hb.
  unfold Svc.call, map_err. case_decide.
  - destruct Hb as (n & s' & -> & Hinv & _). done.
  - destruct Hb as (e & _ & ->). done.
Qed.


(** A batch is a compare-and-set: with a current or no expected version all its values are
    written and then its keys are deleted, under their normal forms; otherwise it is aborted
    and nothing changes. An empty batch does nothing, whatever version it expects. *)
Theorem batch_is_cas (hash_order : gmap bytes ObjectVal → list (bytes * ObjectVal)) q g id s sid m ks :
  (∀ m, iterates (hash_order m) m) → grid_inv g → served (bs_ref q) g id s →
  names (bs_ref q) sid → enable_string_entry_keys svc = true →
  Svc.set_map svc (bs_values q) ∅ = Ok m → Svc.normalize_keys svc (bs_delete_keys q) = Ok ks →
  let version := version_of (sh_contents s) sid in
  if decide ((m = ∅ ∧ ks = []) ∨ bs_expected_version q = None ∨ bs_expected_version q = Some version)
  then ∃ s', Svc.batch_set_values hash_order svc q g = (Ok tt, Svc.put_shard id s' g) ∧
       grid_inv (Svc.put_shard id s' g) ∧
       ∀ k, key_ok k → entry_of (sh_contents s') sid k
         = if decide (k ∈ ks) then None
           else match m !! k with Some v => Some v | None => entry_of (sh_contents s) sid k end
  else ∃ e, bs_expected_version q = Some e ∧
       Svc.batch_set_values hash_order svc q g
       = (Err {| code := CAborted; reason := OfShard (VersionMismatch e version) |}, g).
Proof using All.
  intros Hh Hg Hs Hn Hkeys Hm Hks version.
  pose proof (served_inv _ _ _ _ Hg Hs) as Hinv. destruct (normal_fits _ _ Hn) as [Hi _].
  pose proof (batch_mutate_ok sid (hash_order m) m ks (bs_expected_version q) s Hinv Hi (Hh m)
    (set_map_keys _ _ _ Hm ltac:(set_solver)) (normalize_keys_ok _ _ Hks)) as Hb.
  cbv zeta in Hb. fold version in Hb.
  assert (Hrun : ∀ x s', Api.batch_mutate_entries sid (hash_order m) ks (bs_expected_version q) s = (x, s') →
    Svc.batch_set_values hash_order svc q g
    = (res_bind (res_map_err Svc.from_shard_error x) (λ _, Ok tt), Svc.put_shard id s' g)).
  { intros x s' E. unfold Svc.batch_set_values, Svc.ensure_string_entry_keys_enabled. rewrite Hkeys.
    unfold bind at 1. simpl. eapply on_object_ok; [done|done|]. unfold bind. simpl. rewrite Hm. simpl.
    rewrite Hks. simpl. unfold Svc.call, map_err. rewrite E. by destruct x. }
  case_decide as He.
  - destruct Hb as (n & s' & E & Hinv' & Hent). exists s'. split; [by rewrite (Hrun _ _ E)|].
    split; [by apply put_shard_inv|done].
  - destruct Hb as (e & He' & E). exists e. split; [done|]. rewrite (Hrun _ _ E).
    f_equal. apply put_shard_same. by eapply local_shard_running.
Qed.
End requests.

(** ** Examples *)

Import Demo.

Module DemoService.
#[local] Ltac now_refl := vm_compute; reflexivity.

Definition svc : OdgmDataService :=
  {| max_string_id_len := 160; enable_string_entry_keys := true;
     enable_granular_entry_storage := true; granular_prefetch_limit := 16 |}.

(** One collection of one partition, its shard is [demo3]. *)
Definition grid : Grid (Shard MemoryStorage) :=
  {| metadata_manager :=
       {| collections := [(bs "cls", {| col_name := bs "cls"; col_shards := [[1%Z]]; col_seed := 0;
                                        col_replication := 1 |})];
          shards := []; local_shards := []; node_id := 1; members := [1%Z]; watch := 1 |};
     shard_manager := Manager.set_running {[ 1%Z := demo3 ]} Manager.new;
     last_sync := 1 |}.

Lemma grid_ok : grid_inv grid.
Proof. apply map_Forall_singleton. apply demo3_inv. Qed.

Definition ref (p : Z) (id : string) : ObjectRef :=
  {| cls_id := bs "cls"; partition_id := p; object_id := Some (bs id) |}.
Definition byte_val (d : string) : ValData := {| vd_data := bs d; vd_type := 0 |}.

Definition set_b : SetKeyRequest :=
  {| kv_ref := ref 0 "O"; kv_key := Some (bs "B"); kv_value := Some (byte_val "9") |}.
Definition get_b : SingleKeyRequest := {| sk_ref := ref 65536 "o"; sk_key := Some (bs "b") |}.


Definition object : ObjData :=
  {| od_entries := [(bs "Name", byte_val "x"); (bs "a", byte_val "7")]; od_event := None |}.
Definition set_o : SetObjectRequest := {| so_ref := ref 0 "o"; so_object := Some object |}.

Lemma object_roundtrip_witness : ∃ s',
  Svc.set svc 0 set_o grid = (Ok tt, Svc.put_shard 1 s' grid) ∧
  entry_of (sh_contents s') (bs "o") (bs "b") = Some (Demo.val "2").
Proof.
  destruct (object_roundtrip svc ltac:(done) 20 0 set_o (ref 0 "o") object grid 1 demo3 (bs "o")
    grid_ok ltac:(by vm_compute) ltac:(by vm_compute) eq_refl eq_refl ltac:(done)
    ltac:(repeat constructor) ltac:(repeat constructor; decide_now) eq_refl eq_refl
    ltac:(by vm_compute) ltac:(done)) as (s' & E & _ & G & _).
  exists s'. split; [exact E|]. rewrite G by decide_now. by vm_compute.
Defined.

(** Keys are stored by [set] as they are given, but every request for an entry normalises its
    key: an entry set under a key with a capital letter cannot be read by any key. *)
Theorem set_key_unreadable :
  (Svc.get_value svc {| sk_ref := ref 0 "o"; sk_key := Some (bs "Name") |}
     (Svc.set svc 0 set_o grid).2).1
  = Ok {| vr_value := None; vr_version := Some 4%Z; vr_key := bs "name" |}.
Proof. by vm_compute. Qed.

(** A [set] request without an object panics; [merge] and [set_value] refuse it. *)
Theorem set_without_object_panics : ∃ p,
  (Svc.set svc 0 {| so_ref := ref 0 "o"; so_object := None |} grid).1 = Panic p ∧
  (Svc.merge 20 (λ _ _, Err (CrdtError "")) svc 0 {| so_ref := ref 0 "o"; so_object := None |} grid).1
  = Err (Svc.invalid (Text "object must not be none")).
Proof. eexists. split; by vm_compute. Qed.

Definition batch (v : option Z) : BatchSetValuesRequest :=
  {| bs_ref := ref 0 "o"; bs_values := [];
     bs_delete_keys := [bs "A"]; bs_expected_version := v |}.

Lemma batch_is_cas_witness : ∃ e,
  Svc.batch_set_values map_to_list svc (batch (Some 2%Z)) grid
  = (Err {| code := CAborted; reason := OfShard (VersionMismatch e 3) |}, grid).
Proof.
  pose proof (batch_is_cas svc ltac:(done) map_to_list (batch (Some 2%Z)) grid 1 demo3 (bs "o")
    ∅ [bs "a"] (λ m, Permutation_refl _) grid_ok
    ltac:(now_refl) ltac:(now_refl) eq_refl eq_refl ltac:(now_refl)) as B.
  assert (Hv : version_of (sh_contents demo3) (bs "o") = 3%Z) by (by vm_compute).
  cbv zeta in B. rewrite Hv in B. rewrite decide_False in B.
  - destruct B as (e & _ & B). exists e. exact B.
  - by intros [[_ ?]|[?|?]].
Defined.

End DemoService.
