(* ===== verification/ShardNetwork.v ===== *)
(** * The network handlers of a shard

    [data-plane/oprc-odgm/src/shard/network/*.rs]: the queries and samples a shard answers over
    Zenoh. The object and the entry are parsed from the key expression; whole objects go through
    the object API, single entries and batches directly through the replication layer. The
    protobuf decoders are parameters; an error is the text of [reply_err]. *)

From stdpp Require Import base tactics list numbers option gmap sorting strings.
From Stdlib Require Import Lia.
From S2P Require Import Prelude BTree Backend Memory Replication StorageKey GranularKey Identity Events ObjectData Shard EntryStore ObjectView EntryOps EntryList ObjectShard ObjectOps ObjectApi DataService.

Set Default Proof Using "Type".
Open Scope prog_scope.

(** ** Key expressions *)

Module Path.
Definition slash : byte := Byte.x2f.

Fixpoint split_slash (s : bytes) : list bytes :=
  match s with
  | [] => [[]]
  | c :: s =>
      if decide (c = slash) then [] :: split_slash s
      else match split_slash s with
           | w :: ws => (c :: w) :: ws
           | [] => [[c]]
           end
  end.

Fixpoint trim_start (s : bytes) : bytes :=
  match s with
  | c :: s' => if decide (c = slash) then trim_start s' else s
  | [] => []
  end.
Definition trim_slashes (s : bytes) : bytes := reverse (trim_start (reverse (trim_start s))).

Definition split_path_segments (expr : bytes) : list bytes :=
  filter (λ seg, seg ≠ []) (split_slash (trim_slashes expr)).

(** The digits of [u64::from_str]: every step checks the range. *)
Fixpoint u64_digits (l : bytes) (acc : Z) : option Z :=
  match l with
  | [] => Some acc
  | b :: l =>
      if in_range 48 57 b then
        let acc := (acc * 10 + (bz b - 48))%Z in
        if (u64_max <? acc)%Z then None else u64_digits l acc
      else None
  end.

Definition parse_u64 (s : bytes) : option Z :=
  match s with
  | [] => None
  | b :: l => if bool_decide (b = Byte.x2b) && bool_decide (l ≠ []) then u64_digits l 0
              else u64_digits s 0
  end.

Definition parse_object_identity_segment (segment : bytes) (max_len : nat) : option ObjectIdentity :=
  match parse_u64 segment with
  | Some n => Some (Numeric n)
  | None => Str <$> ok_opt (normalize_object_id segment max_len)
  end.

(** The segments after the last one that is [objects]. *)
Fixpoint after_objects (segments : list bytes) : option (list bytes) :=
  match segments with
  | [] => None
  | x :: segments =>
      match after_objects segments with
      | Some rest => Some rest
      | None => if decide (x = bs "objects") then Some segments else None
      end
  end.

Definition is_verb (segment : bytes) : bool :=
  bool_decide (segment ∈ [bs "get"; bs "set"; bs "batch-set"]).

Definition extract_identity_from_expr (expr : bytes) (max_len : nat) : option ObjectIdentity :=
  rest ← after_objects (split_path_segments expr);
  match rest with
  | [] => None
  | candidate :: rest =>
      if is_verb candidate then
        match rest with
        | [] => None
        | candidate :: _ => parse_object_identity_segment candidate max_len
        end
      else parse_object_identity_segment candidate max_len
  end.

Definition parse_entry_request (expr : bytes) (max_len : nat) : option (ObjectIdentity * bytes) :=
  rest ← after_objects (split_path_segments expr);
  match rest with
  | object :: word :: key :: _ =>
      if decide (word = bs "entries") then
        ident ← parse_object_identity_segment object max_len; Some (ident, key)
      else None
  | _ => None
  end.

Definition parse_batch_set_identity (expr : bytes) (max_len : nat) : option ObjectIdentity :=
  rest ← after_objects (split_path_segments expr);
  match rest with
  | object :: word :: _ =>
      if decide (word = bs "batch-set") then parse_object_identity_segment object max_len else None
  | _ => None
  end.

(** [params] are the parameters of the selector. *)
Definition parse_identity_from_query (expr : bytes) (params : bytes → option bytes) (max_len : nat) :
    option ObjectIdentity :=
  match extract_identity_from_expr expr max_len with
  | Some ident => Some ident
  | None =>
      match params (bs "oid") ≫= parse_u64 with
      | Some oid => Some (Numeric oid)
      | None => oid_str ← params (bs "oid_str"); Str <$> ok_opt (normalize_object_id oid_str max_len)
      end
  end.

(** The key under which objects were once stored whole. *)
Definition storage_key_for_identity (ident : ObjectIdentity) : bytes :=
  match ident with Numeric oid => be_bytes 8 oid | Str sid => sid end.

(** [u64::to_string]: at most twenty digits. *)
Definition object_name (ident : ObjectIdentity) : bytes :=
  match ident with Numeric oid => to_decimal 20 oid | Str sid => sid end.
End Path.

(** ** Handlers *)

Inductive NetError : Type :=
| NText (msg : string)
| NKey (key : bytes) (e : NormalizationError)
| NShard (what : string) (e : ShardError)
| NReplication (e : ReplicationError)
| NStatus (s : ResponseStatus)
| NEncode (key : bytes) (msg : string).

Inductive Reply : Type :=
| NoReply
| ReplyEmpty
| ReplyObject (o : ObjectResponse)
| ReplyValue (v : ValueResponse)
| ReplyObjects (os : list ObjectMetaEnvelope).

Record Query := {
  key_expr : bytes;
  parameters : bytes → option bytes;
  payload : option bytes;
}.

Inductive Sample : Type :=
| SamplePut (expr data : bytes)
| SampleDelete (expr : bytes).

(** The protobuf messages a payload may hold. *)
Record Decoders := {
  decode_object : bytes → option ObjData;
  decode_batch : bytes → option BatchSetValuesRequest;
  decode_list : bytes → option ListObjectsRequest;
}.

Module Net.
Section net.
Context {R : Type} `{Storage R} `{!ReplicationLayer R} `{Codec}.
(** [attached] is whether the handlers were given the shard. *)
Context (fuel : nat) (dec : Decoders) (max_string_id_len : nat) (attached : bool).

Notation N A := (M (Shard R) NetError A).

Definition shard_call {A} (what : string) (op : M (Shard R) ShardError A) : N A :=
  map_err (NShard what) op.

Definition applied (r : ReplicationResponse) : N (option bytes) :=
  match status r with
  | Applied => ret (resp_data r)
  | s => throw (NStatus s)
  end.

(** Requests carry the identifier of the shard. *)
Definition replicate_read_value (key : bytes) : N (option bytes) := λ s,
  (let! r := map_err NReplication (zoom sh_rep set_rep
     (replicate_read (from_operation (sh_now s) (Read key) (sm_id (sh_meta s))))) in
   applied r) s.

Definition replicate_write_operation (o : Operation) : N unit := λ s,
  (let! r := map_err NReplication (zoom sh_rep set_rep
     (replicate_write (from_operation (sh_now s) o (sm_id (sh_meta s))))) in
   applied r ;;; ret tt) s.

Definition normalized (raw : bytes) : N bytes :=
  lift_res (res_map_err (NKey raw) (normalize_entry_key raw max_string_id_len)).

Definition str_id (ident : ObjectIdentity) : N bytes :=
  match ident with
  | Str sid => ret sid
  | Numeric _ => throw (NText "granular storage requires string object ids")
  end.

(** The metadata record of an object, read through the replication layer. *)
Definition read_metadata (sid : bytes) : N (option ObjectMetadata) :=
  let! b := replicate_read_value (build_metadata_key sid) in
  match b with
  | None => ret None
  | Some b =>
      match ObjectMeta.from_bytes b with
      | Some m => ret (Some m)
      | None => throw (NText "failed to deserialize metadata")
      end
  end.

Definition handle_entry_query (ident : ObjectIdentity) (raw_entry_key : bytes) : N Reply :=
  let! sid := str_id ident in
  let! key := normalized raw_entry_key in
  let! b := replicate_read_value (build_entry_key sid key) in
  match b with
  | None => throw (NText "entry not found")
  | Some b =>
      match val_decode b with
      | None => throw (NText "failed to deserialize entry")
      | Some value =>
          let! m := read_metadata sid in
          ret (ReplyValue {| vr_value := Some (into_val value);
                             vr_version := Some (default 0%Z (object_version <$> m));
                             vr_key := key |})
      end
  end.

Definition get_whole (name : bytes) : N Reply :=
  if negb attached then throw (NText "shard not attached for granular get")
  else
    let! o := shard_call "get failed" (Api.get_object fuel name) in
    match o with
    | Some obj => λ s,
        (Ok (ReplyObject {| or_data := Obj.to_data obj; or_cls_id := sm_collection (sh_meta s);
                            or_partition_id := sm_partition_id (sh_meta s); or_object_id := name |}), s)
    | None => throw (NText "object not found")
    end.

(** [UnifiedGetterHandler] *)
Definition handle_get (q : Query) : N Reply :=
  match Path.parse_entry_request (key_expr q) max_string_id_len with
  | Some (ident, key) => handle_entry_query ident key
  | None =>
      match payload q with
      | Some _ => ret NoReply
      | None =>
          match Path.parse_identity_from_query (key_expr q) (parameters q) max_string_id_len with
          | None => throw (NText "invalid object id")
          | Some ident => get_whole (Path.object_name ident)
          end
      end
  end.

(** [UnifiedSetterHandler] for a query, at the time [now] in milliseconds. *)
Definition handle_set (now : Z) (q : Query) : N Reply :=
  match payload q with
  | None => throw (NText "payload is required")
  | Some p =>
      match Path.parse_identity_from_query (key_expr q) (parameters q) max_string_id_len with
      | None => throw (NText "invalid object id")
      | Some ident =>
          match decode_object dec p with
          | None => throw (NText "failed to decode payload")
          | Some data =>
              if attached then
                shard_call "upsert failed"
                  (Api.upsert_object (Path.object_name ident) (Obj.from_data now data)) ;;;
                ret ReplyEmpty
              else throw (NText "shard not attached for upsert")
          end
      end
  end.

(** The same handler for a sample: nothing is answered, failures are only logged. *)
Definition logged {A} (m : M (Shard R) NetError A) : M (Shard R) Empty_set unit := λ s,
  match m s with
  | (Panic p, s') => (Panic p, s')
  | (_, s') => (Ok tt, s')
  end.

Definition handle_sample (now : Z) (sample : Sample) : M (Shard R) Empty_set unit :=
  match sample with
  | SamplePut expr data =>
      match Path.extract_identity_from_expr expr max_string_id_len, decode_object dec data with
      | Some ident, Some o =>
          if attached then
            logged (shard_call "upsert failed"
                      (Api.upsert_object (Path.object_name ident) (Obj.from_data now o)))
          else ret tt
      | _, _ => ret tt
      end
  | SampleDelete expr =>
      match Path.extract_identity_from_expr expr max_string_id_len with
      | None => ret tt
      | Some (Numeric n) =>
          logged (replicate_write_operation (Delete (Path.storage_key_for_identity (Numeric n))))
      | Some (Str sid) =>
          if attached then logged (shard_call "delete failed" (OS.internal_delete_object fuel sid))
          else ret tt
      end
  end.

(** The values and the keys of a batch under their normal forms. *)
Fixpoint set_entries (values : list (bytes * ValData)) : N (list (bytes * ObjectVal)) :=
  match values with
  | [] => ret []
  | (key, value) :: values =>
      let! k := normalized key in
      let! rest := set_entries values in
      ret ((k, from_val_data value) :: rest)
  end.

Fixpoint delete_keys (keys : list bytes) : N (list bytes) :=
  match keys with
  | [] => ret []
  | key :: keys =>
      let! k := normalized key in
      let! rest := delete_keys keys in
      ret (k :: rest)
  end.

Fixpoint write_ops (sid : bytes) (entries : list (bytes * ObjectVal)) : N (list Operation) :=
  match entries with
  | [] => ret []
  | (key, value) :: entries =>
      let! b := lift_res (res_map_err (NEncode key) (val_encode value)) in
      let! ops := write_ops sid entries in
      ret (write_op (build_entry_key sid key) b :: ops)
  end.

(** One version step for values and one for keys. *)
Definition bumps (entries : list (bytes * ObjectVal)) (keys : list bytes) : nat :=
  (if decide (entries = []) then 0 else 1) + (if decide (keys = []) then 0 else 1).

Definition mutate (sid : bytes) (entries : list (bytes * ObjectVal)) (keys : list bytes)
    (expected : option Z) : N Reply :=
  let! m := read_metadata sid in
  let metadata := default ObjectMeta.new m in
  let mutated := bool_decide (entries ≠ []) || bool_decide (keys ≠ []) in
  (match expected with
   | Some e => if mutated && negb (object_version metadata =? e)%Z
               then throw (NShard "version mismatch" (VersionMismatch e (object_version metadata)))
               else ret tt
   | None => ret tt
   end) ;;;
  let! writes := write_ops sid entries in
  let ops := writes ++ ((λ key, Delete (build_entry_key sid key)) <$> keys) ++
    if mutated
    then [write_op (build_metadata_key sid)
            (ObjectMeta.to_bytes (Nat.iter (bumps entries keys) ObjectMeta.increment_version metadata))]
    else [] in
  (if bool_decide (ops = []) then ret tt else replicate_write_operation (Batch ops)) ;;;
  ret ReplyEmpty.

(** [UnifiedBatchSetHandler] *)
Definition handle_batch_set (q : Query) : N Reply :=
  match payload q with
  | None => throw (NText "payload is required")
  | Some p =>
      match Path.parse_batch_set_identity (key_expr q) max_string_id_len with
      | None => throw (NText "invalid object id")
      | Some ident =>
          let! sid := str_id ident in
          match decode_batch dec p with
          | None => throw (NText "failed to decode batch request")
          | Some request =>
              let! entries := set_entries (bs_values request) in
              let! keys := delete_keys (bs_delete_keys request) in
              mutate sid entries keys (bs_expected_version request)
          end
      end
  end.

(** [ListObjectsHandler] *)
Definition handle_list_objects (q : Query) : N Reply :=
  if negb attached then throw (NText "shard not attached")
  else
    let! options :=
      match payload q with
      | Some p =>
          match decode_list dec p with
          | Some req => ret {| object_id_prefix := lo_prefix req;
                               o_limit := if (lo_limit req =? 0)%nat then 100 else lo_limit req;
                               o_cursor := lo_cursor req |}
          | None => throw (NText "failed to decode list request")
          end
      | None => ret {| object_id_prefix := None; o_limit := 100; o_cursor := None |}
      end in
    let! result := shard_call "list_objects failed" (Api.list_objects fuel options) in
    ret match Svc.object_envelopes result with
        | [] => NoReply
        | es => ReplyObjects es
        end.
End net.
End Net.

(** ** Addresses *)

Definition no_slash (seg : bytes) : Prop := (Path.slash ∉ seg) ∧ seg ≠ [].

(** [a/b/c] *)
Fixpoint address (segs : list bytes) : bytes :=
  match segs with
  | [] => []
  | [seg] => seg
  | seg :: segs => seg ++ (Path.slash :: address segs)
  end.

Lemma split_slash_word seg : Path.slash ∉ seg → Path.split_slash seg = [seg].
Proof.
  induction seg as [|c seg IH]; intros Hn; [done|]. simpl. rewrite decide_False by set_solver.
  by rewrite IH by set_solver.
Qed.

Lemma split_slash_app seg s :
  Path.slash ∉ seg → Path.split_slash (seg ++ Path.slash :: s) = seg :: Path.split_slash s.
Proof.
  induction seg as [|c seg IH]; intros Hn; simpl; [done|].
  rewrite decide_False by set_solver. by rewrite IH by set_solver.
Qed.

Lemma split_slash_address segs :
  Forall no_slash segs → segs ≠ [] → Path.split_slash (address segs) = segs.
Proof.
  intros Hf. induction Hf as [|seg segs [Hs _] Hf IH]; intros Hne; [done|].
  destruct segs as [|seg' segs]; [by apply split_slash_word|].
  change (address (seg :: seg' :: segs)) with (seg ++ Path.slash :: address (seg' :: segs)).
  by rewrite split_slash_app, IH.
Qed.

Lemma slash_trim_id s : head s ≠ Some Path.slash → Path.trim_start s = s.
Proof. destruct s as [|c s]; [done|]. simpl. intros Hh. rewrite decide_False; [done|congruence]. Qed.

Lemma address_head segs : Forall no_slash segs → head (address segs) ≠ Some Path.slash.
Proof.
  intros Hf. destruct Hf as [|seg segs [Hs Hne] _]; [done|].
  destruct seg as [|c seg]; [done|]. destruct segs; simpl; intros [= ->]; set_solver.
Qed.

Lemma address_last segs : Forall no_slash segs → last (address segs) ≠ Some Path.slash.
Proof.
  intros Hf. induction Hf as [|seg segs [Hs Hne] Hf IH]; [done|].
  destruct segs as [|seg' segs].
  - simpl. intros Hl. apply Hs. rewrite last_Some in Hl. destruct Hl as [l ->]. set_solver.
  - change (address (seg :: seg' :: segs)) with (seg ++ Path.slash :: address (seg' :: segs)).
    rewrite last_app, last_cons. destruct (last (address (seg' :: segs))) as [c|] eqn:E; [congruence|].
    exfalso. apply last_None in E. inversion_clear Hf as [|?? [_ Hne'] _].
    destruct segs; simpl in E; [done|]. by destruct seg'.
Qed.

Lemma segments_address segs : Forall no_slash segs → segs ≠ [] →
  Path.split_path_segments (address segs) = segs.
Proof.
  intros Hf Hne. unfold Path.split_path_segments, Path.trim_slashes.
  rewrite (slash_trim_id (address segs)) by (by apply address_head).
  rewrite (slash_trim_id (reverse _)).
  - rewrite reverse_involutive, split_slash_address by done.
    induction Hf as [|seg segs [_ Hs] Hf IH]; [done|]. rewrite filter_cons_True by done. f_equal.
    destruct segs; [done|]. by apply IH.
  - rewrite <- last_reverse, reverse_involutive. by apply address_last.
Qed.

Lemma after_last_objects pre rest :
  bs "objects" ∉ rest → Path.after_objects (pre ++ bs "objects" :: rest) = Some rest.
Proof.
  intros Hn. assert (Hnone : Path.after_objects rest = None).
  { induction rest as [|x rest IH]; [done|]. cbn [Path.after_objects].
    rewrite IH by set_solver. by rewrite decide_False by set_solver. }
  induction pre as [|x pre IH].
  - cbn [app Path.after_objects]. rewrite Hnone. by rewrite decide_True.
  - cbn [app Path.after_objects]. by rewrite IH.
Qed.

Section addresses.
Context (max_len : nat) (pre : list bytes).
Hypothesis Hpre : Forall no_slash pre.

(** The key expression of an object under a prefix, and of what belongs to it. *)
Definition object_address (tail : list bytes) : bytes := address (pre ++ bs "objects" :: tail).

Lemma object_address_rest tail :
  Forall no_slash tail → bs "objects" ∉ tail →
  Path.after_objects (Path.split_path_segments (object_address tail)) = Some tail.
Proof using Hpre.
  intros Ht Hn. unfold object_address. rewrite segments_address.
  - by apply after_last_objects.
  - apply Forall_app. split; [done|]. constructor; [|done]. split; [|done]. decide_now.
  - by destruct pre.
Qed.

Lemma identity_segment raw id :
  Path.parse_u64 raw = None → normalize_object_id raw max_len = Ok id →
  Path.parse_object_identity_segment raw max_len = Some (Str id).
Proof using Type.
  intros Hu Hn. unfold Path.parse_object_identity_segment. by rewrite Hu, Hn.
Qed.

(** The key expressions of an object, its entries and its operations are parsed back to the
    object and the entry, provided the identifier is not a number and not one of the words of
    the key expressions. *)
Theorem addresses_parse raw id key :
  no_slash raw → no_slash key → Path.parse_u64 raw = None →
  normalize_object_id raw max_len = Ok id →
  raw ∉ [bs "objects"; bs "get"; bs "set"; bs "batch-set"] → key ≠ bs "objects" →
  let at_ tail := object_address (raw :: tail) in
  Path.extract_identity_from_expr (at_ []) max_len = Some (Str id) ∧
  Path.extract_identity_from_expr (at_ [bs "set"]) max_len = Some (Str id) ∧
  Path.parse_batch_set_identity (at_ [bs "batch-set"]) max_len = Some (Str id) ∧
  Path.parse_entry_request (at_ [bs "entries"; key]) max_len = Some (Str id, key) ∧
  Path.parse_entry_request (at_ []) max_len = None ∧
  Path.parse_entry_request (at_ [bs "set"]) max_len = None.
Proof using Hpre.
  intros Hr Hk Hu Hid Hw Hko at_. pose proof (identity_segment raw id Hu Hid) as Hseg.
  assert (Hverb : Path.is_verb raw = false) by (apply bool_decide_eq_false; set_solver).
  assert (Hrest : ∀ tail, tail ∈ [[]; [bs "set"]; [bs "batch-set"]; [bs "entries"; key]] →
    Path.after_objects (Path.split_path_segments (at_ tail)) = Some (raw :: tail)).
  { intros tail Ht. apply object_address_rest.
    - assert (no_slash (bs "set") ∧ no_slash (bs "batch-set") ∧ no_slash (bs "entries")) as (?&?&?)
        by (split_and!; (split; [decide_now|done])).
      repeat (apply elem_of_cons in Ht as [->|Ht];
        [by repeat (apply Forall_cons_2 || apply Forall_nil_2)|]). by apply not_elem_of_nil in Ht.
    - assert (raw ≠ bs "objects") by set_solver.
      assert (bs "objects" ≠ bs "set") by done. assert (bs "objects" ≠ bs "batch-set") by done.
      assert (bs "objects" ≠ bs "entries") by done.
      repeat (apply elem_of_cons in Ht as [->|Ht];
        [rewrite ?elem_of_cons, elem_of_nil; intuition congruence|]). by apply not_elem_of_nil in Ht. }
  unfold Path.extract_identity_from_expr, Path.parse_batch_set_identity, Path.parse_entry_request.
  rewrite !Hrest by set_solver. cbn [option_bind mbind]. rewrite Hverb, Hseg.
  rewrite !decide_True by done. cbn [option_bind mbind]. split_and!; done.
Qed.
End addresses.

(** ** Entries and batches *)

Section handlers.
Context {R : Type} `{StorageLaws R} `{!ReplicationLayer R} `{!ReplicationLaws R}.
Context `{CodecLaws}.
Context (fuel : nat) (dec : Decoders) (max_len : nat) (attached : bool).
(** Identifiers fit a [String]. *)
Hypothesis Hlen : (Z.of_nat max_len < 2 ^ 62)%Z.
Implicit Types s : Shard R.

Lemma normalized_fits raw id : normalize_object_id raw max_len = Ok id → obj_ok id ∧ key_ok id.
Proof using Hlen. by apply normal_form_fits. Qed.

Lemma segment_normal seg id :
  Path.parse_object_identity_segment seg max_len = Some (Str id) → obj_ok id.
Proof using Hlen.
  unfold Path.parse_object_identity_segment. destruct (Path.parse_u64 seg); [done|].
  destruct (normalize_object_id seg max_len) as [id'| |] eqn:E; simpl; [|done..].
  intros [= <-]. by apply (normalized_fits seg).
Qed.

Lemma batch_identity_normal expr id :
  Path.parse_batch_set_identity expr max_len = Some (Str id) → obj_ok id.
Proof using Hlen.
  unfold Path.parse_batch_set_identity. destruct (Path.after_objects _) as [[|o [|w rest]]|]; simpl; try done.
  case_decide; [|done]. apply segment_normal.
Qed.

Lemma entry_identity_normal expr id key :
  Path.parse_entry_request expr max_len = Some (Str id, key) → obj_ok id.
Proof using Hlen.
  unfold Path.parse_entry_request.
  destruct (Path.after_objects _) as [[|o [|w [|k rest]]]|]; simpl; try done.
  case_decide; [|done]. destruct (Path.parse_object_identity_segment o max_len) as [i|] eqn:E; simpl; [|done].
  intros [= -> <-]. by eapply segment_normal.
Qed.

Lemma read_value_ok key s :
  shard_inv s → Net.replicate_read_value key s = (Ok (bt_get key (sh_contents s)), s).
Proof using All.
  intros [Hs _]. unfold Net.replicate_read_value.
  destruct (law_read key (sh_now s) (sm_id (sh_meta s)) (sh_rep s) Hs) as (resp & E & Hst & Hd).
  unfold bind, map_err, zoom. rewrite E. simpl. unfold Net.applied. rewrite Hst, set_rep_same. simpl.
  by rewrite Hd.
Qed.

Lemma net_metadata_ok sid s :
  shard_inv s → obj_ok sid → Net.read_metadata sid s = (Ok (meta_of (sh_contents s) sid), s).
Proof using All.
  intros Hinv Hi. unfold Net.read_metadata. rewrite (bind_ok _ _ _ _ _ (read_value_ok _ s Hinv)).
  unfold meta_of. change (rk (KMeta sid)) with (build_metadata_key sid).
  destruct (bt_get (build_metadata_key sid) (sh_contents s)) as [b|] eqn:E; [|done]. simpl.
  apply (store_ok_get (KMeta sid)) in E as (m & -> & Hm); [|by apply shard_wf, Hinv|apply Hinv|done].
  by rewrite meta_roundtrip.
Qed.

(** A query for an entry answers with the value of the view and the object's version, or that
    there is none, and changes nothing. *)
Theorem entry_query_correct q sid raw key s :
  shard_inv s → Path.parse_entry_request (key_expr q) max_len = Some (Str sid, raw) →
  normalize_entry_key raw max_len = Ok key →
  Net.handle_get fuel max_len attached q s
  = (match entry_of (sh_contents s) sid key with
     | Some v => Ok (ReplyValue {| vr_value := Some (into_val v);
                                   vr_version := Some (version_of (sh_contents s) sid);
                                   vr_key := key |})
     | None => Err (NText "entry not found")
     end, s).
Proof using All.
  intros Hinv Hp Hk. pose proof (entry_identity_normal _ _ _ Hp) as Hi.
  pose proof (proj2 (normalized_fits _ _ Hk)) as Hkk.
  unfold Net.handle_get. rewrite Hp. unfold Net.handle_entry_query, Net.str_id, Net.normalized. rewrite Hk.
  rewrite bind_ret. unfold bind at 1. cbn [lift_res res_map_err].
  rewrite (bind_ok _ _ _ _ _ (read_value_ok _ s Hinv)). unfold entry_of.
  change (rk (KEntry sid key)) with (build_entry_key sid key).
  destruct (bt_get (build_entry_key sid key) (sh_contents s)) as [b|] eqn:E; [|done]. simpl.
  apply (store_ok_get (KEntry sid key)) in E as [v Hv]; [|by apply shard_wf, Hinv|apply Hinv|done].
  rewrite Hv. rewrite (bind_ok _ _ _ _ _ (net_metadata_ok sid s Hinv Hi)).
  unfold version_of, meta_or_new. by destruct (meta_of (sh_contents s) sid).
Qed.

(** The stages of a batch on the stored map. *)
Definition stage (d0 d : store) sid f m ev : Prop :=
  bt_wf d ∧ store_ok d ∧ obj_update d0 d sid f m ev.

(** The entries after writing values in order. *)
Definition written (values : list (bytes * ObjectVal)) (f : bytes → option ObjectVal) :=
  foldl (λ f kv k, if decide (k = kv.1) then Some kv.2 else f k) f values.

Lemma write_ops_ok sid values s :
  obj_ok sid → Forall key_ok values.*1 →
  ∃ ops, Net.write_ops sid values s = (Ok ops, s) ∧ length ops = length values ∧
  ∀ d0 d f m ev, stage d0 d sid f m ev →
  ∃ d', ops_effect ops d = Some d' ∧ stage d0 d' sid (written values f) m ev.
Proof using All.
  intros Hi. induction values as [|[key v] values IH]; intros Hk.
  { exists []. split; [done|]. split; [done|]. eauto. }
  apply Forall_cons in Hk as [Hk1 Hk2]. destruct (IH Hk2) as (ops & E & Hl & Heff).
  destruct (codec_roundtrip v) as (b & Eb & Hb).
  eexists. split; [|split].
  - cbn [Net.write_ops]. rewrite Eb. unfold bind. simpl. by rewrite E.
  - simpl. by rewrite Hl.
  - intros d0 d f m ev (Hw & Hd & U). simpl. apply Heff. split_and!.
    + by apply bt_insert_wf.
    + apply store_ok_insert; [|done]. by apply (rec_entry sid key b v).
    + by apply (obj_update_then_entry d0 d sid f m ev key b v).
Qed.

Lemma delete_ops_ok sid keys d0 d f m ev :
  obj_ok sid → Forall key_ok keys → stage d0 d sid f m ev →
  ∃ d', ops_effect ((λ key, Delete (build_entry_key sid key)) <$> keys) d = Some d' ∧
        stage d0 d' sid (without keys f) m ev.
Proof using All.
  intros Hi Hk. revert d f. induction Hk as [|key keys Hk1 Hk2 IH]; intros d f (Hw & Hd & U).
  { exists d. split; [done|]. by split_and!. }
  simpl. destruct (IH (bt_remove (build_entry_key sid key) d)
    (λ k, if decide (k = key) then None else f k)) as (d' & E & Hw' & Hd' & U').
  { split_and!; [by apply bt_remove_wf|by apply store_ok_remove|].
    by apply (obj_update_then_remove d0 d sid f m ev key). }
  exists d'. split; [done|]. split_and!; [done..|].
  eapply obj_update_ext; [|exact U']. intros k _. rewrite without_cons. unfold without.
  by repeat case_decide.
Qed.

Lemma bumped_wf n m : ObjectMeta.wf m → ObjectMeta.wf (Nat.iter n ObjectMeta.increment_version m).
Proof using Type. intros Hm. induction n; simpl; [done|]. by apply increment_version_wf. Qed.

Lemma net_write_ok os d s :
  sh_ok s → ops_effect os (sh_contents s) = Some d →
  ∃ r, sto_inv r ∧ contents r = d ∧ Net.replicate_write_operation (Batch os) s = (Ok tt, set_rep r s).
Proof using All.
  intros Hs Hd. destruct (law_write_batch os (sh_now s) (sm_id (sh_meta s)) (sh_rep s) d Hs Hd)
    as (r & E & Hr & Hc).
  exists r. split; [done|]. split; [done|]. unfold Net.replicate_write_operation, bind, map_err, zoom.
  by rewrite E.
Qed.

Lemma bumps_0 values keys : Net.bumps values keys = 0 ↔ values = [] ∧ keys = [].
Proof using Type. unfold Net.bumps. repeat case_decide; naive_solver. Qed.

Lemma mutate_ok sid values keys expected s :
  shard_inv s → obj_ok sid → Forall key_ok values.*1 → Forall key_ok keys →
  let d := sh_contents s in
  let n := Net.bumps values keys in
  if decide (n = 0 ∨ expected = None ∨ expected = Some (version_of d sid)) then
    ∃ s', Net.mutate sid values keys expected s = (Ok ReplyEmpty, s') ∧ shard_inv s' ∧
    sh_dispatcher s' = sh_dispatcher s ∧
    obj_update d (sh_contents s') sid (without keys (written values (entry_of d sid)))
      (if decide (n = 0) then meta_of d sid
       else Some (Nat.iter n ObjectMeta.increment_version (meta_or_new d sid))) (event_of d sid)
  else ∃ e, expected = Some e ∧
    Net.mutate sid values keys expected s
    = (Err (NShard "version mismatch" (VersionMismatch e (version_of d sid))), s).
Proof using All.
  intros Hinv Hi Hv Hk d n. pose proof Hinv as [Hs Hd].
  unfold Net.mutate. rewrite (bind_ok _ _ _ _ _ (net_metadata_ok sid s Hinv Hi)). fold d.
  fold (meta_or_new d sid). fold (version_of d sid).
  set (mutated := bool_decide (values ≠ []) || bool_decide (keys ≠ [])).
  assert (Hmut : mutated = negb (n =? 0)).
  { unfold mutated, n, Net.bumps. by destruct values, keys. }
  destruct (write_ops_ok sid values s Hi Hv) as (ops & E & Hl & Heff).
  case_decide as Hexp.
  - match goal with |- context [bind (match expected with Some _ => _ | None => _ end) ?k s] =>
      assert (bind (match expected with
        | Some e => if mutated && negb (version_of d sid =? e)%Z
                    then throw (NShard "version mismatch" (VersionMismatch e (version_of d sid)))
                    else ret tt
        | None => ret tt end) k s = k tt s) as -> end.
    { destruct expected as [e|]; [|done]. rewrite Hmut. destruct Hexp as [->|[|[= ->]]]; [done|done|].
      by rewrite Z.eqb_refl, andb_false_r. }
    rewrite (bind_ok _ _ _ _ _ E).
    destruct (Heff d d (entry_of d sid) (meta_of d sid) (event_of d sid)) as (d1 & E1 & St1).
    { split_and!; [by apply shard_wf|done|apply obj_update_refl]. }
    destruct (delete_ops_ok sid keys _ _ _ _ _ Hi Hk St1) as (d2 & E2 & Hw2 & Hd2 & U2).
    rewrite Hmut. destruct (Nat.eqb_spec n 0) as [Hn|Hn]; cbn [negb].
    + apply bumps_0 in Hn as Hnil. destruct Hnil as [-> ->]. apply nil_length_inv in Hl as ->.
      exists s. split; [done|]. split; [done|]. split; [done|]. apply obj_update_refl.
    + set (m' := Nat.iter n _ _).
      assert (ObjectMeta.wf m') as Hm'.
      { apply bumped_wf, meta_or_new_wf; [by apply shard_wf|done..]. }
      destruct (net_write_ok (ops ++ ((λ key, Delete (build_entry_key sid key)) <$> keys) ++
        [write_op (build_metadata_key sid) (ObjectMeta.to_bytes m')])
        (bt_insert (rk (KMeta sid)) (ObjectMeta.to_bytes m') d2) s Hs) as (r & Hr & Hc & Er).
      { rewrite ops_effect_app. fold d. rewrite E1, ops_effect_app, E2. done. }
      exists (set_rep r s). split; [|split; [|split; [done|]]].
      * rewrite bool_decide_false by (by intros [_ [_ ?]%app_nil]%app_nil).
        by rewrite (bind_ok _ _ _ _ _ Er).
      * split; [done|]. unfold sh_contents. simpl. rewrite Hc. apply store_ok_insert; [|done].
        by apply (rec_meta sid).
      * unfold sh_contents at 1. simpl. rewrite Hc, decide_False by done.
        by eapply obj_update_then_meta.
  - destruct expected as [e|]; [|naive_solver]. exists e. split; [done|].
    rewrite Hmut, (proj2 (Nat.eqb_neq n 0)), (proj2 (Z.eqb_neq _ _)) by naive_solver. done.
Qed.

Lemma set_entries_fit values s l s' :
  Net.set_entries max_len values s = (Ok l, s') → s' = s ∧ Forall key_ok l.*1.
Proof using All.
  revert l s'. induction values as [|[raw v] values IH]; intros l s'.
  { intros [= <- <-]. split; [done|constructor]. }
  cbn [Net.set_entries]. unfold Net.normalized, bind, lift_res.
  destruct (normalize_entry_key raw max_len) as [k| |] eqn:Ek; simpl; [|done..].
  destruct (Net.set_entries max_len values s) as [[l'| |] s1] eqn:E; [|done..].
  destruct (IH _ _ eq_refl) as [-> Hl]. intros [= <- <-]. split; [done|].
  constructor; [by apply (normalized_fits raw)|done].
Qed.

Lemma delete_keys_fit raws s l s' :
  Net.delete_keys max_len raws s = (Ok l, s') → s' = s ∧ Forall key_ok l.
Proof using All.
  revert l s'. induction raws as [|raw raws IH]; intros l s'.
  { intros [= <- <-]. split; [done|constructor]. }
  cbn [Net.delete_keys]. unfold Net.normalized, bind, lift_res.
  destruct (normalize_entry_key raw max_len) as [k| |] eqn:Ek; simpl; [|done..].
  destruct (Net.delete_keys max_len raws s) as [[l'| |] s1] eqn:E; [|done..].
  destruct (IH _ _ eq_refl) as [-> Hl]. intros [= <- <-]. split; [done|].
  constructor; [by apply (normalized_fits raw)|done].
Qed.

End handlers.

(** ** Examples *)

Import Demo.

Module DemoNetwork.
Definition query (expr : string) (p : option bytes) : Query :=
  {| key_expr := bs expr; parameters := λ _, None; payload := p |}.

(** Decoders that take any payload for the same message. *)
Definition dec (b : BatchSetValuesRequest) : Decoders :=
  {| decode_object := λ _, Some {| od_entries := [(bs "k", DemoService.byte_val "1")]; od_event := None |};
     decode_batch := λ _, Some b; decode_list := λ _, None |}.

Lemma addresses_parse_witness :
  Path.parse_entry_request (bs "oprc/cls/0/objects/User-1/entries/name") 160
  = Some (Str (bs "user-1"), bs "name").
Proof.
  destruct (addresses_parse 160 [bs "oprc"; bs "cls"; bs "0"]
    ltac:(repeat (apply Forall_cons_2; [split; [decide_now|done]|]); apply Forall_nil_2)
    (bs "User-1") (bs "user-1") (bs "name") ltac:(split; [decide_now|done])
    ltac:(split; [decide_now|done]) ltac:(vm_compute; reflexivity) ltac:(vm_compute; reflexivity)
    ltac:(decide_now) ltac:(done)) as (_ & _ & _ & E & _).
  exact E.
Defined.

Lemma entry_query_correct_witness :
  (Net.handle_get 20 160 true (query "oprc/cls/0/objects/o/entries/B" None) demo3).1
  = Ok (ReplyValue {| vr_value := Some (DemoService.byte_val "2"); vr_version := Some 3%Z;
                      vr_key := bs "b" |}).
Proof.
  rewrite (entry_query_correct 20 (dec (DemoService.batch None)) 160 true ltac:(done)
    (query "oprc/cls/0/objects/o/entries/B" None) (bs "o") (bs "B") (bs "b") demo3 demo3_inv
    ltac:(vm_compute; reflexivity) ltac:(vm_compute; reflexivity)).
  vm_compute. reflexivity.
Defined.


Definition on_shard (m : M (Shard MemoryStorage) Empty_set unit) (s : Shard MemoryStorage) :=
  (m s).2.
Definition put_sample (expr : string) : Shard MemoryStorage → Shard MemoryStorage :=
  on_shard (Net.handle_sample 20 (dec (DemoService.batch None)) 160 true 0 (SamplePut (bs expr) [])).
Definition delete_sample (expr : string) : Shard MemoryStorage → Shard MemoryStorage :=
  on_shard (Net.handle_sample 20 (dec (DemoService.batch None)) 160 true 0 (SampleDelete (bs expr))).

(** An object whose identifier is a number can be put but not deleted over the network: the
    deletion goes to the key of a whole-object record, which no object has any more. *)
Theorem numeric_object_undeletable :
  ∃ o, (Net.handle_get 20 160 true (query "oprc/cls/0/objects/42" None)
          (delete_sample "oprc/cls/0/objects/42" (put_sample "oprc/cls/0/objects/42" demo3))).1
       = Ok (ReplyObject o) ∧ or_object_id o = bs "42".
Proof. eexists. split; [vm_compute; reflexivity|reflexivity]. Qed.

(** That key can be a record of another object: deleting this number removes the metadata of the
    object [abcdef], whose version starts again from 0. *)
Theorem numeric_delete_hits_metadata :
  let s := put_sample "oprc/cls/0/objects/abcdef" demo3 in
  let s' := delete_sample "oprc/cls/0/objects/7017280452245716992" s in
  version_of (sh_contents s) (bs "abcdef") = 1%Z ∧ version_of (sh_contents s') (bs "abcdef") = 0%Z.
Proof. split; by vm_compute. Qed.

(** Objects named like a word of the key expressions cannot be addressed, and numbers lose their
    leading zeros: [007] and [7] are the same object here but not in the data service. *)
Theorem unaddressable_names :
  Path.extract_identity_from_expr (bs "oprc/cls/0/objects/objects") 160 = None ∧
  Path.extract_identity_from_expr (bs "oprc/cls/0/objects/set") 160 = None ∧
  (Path.object_name <$> Path.extract_identity_from_expr (bs "oprc/cls/0/objects/007") 160)
  = Some (bs "7") ∧
  normalize_object_id (bs "007") 160 = Ok (bs "007").
Proof. by vm_compute. Qed.
End DemoNetwork.
