(* ===== verification/AnyStorage.v ===== *)
(** * The storage of a shard, chosen at run time

    [commons/oprc-dp-storage/src/any_storage.rs] with [open_any] of [config.rs], and
    [open_storage_from_options] of [odgm/shard/builder.rs]: one type over the in-memory,
    skip-list and fjall backends. Most of its operations are those of the backend inside;
    snapshots, pages, compare-and-swap and counters are its own. *)

From stdpp Require Import base tactics list numbers option gmap sorting strings.
From S2P Require Import Prelude BTree Backend Memory MemoryTx SkipList Fjall StorageKey GranularKey Replication RaftSnapshot RaftSM Events ObjectData Shard EntryStore ObjectView EntryOps.

Set Default Proof Using "Type".
Local Open Scope prog_scope.

(** [StorageBackendType] and the fields of [StorageConfig] that opening reads. *)
Inductive StorageBackendType : Type := TMemory | TSkipList | TRedb | TFjall | TRocksDb.

Record StorageConfig := {
  backend_type : StorageBackendType;
  path : option bytes;
  cache_size_mb : option Z;
}.

Definition display_type (t : StorageBackendType) : string :=
  match t with
  | TMemory => "memory" | TSkipList => "skiplist" | TRedb => "redb" | TFjall => "fjall"
  | TRocksDb => "rocksdb"
  end.

Module Config.
Definition default : StorageConfig :=
  {| backend_type := TMemory; path := None; cache_size_mb := None |}.
Definition memory : StorageConfig := default.
Definition skiplist : StorageConfig :=
  {| backend_type := TSkipList; path := None; cache_size_mb := None |}.
Definition on_disk (t : StorageBackendType) (p : bytes) : StorageConfig :=
  {| backend_type := t; path := Some p; cache_size_mb := None |}.
Definition redb : bytes → StorageConfig := on_disk TRedb.
Definition fjall : bytes → StorageConfig := on_disk TFjall.
Definition rocksdb : bytes → StorageConfig := on_disk TRocksDb.

Definition validate (c : StorageConfig) : res string unit :=
  match backend_type c, path c with
  | (TRedb | TFjall | TRocksDb) as t, None =>
      Err ("Path is required for " +:+ display_type t +:+ " backend")
  | _, _ => Ok tt
  end.
End Config.

(** [trim_end_matches('/')]. *)
Fixpoint trim_start_slashes (l : bytes) : bytes :=
  match l with
  | [] => []
  | b :: l' => if bool_decide (b = Byte.x2f) then trim_start_slashes l' else l
  end.
Definition trim_end_slashes (s : bytes) : bytes := reverse (trim_start_slashes (reverse s)).

Section any.
Context {T K : Type}.

Inductive AnyStorage : Type :=
| AMemory (s : MemoryStorage)
| ASkipList (s : SkipListStorage T)
| AFjall (s : FjallStorage K).

(** The transactions, each with the map it shares with its backend. *)
Inductive AnyBorrowedTransaction : Type :=
| XMemory (t : Tx.MemoryTransaction)
| XSkipList (t : SkipListStorage T)
| XFjall (t : FjallTransaction K).
End any.
Arguments AnyStorage : clear implicits.
Arguments AnyBorrowedTransaction : clear implicits.

Module AnyS.
Section ops.
Context `{SkipMap T} `{Keyspace K}.
Notation storage := (AnyStorage T K).

Definition op (A : Type) : Type := M storage StorageError A.

(** [AnyStorage::open], with the features the data grid is built with. *)
Definition open (checks : bool) (config : StorageConfig) : res StorageError storage :=
  match backend_type config with
  | TMemory | TSkipList => Ok (ASkipList SkipList.new)
  | TFjall => res_bind (Fjall.new checks (path config) (cache_size_mb config)) (λ s, Ok (AFjall s))
  | TRedb | TRocksDb => Err (Configuration "Only memory/skiplist backends supported in PoC")
  end.

(** The match of every method. *)
Definition on {A} (m : M MemoryStorage StorageError A) (l : M (SkipListStorage T) StorageError A)
    (f : M (FjallStorage K) StorageError A) : op A := λ s,
  match s with
  | AMemory s => let '(r, s) := m s in (r, AMemory s)
  | ASkipList s => let '(r, s) := l s in (r, ASkipList s)
  | AFjall s => let '(r, s) := f s in (r, AFjall s)
  end.

Definition get (k : bytes) : op (option bytes) := on (Memory.get k) (SkipList.get k) (Fjall.get k).
Definition put (k v : bytes) : op bool := on (Memory.put k v) (SkipList.put k v) (Fjall.put k v).
Definition put_with_return (k v : bytes) : op (option bytes) :=
  on (Memory.put_with_return k v) (SkipList.put_with_return k v) (Fjall.put_with_return k v).
Definition delete (k : bytes) : op unit :=
  on (Memory.delete k) (SkipList.delete k) (Fjall.delete k).
Definition delete_range (lo hi : Bound bytes) : op Z :=
  on (Memory.delete_range lo hi) (SkipList.delete_range lo hi) (Fjall.delete_range lo hi).
Definition exists_ (k : bytes) : op bool :=
  on (Memory.exists_ k) (SkipList.exists_ k) (Fjall.exists_ k).
Definition scan (p : bytes) : op store := on (Memory.scan p) (SkipList.scan p) (Fjall.scan p).
Definition scan_range (lo hi : Bound bytes) : op store :=
  on (Memory.scan_range lo hi) (SkipList.scan_range lo hi) (Fjall.scan_range lo hi).
Definition scan_range_reverse (lo hi : Bound bytes) : op store :=
  on (Memory.scan_range_reverse lo hi) (SkipList.scan_range_reverse lo hi)
    (Fjall.scan_range_reverse lo hi).
Definition get_last : op (option (bytes * bytes)) :=
  on Memory.get_last SkipList.get_last Fjall.get_last.
Definition get_first : op (option (bytes * bytes)) :=
  on Memory.get_first SkipList.get_first Fjall.get_first.
Definition count : op Z := on Memory.count SkipList.count Fjall.count.
Definition flush : op unit := on Memory.flush SkipList.flush Fjall.flush.
Definition compact : op unit := on Memory.compact SkipList.compact Fjall.compact.
Definition close : op unit := on Memory.close SkipList.close Fjall.close.

(** The skip list reports the type of the in-memory backend. *)
Definition backend_type (s : storage) : StorageBackendType :=
  match s with AMemory _ | ASkipList _ => TMemory | AFjall _ => TFjall end.

(** ** Snapshots *)

Inductive AnySnapshotData : Type :=
| KvPairs (l : store)
| FjallSnapshot (d : ks_snap (T:=K)).

Record Snapshot := {
  sequence_number : Z;
  snapshot_data : AnySnapshotData;
  entry_count : Z;
  total_size_bytes : Z;
}.

Definition snap_err (what : string) (e : ks_error (T:=K)) : StorageError :=
  Backend ("Fjall snapshot " +:+ what +:+ " error: " +:+ ks_text e).

Definition sampled (what : string) (o : option (res (ks_error (T:=K)) (bytes * bytes))) :
    res StorageError Z :=
  match o with
  | None => Ok 0%Z
  | Some r => res_bind (res_map_err (snap_err what) r) (λ kv, Ok (pair_size kv))
  end.

(** A snapshot of the pairs for the two backends in memory, a native one for fjall. *)
Definition create_snapshot : op Snapshot := λ s,
  match s with
  | AMemory _ | ASkipList _ =>
      bind (scan_range Unbounded Unbounded) (λ all,
        let entry_count := Z.of_nat (length all) in
        ret {| sequence_number := entry_count; snapshot_data := KvPairs all;
               entry_count := entry_count; total_size_bytes := total_size all |}) s
  | AFjall f =>
      let data := ks_snapshot (fj_keyspace f) in
      (res_bind (res_map_err (snap_err "len") (snap_len data)) (λ n,
       res_bind (sampled "first_kv" (snap_first data)) (λ a,
       res_bind (sampled "last_kv" (snap_last data)) (λ b,
       let estimated_size := (a + b)%Z in
       Ok {| sequence_number := 0; snapshot_data := FjallSnapshot data;
             entry_count := Z.of_nat n;
             total_size_bytes :=
               if (0 <? estimated_size)%Z then (estimated_size / 2 * Z.of_nat n)%Z else 0%Z |}))), s)
  end.

(** [AnySnapshotStream::from_data]: what the stream yields. *)
Definition from_data (data : AnySnapshotData) : list (res StorageError (bytes * bytes)) :=
  match data with
  | KvPairs l => Ok <$> l
  | FjallSnapshot d => res_map_err (snap_err "iter") <$> snap_iter d
  end.

Definition create_kv_snapshot_stream (snap : Snapshot) : op (list (res StorageError (bytes * bytes))) :=
  ret (from_data (snapshot_data snap)).

Definition poll_next (items : list (res StorageError (bytes * bytes))) :
    option (res StorageError (bytes * bytes)) * list (res StorageError (bytes * bytes)) :=
  match items with
  | [] => (None, [])
  | item :: items => (Some item, items)
  end.

Definition install_item (item : res StorageError (bytes * bytes)) : op unit :=
  let! kv := lift_res item in let! _ := put kv.1 kv.2 in ret tt.

Definition install_kv_snapshot_from_stream (stream : list (res StorageError (bytes * bytes))) :
    op unit :=
  let! _ := delete_range Unbounded Unbounded in
  for_each install_item stream.

Definition restore_from_snapshot (snap : Snapshot) : op unit :=
  let! stream := create_kv_snapshot_stream snap in
  install_kv_snapshot_from_stream stream.

Definition latest_snapshot : op (option Snapshot) := let! x := create_snapshot in ret (Some x).

Definition estimate_snapshot_size (data : AnySnapshotData) : op Z :=
  match data with
  | KvPairs l => ret (total_size l)
  | FjallSnapshot d =>
      lift_res (res_bind (collect (res_map_err (snap_err "iter") <$> snap_iter d))
                  (λ l, Ok (total_size l)))
  end.

(** ** Data of the application *)

Definition scan_range_paginated (start stop : bytes) (limit : option nat) :
    op (store * option bytes) :=
  let! results := scan_range (Included start) (Excluded stop) in
  match limit with
  | Some limit =>
      if (limit <? length results)%nat
      then ret (take limit results, fst <$> results !! limit)
      else ret (results, None)
  | None => ret (results, None)
  end.

Fixpoint multi_get (keys : list bytes) : op (list (option bytes)) :=
  match keys with
  | [] => ret []
  | key :: keys => let! v := get key in let! vs := multi_get keys in ret (v :: vs)
  end.

Definition compare_and_swap (key : bytes) (expected new_value : option bytes) : op bool :=
  let! current := get key in
  if cas_matches current expected then
    match new_value with
    | Some v => let! _ := put key v in ret true
    | None => delete key ;;; ret true
    end
  else ret false.

(** The sum of [increment] is not checked: [checks] says whether the build panics on overflow
    or wraps. *)
Definition store_sum (checks : bool) (key : bytes) (sum : Z) : op Z :=
  if checks && negb ((- 2 ^ 63 <=? sum)%Z && (sum <? 2 ^ 63)%Z)
  then panic "attempt to add with overflow"
  else
    let value_bytes := le_bytes 8 (wrap64 sum) in
    let! _ := put key value_bytes in
    ret (Memory.i64_of value_bytes).

Definition increment (checks : bool) (key : bytes) (delta : Z) : op Z :=
  let! value := get key in
  match value with
  | Some v =>
      if bool_decide (length v = 8) then store_sum checks key (Memory.i64_of v + delta)
      else throw (Serialization "Value is not an i64")
  | None => store_sum checks key (0 + delta)
  end.

(** The time to live is ignored. *)
Definition put_with_ttl (key value : bytes) : op bool := put key value.

(** ** Transactions *)

Definition begin_transaction (s : storage) : res StorageError (AnyBorrowedTransaction T K) :=
  match s with
  | AMemory s => Ok (XMemory (Tx.new (data s)))
  | ASkipList s => Ok (XSkipList s)
  | AFjall s => Ok (XFjall (FjTx.new (fj_keyspace s)))
  end.

(** The backend once the transaction is gone: it holds the map they shared. *)
Definition release (t : AnyBorrowedTransaction T K) (s : storage) : storage :=
  match t, s with
  | XMemory t, AMemory s => AMemory (set_data (Tx.shared t) s)
  | XSkipList t, ASkipList s => ASkipList (SkipList.set_data (sk_data t) s)
  | XFjall t, AFjall s => AFjall (Fjall.set_keyspace (ft_keyspace t) s)
  | _, _ => s
  end.

Definition top (A : Type) : Type := M (AnyBorrowedTransaction T K) StorageError A.

Definition in_tx {A} (m : M Tx.MemoryTransaction StorageError A)
    (l : M (SkipListStorage T) StorageError A) (f : M (FjallTransaction K) StorageError A) : top A := λ t,
  match t with
  | XMemory t => let '(r, t) := m t in (r, XMemory t)
  | XSkipList t => let '(r, t) := l t in (r, XSkipList t)
  | XFjall t => let '(r, t) := f t in (r, XFjall t)
  end.

Definition tx_get (k : bytes) : top (option bytes) := in_tx (Tx.get k) (SkipList.tx_get k) (FjTx.get k).
Definition tx_put (k v : bytes) : top unit := in_tx (Tx.put k v) (SkipList.tx_put k v) (FjTx.put k v).
Definition tx_delete (k : bytes) : top unit :=
  in_tx (Tx.delete k) (SkipList.tx_delete k) (FjTx.delete k).
Definition tx_exists (k : bytes) : top bool :=
  in_tx (Tx.exists_ k) (SkipList.tx_exists k) (FjTx.exists_ k).
Definition tx_commit : top unit := in_tx Tx.commit SkipList.tx_commit FjTx.commit.
Definition tx_rollback : top unit := in_tx Tx.rollback SkipList.tx_rollback FjTx.rollback.

(** [AnyAppTransaction]. *)
Fixpoint tx_multi_get (keys : list bytes) : top (list (option bytes)) :=
  match keys with
  | [] => ret []
  | key :: keys => let! v := tx_get key in let! vs := tx_multi_get keys in ret (v :: vs)
  end.
Definition tx_scan_range (start stop : bytes) : top store :=
  throw (Backend "Transaction scan_range not supported in AnyStorage").
Definition tx_compare_and_swap (key : bytes) (expected new_value : option bytes) : top bool :=
  throw (Backend "Transaction CAS not supported in AnyStorage").

(** [open_storage_from_options] of the shard builder: every shard has a directory of its own. *)
Definition shard_path (options : gmap bytes bytes) (shard_id : Z) : bytes :=
  let base := default (bs "/data/odgm/default") (options !! bs "storage_path") in
  trim_end_slashes base ++ bs "/" ++ to_decimal 20 shard_id.

Definition open_storage_from_options (checks : bool) (options : gmap bytes bytes) (shard_id : Z) :
    res StorageError storage :=
  if bool_decide (options !! bs "storage_backend" = Some (bs "fjall"))
  then open checks (Config.fjall (shard_path options shard_id))
  else open checks Config.skiplist.
End ops.
End AnyS.

#[global] Instance any_storage `{SkipMap T} `{Keyspace K} : Storage (AnyStorage T K) := {|
  sto_get := AnyS.get;
  sto_put := AnyS.put;
  sto_put_with_return := AnyS.put_with_return;
  sto_delete := AnyS.delete;
  sto_delete_range := AnyS.delete_range;
  sto_exists := AnyS.exists_;
  sto_scan := AnyS.scan;
  sto_scan_range := AnyS.scan_range;
  sto_get_last := AnyS.get_last;
  sto_flush := AnyS.flush;
  sto_scan_range_paginated := AnyS.scan_range_paginated;
|}.

(** ** The contract *)

Section laws.
Context `{SkipMapLaws T} `{KeyspaceLaws K}.
Implicit Types (s : AnyStorage T K) (d : store).

Definition any_view s : store :=
  match s with
  | AMemory s => data s
  | ASkipList s => view (sk_data s)
  | AFjall s => fj_contents s
  end.

Definition any_ok s : Prop := match s with AMemory s => bt_wf (data s) | _ => True end.
Definition in_memory s : Prop := match s with AFjall _ => False | _ => True end.
Definition same_kind s s' : Prop :=
  match s, s' with
  | AMemory _, AMemory _ | ASkipList _, ASkipList _ | AFjall _, AFjall _ => True
  | _, _ => False
  end.

Lemma any_view_wf s : any_ok s → bt_wf (any_view s).
Proof. destruct s; simpl; [done|intros _; apply view_wf|intros _; apply fj_contents_wf]. Qed.

(** The call succeeds with [a], leaves the pairs [d], and the backend is the one it was. *)
Definition does {A} (m : M (AnyStorage T K) StorageError A) (a : A) d s : Prop :=
  ∃ s', m s = (Ok a, s') ∧ any_view s' = d ∧ any_ok s' ∧ same_kind s s'.

Lemma does_bind {A B} (m : M _ StorageError A) (k : A → M _ StorageError B) a b d d' s :
  does m a d s → (∀ s', any_view s' = d → any_ok s' → same_kind s s' → does (k a) b d' s') →
  does (bind m k) b d' s.
Proof.
  intros (s' & E & Hd & Hok & Hk) Hc. destruct (Hc s' Hd Hok Hk) as (s'' & E' & Hd' & Hok' & Hk').
  exists s''. rewrite (bind_ok _ _ _ _ _ E). split_and!; try done.
  by destruct s, s', s''.
Qed.

Lemma does_ret {A} (a : A) s : any_ok s → does (ret a) a (any_view s) s.
Proof. intros. exists s. split_and!; try done. by destruct s. Qed.

(** A read of each backend is one of the whole. *)
Lemma on_read {A} m l f (F : store → A) s :
  any_ok s →
  (∀ x : MemoryStorage, bt_wf (data x) → m x = (Ok (F (data x)), x)) →
  (∀ x : SkipListStorage T, l x = (Ok (F (view (sk_data x))), x)) →
  (∀ x : FjallStorage K, f x = (Ok (F (fj_contents x)), x)) →
  AnyS.on m l f s = (Ok (F (any_view s)), s).
Proof.
  intros Hok Hm Hl Hf. destruct s as [s|s|s]; simpl; [by rewrite Hm|by rewrite Hl|by rewrite Hf].
Qed.

(** So is a write; fjall may answer differently. *)
Lemma on_write {A} m l f (R Rf : store → A) (F : store → store) s :
  any_ok s →
  (∀ x : MemoryStorage, bt_wf (data x) →
     ∃ x', m x = (Ok (R (data x)), x') ∧ bt_wf (data x') ∧ data x' = F (data x)) →
  (∀ x : SkipListStorage T, ∃ x',
     l x = (Ok (R (view (sk_data x))), x') ∧ view (sk_data x') = F (view (sk_data x))) →
  (∀ x : FjallStorage K, writes f (Rf (fj_contents x)) (F (fj_contents x)) x) →
  does (AnyS.on m l f) ((match s with AFjall _ => Rf | _ => R end) (any_view s)) (F (any_view s)) s.
Proof.
  intros Hok Hm Hl Hf. destruct s as [s|s|s].
  - destruct (Hm s Hok) as (s' & E & Hw & Hd). exists (AMemory s'). simpl. by rewrite E.
  - destruct (Hl s) as (s' & E & Hd). exists (ASkipList s'). simpl. by rewrite E.
  - destruct (Hf s) as (s' & E & Hd). exists (AFjall s'). simpl. by rewrite E.
Qed.

Lemma mem_inv (x : MemoryStorage) : bt_wf (data x) → sto_inv x.
Proof. done. Qed.

Lemma any_get k s : any_ok s → AnyS.get k s = (Ok (bt_get k (any_view s)), s).
Proof.
  intros Hok. apply (on_read _ _ _ (bt_get k)); [done|done| |apply fj_get].
  intros x. unfold SkipList.get, gets. by rewrite view_get.
Qed.

Lemma any_exists k s : any_ok s → AnyS.exists_ k s = (Ok (bt_contains k (any_view s)), s).
Proof.
  intros Hok. apply (on_read _ _ _ (bt_contains k)); [done|done| |apply fj_exists].
  intros x. unfold SkipList.exists_, gets. by rewrite view_contains.
Qed.

(** [put] says whether it replaced a value, but on fjall whether it did not. *)
Definition put_answer s (k : bytes) : bool :=
  match s with
  | AFjall _ => negb (bt_contains k (any_view s))
  | _ => bt_contains k (any_view s)
  end.

Lemma any_put k v s : any_ok s →
  does (AnyS.put k v) (put_answer s k) (bt_insert k v (any_view s)) s.
Proof.
  intros Hok. replace (put_answer s k) with
    ((match s with AFjall _ => λ d, negb (bt_contains k d) | _ => bt_contains k end) (any_view s))
    by (by destruct s).
  apply (on_write _ _ _ _ _ (bt_insert k v)); [done| | |apply fj_put].
  - intros x Hx. destruct (law_put k v x (mem_inv x Hx)) as (x' & E & ? & ?). by exists x'.
  - intros x. eexists. split; [unfold SkipList.put; by rewrite view_get|apply view_insert].
Qed.

Lemma any_put_with_return k v s : any_ok s →
  does (AnyS.put_with_return k v) (bt_get k (any_view s)) (bt_insert k v (any_view s)) s.
Proof.
  intros Hok. replace (bt_get k (any_view s)) with
    ((match s with AFjall _ => bt_get k | _ => bt_get k end) (any_view s)) by (by destruct s).
  apply (on_write _ _ _ _ _ (bt_insert k v)); [done| | |apply fj_put_with_return].
  - intros x Hx. destruct (law_put_with_return k v x (mem_inv x Hx)) as (x' & E & ? & ?). by exists x'.
  - intros x. eexists. split; [unfold SkipList.put_with_return; by rewrite view_get|apply view_insert].
Qed.

Lemma bt_remove_absent k d : bt_wf d → bt_get k d = None → bt_remove k d = d.
Proof.
  intros Hwf Hk. apply bt_ext; [by apply bt_remove_wf|done|]. intros k'.
  destruct (decide (k = k')) as [<-|Hne]; [by rewrite bt_get_remove_eq|by rewrite bt_get_remove_ne].
Qed.

Lemma any_delete k s : any_ok s → does (AnyS.delete k) tt (bt_remove k (any_view s)) s.
Proof.
  intros Hok. replace tt with ((match s with AFjall _ => λ _, tt | _ => λ _, tt end) (any_view s))
    by (by destruct s).
  apply (on_write _ _ _ _ _ (bt_remove k)); [done| | |apply fj_delete].
  - intros x Hx. destruct (law_delete k x (mem_inv x Hx)) as (x' & E & ? & ?). by exists x'.
  - intros x. unfold SkipList.delete. rewrite view_get.
    destruct (bt_get k (view (sk_data x))) as [v|] eqn:E.
    + eexists. split; [done|]. apply view_remove.
    + exists x. split; [done|]. by rewrite bt_remove_absent by (done || apply view_wf).
Qed.

Lemma any_delete_range lo hi s : any_ok s → range_panics lo hi = false →
  does (AnyS.delete_range lo hi) (Z.of_nat (length (bt_in_range lo hi (any_view s))))
    (filter (λ kv, negb (in_bounds lo hi kv.1)) (any_view s)) s.
Proof.
  intros Hok Hp. set (R d := Z.of_nat (length (bt_in_range lo hi d))).
  change (Z.of_nat _) with (R (any_view s)).
  replace (R (any_view s)) with ((match s with AFjall _ => R | _ => R end) (any_view s))
    by (by destruct s).
  apply (on_write _ _ _ _ _ (filter (λ kv, negb (in_bounds lo hi kv.1)))); [done| | |].
  - intros x Hx. unfold Memory.delete_range. rewrite (bt_range_ok _ _ _ Hp). eexists.
    split; [done|]. case_bool_decide; simpl; rewrite remove_range by done; auto with oprc.
  - intros x. unfold SkipList.delete_range. rewrite view_range by done. eexists.
    split; [done|]. case_bool_decide; simpl; by rewrite view_removes, remove_range by apply view_wf.
  - intros x. by apply fj_delete_range.
Qed.

Lemma any_scan_range lo hi s : any_ok s → range_panics lo hi = false →
  AnyS.scan_range lo hi s = (Ok (bt_in_range lo hi (any_view s)), s).
Proof.
  intros Hok Hp. apply (on_read _ _ _ (bt_in_range lo hi)); [done| | |intros; by apply fj_range].
  - intros x _. unfold Memory.scan_range. by rewrite bt_range_ok.
  - intros x. unfold SkipList.scan_range, gets. by rewrite view_range.
Qed.

Lemma any_last s : any_ok s → AnyS.get_last s = (Ok (bt_last (any_view s)), s).
Proof.
  intros Hok. apply (on_read _ _ _ bt_last); [done|done| |apply fj_last].
  intros x. unfold SkipList.get_last, gets. by rewrite view_back.
Qed.

Lemma any_scan_all s : any_ok s → AnyS.scan [] s = (Ok (any_view s), s).
Proof.
  intros Hok. apply (on_read _ _ _ (λ d, d)); [done| | |].
  - intros x Hx. exact (law_scan_all x (mem_inv x Hx)).
  - intros x. unfold SkipList.scan, gets. rewrite view_range by done. simpl. by rewrite in_range_all.
  - intros x. apply items_ok. rewrite ks_prefix_ok, filter_Forall by (by apply Forall_true). done.
Qed.

Lemma any_page start stop limit s : any_ok s → leb start stop = true →
  AnyS.scan_range_paginated start stop limit s =
  (Ok (first_page limit (bt_in_range (Included start) (Excluded stop) (any_view s))), s).
Proof.
  intros Hok Hle. unfold AnyS.scan_range_paginated.
  erewrite bind_ok by (apply any_scan_range; [done|]; simpl; by rewrite leb_ltb, negb_true_iff in Hle).
  destruct limit as [n|]; [|done]. simpl. destruct (Nat.ltb_spec n (length (bt_in_range (Included start) (Excluded stop) (any_view s)))); [done|].
  by rewrite take_ge, lookup_ge_None_2 by done.
Qed.

(** The two backends in memory keep the contract of the storage interface, so that all that is
    proved of shards holds of them. *)
#[global] Program Instance any_laws : StorageLaws (AnyStorage T K) := {|
  contents := any_view;
  sto_inv s := any_ok s ∧ in_memory s;
|}.
Next Obligation. intros s []. by apply any_view_wf. Qed.
Next Obligation. intros k s []. by apply any_get. Qed.
Next Obligation. intros k s []. by apply any_exists. Qed.
Next Obligation.
  intros k v s [Hok Hm]. destruct (any_put k v s Hok) as (s' & E & Hv & Hok' & Hk).
  exists s'. simpl. rewrite E. by destruct s, s'.
Qed.
Next Obligation.
  intros k v s [Hok Hm]. destruct (any_put_with_return k v s Hok) as (s' & E & Hv & Hok' & Hk).
  exists s'. simpl. rewrite E. by destruct s, s'.
Qed.
Next Obligation.
  intros k s [Hok Hm]. destruct (any_delete k s Hok) as (s' & E & Hv & Hok' & Hk).
  exists s'. simpl. rewrite E. by destruct s, s'.
Qed.
Next Obligation.
  intros lo hi s [Hok Hm] Hp. destruct (any_delete_range lo hi s Hok Hp) as (s' & E & Hv & Hok' & Hk).
  eexists _, s'. simpl. rewrite E. by destruct s, s'.
Qed.
Next Obligation. intros s []. by apply any_scan_all. Qed.
Next Obligation. intros lo hi s [] Hp. by apply any_scan_range. Qed.
Next Obligation. intros s []. by apply any_last. Qed.
Next Obligation. intros [] []; done. Qed.
Next Obligation. intros start stop limit s [] Hle. by apply any_page. Qed.

(** ** Opening *)

Lemma to_decimal_inj fuel a b :
  (0 ≤ a < 10 ^ Z.of_nat fuel)%Z → (0 ≤ b < 10 ^ Z.of_nat fuel)%Z →
  to_decimal fuel a = to_decimal fuel b → a = b.
Proof.
  revert a b. induction fuel as [|fuel IH]; intros a b Ha Hb; [simpl in *; lia|].
  cbn [to_decimal]. intros [Hl Hd]%app_inj_2; [|done]. injection Hd as Hd.
  pose proof (Z.mod_pos_bound a 10 ltac:(lia)). pose proof (Z.mod_pos_bound b 10 ltac:(lia)).
  apply (f_equal bz) in Hd. rewrite !digit_bz in Hd by lia.
  pose proof (Z.div_mod a 10 ltac:(lia)). pose proof (Z.div_mod b 10 ltac:(lia)).
  rewrite Nat2Z.inj_succ, Z.pow_succ_r in Ha, Hb by lia.
  assert (∀ n, (0 ≤ n < 10 * 10 ^ Z.of_nat fuel)%Z → (0 ≤ n / 10 < 10 ^ Z.of_nat fuel)%Z) as Hdiv.
  { intros n Hn. split; [apply Z.div_pos; lia|apply Z.div_lt_upper_bound; lia]. }
  assert (∀ n, (10 ≤ n < 10 * 10 ^ Z.of_nat fuel)%Z → to_decimal fuel (n / 10) ≠ []) as Hne.
  { intros n Hn. destruct fuel; [simpl in Hn; lia|]. cbn [to_decimal]. by intros []%app_nil. }
  destruct (Z.ltb_spec a 10), (Z.ltb_spec b 10).
  - rewrite !Z.mod_small in * by lia. lia.
  - symmetry in Hl. by apply Hne in Hl; [|lia].
  - by apply Hne in Hl; [|lia].
  - apply IH in Hl; [|by apply Hdiv; lia..]. lia.
Qed.

(** What a shard is given: without a request for fjall an empty storage in memory that keeps the
    contract; with one, a directory no other shard of the node is given. *)
Theorem shard_storage (checks : bool) (options : gmap bytes bytes) id :
  (0 ≤ id ≤ u64_max)%Z →
  if decide (options !! bs "storage_backend" = Some (bs "fjall"))
  then AnyS.open_storage_from_options (T:=T) (K:=K) checks options id
       = res_bind (Fjall.new checks (Some (AnyS.shard_path options id)) None) (λ x, Ok (AFjall x)) ∧
       ∀ id', (0 ≤ id' ≤ u64_max)%Z → AnyS.shard_path options id' = AnyS.shard_path options id →
              id' = id
  else ∃ s : AnyStorage T K, AnyS.open_storage_from_options checks options id = Ok s ∧
       sto_inv s ∧ contents s = [].
Proof.
  intros Hid. unfold AnyS.open_storage_from_options. case_decide as Hf.
  - rewrite bool_decide_eq_true_2 by done. split; [done|]. intros id' Hid' Hp.
    unfold AnyS.shard_path in Hp. apply app_inv_head, app_inv_head in Hp.
    apply to_decimal_inj in Hp; [done|..]; unfold u64_max in *; simpl; lia.
  - rewrite bool_decide_eq_false_2 by done. eexists. split; [done|]. split; [done|]. apply view_new.
Qed.

(** ** Snapshots *)

Lemma none_left d : filter (λ kv : bytes * bytes, negb (in_bounds Unbounded Unbounded kv.1)) d = [].
Proof. apply filter_none, Forall_true. by intros ? []. Qed.

Lemma any_installs (l : store) s : any_ok s →
  does (for_each AnyS.install_item (Ok <$> l)) tt
    (foldl (λ d kv, bt_insert kv.1 kv.2 d) (any_view s) l) s.
Proof.
  revert s. induction l as [|kv l IH]; intros s Hok; csimpl; [by apply does_ret|].
  eapply (does_bind _ _ tt _ (bt_insert kv.1 kv.2 (any_view s))); [|intros s' <- Hok' _; by apply IH].
  unfold AnyS.install_item. eapply does_bind; [by apply does_ret|]. intros s1 E1 Hok1 _.
  eapply does_bind; [by apply any_put|]. intros s2 E2 Hok2 _. rewrite <- E1, <- E2.
  by apply does_ret.
Qed.

Lemma any_install (l : store) s : any_ok s → bt_wf l →
  does (AnyS.install_kv_snapshot_from_stream (Ok <$> l)) tt l s.
Proof.
  intros Hok Hl. eapply does_bind; [by apply any_delete_range|]. intros s' Hv Hok' _.
  rewrite none_left in Hv. rewrite <- (rebuild_id l Hl) at 2. rewrite <- Hv. by apply any_installs.
Qed.

Lemma any_snapshot s : any_ok s → ∃ snap, AnyS.create_snapshot s = (Ok snap, s) ∧
  AnyS.from_data (AnyS.snapshot_data snap) = Ok <$> any_view s ∧
  AnyS.entry_count snap = Z.of_nat (length (any_view s)).
Proof.
  intros Hok. assert (Hall : bt_in_range Unbounded Unbounded (any_view s) = any_view s).
  { by apply filter_Forall, Forall_true. }
  destruct s as [s|s|s]; cbn [AnyS.create_snapshot].
  1,2: erewrite bind_ok by (by apply any_scan_range); eexists; split; [done|]; simpl in *;
    by rewrite Hall.
  rewrite snap_len_ok, snap_first_ok, snap_last_ok. cbn [res_map_err res_bind].
  assert (Hs : AnyS.from_data (AnyS.FjallSnapshot (ks_snapshot (fj_keyspace s)))
               = Ok <$> fj_contents s).
  { simpl. rewrite snap_iter_ok, <- list_fmap_compose. done. }
  destruct (bt_first (ks_view (fj_keyspace s))), (bt_last (ks_view (fj_keyspace s)));
    eexists; (split; [reflexivity|]); by split.
Qed.

(** A snapshot of a storage of any kind, streamed into a storage of any kind, makes its pairs
    those of the first. *)
Theorem any_snapshot_transfer s t : any_ok s → any_ok t →
  ∃ snap, AnyS.create_snapshot s = (Ok snap, s) ∧
    AnyS.entry_count snap = Z.of_nat (length (any_view s)) ∧
    does (AnyS.restore_from_snapshot snap) tt (any_view s) t.
Proof.
  intros Hs Ht. destruct (any_snapshot s Hs) as (snap & E & Hd & Hc). exists snap.
  split; [done|]. split; [done|]. eapply does_bind; [by apply does_ret|].
  intros t' _ Ht' _. rewrite Hd. apply any_install; [done|by apply any_view_wf].
Qed.

(** ** Compare-and-swap and counters *)

Lemma cas_matches_spec c e : cas_matches c e = true ↔ c = e.
Proof.
  destruct c, e; simpl; rewrite ?bool_decide_eq_true; naive_solver.
Qed.

(** The value is replaced or removed exactly when it is the expected one. *)
Theorem any_compare_and_swap key expected new s : any_ok s →
  if decide (bt_get key (any_view s) = expected)
  then does (AnyS.compare_and_swap key expected new) true
         (match new with
          | Some v => bt_insert key v (any_view s)
          | None => bt_remove key (any_view s)
          end) s
  else AnyS.compare_and_swap key expected new s = (Ok false, s).
Proof.
  intros Hok. unfold AnyS.compare_and_swap. case_decide as Hc.
  - eapply does_bind; [eexists; rewrite any_get by done; split_and!; try done; by destruct s|].
    intros s1 E1 Hok1 _. rewrite (proj2 (cas_matches_spec _ _) Hc), <- E1.
    destruct new as [v|]; (eapply does_bind; [by apply any_put || by apply any_delete|]);
      intros s2 E2 Hok2 _; rewrite <- E2; by apply does_ret.
  - rewrite (bind_ok _ _ _ _ _ (any_get key s Hok)).
    destruct (cas_matches _ expected) eqn:E; [|done]. by apply cas_matches_spec in E.
Qed.

(** What a counter holds, if it is one. *)
Definition counter d (key : bytes) : option Z :=
  match bt_get key d with
  | None => Some 0%Z
  | Some v => if bool_decide (length v = 8) then Some (Memory.i64_of v) else None
  end.

Definition is_i64 (z : Z) : Prop := (- 2 ^ 63 ≤ z < 2 ^ 63)%Z.
#[local] Instance is_i64_dec z : Decision (is_i64 z).
Proof. unfold is_i64. apply _. Defined.

(** Wrapping to the range of [i64]. *)
Definition wrap_i64 (z : Z) : Z := ((z + 2 ^ 63) mod 2 ^ 64 - 2 ^ 63)%Z.

Lemma i64_of_bytes z : Memory.i64_of (le_bytes 8 (wrap64 z)) = wrap_i64 z.
Proof.
  unfold Memory.i64_of, wrap_i64. pose proof (wrap64_range z) as Hr. unfold is_u64, u64_max in Hr.
  rewrite le_val_bytes_small by (simpl; lia). unfold wrap64 in *.
  pose proof (Z.div_mod z (2 ^ 64) ltac:(lia)) as Hz.
  destruct (Z.ltb_spec (z mod 2 ^ 64) (2 ^ 63)).
  - rewrite <- (Z.mod_unique (z + 2 ^ 63) (2 ^ 64) (z / 2 ^ 64) (z mod 2 ^ 64 + 2 ^ 63)); lia.
  - rewrite <- (Z.mod_unique (z + 2 ^ 63) (2 ^ 64) (z / 2 ^ 64 + 1) (z mod 2 ^ 64 - 2 ^ 63)); lia.
Qed.

Lemma wrap_i64_small z : is_i64 z → wrap_i64 z = z.
Proof. unfold is_i64, wrap_i64. intros. rewrite Z.mod_small; lia. Qed.

Lemma counter_insert key z d :
  counter (bt_insert key (le_bytes 8 (wrap64 z)) d) key = Some (wrap_i64 z).
Proof.
  unfold counter. rewrite bt_get_insert_eq, bool_decide_eq_true_2 by apply le_bytes_length.
  by rewrite i64_of_bytes.
Qed.

(** A sum is returned and stored and no other key changes; one outside the range of [i64] stops
    a build that checks for overflow and wraps around in one that does not. *)
Definition adds (checks : bool) (m : M (AnyStorage T K) StorageError Z) key z s : Prop :=
  if checks && bool_decide (¬ is_i64 z) then m s = (Panic "attempt to add with overflow", s)
  else ∃ d, does m (wrap_i64 z) d s ∧ counter d key = Some (wrap_i64 z) ∧
       (is_i64 z → wrap_i64 z = z) ∧ ∀ k, k ≠ key → bt_get k d = bt_get k (any_view s).

Lemma store_sum_adds checks key z s : any_ok s → adds checks (AnyS.store_sum checks key z) key z s.
Proof.
  intros Hok. unfold adds, AnyS.store_sum.
  assert (negb ((- 2 ^ 63 <=? z)%Z && (z <? 2 ^ 63)%Z) = bool_decide (¬ is_i64 z)) as ->.
  { unfold is_i64. case_bool_decide as Hz;
      destruct (Z.leb_spec (- 2 ^ 63) z), (Z.ltb_spec z (2 ^ 63)); simpl; try done; lia. }
  destruct (checks && _); [done|]. exists (bt_insert key (le_bytes 8 (wrap64 z)) (any_view s)). split.
  - eapply does_bind; [by apply any_put|]. intros s' <- Hok' _. rewrite <- i64_of_bytes.
    by apply does_ret.
  - split; [apply counter_insert|]. split; [apply wrap_i64_small|].
    intros k Hk. by apply bt_get_insert_ne.
Qed.

(** A counter is increased by the given amount; a value that is no number is refused. *)
Theorem any_increment (checks : bool) key delta s : any_ok s →
  match counter (any_view s) key with
  | Some c => adds checks (AnyS.increment checks key delta) key (c + delta) s
  | None => AnyS.increment checks key delta s = (Err (Serialization "Value is not an i64"), s)
  end.
Proof.
  intros Hok. pose proof (any_get key s Hok) as Eg. unfold counter.
  assert (Hs : ∀ z, AnyS.increment checks key delta s = AnyS.store_sum checks key z s →
                    adds checks (AnyS.increment checks key delta) key z s).
  { intros z Hz. pose proof (store_sum_adds checks key z s Hok) as Ha.
    unfold adds, does in *. by rewrite Hz. }
  unfold AnyS.increment in *. rewrite (bind_ok _ _ _ _ _ Eg) in *.
  destruct (bt_get key (any_view s)) as [v|]; [case_bool_decide|]; auto.
Qed.

(** ** Transactions *)

(** The requests of a transaction. *)
Definition request (o : Tx.TransactionOperation) : AnyS.top (T:=T) (K:=K) unit :=
  match o with Tx.Put k v => AnyS.tx_put k v | Tx.Delete k => AnyS.tx_delete k end.

Lemma memory_requests ops d l :
  for_each request ops (XMemory {| Tx.shared := d; Tx.operations := l; Tx.committed := false |})
  = (Ok tt, XMemory {| Tx.shared := d; Tx.operations := l ++ ops; Tx.committed := false |}).
Proof.
  revert l. induction ops as [|o ops IH]; intros l; simpl; [by rewrite app_nil_r|].
  rewrite (bind_ok _ _ _ tt (XMemory {| Tx.shared := d; Tx.operations := l ++ [o]; Tx.committed := false |}))
    by (by destruct o).
  by rewrite IH, <- app_assoc.
Qed.

Lemma skiplist_requests ops x : ∃ x',
  for_each request ops (XSkipList x) = (Ok tt, XSkipList x') ∧
  view (sk_data x') = foldl Tx.apply_op (view (sk_data x)) ops.
Proof.
  revert x. induction ops as [|o ops IH]; intros x; simpl; [by exists x|].
  destruct o as [k v|k].
  - destruct (IH (SkipList.set_data (sm_insert k v (sk_data x)) x)) as (x' & E & Hx').
    exists x'. unfold bind at 1. simpl. rewrite E. simpl in Hx'. by rewrite view_insert in Hx'.
  - destruct (IH (SkipList.set_data (sm_remove k (sk_data x)) x)) as (x' & E & Hx').
    exists x'. unfold bind at 1. simpl. rewrite E. simpl in Hx'. by rewrite view_remove in Hx'.
Qed.

Lemma fjall_requests ops (x : FjallTransaction K) r x' :
  for_each buffer ops x = (Ok r, x') → for_each request ops (XFjall x) = (Ok r, XFjall x').
Proof.
  revert x. induction ops as [|o ops IH]; intros x; simpl; [by intros [= -> ->]|].
  unfold bind. destruct o; simpl; case_match; case_match; simplify_eq/=; try done; apply IH.
Qed.

(** What a storage holds when a transaction is dropped after its requests: nothing of them, but
    all of them on the skip list. *)
Definition abandoned (ops : list Tx.TransactionOperation) s : store :=
  match s with
  | ASkipList _ => foldl Tx.apply_op (any_view s) ops
  | _ => any_view s
  end.

(** A transaction on a storage of any kind that is committed has carried out its requests in
    order. *)
Theorem any_transaction ops s : any_ok s →
  ∃ t0 t1 t2, AnyS.begin_transaction s = Ok t0 ∧
    for_each request ops t0 = (Ok tt, t1) ∧ AnyS.tx_commit t1 = (Ok tt, t2) ∧
    any_ok (AnyS.release t2 s) ∧
    any_view (AnyS.release t2 s) = foldl Tx.apply_op (any_view s) ops ∧
    any_view (AnyS.release t1 s) = abandoned ops s.
Proof.
  intros Hok. destruct s as [s|s|s]; simpl.
  - do 3 eexists. split; [done|]. split; [apply memory_requests|]. split; [done|]. simpl.
    split; [by apply Tx.apply_ops_wf|done].
  - destruct (skiplist_requests ops s) as (x & E & Hx). do 3 eexists. split; [done|].
    split; [exact E|]. by split.
  - pose proof (buffer_all ops (FjTx.new (fj_keyspace s)) eq_refl eq_refl) as E.
    destruct (tx_commits ops (fj_keyspace s)) as (t & Ec & Ht).
    do 3 eexists. split; [done|]. split; [by apply fjall_requests|]. split; [simpl; by rewrite Ec|].
    by split.
Qed.

(** ** Under a shard *)

#[global] Instance any_snapshots : SnapshotStorage (AnyStorage T K) := {|
  SnapshotData := AnyS.Snapshot (K:=K);
  create_snapshot := AnyS.create_snapshot;
  snapshot_stream snap := AnyS.from_data (AnyS.snapshot_data snap);
  install_kv_snapshot_from_stream := AnyS.install_kv_snapshot_from_stream;
|}.

#[global] Instance any_snapshot_laws : SnapshotLaws (AnyStorage T K).
Proof.
  split.
  - intros s [Hok _]. destruct (any_snapshot s Hok) as (snap & E & Hd & _). by exists snap.
  - intros l s [Hok Hm] Hl. destruct (any_install l s Hok Hl) as (s' & E & Hv & Hok' & Hk).
    exists s'. split; [exact E|]. simpl. by destruct s, s'.
Qed.
End laws.

Section shard.
Context `{SkipMapLaws T} `{KeyspaceLaws K} `{CodecLaws}.

#[local] Instance any_unreplicated : ReplicationLayer (AnyStorage T K) := no_replication.
#[local] Instance any_unreplicated_laws : ReplicationLaws (AnyStorage T K) := no_replication_laws.

(** A shard built without replication on the storage its options ask for, unless they ask for
    fjall, keeps the invariant the theorems on objects rely on, and what is set is read back. *)
Theorem default_shard_serves (checks : bool) options id meta dispatcher ev limit now :
  (0 ≤ id ≤ u64_max)%Z → options !! bs "storage_backend" ≠ Some (bs "fjall") →
  ∃ storage : AnyStorage T K,
    AnyS.open_storage_from_options checks options id = Ok storage ∧
    let s := new_shard storage meta dispatcher ev limit now in
    shard_inv s ∧
    ∀ oid key v, obj_ok oid → key_ok key → ∃ s',
      ES.set_entry oid key v s = (Ok tt, s') ∧ shard_inv s' ∧
      (ES.get_entry oid key s').1 = Ok (Some v).
Proof using All.
  intros Hid Hf. unfold AnyS.open_storage_from_options. rewrite bool_decide_eq_false_2 by done.
  eexists. split; [done|]. cbv zeta. set (s := new_shard _ _ _ _ _ _). assert (Hinv : shard_inv s).
  { split; [done|]. unfold sh_contents. simpl. rewrite view_new. constructor. }
  split; [done|]. intros oid key v Hi Hk.
  destruct (set_entry_ok oid key v s Hinv Hi Hk) as (s' & E & Hinv' & _ & Hu & _).
  exists s'. split; [done|]. split; [done|]. rewrite get_entry_ok by done. simpl.
  destruct Hu as [He _ _]. rewrite He by done. by rewrite !decide_True.
Qed.
End shard.

Module DemoAny.
#[export] Existing Instance demo_codec.
#[export] Existing Instance demo_codec_laws.

Notation any := (AnyStorage sorted_map sorted_map).
Definition fjall : any := AFjall DemoFjall.empty.
Definition memory : any := AMemory {| data := [(bs "a", bs "1"); (bs "b", bs "2")]; stats := Stats.new |}.

Lemma memory_ok : any_ok memory.
Proof. repeat constructor. Qed.

Definition with_fjall : gmap bytes bytes := {[bs "storage_backend" := bs "fjall"]}.

Lemma shard_storage_witness :
  AnyS.open_storage_from_options (T:=sorted_map) (K:=sorted_map) false with_fjall 7
  = res_bind (Fjall.new false (Some (bs "/data/odgm/default/7")) None) (λ x, Ok (AFjall x)).
Proof.
  pose proof (shard_storage (T:=sorted_map) (K:=sorted_map) false with_fjall 7) as W.
  rewrite decide_True in W by (by vm_compute). destruct W as [W _]; [done|]. rewrite W. done.
Defined.

Lemma any_snapshot_transfer_witness : ∃ snap, AnyS.create_snapshot memory = (Ok snap, memory) ∧
  does (AnyS.restore_from_snapshot snap) tt [(bs "a", bs "1"); (bs "b", bs "2")] fjall.
Proof.
  destruct (any_snapshot_transfer memory fjall memory_ok I) as (snap & E & _ & Hd).
  exists snap. exact (conj E Hd).
Defined.

Lemma any_compare_and_swap_witness :
  does (AnyS.compare_and_swap (bs "a") (Some (bs "1")) None) true [(bs "b", bs "2")] memory ∧
  AnyS.compare_and_swap (bs "a") None None memory = (Ok false, memory).
Proof.
  split.
  - pose proof (any_compare_and_swap (bs "a") (Some (bs "1")) None memory memory_ok) as W.
    by rewrite decide_True in W by (by vm_compute).
  - pose proof (any_compare_and_swap (bs "a") None None memory memory_ok) as W.
    by rewrite decide_False in W by (by vm_compute).
Defined.

Lemma any_increment_witness :
  adds true (AnyS.increment true (bs "n") (2 ^ 63)) (bs "n") (2 ^ 63) fjall ∧
  AnyS.increment true (bs "a") 1 memory = (Err (Serialization "Value is not an i64"), memory).
Proof.
  split; [exact (any_increment true (bs "n") (2 ^ 63) fjall I)
         |exact (any_increment true (bs "a") 1 memory memory_ok)].
Defined.

Lemma any_transaction_witness : ∃ t0 t1 t2, AnyS.begin_transaction fjall = Ok t0 ∧
  for_each request [Tx.Put (bs "k") (bs "1")] t0 = (Ok tt, t1) ∧ AnyS.tx_commit t1 = (Ok tt, t2) ∧
  any_view (AnyS.release t2 fjall) = [(bs "k", bs "1")] ∧ any_view (AnyS.release t1 fjall) = [].
Proof.
  destruct (any_transaction [Tx.Put (bs "k") (bs "1")] fjall I)
    as (t0 & t1 & t2 & E0 & E1 & E2 & _ & Ec & Ea).
  exists t0, t1, t2. exact (conj E0 (conj E1 (conj E2 (conj Ec Ea)))).
Defined.

Lemma default_shard_serves_witness : ∃ storage : any,
  AnyS.open_storage_from_options false ∅ 1 = Ok storage ∧ contents storage = [].
Proof.
  destruct (default_shard_serves (T:=sorted_map) (K:=sorted_map) false ∅ 1 Demo.meta None true 16 0
    ltac:(done) ltac:(done)) as (storage & E & _).
  exists storage. split; [exact E|]. by injection E as <-.
Defined.

(** On a Raft shard the answer of [put] is what a write reports: with fjall a first write is
    reported as replacing a value, and one that replaces a value as the first. *)
Theorem raft_on_fjall_reports_reversed :
  let sm := SM.new (LogId:=nat) (None, tt) fjall in
  let write := from_operation 0 (Write {| w_key := bs "k"; w_value := bs "1"; w_ttl := None;
                                          w_return_old := false |}) 0 in
  let '(r1, sm) := SM.apply_shard_request write sm in
  let '(r2, _) := SM.apply_shard_request write sm in
  (extra <$> ok_opt r1, extra <$> ok_opt r2) = (Some (ExtraWrite true), Some (ExtraWrite false)).
Proof. by vm_compute. Qed.
End DemoAny.
