(* ===== verification/ShardTx.v ===== *)
(** * Transactions of a shard

    [odgm/shard/object_shard/transaction.rs] and [begin_transaction] of [trait_impl.rs]: whole
    objects, encoded into one value under the number of the object, written through a
    transaction of the storage. The adapter is written against the interface
    [AppWriteTransaction], of which the transactions of [AnyStorage] are an instance. *)

From stdpp Require Import base tactics list numbers option gmap sorting strings.
From S2P Require Import Prelude BTree Backend Memory MemoryTx SkipList Fjall StorageKey GranularKey Replication Events ObjectData Shard EntryStore ObjectView ObjectShard AnyStorage.

Set Default Proof Using "Type".
Local Open Scope prog_scope.

(** [ApplicationWriteTransaction], as the adapter uses it. *)
Class AppWriteTransaction (X : Type) := {
  atx_get : bytes → M X StorageError (option bytes);
  atx_put : bytes → bytes → M X StorageError unit;
  atx_delete : bytes → M X StorageError unit;
  atx_commit : M X StorageError unit;
  atx_rollback : M X StorageError unit;
}.

(** What is promised: requests are accepted while it is open, and a commit leaves in the storage
    the pairs they ask for. *)
Class AppWriteTransactionLaws (X : Type) `{AppWriteTransaction X} := {
  atx_open : X → Prop;
  atx_final : X → store;
  atx_pairs : X → store;
  atx_put_ok k v x : atx_open x → ∃ x', atx_put k v x = (Ok tt, x') ∧ atx_open x' ∧
    atx_final x' = bt_insert k v (atx_final x);
  atx_delete_ok k x : atx_open x → ∃ x', atx_delete k x = (Ok tt, x') ∧ atx_open x' ∧
    atx_final x' = bt_remove k (atx_final x);
  atx_commit_ok x : atx_open x → ∃ x', atx_commit x = (Ok tt, x') ∧ atx_pairs x' = atx_final x;
}.

(** postcard on whole objects. *)
Class ObjectCodec := {
  to_allocvec : ObjectData → res string bytes;
  from_bytes : bytes → res string ObjectData;
}.

(** Objects can be serialised. *)
Class ObjectCodecLaws `{ObjectCodec} := serialises o : ∃ b, to_allocvec o = Ok b.

Record UnifiedShardWriteTxAdapter (X : Type) := {
  tx : option X;
  metrics : ShardMetrics;
  completed : bool;
}.
Arguments tx {X} _.
Arguments metrics {X} _.
Arguments completed {X} _.

Module ShardTransaction.
Section adapter.
Context {X : Type} `{AppWriteTransaction X} `{ObjectCodec}.
Notation adapter := (UnifiedShardWriteTxAdapter X).

Definition op (A : Type) : Type := M adapter ShardError A.

Definition serialize_object_entry (entry : ObjectData) : res ShardError bytes :=
  res_map_err (λ e, SSerializationError ("Failed to serialize ObjectEntry: " +:+ e)) (to_allocvec entry).
Definition deserialize_object_entry (b : bytes) : res ShardError ObjectData :=
  res_map_err (λ e, SSerializationError ("Failed to deserialize ObjectEntry: " +:+ e)) (from_bytes b).

Definition new (x : X) (m : ShardMetrics) : adapter := {| tx := Some x; metrics := m; completed := false |}.

Definition set_tx (x : option X) (a : adapter) : adapter :=
  {| tx := x; metrics := metrics a; completed := completed a |}.
Definition inc_errors (a : adapter) : adapter :=
  {| tx := tx a; completed := completed a;
     metrics := {| operations_count := operations_count (metrics a);
                   errors_count := wrap64 (errors_count (metrics a) + 1);
                   entry_reads_total := entry_reads_total (metrics a);
                   entry_writes_total := entry_writes_total (metrics a);
                   entry_deletes_total := entry_deletes_total (metrics a) |} |}.

Definition finished {A} : op A := throw (TransactionError "Transaction already completed").

(** A call on the transaction inside, when there is one. *)
Definition with_tx {A} (m : M X StorageError A) : op A := λ a,
  if completed a then finished a
  else match tx a with
       | Some x =>
           let '(r, x) := m x in (res_map_err SStorageError r, set_tx (Some x) a)
       | None => finished a
       end.

Definition get (key : Z) : op (option ObjectData) :=
  let! data := with_tx (atx_get (be_bytes 8 key)) in
  match data with
  | Some b => let! entry := lift_res (deserialize_object_entry b) in ret (Some entry)
  | None => ret None
  end.

Definition set (key : Z) (entry : ObjectData) : op unit := λ a,
  if completed a then finished a
  else match tx a with
       | Some _ =>
           bind (lift_res (serialize_object_entry entry))
             (λ value, with_tx (atx_put (be_bytes 8 key) value)) a
       | None => finished a
       end.

Definition delete (key : Z) : op unit := with_tx (atx_delete (be_bytes 8 key)).

(** [commit] and [rollback] take the transaction out; only a failed commit is counted. The
    second part of the result is the storage's transaction after the call. *)
Definition commit : op (option X) := λ a,
  if completed a then finished a
  else match tx a with
       | Some x =>
           match atx_commit x with
           | (Ok _, x) => (Ok (Some x), set_tx None a)
           | (Err e, _) => (Err (SStorageError e), inc_errors (set_tx None a))
           | (Panic p, _) => (Panic p, set_tx None a)
           end
       | None => finished a
       end.

Definition rollback : op (option X) := λ a,
  if completed a then finished a
  else match tx a with
       | Some x =>
           match atx_rollback x with
           | (Ok _, x) => (Ok (Some x), set_tx None a)
           | (Err e, _) => (Err (SStorageError e), set_tx None a)
           | (Panic p, _) => (Panic p, set_tx None a)
           end
       | None => finished a
       end.

(** The requests of a transaction on objects. *)
Inductive Request : Type := RSet (key : Z) (entry : ObjectData) | RDelete (key : Z).
Definition request (r : Request) : op unit :=
  match r with RSet k o => set k o | RDelete k => delete k end.

(** What they ask of the storage. *)
Definition encode (o : ObjectData) : bytes := default [] (ok_opt (to_allocvec o)).
Definition encoded (r : Request) : Tx.TransactionOperation :=
  match r with
  | RSet k o => Tx.Put (be_bytes 8 k) (encode o)
  | RDelete k => Tx.Delete (be_bytes 8 k)
  end.
End adapter.
End ShardTransaction.

(** ** The transactions of any storage *)

#[global] Instance any_app_transaction `{SkipMap T} `{Keyspace K} :
    AppWriteTransaction (AnyBorrowedTransaction T K) := {|
  atx_get := AnyS.tx_get;
  atx_put := AnyS.tx_put;
  atx_delete := AnyS.tx_delete;
  atx_commit := AnyS.tx_commit;
  atx_rollback := AnyS.tx_rollback;
|}.

Section any_transaction_laws.
Context `{SkipMapLaws T} `{KeyspaceLaws K}.

Definition any_tx_open (t : AnyBorrowedTransaction T K) : Prop :=
  match t with
  | XMemory t => Tx.committed t = false
  | XSkipList _ => True
  | XFjall t => ft_committed t = false ∧ ft_rolled_back t = false
  end.

Definition any_tx_pairs (t : AnyBorrowedTransaction T K) : store :=
  match t with
  | XMemory t => Tx.shared t
  | XSkipList t => view (sk_data t)
  | XFjall t => ks_view (ft_keyspace t)
  end.

Definition any_tx_final (t : AnyBorrowedTransaction T K) : store :=
  match t with
  | XMemory t => foldl Tx.apply_op (Tx.shared t) (Tx.operations t)
  | XSkipList t => view (sk_data t)
  | XFjall t => foldl Tx.apply_op (ks_view (ft_keyspace t)) (ft_operations t)
  end.

Lemma any_request_ok o (t : AnyBorrowedTransaction T K) : any_tx_open t → ∃ t',
  AnyStorage.request o t = (Ok tt, t') ∧ any_tx_open t' ∧
  any_tx_final t' = Tx.apply_op (any_tx_final t) o.
Proof.
  destruct t as [[d l c]|t|[ks l c r]]; simpl.
  - intros ->. eexists. split; [by destruct o|]. simpl. split; [done|]. by rewrite foldl_app.
  - intros _. destruct o as [k v|k]; eexists; (split; [done|]); simpl.
    + by rewrite view_insert.
    + by rewrite view_remove.
  - intros [-> ->]. eexists. split; [by destruct o|]. simpl. split; [done|]. by rewrite foldl_app.
Qed.

#[global] Program Instance any_app_transaction_laws :
    AppWriteTransactionLaws (AnyBorrowedTransaction T K) := {|
  atx_open := any_tx_open;
  atx_final := any_tx_final;
  atx_pairs := any_tx_pairs;
|}.
Next Obligation. intros k v x. apply (any_request_ok (Tx.Put k v)). Qed.
Next Obligation. intros k x. apply (any_request_ok (Tx.Delete k)). Qed.
Next Obligation.
  intros [[d l c]|t|[ks l c r]]; simpl; [intros ->; by eexists|intros _; by eexists|].
  intros [-> ->]. destruct (tx_commits l ks) as (t & E & Ht). eexists. by rewrite E.
Qed.
End any_transaction_laws.

(** ** Theorems *)

Section theorems.
Context {X : Type} `{AppWriteTransactionLaws X} `{ObjectCodecLaws}.
Import ShardTransaction.

Lemma encode_ok o : to_allocvec o = Ok (encode o).
Proof using All. unfold encode. by destruct (serialises o) as (b & ->). Qed.

Lemma request_ok r (x : X) m : atx_open x → ∃ x',
  request r (new x m) = (Ok tt, new x' m) ∧ atx_open x' ∧
  atx_final x' = Tx.apply_op (atx_final x) (encoded r).
Proof using All.
  intros Hx. destruct r as [k o|k]; simpl.
  - destruct (atx_put_ok (be_bytes 8 k) (encode o) x Hx) as (x' & E & Ho & Hf). exists x'.
    unfold set, serialize_object_entry. simpl. rewrite encode_ok.
    unfold bind, lift_res, with_tx. simpl. by rewrite E.
  - destruct (atx_delete_ok (be_bytes 8 k) x Hx) as (x' & E & Ho & Hf). exists x'.
    unfold delete, with_tx. simpl. by rewrite E.
Qed.

Lemma requests_ok rs (x : X) m : atx_open x → ∃ x',
  for_each request rs (new x m) = (Ok tt, new x' m) ∧ atx_open x' ∧
  atx_final x' = foldl Tx.apply_op (atx_final x) (encoded <$> rs).
Proof using All.
  revert x. induction rs as [|r rs IH]; intros x Hx; [by exists x|].
  destruct (request_ok r x m Hx) as (x1 & E1 & Ho1 & Hf1).
  destruct (IH x1 Ho1) as (x2 & E2 & Ho2 & Hf2). exists x2. simpl.
  rewrite (bind_ok _ _ _ _ _ E1), E2, Hf2, Hf1. done.
Qed.

(** A transaction of a shard, committed, has carried out its requests in order on the storage; a
    record whose key is not the eight bytes of a number it touched is what it was before. *)
Theorem shard_transaction_commits rs (x : X) m :
  atx_open x → bt_wf (atx_final x) →
  ∃ a x', for_each request rs (new x m) = (Ok tt, a) ∧ (commit a).1 = Ok (Some x') ∧
    atx_pairs x' = foldl Tx.apply_op (atx_final x) (encoded <$> rs) ∧
    ∀ k, k ∉ (Tx.op_key ∘ encoded <$> rs) → bt_get k (atx_pairs x') = bt_get k (atx_final x).
Proof using All.
  intros Hx Hwf. destruct (requests_ok rs x m Hx) as (x1 & E & Ho & Hf).
  destruct (atx_commit_ok x1 Ho) as (x' & Ec & Hp). exists (new x1 m), x'.
  split; [done|]. unfold commit. simpl. rewrite Ec. split; [done|]. rewrite Hp, Hf.
  split; [done|]. intros k Hk. rewrite Tx.get_apply_ops by done.
  destruct (Tx.pending k (reverse (encoded <$> rs))) as [v|] eqn:Ep; [|done].
  apply Tx.pending_Some in Ep as (o & Ho' & Hok & _). destruct Hk. subst k.
  rewrite elem_of_reverse in Ho'. rewrite list_fmap_compose. by apply list_elem_of_fmap_2.
Qed.
End theorems.

Module DemoShardTx.
#[export] Existing Instance demo_codec.
Import ShardTransaction.

Notation any := (AnyStorage sorted_map sorted_map).
#[export] Instance any_rep : ReplicationLayer any := no_replication.

(** A codec that keeps the time of an object only. *)
#[export] Instance object_codec : ObjectCodec := {|
  to_allocvec o := Ok (be_bytes 8 (last_updated o));
  from_bytes b := Ok {| last_updated := be_val b; entries := []; event := None |} |}.

Definition object : ObjectData := {| last_updated := 5; entries := []; event := None |}.
Definition before : any := AMemory Memory.new.
Definition after : option any :=
  t ← ok_opt (AnyS.begin_transaction before);
  t' ← ok_opt (commit (set 42 object (new t Metrics.new)).2).1;
  (λ t', AnyS.release t' before) <$> t'.

(** An object set in a transaction and committed is read by the next transaction, but the shard
    does not have it under its number. Its record is taken for the metadata of an object
    without a name, which is counted. *)
Theorem transaction_objects_invisible :
  (s ← after; t ← ok_opt (AnyS.begin_transaction s);
   o ← ok_opt (get 42 (new t Metrics.new)).1;
   let shard := new_shard s Demo.meta None true 16 0 in
   seen ← ok_opt (OS.get_object 10 (bs "42") shard).1;
   n ← ok_opt (OS.count_objects shard).1;
   Some (o, seen, n))
  = Some (Some object, None, 1).
Proof. by vm_compute. Qed.

#[export] Instance object_codec_laws : ObjectCodecLaws.
Proof. intros o. by eexists. Qed.

Definition fresh : AnyBorrowedTransaction sorted_map sorted_map := XMemory (Tx.new []).

Lemma fresh_open : atx_open fresh ∧ bt_wf (atx_final fresh).
Proof. split; [reflexivity|constructor]. Qed.

Lemma shard_transaction_commits_witness : ∃ a x',
  for_each request [RSet 42 object; RDelete 7] (new fresh Metrics.new) = (Ok tt, a) ∧
  (commit a).1 = Ok (Some x') ∧ atx_pairs x' = [(be_bytes 8 42, be_bytes 8 5)].
Proof.
  destruct (shard_transaction_commits [RSet 42 object; RDelete 7] fresh Metrics.new
    (proj1 fresh_open) (proj2 fresh_open)) as (a & x' & E1 & E2 & E3 & _).
  exists a, x'. split; [exact E1|]. split; [exact E2|]. rewrite E3. by vm_compute.
Defined.
End DemoShardTx.
