(* ===== verification/ClassRuntime.v ===== *)
(** * The class runtime resource and the Kubernetes objects made from it

    [control-plane/oprc-crm/src/crd/class_runtime.rs] and the parts of [k8s_openapi] that the
    templates fill in, with the text conversions of the standard library they use: [f32]
    comparison, [Display] of [f64], ASCII case, UTF-8. A string is the sequence of its
    characters, as in [Routing]; collection requests are bytes, as in [Collections]. *)

From stdpp Require Import base tactics list list_numbers numbers option gmap strings pretty.
From Stdlib Require Import ZArith Lia.
From Stdlib Require Import Floats.SpecFloat.
From S2P Require Import Prelude BTree Float64 Shard Metadata Routing Json Collections PmModel.

Set Default Proof Using "Type".

(** ** Text *)

Module Text.

Definition eq_ignore_ascii_case (s t : str) : bool :=
  bool_decide (Names.lower <$> s = Names.lower <$> t).

(** [to_string] of an integer and of a [bool] *)
Definition dec_Z (z : Z) : str := lit (pretty z).
Definition bool_text (b : bool) : str := lit (if b then "true" else "false").

(** [Vec::join] *)
Fixpoint join (sep : str) (l : list str) : str :=
  match l with
  | [] => []
  | [s] => s
  | s :: l => s ++ sep ++ join sep l
  end.

(** [str::split] at a character: at least one piece. *)
Fixpoint split (c : Z) (s : str) : list str :=
  match s with
  | [] => [[]]
  | x :: s =>
      if (x =? c)%Z then [] :: split c s
      else match split c s with
           | p :: ps => (x :: p) :: ps
           | [] => [[x]]
           end
  end.

(** [str::split_once] and [rsplit_once] at a character *)
Fixpoint split_once (c : Z) (s : str) : option (str * str) :=
  match s with
  | [] => None
  | x :: s => if (x =? c)%Z then Some ([], s)
              else (λ ab, (x :: ab.1, ab.2)) <$> split_once c s
  end.
Definition rsplit_once (c : Z) (s : str) : option (str * str) :=
  (λ ab, (reverse ab.2, reverse ab.1)) <$> split_once c (reverse s).

(** [s.rsplit('.').next().unwrap_or(s)]: the part after the last dot, all without one. *)
Definition last_segment (s : str) : str :=
  match rsplit_once 46 s with Some (_, t) => t | None => s end.

Definition starts_with (p s : str) : bool := bool_decide (take (length p) s = p).

(** The bytes of a string *)
Definition utf8_char (c : Z) : bytes :=
  if (c <? 128)%Z then [zb c]
  else if (c <? 2048)%Z then [zb (192 + c / 64); zb (128 + c mod 64)]
  else if (c <? 65536)%Z then
    [zb (224 + c / 4096); zb (128 + (c / 64) mod 64); zb (128 + c mod 64)]
  else [zb (240 + c / 262144); zb (128 + (c / 4096) mod 64); zb (128 + (c / 64) mod 64);
        zb (128 + c mod 64)].
Definition utf8 (s : str) : bytes := s ≫= utf8_char.

(** *** [Display] of [f64]

    The shortest decimal that parses back to the number, the closest of that length, written
    without an exponent. *)

(** [num/den] has [log10 + 1] digits before the point, or as many zeros after it. *)
Fixpoint count_digits (fuel : nat) (z : Z) : Z :=
  match fuel with
  | O => 0
  | S fuel => if (z <? 10)%Z then 1 else (1 + count_digits fuel (z / 10))%Z
  end.
Fixpoint leading_zeros (fuel : nat) (num den : Z) : Z :=
  match fuel with
  | O => 0
  | S fuel => if (den <=? num * 10)%Z then 1 else (1 + leading_zeros fuel (num * 10) den)%Z
  end.
Definition log10 (num den : Z) : Z :=
  if (den <=? num)%Z then (count_digits 400 (num / den) - 1)%Z
  else (- leading_zeros 400 num den)%Z.

(** A mantissa of one digit that was rounded up to 10 *)
Definition carry (d e : Z) : Z * Z := if (d =? 10)%Z then (1, e + 1)%Z else (d, e).

(** Search with [n] digits and up to [fuel] more: mantissa and decimal exponent. *)
Fixpoint shortest (fuel : nat) (x : f64) (num den k n : Z) : Z * Z :=
  let e := (k - n + 1)%Z in
  let '(a, b) := if (0 <=? e)%Z then (num, den * 10 ^ e)%Z else (num * 10 ^ (- e), den)%Z in
  let d := (a / b)%Z in
  let lo := SFeqb (Parse.scale d e) x in
  let hi := SFeqb (Parse.scale (d + 1) e) x in
  match fuel with
  | O => (d, e)
  | S fuel =>
      if lo && hi then carry (if (2 * d + 1) * b <? 2 * a then d + 1 else d)%Z e
      else if lo then (d, e) else if hi then carry (d + 1) e
      else shortest fuel x num den k (n + 1)
  end.

Definition place (d e : Z) : str :=
  let ds := dec_Z d in
  if (0 <=? e)%Z then ds ++ List.repeat 48%Z (Z.to_nat e)
  else
    let f := Z.to_nat (- e) in
    if (f <? length ds)%nat
    then take (length ds - f) ds ++ lit "." ++ drop (length ds - f) ds
    else lit "0." ++ List.repeat 48%Z (f - length ds) ++ ds.

Definition display_f64 (x : f64) : str :=
  match x with
  | S754_nan => lit "NaN"
  | S754_infinity s => lit (if s then "-inf" else "inf")
  | S754_zero s => lit (if s then "-0" else "0")
  | S754_finite s m e =>
      let '(num, den) := if (0 <=? e)%Z then (Z.pos m * 2 ^ e, 1)%Z
                         else (Z.pos m, 2 ^ (- e))%Z in
      let '(d, p) := shortest 17 (S754_finite false m e) num den (log10 num den) 1 in
      (if s then lit "-" else []) ++ place d p
  end.

Example display_examples :
  display_f64 (F64.lit 1 10) = lit "0.1" ∧ display_f64 (F64.of_Z 1) = lit "1" ∧
  display_f64 (F64.lit 1 3) = lit "0.3333333333333333" ∧
  display_f64 (F64.lit (-5) 100) = lit "-0.05" ∧
  display_f64 (F64.add (F64.lit 1 10) (F64.lit 2 10)) = lit "0.30000000000000004" ∧
  display_f64 (F64.lit 1 10000000) = lit "0.0000001" ∧
  display_f64 (F64.lit 2505 2) = lit "1252.5".
Proof. vm_compute. done. Qed.

End Text.

(** ** [f32] *)

Module F32.
Definition of_Z (z : Z) : spec_float := binary_normalize 24 128 z 0 false.
(** The literal [n/d]: the nearest [f32]. *)
Definition lit (n d : Z) : spec_float := SFdiv 24 128 (of_Z n) (of_Z d).
Definition ge (x y : spec_float) : bool := SFleb y x.
End F32.

(** [x as i32] of a [u32] *)
Definition as_i32 (z : Z) : Z := if (z <? 2 ^ 31)%Z then z else (z - 2 ^ 32)%Z.

(** ** The resource *)

Module Crd.

Record FunctionRoute := {
  fr_url : str;
  fr_wasm_module_url : option str;
  fr_wasm_fuel : option Z;
  fr_stateless : option bool;
  fr_standby : option bool;
  fr_active_group : list Z;
  fr_function_key : option str;
}.

Record InvocationsSpec := {
  inv_fn_routes : btree str FunctionRoute;
  inv_disabled_fn : list str;
}.

Record OdgmConfigSpec := {
  cfg_collections : option (list str);
  cfg_partition_count : option Z;
  cfg_replica_count : option Z;
  cfg_shard_type : option str;
  cfg_invocations : option InvocationsSpec;
  cfg_options : option (btree str str);
  cfg_log : option str;
  cfg_env_node_ids : btree str (list Z);
  cfg_zenoh_mode : option str;
  cfg_node_id : option Z;
  cfg_collection_assignments : btree str (list ShardAssignment);
}.

Record NfrRequirementsSpec := {
  nfr_min_throughput_rps : option Z;
  nfr_max_latency_ms : option Z;
  nfr_availability_pct : option spec_float;
  nfr_consistency : option str;
}.

Record NfrEnforcementSpec := {
  enf_mode : option str;
  enf_dimensions : option (list str);
}.

Record TelemetrySpec := {
  tls_enabled : option bool;
  tls_traces : option bool;
  tls_metrics : option bool;
  tls_logs : option bool;
  tls_sampling_rate : option f64;
  tls_service_name : option str;
  tls_resource_attributes : btree str str;
}.

(** The functions are the [FunctionDeploymentSpec] of the shared models. *)
Record ClassRuntimeSpec := {
  package_class_key : option str;
  selected_template : option str;
  addons : option (list str);
  odgm_config : option OdgmConfigSpec;
  spec_functions : list FunctionDeploymentSpec;
  nfr_requirements : option NfrRequirementsSpec;
  enforcement : option NfrEnforcementSpec;
  telemetry : option TelemetrySpec;
}.

(** [ClassRuntimeSpec::default] *)
Definition default_spec : ClassRuntimeSpec :=
  {| package_class_key := None; selected_template := None; addons := None;
     odgm_config := None; spec_functions := []; nfr_requirements := None;
     enforcement := None; telemetry := None |}.

(** The default of [addons] when a resource is read without the field. *)
Definition default_addons : option (list str) := Some [lit "odgm"].

(** The same routes as bytes, as the collection request takes them. *)
Definition route_bytes (r : FunctionRoute) : Collections.FunctionRoute :=
  {| route_url := Text.utf8 (fr_url r);
     route_wasm_module_url := Text.utf8 <$> fr_wasm_module_url r;
     route_wasm_fuel := fr_wasm_fuel r; route_stateless := fr_stateless r;
     route_standby := fr_standby r; route_active_group := fr_active_group r |}.
Definition invocations_bytes (i : InvocationsSpec) : Collections.InvocationsSpec :=
  {| fn_routes := (λ kv, (Text.utf8 kv.1, route_bytes kv.2)) <$> inv_fn_routes i;
     disabled_fn := Text.utf8 <$> inv_disabled_fn i |}.

(** A function that the data grid runs itself, and the image of the others. *)
Definition is_wasm (f : FunctionDeploymentSpec) : bool :=
  bool_decide (is_Some (fd_provision_config f ≫= wasm_module_url)).
Definition image_of (f : FunctionDeploymentSpec) : option str :=
  fd_provision_config f ≫= container_image.

End Crd.

(** ** Kubernetes objects *)

Module K8s.

Record EnvVar := { env_name : str; env_value : option str }.
Record ContainerPort := { container_port : Z; cport_name : option str }.
Record ResourceRequirements := {
  res_requests : option (btree str str);
  res_limits : option (btree str str);
}.
Record Container := {
  ct_name : str;
  ct_image : option str;
  ct_ports : option (list ContainerPort);
  ct_resources : option ResourceRequirements;
  ct_env : option (list EnvVar);
  ct_image_pull_policy : option str;
}.
Record OwnerReference := {
  ref_api_version : str;
  ref_kind : str;
  ref_name : str;
  ref_uid : str;
  ref_controller : option bool;
}.
Record ObjectMeta := {
  meta_name : option str;
  meta_labels : option (btree str str);
  meta_annotations : option (btree str str);
  meta_owner_references : option (list OwnerReference);
}.
Record PodTemplateSpec := { pod_metadata : option ObjectMeta; pod_containers : list Container }.
Record DeploymentSpec := {
  ds_replicas : option Z;
  ds_selector : option (btree str str);
  ds_template : PodTemplateSpec;
}.
Record Deployment := { dep_metadata : ObjectMeta; dep_spec : option DeploymentSpec }.
Record ServicePort := { sp_name : option str; sp_port : Z; sp_target_port : option Z }.
Record ServiceSpec := {
  ss_selector : option (btree str str);
  ss_ports : option (list ServicePort);
}.
Record Service := { svc_metadata : ObjectMeta; svc_spec : option ServiceSpec }.

Definition env (name : string) (value : str) : EnvVar :=
  {| env_name := lit name; env_value := Some value |}.

End K8s.

(** [RenderedResource] and [TemplateError] *)
Inductive RenderedResource : Type :=
| RDeployment (d : K8s.Deployment)
| RService (s : K8s.Service)
| ROther (api_version kind : str) (manifest : Value).

Inductive TemplateError (JsonError : Type) : Type :=
| MissingFunctionImage
| OdgmCollectionsJson (e : JsonError).
Arguments MissingFunctionImage {JsonError}.
Arguments OdgmCollectionsJson {JsonError} e.
