(* ===== verification/Templates.v ===== *)
(** * Templates of the class runtime manager

    [control-plane/oprc-crm/src/templates]: the choice of a template for a class runtime by
    name or by score ([manager.rs]), and what the templates render, the Deployments and
    Services of the functions ([render_with]), the Knative services ([knative.rs]) and the
    data grid of the class with its collections and routes ([odgm.rs]). Arguments are the
    iteration order of a [HashMap], the serialiser of collection requests and the result of
    reading the environment variables. *)

From stdpp Require Import base tactics list list_numbers numbers option gmap strings pretty sorting.
From Stdlib Require Import ZArith Lia.
From S2P Require Import Prelude BTree Float64 Shard Metadata Placement.
From S2P Require Import Collections Routing Json Controller PmModel ClassRuntime.

Set Default Proof Using "Type".

Import K8s Crd.

Notation "'let?' x ':=' m 'in' k" := (res_bind m (λ x, k))
  (at level 100, x pattern, m at level 100, k at level 200, right associativity) : prog_scope.
Open Scope prog_scope.

(** ** Contexts *)

Record ResolvedTelemetry := {
  rt_enabled : bool;
  rt_endpoint : str;
  rt_traces : bool;
  rt_metrics : bool;
  rt_logs : bool;
  rt_sampling_rate : f64;
  rt_service_name : option str;
  rt_resource_attributes : option str;
}.

Record RenderContext := {
  ctx_name : str;
  ctx_namespace : str;
  owner_api_version : str;
  owner_kind : str;
  owner_uid : option str;
  enable_odgm_sidecar : bool;
  ctx_profile : str;
  odgm_image_override : option str;
  odgm_pull_policy_override : option str;
  odgm_extra_env : option str;
  router_service_name : option str;
  router_service_port : option Z;
  ctx_telemetry : ResolvedTelemetry;
  ctx_spec : ClassRuntimeSpec;
}.

(** [EnvironmentContext]; the owned [EnvironmentOwned] has the same fields. *)
Record EnvironmentContext := {
  env_profile : str;
  env_region : option str;
  env_hardware_class : option str;
  env_zone : option str;
  is_datacenter : bool;
  is_edge : bool;
}.

Module Telemetry.

Definition from_spec_and_cluster (cr_spec : option TelemetrySpec) (cluster_enabled : bool)
    (cluster_endpoint : str) : ResolvedTelemetry :=
  match cr_spec with
  | Some cr =>
      {| rt_enabled := default cluster_enabled (tls_enabled cr);
         rt_endpoint := cluster_endpoint;
         rt_traces := default true (tls_traces cr);
         rt_metrics := default true (tls_metrics cr);
         rt_logs := default false (tls_logs cr);
         rt_sampling_rate := default (F64.lit 1 10) (tls_sampling_rate cr);
         rt_service_name := tls_service_name cr;
         rt_resource_attributes :=
           match tls_resource_attributes cr with
           | [] => None
           | attrs => Some (Text.join (lit ",") ((λ kv, kv.1 ++ lit "=" ++ kv.2) <$> attrs))
           end |}
  | None =>
      {| rt_enabled := cluster_enabled; rt_endpoint := cluster_endpoint; rt_traces := true;
         rt_metrics := true; rt_logs := false; rt_sampling_rate := F64.lit 1 10;
         rt_service_name := None; rt_resource_attributes := None |}
  end.

Definition build_otel_env_vars (t : ResolvedTelemetry) (default_service_name : str) :
    list EnvVar :=
  [env "OTEL_EXPORTER_OTLP_ENDPOINT" (rt_endpoint t);
   env "OTEL_SERVICE_NAME" (default default_service_name (rt_service_name t));
   env "OTEL_TRACES_ENABLED" (Text.bool_text (rt_traces t));
   env "OTEL_LOGS_ENABLED" (Text.bool_text (rt_logs t))]
  ++ (if F64.lt (rt_sampling_rate t) F64.one
      then [env "OTEL_TRACES_SAMPLER" (lit "parentbased_traceidratio");
            env "OTEL_TRACES_SAMPLER_ARG" (Text.display_f64 (rt_sampling_rate t))]
      else [])
  ++ match rt_resource_attributes t with
     | Some attrs => [env "OTEL_RESOURCE_ATTRIBUTES" attrs]
     | None => []
     end.

End Telemetry.

(** ** Routes *)

Module Routes.

(** The route the templates predict for the function at index [i]. *)
Definition predicted_route (ctx : RenderContext) (i : nat) (f : FunctionDeploymentSpec) :
    FunctionRoute :=
  match fd_provision_config f ≫= wasm_module_url with
  | Some module_url =>
      {| fr_url := lit "wasm://" ++ fd_function_key f; fr_wasm_module_url := Some module_url;
         fr_wasm_fuel := None; fr_stateless := Some true; fr_standby := None;
         fr_active_group := []; fr_function_key := Some (fd_function_key f) |}
  | None =>
      {| fr_url := Names.function_service_url_fqdn (ctx_name ctx) (ctx_namespace ctx) i
                     (length (spec_functions (ctx_spec ctx)));
         fr_wasm_module_url := None; fr_wasm_fuel := None; fr_stateless := Some true;
         fr_standby := None; fr_active_group := [];
         fr_function_key := Some (fd_function_key f) |}
  end.

(** [entry(k).or_insert(v)] *)
Definition or_insert {V} (k : str) (v : V) (m : btree str V) : btree str V :=
  match bt_get k m with Some _ => m | None => bt_insert k v m end.

Fixpoint predicted_loop (ctx : RenderContext) (i : nat) (fs : list FunctionDeploymentSpec)
    (routes : btree str FunctionRoute) : btree str FunctionRoute :=
  match fs with
  | [] => routes
  | f :: fs =>
      predicted_loop ctx (S i) fs
        (or_insert (Text.last_segment (fd_function_key f)) (predicted_route ctx i f) routes)
  end.

Definition predicted_function_routes (ctx : RenderContext) : btree str FunctionRoute :=
  predicted_loop ctx 0 (spec_functions (ctx_spec ctx)) [].

(** The predicted routes by function key, the last one of a key. *)
Definition fk_index (predicted : btree str FunctionRoute) : btree str FunctionRoute :=
  foldl (λ idx kv, match fr_function_key kv.2 with
                   | Some fk => bt_insert fk kv.2 idx
                   | None => idx
                   end) [] predicted.

(** A route of the user without a URL is completed from the predicted one. *)
Definition enrich (idx : btree str FunctionRoute) (v : FunctionRoute) : FunctionRoute :=
  match fr_url v, fr_function_key v ≫= (λ fk, bt_get fk idx) with
  | [], Some pred =>
      {| fr_url := fr_url pred; fr_wasm_module_url := fr_wasm_module_url v;
         fr_wasm_fuel := fr_wasm_fuel v;
         fr_stateless := Status.or_else (fr_stateless v) (fr_stateless pred);
         fr_standby := Status.or_else (fr_standby v) (fr_standby pred);
         fr_active_group := match fr_active_group v with
                            | [] => fr_active_group pred | g => g end;
         fr_function_key := fr_function_key v |}
  | _, _ => v
  end.

Definition merged_function_routes (ctx : RenderContext) : option InvocationsSpec :=
  match spec_functions (ctx_spec ctx) with
  | [] => None
  | _ =>
      let predicted := predicted_function_routes ctx in
      let user := odgm_config (ctx_spec ctx) ≫= cfg_invocations in
      match user with
      | Some inv =>
          match inv_fn_routes inv with
          | [] => Some {| inv_fn_routes := predicted; inv_disabled_fn := [] |}
          | routes =>
              let fn_routes := prod_map id (enrich (fk_index predicted)) <$> routes in
              let fn_routes := foldl (λ m kv, or_insert kv.1 kv.2 m) fn_routes predicted in
              Some {| inv_fn_routes := fn_routes; inv_disabled_fn := inv_disabled_fn inv |}
          end
      | None => Some {| inv_fn_routes := predicted; inv_disabled_fn := [] |}
      end
  end.

End Routes.

(** ** The data grid of a class *)

Module Odgm.

(** The collections of the class, unless there are none. *)
Definition collection_names (spec : ClassRuntimeSpec) : option (list str) :=
  match odgm_config spec ≫= cfg_collections with
  | Some [] => None
  | names => names
  end.

Notation Request := (CreateCollectionRequest * option InvocationRoute)%type.

Definition options_bytes (o : btree str str) : btree bytes bytes :=
  (λ kv, (Text.utf8 kv.1, Text.utf8 kv.2)) <$> o.

Definition build_requests (spec : ClassRuntimeSpec) (namespace : str) (names : list str)
    (merged_invocations : option InvocationsSpec) : list Request :=
  let cfg := odgm_config spec in
  let invocations := Status.or_else merged_invocations (cfg ≫= cfg_invocations) in
  (λ n,
    Crm.build_collection_request (Text.utf8 n) (Text.utf8 namespace)
      (default 1%Z (cfg ≫= cfg_partition_count)) (default 1%Z (cfg ≫= cfg_replica_count))
      (Text.utf8 (default (lit "none") (cfg ≫= cfg_shard_type)))
      (invocations_bytes <$> invocations)
      (options_bytes <$> (cfg ≫= cfg_options))
      (cfg ≫= λ c, bt_get n (cfg_collection_assignments c))) <$> names.

Definition odgm_name (ctx : RenderContext) : str :=
  Names.dns1035_safe (ctx_name ctx) ++ lit "-odgm".

Definition log_env_var (spec : ClassRuntimeSpec) : option EnvVar :=
  env "ODGM_LOG" <$> (odgm_config spec ≫= cfg_log).

(** [{"name": n, "value": v}] *)
Definition env_json (name value : str) : Value :=
  VObject [(lit "name", VString name); (lit "value", VString value)].

Definition log_env_json (spec : ClassRuntimeSpec) : option Value :=
  env_json (lit "ODGM_LOG") <$> (odgm_config spec ≫= cfg_log).

Definition build_function_odgm_env_k8s (ctx : RenderContext) : list EnvVar :=
  let odgm_service := odgm_name ctx ++ lit "-svc:" ++ Text.dec_Z 8080 in
  [env "ODGM_ENABLED" (lit "true"); env "ODGM_SERVICE" odgm_service].

Definition build_function_odgm_env_json (ctx : RenderContext) : list Value :=
  (λ v, env_json (env_name v) (default [] (env_value v))) <$> build_function_odgm_env_k8s ctx.

Definition owner_ref (uid : option str) (name api_version kind : str) :
    option (list OwnerReference) :=
  (λ u, [{| ref_api_version := api_version; ref_kind := kind; ref_name := name;
            ref_uid := u; ref_controller := Some true |}]) <$> uid.

Definition router_peer (ctx : RenderContext) (router_name : str) : str :=
  lit "tcp/" ++ router_name ++ lit ":" ++
  Text.dec_Z (default 17447%Z (router_service_port ctx)).

(** [KEY=VALUE] pairs between commas; pieces without [=] are skipped. *)
Definition extra_env (extra : str) : list EnvVar :=
  Text.split 44 extra ≫= λ pair,
    match Text.split_once 61 (Fsm.trim pair) with
    | Some (k, v) => [{| env_name := Fsm.trim k; env_value := Some (Fsm.trim v) |}]
    | None => []
    end.

Section odgm.
Context {JsonError : Type} (requests_json : list Request → JsonError + str).

Definition collections_env_var_ctx (ctx : RenderContext) (names : list str) :
    res (TemplateError JsonError) EnvVar :=
  let reqs := build_requests (ctx_spec ctx) (ctx_namespace ctx) names
                (Routes.merged_function_routes ctx) in
  match requests_json reqs with
  | inr value => Ok (env "ODGM_COLLECTION" value)
  | inl e => Err (OdgmCollectionsJson e)
  end.

Definition collections_env_json_ctx (ctx : RenderContext) (names : list str) :
    res Empty_set Value :=
  let reqs := build_requests (ctx_spec ctx) (ctx_namespace ctx) names
                (Routes.merged_function_routes ctx) in
  match requests_json reqs with
  | inr value => Ok (env_json (lit "ODGM_COLLECTION") value)
  | inl _ => Panic "called `Result::unwrap()` on an `Err` value"
  end.

(** The environment of the data grid container, in the order it is written. *)
Definition node_env (ctx : RenderContext) : list EnvVar :=
  match odgm_config (ctx_spec ctx) with
  | Some cfg =>
      let members := Pm.dedup (merge_sort Z.le (concat (cfg_env_node_ids cfg).*2)) in
      [{| env_name := lit "ODGM_NODE_ID"; env_value := Text.dec_Z <$> cfg_node_id cfg |};
       env "ODGM_MEMBERS" (Text.join (lit ",") (Text.dec_Z <$> members))]
  | None => []
  end.

Definition collections_env (ctx : RenderContext) : res (TemplateError JsonError) (list EnvVar) :=
  match collection_names (ctx_spec ctx) with
  | None => Ok []
  | Some cols =>
      let? e := collections_env_var_ctx ctx cols in
      Ok ([e] ++ option_list (log_env_var (ctx_spec ctx)) ++
          match router_service_name ctx with
          | Some router_name =>
              [env "OPRC_ZENOH_MODE"
                 (default (lit "peer") (odgm_config (ctx_spec ctx) ≫= cfg_zenoh_mode));
               env "OPRC_ZENOH_PORT" (lit "17447");
               env "OPRC_ZENOH_PEERS" (router_peer ctx router_name)]
          | None => []
          end)
  end.

Definition odgm_env (ctx : RenderContext) : res (TemplateError JsonError) (list EnvVar) :=
  let? cols := collections_env ctx in
  Ok ([env "ODGM_CLUSTER_ID" (ctx_name ctx)] ++ node_env ctx ++ cols
      ++ (if rt_enabled (ctx_telemetry ctx)
          then Telemetry.build_otel_env_vars (ctx_telemetry ctx) (ctx_name ctx ++ lit "-odgm")
          else [])
      ++ (env "OPRC_CLS_ID" <$> option_list (package_class_key (ctx_spec ctx)))
      ++ [env "OPRC_DEPLOYMENT_ID" (ctx_name ctx)]
      ++ match odgm_extra_env ctx with Some extra => extra_env extra | None => [] end).

Definition odgm_labels (ctx : RenderContext) : btree str str :=
  let lbls := bt_insert (lit "app") (odgm_name ctx) [] in
  let lbls := bt_insert (lit "oaas.io/owner") (ctx_name ctx) lbls in
  match package_class_key (ctx_spec ctx) with
  | Some class_key => bt_insert (lit "oaas.io/class") class_key lbls
  | None => lbls
  end.

Definition build_odgm_resources (ctx : RenderContext) (replicas : Z)
    (image_override : option str) (include_owner_refs : bool) :
    res (TemplateError JsonError) (Deployment * Service) :=
  let lbls := Some (odgm_labels ctx) in
  let? env := odgm_env ctx in
  let container :=
    {| ct_name := lit "odgm";
       ct_image := Some (default (lit "ghcr.io/pawissanutt/oaas-rs/odgm:latest") image_override);
       ct_ports := Some [{| container_port := 8080; cport_name := None |};
                         {| container_port := 17447; cport_name := Some (lit "zenoh") |}];
       ct_resources := None; ct_env := Some env;
       ct_image_pull_policy := odgm_pull_policy_override ctx |} in
  let owner_refs := if include_owner_refs
                    then owner_ref (owner_uid ctx) (ctx_name ctx) (owner_api_version ctx)
                           (owner_kind ctx)
                    else None in
  let pod := {| pod_metadata := Some {| meta_name := None; meta_labels := lbls;
                                        meta_annotations := None;
                                        meta_owner_references := None |};
                pod_containers := [container] |} in
  let dep := {| dep_metadata := {| meta_name := Some (odgm_name ctx); meta_labels := lbls;
                                   meta_annotations := None;
                                   meta_owner_references := owner_refs |};
                dep_spec := Some {| ds_replicas := Some replicas; ds_selector := lbls;
                                    ds_template := pod |} |} in
  let svc := {| svc_metadata := {| meta_name := Some (odgm_name ctx ++ lit "-svc");
                                   meta_labels := lbls; meta_annotations := None;
                                   meta_owner_references := owner_refs |};
                svc_spec := Some {| ss_selector := lbls;
                                    ss_ports := Some
                                      [{| sp_name := Some (lit "http"); sp_port := 80;
                                          sp_target_port := Some 8080%Z |};
                                       {| sp_name := Some (lit "zenoh"); sp_port := 17447;
                                          sp_target_port := Some 17447%Z |}] |} |} in
  Ok (dep, svc).

End odgm.

End Odgm.

(** ** Deployments and Services of the functions *)

Module Manager.

(** The environment sorted by name; of entries with one name the first stays. *)
Definition env_cmp (a b : EnvVar) : comparison := cmp (env_name a) (env_name b).

Fixpoint dedup_env (last_name : option str) (l : list EnvVar) : list EnvVar :=
  match l with
  | [] => []
  | e :: l =>
      if bool_decide (last_name = Some (env_name e)) then dedup_env last_name l
      else e :: dedup_env (Some (env_name e)) l
  end.

Definition set_opt (k : string) (v : option str) (m : btree str str) : btree str str :=
  match v with Some v => bt_insert (lit k) v m | None => m end.
Definition non_empty (m : btree str str) : option (btree str str) :=
  match m with [] => None | _ => Some m end.

Definition resources_of (pc : ProvisionConfig) : ResourceRequirements :=
  let req := set_opt "memory" (memory_request pc) (set_opt "cpu" (cpu_request pc) []) in
  let lim := set_opt "memory" (memory_limit pc) (set_opt "cpu" (cpu_limit pc) []) in
  {| res_requests := non_empty req; res_limits := non_empty lim |}.

Definition fn_labels (ctx : RenderContext) (fn_name : str) : btree str str :=
  bt_insert (lit "oaas.io/owner") (ctx_name ctx) (bt_insert (lit "app") fn_name []).

Definition meta (name : option str) (labels annotations : option (btree str str))
    (owners : option (list OwnerReference)) : ObjectMeta :=
  {| meta_name := name; meta_labels := labels; meta_annotations := annotations;
     meta_owner_references := owners |}.

Section render.
Context {JsonError : Type} (requests_json : list Odgm.Request → JsonError + str).
Context (config_iter : gmap str str → list (str * str)).

(** What is injected into a function container after its own configuration. *)
Definition injected_env (ctx : RenderContext) : list EnvVar :=
  (if enable_odgm_sidecar ctx then Odgm.build_function_odgm_env_k8s ctx else [])
  ++ match router_service_name ctx with
     | Some router_name =>
         [env "OPRC_ZENOH_MODE" (lit "client");
          env "OPRC_ZENOH_PEERS" (Odgm.router_peer ctx router_name)]
     | None => []
     end
  ++ (if rt_enabled (ctx_telemetry ctx)
      then Telemetry.build_otel_env_vars (ctx_telemetry ctx) (ctx_name ctx) else []).

Definition config_env (f : FunctionDeploymentSpec) : list EnvVar :=
  (λ kv, {| env_name := kv.1; env_value := Some kv.2 |}) <$> config_iter (fd_config f).

Definition function_env (ctx : RenderContext) (f : FunctionDeploymentSpec) :
    option (list EnvVar) :=
  match config_env f ++ injected_env ctx with
  | [] => None
  | env => Some (dedup_env None (sort_by env_cmp env))
  end.

(** The Deployment and the Service of the function at index [i]. *)
Definition render_function (ctx : RenderContext) (i : nat) (f : FunctionDeploymentSpec) :
    res (TemplateError JsonError) (Deployment * Service) :=
  let fn_name := Names.function_service_name (ctx_name ctx) i
                   (length (spec_functions (ctx_spec ctx))) in
  let lbls := Some (fn_labels ctx fn_name) in
  match image_of f with
  | None => Err MissingFunctionImage
  | Some func_img =>
      let func_port := default 80%Z (fd_provision_config f ≫= pc_port) in
      let container :=
        {| ct_name := lit "function"; ct_image := Some func_img;
           ct_ports := Some [{| container_port := func_port; cport_name := None |}];
           ct_resources := resources_of <$> fd_provision_config f;
           ct_env := function_env ctx f; ct_image_pull_policy := None |} in
      let owner_refs := Odgm.owner_ref (owner_uid ctx) (ctx_name ctx)
                          (owner_api_version ctx) (owner_kind ctx) in
      let http2 := default false (need_http2 <$> fd_provision_config f) in
      let annotations := if http2 then Some [(lit "oaas.io/http2", lit "true")] else None in
      let pod := {| pod_metadata := Some (meta None lbls annotations None);
                    pod_containers := [container] |} in
      let replicas := as_i32 (default 1%Z (fd_provision_config f ≫= min_scale)) in
      let dep := {| dep_metadata := meta (Some fn_name) lbls None owner_refs;
                    dep_spec := Some {| ds_replicas := Some replicas; ds_selector := lbls;
                                        ds_template := pod |} |} in
      let svc := {| svc_metadata := meta (Some fn_name) lbls None owner_refs;
                    svc_spec := Some {| ss_selector := lbls;
                                        ss_ports := Some
                                          [{| sp_name := None; sp_port := 80;
                                              sp_target_port := Some func_port |}] |} |} in
      Ok (dep, svc)
  end.

Fixpoint render_functions (ctx : RenderContext) (i : nat) (fs : list FunctionDeploymentSpec) :
    res (TemplateError JsonError) (list RenderedResource) :=
  match fs with
  | [] => Ok []
  | f :: fs =>
      if is_wasm f then render_functions ctx (S i) fs
      else
        let? ds := render_function ctx i f in
        let? rest := render_functions ctx (S i) fs in
        Ok (RDeployment ds.1 :: RService ds.2 :: rest)
  end.

Definition render_with (ctx : RenderContext) (odgm_repl : Z)
    (odgm_image_override : option str) :
    res (TemplateError JsonError) (list RenderedResource) :=
  let? resources := render_functions ctx 0 (spec_functions (ctx_spec ctx)) in
  if enable_odgm_sidecar ctx then
    let? ds := Odgm.build_odgm_resources requests_json ctx odgm_repl odgm_image_override true in
    Ok (resources ++ [RDeployment ds.1; RService ds.2])
  else Ok resources.

(** ** Knative services *)

(** The same telemetry variables as JSON objects, with another sampler. *)
Definition build_otel_env_json (ctx : RenderContext) : list Value :=
  let t := ctx_telemetry ctx in
  [Odgm.env_json (lit "OTEL_EXPORTER_OTLP_ENDPOINT") (rt_endpoint t);
   Odgm.env_json (lit "OTEL_SERVICE_NAME") (default (ctx_name ctx) (rt_service_name t));
   Odgm.env_json (lit "OTEL_TRACES_ENABLED") (Text.bool_text (rt_traces t));
   Odgm.env_json (lit "OTEL_LOGS_ENABLED") (Text.bool_text (rt_logs t))]
  ++ (if F64.lt (rt_sampling_rate t) F64.one
      then [Odgm.env_json (lit "OTEL_TRACES_SAMPLER") (lit "traceidratio");
            Odgm.env_json (lit "OTEL_TRACES_SAMPLER_ARG") (Text.display_f64 (rt_sampling_rate t))]
      else [])
  ++ match rt_resource_attributes t with
     | Some attrs => [Odgm.env_json (lit "OTEL_RESOURCE_ATTRIBUTES") attrs]
     | None => []
     end.

(** A JSON object literal, and a map of strings as an object. *)
Definition jobj (fields : list (string * Value)) : btree str Value :=
  foldl (λ m kv, bt_insert (lit kv.1) kv.2 m) [] fields.
Definition jmap (m : btree str str) : Value := VObject (prod_map id VString <$> m).
Definition jint (z : Z) : Value := VNumber (Json.from_int z).

Definition value_name (v : Value) : option str := Json.get (lit "name") v ≫= Json.as_str.
Definition value_cmp (a b : Value) : comparison :=
  cmp (default [] (value_name a)) (default [] (value_name b)).

(** Append to the environment of a container, creating it when there is none. *)
Definition extend_env (env : list Value) (container : btree str Value) : btree str Value :=
  match bt_get (lit "env") container with
  | Some (VArray arr) => bt_insert (lit "env") (VArray (arr ++ env)) container
  | Some _ => container
  | None => bt_insert (lit "env") (VArray env) container
  end.

Fixpoint retain_first (seen : gset str) (l : list Value) : list Value :=
  match l with
  | [] => []
  | e :: l =>
      match value_name e with
      | Some n => if bool_decide (n ∈ seen) then retain_first seen l
                  else e :: retain_first ({[n]} ∪ seen) l
      | None => e :: retain_first seen l
      end
  end.

Definition sort_env (container : btree str Value) : btree str Value :=
  match bt_get (lit "env") container with
  | Some (VArray arr) =>
      bt_insert (lit "env") (VArray (retain_first ∅ (sort_by value_cmp arr))) container
  | _ => container
  end.

Definition resources_json (pc : ProvisionConfig) (container : btree str Value) :
    btree str Value :=
  let requests := set_opt "memory" (memory_request pc) (set_opt "cpu" (cpu_request pc) []) in
  let limits := set_opt "memory" (memory_limit pc) (set_opt "cpu" (cpu_limit pc) []) in
  let obj := match requests with [] => [] | _ => bt_insert (lit "requests") (jmap requests) [] end in
  let obj := match limits with [] => obj | _ => bt_insert (lit "limits") (jmap limits) obj end in
  match obj with
  | [] => container
  | _ => bt_insert (lit "resources") (VObject obj) container
  end.

Definition kn_container (ctx : RenderContext) (f : FunctionDeploymentSpec) (fn_port : Z) :
    btree str Value :=
  let c := jobj
    [("name", VString (lit "function"));
     ("image", VString (default [] (image_of f)));
     ("ports", VArray [VObject (jobj [("containerPort", jint fn_port);
                                      ("name", VString (lit "h2c"));
                                      ("protocol", VString (lit "TCP"))])])] in
  let c := match fd_provision_config f with Some pc => resources_json pc c | None => c end in
  let c := match config_iter (fd_config f) with
           | [] => c
           | cfg => bt_insert (lit "env")
                      (VArray ((λ kv, Odgm.env_json kv.1 kv.2) <$> cfg)) c
           end in
  let c := if enable_odgm_sidecar ctx then
             match filter (λ e, value_name e ≠ Some (lit "ODGM_COLLECTION"))
                     (Odgm.build_function_odgm_env_json ctx) with
             | [] => c
             | env => extend_env env c
             end
           else c in
  let c := match router_service_name ctx with
           | Some router_name =>
               extend_env
                 [Odgm.env_json (lit "OPRC_ZENOH_MODE") (lit "client");
                  Odgm.env_json (lit "OPRC_ZENOH_PEERS") (Odgm.router_peer ctx router_name)] c
           | None => c
           end in
  let c := if rt_enabled (ctx_telemetry ctx) then extend_env (build_otel_env_json ctx) c else c in
  sort_env c.

Definition revision_annotations (f : FunctionDeploymentSpec) : btree str str :=
  let m := set_opt "autoscaling.knative.dev/minScale"
             (Text.dec_Z <$> (fd_provision_config f ≫= min_scale)) [] in
  let m := set_opt "autoscaling.knative.dev/maxScale"
             (Text.dec_Z <$> (fd_provision_config f ≫= max_scale)) m in
  if default false (need_http2 <$> fd_provision_config f)
  then bt_insert (lit "networking.knative.dev/http2") (lit "true") m else m.

(** The manifest of a service, with the concurrency limit and the revision annotations the
    function asks for. *)
Definition kn_manifest (f : FunctionDeploymentSpec) (container : btree str Value)
    (safe_name svc_name svc_app : str) (labels annotations : btree str str) : Value :=
  let pod_spec := jobj [("containers", VArray [VObject container])] in
  let pod_spec := match fd_provision_config f with
                  | Some pc => if (0 <? max_concurrency pc)%Z
                               then bt_insert (lit "containerConcurrency")
                                      (jint (max_concurrency pc)) pod_spec
                               else pod_spec
                  | None => pod_spec
                  end in
  let pod_meta := jobj [("labels", VObject (jobj [("app", VString svc_app);
                                                  ("oaas.io/owner", VString safe_name)]))] in
  let pod_meta := match revision_annotations f with
                  | [] => pod_meta
                  | m => bt_insert (lit "annotations") (jmap m) pod_meta
                  end in
  VObject (jobj
    [("apiVersion", VString (lit "serving.knative.dev/v1"));
     ("kind", VString (lit "Service"));
     ("metadata", VObject (jobj [("name", VString svc_name); ("labels", jmap labels);
                                 ("annotations", jmap annotations)]));
     ("spec", VObject (jobj
        [("template", VObject (jobj [("metadata", VObject pod_meta);
                                     ("spec", VObject pod_spec)]))]))]).

Definition kn_labels (safe_name svc_app : str) : btree str str :=
  bt_insert (lit "networking.knative.dev/visibility") (lit "cluster-local")
    (bt_insert (lit "app") svc_app (bt_insert (lit "oaas.io/owner") safe_name [])).

Definition kn_name (ctx : RenderContext) (i : nat) : str :=
  let safe_name := Names.dns1035_safe (ctx_name ctx) in
  if bool_decide (length (spec_functions (ctx_spec ctx)) = 1) then safe_name
  else safe_name ++ lit "-fn-" ++ dec i.

(** The Knative service of the function at index [i]. *)
Definition kn_service (ctx : RenderContext) (i : nat) (f : FunctionDeploymentSpec) : Value :=
  let safe_name := Names.dns1035_safe (ctx_name ctx) in
  let fn_port := default 8080%Z (fd_provision_config f ≫= pc_port) in
  let annotations :=
    bt_insert (lit "prometheus.io/path") (lit "/metrics")
      (bt_insert (lit "prometheus.io/port") (Text.dec_Z fn_port)
        (bt_insert (lit "prometheus.io/scrape") (lit "true") [])) in
  let svc_app := safe_name ++ lit "-fn-" ++ dec i in
  kn_manifest f (kn_container ctx f fn_port) safe_name (kn_name ctx i) svc_app
    (kn_labels safe_name svc_app) annotations.

Definition render_knative (ctx : RenderContext) :
    res (TemplateError JsonError) (list RenderedResource) :=
  match head (spec_functions (ctx_spec ctx)) ≫= image_of with
  | None => Panic "function image validated in TemplateManager::render_workload"
  | Some _ =>
      let services := imap (λ i f, ROther (lit "serving.knative.dev/v1") (lit "Service")
                                     (kn_service ctx i f)) (spec_functions (ctx_spec ctx)) in
      if enable_odgm_sidecar ctx then
        let? ds := Odgm.build_odgm_resources requests_json ctx 1 (odgm_image_override ctx) false in
        Ok (services ++ [RDeployment ds.1; RService ds.2])
      else Ok services
  end.

(** ** The templates *)

(** The trait [Template] *)
Record Template := {
  tpl_name : str;
  tpl_aliases : list str;
  tpl_render : RenderContext → res (TemplateError JsonError) (list RenderedResource);
  tpl_score : EnvironmentContext → option NfrRequirementsSpec → Z;
}.

(** One step of a score: [b] points when the requirements ask for it. *)
Definition bonus (b : bool) (points : Z) : Z := if b then points else 0%Z.
Definition throughput_at_least (n : NfrRequirementsSpec) (rps : Z) : bool :=
  (rps <=? default 0 (nfr_min_throughput_rps n))%Z.
Definition latency_at_most (n : NfrRequirementsSpec) (ms : Z) : bool :=
  (default u32_max (nfr_max_latency_ms n) <=? ms)%Z.
Definition availability_at_least (n : NfrRequirementsSpec) (num den : Z) : bool :=
  F32.ge (default (F32.of_Z 99) (nfr_availability_pct n)) (F32.lit num den).

Definition render_with_default_image (image : string) (ctx : RenderContext) :
    res (TemplateError JsonError) (list RenderedResource) :=
  render_with ctx 1 (Some (default (lit image) (odgm_image_override ctx))).

Definition dev_template : Template :=
  {| tpl_name := lit "dev"; tpl_aliases := [];
     tpl_render := render_with_default_image "ghcr.io/pawissanutt/oaas-rs/odgm:dev-alpha";
     tpl_score := λ env _,
       if Text.eq_ignore_ascii_case (env_profile env) (lit "dev") then 1000000%Z
       else if is_edge env then 10%Z else (-10)%Z |}.

Definition edge_template : Template :=
  {| tpl_name := lit "edge"; tpl_aliases := [];
     tpl_render := render_with_default_image "ghcr.io/pawissanutt/oaas-rs/odgm:latest";
     tpl_score := λ env nfr,
       let s := if Text.eq_ignore_ascii_case (env_profile env) (lit "edge") || is_edge env
                then 1000000%Z else 0%Z in
       match nfr with
       | Some n => (s + bonus (throughput_at_least n 300) 2 + bonus (latency_at_most n 150) 2
                      + bonus (availability_at_least n 999 10) 1)%Z
       | None => s
       end |}.

Definition k8s_deployment_template : Template :=
  {| tpl_name := lit "k8s_deployment"; tpl_aliases := [lit "deployment"; lit "k8s"];
     tpl_render := render_with_default_image "ghcr.io/pawissanutt/oaas-rs/odgm:latest";
     tpl_score := λ env nfr,
       let s := if Text.eq_ignore_ascii_case (env_profile env) (lit "k8s_deployment")
                then 800000%Z else if is_datacenter env then 600000%Z else 0%Z in
       match nfr with
       | Some n => (s + bonus (throughput_at_least n 1500) 3 + bonus (latency_at_most n 50) 3
                      + bonus (availability_at_least n 9995 100) 2
                      + bonus (bool_decide (nfr_consistency n = Some (lit "strong"))) 2)%Z
       | None => s
       end |}.

Definition knative_template : Template :=
  {| tpl_name := lit "knative"; tpl_aliases := [lit "kn"; lit "knsvc"];
     tpl_render := render_knative;
     tpl_score := λ env nfr,
       let profile := Names.lower <$> env_profile env in
       let s := if is_datacenter env
                   || bool_decide (profile ∈ [lit "full"; lit "prod"; lit "production"])
                then 900000%Z
                else if is_edge env || bool_decide (profile = lit "edge") then 600000%Z
                else 100000%Z in
       match nfr with
       | Some n => (s + bonus (throughput_at_least n 500) 2 + bonus (latency_at_most n 100) 2)%Z
       | None => s
       end |}.

(** ** The manager *)

Definition new (include_knative : bool) : list Template :=
  [dev_template; edge_template; k8s_deployment_template]
  ++ (if include_knative then [knative_template] else []).

(** [cfg] is the result of reading the environment variables, [None] for an error. *)
Definition env_from_env (cfg : option EnvironmentContext) (profile_override : str) :
    EnvironmentContext :=
  match cfg with
  | Some cfg =>
      match profile_override with
      | [] => cfg
      | _ => {| env_profile := profile_override; env_region := env_region cfg;
                env_hardware_class := env_hardware_class cfg; env_zone := env_zone cfg;
                is_datacenter := is_datacenter cfg; is_edge := is_edge cfg |}
      end
  | None => {| env_profile := profile_override; env_region := None;
               env_hardware_class := None; env_zone := None; is_datacenter := false;
               is_edge := false |}
  end.

Definition answers_to (h : str) (t : Template) : bool :=
  bool_decide (tpl_name t = h) || bool_decide (h ∈ tpl_aliases t).

(** The loop over the candidates: a strictly better one replaces the best so far. *)
Fixpoint best_loop (score : Template → Z) (best : Template) (best_score : Z)
    (ts : list Template) : Template :=
  match ts with
  | [] => best
  | t :: ts => if (best_score <? score t)%Z then best_loop score t (score t) ts
               else best_loop score best best_score ts
  end.

(** [None] is the panic of indexing an empty list of templates. *)
Definition select_template (cfg : option EnvironmentContext) (templates : list Template)
    (profile : str) (spec : ClassRuntimeSpec) : option Template :=
  match selected_template spec ≫= λ h, List.find (answers_to h) templates with
  | Some m => Some m
  | None =>
      let score t := tpl_score t (env_from_env cfg profile) (nfr_requirements spec) in
      first ← head templates;
      Some (best_loop score first (score first) templates)
  end.

Definition image_missing (f : FunctionDeploymentSpec) : bool :=
  negb (is_wasm f) && negb (bool_decide (is_Some (image_of f))).

Definition render_workload (cfg : option EnvironmentContext) (templates : list Template)
    (ctx : RenderContext) : res (TemplateError JsonError) (list RenderedResource) :=
  if existsb image_missing (spec_functions (ctx_spec ctx)) then Err MissingFunctionImage
  else match select_template cfg templates (ctx_profile ctx) (ctx_spec ctx) with
       | Some tpl => tpl_render tpl ctx
       | None => Panic "index out of bounds"
       end.

End render.

End Manager.

(** ** The environment of a function container *)

Definition find_env (n : str) (l : list EnvVar) : option EnvVar :=
  List.find (λ e, bool_decide (env_name e = n)) l.

Lemma find_env_cons n e l :
  find_env n (e :: l) = if bool_decide (env_name e = n) then Some e else find_env n l.
Proof. done. Qed.

Lemma find_env_none n l : Forall (λ e, env_name e ≠ n) l → find_env n l = None.
Proof.
  induction 1 as [|e l He _ IH]; [done|]. by rewrite find_env_cons, bool_decide_eq_false_2.
Qed.

Lemma leb_not_gt `{TotalCmp K} (x y : K) : leb x y = true ↔ cmp x y ≠ Gt.
Proof. unfold leb. by destruct (cmp x y). Qed.

(** Stable insertion, for any key of the elements. *)
Section insert.
Context {A : Type} (key : A → str).
Notation by_key := (λ a b, cmp (key a) (key b)).

Lemma insert_by_comm x y l : key x ≠ key y →
  insert_by by_key x (insert_by by_key y l) = insert_by by_key y (insert_by by_key x l).
Proof.
  intros Hne.
  assert (∀ a b l, cmp (key a) (key b) = Lt →
    insert_by by_key a (insert_by by_key b l) = insert_by by_key b (insert_by by_key a l)) as H.
  { clear. intros a b l Hab. assert (cmp (key b) (key a) = Gt) as Hba by by apply cmp_gt.
    induction l as [|c l IH]; simpl; [by rewrite Hab, Hba|].
    destruct (cmp (key b) (key c)) eqn:Ebc; simpl.
    - apply cmp_eq in Ebc. rewrite <- Ebc, Hab. simpl. rewrite Hba. simpl.
      by rewrite <- Ebc, cmp_refl.
    - rewrite Hab. rewrite (cmp_trans _ _ _ Hab Ebc). simpl. rewrite Hba. simpl. by rewrite Ebc.
    - destruct (cmp (key a) (key c)) eqn:Eac; simpl; rewrite ?Hba, ?Ebc; simpl;
        rewrite ?Ebc; [done..|]. by rewrite IH. }
  destruct (cmp (key x) (key y)) eqn:E.
  - by apply cmp_eq in E.
  - by apply H.
  - symmetry. apply H. by apply cmp_gt.
Qed.

(** Elements with distinct keys may come in any order. *)
Lemma sort_by_app_perm l1 l2 l : NoDup (key <$> l1) → l1 ≡ₚ l2 →
  sort_by by_key (l1 ++ l) = sort_by by_key (l2 ++ l).
Proof.
  intros Hnd HP. unfold sort_by. rewrite !foldr_app.
  set (b := foldr _ _ l). clearbody b. revert b.
  induction HP as [|x l1 l2 HP IH|x y l1|l1 l2 l3 H1 IH1 H2 IH2]; intros b; simpl; [done| | |].
  - apply NoDup_cons in Hnd as [_ Hnd]. by rewrite IH.
  - apply insert_by_comm. apply NoDup_cons in Hnd as [Hy _]. intros E. apply Hy.
    simpl. rewrite E. left.
  - rewrite IH1 by done. apply IH2. by rewrite <- H1.
Qed.

Lemma sort_by_key_sorted l : StronglySorted (λ a b, leb (key a) (key b) = true) (sort_by by_key l).
Proof.
  assert (StronglySorted (λ a b, cmp (key a) (key b) ≠ Gt) (sort_by by_key l)) as H.
  { apply (sort_by_sorted _ (λ _, True)).
    - intros ????. apply cmp_flip.
    - intros x y z _ _ _. rewrite <- !leb_not_gt. apply leb_trans.
    - by apply Forall_true. }
  induction H as [|x l' Hs IH Hx]; constructor; [done|].
  eapply Forall_impl; [done|]. intros y. apply leb_not_gt.
Qed.
End insert.

Lemma find_sort_env n l : find_env n (sort_by Manager.env_cmp l) = find_env n l.
Proof.
  induction l as [|x l IH]; [done|]. simpl. rewrite <- IH. clear IH.
  induction (sort_by Manager.env_cmp l) as [|y k IH]; [done|]. simpl.
  destruct (Manager.env_cmp x y) eqn:E; [done..|]. simpl. rewrite IH.
  apply cmp_gt, cmp_lt_ne in E. repeat case_bool_decide; congruence.
Qed.

(** On a sorted list the loop keeps the first entry of every name. *)
Lemma dedup_env_find n last l :
  StronglySorted (λ a b, leb (env_name a) (env_name b) = true) l →
  (∀ m, last = Some m → Forall (λ e, leb m (env_name e) = true) l) →
  find_env n (Manager.dedup_env last l) = if bool_decide (last = Some n) then None else find_env n l.
Proof.
  intros Hs. revert last. induction Hs as [|e l Hs IH He]; intros last Hl; simpl.
  { by case_bool_decide. }
  case_bool_decide as Elast.
  - rewrite IH by (intros m Hm; by apply Hl, Forall_cons in Hm as [_ ?]). subst last.
    repeat case_bool_decide; congruence.
  - rewrite find_env_cons, IH by (by intros m [= <-]). clear IH.
    case_bool_decide as E1; [subst n; by rewrite bool_decide_eq_false_2|].
    rewrite (bool_decide_eq_false_2 (Some (env_name e) = Some n)) by congruence.
    case_bool_decide as E2; [|done]. subst last. apply find_env_none.
    pose proof (Hl n eq_refl) as [Hn _]%Forall_cons.
    eapply Forall_impl; [exact He|]. intros x Hx. simpl in Hx.
    apply leb_spec in Hn as [Hn| ->]; [|done]. apply not_eq_sym, cmp_lt_ne.
    by eapply lt_le_trans.
Qed.

Lemma dedup_env_sorted last l :
  StronglySorted (λ a b, leb (env_name a) (env_name b) = true) l →
  (∀ m, last = Some m → Forall (λ e, leb m (env_name e) = true) l) →
  StronglySorted (λ a b, cmp (env_name a) (env_name b) = Lt) (Manager.dedup_env last l) ∧
  (∀ m, last = Some m → Forall (λ e, cmp m (env_name e) = Lt) (Manager.dedup_env last l)).
Proof.
  intros Hs. revert last. induction Hs as [|e l Hs IH He]; intros last Hl; simpl.
  { split; [constructor|]. intros. constructor. }
  case_bool_decide as E.
  - apply IH. intros m Hm. by apply Hl, Forall_cons in Hm as [_ ?].
  - destruct (IH (Some (env_name e))) as [H1 H2]; [by intros ? [= <-]|].
    specialize (H2 _ eq_refl). split; [by constructor|]. intros m ->.
    pose proof (Hl m eq_refl) as [Hm _]%Forall_cons.
    apply leb_spec in Hm as [Hm| ->]; [|done]. constructor; [done|].
    eapply Forall_impl; [exact H2|]. eauto using cmp_trans.
Qed.

Lemma find_env_app n l k :
  find_env n (l ++ k) = match find_env n l with Some e => Some e | None => find_env n k end.
Proof.
  induction l as [|e l IH]; [done|].
  rewrite <- app_comm_cons, !find_env_cons, IH. by case_bool_decide.
Qed.

Section env.
Context (config_iter : gmap str str → list (str * str)).
Context (config_iter_perm : ∀ m, config_iter m ≡ₚ map_to_list m).

Lemma config_env_NoDup f : NoDup (env_name <$> Manager.config_env config_iter f).
Proof using config_iter_perm.
  unfold Manager.config_env. rewrite <- list_fmap_compose.
  rewrite (config_iter_perm (fd_config f)). apply NoDup_fst_map_to_list.
Qed.

Lemma find_config_env f n :
  find_env n (Manager.config_env config_iter f)
  = (λ v, {| env_name := n; env_value := Some v |}) <$> fd_config f !! n.
Proof using config_iter_perm.
  pose proof (config_env_NoDup f) as Hnd. unfold Manager.config_env in *.
  assert (∀ v, (n, v) ∈ config_iter (fd_config f) ↔ fd_config f !! n = Some v) as Hin.
  { intros v. rewrite config_iter_perm. by rewrite elem_of_map_to_list. }
  clear -Hin Hnd. destruct (fd_config f !! n) as [v|] eqn:Ev; simpl.
  - pose proof (proj2 (Hin v) eq_refl) as Hv. clear Hin Ev.
    induction (config_iter (fd_config f)) as [|[k w] m IH]; [by apply elem_of_nil in Hv|].
    apply NoDup_cons in Hnd as [Hk Hnd]. rewrite fmap_cons, find_env_cons.
    apply elem_of_cons in Hv as [[= <- <-]|Hv]; [by rewrite bool_decide_eq_true_2|].
    rewrite bool_decide_eq_false_2; [by apply IH|]. simpl. intros ->. apply Hk.
    apply list_elem_of_fmap. eexists.
    split; [|apply list_elem_of_fmap; by exists (n, v)]. done.
  - apply find_env_none, Forall_fmap, Forall_forall. intros [k w] Hk.
    simpl. intros ->. by apply Hin in Hk.
Qed.

(** The container of a function sees its variables in order of their names, each name once;
    the configuration of the function overrides what the template injects, and each variable
    has the value of its first occurrence in configuration, data grid, router and telemetry
    variables, in this order. *)
Theorem function_env_correct ctx f :
  match Manager.function_env config_iter ctx f with
  | None => fd_config f = ∅ ∧ Manager.injected_env ctx = []
  | Some l =>
      StronglySorted (λ a b, cmp (env_name a) (env_name b) = Lt) l ∧
      ∀ n, match find_env n l with
           | Some e => env_value e = match fd_config f !! n with
                                     | Some v => Some v
                                     | None => find_env n (Manager.injected_env ctx) ≫= env_value
                                     end
           | None => fd_config f !! n = None ∧ find_env n (Manager.injected_env ctx) = None
           end
  end.
Proof using config_iter_perm.
  unfold Manager.function_env.
  destruct (Manager.config_env config_iter f ++ Manager.injected_env ctx) as [|e l] eqn:E.
  { apply app_eq_nil in E as [E1%fmap_nil_inv E2]. split; [|done].
    apply map_to_list_empty_iff. apply Permutation_nil_r. by rewrite <- config_iter_perm, E1. }
  rewrite <- E. clear E e l.
  set (l := Manager.config_env config_iter f ++ Manager.injected_env ctx).
  pose proof (sort_by_key_sorted env_name l : StronglySorted _ (sort_by Manager.env_cmp l)) as Hs.
  destruct (dedup_env_sorted None _ Hs) as [H1 _]; [done|]. split; [exact H1|]. intros n.
  rewrite (dedup_env_find n None _ Hs) by done. rewrite find_sort_env. simpl.
  unfold l. rewrite find_env_app, find_config_env.
  destruct (fd_config f !! n) as [v|]; simpl; [done|].
  by destruct (find_env n (Manager.injected_env ctx)).
Qed.
End env.

(** ** Rendering does not depend on the order of a hash map *)

Lemma bt_insert_insert `{TotalCmp K} {V} (k : K) (v w : V) (m : btree K V) :
  bt_insert k v (bt_insert k w m) = bt_insert k v m.
Proof.
  induction m as [|[k' v'] m IH]; simpl; [by rewrite cmp_refl|].
  destruct (cmp k k') eqn:E; simpl; rewrite ?cmp_refl, ?E; [done..|]. by rewrite IH.
Qed.

(** The environment of a Knative container: the configuration followed by what is injected,
    sorted, the first entry of each name. *)
Definition kn_injected (ctx : RenderContext) : list Value :=
  (if enable_odgm_sidecar ctx then Odgm.build_function_odgm_env_json ctx else [])
  ++ match router_service_name ctx with
     | Some router_name =>
         [Odgm.env_json (lit "OPRC_ZENOH_MODE") (lit "client");
          Odgm.env_json (lit "OPRC_ZENOH_PEERS") (Odgm.router_peer ctx router_name)]
     | None => []
     end
  ++ (if rt_enabled (ctx_telemetry ctx) then Manager.build_otel_env_json ctx else []).

Definition with_env (l : list Value) (c : btree str Value) : btree str Value :=
  match l with [] => c | _ => bt_insert (lit "env") (VArray l) c end.


Lemma extend_with_env l k c : l ≠ [] → bt_get (lit "env") c = None →
  Manager.extend_env l (with_env k c) = with_env (k ++ l) c.
Proof.
  intros Hl Hc. unfold Manager.extend_env, with_env. destruct k as [|x k]; simpl.
  - rewrite Hc. by destruct l.
  - by rewrite bt_get_insert_eq, bt_insert_insert.
Qed.

Definition kn_base (f : FunctionDeploymentSpec) (port : Z) : btree str Value :=
  let c := Manager.jobj
    [("name", VString (lit "function"));
     ("image", VString (default [] (image_of f)));
     ("ports", VArray [VObject (Manager.jobj [("containerPort", Manager.jint port);
                                              ("name", VString (lit "h2c"));
                                              ("protocol", VString (lit "TCP"))])])] in
  match fd_provision_config f with Some pc => Manager.resources_json pc c | None => c end.

Lemma kn_base_env f port : bt_get (lit "env") (kn_base f port) = None.
Proof.
  unfold kn_base. destruct (fd_provision_config f) as [pc|]; [|done].
  unfold Manager.resources_json. by repeat case_match.
Qed.

Lemma kn_container_env it ctx f port :
  Manager.kn_container it ctx f port = Manager.sort_env
    (with_env (((λ kv, Odgm.env_json kv.1 kv.2) <$> it (fd_config f)) ++ kn_injected ctx)
       (kn_base f port)).
Proof.
  pose proof (kn_base_env f port) as Hc.
  unfold Manager.kn_container, kn_injected. fold (kn_base f port).
  set (c0 := kn_base f port) in *. clearbody c0.
  set (cfg := (λ kv, Odgm.env_json kv.1 kv.2) <$> it (fd_config f)).
  assert (match it (fd_config f) with
          | [] => c0
          | l => bt_insert (lit "env") (VArray ((λ kv, Odgm.env_json kv.1 kv.2) <$> l)) c0
          end = with_env cfg c0) as ->
    by (unfold cfg; by destruct (it (fd_config f))).
  clearbody cfg. f_equal.
  replace (match filter (λ e, Manager.value_name e ≠ Some (lit "ODGM_COLLECTION"))
                   (Odgm.build_function_odgm_env_json ctx) with
           | [] => with_env cfg c0
           | env => Manager.extend_env env (with_env cfg c0)
           end) with (Manager.extend_env (Odgm.build_function_odgm_env_json ctx)
                        (with_env cfg c0)) by reflexivity.
  destruct (enable_odgm_sidecar ctx), (router_service_name ctx), (rt_enabled _);
    rewrite ?app_nil_r, ?app_nil_l, ?extend_with_env by done; by rewrite <- ?app_assoc.
Qed.

Lemma sort_with_env l c : bt_get (lit "env") c = None →
  Manager.sort_env (with_env l c) =
  match l with
  | [] => c
  | _ => bt_insert (lit "env")
           (VArray (Manager.retain_first ∅ (sort_by Manager.value_cmp l))) c
  end.
Proof.
  intros Hc. unfold Manager.sort_env, with_env. destruct l as [|v l]; [by rewrite Hc|].
  by rewrite bt_get_insert_eq, bt_insert_insert.
Qed.

Lemma perm_match {A B} (l1 l2 : list A) (x y : B) : l1 ≡ₚ l2 →
  match l1 with [] => x | _ => y end = match l2 with [] => x | _ => y end.
Proof.
  intros HP. destruct l1, l2; try done.
  - by apply Permutation_nil_l in HP.
  - by apply Permutation_nil_r in HP.
Qed.

Section orders.
Context {JsonError : Type} (requests_json : list Odgm.Request → JsonError + str).
Context (it1 it2 : gmap str str → list (str * str)).
Context (it1_perm : ∀ m, it1 m ≡ₚ map_to_list m) (it2_perm : ∀ m, it2 m ≡ₚ map_to_list m).

Lemma iter_perm m : it1 m ≡ₚ it2 m.
Proof using it1_perm it2_perm. by rewrite it1_perm, it2_perm. Qed.

Lemma function_env_order ctx f :
  Manager.function_env it1 ctx f = Manager.function_env it2 ctx f.
Proof using it1_perm it2_perm.
  assert (Manager.config_env it1 f ≡ₚ Manager.config_env it2 f) as HP
    by (unfold Manager.config_env; by rewrite iter_perm).
  pose proof (sort_by_app_perm env_name _ _ (Manager.injected_env ctx)
                (config_env_NoDup it1 it1_perm f) HP) as Hs.
  assert (∀ it, Manager.function_env it ctx f =
    match Manager.config_env it f ++ Manager.injected_env ctx with
    | [] => None
    | _ => Some (Manager.dedup_env None (sort_by Manager.env_cmp
                   (Manager.config_env it f ++ Manager.injected_env ctx)))
    end) as Hf.
  { intros it. unfold Manager.function_env.
    by destruct (Manager.config_env it f ++ Manager.injected_env ctx). }
  rewrite !Hf.
  change (λ a b, cmp (env_name a) (env_name b)) with Manager.env_cmp in Hs.
  rewrite Hs. apply perm_match. by rewrite HP.
Qed.

Lemma render_functions_order ctx i fs :
  Manager.render_functions (JsonError := JsonError) it1 ctx i fs
  = Manager.render_functions it2 ctx i fs.
Proof using it1_perm it2_perm.
  revert i. induction fs as [|f fs IH]; intros i; [done|]. simpl.
  rewrite IH. unfold Manager.render_function. by rewrite function_env_order.
Qed.

Lemma render_with_order ctx n img :
  Manager.render_with requests_json it1 ctx n img = Manager.render_with requests_json it2 ctx n img.
Proof using it1_perm it2_perm. unfold Manager.render_with. by rewrite render_functions_order. Qed.

Lemma kn_container_order ctx f port :
  Manager.kn_container it1 ctx f port = Manager.kn_container it2 ctx f port.
Proof using it1_perm it2_perm.
  rewrite !kn_container_env, !sort_with_env by apply kn_base_env.
  pose proof (iter_perm (fd_config f)) as HP.
  assert ((λ kv, Odgm.env_json kv.1 kv.2) <$> it1 (fd_config f) ≡ₚ
          (λ kv, Odgm.env_json kv.1 kv.2) <$> it2 (fd_config f)) as HPJ by by rewrite HP.
  assert (NoDup (default [] ∘ Manager.value_name <$>
                 ((λ kv, Odgm.env_json kv.1 kv.2) <$> it1 (fd_config f)))) as Hnd.
  { rewrite <- list_fmap_compose, (it1_perm (fd_config f)).
    apply NoDup_fst_map_to_list. }
  pose proof (sort_by_app_perm (default [] ∘ Manager.value_name) _ _ (kn_injected ctx) Hnd HPJ)
    as Hs.
  change (λ a b, cmp ((default [] ∘ Manager.value_name) a) ((default [] ∘ Manager.value_name) b))
    with Manager.value_cmp in Hs.
  rewrite Hs. apply perm_match. by rewrite HPJ.
Qed.

Definition same_template (t1 t2 : Manager.Template (JsonError := JsonError)) : Prop :=
  Manager.tpl_name t1 = Manager.tpl_name t2 ∧ Manager.tpl_aliases t1 = Manager.tpl_aliases t2 ∧
  (∀ env nfr, Manager.tpl_score t1 env nfr = Manager.tpl_score t2 env nfr) ∧
  ∀ ctx, Manager.tpl_render t1 ctx = Manager.tpl_render t2 ctx.

Lemma new_same kn :
  Forall2 same_template (Manager.new requests_json it1 kn) (Manager.new requests_json it2 kn).
Proof using it1_perm it2_perm.
  unfold Manager.new. apply Forall2_app.
  - repeat constructor; intros ctx; apply render_with_order.
  - destruct kn; repeat constructor. intros ctx. simpl. unfold Manager.render_knative.
    destruct (head _ ≫= image_of); [|done].
    replace (imap _ _) with
      (imap (λ i f, ROther (lit "serving.knative.dev/v1") (lit "Service")
                      (Manager.kn_service it2 ctx i f)) (spec_functions (ctx_spec ctx))); [done|].
    apply imap_ext. intros i f _. unfold Manager.kn_service. by rewrite kn_container_order.
Qed.

Lemma best_loop_same s1 s2 t1 t2 ts1 ts2 :
  (∀ t1 t2, same_template t1 t2 → s1 t1 = s2 t2) →
  same_template t1 t2 → Forall2 same_template ts1 ts2 →
  same_template (Manager.best_loop s1 t1 (s1 t1) ts1) (Manager.best_loop s2 t2 (s2 t2) ts2).
Proof.
  intros Hs Ht HF. revert t1 t2 Ht.
  induction HF as [|u1 u2 ts1 ts2 Hu _ IH]; intros t1 t2 Ht; simpl; [done|].
  rewrite (Hs t1 t2), (Hs u1 u2) by done. destruct (_ <? _)%Z.
  - rewrite <- (Hs u1 u2) at 1 by done. by apply IH.
  - rewrite <- (Hs t1 t2) at 1 by done. by apply IH.
Qed.

Lemma find_same h ts1 ts2 : Forall2 same_template ts1 ts2 →
  option_Forall2 same_template (List.find (Manager.answers_to h) ts1)
    (List.find (Manager.answers_to h) ts2).
Proof.
  induction 1 as [|u1 u2 ts1 ts2 Hu _ IH]; simpl; [constructor|].
  assert (Manager.answers_to h u1 = Manager.answers_to h u2) as ->.
  { unfold Manager.answers_to. by destruct Hu as (-> & -> & _). }
  destruct (Manager.answers_to h u2); [|done]. by constructor.
Qed.

Lemma select_same cfg p s ts1 ts2 : Forall2 same_template ts1 ts2 →
  option_Forall2 same_template (Manager.select_template cfg ts1 p s)
    (Manager.select_template cfg ts2 p s).
Proof.
  intros HF. unfold Manager.select_template.
  assert (option_Forall2 same_template
    (selected_template s ≫= λ h, List.find (Manager.answers_to h) ts1)
    (selected_template s ≫= λ h, List.find (Manager.answers_to h) ts2)) as Hf.
  { destruct (selected_template s); [by apply find_same|constructor]. }
  destruct Hf; [by constructor|].
  destruct HF as [|t1 t2 ts1 ts2 Ht HF]; [constructor|].
  set (score t := Manager.tpl_score t (Manager.env_from_env cfg p) (nfr_requirements s)).
  apply (Some_Forall2 _ (Manager.best_loop score t1 (score t1) (t1 :: ts1))
                        (Manager.best_loop score t2 (score t2) (t2 :: ts2))).
  apply best_loop_same; [|done|by constructor].
  intros u1 u2 (_ & _ & Hs & _). apply Hs.
Qed.

(** Rendering a class is deterministic: the maps of function configuration may be iterated in
    any order, and may be so in a different one at each reconciliation, yet the same objects
    are applied, whichever template is chosen. *)
Theorem render_workload_deterministic cfg kn ctx :
  Manager.render_workload cfg (Manager.new requests_json it1 kn) ctx
  = Manager.render_workload cfg (Manager.new requests_json it2 kn) ctx.
Proof using it1_perm it2_perm.
  unfold Manager.render_workload. destruct (existsb _ _); [done|].
  destruct (select_same cfg (ctx_profile ctx) (ctx_spec ctx) _ _ (new_same kn))
    as [t1 t2 (_ & _ & _ & Hr)|]; [apply Hr|done].
Qed.

End orders.

(** ** Selection *)

Lemma best_loop_spec {JsonError} (score : Manager.Template (JsonError := JsonError) → Z) best ts :
  let t := Manager.best_loop score best (score best) ts in
  ∃ pre post, best :: ts = pre ++ t :: post ∧ Forall (λ u, score u < score t)%Z pre ∧
    Forall (λ u, score u ≤ score t)%Z post.
Proof.
  revert best. induction ts as [|u ts IH]; intros best; simpl; [by exists [], []|].
  destruct (Z.ltb_spec (score best) (score u)) as [Hlt|Hle].
  - destruct (IH u) as (pre & post & E & H1 & H2). exists (best :: pre), post.
    split; [by rewrite E|]. split; [|done]. constructor; [|done].
    destruct pre as [|x pre]; injection E as Eu Ets; [by rewrite <- Eu|].
    subst x. apply Forall_cons in H1 as [? _]. lia.
  - destruct (IH best) as (pre & post & E & H1 & H2).
    destruct pre as [|x pre]; injection E as Eb Ets.
    + exists [], (u :: post). rewrite <- Eb, Ets in *. split; [done|]. split; [constructor|].
      by constructor.
    + subst x. apply Forall_cons in H1 as [? ?].
      exists (best :: u :: pre), post. split; [exact (f_equal (λ l, best :: u :: l) Ets)|].
      split; [|done]. constructor; [done|]. constructor; [lia|done].
Qed.

Lemma find_first {A} (p : A → bool) (l : list A) x : List.find p l = Some x →
  ∃ pre post, l = pre ++ x :: post ∧ p x = true ∧ Forall (λ y, p y = false) pre.
Proof.
  induction l as [|y l IH]; simpl; [done|]. destruct (p y) eqn:E.
  - intros [= ->]. by exists [], l.
  - intros (pre & post & -> & Hx & Hp)%IH. exists (y :: pre), post. auto.
Qed.

Section selection.
Context {JsonError : Type} (requests_json : list Odgm.Request → JsonError + str).
Context (config_iter : gmap str str → list (str * str)).
Notation templates := (Manager.new requests_json config_iter).

(** A template is always chosen. A name or alias given in the resource decides when it is
    known, the first template of that name; otherwise the template of the highest score in
    the environment of the controller is taken, the first one among equals. *)
Theorem template_selected cfg kn profile spec : ∃ t pre post,
  Manager.select_template cfg (templates kn) profile spec = Some t ∧
  templates kn = pre ++ t :: post ∧
  ((∃ h, selected_template spec = Some h ∧ Manager.answers_to h t = true ∧
         Forall (λ u, Manager.answers_to h u = false) pre) ∨
   ((∀ h, selected_template spec = Some h →
          Forall (λ u, Manager.answers_to h u = false) (templates kn)) ∧
    let score u := Manager.tpl_score u (Manager.env_from_env cfg profile)
                     (nfr_requirements spec) in
    Forall (λ u, score u < score t)%Z pre ∧ Forall (λ u, score u ≤ score t)%Z post)).
Proof.
  unfold Manager.select_template.
  destruct (selected_template spec ≫= λ h, List.find (Manager.answers_to h) (templates kn))
    as [m|] eqn:E.
  - apply bind_Some in E as (h & Hh & Hf). exists m.
    destruct (find_first _ _ _ Hf) as (pre & post & Ets & Hm & Hpre).
    exists pre, post. split; [done|]. split; [done|]. left. by exists h.
  - assert (∀ h, selected_template spec = Some h →
              Forall (λ u, Manager.answers_to h u = false) (templates kn)) as Hno.
    { intros h Hh. rewrite Hh in E. cbn [mbind option_bind] in E. apply Forall_forall. intros u Hu.
      eapply List.find_none; [exact E|by apply list_elem_of_In]. }
    set (score u := Manager.tpl_score u (Manager.env_from_env cfg profile) (nfr_requirements spec)).
    destruct (best_loop_spec score (Manager.dev_template requests_json config_iter)
                (drop 1 (templates kn))) as (pre & post & Ets & H1 & H2).
    set (t := Manager.best_loop score (Manager.dev_template requests_json config_iter)
                (score (Manager.dev_template requests_json config_iter))
                (drop 1 (templates kn))) in *.
    exists t, pre, post. split; [|split; [exact Ets|right; by split]].
    unfold t. change (templates kn) with
      (Manager.dev_template requests_json config_iter :: drop 1 (templates kn)) at 1 2.
    cbn [head mbind option_bind Manager.best_loop]. fold score. by rewrite Z.ltb_irrefl.
Qed.
End selection.

(** ** What is rendered *)

(** Pods a Service selects: those that carry every label of its selector. *)
Definition selects (sel labels : btree str str) : bool :=
  forallb (λ kv, bool_decide (bt_get kv.1 labels = Some kv.2)) sel.
Definition pod_labels (d : Deployment) : btree str str :=
  default [] (s ← dep_spec d; m ← pod_metadata (ds_template s); meta_labels m).
Definition pod_ports (d : Deployment) : list Z :=
  match dep_spec d with
  | Some s => pod_containers (ds_template s) ≫= λ c, container_port <$> default [] (ct_ports c)
  | None => []
  end.
Definition service_selects (s : Service) (d : Deployment) : bool :=
  match svc_spec s ≫= ss_selector with Some sel => selects sel (pod_labels d) | None => false end.

Lemma fn_labels_eq ctx n :
  Manager.fn_labels ctx n = [(lit "app", n); (lit "oaas.io/owner", ctx_name ctx)].
Proof. reflexivity. Qed.

Lemma odgm_labels_get ctx :
  bt_get (lit "app") (Odgm.odgm_labels ctx) = Some (Odgm.odgm_name ctx) ∧
  bt_get (lit "oaas.io/owner") (Odgm.odgm_labels ctx) = Some (ctx_name ctx).
Proof. unfold Odgm.odgm_labels. by destruct (package_class_key _). Qed.

(** The data grid of a class has names of its own. *)
Lemma odgm_name_fresh ctx i total :
  Odgm.odgm_name ctx ≠ Names.function_service_name (ctx_name ctx) i total.
Proof.
  unfold Odgm.odgm_name, Names.function_service_name. destruct (1 <? total)%nat.
  - intros E%app_inv_head. by vm_compute in E.
  - intros E%(f_equal length). rewrite length_app in E. simpl in E. lia.
Qed.

Lemma service_name_inj name i j total : i < total → j < total →
  Names.function_service_name name i total = Names.function_service_name name j total → i = j.
Proof.
  unfold Names.function_service_name. intros Hi Hj. destruct (Nat.ltb_spec 1 total); [|lia].
  intros E%app_inv_head%app_inv_head%lit_inj. by apply pretty_nat_inj in E.
Qed.

Section rendered.
Context {JsonError : Type} (requests_json : list Odgm.Request → JsonError + str).
Context (config_iter : gmap str str → list (str * str)).
Notation render_function := (Manager.render_function (JsonError := JsonError) config_iter).
Notation render_functions := (Manager.render_functions (JsonError := JsonError) config_iter).

(** The name of the workload of function [i]. *)
Definition fn_name (ctx : RenderContext) (i : nat) : str :=
  Names.function_service_name (ctx_name ctx) i (length (spec_functions (ctx_spec ctx))).

Lemma render_function_ok ctx i f d s : render_function ctx i f = Ok (d, s) →
  meta_name (dep_metadata d) = Some (fn_name ctx i) ∧
  meta_labels (dep_metadata d) = Some (Manager.fn_labels ctx (fn_name ctx i)) ∧
  pod_labels d = Manager.fn_labels ctx (fn_name ctx i) ∧
  pod_ports d = [default 80%Z (fd_provision_config f ≫= pc_port)] ∧
  svc_metadata s = dep_metadata d ∧
  svc_spec s = Some {| ss_selector := Some (Manager.fn_labels ctx (fn_name ctx i));
                       ss_ports := Some [{| sp_name := None; sp_port := 80;
                                            sp_target_port := head (pod_ports d) |}] |}.
Proof.
  unfold Manager.render_function, image_of. destruct (_ ≫= container_image); [|done].
  by intros [= <- <-].
Qed.

Lemma render_function_total ctx i f :
  match image_of f with
  | Some _ => ∃ d s, render_function ctx i f = Ok (d, s)
  | None => render_function ctx i f = Err MissingFunctionImage
  end.
Proof. unfold Manager.render_function. destruct (image_of f); eauto. Qed.

(** A resource of function [i + j], with [j] an index into the rest of the functions. *)
Definition rendered_from (ctx : RenderContext) (i : nat) (fs : list FunctionDeploymentSpec)
    (r : RenderedResource) : Prop :=
  ∃ j f d s, fs !! j = Some f ∧ is_wasm f = false ∧
    render_function ctx (i + j) f = Ok (d, s) ∧ (r = RDeployment d ∨ r = RService s).

Lemma rendered_from_cons ctx i f fs r :
  rendered_from ctx i (f :: fs) r ↔
  (is_wasm f = false ∧ ∃ d s, render_function ctx i f = Ok (d, s) ∧
     (r = RDeployment d ∨ r = RService s)) ∨ rendered_from ctx (S i) fs r.
Proof.
  split.
  - intros ([|j] & g & d & s & Hj & Hg & Hr & Hd); simplify_eq/=.
    + rewrite Nat.add_0_r in Hr. left. eauto.
    + rewrite Nat.add_succ_r in Hr. right. by exists j, g, d, s.
  - intros [(Hw & d & s & Hr & Hd)|(j & g & d & s & Hj & Hg & Hr & Hd)].
    + exists 0, f, d, s. by rewrite Nat.add_0_r.
    + exists (S j), g, d, s. by rewrite Nat.add_succ_r.
Qed.

(** The loop renders the functions that are not run by the data grid, and fails exactly when
    one of them has no image. *)
Lemma render_functions_spec ctx fs i :
  if existsb Manager.image_missing fs then render_functions ctx i fs = Err MissingFunctionImage
  else ∃ rs, render_functions ctx i fs = Ok rs ∧ ∀ r, r ∈ rs ↔ rendered_from ctx i fs r.
Proof.
  revert i. induction fs as [|f fs IH]; intros i; simpl.
  { exists []. split; [done|]. intros r. split; [by intros ?%elem_of_nil|].
    by intros (? & ? & ? & ? & ? & _). }
  specialize (IH (S i)). unfold Manager.image_missing at 1. destruct (is_wasm f) eqn:Ew; simpl.
  { destruct (existsb _ fs); [done|]. destruct IH as (rs & E & Hrs). exists rs. split; [done|].
    intros r. rewrite Hrs, rendered_from_cons. split; [by right|].
    intros [[? _]|?]; [congruence|done]. }
  pose proof (render_function_total ctx i f) as Hf.
  destruct (image_of f) as [img|]; simpl; [|by rewrite Hf].
  destruct Hf as (d & s & Hf). rewrite Hf. simpl.
  destruct (existsb _ fs); [by rewrite IH|]. destruct IH as (rs & -> & Hrs). simpl.
  eexists. split; [done|]. intros r. rewrite rendered_from_cons, !elem_of_cons, Hrs, Hf.
  split; [intros [->|[->|?]]; eauto 10|].
  intros [(_ & ? & ? & [= <- <-] & [->| ->])|?]; auto.
Qed.

(** The resources of a class, and when there are none. *)
Lemma render_with_spec ctx n img rs :
  Manager.render_with requests_json config_iter ctx n img = Ok rs ↔
  existsb Manager.image_missing (spec_functions (ctx_spec ctx)) = false ∧
  ∃ fns, render_functions ctx 0 (spec_functions (ctx_spec ctx)) = Ok fns ∧
    if enable_odgm_sidecar ctx
    then ∃ d s, Odgm.build_odgm_resources requests_json ctx n img true = Ok (d, s) ∧
                rs = fns ++ [RDeployment d; RService s]
    else rs = fns.
Proof.
  unfold Manager.render_with.
  pose proof (render_functions_spec ctx (spec_functions (ctx_spec ctx)) 0) as Hf.
  destruct (existsb _ _).
  { rewrite Hf. split; [done|]. by intros [? _]. }
  destruct Hf as (fns & -> & _). simpl. destruct (enable_odgm_sidecar ctx).
  - destruct (Odgm.build_odgm_resources _ _ _ _ _) as [[d s]|e|p]; simpl.
    + split; [intros [= <-]; eauto 10|]. by intros (_ & ? & [= <-] & ? & ? & [= <- <-] & ->).
    + split; [done|]. by intros (_ & ? & _ & ? & ? & ? & _).
    + split; [done|]. by intros (_ & ? & _ & ? & ? & ? & _).
  - split; [intros [= <-]; eauto|]. by intros (_ & ? & [= <-] & ->).
Qed.

Lemma odgm_resources_ok ctx n img own d s :
  Odgm.build_odgm_resources requests_json ctx n img own = Ok (d, s) →
  meta_name (dep_metadata d) = Some (Odgm.odgm_name ctx) ∧
  meta_labels (dep_metadata d) = Some (Odgm.odgm_labels ctx) ∧
  pod_labels d = Odgm.odgm_labels ctx ∧
  meta_name (svc_metadata s) = Some (Odgm.odgm_name ctx ++ lit "-svc") ∧
  meta_labels (svc_metadata s) = Some (Odgm.odgm_labels ctx) ∧
  svc_spec s ≫= ss_selector = Some (Odgm.odgm_labels ctx).
Proof.
  unfold Odgm.build_odgm_resources. destruct (Odgm.odgm_env _ _); simpl; [|done..].
  by intros [= <- <-].
Qed.

Lemma rendered_cases ctx n img rs :
  Manager.render_with requests_json config_iter ctx n img = Ok rs →
  ∀ r, r ∈ rs ↔ rendered_from ctx 0 (spec_functions (ctx_spec ctx)) r ∨
    enable_odgm_sidecar ctx = true ∧ ∃ d s,
      Odgm.build_odgm_resources requests_json ctx n img true = Ok (d, s) ∧
      (r = RDeployment d ∨ r = RService s).
Proof.
  intros (Him & fns & Hfns & Hrs)%render_with_spec r.
  pose proof (render_functions_spec ctx (spec_functions (ctx_spec ctx)) 0) as Hspec.
  rewrite Him, Hfns in Hspec. destruct Hspec as (? & [= <-] & Hspec). rewrite <- Hspec.
  destruct (enable_odgm_sidecar ctx).
  - destruct Hrs as (d & s & -> & ->). rewrite elem_of_app, !elem_of_cons, elem_of_nil.
    naive_solver.
  - subst rs. naive_solver.
Qed.

Lemma image_present fs i f : existsb Manager.image_missing fs = false → fs !! i = Some f →
  is_wasm f = false → is_Some (image_of f).
Proof.
  intros Him Hi Hw. assert (Manager.image_missing f = false) as Hm.
  { apply not_true_iff_false. intros Ht. eapply eq_true_false_abs; [|exact Him].
    apply existsb_exists. exists f. split; [|done]. apply list_elem_of_In.
    by eapply list_elem_of_lookup_2. }
  unfold Manager.image_missing in Hm. rewrite Hw in Hm. simpl in Hm.
  by apply negb_false_iff, bool_decide_eq_true in Hm.
Qed.

Lemma selects_fn ctx n labels : selects (Manager.fn_labels ctx n) labels = true ↔
  bt_get (lit "app") labels = Some n ∧ bt_get (lit "oaas.io/owner") labels = Some (ctx_name ctx).
Proof.
  rewrite fn_labels_eq. unfold selects. cbn [forallb fst snd].
  rewrite !andb_true_iff, !bool_decide_eq_true. naive_solver.
Qed.

(** The labels of function [i] are on the pods of function [i] only. *)
Lemma selected_pods ctx n img rs i d' : i < length (spec_functions (ctx_spec ctx)) →
  Manager.render_with requests_json config_iter ctx n img = Ok rs → RDeployment d' ∈ rs →
  selects (Manager.fn_labels ctx (fn_name ctx i)) (pod_labels d') = true ↔
  ∃ f s, spec_functions (ctx_spec ctx) !! i = Some f ∧ render_function ctx i f = Ok (d', s).
Proof.
  intros Hi Hr Hd'. rewrite selects_fn. split.
  - intros [Happ _]. apply (rendered_cases _ _ _ _ Hr) in Hd' as
      [(j & f & d & s & Hj & _ & Hf & [[= ->]|?])|(_ & d & s & Hb & [[= ->]|?])]; [|done| |done].
    + pose proof (render_function_ok _ _ _ _ _ Hf) as (_ & _ & Hp & _).
      rewrite Hp, fn_labels_eq in Happ. injection Happ as Happ.
      apply service_name_inj in Happ as ->; [eauto| |done].
      by eapply lookup_lt_Some.
    + pose proof (odgm_resources_ok _ _ _ _ _ _ Hb) as (_ & _ & Hp & _).
      rewrite Hp, (proj1 (odgm_labels_get ctx)) in Happ. injection Happ as Happ.
      by apply odgm_name_fresh in Happ.
  - intros (f & s & Hf & Hd). pose proof (render_function_ok _ _ _ _ _ Hd) as (_ & _ & -> & _).
    by rewrite fn_labels_eq.
Qed.

(** C25. Every function that runs in a container is reachable: its Deployment and its Service are
    rendered under one name, the Service forwards port 80 to the port of the container and
    selects the pods of this Deployment and of no other rendered one, and the route predicted
    for the function is the address of this Service. *)
Theorem functions_reachable ctx n img rs i f :
  Manager.render_with requests_json config_iter ctx n img = Ok rs →
  spec_functions (ctx_spec ctx) !! i = Some f → is_wasm f = false →
  ∃ d s port,
    RDeployment d ∈ rs ∧ RService s ∈ rs ∧
    meta_name (dep_metadata d) = Some (fn_name ctx i) ∧
    meta_name (svc_metadata s) = Some (fn_name ctx i) ∧
    pod_ports d = [port] ∧
    svc_spec s ≫= ss_ports = Some [{| sp_name := None; sp_port := 80;
                                      sp_target_port := Some port |}] ∧
    (∀ d', RDeployment d' ∈ rs → service_selects s d' = true ↔ d' = d) ∧
    fr_url (Routes.predicted_route ctx i f)
    = lit "http://" ++ fn_name ctx i ++ lit "." ++ ctx_namespace ctx ++ lit ".svc.cluster.local/".
Proof.
  intros Hr Hi Hw. pose proof Hr as (Him & _)%render_with_spec.
  pose proof (image_present _ _ _ Him Hi Hw) as [im Himg].
  pose proof (render_function_total ctx i f) as Ht. rewrite Himg in Ht.
  destruct Ht as (d & s & Hd).
  pose proof (render_function_ok _ _ _ _ _ Hd) as (Hn & _ & Hp & Hports & Hm & Hs).
  eexists d, s, _. do 2 (split; [apply (rendered_cases _ _ _ _ Hr); left; exists i, f, d, s; auto|]).
  split; [done|]. split; [by rewrite Hm|]. split; [done|].
  split; [by rewrite Hs, Hports|]. split.
  - intros d' Hd'. unfold service_selects. rewrite Hs. simpl.
    rewrite (selected_pods ctx n img rs i d') by eauto using lookup_lt_Some.
    split; [|intros ->; eauto]. intros (f' & s' & ? & ?). simplify_eq. congruence.
  - unfold Routes.predicted_route, is_wasm in *. apply bool_decide_eq_false in Hw.
    destruct (_ ≫= wasm_module_url); [by destruct Hw|done].
Qed.
End rendered.

(** ** Routes *)

Lemma or_insert_get {V} k (v : V) m k' : bt_get k' (Routes.or_insert k v m) =
  match bt_get k' m with Some x => Some x | None => if decide (k = k') then Some v else None end.
Proof.
  unfold Routes.or_insert. destruct (decide (k = k')) as [->|Hne].
  - destruct (bt_get k' m) eqn:E; [done|]. by rewrite bt_get_insert_eq.
  - destruct (bt_get k m); [|rewrite bt_get_insert_ne by done]; by destruct (bt_get k' m).
Qed.

Lemma or_insert_wf {V} k (v : V) m : bt_wf m → bt_wf (Routes.or_insert k v m).
Proof. unfold Routes.or_insert. destruct (bt_get k m); auto with oprc. Qed.

Lemma foldl_or_insert_get {V} (l m : btree str V) k : bt_wf l →
  bt_get k (foldl (λ m kv, Routes.or_insert kv.1 kv.2 m) m l) =
  match bt_get k m with Some x => Some x | None => bt_get k l end.
Proof.
  revert m. induction l as [|[k' v] l IH]; intros m Hl; simpl; [by destruct (bt_get k m)|].
  apply bt_wf_cons_inv in Hl as [Hl Hlt]. rewrite IH, or_insert_get by done. simpl.
  destruct (bt_get k m); [done|]. case_decide as E.
  - subst k'. by rewrite cmp_refl.
  - destruct (cmp k k') eqn:Ec; [by apply cmp_eq in Ec; subst|done|done].
Qed.

Lemma bt_get_fmap {V W} (g : V → W) (m : btree str V) k :
  bt_get k (prod_map id g <$> m) = g <$> bt_get k m.
Proof. induction m as [|[k' v] m IH]; simpl; [done|]. by destruct (cmp k k'). Qed.

Notation method f := (Text.last_segment (fd_function_key f)).

(** Each method name belongs to the first function whose key ends in it. *)
Lemma predicted_loop_get ctx fs i m k :
  bt_get k (Routes.predicted_loop ctx i fs m) =
  match bt_get k m with
  | Some r => Some r
  | None => (λ jf, Routes.predicted_route ctx (i + jf.1) jf.2)
              <$> list_find (λ f, method f = k) fs
  end.
Proof.
  revert i m. induction fs as [|f fs IH]; intros i m; simpl; [by destruct (bt_get k m)|].
  rewrite IH, or_insert_get. destruct (bt_get k m); [done|].
  case_decide; simpl; [by rewrite Nat.add_0_r|].
  destruct (list_find _ fs) as [[j g]|]; simpl; [|done]. by rewrite Nat.add_succ_r.
Qed.

Lemma predicted_get ctx k : bt_get k (Routes.predicted_function_routes ctx) =
  (λ jf, Routes.predicted_route ctx jf.1 jf.2)
  <$> list_find (λ f, method f = k) (spec_functions (ctx_spec ctx)).
Proof. unfold Routes.predicted_function_routes. by rewrite predicted_loop_get. Qed.

Lemma predicted_wf ctx : bt_wf (Routes.predicted_function_routes ctx).
Proof.
  unfold Routes.predicted_function_routes.
  assert (∀ fs i m, bt_wf m → bt_wf (Routes.predicted_loop ctx i fs m)) as H.
  { induction fs as [|f fs IH]; intros i m Hm; simpl; [done|]. by apply IH, or_insert_wf. }
  apply H. constructor.
Qed.

Lemma predicted_key ctx i f : fr_function_key (Routes.predicted_route ctx i f)
  = Some (fd_function_key f).
Proof. unfold Routes.predicted_route. by destruct (_ ≫= _). Qed.

(** The index by function key holds routes predicted for the function of that key. *)
Lemma fk_index_sound ctx fk r :
  bt_get fk (Routes.fk_index (Routes.predicted_function_routes ctx)) = Some r →
  ∃ j f, spec_functions (ctx_spec ctx) !! j = Some f ∧ fd_function_key f = fk ∧
         r = Routes.predicted_route ctx j f.
Proof.
  unfold Routes.fk_index.
  set (P := λ kv : str * FunctionRoute, ∃ j f, spec_functions (ctx_spec ctx) !! j = Some f ∧
              kv.2 = Routes.predicted_route ctx j f).
  assert (Forall P (Routes.predicted_function_routes ctx)) as HP.
  { apply Forall_forall. intros [k v] Hin. apply bt_get_elem in Hin; [|apply predicted_wf].
    rewrite predicted_get in Hin. apply fmap_Some in Hin as ([j f] & Hf & ->).
    apply list_find_Some in Hf as (Hj & _). by exists j, f. }
  assert (∀ l idx, Forall P l →
    (∀ fk r, bt_get fk idx = Some r → P (fk, r) ∧ fr_function_key r = Some fk) →
    ∀ fk r, bt_get fk (foldl (λ idx kv, match fr_function_key kv.2 with
      | Some fk => bt_insert fk kv.2 idx | None => idx end) idx l) = Some r →
    P (fk, r) ∧ fr_function_key r = Some fk) as H.
  { clear. induction l as [|[k v] l IH]; intros idx Hl Hidx fk r; simpl; [apply Hidx|].
    apply Forall_cons in Hl as [Hv Hl]. apply IH; [done|]. clear fk r. intros fk r.
    destruct (fr_function_key v) as [fk'|] eqn:Ek; [|apply Hidx].
    destruct (decide (fk' = fk)) as [->|Hne].
    - rewrite bt_get_insert_eq. by intros [= <-].
    - rewrite bt_get_insert_ne by done. apply Hidx. }
  intros Hr. apply H in Hr as [(j & f & Hj & Er) Hk]; [|done..]. simpl in Er. subst r.
  exists j, f. split; [done|]. rewrite predicted_key in Hk. by injection Hk as ->.
Qed.

(** The routes of a class sent to the data grid. A route given by the user stays when it has
    a URL; one without is completed with the URL of the function of its key, when that
    function is among the predicted routes; any other method gets the predicted route of the
    first function whose key ends in its name. *)
Theorem merged_routes_correct ctx inv k :
  Routes.merged_function_routes ctx = Some inv →
  let user := default [] (inv_fn_routes <$> (odgm_config (ctx_spec ctx) ≫= cfg_invocations)) in
  match bt_get k user with
  | Some v => ∃ v', bt_get k (inv_fn_routes inv) = Some v' ∧
      fr_function_key v' = fr_function_key v ∧
      (v' = v ∨ fr_url v = [] ∧ ∃ j f, spec_functions (ctx_spec ctx) !! j = Some f ∧
         fr_function_key v = Some (fd_function_key f) ∧
         fr_url v' = fr_url (Routes.predicted_route ctx j f))
  | None => bt_get k (inv_fn_routes inv) =
      (λ jf, Routes.predicted_route ctx jf.1 jf.2)
      <$> list_find (λ f, method f = k) (spec_functions (ctx_spec ctx))
  end.
Proof.
  unfold Routes.merged_function_routes. rewrite <- predicted_get.
  destruct (spec_functions (ctx_spec ctx)) as [|f0 fs0] eqn:Ef; [done|]. rewrite <- Ef. clear Ef.
  destruct (odgm_config (ctx_spec ctx) ≫= cfg_invocations) as [u|]; [|by intros [= <-]].
  cbn [fmap option_fmap option_map default from_option]. unfold id.
  destruct (inv_fn_routes u) as [|kv routes]; [by intros [= <-]|].
  intros <-%(inj Some). cbn [inv_fn_routes]. rewrite foldl_or_insert_get, bt_get_fmap by apply predicted_wf.
  destruct (bt_get k (kv :: routes)) as [v|]; simpl; [|done]. eexists. split; [done|].
  unfold Routes.enrich. destruct (fr_url v) eqn:Eurl; [|by auto].
  destruct (fr_function_key v) as [fk|] eqn:Efk; simpl; [|by rewrite Efk; auto].
  destruct (bt_get fk _) as [r|] eqn:Er; simpl; [|by rewrite Efk; auto].
  split; [done|]. right. split; [done|]. apply fk_index_sound in Er as (j & f & Hj & <- & ->).
  by exists j, f.
Qed.

(** ** When rendering fails *)

Section outcome.
Context {JsonError : Type} (requests_json : list Odgm.Request → JsonError + str).
Context (config_iter : gmap str str → list (str * str)).

(** The collection requests of the class can be serialised. *)
Definition requests_fail (ctx : RenderContext) : option JsonError :=
  if enable_odgm_sidecar ctx then
    names ← Odgm.collection_names (ctx_spec ctx);
    match requests_json (Odgm.build_requests (ctx_spec ctx) (ctx_namespace ctx) names
                           (Routes.merged_function_routes ctx)) with
    | inl e => Some e
    | inr _ => None
    end
  else None.

Lemma odgm_resources_total ctx n img own : enable_odgm_sidecar ctx = true →
  match requests_fail ctx with
  | Some e => Odgm.build_odgm_resources requests_json ctx n img own = Err (OdgmCollectionsJson e)
  | None => ∃ d s, Odgm.build_odgm_resources requests_json ctx n img own = Ok (d, s)
  end.
Proof.
  unfold requests_fail. intros ->.
  unfold Odgm.build_odgm_resources, Odgm.odgm_env, Odgm.collections_env,
    Odgm.collections_env_var_ctx.
  destruct (Odgm.collection_names _) as [names|]; simpl; [|eauto].
  destruct (requests_json _); simpl; eauto.
Qed.

Lemma render_with_total ctx n img :
  existsb Manager.image_missing (spec_functions (ctx_spec ctx)) = false →
  match requests_fail ctx with
  | Some e => Manager.render_with requests_json config_iter ctx n img
              = Err (OdgmCollectionsJson e)
  | None => ∃ rs, Manager.render_with requests_json config_iter ctx n img = Ok rs
  end.
Proof.
  intros Him. unfold Manager.render_with.
  pose proof (render_functions_spec (JsonError := JsonError) config_iter ctx
                (spec_functions (ctx_spec ctx)) 0) as Hf.
  rewrite Him in Hf. destruct Hf as (fns & -> & _). simpl.
  pose proof (odgm_resources_total ctx n img true) as Ho. unfold requests_fail in *.
  destruct (enable_odgm_sidecar ctx); [|eauto]. specialize (Ho eq_refl).
  destruct (names ← _; _); [by rewrite Ho|]. destruct Ho as (d & s & ->). simpl. eauto.
Qed.

Lemma select_elem cfg (ts : list (Manager.Template (JsonError := JsonError))) p s : ts ≠ [] →
  ∃ t, Manager.select_template cfg ts p s = Some t ∧ t ∈ ts.
Proof.
  unfold Manager.select_template. intros Hne.
  destruct (selected_template s ≫= _) as [m|] eqn:E.
  - apply bind_Some in E as (h & _ & [Hm _]%List.find_some). exists m.
    split; [done|]. by apply list_elem_of_In.
  - destruct ts as [|t ts]; [done|]. eexists. split; [done|].
    set (score u := Manager.tpl_score u (Manager.env_from_env cfg p) (nfr_requirements s)).
    destruct (best_loop_spec score t (t :: ts)) as (pre & post & Et & _).
    assert (Manager.best_loop score t (score t) (t :: ts) ∈ t :: t :: ts) as [Hb|Hb]%elem_of_cons
      by (rewrite Et; set_solver); [|exact Hb].
    change (Manager.best_loop score t (score t) (t :: ts) ∈ t :: ts). rewrite Hb. left.
Qed.

(** The outcome of rendering a class, for each of the templates: an error when a container
    function has no image or the collection requests cannot be serialised, and a panic
    exactly when the Knative template is chosen for a class whose first function has no
    image, either because there are no functions or because the data grid runs the first
    one; a list of resources in all other cases. *)
Theorem render_workload_outcome cfg kn ctx : ∃ t,
  Manager.select_template cfg (Manager.new requests_json config_iter kn) (ctx_profile ctx)
    (ctx_spec ctx) = Some t ∧
  let r := Manager.render_workload cfg (Manager.new requests_json config_iter kn) ctx in
  if existsb Manager.image_missing (spec_functions (ctx_spec ctx))
  then r = Err MissingFunctionImage
  else if bool_decide (Manager.tpl_name t = lit "knative" ∧
                       head (spec_functions (ctx_spec ctx)) ≫= image_of = None)
  then ∃ p, r = Panic p
  else match requests_fail ctx with
       | Some e => r = Err (OdgmCollectionsJson e)
       | None => ∃ rs, r = Ok rs
       end.
Proof.
  destruct (select_elem cfg (Manager.new requests_json config_iter kn) (ctx_profile ctx)
              (ctx_spec ctx)) as (t & Hsel & Ht); [done|].
  exists t. split; [done|]. unfold Manager.render_workload. rewrite Hsel. simpl.
  destruct (existsb _ _) eqn:Him; [done|].
  assert (Manager.tpl_name t ≠ lit "knative" ∧ (∃ img, Manager.tpl_render t
            = Manager.render_with_default_image requests_json config_iter img) ∨
          Manager.tpl_name t = lit "knative" ∧
          Manager.tpl_render t = Manager.render_knative requests_json config_iter) as Hc.
  { unfold Manager.new in Ht. rewrite !elem_of_app, !elem_of_cons, elem_of_nil in Ht.
    destruct Ht as [[->|[->|[->|[]]]]|Ht]; [left; split; [done|]; eauto..|].
    destruct kn; [|by apply elem_of_nil in Ht]. apply list_elem_of_singleton in Ht as ->. by right. }
  destruct Hc as [[Hn [img ->]]|[Hn ->]].
  - rewrite bool_decide_eq_false_2 by tauto. by apply render_with_total.
  - rewrite Hn. unfold Manager.render_knative.
    destruct (head _ ≫= image_of) as [im|]; [|by rewrite bool_decide_eq_true_2; eauto].
    rewrite bool_decide_eq_false_2 by naive_solver.
    pose proof (odgm_resources_total ctx 1 (odgm_image_override ctx) false) as Ho.
    unfold requests_fail in *. destruct (enable_odgm_sidecar ctx); [|eauto].
    specialize (Ho eq_refl). destruct (names ← _; _); [by rewrite Ho|].
    destruct Ho as (d & s & ->). simpl. eauto.
Qed.
End outcome.

(** ** A class with a container function and a function run by the data grid *)

Module DemoTemplates.

Definition requests_json (_ : list Odgm.Request) : Empty_set + str := inr (lit "[]").
Definition orders (m : gmap str str) : list (str * str) := map_to_list m.
Definition reversed (m : gmap str str) : list (str * str) := reverse (map_to_list m).

Definition provision (image wasm : option str) : ProvisionConfig :=
  {| container_image := image; wasm_module_url := wasm; pc_port := Some 9000%Z;
     max_concurrency := 0; need_http2 := false; cpu_request := Some (lit "100m");
     memory_request := None; cpu_limit := None; memory_limit := None; min_scale := Some 2%Z;
     max_scale := None; wasm_fuel := None |}.
Definition fn (key : string) (image wasm : option str) (config : gmap str str) :
    FunctionDeploymentSpec :=
  {| fd_function_key := lit key; fd_description := None; fd_available_location := None;
     fd_qos_requirement := None; fd_provision_config := Some (provision image wasm);
     fd_config := config |}.

Definition pay : FunctionDeploymentSpec :=
  fn "shop.pay" (Some (lit "pay:1")) None
    {[lit "OPRC_ZENOH_MODE" := lit "peer"; lit "LEVEL" := lit "debug"]}.
Definition price : FunctionDeploymentSpec :=
  fn "shop.price" None (Some (lit "https://m/price.wasm")) ∅.

Definition user_route : FunctionRoute :=
  {| fr_url := []; fr_wasm_module_url := None; fr_wasm_fuel := None; fr_stateless := None;
     fr_standby := None; fr_active_group := []; fr_function_key := Some (lit "shop.pay") |}.

Definition spec : ClassRuntimeSpec :=
  {| package_class_key := Some (lit "shop.Order"); selected_template := None;
     addons := None;
     odgm_config := Some
       {| cfg_collections := Some [lit "orders"]; cfg_partition_count := None;
          cfg_replica_count := None; cfg_shard_type := None;
          cfg_invocations := Some {| inv_fn_routes := [(lit "checkout", user_route)];
                                     inv_disabled_fn := [] |};
          cfg_options := None; cfg_log := None;
          cfg_env_node_ids := [(lit "edge", [2; 1]%Z)]; cfg_zenoh_mode := None;
          cfg_node_id := Some 1%Z; cfg_collection_assignments := [] |};
     spec_functions := [pay; price]; nfr_requirements := None; enforcement := None;
     telemetry := None |}.

Definition ctx : RenderContext :=
  {| ctx_name := lit "order"; ctx_namespace := lit "default";
     owner_api_version := lit "oaas.io/v1alpha1"; owner_kind := lit "ClassRuntime";
     owner_uid := Some (lit "u1"); enable_odgm_sidecar := true; ctx_profile := lit "prod";
     odgm_image_override := None; odgm_pull_policy_override := None;
     odgm_extra_env := Some (lit "A=1, B = 2,oops"); router_service_name := Some (lit "router");
     router_service_port := None;
     ctx_telemetry := Telemetry.from_spec_and_cluster None true (lit "http://otel:4317");
     ctx_spec := spec |}.

Definition show (l : list EnvVar) : list (str * option str) :=
  (λ e, (env_name e, env_value e)) <$> l.

Example pay_env :
  show <$> Manager.function_env orders ctx pay = Some
   [(lit "LEVEL", Some (lit "debug")); (lit "ODGM_ENABLED", Some (lit "true"));
    (lit "ODGM_SERVICE", Some (lit "order-odgm-svc:8080"));
    (lit "OPRC_ZENOH_MODE", Some (lit "peer"));
    (lit "OPRC_ZENOH_PEERS", Some (lit "tcp/router:17447"));
    (lit "OTEL_EXPORTER_OTLP_ENDPOINT", Some (lit "http://otel:4317"));
    (lit "OTEL_LOGS_ENABLED", Some (lit "false")); (lit "OTEL_SERVICE_NAME", Some (lit "order"));
    (lit "OTEL_TRACES_ENABLED", Some (lit "true"));
    (lit "OTEL_TRACES_SAMPLER", Some (lit "parentbased_traceidratio"));
    (lit "OTEL_TRACES_SAMPLER_ARG", Some (lit "0.1"))].
Proof. vm_compute. reflexivity. Qed.

Example extra_vars : show (Odgm.extra_env (lit "A=1, B = 2,oops"))
  = [(lit "A", Some (lit "1")); (lit "B", Some (lit "2"))].
Proof. vm_compute. reflexivity. Qed.

(** A data grid function first, and the Knative template: rendering panics. *)
Example knative_panics :
  let s := {| package_class_key := None; selected_template := Some (lit "kn"); addons := None;
              odgm_config := None; spec_functions := [price; pay]; nfr_requirements := None;
              enforcement := None; telemetry := None |} in
  let c := {| ctx_name := lit "order"; ctx_namespace := lit "default";
              owner_api_version := []; owner_kind := []; owner_uid := None;
              enable_odgm_sidecar := false; ctx_profile := lit "full";
              odgm_image_override := None; odgm_pull_policy_override := None;
              odgm_extra_env := None; router_service_name := None; router_service_port := None;
              ctx_telemetry := Telemetry.from_spec_and_cluster None false [];
              ctx_spec := s |} in
  Manager.render_workload None (Manager.new requests_json orders true) c
  = Panic "function image validated in TemplateManager::render_workload".
Proof. vm_compute. reflexivity. Qed.

Lemma orders_perm m : orders m ≡ₚ map_to_list m.
Proof. done. Qed.
Lemma reversed_perm m : reversed m ≡ₚ map_to_list m.
Proof. apply reverse_Permutation. Qed.

Lemma function_env_correct_witness :
  ∃ l, Manager.function_env reversed ctx pay = Some l ∧
       StronglySorted (λ a b, cmp (env_name a) (env_name b) = Lt) l.
Proof.
  pose proof (function_env_correct reversed reversed_perm ctx pay) as H.
  destruct (Manager.function_env reversed ctx pay) as [l|] eqn:E.
  - exists l. split; [reflexivity|]. exact (proj1 H).
  - exfalso. vm_compute in E. discriminate E.
Defined.

Lemma render_workload_deterministic_witness :
  Manager.render_workload None (Manager.new requests_json orders true) ctx
  = Manager.render_workload None (Manager.new requests_json reversed true) ctx.
Proof.
  exact (render_workload_deterministic requests_json orders reversed orders_perm reversed_perm
           None true ctx).
Defined.

Lemma functions_reachable_witness :
  match Manager.render_with requests_json orders ctx 1 None with
  | Ok rs => ∃ d s port, RDeployment d ∈ rs ∧ RService s ∈ rs ∧
               meta_name (svc_metadata s) = Some (lit "order-fn-0") ∧ pod_ports d = [port]
  | _ => False
  end.
Proof.
  destruct (Manager.render_with requests_json orders ctx 1 None) as [rs|e|p] eqn:E;
    [|vm_compute in E; discriminate E..].
  destruct (functions_reachable requests_json orders ctx 1 None rs 0 pay E eq_refl eq_refl)
    as (d & s & port & Hd & Hs & _ & Hn & Hp & _).
  exists d, s, port. exact (conj Hd (conj Hs (conj Hn Hp))).
Defined.

Lemma merged_routes_correct_witness :
  match Routes.merged_function_routes ctx with
  | Some inv =>
      fr_url <$> bt_get (lit "price") (inv_fn_routes inv) = Some (lit "wasm://shop.price") ∧
      fr_url <$> bt_get (lit "checkout") (inv_fn_routes inv)
      = Some (lit "http://order-fn-0.default.svc.cluster.local/")
  | None => False
  end.
Proof.
  destruct (Routes.merged_function_routes ctx) as [inv|] eqn:E; [|discriminate E].
  split.
  - pose proof (merged_routes_correct ctx inv (lit "price") E) as H. cbv zeta in H.
    change (bt_get (lit "price") (inv_fn_routes inv)
            = Some (Routes.predicted_route ctx 1 price)) in H.
    rewrite H. reflexivity.
  - injection E as <-. reflexivity.
Defined.

End DemoTemplates.
