(* ===== verification/CrmGrpc.v ===== *)
(** * Deployments over gRPC

    [control-plane/oprc-crm/src/grpc]: the class runtime resource built from a deployment unit
    ([builders/class_runtime.rs]), names, identifiers, deadlines and summaries
    ([helpers.rs]), and the deployment service ([deployment.rs]), whose handlers get, create,
    delete and list resources of the Kubernetes API server. The API server is an argument
    ([Kube]) with the documented behaviour of its calls as laws ([KubeLaws]). *)

From stdpp Require Import base tactics list list_numbers numbers option gmap strings pretty.
From Stdlib Require Import ZArith Lia.
From S2P Require Import Prelude BTree Float64 Shard Metadata Placement Routing.
From S2P Require Import Json Controller Enforcer PmModel PmUnits ClassRuntime.

Set Default Proof Using "Type".

Import Crd.

(** ** Resources *)

Record ResourceRef := { rr_kind : str; rr_name : str }.
Record RouterEndpoint := { ep_service : str; ep_port : Z }.
Notation CrStatus := (ClassRuntimeStatus ResourceRef (btree str Value) NfrRecommendation
                        RouterEndpoint).

(** [ObjectMeta] of a class runtime; times are seconds and nanoseconds. *)
Record Meta := {
  om_name : option str;
  om_generate_name : option str;
  om_namespace : option str;
  om_labels : option (btree str str);
  om_annotations : option (btree str str);
  om_uid : option str;
  om_generation : option Z;
  om_finalizers : option (list str);
  om_deletion_timestamp : option (Z * Z);
  om_creation_timestamp : option (Z * Z);
}.

Record ClassRuntime := {
  cr_meta : Meta;
  cr_spec : ClassRuntimeSpec;
  cr_status : option CrStatus;
}.

(** [ResourceExt::name_any] *)
Definition name_any (cr : ClassRuntime) : str :=
  default [] (Status.or_else (om_name (cr_meta cr)) (om_generate_name (cr_meta cr))).

(** ** The deployment unit on the wire *)

Record ProtoFunction := {
  pf_function_key : str;
  pf_description : option str;
  pf_available_location : option str;
  pf_provision_config : option ProvisionConfig;
  pf_config : gmap str str;
}.

Record ProtoUnit := {
  du_id : str;
  du_package_name : str;
  du_class_key : str;
  du_functions : list ProtoFunction;
  du_target_env : str;
  du_function_bindings : list UnitBinding;
  du_created_at : option (Z * Z);
  du_odgm_config : option OdgmConfig;
  du_selected_template : option str;
  du_telemetry : option UnitTelemetry;
}.

(** ** Building a class runtime *)

Module Builder.

(** [x as u16] *)
Definition as_u16 (z : Z) : Z := (z mod 2 ^ 16)%Z.

(** Inserting the entries of a list one after the other; a [HashMap] collected into a
    [BTreeMap]. *)
Definition collect {V} (l : list (str * V)) : btree str V :=
  foldl (λ m kv, bt_insert kv.1 kv.2 m) [] l.
Definition to_btree {V} (m : gmap str V) : btree str V := collect (map_to_list m).

Section builder.
Context (name deployment_id : str) (corr : option str) (du : ProtoUnit).

Record FnIndex := { fi_idx : nat; fi_port : Z; fi_wasm_url : option str; fi_fuel : option Z }.

Definition index_entry (i : nat) (f : ProtoFunction) : str * FnIndex :=
  (pf_function_key f,
   {| fi_idx := i;
      fi_port := as_u16 (default 8080%Z (pf_provision_config f ≫= pc_port));
      fi_wasm_url := pf_provision_config f ≫= wasm_module_url;
      fi_fuel := pf_provision_config f ≫= wasm_fuel |}).

(** Functions by key, and the function keys of the bindings by name; the last one wins. *)
Definition fk_index : btree str FnIndex := collect (imap index_entry (du_functions du)).
Definition binding_index : btree str str :=
  collect ((λ b, (ub_name b, ub_function_key b)) <$> du_function_bindings du).

(** URL and module of a route to the function of key [fk]; [url] when it is unknown. *)
Definition resolve (fk : option str) (url : str) : str * option str :=
  match fk with
  | Some fk =>
      match bt_get fk fk_index with
      | Some fi =>
          match fi_wasm_url fi with
          | Some module_url => (lit "wasm://" ++ fk, Some module_url)
          | None => (Names.function_service_url name (fi_idx fi) (length (du_functions du)), None)
          end
      | None => (url, None)
      end
  | None => (url, None)
  end.

Definition mapped_route (k : str) (v : UnitRoute) : FunctionRoute :=
  let resolved_fk := Status.or_else (ur_function_key v) (bt_get k binding_index) in
  let '(url, wasm_module_url) := resolve resolved_fk (ur_url v) in
  {| fr_url := url; fr_wasm_module_url := wasm_module_url;
     fr_wasm_fuel := (fk ← resolved_fk; fi ← bt_get fk fk_index; fi_fuel fi);
     fr_stateless := ur_stateless v; fr_standby := ur_standby v;
     fr_active_group := ur_active_group v; fr_function_key := resolved_fk |}.

Definition map_invocations_from_proto (cfg : OdgmConfig) : option InvocationsSpec :=
  (λ '(fn_routes, disabled_fn),
    {| inv_fn_routes := collect ((λ kv, (kv.1, mapped_route kv.1 kv.2))
                                   <$> map_to_list fn_routes);
       inv_disabled_fn := disabled_fn |}) <$> oc_invocations cfg.

Definition build_invocations : option InvocationsSpec :=
  match du_functions du with
  | [] => None
  | _ => Some {| inv_fn_routes := []; inv_disabled_fn := [] |}
  end.

Definition binding_route (b : UnitBinding) (fi : FnIndex) : FunctionRoute :=
  let base := Names.dns1035_safe name in
  let '(url, wasm_module_url) :=
    match fi_wasm_url fi with
    | Some module_url => (lit "wasm://" ++ ub_function_key b, Some module_url)
    | None =>
        let base_name := if (1 <? length (du_functions du))%nat
                         then base ++ lit "-fn-" ++ dec (fi_idx fi) else base in
        (lit "http://" ++ base_name, None)
    end in
  {| fr_url := url; fr_wasm_module_url := wasm_module_url; fr_wasm_fuel := fi_fuel fi;
     fr_stateless := ub_stateless b; fr_standby := Some false; fr_active_group := [];
     fr_function_key := Some (ub_function_key b) |}.

Definition invocations_from_bindings : option InvocationsSpec :=
  match du_function_bindings du, du_functions du with
  | [], _ | _, [] => None
  | bindings, _ =>
      let routes := foldl (λ m b, match bt_get (ub_function_key b) fk_index with
                                  | Some fi => bt_insert (ub_name b) (binding_route b fi) m
                                  | None => m
                                  end) [] bindings in
      match routes with
      | [] => None
      | _ => Some {| inv_fn_routes := routes; inv_disabled_fn := [] |}
      end
  end.

Definition build_odgm_config : option OdgmConfigSpec :=
  match du_odgm_config du with
  | Some cfg =>
      Some {| cfg_collections := match oc_collections cfg with [] => None | l => Some l end;
              cfg_partition_count := as_i32 <$> oc_partition_count cfg;
              cfg_replica_count := as_i32 <$> oc_replica_count cfg;
              cfg_shard_type := oc_shard_type cfg;
              cfg_invocations := match map_invocations_from_proto cfg with
                                 | Some inv => Some inv
                                 | None => invocations_from_bindings
                                 end;
              cfg_options := if decide (oc_options cfg = ∅) then None
                             else Some (to_btree (oc_options cfg));
              cfg_log := oc_log cfg;
              cfg_env_node_ids := to_btree (oc_env_node_ids cfg);
              cfg_zenoh_mode := oc_zenoh_mode cfg;
              cfg_node_id := oc_odgm_node_id cfg;
              cfg_collection_assignments := to_btree (oc_collection_assignments cfg) |}
  | None =>
      match du_functions du with
      | [] => None
      | _ =>
          Some {| cfg_collections := Some [name]; cfg_partition_count := Some 1%Z;
                  cfg_replica_count := Some 1%Z; cfg_shard_type := Some (lit "mst");
                  cfg_invocations := build_invocations; cfg_options := None; cfg_log := None;
                  cfg_env_node_ids := []; cfg_zenoh_mode := None; cfg_node_id := None;
                  cfg_collection_assignments := [] |}
      end
  end.

Definition build_telemetry : option TelemetrySpec :=
  (λ t, {| tls_enabled := Some (ut_enabled t); tls_traces := ut_traces t;
           tls_metrics := ut_metrics t; tls_logs := ut_logs t;
           tls_sampling_rate := ut_sampling_rate t; tls_service_name := ut_service_name t;
           tls_resource_attributes := to_btree (ut_resource_attributes t) |})
  <$> du_telemetry du.

Definition map_function (f : ProtoFunction) : FunctionDeploymentSpec :=
  {| fd_function_key := pf_function_key f; fd_description := pf_description f;
     fd_available_location := pf_available_location f; fd_qos_requirement := None;
     fd_provision_config :=
       (λ p, {| container_image := container_image p; wasm_module_url := wasm_module_url p;
                pc_port := as_u16 <$> pc_port p; max_concurrency := max_concurrency p;
                need_http2 := need_http2 p; cpu_request := cpu_request p;
                memory_request := memory_request p; cpu_limit := cpu_limit p;
                memory_limit := memory_limit p; min_scale := min_scale p;
                max_scale := max_scale p; wasm_fuel := wasm_fuel p |})
       <$> pf_provision_config f;
     fd_config := pf_config f |}.

(** A function has something to run: an image or a module. *)
Definition runnable (f : ProtoFunction) : bool :=
  bool_decide (is_Some (pf_provision_config f ≫= container_image))
  || bool_decide (is_Some (pf_provision_config f ≫= wasm_module_url)).

Definition build_functions : list FunctionDeploymentSpec :=
  map_function <$> filter (λ f, runnable f = true) (du_functions du).

(** [sanitize_name] *)
Definition sanitize_name (id : str) : str :=
  Names.trim_end (Names.trim_start (Names.sanitize <$> (Names.lower <$> id))).

Definition LABEL_DEPLOYMENT_ID : str := lit "oaas.io/deployment-id".
Definition ANNO_CORRELATION_ID : str := lit "oaas.io/correlation-id".

Definition build : ClassRuntime :=
  {| cr_meta :=
       {| om_name := Some name; om_generate_name := None; om_namespace := None;
          om_labels := Some (bt_insert LABEL_DEPLOYMENT_ID (sanitize_name deployment_id) []);
          om_annotations := (λ c, bt_insert ANNO_CORRELATION_ID c []) <$> corr;
          om_uid := None; om_generation := None; om_finalizers := None;
          om_deletion_timestamp := None; om_creation_timestamp := None |};
     cr_spec :=
       {| package_class_key := Some (du_package_name du ++ lit "." ++ du_class_key du);
          selected_template := du_selected_template du; addons := None;
          odgm_config := build_odgm_config; spec_functions := build_functions;
          nfr_requirements := None; enforcement := None; telemetry := build_telemetry |};
     cr_status := None |}.

End builder.

End Builder.

(** ** Helpers *)

(** Codes of [tonic::Status] *)
Inductive Code : Type := InvalidArgument | NotFound | AlreadyExists | DeadlineExceeded | Internal.
Record GrpcStatus := { code : Code; status_message : str }.

(** An error of the Kubernetes client: the code of an API error, and its text. *)
Record KubeError := { api_code : option Z; error_text : str }.

Inductive DeploymentCondition : Type := CondPending | CondDeploying | CondRunning | CondDown.
Inductive DeploymentPhase : Type := ResourceProvisioning | PhaseRunning.

Record ResourceReference := {
  rref_kind : str;
  rref_name : str;
  rref_namespace : option str;
  rref_uid : option str;
}.

Record RuntimeStatus := {
  rs_condition : DeploymentCondition;
  rs_phase : DeploymentPhase;
  rs_message : option str;
  rs_last_updated : str;
  rs_functions : list FunctionStatus;
}.

Record ClassRuntimeSummary := {
  sum_id : str;
  sum_deployment_unit_id : str;
  sum_package_name : str;
  sum_class_key : str;
  sum_target_environment : str;
  sum_cluster_name : option str;
  sum_status : option RuntimeStatus;
  sum_resource_refs : list ResourceReference;
  sum_created_at : str;
  sum_updated_at : str;
  sum_partition_count : Z;
}.

Module Helpers.

Definition status (c : Code) (m : string) : GrpcStatus :=
  {| code := c; status_message := lit m |}.

Definition internal (e : KubeError) : GrpcStatus :=
  {| code := Internal; status_message := error_text e |}.

Definition is_true (c : Condition) (t : ConditionType) : bool :=
  bool_decide (type_ c = t) && match cstatus c with CTrue => true | _ => false end.

Definition degraded_text (c : Condition) : str :=
  lit "Degraded"
  ++ match creason c with Some r => lit " (" ++ r ++ lit ")" | None => [] end
  ++ match cmessage c with Some m => lit ": " ++ m | None => [] end.

(** Without a telling condition: the phase, the message or a fixed text. *)
Definition summarize_fallback (s : CrStatus) : str :=
  match phase s, message s with
  | Some p, _ => p
  | None, Some m => m
  | None, None => lit "found"
  end.

Definition summarize_status (s : CrStatus) : str :=
  match conditions s with
  | Some conds =>
      if existsb (λ c, is_true c CAvailable) conds then lit "Available"
      else match List.find (λ c, is_true c CDegraded) conds with
           | Some c => degraded_text c
           | None => if existsb (λ c, is_true c CProgressing) conds then lit "Progressing"
                     else summarize_fallback s
           end
  | None => summarize_fallback s
  end.

(** Nanoseconds of a [grpc-timeout] header, [None] when it is absent or malformed. *)
Definition parse_grpc_timeout (header : option str) : option Z :=
  val ← header;
  match last val with
  | None => None
  | Some unit_ =>
      n ← Parse.u64 (removelast val);
      let secs s := (Z.min s u64_max * 10 ^ 9)%Z in
      if bool_decide ([unit_] = lit "H") then Some (secs (n * 3600))%Z
      else if bool_decide ([unit_] = lit "M") then Some (secs (n * 60))%Z
      else if bool_decide ([unit_] = lit "S") then Some (secs n)
      else if bool_decide ([unit_] = lit "m") then Some (n * 10 ^ 6)%Z
      else if bool_decide ([unit_] = lit "u") then Some (n * 10 ^ 3)%Z
      else if bool_decide ([unit_] = lit "n") then Some n
      else None
  end.

Definition validate_name (name : str) : res GrpcStatus unit :=
  match name with
  | [] => Err (status InvalidArgument "invalid deployment_id: empty after sanitization")
  | _ => if (253 <? length name)%nat
         then Err (status InvalidArgument "invalid deployment_id: length exceeds 253 characters")
         else Ok tt
  end.

Definition validate_existing_id (existing : ClassRuntime) (requested_id : str) :
    res GrpcStatus unit :=
  match om_labels (cr_meta existing) with
  | None => Err (status AlreadyExists "resource name in use by a different deployment (no label)")
  | Some lbls =>
      if bool_decide (bt_get Builder.LABEL_DEPLOYMENT_ID lbls = Some requested_id) then Ok tt
      else Err (status AlreadyExists "resource name in use by a different deployment")
  end.

(** The deployment of a resource: its label, else its name. *)
Definition deployment_key (dr : ClassRuntime) : str :=
  default (name_any dr) (om_labels (cr_meta dr) ≫= bt_get Builder.LABEL_DEPLOYMENT_ID).

Definition map_crd_to_proto (dr : ClassRuntime) : ProtoUnit :=
  {| du_id := deployment_key dr; du_package_name := []; du_class_key := name_any dr;
     du_functions := []; du_target_env := default [] (om_namespace (cr_meta dr));
     du_function_bindings := []; du_created_at := om_creation_timestamp (cr_meta dr);
     du_odgm_config := None; du_selected_template := selected_template (cr_spec dr);
     du_telemetry := None |}.

Definition condition_of (msg : str) : DeploymentCondition :=
  if Text.starts_with (lit "Available") msg || bool_decide (msg = lit "found") then CondRunning
  else if Text.starts_with (lit "Progressing") msg then CondDeploying
  else if Text.starts_with (lit "Degraded") msg then CondDown
  else CondPending.

(** [created] is the text of the creation time, [now] the clock. *)
Definition map_crd_to_summary (created : Z * Z → str) (now : str) (dr : ClassRuntime) :
    ClassRuntimeSummary :=
  let '(condition, phase, msg) :=
    match cr_status dr with
    | Some st =>
        let msg := summarize_status st in
        let cond := condition_of msg in
        (cond, match cond with CondRunning => PhaseRunning | _ => ResourceProvisioning end,
         Some msg)
    | None => (CondPending, ResourceProvisioning, Some (lit "Pending"))
    end in
  let created_at := default now (created <$> om_creation_timestamp (cr_meta dr)) in
  let class_key := default (name_any dr) (package_class_key (cr_spec dr)) in
  {| sum_id := deployment_key dr; sum_deployment_unit_id := deployment_key dr;
     sum_package_name := match Text.rsplit_once 46 class_key with
                         | Some (pkg, _) => pkg | None => [] end;
     sum_class_key := class_key;
     sum_target_environment := default [] (om_namespace (cr_meta dr));
     sum_cluster_name := om_namespace (cr_meta dr);
     sum_status := Some
       {| rs_condition := condition; rs_phase := phase; rs_message := msg;
          rs_last_updated := now; rs_functions := default [] (cr_status dr ≫= functions) |};
     sum_resource_refs :=
       (λ r, {| rref_kind := rr_kind r; rref_name := rr_name r;
                rref_namespace := om_namespace (cr_meta dr);
                rref_uid := om_uid (cr_meta dr) |})
       <$> default [] (cr_status dr ≫= resource_refs);
     sum_created_at := created_at; sum_updated_at := created_at;
     sum_partition_count :=
       ((default 1 (odgm_config (cr_spec dr) ≫= cfg_partition_count)) mod 2 ^ 32)%Z |}.

(** Nodes by their conditions, each a type and a status. *)
Definition count_nodes (nodes : list (option (option (list (str * str))))) : Z * Z :=
  let ready (n : option (option (list (str * str)))) :=
    existsb (λ c, bool_decide (c.1 = lit "Ready") && bool_decide (c.2 = lit "True"))
      (default [] (n ≫= id)) in
  ((Z.of_nat (length nodes) mod 2 ^ 32)%Z, Z.of_nat (length (List.filter ready nodes))).

End Helpers.

(** ** The API server *)

Inductive KubeOut (A : Type) : Type :=
| KDone (a : A)
| KFail (e : KubeError)
| KTimeout.
Arguments KDone {A} a.
Arguments KFail {A} e.
Arguments KTimeout {A}.

(** Calls on the class runtimes of a namespace, under an optional time limit. *)
Class Kube (W : Type) := {
  kube_get : option Z → str → str → W → KubeOut (option ClassRuntime) * W;
  kube_create : option Z → str → ClassRuntime → W → KubeOut ClassRuntime * W;
  kube_delete : option Z → str → str → W → KubeOut unit * W;
  kube_list : option Z → str → W → KubeOut (list ClassRuntime) * W;
}.

(** What the server makes of a resource it is asked to create. *)
Definition created (ns : str) (cr cr' : ClassRuntime) : Prop :=
  cr_spec cr' = cr_spec cr ∧ cr_status cr' = None ∧
  om_name (cr_meta cr') = om_name (cr_meta cr) ∧ om_namespace (cr_meta cr') = Some ns ∧
  om_labels (cr_meta cr') = om_labels (cr_meta cr) ∧
  om_annotations (cr_meta cr') = om_annotations (cr_meta cr) ∧
  om_deletion_timestamp (cr_meta cr') = None.

(** The documented behaviour of the calls: reads see the stored resources and change none, a
    resource is created under a free name only, a deletion is carried out or recorded in the
    resource, a name that is not there is answered by 404, and only a call with a time limit
    runs out of time. *)
Class KubeLaws (W : Type) `{Kube W} := {
  view : W → gmap (str * str) ClassRuntime;
  kube_get_view t ns n w o w' : kube_get t ns n w = (o, w') → view w' = view w;
  kube_get_done t ns n w r w' : kube_get t ns n w = (KDone r, w') → r = view w !! (ns, n);
  kube_get_limit ns n w w' : kube_get None ns n w ≠ (KTimeout, w');
  kube_create_done t ns n cr w cr' w' :
    om_name (cr_meta cr) = Some n → kube_create t ns cr w = (KDone cr', w') →
    view w !! (ns, n) = None ∧ view w' = <[(ns, n) := cr']> (view w) ∧ created ns cr cr';
  kube_delete_done t ns n w w' : kube_delete t ns n w = (KDone tt, w') →
    is_Some (view w !! (ns, n)) ∧ (∀ k, k ≠ (ns, n) → view w' !! k = view w !! k) ∧
    match view w' !! (ns, n) with
    | Some cr => is_Some (om_deletion_timestamp (cr_meta cr))
    | None => True
    end;
  kube_delete_missing t ns n w e w' : kube_delete t ns n w = (KFail e, w') →
    api_code e = Some 404%Z → view w !! (ns, n) = None ∧ view w' = view w;
  kube_list_view t ns w o w' : kube_list t ns w = (o, w') → view w' = view w;
  kube_list_done t ns w l w' : kube_list t ns w = (KDone l, w') →
    ∃ items : list (str * ClassRuntime), l = items.*2 ∧ NoDup items.*1 ∧
      ∀ n cr, (n, cr) ∈ items ↔ view w !! (ns, n) = Some cr;
}.

(** ** The service *)

Record DeployResponse := { dresp_deployment_id : str; dresp_message : option str }.
Record DeploymentStatusResponse := {
  sresp_deployment : option ProtoUnit;
  sresp_message : option str;
  sresp_resource_refs : list ResourceReference;
}.
Record ListRequest := { list_status : option str; list_limit : option Z; list_offset : option Z }.

Module DeploymentSvc.
Section service.
Context {W : Type} `{Kube W} (default_namespace : str).
Open Scope prog_scope.

(** The answer of a call, with the time limit reported as an exceeded deadline. *)
Definition answered {A} (call : W → KubeOut A * W) : M W GrpcStatus A := λ w,
  match call w with
  | (KDone a, w) => (Ok a, w)
  | (KFail e, w) => (Err (Helpers.internal e), w)
  | (KTimeout, w) => (Err (Helpers.status DeadlineExceeded "deadline exceeded"), w)
  end.

(** A response with the correlation identifier of the request. *)
Definition attach_corr {A} (corr : option str) (a : A) : A * option str := (a, corr).

Definition deploy (corr timeout_header : option str) (deployment_unit : option ProtoUnit) :
    M W GrpcStatus (DeployResponse * option str) :=
  let timeout := Helpers.parse_grpc_timeout timeout_header in
  match deployment_unit with
  | None => throw (Helpers.status InvalidArgument "deployment_unit is required")
  | Some du =>
      let name := Builder.sanitize_name (du_id du) in
      lift_res (Helpers.validate_name name) ;;;
      let dr := Builder.build name (du_id du) corr du in
      let! existing := answered (kube_get timeout default_namespace name) in
      match existing with
      | Some existing => lift_res (Helpers.validate_existing_id existing (du_id du))
      | None => answered (kube_create timeout default_namespace dr) ;;; ret tt
      end ;;;
      ret (attach_corr corr {| dresp_deployment_id := du_id du;
                               dresp_message := Some (lit "accepted") |})
  end.

(** The name of the resource of a deployment, for the other requests. *)
Definition resource_name (deployment_id : str) : M W GrpcStatus str :=
  match deployment_id with
  | [] => throw (Helpers.status InvalidArgument "deployment_id required")
  | _ =>
      let name := Builder.sanitize_name deployment_id in
      lift_res (Helpers.validate_name name) ;;; ret name
  end.

Definition get_deployment_status (corr timeout_header : option str) (deployment_id : str) :
    M W GrpcStatus (DeploymentStatusResponse * option str) :=
  let timeout := Helpers.parse_grpc_timeout timeout_header in
  let! name := resource_name deployment_id in
  let! found := answered (kube_get timeout default_namespace name) in
  match found with
  | Some dr =>
      ret (attach_corr corr
        {| sresp_deployment := Some (Helpers.map_crd_to_proto dr);
           sresp_message := Some (default (lit "found") (Helpers.summarize_status <$> cr_status dr));
           sresp_resource_refs :=
             (λ r, {| rref_kind := rr_kind r; rref_name := rr_name r;
                      rref_namespace := Some (default [] (om_namespace (cr_meta dr)));
                      rref_uid := om_uid (cr_meta dr) |})
             <$> default [] (cr_status dr ≫= resource_refs) |})
  | None => throw (Helpers.status NotFound "deployment not found")
  end.

Definition delete_deployment (corr timeout_header : option str) (deployment_id : str) :
    M W GrpcStatus (str * option str) :=
  let timeout := Helpers.parse_grpc_timeout timeout_header in
  let! name := resource_name deployment_id in
  λ w,
    match kube_delete timeout default_namespace name w with
    | (KDone _, w) => (Ok (attach_corr corr (lit "deleted")), w)
    | (KTimeout, w) => (Err (Helpers.status DeadlineExceeded "deadline exceeded"), w)
    | (KFail e, w) =>
        (Err (if bool_decide (api_code e = Some 504%Z)
              then Helpers.status DeadlineExceeded "deadline exceeded"
              else if bool_decide (api_code e = Some 404%Z)
              then Helpers.status NotFound "deployment not found"
              else Helpers.internal e), w)
    end.

(** The resources a listing asks for. *)
Definition wanted (req : ListRequest) (dr : ClassRuntime) : bool :=
  match list_status req with
  | Some want => match cr_status dr with
                 | Some st => bool_decide (Helpers.summarize_status st = want)
                 | None => false
                 end
  | None => true
  end.

Definition page (req : ListRequest) {A} (l : list A) : list A :=
  let offset := Z.to_nat (default 0%Z (list_offset req)) in
  let limit := Z.to_nat (default u32_max (list_limit req)) in
  if (length l <=? offset)%nat then []
  else take (Nat.min (offset + limit) (length l) - offset) (drop offset l).

Definition list_class_runtimes (created : Z * Z → str) (now : str) (timeout_header : option str)
    (req : ListRequest) : M W GrpcStatus (list ClassRuntimeSummary) :=
  let timeout := Helpers.parse_grpc_timeout timeout_header in
  let! listed := answered (kube_list timeout default_namespace) in
  ret (page req (Helpers.map_crd_to_summary created now <$> List.filter (wanted req) listed)).

Definition get_class_runtime (created : Z * Z → str) (now : str) (deployment_id : str) :
    M W GrpcStatus ClassRuntimeSummary :=
  let! name := resource_name deployment_id in
  let! found := answered (kube_get None default_namespace name) in
  match found with
  | Some dr => ret (Helpers.map_crd_to_summary created now dr)
  | None => throw (Helpers.status NotFound "deployment not found")
  end.

End service.
End DeploymentSvc.

(** ** Names *)

Lemma sanitize_chars s : Forall (λ c, label_char c = true) s →
  Names.sanitize <$> (Names.lower <$> s) = s.
Proof.
  induction 1 as [|c s Hc _ IH]; [done|]. rewrite !fmap_cons. by rewrite label_char_fixed, IH.
Qed.

Lemma sanitize_name_chars id : Forall (λ c, label_char c = true) (Builder.sanitize_name id).
Proof.
  unfold Builder.sanitize_name. apply trim_end_Forall.
  destruct (trim_start_spec (Names.sanitize <$> (Names.lower <$> id))) as (pre & E & _ & _).
  assert (Forall (λ c, label_char c = true) (Names.sanitize <$> (Names.lower <$> id))) as H.
  { rewrite !Forall_fmap. apply Forall_true. intros c. apply sanitize_lower. }
  rewrite E in H. by apply Forall_app in H as [_ ?].
Qed.

(** What the service makes of an identifier is left alone by it. *)
Lemma sanitize_name_idemp id :
  Builder.sanitize_name (Builder.sanitize_name id) = Builder.sanitize_name id.
Proof.
  pose proof (sanitize_name_chars id) as Hc. unfold Builder.sanitize_name at 1.
  rewrite sanitize_chars by done. unfold Builder.sanitize_name in *.
  set (s := Names.trim_start _) in *.
  assert (head s ≠ Some Names.dash) as Hh by (unfold s; by destruct (trim_start_spec
    (Names.sanitize <$> (Names.lower <$> id))) as (? & ? & ? & ?)).
  destruct (trim_end_spec s) as (suf & E & Hs & Hl).
  rewrite trim_start_id; [by apply trim_end_id|].
  rewrite E in Hh. by destruct (Names.trim_end s).
Qed.

Lemma sanitize_label id : dns_label id → Builder.sanitize_name id = id.
Proof.
  intros (_ & Hc & (c & Hh & Hl) & Hd). unfold Builder.sanitize_name.
  rewrite sanitize_chars, trim_start_id, trim_end_id; [done|done| |done].
  rewrite Hh. intros [= ->]. done.
Qed.

(** ** The deployment service *)

Section deployments.
Context {W : Type} `{KubeLaws W} (ns : str).

Lemma answered_ok {A} (call : W → KubeOut A * W) w a w' :
  DeploymentSvc.answered call w = (Ok a, w') ↔ call w = (KDone a, w').
Proof. unfold DeploymentSvc.answered. destruct (call w) as [[] ?]; naive_solver. Qed.

Lemma valid_name_ok name : Helpers.validate_name name = Ok tt ↔ 0 < length name ≤ 253.
Proof.
  unfold Helpers.validate_name. destruct name as [|c s]; simpl; [split; [done|lia]|].
  destruct (Nat.ltb_spec 253 (S (length s))); split; try done; lia.
Qed.

Lemma bind_Ok {S E A B} (m : M S E A) (f : A → M S E B) s b s' :
  bind m f s = (Ok b, s') → ∃ a s1, m s = (Ok a, s1) ∧ f a s1 = (Ok b, s').
Proof. unfold bind. destruct (m s) as [[] ?]; naive_solver. Qed.

(** The stored resource of a deployment carries its identifier in the label. *)
Definition labelled (cr : ClassRuntime) (id : str) : Prop :=
  ∃ lbls, om_labels (cr_meta cr) = Some lbls ∧ bt_get Builder.LABEL_DEPLOYMENT_ID lbls = Some id.

Lemma existing_ok cr id : Helpers.validate_existing_id cr id = Ok tt ↔ labelled cr id.
Proof.
  unfold Helpers.validate_existing_id, labelled. destruct (om_labels (cr_meta cr)) as [l|].
  - case_bool_decide; naive_solver.
  - naive_solver.
Qed.

Lemma created_labelled cr name id corr du : created ns (Builder.build name id corr du) cr →
  labelled cr (Builder.sanitize_name id).
Proof. intros (_ & _ & _ & _ & Hl & _). eexists. split; [exact Hl|]. apply bt_get_insert_eq. Qed.

(** A deployment that is accepted is in the cluster: under the name made from its identifier
    there is a resource, a new one built from the unit when there was none, and otherwise the
    one that was there, labelled with the same identifier; no other resource changes. *)
Lemma deploy_stored corr th du w r w' :
  DeploymentSvc.deploy ns corr th (Some du) w = (Ok r, w') →
  let name := Builder.sanitize_name (du_id du) in
  0 < length name ≤ 253 ∧
  (∀ k, k ≠ (ns, name) → view w' !! k = view w !! k) ∧
  ∃ cr, view w' !! (ns, name) = Some cr ∧
    match view w !! (ns, name) with
    | Some old => cr = old ∧ labelled cr (du_id du)
    | None => created ns (Builder.build name (du_id du) corr du) cr ∧ labelled cr name
    end.
Proof.
  set (name := Builder.sanitize_name (du_id du)). unfold DeploymentSvc.deploy. fold name.
  intros ([] & w0 & Hv & Hd)%bind_Ok. injection Hv as Hv <-. apply valid_name_ok in Hv.
  apply bind_Ok in Hd as (existing & w1 & Hg%answered_ok & Hd).
  pose proof (kube_get_view _ _ _ _ _ _ Hg) as Hw1. apply kube_get_done in Hg.
  apply bind_Ok in Hd as ([] & w2 & Hd & Hr). injection Hr as <- <-.
  split; [done|]. rewrite <- Hg. destruct existing as [old|].
  - injection Hd as Hd <-. apply existing_ok in Hd. rewrite Hw1. split; [done|]. by exists old.
  - apply bind_Ok in Hd as (cr & w3 & Hc%answered_ok & Hr). injection Hr as <-.
    eapply kube_create_done in Hc as (_ & Hw3 & Hcr); [|done]. rewrite Hw3, Hw1. split.
    + intros k Hk. by rewrite lookup_insert_ne.
    + exists cr. rewrite lookup_insert_eq. split; [done|]. split; [done|].
      by eapply created_labelled.
Qed.

(** Deploying an identifier a second time, while its resource is there as it was created: the
    service accepts exactly the identifiers it does not change, and keeps the resource as it
    is, whatever the second unit asks for; every other identifier is refused as that of a
    different deployment. *)
Theorem redeploy corr th corr' th' du du' w r w1 w2 o :
  view w !! (ns, Builder.sanitize_name (du_id du)) = None →
  DeploymentSvc.deploy ns corr th (Some du) w = (Ok r, w1) →
  du_id du' = du_id du →
  kube_get (Helpers.parse_grpc_timeout th') ns (Builder.sanitize_name (du_id du)) w1
  = (KDone o, w2) →
  view w2 = view w1 ∧
  DeploymentSvc.deploy ns corr' th' (Some du') w1 =
  (if decide (Builder.sanitize_name (du_id du) = du_id du)
   then Ok ({| dresp_deployment_id := du_id du; dresp_message := Some (lit "accepted") |}, corr')
   else Err (Helpers.status AlreadyExists "resource name in use by a different deployment"), w2).
Proof.
  intros Hnone Hd Hid Hg. destruct (deploy_stored _ _ _ _ _ _ Hd) as (Hv & _ & cr & Hcr & Hm).
  rewrite Hnone in Hm. destruct Hm as [_ (lbls & Hl & Hb)].
  pose proof (kube_get_view _ _ _ _ _ _ Hg) as Hw. split; [done|].
  unfold DeploymentSvc.deploy. rewrite Hid.
  rewrite (bind_ok _ _ w1 tt w1); [|by unfold lift_res; rewrite (proj2 (valid_name_ok _) Hv)].
  pose proof (kube_get_done _ _ _ _ _ _ Hg) as ->. rewrite Hcr in Hg.
  rewrite (bind_ok _ _ w1 (Some cr) w2) by by apply answered_ok.
  unfold Helpers.validate_existing_id. rewrite Hl, Hb. case_decide as E.
  - by rewrite bool_decide_eq_true_2 by congruence.
  - by rewrite bool_decide_eq_false_2 by congruence.
Qed.

(** The status of an accepted deployment can be asked for with its identifier, and names the
    identifier that the label keeps. *)
Theorem deploy_then_status corr th corr' th' du w r w1 o w2 :
  view w !! (ns, Builder.sanitize_name (du_id du)) = None → du_id du ≠ [] →
  DeploymentSvc.deploy ns corr th (Some du) w = (Ok r, w1) →
  kube_get (Helpers.parse_grpc_timeout th') ns (Builder.sanitize_name (du_id du)) w1
  = (KDone o, w2) →
  ∃ resp, DeploymentSvc.get_deployment_status ns corr' th' (du_id du) w1 = (Ok (resp, corr'), w2) ∧
    sresp_message resp = Some (lit "found") ∧
    du_id <$> sresp_deployment resp = Some (Builder.sanitize_name (du_id du)) ∧
    du_class_key <$> sresp_deployment resp = Some (Builder.sanitize_name (du_id du)).
Proof.
  intros Hnone Hne Hd Hg. destruct (deploy_stored _ _ _ _ _ _ Hd) as (Hv & _ & cr & Hcr & Hm).
  rewrite Hnone in Hm. destruct Hm as [(_ & Hst & Hn & _) (lbls & Hl & Hb)].
  pose proof (kube_get_done _ _ _ _ _ _ Hg) as ->. rewrite Hcr in Hg.
  assert (DeploymentSvc.resource_name (W := W) (du_id du) w1
          = (Ok (Builder.sanitize_name (du_id du)), w1)) as Hrn.
  { unfold DeploymentSvc.resource_name. destruct (du_id du); [done|].
    by rewrite (bind_ok _ _ w1 tt w1) by (unfold lift_res; by rewrite (proj2 (valid_name_ok _) Hv)). }
  unfold DeploymentSvc.get_deployment_status. rewrite (bind_ok _ _ _ _ _ Hrn).
  rewrite (bind_ok _ _ w1 (Some cr) w2) by by apply answered_ok.
  eexists. split; [done|]. rewrite Hst. split; [done|].
  unfold Helpers.map_crd_to_proto, Helpers.deployment_key, name_any. simpl.
  rewrite Hl, Hn. simpl. by rewrite Hb.
Qed.

(** An identifier that leaves nothing of a name, or too long a one, is refused by every
    request before the cluster is asked. *)
Theorem bad_names_refused corr th du id created now w :
  ¬ (0 < length (Builder.sanitize_name id) ≤ 253) → du_id du = id →
  ∃ e1 e2 e3 e4,
    DeploymentSvc.deploy ns corr th (Some du) w = (Err e1, w) ∧
    DeploymentSvc.get_deployment_status ns corr th id w = (Err e2, w) ∧
    DeploymentSvc.delete_deployment ns corr th id w = (Err e3, w) ∧
    DeploymentSvc.get_class_runtime ns created now id w = (Err e4, w) ∧
    Forall (λ e, code e = InvalidArgument) [e1; e2; e3; e4].
Proof.
  intros Hbad Hid.
  assert (∃ e, Helpers.validate_name (Builder.sanitize_name id) = Err e ∧
               code e = InvalidArgument) as (e & He & Hc).
  { rewrite <- valid_name_ok in Hbad. unfold Helpers.validate_name in *.
    destruct (Builder.sanitize_name id); [eauto|]. destruct (_ <? _)%nat; [eauto|done]. }
  assert (∃ e, DeploymentSvc.resource_name (W := W) id w = (Err e, w) ∧ code e = InvalidArgument)
    as (e' & He' & Hc').
  { unfold DeploymentSvc.resource_name. destruct id as [|c s]; [by eexists|].
    exists e. split; [|done]. apply bind_err. unfold lift_res. by rewrite He. }
  exists e, e', e', e'. split_and!.
  - unfold DeploymentSvc.deploy. apply bind_err. unfold lift_res. by rewrite Hid, He.
  - by apply bind_err.
  - by apply bind_err.
  - by apply bind_err.
  - by repeat constructor.
Qed.

(** A page is a slice of the list. *)
Lemma page_slice {A} (req : ListRequest) (l : list A) :
  DeploymentSvc.page req l =
  take (Z.to_nat (default u32_max (list_limit req)))
    (drop (Z.to_nat (default 0%Z (list_offset req))) l).
Proof.
  unfold DeploymentSvc.page. destruct (Nat.leb_spec (length l)
    (Z.to_nat (default 0%Z (list_offset req)))) as [Hle|Hlt].
  - by rewrite drop_ge, take_nil.
  - set (o := Z.to_nat (default 0%Z (list_offset req))) in *.
    set (k := Z.to_nat (default u32_max (list_limit req))).
    destruct (Nat.le_gt_cases (o + k) (length l)).
    + f_equal. lia.
    + rewrite !take_ge; [done|..]; rewrite length_drop; lia.
Qed.

Lemma filter_items {A B} (p : B → bool) (l : list (A * B)) :
  List.filter p l.*2 = (filter (λ ab, p ab.2 = true) l).*2.
Proof.
  induction l as [|[a b] l IH]; [done|]. rewrite filter_cons. cbn [fmap list_fmap List.filter snd].
  destruct (p b) eqn:E; [rewrite decide_True by done|by rewrite decide_False by congruence].
  cbn [fmap list_fmap snd]. f_equal. exact IH.
Qed.

(** Listing in pages: a page holds the requested number of summaries from the requested
    position on, of the runtimes of the namespace with the requested status. *)
Theorem listing_pages created now th req w l w' :
  DeploymentSvc.list_class_runtimes ns created now th req w = (Ok l, w') →
  view w' = view w ∧ ∃ all : list (str * ClassRuntime),
    NoDup all.*1 ∧
    (∀ n cr, (n, cr) ∈ all ↔ view w !! (ns, n) = Some cr ∧ DeploymentSvc.wanted req cr = true) ∧
    l = take (Z.to_nat (default u32_max (list_limit req)))
          (drop (Z.to_nat (default 0%Z (list_offset req)))
             (Helpers.map_crd_to_summary created now <$> all.*2)).
Proof.
  intros (listed & w1 & Hl%answered_ok & Hr)%bind_Ok. injection Hr as <- <-.
  pose proof (kube_list_view _ _ _ _ _ Hl) as Hv.
  apply kube_list_done in Hl as (items & -> & Hnd & Hl).
  split; [done|]. exists (filter (λ nc, DeploymentSvc.wanted req nc.2 = true) items). split; [|split].
  - eapply sublist_NoDup; [exact Hnd|]. apply fmap_sublist, sublist_filter.
  - intros n cr. rewrite list_elem_of_filter, Hl. simpl. by rewrite (comm (∧)).
  - by rewrite page_slice, filter_items.
Qed.
End deployments.

(** ** Routes of a built resource *)

Lemma collect_acc {V} (l : list (str * V)) m k v : NoDup l.*1 → (k, v) ∈ l →
  bt_get k (foldl (λ m kv, bt_insert kv.1 kv.2 m) m l) = Some v.
Proof.
  assert (∀ (l : list (str * V)) m, k ∉ l.*1 →
    bt_get k (foldl (λ m kv, bt_insert kv.1 kv.2 m) m l) = bt_get k m) as Hout.
  { clear. induction l as [|[k' v'] l IH]; intros m Hk; [done|]. simpl in *.
    rewrite IH by set_solver. apply bt_get_insert_ne. set_solver. }
  revert m. induction l as [|[k' v'] l IH]; intros m Hnd Hin; [by apply elem_of_nil in Hin|].
  apply NoDup_cons in Hnd as [Hk' Hnd]. apply elem_of_cons in Hin as [[= <- <-]|Hin].
  - simpl. rewrite Hout by done. apply bt_get_insert_eq.
  - by apply IH.
Qed.

Lemma collect_get {V} (l : list (str * V)) k v : NoDup l.*1 → (k, v) ∈ l →
  bt_get k (Builder.collect l) = Some v.
Proof. apply collect_acc. Qed.

Lemma imap_keys du : (imap Builder.index_entry (du_functions du)).*1 = pf_function_key <$> du_functions du.
Proof. rewrite fmap_imap. apply imap_const. Qed.

Section built.
Context (name id : str) (corr : option str) (du : ProtoUnit).
Notation cr := (Builder.build name id corr du).

Lemma all_runnable : Forall (λ f, Builder.runnable f = true) (du_functions du) →
  spec_functions (cr_spec cr) = Builder.map_function <$> du_functions du.
Proof.
  intros HF. simpl. unfold Builder.build_functions. by rewrite filter_Forall.
Qed.

Lemma fk_index_get i f : NoDup (pf_function_key <$> du_functions du) →
  du_functions du !! i = Some f →
  bt_get (pf_function_key f) (Builder.fk_index du) = Some (Builder.index_entry i f).2.
Proof.
  intros Hnd Hi. apply collect_get; [by rewrite imap_keys|].
  apply (list_elem_of_lookup_2 _ i). rewrite list_lookup_imap, Hi. done.
Qed.

End built.

(** ** The reported condition *)

Section reported.
Implicit Types st : CrStatus.

Lemma is_true_get t l : one_per_type l →
  existsb (λ c, Helpers.is_true c t) l = true ↔
  ∃ c, cond_get t l = Some c ∧ cstatus c = CTrue.
Proof.
  intros Hl. rewrite existsb_exists. unfold Helpers.is_true.
  split.
  - intros (c & Hin & [Ht Hs]%andb_true_iff). apply bool_decide_eq_true in Ht.
    exists c. rewrite cond_get_elem by done. rewrite <- list_elem_of_In in Hin.
    split; [by split|]. by destruct (cstatus c).
  - intros (c & Hc & Hs). apply cond_get_elem in Hc as [Hin Ht]; [|done].
    exists c. rewrite <- list_elem_of_In. split; [done|].
    rewrite bool_decide_eq_true_2 by done. by rewrite Hs.
Qed.

(** What the package manager is told of a runtime does not follow its phase: once a status
    shows the runtime available, every later reconciliation reports it running, whatever
    phase the controller found. *)
Theorem available_is_sticky now now_c now_t gen keys name ns tpl p tel ep obs disc st created
    clock cr c :
  one_per_type (default [] (conditions st)) →
  cond_get CAvailable (default [] (conditions st)) = Some c → cstatus c = CTrue →
  let st' := Status.reconcile_status now now_c now_t gen keys name ns tpl p tel ep obs disc
               (Some st) in
  Helpers.summarize_status st' = lit "Available" ∧
  rs_condition <$> sum_status (Helpers.map_crd_to_summary created clock
    {| cr_meta := cr_meta cr; cr_spec := cr_spec cr; cr_status := Some st' |}) = Some CondRunning.
Proof.
  intros Hone Hc Ht st'.
  destruct (reconcile_conditions now now_c now_t gen keys name ns tpl p tel ep obs disc st
              CAvailable Hone) as [Hone' Hget]. fold st' in Hone', Hget.
  assert (conditions st' = Some (default [] (conditions st'))) as Hs by done.
  assert (existsb (λ c, Helpers.is_true c CAvailable) (default [] (conditions st')) = true) as He.
  { apply is_true_get; [done|]. rewrite Hget. repeat case_decide; eauto.
    - eexists. split; [done|]. by destruct p.
    - exfalso. match goal with E : CAvailable = _ |- _ => revert E end.
      unfold Status.build_telemetry_configured_condition. by destruct (tel && ep), tel. }
  assert (Helpers.summarize_status st' = lit "Available") as Hsum
    by (unfold Helpers.summarize_status; by rewrite Hs, He).
  split; [done|]. unfold Helpers.map_crd_to_summary. cbn [cr_status]. by rewrite Hsum.
Qed.
End reported.

(** ** Deadlines and generated identifiers *)

Lemma digits_nonneg acc s n : (0 ≤ acc)%Z → Parse.digits acc s = Some n → (0 ≤ n)%Z.
Proof.
  revert acc. induction s as [|c s IH]; intros acc Ha; simpl; [by intros [= <-]|].
  intros (d & Hd & Hn)%bind_Some. eapply IH; [|exact Hn]. unfold Parse.digit, Names.is_digit in Hd.
  destruct (Z.leb_spec 48 c), (Z.leb_spec c 57); simplify_eq/=; lia.
Qed.

Lemma parse_u64_range s n : Parse.u64 s = Some n → (0 ≤ n ≤ u64_max)%Z.
Proof.
  unfold Parse.u64, Parse.unsigned. set (t := match s with 43%Z :: s' => s' | _ => s end).
  destruct t as [|c t]; [done|]. intros (m & Hm%digits_nonneg & Hn)%bind_Some; [|lia].
  destruct (Z.leb_spec m u64_max); simplify_eq. lia.
Qed.

(** A deadline is within the range of a duration. *)
Lemma grpc_timeout_bound h d : Helpers.parse_grpc_timeout h = Some d →
  (0 ≤ d ≤ u64_max * 10 ^ 9)%Z.
Proof.
  unfold Helpers.parse_grpc_timeout. intros (val & -> & Hd)%bind_Some.
  destruct (last val) as [u|]; [|done]. apply bind_Some in Hd as (n & Hn & Hd).
  assert (0 ≤ n ≤ u64_max)%Z as Hr by by eapply parse_u64_range.
  unfold u64_max in *. repeat case_bool_decide; simplify_eq; lia.
Qed.

(** An identifier the package manager generates names its resource as it is, so it can be
    deployed again. *)
Lemma generated_id_kept class_name candidates id :
  Forall (λ c, Exists (λ x, Names.is_alnum x = true) c) candidates →
  Units.suffix_len ≤ length candidates →
  Units.gen_safe_deployment_id class_name candidates = Some id →
  Builder.sanitize_name id = id ∧ Helpers.validate_name id = Ok tt.
Proof.
  intros Hc Hl Hid. destruct (deployment_id_valid class_name candidates Hc Hl)
    as (base & suffix & E & Hd & Hs & _). rewrite E in Hid. injection Hid as <-.
  split; [by apply sanitize_label|]. apply valid_name_ok. destruct Hd as [Hlen _].
  rewrite !length_app in *. simpl in *. lia.
Qed.

(** ** A cluster in memory *)

Module DemoCluster.

Notation store := (gmap (str * str) ClassRuntime).

Definition stored (ns : str) (cr : ClassRuntime) : ClassRuntime :=
  let m := cr_meta cr in
  {| cr_meta := {| om_name := om_name m; om_generate_name := om_generate_name m;
                   om_namespace := Some ns; om_labels := om_labels m;
                   om_annotations := om_annotations m; om_uid := Some (lit "uid");
                   om_generation := Some 1%Z; om_finalizers := om_finalizers m;
                   om_deletion_timestamp := None; om_creation_timestamp := Some (0, 0)%Z |};
     cr_spec := cr_spec cr; cr_status := None |}.

Definition items (ns : str) (w : store) : list (str * ClassRuntime) :=
  omap (λ kv : (str * str) * ClassRuntime,
          if decide (kv.1.1 = ns) then Some (kv.1.2, kv.2) else None) (map_to_list w).

#[export] Instance store_kube : Kube store := {|
  kube_get _ ns n w := (KDone (w !! (ns, n)), w);
  kube_create _ ns cr w :=
    match om_name (cr_meta cr) with
    | Some n => match w !! (ns, n) with
                | Some _ => (KFail {| api_code := Some 409%Z; error_text := lit "exists" |}, w)
                | None => (KDone (stored ns cr), <[(ns, n) := stored ns cr]> w)
                end
    | None => (KFail {| api_code := Some 422%Z; error_text := lit "no name" |}, w)
    end;
  kube_delete _ ns n w :=
    match w !! (ns, n) with
    | Some _ => (KDone tt, delete (ns, n) w)
    | None => (KFail {| api_code := Some 404%Z; error_text := lit "missing" |}, w)
    end;
  kube_list _ ns w := (KDone (items ns w).*2, w);
|}.

Lemma items_elem ns w n cr : (n, cr) ∈ items ns w ↔ w !! (ns, n) = Some cr.
Proof.
  unfold items. rewrite list_elem_of_omap. split.
  - intros ([[ns' n'] cr'] & Hin & E). simpl in E. case_decide; simplify_eq.
    by apply elem_of_map_to_list.
  - intros Hw. exists ((ns, n), cr). split; [by apply elem_of_map_to_list|]. simpl.
    by rewrite decide_True.
Qed.

Lemma items_NoDup ns w : NoDup (items ns w).*1.
Proof.
  unfold items. pose proof (NoDup_fst_map_to_list w) as Hnd.
  induction (map_to_list w) as [|[[ns' n] cr] l IH]; [constructor|].
  apply NoDup_cons in Hnd as [Hn Hnd]. simpl. case_decide as E; [|by apply IH].
  simpl. constructor; [|by apply IH]. subst ns'. intros Hin. apply Hn.
  apply list_elem_of_fmap in Hin as ([n' cr'] & -> & Hin).
  apply list_elem_of_omap in Hin as ([[ns' n''] cr''] & Hin & E'). simpl in E'.
  case_decide; simplify_eq/=. by apply (list_elem_of_fmap_2 fst) in Hin.
Qed.

#[export] Instance store_laws : KubeLaws store.
Proof.
  refine {| view := id |}; simpl.
  - by intros t ns n w o w' [= <- <-].
  - by intros t ns n w r w' [= <- <-].
  - done.
  - intros t ns n cr w cr' w' ->. destruct (w !! (ns, n)) eqn:E; [done|].
    intros [= <- <-]. done.
  - intros t ns n w w'. destruct (w !! (ns, n)) eqn:E; [|done]. intros [= <-].
    split; [done|]. split; [intros k Hk; by rewrite lookup_delete_ne|].
    by rewrite lookup_delete_eq.
  - intros t ns n w e w'. by destruct (w !! (ns, n)) eqn:E; intros [= <- <-].
  - by intros t ns w o w' [= <- <-].
  - intros t ns w l w' [= <- <-]. exists (items ns w).
    split; [done|]. split; [apply items_NoDup|]. apply items_elem.
Defined.

Definition pf (key : string) (image wasm : option str) : ProtoFunction :=
  {| pf_function_key := lit key; pf_description := None; pf_available_location := None;
     pf_provision_config := Some
       {| container_image := image; wasm_module_url := wasm; pc_port := Some 9000%Z;
          max_concurrency := 0; need_http2 := false; cpu_request := None;
          memory_request := None; cpu_limit := None; memory_limit := None;
          min_scale := Some 1%Z; max_scale := None; wasm_fuel := None |};
     pf_config := ∅ |}.
Definition route (fk : string) : UnitRoute :=
  {| ur_url := []; ur_stateless := Some true; ur_standby := Some false; ur_active_group := [];
     ur_function_key := Some (lit fk) |}.
Definition grid : OdgmConfig :=
  {| oc_collections := [lit "orders"]; oc_partition_count := Some 2%Z;
     oc_replica_count := Some 1%Z; oc_shard_type := Some (lit "mst");
     oc_invocations := Some ({[lit "pay" := route "shop.pay"]}, []); oc_options := ∅;
     oc_log := None; oc_env_node_ids := ∅; oc_odgm_node_id := None;
     oc_collection_assignments := ∅; oc_zenoh_mode := None |}.
Definition unit_of (id : string) (fs : list ProtoFunction) : ProtoUnit :=
  {| du_id := lit id; du_package_name := lit "shop"; du_class_key := lit "Order";
     du_functions := fs; du_target_env := lit "edge"; du_function_bindings := [];
     du_created_at := None;
     du_odgm_config := Some grid;
     du_selected_template := None; du_telemetry := None |}.
Definition price : ProtoFunction := pf "shop.price" None (Some (lit "https://m/price.wasm")).
Definition pay : ProtoFunction := pf "shop.pay" (Some (lit "pay:1")) None.
Definition order (id : string) : ProtoUnit := unit_of id [price; pay].

(** The URL of a route when a function before it in the unit has nothing to run: it names
    the second service of two, while the only function left is deployed as the first. *)
Example dropped_function_shifts :
  let du := unit_of "o-1" [pf "shop.draft" None None; pay] in
  let cr := Builder.build (lit "o-1") (lit "o-1") None du in
  (inv ← odgm_config (cr_spec cr) ≫= cfg_invocations;
   fr_url <$> bt_get (lit "pay") (inv_fn_routes inv)) = Some (lit "http://o-1-fn-1:80/") ∧
  length (spec_functions (cr_spec cr)) = 1 ∧
  Names.function_service_name (lit "o-1") 0 1 = lit "o-1".
Proof. vm_compute. done. Qed.

Definition deployed (id : string) : store :=
  (DeploymentSvc.deploy (lit "d") None None (Some (order id)) (∅ : store)).2.

Definition accepted (id : string) : DeployResponse * option str :=
  ({| dresp_deployment_id := lit id; dresp_message := Some (lit "accepted") |}, None).
Definition at_name (w : store) (n : string) : option ClassRuntime := w !! (lit "d", lit n).

Lemma redeploy_witness :
  (DeploymentSvc.deploy (lit "d") None None (Some (order "o-1")) (deployed "o-1")).1
  = Ok (accepted "o-1") ∧
  (DeploymentSvc.deploy (lit "d") None None (Some (order "O_1")) (deployed "O_1")).1
  = Err (Helpers.status AlreadyExists "resource name in use by a different deployment").
Proof.
  assert (∀ id (A := view (deployed id) = view (deployed id)),
    view (∅ : store) !! (lit "d", Builder.sanitize_name (lit id)) = None →
    DeploymentSvc.deploy (lit "d") None None (Some (order id)) (∅ : store)
    = (Ok (accepted id), deployed id) →
    (DeploymentSvc.deploy (lit "d") None None (Some (order id)) (deployed id)).1
    = if decide (Builder.sanitize_name (lit id) = lit id) then Ok (accepted id)
      else Err (Helpers.status AlreadyExists "resource name in use by a different deployment"))
    as H.
  { intros id A H1 H2. exact (f_equal fst (proj2 (redeploy (lit "d") None None None None
      (order id) (order id) ∅ (accepted id) (deployed id) (deployed id) _ H1 H2 eq_refl eq_refl))). }
  split; (rewrite H; [vm_compute; reflexivity|vm_compute; reflexivity|vm_compute; reflexivity]).
Defined.

Lemma deploy_then_status_witness : ∃ resp,
  DeploymentSvc.get_deployment_status (lit "d") None None (lit "O_1") (deployed "O_1")
  = (Ok (resp, None), deployed "O_1") ∧
  du_id <$> sresp_deployment resp = Some (lit "o-1").
Proof.
  destruct (deploy_then_status (W := store) (lit "d") None None None None (order "O_1")
    ∅ (accepted "O_1") (deployed "O_1") (at_name (deployed "O_1") "o-1")
    (deployed "O_1")) as (resp & H & _ & Hid & _).
  - vm_compute. reflexivity.
  - discriminate.
  - vm_compute. reflexivity.
  - reflexivity.
  - exists resp. split; [exact H|exact Hid].
Defined.

Lemma bad_names_refused_witness : ∃ e1 e2 e3 e4,
  DeploymentSvc.deploy (lit "d") None None (Some (order "--")) (∅ : store) = (Err e1, ∅) ∧
  DeploymentSvc.get_deployment_status (lit "d") None None (lit "--") (∅ : store) = (Err e2, ∅) ∧
  DeploymentSvc.delete_deployment (lit "d") None None (lit "--") (∅ : store) = (Err e3, ∅) ∧
  DeploymentSvc.get_class_runtime (lit "d") (λ _, []) [] (lit "--") (∅ : store) = (Err e4, ∅) ∧
  Forall (λ e, code e = InvalidArgument) [e1; e2; e3; e4].
Proof.
  apply (bad_names_refused (lit "d") None None (order "--") (lit "--") (λ _, []) [] (∅ : store)).
  - vm_compute. lia.
  - reflexivity.
Defined.

Lemma listing_pages_witness :
  let req := {| list_status := None; list_limit := Some 1%Z; list_offset := None |} in
  match DeploymentSvc.list_class_runtimes (lit "d") (λ _, lit "t") (lit "now") None req
          (deployed "o-1") with
  | (Ok l, w') => view w' = view (deployed "o-1") ∧ length l ≤ 1
  | _ => False
  end.
Proof.
  cbv zeta. set (req := {| list_status := None; list_limit := Some 1%Z; list_offset := None |}).
  set (l := DeploymentSvc.page req (Helpers.map_crd_to_summary (λ _, lit "t") (lit "now")
             <$> List.filter (DeploymentSvc.wanted req) (items (lit "d") (deployed "o-1")).*2)).
  assert (DeploymentSvc.list_class_runtimes (lit "d") (λ _, lit "t") (lit "now") None req
            (deployed "o-1") = (Ok l, deployed "o-1")) as E by reflexivity.
  rewrite E. destruct (listing_pages _ _ _ _ _ _ _ _ E) as (Hv & all & _ & _ & Hl).
  split; [exact Hv|]. rewrite Hl, length_take. cbn. lia.
Defined.


Definition available : Condition :=
  {| type_ := CAvailable; cstatus := CTrue; creason := None; cmessage := None;
     clast_transition_time := None |}.
Definition running : CrStatus :=
  {| phase := Some (lit "available"); message := None; observed_generation := Some 1%Z;
     last_updated := None; conditions := Some [available]; resource_refs := None;
     nfr_recommendations := None; last_applied_recommendations := None;
     last_applied_at := None; routers := None; functions := None |}.

Lemma available_is_sticky_witness :
  Helpers.summarize_status (Status.reconcile_status [] [] [] (Some 1%Z) [] (lit "order")
    (lit "d") (lit "dev") Progressing false false [] [] (Some running)) = lit "Available".
Proof.
  refine (proj1 (available_is_sticky [] [] [] (Some 1%Z) [] (lit "order") (lit "d")
    (lit "dev") Progressing false false [] [] running (λ _, []) []
    (Builder.build [] [] None (order "o-1")) available _ _ _)).
  - apply NoDup_singleton.
  - reflexivity.
  - reflexivity.
Defined.

End DemoCluster.
