(* ===== verification/Reconcile.v ===== *)
(** * The reconciliation of a class runtime

    [control-plane/oprc-crm/src/controller/reconcile.rs] and [fsm/observed_lister.rs]: the
    handler run for every change of a class runtime. It deletes the children of a runtime that
    is being deleted and releases its finalizer, and otherwise observes the children, lets the
    state machine decide ([Controller]), applies what the templates render ([Templates]),
    deletes orphans and writes the status. The cluster is an argument ([Cluster]) with the
    documented behaviour of its calls as laws ([ClusterLaws]). *)

From stdpp Require Import base tactics list list_numbers numbers option gmap strings pretty sorting.
From Stdlib Require Import ZArith Lia.
From Stdlib Require Import Floats.SpecFloat.
From S2P Require Import Prelude BTree Float64 Shard Metadata Placement Routing.
From S2P Require Import Json Controller Enforcer PmModel ClassRuntime Templates CrmGrpc.

Set Default Proof Using "Type".

Import K8s Crd.
Open Scope prog_scope.

(** ** Configuration *)

Record CrmConfig := {
  cc_profile : str;
  cc_security_mtls : option bool;
  feat_nfr_enforcement : option bool;
  feat_hpa : option bool;
  feat_knative : bool;
  feat_odgm_sidecar : bool;
  feat_fsm : bool;
  cc_odgm_img_override : option str;
  cc_odgm_pull_policy_override : option str;
  cc_odgm_extra_env : option str;
  otel_enabled : bool;
  otel_endpoint : str;
}.

Module Config.

(** Features the environment left open are set by the profile. *)
Definition apply_profile_defaults (c : CrmConfig) : CrmConfig :=
  let '(def_nfr, def_hpa, def_mtls) :=
    if bool_decide (cc_profile c = lit "edge") then (false, true, false)
    else if bool_decide (cc_profile c ∈ [lit "full"; lit "prod"; lit "production"])
    then (true, true, true)
    else (false, false, false) in
  {| cc_profile := cc_profile c;
     cc_security_mtls := Status.or_else (cc_security_mtls c) (Some def_mtls);
     feat_nfr_enforcement := Status.or_else (feat_nfr_enforcement c) (Some def_nfr);
     feat_hpa := Status.or_else (feat_hpa c) (Some def_hpa);
     feat_knative := feat_knative c; feat_odgm_sidecar := feat_odgm_sidecar c;
     feat_fsm := feat_fsm c; cc_odgm_img_override := cc_odgm_img_override c;
     cc_odgm_pull_policy_override := cc_odgm_pull_policy_override c;
     cc_odgm_extra_env := cc_odgm_extra_env c; otel_enabled := otel_enabled c;
     otel_endpoint := otel_endpoint c |}.

End Config.

(** ** The cluster *)

(** Group, version and kind of a resource type *)
Notation Gvk := (str * str * str)%type.
Definition gvk_deployment : Gvk := (lit "apps", lit "v1", lit "Deployment").
Definition gvk_service : Gvk := ([], lit "v1", lit "Service").
Definition gvk_knative : Gvk := (lit "serving.knative.dev", lit "v1", lit "Service").

(** What the handlers read of a listed object. *)
Record KObject := {
  ko_name : option str;
  ko_ports : option (list ServicePort);
  ko_available_replicas : option Z;
  ko_data : Value;
}.

Notation Selector := (list (str * str)).

Class Cluster (W : Type) := {
  cl_list : Gvk → str → Selector → W → (KubeError + list KObject) * W;
  cl_apply : Gvk → str → str → RenderedResource → W → (KubeError + unit) * W;
  cl_delete : Gvk → str → str → W → (KubeError + unit) * W;
  cl_groups : W → option (list str) * W;
  cl_patch_finalizers : str → str → list str → W → (KubeError + unit) * W;
  cl_patch_status : str → str → CrStatus → W → (KubeError + unit) * W;
  cl_event : str → str → option str → str → W → W;
}.

Inductive Action : Type := AwaitChange | RequeueAfter (secs : Z).

(** [ReconcileErr::Internal], with what it was made from. *)
Inductive ReconcileErr (JsonError : Type) : Type :=
| KubeErr (e : KubeError)
| RenderErr (e : TemplateError JsonError).
Arguments KubeErr {JsonError} e.
Arguments RenderErr {JsonError} e.

(** The cluster and the cache of runtimes by namespace and name. *)
Record CtrlState (W : Type) := { world : W; runtime_cache : gmap str ClassRuntime }.
Arguments world {W} _.
Arguments runtime_cache {W} _.
Arguments Build_CtrlState {W} _ _.

#[global] Instance spec_float_eq_dec : EqDecision spec_float.
Proof. solve_decision. Defined.
#[global] Instance Number_eq_dec : EqDecision Number.
Proof. solve_decision. Defined.

Section value_eq.
Fixpoint value_eqb (v w : Value) {struct v} : bool :=
  match v, w with
  | VNull, VNull => true
  | VBool a, VBool b => bool_decide (a = b)
  | VNumber a, VNumber b => bool_decide (a = b)
  | VString a, VString b => bool_decide (a = b)
  | VArray l, VArray k =>
      (fix go l k := match l, k with
                     | [], [] => true
                     | v :: l, w :: k => value_eqb v w && go l k
                     | _, _ => false
                     end) l k
  | VObject l, VObject k =>
      (fix go l k := match l, k with
                     | [], [] => true
                     | (a, v) :: l, (b, w) :: k => bool_decide (a = b) && value_eqb v w && go l k
                     | _, _ => false
                     end) l k
  | _, _ => false
  end.

Lemma value_eqb_eq v w : value_eqb v w = true ↔ v = w.
Proof.
  revert v w. fix IH 1. intros v w. destruct v as [|b|n|s|l|m], w as [|b'|n'|s'|l'|m']; simpl;
    try (split; congruence); try (rewrite bool_decide_eq_true; split; congruence).
  - revert l'. induction l as [|v l IHl]; intros [|w l']; try (split; congruence).
    rewrite andb_true_iff, IH, IHl. split; [|intros [= -> ->]; auto]. by intros [-> [= ->]].
  - revert m'. induction m as [|[k v] m IHm]; intros [|[k' w] m']; try (split; congruence).
    rewrite !andb_true_iff, IH, IHm, bool_decide_eq_true. split; [|intros [= -> -> ->]; auto].
    by intros [[-> ->] [= ->]].
Qed.
End value_eq.

#[global] Instance Value_eq_dec : EqDecision Value.
Proof. refine (λ v w, cast_if (decide (value_eqb v w = true))); by rewrite <- value_eqb_eq. Defined.
#[global] Instance NfrRecommendation_eq_dec : EqDecision NfrRecommendation.
Proof. solve_decision. Defined.
#[global] Instance ResourceRef_eq_dec : EqDecision ResourceRef.
Proof. solve_decision. Defined.
#[global] Instance RouterEndpoint_eq_dec : EqDecision RouterEndpoint.
Proof. solve_decision. Defined.
#[global] Instance ConditionStatus_eq_dec : EqDecision ConditionStatus.
Proof. solve_decision. Defined.
#[global] Instance Condition_eq_dec : EqDecision Condition.
Proof. solve_decision. Defined.
#[global] Instance FunctionStatus_eq_dec : EqDecision FunctionStatus.
Proof. solve_decision. Defined.
#[global] Instance CrStatus_eq_dec : EqDecision CrStatus.
Proof. solve_decision. Defined.

Module Reconcile.

Definition FINALIZER : str := lit "oaas.io/finalizer".

(** [owner_label_selector] *)
Definition owned_by (name : str) : Selector := [(lit "oaas.io/owner", name)].
(** The selector of router services *)
Definition routers_selector : Selector :=
  [(lit "app", lit "router"); (lit "platform", lit "oaas")].

Definition compute_enable_odgm (cfg : CrmConfig) (spec : ClassRuntimeSpec) : bool :=
  if negb (feat_odgm_sidecar cfg) then false
  else match addons spec with
       | None => true
       | Some list_ => existsb (λ a, Text.eq_ignore_ascii_case a (lit "odgm")) list_
       end.

Definition split_api_version (api_version : str) : str * str :=
  default (api_version, []) (Text.split_once 47 api_version).

Definition dynamic_target_from (api_version kind : str) (manifest : Value)
    (default_name : str) : Gvk * str :=
  let '(group, version) := split_api_version api_version in
  (group, version, kind,
   default default_name
     (m ← Json.get (lit "metadata") manifest; n ← Json.get (lit "name") m; Json.as_str n)).

(** ** Observation *)

Definition ko_name_any (o : KObject) : str := default [] (ko_name o).

(** The status of the condition [Ready] of a Knative service is [True]. *)
Definition knative_ready (data : Value) : bool :=
  default false
    (s ← Json.get (lit "status") data; c ← Json.get (lit "conditions") s; arr ← Json.as_array c;
     cond ← List.find (λ c, bool_decide (Json.get (lit "type") c ≫= Json.as_str = Some (lit "Ready")))
              arr;
     t ← Json.get (lit "status") cond ≫= Json.as_str;
     Some (bool_decide (t = lit "True"))).

Definition child (name : str) (kind : string) (ready : bool) : ChildStatus :=
  {| child_name := name; child_kind := lit kind; child_ready := ready; child_reason := None;
     child_message := None |}.

Section handler.
Context {W : Type} `{Cluster W}.
Context {JsonError : Type} (requests_json : list Odgm.Request → JsonError + str).
Context (config_iter : gmap str str → list (str * str)).
Context (env_cfg : option EnvironmentContext).
Context (cfg : CrmConfig) (include_knative : bool).

Notation MW := (M W (ReconcileErr JsonError)).

(** A listing of which failures are ignored. *)
Definition try_list (gvk : Gvk) (ns : str) (sel : Selector) : MW (option (list KObject)) := λ w,
  match cl_list gvk ns sel w with
  | (inr l, w) => (Ok (Some l), w)
  | (inl _, w) => (Ok None, w)
  end.

(** A call whose failure ends the handler, and one whose failure is ignored. *)
Definition must (call : W → (KubeError + unit) * W) : MW unit := λ w,
  match call w with (inr _, w) => (Ok tt, w) | (inl e, w) => (Err (KubeErr e), w) end.
Definition best_effort (call : W → (KubeError + unit) * W) : MW unit := λ w, (Ok tt, (call w).2).

Definition observe_children (ns class_name : str) : MW Observed :=
  let! deps := try_list gvk_deployment ns (owned_by class_name) in
  let deployments :=
    (λ d, child (ko_name_any d) "Deployment" (0 <? default 0 (ko_available_replicas d))%Z)
    <$> default [] deps in
  if include_knative then
    let! kns := try_list gvk_knative ns (owned_by class_name) in
    ret (deployments ++
         ((λ s, child (ko_name_any s) "KnativeService" (knative_ready (ko_data s)))
          <$> default [] kns))
  else ret deployments.

(** ** Applying a workload *)

(** The port of a router service: the one named [zenoh], else the first. *)
Definition zenoh_port (o : KObject) : option Z :=
  ports ← ko_ports o;
  match List.find (λ p, bool_decide (sp_name p = Some (lit "zenoh"))) ports with
  | Some p => Some (sp_port p)
  | None => sp_port <$> head ports
  end.

(** Name and port of the first router service. *)
Definition discover_router (ns : str) : MW (option str * option Z) :=
  let! routers := try_list gvk_service ns routers_selector in
  ret match routers with
      | Some (svc :: _) => (ko_name svc, Some (default 17447%Z (zenoh_port svc)))
      | _ => (None, None)
      end.

Definition render_context (ns name : str) (owner_uid : option str) (enable_odgm : bool)
    (router : option str * option Z) (spec : ClassRuntimeSpec) : RenderContext :=
  {| ctx_name := name; ctx_namespace := ns; owner_api_version := lit "oaas.io/v1alpha1";
     owner_kind := lit "ClassRuntime"; owner_uid := owner_uid;
     enable_odgm_sidecar := enable_odgm; ctx_profile := cc_profile cfg;
     odgm_image_override := cc_odgm_img_override cfg;
     odgm_pull_policy_override := cc_odgm_pull_policy_override cfg;
     odgm_extra_env := cc_odgm_extra_env cfg; router_service_name := router.1;
     router_service_port := router.2;
     ctx_telemetry := Telemetry.from_spec_and_cluster (telemetry spec) (otel_enabled cfg)
                        (otel_endpoint cfg);
     ctx_spec := spec |}.

(** While replicas are enforced, the controller leaves them to the enforcer. *)
Definition suppress_replicas (spec : ClassRuntimeSpec) : bool :=
  match enforcement spec with
  | Some e => Text.eq_ignore_ascii_case (default (lit "observe") (enf_mode e)) (lit "enforce")
              && existsb (λ d, bool_decide (d = lit "replicas")) (default [] (enf_dimensions e))
  | None => false
  end.

Definition without_replicas (d : Deployment) : Deployment :=
  {| dep_metadata := dep_metadata d;
     dep_spec := (λ s, {| ds_replicas := None; ds_selector := ds_selector s;
                          ds_template := ds_template s |}) <$> dep_spec d |}.

Definition apply_resource (ns name : str) (spec : ClassRuntimeSpec) (r : RenderedResource) :
    MW unit :=
  match r with
  | RDeployment d =>
      let d := if suppress_replicas spec then without_replicas d else d in
      must (cl_apply gvk_deployment ns (default name (meta_name (dep_metadata d))) (RDeployment d))
  | RService s =>
      must (cl_apply gvk_service ns (default (name ++ lit "-svc") (meta_name (svc_metadata s)))
              (RService s))
  | ROther api_version kind manifest =>
      let '(gvk, n) := dynamic_target_from api_version kind manifest name in
      must (cl_apply gvk ns n r)
  end.

Definition apply_workload (ns name : str) (owner_uid : option str) (enable_odgm : bool)
    (spec : ClassRuntimeSpec) : MW unit :=
  let! router := discover_router ns in
  let! resources := lift_res (res_map_err RenderErr
    (Manager.render_workload env_cfg (Manager.new requests_json config_iter include_knative)
       (render_context ns name owner_uid enable_odgm router spec))) in
  for_each (apply_resource ns name spec) resources.

(** ** Deletion *)

Definition delete_listed (gvk : Gvk) (ns name : str) : MW bool :=
  let! l := try_list gvk ns (owned_by name) in
  match l with
  | Some l => for_each (λ o, best_effort (cl_delete gvk ns (ko_name_any o))) l ;;; ret true
  | None => ret false
  end.

Definition delete_children (ns name : str) : MW unit :=
  delete_listed gvk_deployment ns name ;;;
  delete_listed gvk_service ns name ;;;
  if include_knative then
    let! groups := (λ w, let '(g, w) := cl_groups w in (Ok g, w)) in
    if existsb (λ g, bool_decide (g = lit "serving.knative.dev")) (default [] groups) then
      let! listed := delete_listed gvk_knative ns name in
      if listed then ret tt else best_effort (cl_delete gvk_knative ns name)
    else ret tt
  else ret tt.

(** The deletion of orphans under every kind a function may have. *)
Definition delete_orphan (ns orphan : str) : MW unit :=
  best_effort (cl_delete gvk_deployment ns orphan) ;;;
  best_effort (cl_delete gvk_service ns orphan) ;;;
  if include_knative then best_effort (cl_delete gvk_knative ns orphan) else ret tt.

Definition delete_orphans (ns : str) (actions : list FsmAction) : MW unit :=
  for_each (λ a, match a with
                 | DeleteOrphans list_ => for_each (delete_orphan ns) list_
                 | _ => ret tt
                 end) actions.

(** ** The status *)

Definition normalize_condition (c : Condition) : Condition :=
  {| type_ := type_ c; cstatus := cstatus c; creason := creason c; cmessage := cmessage c;
     clast_transition_time := None |}.

Definition ref_cmp (a b : ResourceRef) : comparison :=
  match cmp (rr_kind a) (rr_kind b) with Eq => cmp (rr_name a) (rr_name b) | c => c end.

(** The status without the fields that change on every run, references in order. *)
Definition normalize_status (s : CrStatus) : CrStatus :=
  {| phase := phase s; message := message s; observed_generation := None; last_updated := None;
     conditions := (λ cs : list Condition, normalize_condition <$> cs) <$> conditions s;
     resource_refs := sort_by ref_cmp <$> resource_refs s;
     nfr_recommendations := nfr_recommendations s;
     last_applied_recommendations := last_applied_recommendations s;
     last_applied_at := last_applied_at s; routers := routers s; functions := functions s |}.

Definition should_patch_status (current : option CrStatus) (desired : CrStatus) : bool :=
  match current with
  | None => true
  | Some cur => negb (bool_decide (normalize_status cur = normalize_status desired))
  end.

(** Router services with a name, for the status. *)
Definition router_endpoints (l : list KObject) : list RouterEndpoint :=
  l ≫= λ svc, match ko_name svc with
              | Some n => [{| ep_service := n; ep_port := default 17447%Z (zenoh_port svc) |}]
              | None => []
              end.

Definition set_routers (r : option (list RouterEndpoint)) (s : CrStatus) : CrStatus :=
  {| phase := phase s; message := message s; observed_generation := observed_generation s;
     last_updated := last_updated s; conditions := conditions s;
     resource_refs := resource_refs s; nfr_recommendations := nfr_recommendations s;
     last_applied_recommendations := last_applied_recommendations s;
     last_applied_at := last_applied_at s; routers := r; functions := functions s |}.

(** ** The handler *)

Notation MC := (M (CtrlState W) (ReconcileErr JsonError)).
Definition on_cluster {A} (m : MW A) : MC A :=
  zoom world (λ w s, Build_CtrlState w (runtime_cache s)) m.

Definition cache_key (ns name : str) : str := ns ++ lit "/" ++ name.
Definition has_finalizer (obj : ClassRuntime) : bool :=
  existsb (λ f, bool_decide (f = FINALIZER)) (default [] (om_finalizers (cr_meta obj))).

(** A runtime that is being deleted *)
Definition reconcile_deleted (ns name : str) (obj : ClassRuntime) : MC Action :=
  on_cluster (delete_children ns name) ;;;
  modify (λ s, Build_CtrlState (world s) (delete (cache_key ns name) (runtime_cache s))) ;;;
  (if has_finalizer obj
   then on_cluster (must (cl_patch_finalizers ns name
          (filter (λ f, f ≠ FINALIZER) (default [] (om_finalizers (cr_meta obj))))))
   else ret tt) ;;;
  ret AwaitChange.

(** The state machine: the phase, and what it asks for carried out. *)
Definition eval_input (name : str) (obj : ClassRuntime) (observed : Observed) : EvalInput :=
  {| in_phase := (s ← cr_status obj; Fsm.phase_from <$> phase s);
     in_desc := if include_knative then Fsm.descriptor_knative else Fsm.descriptor_k8s;
     in_observed := observed; is_deleting := false;
     generation_changed :=
       match (s ← cr_status obj; observed_generation s) with
       | Some g => negb (bool_decide (g = default 0%Z (om_generation (cr_meta obj))))
       | None => false
       end;
     in_class_name := name; functions_total := length (spec_functions (cr_spec obj)) |}.

Definition is_apply (a : FsmAction) : bool :=
  match a with ApplyWorkload => true | _ => false end.

Definition run_fsm (ns name : str) (enable_odgm : bool) (obj : ClassRuntime) : MW Phase :=
  let! observed := observe_children ns name in
  let eval := Fsm.evaluate (eval_input name obj observed) in
  (if existsb is_apply (out_actions eval)
   then apply_workload ns name (om_uid (cr_meta obj)) enable_odgm (cr_spec obj) else ret tt) ;;;
  delete_orphans ns (out_actions eval) ;;;
  ret (out_phase eval).

Definition action_of (p : Phase) : Action :=
  match p with Available | Deleting => AwaitChange | _ => RequeueAfter 5 end.

(** [clocks] are the times read for the status, the phase condition and the telemetry
    condition. *)
Definition write_status (clocks : str * str * str) (ns name : str) (obj : ClassRuntime)
    (p : Phase) : MW unit :=
  let '(now, now_c, now_t) := clocks in
  let spec := cr_spec obj in
  let tpl := default (cc_profile cfg) (selected_template spec) in
  let keys := fd_function_key <$> spec_functions spec in
  let gen := om_generation (cr_meta obj) in
  let! observed :=
    (if feat_fsm cfg
     then match spec_functions spec with
          | [] => ret []
          | _ => observe_children ns name
          end
     else ret []) in
  let! routers := try_list gvk_service ns routers_selector in
  let discovered := router_endpoints (default [] routers) in
  let merged :=
    if feat_fsm cfg then
      let t := Telemetry.from_spec_and_cluster (telemetry spec) (otel_enabled cfg)
                 (otel_endpoint cfg) in
      Status.reconcile_status now now_c now_t gen keys name ns tpl p (rt_enabled t)
        (negb (bool_decide (rt_endpoint t = []))) observed discovered (cr_status obj)
    else
      Status.merge_status (cr_status obj)
        (set_routers (match discovered with [] => None | _ => Some discovered end)
           (Status.progressing now gen keys name ns tpl)) in
  if should_patch_status (cr_status obj) merged
  then must (cl_patch_status ns name merged) else ret tt.

Definition reconcile (clocks : str * str * str) (obj : ClassRuntime) : MC Action :=
  let ns := default (lit "default") (om_namespace (cr_meta obj)) in
  let name := name_any obj in
  match om_deletion_timestamp (cr_meta obj) with
  | Some _ => reconcile_deleted ns name obj
  | None =>
      (if has_finalizer obj then ret tt
       else on_cluster (must (cl_patch_finalizers ns name
              (default [] (om_finalizers (cr_meta obj)) ++ [FINALIZER])))) ;;;
      let enable_odgm := compute_enable_odgm cfg (cr_spec obj) in
      let! decided :=
        (if feat_fsm cfg then
           let! p := on_cluster (run_fsm ns name enable_odgm obj) in
           ret (p, action_of p)
         else
           on_cluster (apply_workload ns name (om_uid (cr_meta obj)) enable_odgm (cr_spec obj)) ;;;
           ret (Pending, RequeueAfter 5)) in
      modify (λ s, Build_CtrlState (world s) (<[cache_key ns name := obj]> (runtime_cache s))) ;;;
      on_cluster (λ w, (Ok tt, cl_event ns name (om_uid (cr_meta obj))
                                 (lit "Applied workload for " ++ name) w)) ;;;
      on_cluster (write_status clocks ns name obj decided.1) ;;;
      ret decided.2
  end.

(** [error_policy] *)
Definition error_policy : Action := RequeueAfter 60.

End handler.
End Reconcile.

(** ** What the calls do *)

(** The labels of what is applied. *)
Definition labels_of (r : RenderedResource) : btree str str :=
  match r with
  | RDeployment d => default [] (meta_labels (dep_metadata d))
  | RService s => default [] (meta_labels (svc_metadata s))
  | ROther _ _ m =>
      match Json.get (lit "metadata") m ≫= Json.get (lit "labels") with
      | Some (VObject l) => l ≫= λ kv, match kv.2 with VString v => [(kv.1, v)] | _ => [] end
      | _ => []
      end
  end.

(** The documented behaviour of the calls, on the labels of the stored objects and the stored
    status of the runtimes: reads and events change nothing, a listing names the objects whose
    labels the selector selects, an object that was applied is stored with the labels applied,
    one that was deleted is gone, a status that was merged in has the phase and the generation
    written, and calls concern the object they name only. In a healthy cluster calls succeed. *)
Class ClusterLaws (W : Type) `{Cluster W} := {
  children : W → gmap (Gvk * str * str) (btree str str);
  statuses : W → gmap (str * str) CrStatus;
  healthy : W → Prop;
  list_same gvk ns sel w o w' : cl_list gvk ns sel w = (o, w') →
    children w' = children w ∧ statuses w' = statuses w;
  list_done gvk ns sel w l w' : cl_list gvk ns sel w = (inr l, w') →
    ∃ names, ko_name <$> l = Some <$> names ∧
      ∀ n, n ∈ names ↔ ∃ lbls, children w !! (gvk, ns, n) = Some lbls ∧ selects sel lbls = true;
  list_healthy gvk ns sel w : healthy w → ∃ l w', cl_list gvk ns sel w = (inr l, w') ∧ healthy w';
  apply_done gvk ns n r w w' : cl_apply gvk ns n r w = (inr tt, w') →
    statuses w' = statuses w ∧ ∃ lbls, children w' = <[(gvk, ns, n) := lbls]> (children w) ∧
      ∀ k v, bt_get k (labels_of r) = Some v → bt_get k lbls = Some v;
  apply_healthy gvk ns n r w : healthy w → ∃ w', cl_apply gvk ns n r w = (inr tt, w') ∧ healthy w';
  delete_healthy gvk ns n w : healthy w → ∃ o w', cl_delete gvk ns n w = (o, w') ∧ healthy w' ∧
    children w' = delete (gvk, ns, n) (children w) ∧ statuses w' = statuses w;
  groups_same w : children (cl_groups w).2 = children w ∧ statuses (cl_groups w).2 = statuses w;
  groups_healthy w : healthy w → healthy (cl_groups w).2;
  finalizers_done ns n f w w' : cl_patch_finalizers ns n f w = (inr tt, w') →
    children w' = children w ∧ statuses w' = statuses w;
  finalizers_healthy ns n f w : healthy w →
    ∃ w', cl_patch_finalizers ns n f w = (inr tt, w') ∧ healthy w';
  status_done ns n st w w' : cl_patch_status ns n st w = (inr tt, w') →
    children w' = children w ∧ ∃ st', statuses w' = <[(ns, n) := st']> (statuses w) ∧
      (∀ p, phase st = Some p → phase st' = Some p) ∧
      (∀ g, observed_generation st = Some g → observed_generation st' = Some g);
  status_healthy ns n st w : healthy w →
    ∃ w', cl_patch_status ns n st w = (inr tt, w') ∧ healthy w';
  event_same ns n u t w : children (cl_event ns n u t w) = children w ∧
    statuses (cl_event ns n u t w) = statuses w;
  event_healthy ns n u t w : healthy w → healthy (cl_event ns n u t w);
}.

Section reconcile_facts.
Context {W : Type} `{ClusterLaws W} {JsonError : Type}.
Notation MW := (M W (ReconcileErr JsonError)).
Implicit Types w : W.

(** A call that succeeds in a healthy cluster, with what it does to children and statuses. *)
Definition steps {A} (m : MW A) w (Q : A → W → Prop) : Prop :=
  ∃ a w', m w = (Ok a, w') ∧ healthy w' ∧ Q a w'.

Lemma steps_bind {A B} (m : MW A) (f : A → MW B) w (Q : A → W → Prop) (R : B → W → Prop) :
  steps m w Q → (∀ a w', healthy w' → Q a w' → steps (f a) w' R) → steps (bind m f) w R.
Proof.
  intros (a & w1 & Hm & Hh & HQ) Hf. destruct (Hf a w1 Hh HQ) as (b & w2 & Hb & Hh2 & HR).
  exists b, w2. by rewrite (bind_ok _ _ _ _ _ Hm).
Qed.

Lemma steps_ret {A} (a : A) w (Q : A → W → Prop) : healthy w → Q a w → steps (ret a) w Q.
Proof. intros Hh HQ. by exists a, w. Qed.

Lemma steps_mono {A} (m : MW A) w (Q R : A → W → Prop) :
  steps m w Q → (∀ a w', Q a w' → R a w') → steps m w R.
Proof. intros (a & w1 & ? & ? & ?) HR. exists a, w1. auto. Qed.

(** The children and the statuses are those of another state. *)
Definition as_in w w' : Prop := children w' = children w ∧ statuses w' = statuses w.

Lemma try_list_steps gvk ns sel w : healthy w →
  steps (Reconcile.try_list gvk ns sel) w (λ o w', as_in w w' ∧
    ∃ l names, o = Some l ∧ ko_name <$> l = Some <$> names ∧
      ∀ n, n ∈ names ↔ ∃ lbls, children w !! (gvk, ns, n) = Some lbls ∧ selects sel lbls = true).
Proof.
  intros Hh. destruct (list_healthy gvk ns sel w Hh) as (l & w' & Hl & Hh').
  exists (Some l), w'. unfold Reconcile.try_list. rewrite Hl. split; [done|]. split; [done|].
  split; [by eapply list_same|]. destruct (list_done _ _ _ _ _ _ Hl) as (names & ? & ?).
  by exists l, names.
Qed.

Lemma names_of (l : list KObject) names :
  ko_name <$> l = Some <$> names → Reconcile.ko_name_any <$> l = names.
Proof.
  revert names. induction l as [|o l IH]; intros [|n names]; try done. intros [= Ho Hl].
  rewrite fmap_cons, (IH names) by done. unfold Reconcile.ko_name_any. by rewrite Ho.
Qed.

(** The objects with the property are removed and the others stay. *)
Definition removes (P : Gvk * str * str → Prop) w w' : Prop :=
  statuses w' = statuses w ∧ ∀ k, (P k → children w' !! k = None) ∧
    (children w' !! k = children w !! k ∨ P k ∧ children w' !! k = None).

Lemma removes_nothing (P : Gvk * str * str → Prop) w w' :
  as_in w w' → (∀ k, P k → children w !! k = None) → removes P w w'.
Proof. intros [Hc Hs] HP. split; [done|]. intros k. rewrite Hc. auto. Qed.

Lemma removes_trans (P Q R : Gvk * str * str → Prop) w w1 w2 :
  removes P w w1 → removes Q w1 w2 → (∀ k, P k ∨ Q k ↔ R k) → removes R w w2.
Proof.
  intros [Hs1 H1] [Hs2 H2] HR. split; [congruence|]. intros k.
  destruct (H1 k) as [Hp1 Hk1], (H2 k) as [Hp2 Hk2]. rewrite <- HR.
  destruct Hk2 as [Hk2|[Hq Hk2]]; [|by split; [|right; auto]].
  split.
  - intros [Hp|Hq]; [|auto]. rewrite Hk2. auto.
  - rewrite Hk2. destruct Hk1 as [->|[Hp ->]]; auto.
Qed.

Lemma removes_proper (P Q : Gvk * str * str → Prop) w w' :
  (∀ k, P k ↔ Q k) → removes P w w' → removes Q w w'.
Proof. intros HPQ [Hs Hk]. split; [done|]. intros k. rewrite <- HPQ. apply Hk. Qed.

Lemma as_in_removes P w w1 w2 : as_in w w1 → removes P w1 w2 → removes P w w2.
Proof. intros [Hc Hs] [Hs2 Hk]. split; [congruence|]. intros k. rewrite <- Hc. apply Hk. Qed.

Lemma removes_as_in P w w1 w2 : removes P w w1 → as_in w1 w2 → removes P w w2.
Proof. intros [Hs1 Hk] [Hc Hs]. split; [congruence|]. intros k. rewrite Hc. apply Hk. Qed.

Lemma delete_steps gvk ns n w : healthy w →
  steps (Reconcile.best_effort (cl_delete gvk ns n)) w
    (λ _ w', removes (λ k, k = (gvk, ns, n)) w w').
Proof.
  intros Hh. destruct (delete_healthy gvk ns n w Hh) as (o & w' & Hd & Hh' & Hc & Hs).
  exists tt, w'. unfold Reconcile.best_effort. rewrite Hd. split; [done|]. split; [done|].
  split; [done|]. intros k. rewrite Hc. destruct (decide (k = (gvk, ns, n))) as [->|Hne].
  - rewrite lookup_delete_eq. auto.
  - rewrite lookup_delete_ne by done. split; [done|by left].
Qed.

(** A loop of deletions removes what its rounds remove. *)
Lemma for_each_removes {A} (f : A → MW unit) (P : A → Gvk * str * str → Prop) l w :
  (∀ a w, healthy w → steps (f a) w (λ _ w', removes (P a) w w')) → healthy w →
  steps (for_each f l) w (λ _ w', removes (λ k, ∃ a, a ∈ l ∧ P a k) w w').
Proof.
  intros Hf. revert w. induction l as [|a l IH]; intros w Hh.
  - apply steps_ret; [done|]. apply removes_nothing; [done|]. by intros k (a & ?%elem_of_nil & _).
  - eapply steps_bind; [by apply Hf|]. intros [] w1 Hh1 Hr1. simpl in Hr1 |- *.
    eapply steps_mono; [by apply IH|]. intros [] w2 Hr2. eapply removes_trans; [exact Hr1|exact Hr2|].
    intros k. set_solver.
Qed.

(** Objects of a kind in a namespace that carry the owner label of a runtime. *)
Definition owned (name : str) (gvk : Gvk) (ns : str) w (k : Gvk * str * str) : Prop :=
  k.1 = (gvk, ns) ∧ ∃ lbls, children w !! k = Some lbls ∧
    selects (Reconcile.owned_by name) lbls = true.

Lemma delete_listed_steps gvk ns name w : healthy w →
  steps (Reconcile.delete_listed (JsonError := JsonError) gvk ns name) w
    (λ b w', b = true ∧ removes (owned name gvk ns w) w w').
Proof.
  intros Hh. eapply steps_bind; [by apply try_list_steps|].
  intros o w1 Hh1 (Hsame & l & names & -> & Hn & Hnames). simpl.
  eapply steps_bind.
  - apply (for_each_removes _ (λ o k, k = (gvk, ns, Reconcile.ko_name_any o))); [|done].
    intros a w2 Hh2. by apply delete_steps.
  - intros [] w2 Hh2 Hr. apply steps_ret; [done|]. split; [done|].
    eapply as_in_removes; [exact Hsame|]. eapply removes_proper; [|exact Hr].
    intros [[gvk' ns'] n]. apply names_of in Hn. unfold owned. simpl. split.
    + intros (a & Ha & [= -> -> ->]). split; [done|]. apply Hnames. rewrite <- Hn.
      by apply list_elem_of_fmap_2.
    + intros ([= -> ->] & Hl). apply Hnames in Hl. rewrite <- Hn in Hl.
      apply list_elem_of_fmap in Hl as (a & -> & Ha). by exists a.
Qed.
End reconcile_facts.

Section reconcile_theorems.
Context {W : Type} `{ClusterLaws W} {JsonError : Type}.
Context (requests_json : list Odgm.Request → JsonError + str).
Context (config_iter : gmap str str → list (str * str)).
Context (env_cfg : option EnvironmentContext) (cfg : CrmConfig) (include_knative : bool).
Notation MW := (M W (ReconcileErr JsonError)).
Notation reconcile := (Reconcile.reconcile requests_json config_iter env_cfg cfg include_knative).

(** The controller looks for Knative services where Knative is installed. *)
Context (knative_installed : include_knative = true →
  ∀ w : W, healthy w → lit "serving.knative.dev" ∈ default [] (cl_groups w).1).

(** The kinds of children of a runtime. *)
Definition child_kinds : list Gvk :=
  [gvk_deployment; gvk_service] ++ (if include_knative then [gvk_knative] else []).

(** The children of a runtime: objects of these kinds with its name as their owner. *)
Definition owned_child (ns name : str) (w : W) (k : Gvk * str * str) : Prop :=
  ∃ gvk, gvk ∈ child_kinds ∧ owned name gvk ns w k.

Lemma owned_kept (P : Gvk * str * str → Prop) name gvk ns w w' k :
  removes P w w' → (∀ k, P k → k.1 ≠ (gvk, ns)) →
  owned name gvk ns w' k ↔ owned name gvk ns w k.
Proof.
  intros [_ Hr] HP. unfold owned.
  destruct (proj2 (Hr k)) as [->|[Hp%HP _]]; [done|]. by split; intros [? _].
Qed.

Lemma groups_steps w : healthy w →
  steps (JsonError := JsonError) (λ w, let '(g, w) := cl_groups w in (Ok g, w)) w
    (λ g w', as_in w w' ∧ g = (cl_groups w).1).
Proof.
  intros Hh. pose proof (groups_same w) as Hs. pose proof (groups_healthy w Hh) as Hh'.
  destruct (cl_groups w) as [g w'] eqn:E. exists g, w'. by rewrite E.
Qed.

Lemma delete_children_steps ns name w : healthy w →
  steps (Reconcile.delete_children (JsonError := JsonError) include_knative ns name) w
    (λ _ w', removes (owned_child ns name w) w w').
Proof using knative_installed.
  intros Hh. eapply steps_bind; [by apply delete_listed_steps|].
  intros b1 w1 Hh1 (_ & H1). eapply steps_bind; [by apply delete_listed_steps|].
  intros b2 w2 Hh2 (_ & H2).
  assert (removes (λ k, owned name gvk_deployment ns w k ∨ owned name gvk_service ns w k) w w2)
    as H12.
  { eapply removes_trans; [exact H1|exact H2|]. intros k.
    by rewrite (owned_kept _ name gvk_service ns w w1 k H1) by (by intros k' [-> _]). }
  destruct include_knative eqn:Ek.
  - eapply steps_bind; [by apply groups_steps|]. intros g w3 Hh3 [Hs3 ->].
    pose proof (knative_installed eq_refl w2 Hh2) as Hin.
    rewrite (proj2 (existsb_exists _ _)).
    2:{ exists (lit "serving.knative.dev"). split; [by apply list_elem_of_In|].
        by rewrite bool_decide_eq_true_2. }
    eapply steps_bind; [by apply delete_listed_steps|]. intros b4 w4 Hh4 (-> & H4).
    apply steps_ret; [done|]. eapply removes_trans; [exact H12|eapply as_in_removes; [exact Hs3|exact H4]|].
    intros k. unfold owned_child, child_kinds. rewrite Ek.
    rewrite (owned_kept (λ k, owned name gvk_deployment ns w k ∨ owned name gvk_service ns w k)
      name gvk_knative ns w w3 k).
    + set_solver.
    + by eapply removes_as_in.
    + by intros k' [[-> _]|[-> _]].
  - apply steps_ret; [done|]. eapply removes_proper; [|exact H12]. intros k.
    unfold owned_child, child_kinds. rewrite Ek. set_solver.
Qed.

(** C23. A runtime that is being deleted leaves no children behind: in a healthy cluster the
    handler removes exactly the Deployments, Services and Knative services that carry its
    name as their owner, drops the runtime from the cache and waits for no further change;
    every other object stays. *)
Theorem deletion_cleans clocks obj s t :
  healthy (world s) → om_deletion_timestamp (cr_meta obj) = Some t →
  let ns := default (lit "default") (om_namespace (cr_meta obj)) in
  ∃ s', reconcile clocks obj s = (Ok AwaitChange, s') ∧
    runtime_cache s' = delete (Reconcile.cache_key ns (name_any obj)) (runtime_cache s) ∧
    removes (owned_child ns (name_any obj) (world s)) (world s) (world s').
Proof using knative_installed.
  intros Hh Ht ns. unfold Reconcile.reconcile. rewrite Ht. fold ns.
  unfold Reconcile.reconcile_deleted.
  destruct (delete_children_steps ns (name_any obj) (world s) Hh) as ([] & w1 & H1 & Hh1 & Hr).
  unfold Reconcile.on_cluster at 1. erewrite bind_ok; [|by apply zoom_eq].
  rewrite bind_modify. destruct (Reconcile.has_finalizer obj).
  - destruct (finalizers_healthy ns (name_any obj) (filter (λ f, f ≠ Reconcile.FINALIZER)
      (default [] (om_finalizers (cr_meta obj)))) w1 Hh1) as (w2 & H2 & Hh2).
    pose proof (finalizers_done _ _ _ _ _ H2) as Hs2.
    unfold Reconcile.on_cluster. erewrite bind_ok; [|apply zoom_eq; simpl; unfold Reconcile.must;
      by rewrite H2].
    eexists. split; [done|]. split; [done|]. by eapply removes_as_in.
  - eexists. split; [done|]. done.
Qed.
End reconcile_theorems.

(** ** Reconciling a runtime that stays *)

Section settle.
Context {W : Type} `{ClusterLaws W} {JsonError : Type}.
Context (requests_json : list Odgm.Request → JsonError + str).
Context (config_iter : gmap str str → list (str * str)).
Context (env_cfg : option EnvironmentContext) (cfg : CrmConfig) (include_knative : bool).
Notation MW := (M W (ReconcileErr JsonError)).
Notation reconcile := (Reconcile.reconcile requests_json config_iter env_cfg cfg include_knative).
Notation run_fsm := (Reconcile.run_fsm requests_json config_iter env_cfg cfg include_knative).
Notation apply_workload :=
  (Reconcile.apply_workload requests_json config_iter env_cfg cfg include_knative).
Implicit Types w : W.

(** What an observation says of the cluster: its children are the Deployments, and where
    wanted the Knative services, that the runtime owns. *)
Definition observes (ns name : str) w (obs : Observed) : Prop :=
  ∀ n kind, (∃ c, c ∈ obs ∧ child_name c = n ∧ child_kind c = kind) ↔
    kind = lit "Deployment" ∧ owned name gvk_deployment ns w (gvk_deployment, ns, n) ∨
    include_knative = true ∧ kind = lit "KnativeService" ∧
    owned name gvk_knative ns w (gvk_knative, ns, n).

Definition dep_ready (d : KObject) : bool := (0 <? default 0 (ko_available_replicas d))%Z.
Definition kn_ready (s : KObject) : bool := Reconcile.knative_ready (ko_data s).

Lemma listed_children gvk ns name w (l : list KObject) (names : list str) (kind : string) (ready : KObject → bool) n k :
  ko_name <$> l = Some <$> names →
  (∀ n, n ∈ names ↔ ∃ lbls, children w !! (gvk, ns, n) = Some lbls ∧
     selects (Reconcile.owned_by name) lbls = true) →
  (∃ c, c ∈ (λ o, Reconcile.child (Reconcile.ko_name_any o) kind (ready o)) <$> l ∧
        child_name c = n ∧ child_kind c = k) ↔
  k = lit kind ∧ owned name gvk ns w (gvk, ns, n).
Proof.
  intros Hl%names_of Hn. unfold owned. simpl. setoid_rewrite list_elem_of_fmap.
  split.
  - intros (c & (o & -> & Ho) & <- & <-). split; [done|]. split; [done|]. apply Hn.
    rewrite <- Hl. simpl. by apply list_elem_of_fmap_2.
  - intros (-> & _ & Hc%Hn). rewrite <- Hl in Hc. apply list_elem_of_fmap in Hc as (o & -> & Ho).
    eexists. split; [by exists o|done].
Qed.

Lemma observe_steps ns name w : healthy w →
  steps (Reconcile.observe_children (JsonError := JsonError) include_knative ns name) w
    (λ obs w', as_in w w' ∧ observes ns name w obs).
Proof.
  intros Hh. eapply steps_bind; [by apply try_list_steps|].
  intros o1 w1 Hh1 (Hs1 & l1 & names1 & -> & Hn1 & Hin1). simpl default.
  unfold observes. destruct include_knative.
  - eapply steps_bind; [by apply try_list_steps|].
    intros o2 w2 Hh2 (Hs2 & l2 & names2 & -> & Hn2 & Hin2). apply steps_ret; [done|].
    split; [destruct Hs1, Hs2; split; congruence|]. intros n k. simpl default.
    destruct Hs1 as [Hc1 _]. rewrite Hc1 in Hin2.
    rewrite <- (listed_children gvk_deployment ns name w l1 names1 "Deployment" dep_ready n k Hn1 Hin1).
    rewrite <- (listed_children gvk_knative ns name w l2 names2 "KnativeService"
      kn_ready n k Hn2 Hin2).
    split.
    + intros (c & [Hc|Hc]%elem_of_app & Hnk); [left|right; split; [done|]]; by exists c.
    + intros [(c & Hc & Hnk)|(_ & c & Hc & Hnk)]; exists c; rewrite elem_of_app; auto.
  - apply steps_ret; [done|]. split; [done|]. intros n k.
    rewrite (listed_children gvk_deployment ns name w l1 names1 "Deployment" dep_ready n k Hn1 Hin1).
    split; [by left|]. by intros [?|[? _]].
Qed.

(** The kind of the function workloads the state machine watches. *)
Definition fn_gvk : Gvk := if include_knative then gvk_knative else gvk_deployment.

(** The names a runtime's function workloads should have. *)
Definition expected (name : str) (obj : ClassRuntime) : list str :=
  let n := length (spec_functions (cr_spec obj)) in
  (λ i, Names.function_service_name name i n) <$> seq 0 n.

Lemma desc_builtin name obj obs :
  in_desc (Reconcile.eval_input include_knative name obj obs) = builtin include_knative.
Proof. unfold Reconcile.eval_input, builtin. by destruct include_knative. Qed.

(** The children of a watched kind are the function workloads. *)
Lemma watched_kind ns name w n k (Q : Prop) :
  (Q ↔ k = lit "Deployment" ∧ owned name gvk_deployment ns w (gvk_deployment, ns, n) ∨
       include_knative = true ∧ k = lit "KnativeService" ∧
       owned name gvk_knative ns w (gvk_knative, ns, n)) →
  Q → k ∈ Fsm.function_kinds (managed (builtin include_knative)) →
  owned name fn_gvk ns w (fn_gvk, ns, n).
Proof.
  intros HQ Hq%HQ. unfold fn_gvk, builtin.
  destruct include_knative; simpl; intros Hk; destruct Hq as [[-> Ho]|(He & -> & Ho)]; try done.
  by apply list_elem_of_singleton in Hk.
Qed.

(** What the state machine orders deleted, from the cluster it looked at. *)
Lemma ordered_deletions ns name obj w obs n : observes ns name w obs →
  let inp := Reconcile.eval_input include_knative name obj obs in
  deletes (Fsm.evaluate inp) n ↔
  generation_changed inp = false ∧ owned name fn_gvk ns w (fn_gvk, ns, n) ∧
  Fsm.is_odgm n = false ∧ n ∉ expected name obj.
Proof.
  intros Ho inp. rewrite (proj1 (orphans_exact inp n)).
  assert (Fsm.expected_names inp = expected name obj) as ->
    by (by rewrite (builtin_expected include_knative) by apply desc_builtin).
  assert ((∃ c, c ∈ in_observed inp ∧ child_name c = n ∧
             child_kind c ∈ Fsm.function_kinds (managed (in_desc inp)))
          ↔ owned name fn_gvk ns w (fn_gvk, ns, n)) as <-.
  { unfold inp. rewrite desc_builtin. simpl in_observed. split.
    - intros (c & Hc & Hn & Hk). eapply (watched_kind ns name w n _ _ (Ho n _)); [|done].
      by exists c.
    - intros Hown. destruct (proj2 (Ho n (primary_kind include_knative))) as (c & ? & ? & Hk).
      + unfold fn_gvk, primary_kind in *. destruct include_knative; [right|left]; done.
      + exists c. split; [done|]. split; [done|]. rewrite Hk. unfold primary_kind, builtin.
        destruct include_knative; [by left|by left]. }
  split; [|naive_solver]. intros (_ & Hg & c & Hc & Hn & Hk & Hodgm & He). eauto 10.
Qed.
(** *** A round that applies nothing *)

(** Keys of an orphan: the kinds under which it is deleted. *)
Definition orphan_keys (ns n : str) (k : Gvk * str * str) : Prop :=
  k = (gvk_deployment, ns, n) ∨ k = (gvk_service, ns, n) ∨
  include_knative = true ∧ k = (gvk_knative, ns, n).

Lemma delete_orphan_steps ns n w : healthy w →
  steps (Reconcile.delete_orphan (JsonError := JsonError) include_knative ns n) w
    (λ _ w', removes (orphan_keys ns n) w w').
Proof.
  intros Hh. eapply steps_bind; [by apply delete_steps|]. intros [] w1 Hh1 H1.
  eapply steps_bind; [by apply delete_steps|]. intros [] w2 Hh2 H2. unfold orphan_keys.
  assert (removes (λ k, k = (gvk_deployment, ns, n) ∨ k = (gvk_service, ns, n)) w w2) as H12
    by (eapply removes_trans; [exact H1|exact H2|done]).
  destruct include_knative.
  - eapply steps_mono; [by apply delete_steps|]. intros [] w3 H3.
    eapply removes_trans; [exact H12|exact H3|]. tauto.
  - apply steps_ret; [done|]. eapply removes_proper; [|exact H12]. intuition congruence.
Qed.

Lemma delete_orphans_steps ns acts w : healthy w →
  steps (Reconcile.delete_orphans (JsonError := JsonError) include_knative ns acts) w
    (λ _ w', removes (λ k, ∃ names n, DeleteOrphans names ∈ acts ∧ n ∈ names ∧
                             orphan_keys ns n k) w w').
Proof.
  intros Hh. eapply steps_mono.
  - apply (for_each_removes _ (λ a k, match a with
      | DeleteOrphans l => ∃ n, n ∈ l ∧ orphan_keys ns n k | _ => False end)); [|done].
    intros a w1 Hh1. destruct a; try (apply steps_ret; [done|]; by apply removes_nothing).
    apply (for_each_removes _ (orphan_keys ns)); [|done]. intros. by apply delete_orphan_steps.
  - intros [] w' Hr. eapply removes_proper; [|exact Hr]. intros k. split.
    + intros (a & Ha & Hk). destruct a; try done. destruct Hk as (n & ? & ?). eauto.
    + intros (l & n & ? & ? & ?). exists (DeleteOrphans l). eauto.
Qed.

(** The generation of the runtime is the one last handled, or none was recorded. *)
Definition generation_handled (obj : ClassRuntime) : Prop :=
  ∀ g, cr_status obj ≫= observed_generation = Some g →
    g = default 0%Z (om_generation (cr_meta obj)).

Lemma handled_unchanged name obj obs : generation_handled obj →
  generation_changed (Reconcile.eval_input include_knative name obj obs) = false.
Proof.
  unfold generation_handled, Reconcile.eval_input. cbn [generation_changed].
  destruct (cr_status obj ≫= _) as [g|]; [|done]. intros Hg.
  by rewrite bool_decide_eq_true_2 by auto.
Qed.

(** Orphans: function workloads that the runtime owns, are not of the data grid and are not
    of one of its functions. *)
Definition orphan (ns : str) (obj : ClassRuntime) w (n : str) : Prop :=
  owned (name_any obj) fn_gvk ns w (fn_gvk, ns, n) ∧ Fsm.is_odgm n = false ∧
  n ∉ expected (name_any obj) obj.

(** The workload is there, or it is being applied. *)
Definition under_way (ns : str) (obj : ClassRuntime) w : Prop :=
  (∃ n gvk, gvk ∈ [gvk_deployment; fn_gvk] ∧ owned (name_any obj) gvk ns w (gvk, ns, n)) ∨
  ∃ s p, cr_status obj = Some s ∧ Fsm.phase_from <$> phase s = Some p ∧
         (p = Applying ∨ p = Progressing).

Lemma nothing_applied ns obj w obs : generation_handled obj → under_way ns obj w →
  observes ns (name_any obj) w obs →
  existsb Reconcile.is_apply (out_actions (Fsm.evaluate
    (Reconcile.eval_input include_knative (name_any obj) obj obs))) = false.
Proof.
  intros Hg Hu Ho. apply not_true_iff_false. rewrite existsb_exists.
  intros (a & Ha & Hia). destruct a; try done. apply list_elem_of_In in Ha.
  apply (evaluate_builtin include_knative) in Ha as (_ & [Hc|(He & H1 & H2)]);
    [by rewrite handled_unchanged in Hc| |apply desc_builtin].
  destruct Hu as [(n & gvk & Hgvk & Hown)|(s & p & Hs & Hp & Hap)].
  - simpl in He. subst obs. unfold fn_gvk in Hgvk.
    assert (∃ kind c, c ∈ ([] : Observed) ∧ child_name c = n ∧ child_kind c = kind)
      as (? & ? & Hc & _); [|by apply elem_of_nil in Hc].
    rewrite !elem_of_cons, elem_of_nil in Hgvk. destruct include_knative eqn:Ek.
    + destruct Hgvk as [->|[->|[]]].
      * exists (lit "Deployment"). apply Ho. by left.
      * exists (lit "KnativeService"). apply Ho. rewrite Ek. by right.
    + exists (lit "Deployment"). apply Ho. left. by destruct Hgvk as [->|[->|[]]].
  - simpl in H1, H2. rewrite Hs in H1, H2. simpl in H1, H2. rewrite Hp in H1, H2.
    destruct Hap as [->| ->]; done.
Qed.

Lemma run_fsm_quiet ns enable_odgm obj w : healthy w → generation_handled obj →
  under_way ns obj w →
  steps (run_fsm ns (name_any obj) enable_odgm obj) w
    (λ p w', removes (λ k, ∃ n, orphan ns obj w n ∧ orphan_keys ns n k) w w').
Proof.
  intros Hh Hg Hu. eapply steps_bind; [by apply observe_steps|].
  intros obs w1 Hh1 [Hs1 Ho]. simpl. rewrite (nothing_applied ns obj w obs) by done.
  eapply steps_bind; [by apply (steps_ret _ _ (λ _, eq w1))|]. intros [] w1' _ <-. simpl.
  eapply steps_bind; [by apply delete_orphans_steps|]. intros [] w2 Hh2 Hr.
  apply steps_ret; [done|]. eapply as_in_removes; [exact Hs1|].
  eapply removes_proper; [|exact Hr]. intros k.
  assert (∀ n, orphan ns obj w n ↔ deletes (Fsm.evaluate
    (Reconcile.eval_input include_knative (name_any obj) obj obs)) n) as Hd.
  { intros n. rewrite (ordered_deletions ns (name_any obj) obj w obs n Ho).
    rewrite handled_unchanged by done. unfold orphan. tauto. }
  setoid_rewrite Hd. unfold deletes. naive_solver.
Qed.

(** *** Writing the status *)

(** The handler writes the status of the runtime and nothing else. *)
Lemma write_status_steps clocks ns name obj p w : healthy w →
  steps (Reconcile.write_status (JsonError := JsonError) cfg include_knative clocks ns name obj p) w
    (λ _ w', children w' = children w ∧ ∃ st, (statuses w' = statuses w ∨
       statuses w' = <[(ns, name) := st]> (statuses w)) ∧
       (cr_status obj = None → feat_fsm cfg = true →
        statuses w' = <[(ns, name) := st]> (statuses w) ∧
        phase st = Some (Fsm.phase_text p) ∧
        ∀ g, om_generation (cr_meta obj) = Some g → observed_generation st = Some g)).
Proof.
  intros Hh. destruct clocks as [[now now_c] now_t].
  unfold Reconcile.write_status.
  eapply (steps_bind _ _ _ (λ _ w1, as_in w w1)).
  { destruct (feat_fsm cfg); [|by apply steps_ret].
    destruct (spec_functions _); [by apply steps_ret|].
    eapply steps_mono; [by apply observe_steps|]. by intros ? ? [? _]. }
  intros obs w1 Hh1 [Hc1 Hs1]. eapply steps_bind; [by apply try_list_steps|].
  intros o w2 Hh2 [[Hc2 Hs2] _]. simpl.
  match goal with |- steps (if Reconcile.should_patch_status _ ?st then _ else _) _ _ => set (m := st) end.
  assert (cr_status obj = None → feat_fsm cfg = true → phase m = Some (Fsm.phase_text p) ∧
            observed_generation m = om_generation (cr_meta obj)) as Hm.
  { unfold m. intros -> ->. done. }
  destruct (Reconcile.should_patch_status _ m) eqn:Ep.
  - destruct (status_healthy ns name m w2 Hh2) as (w3 & H3 & Hh3).
    pose proof (status_done _ _ _ _ _ H3) as (Hc3 & st' & Hs3 & Hp & Hg). exists tt, w3.
    unfold Reconcile.must. rewrite H3. split; [done|]. split; [done|].
    rewrite Hc3, Hs3, Hc2, Hc1, Hs2, Hs1. split; [done|]. exists st'. split; [by right|].
    intros Hn Hf. destruct (Hm Hn Hf) as [Hmp Hmg]. split; [done|]. split; [by apply Hp|].
    intros g Hog. apply Hg. congruence.
  - apply steps_ret; [done|]. split; [congruence|]. exists m. split; [left; congruence|].
    intros Hn. by rewrite Hn in Ep.
Qed.
(** *** Whole rounds *)

(** The object stores at least the labels applied. *)
Definition stores w (k : Gvk * str * str) (r : RenderedResource) : Prop :=
  ∃ lbls, children w !! k = Some lbls ∧
    ∀ a v, bt_get a (labels_of r) = Some v → bt_get a lbls = Some v.

(** Where a resource is applied. *)
Definition key_of (ns name : str) (r : RenderedResource) : Gvk * str * str :=
  match r with
  | RDeployment d => (gvk_deployment, ns, default name (meta_name (dep_metadata d)))
  | RService s => (gvk_service, ns, default (name ++ lit "-svc") (meta_name (svc_metadata s)))
  | ROther api_version kind m =>
      let '(gvk, n) := Reconcile.dynamic_target_from api_version kind m name in (gvk, ns, n)
  end.

Lemma apply_resource_steps ns name spec r w : healthy w →
  steps (Reconcile.apply_resource (JsonError := JsonError) ns name spec r) w (λ _ w',
    statuses w' = statuses w ∧ stores w' (key_of ns name r) r ∧
    ∀ k, k ≠ key_of ns name r → children w' !! k = children w !! k).
Proof.
  intros Hh.
  assert (∀ gvk n r', labels_of r' = labels_of r →
    steps (JsonError := JsonError) (Reconcile.must (cl_apply gvk ns n r')) w (λ _ w',
      statuses w' = statuses w ∧ stores w' (gvk, ns, n) r ∧
      ∀ k, k ≠ (gvk, ns, n) → children w' !! k = children w !! k)) as Hap.
  { intros gvk n r' Hl. destruct (apply_healthy gvk ns n r' w Hh) as (w' & Ha & Hh').
    exists tt, w'. unfold Reconcile.must. rewrite Ha. split; [done|]. split; [done|].
    destruct (apply_done _ _ _ _ _ _ Ha) as (Hs & lbls & Hc & Hsub). rewrite Hc.
    split; [done|]. split; [|by intros; rewrite lookup_insert_ne].
    exists lbls. rewrite Hc, lookup_insert_eq, <- Hl. done. }
  destruct r as [d|s|av kind m]; simpl.
  - destruct (Reconcile.suppress_replicas spec); by apply Hap.
  - by apply Hap.
  - destruct (Reconcile.dynamic_target_from _ _ _ _) as [gvk n]. by apply Hap.
Qed.

(** The resources are stored, under their keys, and nothing else has changed. *)
Definition applied (ns name : str) (rs : list RenderedResource) w w' : Prop :=
  statuses w' = statuses w ∧ ∀ k,
    (∃ r, r ∈ rs ∧ key_of ns name r = k ∧ stores w' k r) ∨
    (∀ r, r ∈ rs → key_of ns name r ≠ k) ∧ children w' !! k = children w !! k.

Lemma apply_all_steps ns name spec rs w : healthy w →
  steps (for_each (Reconcile.apply_resource (JsonError := JsonError) ns name spec) rs) w
    (λ _ w', applied ns name rs w w').
Proof.
  revert w. induction rs as [|r rs IH]; intros w Hh.
  { apply steps_ret; [done|]. split; [done|]. right. split; [|done]. by intros ? ?%elem_of_nil. }
  eapply steps_bind; [by apply apply_resource_steps|]. intros [] w1 Hh1 (Hs1 & Hst & Hk1).
  eapply steps_mono; [by apply IH|]. intros [] w2 [Hs2 Hk2]. split; [congruence|]. intros k.
  destruct (Hk2 k) as [(r' & Hr' & Hkey & Hst')|[Hno Heq]].
  { left. exists r'. split; [by right|done]. }
  destruct (decide (k = key_of ns name r)) as [->|Hne].
  - left. exists r. split; [left|]. split; [done|]. destruct Hst as (lbls & Hl & ?).
    exists lbls. by rewrite Heq.
  - right. rewrite Heq, Hk1 by done. split; [|done].
    intros r' [->|Hr']%elem_of_cons; [congruence|by apply Hno].
Qed.

(** What the templates without Knative render. *)
Lemma k8s_render ctx :
  existsb Manager.image_missing (spec_functions (ctx_spec ctx)) = false →
  (∀ l, ∃ js, requests_json l = inr js) →
  ∃ rs n img, Manager.render_workload env_cfg (Manager.new requests_json config_iter false) ctx
    = Ok rs ∧ Manager.render_with requests_json config_iter ctx n img = Ok rs.
Proof.
  intros Him Hj. destruct (select_elem env_cfg (Manager.new requests_json config_iter false)
    (ctx_profile ctx) (ctx_spec ctx)) as (t & Hsel & Ht); [done|].
  unfold Manager.render_workload. rewrite Hsel, Him.
  assert (∃ img, Manager.tpl_render t = Manager.render_with_default_image requests_json
            config_iter img) as [img ->].
  { unfold Manager.new in Ht. rewrite !elem_of_app, !elem_of_cons, !elem_of_nil in Ht.
    destruct Ht as [[->|[->|[->|[]]]]|[]]; by eexists. }
  unfold Manager.render_with_default_image.
  pose proof (render_with_total requests_json config_iter ctx 1
    (Some (default (lit img) (odgm_image_override ctx))) Him) as Hr.
  assert (requests_fail requests_json ctx = None) as E.
  { unfold requests_fail. destruct (enable_odgm_sidecar ctx); [|done].
    destruct (Odgm.collection_names _) as [names|]; simpl; [|done].
    by destruct (Hj (Odgm.build_requests (ctx_spec ctx) (ctx_namespace ctx) names
      (Routes.merged_function_routes ctx))) as [js ->]. }
  rewrite E in Hr. destruct Hr as [rs Hr]. by exists rs, 1%Z, (Some (default (lit img)
    (odgm_image_override ctx))).
Qed.
(** The namespace of a runtime *)
Definition ns_of (obj : ClassRuntime) : str :=
  default (lit "default") (om_namespace (cr_meta obj)).

(** The round of a runtime that stays: what the state machine does, and the status. *)
Lemma round clocks obj s (R : Phase → W → Prop) :
  healthy (world s) → om_deletion_timestamp (cr_meta obj) = None → feat_fsm cfg = true →
  (∀ w1, healthy w1 → as_in (world s) w1 → steps (run_fsm (ns_of obj) (name_any obj)
     (Reconcile.compute_enable_odgm cfg (cr_spec obj)) obj) w1 R) →
  ∃ p w2 s', reconcile clocks obj s = (Ok (Reconcile.action_of p), s') ∧ R p w2 ∧
    healthy (world s') ∧ children (world s') = children w2 ∧
    runtime_cache s' = <[Reconcile.cache_key (ns_of obj) (name_any obj) := obj]> (runtime_cache s) ∧
    (∀ k, k ≠ (ns_of obj, name_any obj) → statuses (world s') !! k = statuses w2 !! k) ∧
    (cr_status obj = None → ∃ st, statuses (world s') !! (ns_of obj, name_any obj) = Some st ∧
       phase st = Some (Fsm.phase_text p) ∧
       ∀ g, om_generation (cr_meta obj) = Some g → observed_generation st = Some g).
Proof.
  intros Hh Hd Hf HR. unfold Reconcile.reconcile. rewrite Hd, Hf. fold (ns_of obj).
  assert (∃ w1, (if Reconcile.has_finalizer obj then ret tt
     else Reconcile.on_cluster (JsonError := JsonError) (Reconcile.must (cl_patch_finalizers (ns_of obj) (name_any obj)
       (default [] (om_finalizers (cr_meta obj)) ++ [Reconcile.FINALIZER])))) s
     = (Ok tt, Build_CtrlState w1 (runtime_cache s)) ∧ healthy w1 ∧ as_in (world s) w1)
    as (w1 & H1 & Hh1 & Hs1).
  { destruct (Reconcile.has_finalizer obj).
    - exists (world s). by destruct s.
    - destruct (finalizers_healthy (ns_of obj) (name_any obj) (default [] (om_finalizers
        (cr_meta obj)) ++ [Reconcile.FINALIZER]) (world s) Hh) as (w1 & H1 & Hh1).
      exists w1. split; [|split; [done|by eapply finalizers_done]].
      unfold Reconcile.on_cluster, zoom, Reconcile.must. by rewrite H1. }
  rewrite (bind_ok _ _ _ _ _ H1). destruct (HR w1 Hh1 Hs1) as (p & w2 & H2 & Hh2 & HRp).
  rewrite bind_assoc. unfold Reconcile.on_cluster at 1. erewrite bind_ok; [|by apply zoom_eq].
  rewrite bind_ret, bind_modify. simpl.
  set (w3 := cl_event (ns_of obj) (name_any obj) (om_uid (cr_meta obj))
    (lit "Applied workload for " ++ name_any obj) w2).
  pose proof (event_same (ns_of obj) (name_any obj) (om_uid (cr_meta obj))
    (lit "Applied workload for " ++ name_any obj) w2) as [Hc3 Hs3]. fold w3 in Hc3, Hs3.
  destruct (write_status_steps clocks (ns_of obj) (name_any obj) obj p w3) as
    ([] & w4 & H4 & Hh4 & Hc4 & st & Hst & Hst0); [by apply event_healthy|].
  exists p, w2. eexists. split; [|split; [done|]].
  - unfold Reconcile.on_cluster at 1. erewrite bind_ok; [|by apply zoom_eq]. simpl. fold w3.
    unfold Reconcile.on_cluster. erewrite bind_ok; [done|]. by apply zoom_eq.
  - simpl. split; [done|]. split; [by rewrite Hc4|]. split; [done|]. split.
    + intros k Hk. destruct Hst as [->| ->]; [by rewrite Hs3|].
      by rewrite lookup_insert_ne, Hs3 by done.
    + intros Hn. destruct (Hst0 Hn Hf) as (-> & ? & ?). exists st.
      by rewrite lookup_insert_eq.
Qed.

Lemma owned_as_in name gvk ns w w' k : as_in w w' → owned name gvk ns w' k ↔ owned name gvk ns w k.
Proof. intros [Hc _]. unfold owned. by rewrite Hc. Qed.

Lemma quiet_round clocks obj s :
  healthy (world s) → om_deletion_timestamp (cr_meta obj) = None → feat_fsm cfg = true →
  generation_handled obj → under_way (ns_of obj) obj (world s) →
  ∃ a s', reconcile clocks obj s = (Ok a, s') ∧ healthy (world s') ∧
    (∀ k, k ≠ (ns_of obj, name_any obj) → statuses (world s') !! k = statuses (world s) !! k) ∧
    ∃ w', children (world s') = children w' ∧
      removes (λ k, ∃ n, orphan (ns_of obj) obj (world s) n ∧ orphan_keys (ns_of obj) n k)
        (world s) w'.
Proof.
  intros Hh Hd Hf Hg Hu.
  destruct (round clocks obj s (λ _ w', removes (λ k, ∃ n, orphan (ns_of obj) obj (world s) n ∧
    orphan_keys (ns_of obj) n k) (world s) w') Hh Hd Hf) as
    (p & w2 & s' & Hr & Hrem & Hh' & Hc & _ & Hst & _).
  - intros w1 Hh1 Hs1. eapply steps_mono; [apply run_fsm_quiet; [done..|]|].
    + unfold under_way in *. setoid_rewrite (owned_as_in _ _ _ _ _ _ Hs1). done.
    + intros p w2 Hrem. eapply as_in_removes; [exact Hs1|]. eapply removes_proper; [|exact Hrem].
      intros k. unfold orphan. by setoid_rewrite (owned_as_in _ _ _ _ _ _ Hs1).
  - do 2 eexists. split; [done|]. split; [done|]. split; [|by exists w2].
    intros k Hk. rewrite (Hst k Hk). by rewrite (proj1 Hrem).
Qed.

(** While the workload of a runtime is there or being applied, and its specification is the
    one handled, a round removes exactly the orphans: the children of the watched kind that
    are neither of the data grid nor of a function of the class, under each kind a function
    may have. Everything else in the cluster stays as it is, and so do the statuses of the
    other runtimes. *)
Theorem reconcile_prunes clocks obj s :
  healthy (world s) → om_deletion_timestamp (cr_meta obj) = None → feat_fsm cfg = true →
  generation_handled obj → under_way (ns_of obj) obj (world s) →
  ∃ a s', reconcile clocks obj s = (Ok a, s') ∧
    (∀ k, k ≠ (ns_of obj, name_any obj) → statuses (world s') !! k = statuses (world s) !! k) ∧
    ∀ k, let pruned := ∃ n, orphan (ns_of obj) obj (world s) n ∧ orphan_keys (ns_of obj) n k in
      (pruned → children (world s') !! k = None) ∧
      (¬ pruned → children (world s') !! k = children (world s) !! k).
Proof.
  intros Hh Hd Hf Hg Hu. destruct (quiet_round clocks obj s Hh Hd Hf Hg Hu) as
    (a & s' & Hr & _ & Hst & w' & Hc & _ & Hrem).
  exists a, s'. split; [done|]. split; [done|]. intros k pruned. rewrite Hc.
  destruct (Hrem k) as [H1 H2]. split; [done|]. intros Hn. by destruct H2 as [H2|[? _]].
Qed.
(** *** Convergence *)

Section converge.
Context (no_knative : include_knative = false).
Context (requests_serialise : ∀ l, ∃ js, requests_json l = inr js).

(** The render context of a runtime, for a router. *)
Definition ctx_of (obj : ClassRuntime) (router : option str * option Z) : RenderContext :=
  Reconcile.render_context cfg (ns_of obj) (name_any obj) (om_uid (cr_meta obj))
    (Reconcile.compute_enable_odgm cfg (cr_spec obj)) router (cr_spec obj).

Lemma apply_workload_steps obj w : healthy w →
  existsb Manager.image_missing (spec_functions (cr_spec obj)) = false →
  steps (apply_workload (ns_of obj) (name_any obj) (om_uid (cr_meta obj))
    (Reconcile.compute_enable_odgm cfg (cr_spec obj)) (cr_spec obj)) w (λ _ w',
    ∃ router rs n img, applied (ns_of obj) (name_any obj) rs w w' ∧
      Manager.render_with requests_json config_iter (ctx_of obj router) n img = Ok rs).
Proof using no_knative requests_serialise.
  intros Hh Him. unfold Reconcile.apply_workload. rewrite no_knative.
  eapply (steps_bind _ _ _ (λ _ w1, as_in w w1)).
  { eapply steps_bind; [by apply try_list_steps|]. intros o w1 Hh1 [Hs _]. by apply steps_ret. }
  intros router w1 Hh1 [Hc1 Hs1]. fold (ctx_of obj router).
  destruct (k8s_render (ctx_of obj router) Him requests_serialise) as (rs & n & img & Hr & Hrw).
  rewrite Hr. eapply (steps_bind _ _ _ (λ rs' w', rs' = rs ∧ w' = w1)).
  { by exists rs, w1. }
  intros ? ? _ [-> ->]. eapply steps_mono; [by apply apply_all_steps|]. intros [] w2 [Hs2 Hk].
  exists router, rs, n, img. split; [|done]. split; [congruence|]. by rewrite <- Hc1.
Qed.

Lemma owner_stored name w k r :
  bt_get (lit "oaas.io/owner") (labels_of r) = Some name → stores w k r →
  owned name k.1.1 k.1.2 w k.
Proof.
  intros Hl (lbls & Hc & Hsub). split; [by destruct k as [[? ?] ?]|]. exists lbls.
  split; [done|]. unfold selects, Reconcile.owned_by. simpl.
  by rewrite bool_decide_eq_true_2 by auto.
Qed.

Lemma is_odgm_name ctx : Fsm.is_odgm (Odgm.odgm_name ctx) = true.
Proof.
  unfold Fsm.is_odgm, Fsm.ends_with, Odgm.odgm_name. rewrite length_app, Nat.add_sub, drop_app_length.
  by rewrite bool_decide_eq_true_2.
Qed.

(** A rendered resource carries the owner label; a Deployment is the data grid's or that of a
    function. *)
Lemma rendered_owned obj router n img rs r :
  Manager.render_with requests_json config_iter (ctx_of obj router) n img = Ok rs → r ∈ rs →
  bt_get (lit "oaas.io/owner") (labels_of r) = Some (name_any obj) ∧
  ∀ m, key_of (ns_of obj) (name_any obj) r = (gvk_deployment, ns_of obj, m) →
    Fsm.is_odgm m = true ∨ m ∈ expected (name_any obj) obj.
Proof.
  intros Hr Hin. apply (rendered_cases _ _ _ _ _ _ Hr) in Hin as
    [(j & f & d & s & Hj & _ & Hf & Hrd)|(_ & d & s & Hb & Hrd)].
  - pose proof (render_function_ok _ _ _ _ _ _ Hf) as (Hn & Hl & _ & _ & Hs & _).
    destruct Hrd as [->| ->]; simpl; rewrite ?Hs, Hl, Hn; split; [done| |done|done].
    intros m [= <-]. right. apply list_elem_of_fmap. exists j. split; [done|].
    apply elem_of_seq. apply lookup_lt_Some in Hj. simpl in Hj. lia.
  - pose proof (odgm_resources_ok _ _ _ _ _ _ _ Hb) as (Hn & Hl & _ & Hns & Hls & _).
    destruct Hrd as [->| ->]; simpl; rewrite ?Hls, ?Hl, ?Hn, ?Hns; simpl;
      (split; [by apply odgm_labels_get|]); [|done].
    intros m [= <-]. left. apply is_odgm_name.
Qed.

Lemma first_round obj w : healthy w → cr_status obj = None →
  existsb Manager.image_missing (spec_functions (cr_spec obj)) = false →
  (∀ k, ¬ owned (name_any obj) gvk_deployment (ns_of obj) w k) →
  steps (run_fsm (ns_of obj) (name_any obj) (Reconcile.compute_enable_odgm cfg (cr_spec obj)) obj) w
    (λ p w', p = Applying ∧ ∃ router rs n img, applied (ns_of obj) (name_any obj) rs w w' ∧
      Manager.render_with requests_json config_iter (ctx_of obj router) n img = Ok rs).
Proof using no_knative requests_serialise.
  intros Hh Hn Him Hno. eapply steps_bind; [by apply observe_steps|].
  intros obs w1 Hh1 [[Hc1 Hs1] Ho].
  assert (obs = []) as ->.
  { destruct obs as [|c obs]; [done|]. destruct (proj1 (Ho (child_name c) (child_kind c)))
      as [[_ Hown]|[E _]]; [exists c; split; [left|done]|by apply Hno in Hown|congruence]. }
  assert (Fsm.evaluate (Reconcile.eval_input include_knative (name_any obj) obj [])
          = {| out_phase := Applying; out_actions := [ApplyWorkload] |}) as ->.
  { unfold Fsm.evaluate, Reconcile.eval_input. rewrite Hn. done. }
  simpl. eapply steps_bind; [by apply apply_workload_steps|].
  intros [] w2 Hh2 (router & rs & n & img & [Hs2 Ha] & Hr).
  eapply steps_bind; [by apply (steps_ret tt _ (λ _, eq w2))|]. intros [] ? _ <-.
  apply steps_ret; [done|]. split; [done|]. exists router, rs, n, img. split; [|done].
  split; [congruence|]. by rewrite <- Hc1.
Qed.

Lemma functions_stored obj router n img rs w w' i f gvk :
  Manager.render_with requests_json config_iter (ctx_of obj router) n img = Ok rs →
  applied (ns_of obj) (name_any obj) rs w w' →
  spec_functions (cr_spec obj) !! i = Some f → is_wasm f = false →
  gvk ∈ [gvk_deployment; gvk_service] →
  owned (name_any obj) gvk (ns_of obj) w' (gvk, ns_of obj,
    Names.function_service_name (name_any obj) i (length (spec_functions (cr_spec obj)))).
Proof.
  intros Hr [_ Ha] Hi Hw Hgvk. set (k := (gvk, _, _)).
  pose proof Hr as (Him & _)%render_with_spec.
  destruct (image_present _ i f Him Hi Hw) as [im Hf].
  pose proof (render_function_total (JsonError := JsonError) config_iter (ctx_of obj router) i f)
    as Hrf.
  rewrite Hf in Hrf. destruct Hrf as (d & s & Hrf).
  pose proof (render_function_ok _ _ _ _ _ _ Hrf) as (Hn & _ & _ & _ & Hs & _).
  assert (∃ r, r ∈ rs ∧ key_of (ns_of obj) (name_any obj) r = k) as (r & Hin & Hk).
  { unfold k. rewrite !elem_of_cons, elem_of_nil in Hgvk.
    destruct Hgvk as [->|[->|[]]]; [exists (RDeployment d)|exists (RService s)];
      (split; [apply (rendered_cases _ _ _ _ _ _ Hr); left; exists i, f, d, s; auto|]);
      simpl; by rewrite ?Hs, Hn. }
  destruct (Ha k) as [(r' & Hin' & Hk' & Hst)|[Hno _]]; [|by destruct (Hno r Hin)].
  refine (owner_stored (name_any obj) w' k r' _ Hst).
  by destruct (rendered_owned obj router n img rs r' Hr Hin').
Qed.

Context (with_fsm : feat_fsm cfg = true).

End converge.
End settle.

(** ** A cluster in memory *)

Module DemoReconcile.
Import DemoTemplates.

Record mem := {
  objects : gmap (Gvk * str * str) (btree str str);
  sts : gmap (str * str) CrStatus;
}.

Definition listed (gvk : Gvk) (ns : str) (sel : Selector) (w : mem) : list str :=
  omap (λ kv : (Gvk * str * str) * btree str str,
          if decide (kv.1.1 = (gvk, ns)) then if selects sel kv.2 then Some kv.1.2 else None
          else None) (map_to_list (objects w)).
Definition ko (n : str) : KObject :=
  {| ko_name := Some n; ko_ports := None; ko_available_replicas := Some 1%Z; ko_data := VNull |}.

#[export] Instance mem_cluster : Cluster mem := {|
  cl_list gvk ns sel w := (inr (ko <$> listed gvk ns sel w), w);
  cl_apply gvk ns n r w :=
    (inr tt, {| objects := <[(gvk, ns, n) := labels_of r]> (objects w); sts := sts w |});
  cl_delete gvk ns n w :=
    (inr tt, {| objects := delete (gvk, ns, n) (objects w); sts := sts w |});
  cl_groups w := (Some [lit "serving.knative.dev"], w);
  cl_patch_finalizers _ _ _ w := (inr tt, w);
  cl_patch_status ns n st w :=
    (inr tt, {| objects := objects w; sts := <[(ns, n) := st]> (sts w) |});
  cl_event _ _ _ _ w := w;
|}.

Lemma listed_elem gvk ns sel w n : n ∈ listed gvk ns sel w ↔
  ∃ lbls, objects w !! (gvk, ns, n) = Some lbls ∧ selects sel lbls = true.
Proof.
  unfold listed. rewrite list_elem_of_omap. split.
  - intros ([[[gvk' ns'] n'] lbls] & Hin & E). simpl in E. case_decide as Ek; [|done].
    destruct (selects sel lbls) eqn:Es; simplify_eq. exists lbls. split; [|done].
    by apply elem_of_map_to_list.
  - intros (lbls & Hl & Es). exists ((gvk, ns, n), lbls).
    split; [by apply elem_of_map_to_list|]. simpl. by rewrite decide_True, Es.
Qed.

#[export] Instance mem_laws : ClusterLaws mem.
Proof.
  refine {| children := objects; statuses := sts; healthy := λ _, True |}; simpl.
  - by intros gvk ns sel w o w' [= <- <-].
  - intros gvk ns sel w l w' [= <- <-]. exists (listed gvk ns sel w).
    split; [by rewrite <- list_fmap_compose|]. apply listed_elem.
  - eauto.
  - intros gvk ns n r w w' [= <-]. split; [done|]. exists (labels_of r). done.
  - eauto.
  - intros gvk ns n w _. by do 2 eexists.
  - done.
  - done.
  - by intros ns n f w w' [= <-].
  - eauto.
  - intros ns n st w w' [= <-]. split; [done|]. by exists st.
  - eauto.
  - done.
  - done.
Defined.

Definition cfg : CrmConfig := Config.apply_profile_defaults
  {| cc_profile := lit "edge"; cc_security_mtls := None; feat_nfr_enforcement := None;
     feat_hpa := None; feat_knative := false; feat_odgm_sidecar := true; feat_fsm := true;
     cc_odgm_img_override := None; cc_odgm_pull_policy_override := None;
     cc_odgm_extra_env := None; otel_enabled := false; otel_endpoint := [] |}.
Definition clocks (t : string) : str * str * str := (lit t, lit t, lit t).

Definition runtime (gen : Z) (deleted : option (Z * Z)) (st : option CrStatus) : ClassRuntime :=
  {| cr_meta := {| om_name := Some (lit "c"); om_generate_name := None;
                   om_namespace := Some (lit "d"); om_labels := None; om_annotations := None;
                   om_uid := Some (lit "u"); om_generation := Some gen;
                   om_finalizers := Some [Reconcile.FINALIZER];
                   om_deletion_timestamp := deleted; om_creation_timestamp := None |};
     cr_spec := spec; cr_status := st |}.

Definition key (gvk : Gvk) (n : string) : Gvk * str * str := (gvk, lit "d", lit n).
Definition mine : btree str str := Reconcile.owned_by (lit "c").
Definition empty_state : CtrlState mem :=
  {| world := {| objects := ∅; sts := ∅ |}; runtime_cache := ∅ |}.
(** A Deployment left from a function that is gone, and one of another runtime. *)
Definition left_over : CtrlState mem :=
  {| world := {| objects := {[key gvk_deployment "c-fn-9" := mine;
                              key gvk_service "c-fn-9" := mine;
                              key gvk_deployment "e" := Reconcile.owned_by (lit "e")]};
                 sts := ∅ |};
     runtime_cache := ∅ |}.

Lemma mem_knative : true = true → ∀ w : mem, healthy w →
  lit "serving.knative.dev" ∈ default [] (cl_groups w).1.
Proof. intros _ w _. left. Qed.

Notation go := (Reconcile.reconcile requests_json orders None cfg).

Lemma deletion_cleans_witness : ∃ s',
  go true (clocks "t") (runtime 1 (Some (0, 0)%Z) None) left_over = (Ok AwaitChange, s') ∧
  objects (world s') !! key gvk_deployment "c-fn-9" = None ∧
  is_Some (objects (world s') !! key gvk_deployment "e").
Proof.
  destruct (deletion_cleans (W := mem) requests_json orders None cfg true
    mem_knative (clocks "t") (runtime 1 (Some (0, 0)%Z) None) left_over (0, 0)%Z I eq_refl)
    as (s' & Hr & _ & _ & Hk).
  exists s'. split; [exact Hr|]. split.
  - apply (Hk (key gvk_deployment "c-fn-9")). exists gvk_deployment. split; [left|].
    split; [reflexivity|]. exists mine. split; reflexivity.
  - destruct (proj2 (Hk (key gvk_deployment "e"))) as [He|[(gvk & _ & _ & lbls & Hl & Hs) _]].
    + eexists. etrans; [exact He|]. reflexivity.
    + exfalso. vm_compute in Hl. injection Hl as <-. by vm_compute in Hs.
Defined.

Lemma reconcile_prunes_witness : ∃ a s',
  go false (clocks "t") (runtime 1 None None) left_over = (Ok a, s') ∧
  objects (world s') !! key gvk_service "c-fn-9" = None.
Proof.
  destruct (reconcile_prunes (H0 := mem_laws) requests_json orders None cfg false (clocks "t")
    (runtime 1 None None) left_over I eq_refl eq_refl) as (a & s' & Hr & _ & Hk).
  - intros g Hg. discriminate Hg.
  - left. exists (lit "c-fn-9"), gvk_deployment. split; [left|]. split; [reflexivity|].
    exists mine. split; reflexivity.
  - exists a, s'. split; [exact Hr|]. apply (Hk (key gvk_service "c-fn-9")).
    exists (lit "c-fn-9"). split; [|by right; left]. split; [|split].
    + split; [reflexivity|]. exists mine. split; reflexivity.
    + reflexivity.
    + apply (bool_decide_unpack _). reflexivity.
Defined.


(** The state after a round, and the status it leaves. *)
Definition after (r : res (ReconcileErr Empty_set) Action * CtrlState mem) : CtrlState mem := r.2.
Definition status_in (s : CtrlState mem) : option CrStatus := sts (world s) !! (lit "d", lit "c").

(** A specification that changes while its predecessor is being applied is applied again on
    every round: the status keeps the old generation, since a status that differs in the
    generation and the times only is not written. *)
Example generation_not_recorded :
  let s1 := after (go false (clocks "t") (runtime 1 None None) empty_state) in
  let s2 := after (go false (clocks "t2") (runtime 2 None (status_in s1)) s1) in
  (status_in s1 ≫= phase, status_in s1 ≫= observed_generation, status_in s2 ≫= observed_generation)
  = (Some (lit "applying"), Some 1%Z, Some 1%Z).
Proof. vm_compute. reflexivity. Qed.

(** With Knative watched and a template without it, all workloads ready: the round is asked
    for again. *)
Example knative_watched :
  let s1 := after (go true (clocks "t") (runtime 1 None None) empty_state) in
  let r2 := go true (clocks "t2") (runtime 1 None (status_in s1)) s1 in
  let r3 := go false (clocks "t2") (runtime 1 None (status_in s1)) s1 in
  (fst r2, fst r3) = (Ok (RequeueAfter 5), Ok AwaitChange).
Proof. vm_compute. reflexivity. Qed.
End DemoReconcile.
