(* ===== verification/Artifacts.v ===== *)
(** * Compiled modules and their sources

    [control-plane/oprc-pm/src/services/artifact.rs]: the store of WASM modules under the hash
    of their content and of the sources they were compiled from. The two traits are the classes
    [ArtifactStore] and [SourceStore], and [ArtifactLaws] says what their clients rely on; the
    store in files, over the calls of a file system ([FileSystem]), and the store in memory
    implement them. The hash and the JSON of the build metadata are arguments. *)

From stdpp Require Import base tactics list list_numbers numbers option gmap strings pretty sorting.
From Stdlib Require Import ZArith Lia.
From S2P Require Import Prelude BTree Float64 Routing ClassRuntime.

Set Default Proof Using "Type".
Open Scope prog_scope.

(** ** Text *)

Module Utf8.

(** [String::from_utf8], as characters *)
Fixpoint decode (l : bytes) : option str :=
  match l with
  | [] => Some []
  | a :: r1 =>
      if (bz a <? 128)%Z then cons (bz a) <$> decode r1
      else match r1 with
      | [] => None
      | b :: r2 =>
          if in_range 194 223 a then
            if utf8_tail b then cons ((bz a - 192) * 64 + (bz b - 128))%Z <$> decode r2 else None
          else match r2 with
          | [] => None
          | c :: r3 =>
              if in_range 224 239 a then
                if utf8_second3 a b && utf8_tail c
                then cons ((bz a - 224) * 4096 + (bz b - 128) * 64 + (bz c - 128))%Z <$> decode r3
                else None
              else match r3 with
              | [] => None
              | d :: r4 =>
                  if in_range 240 244 a && utf8_second4 a b && utf8_tail c && utf8_tail d
                  then cons ((bz a - 240) * 262144 + (bz b - 128) * 4096 + (bz c - 128) * 64
                             + (bz d - 128))%Z <$> decode r4
                  else None
              end
          end
      end
  end.

(** Unicode scalar values: what a [char] can be. *)
Definition scalar (c : Z) : Prop := (0 ≤ c < 55296 ∨ 57344 ≤ c < 1114112)%Z.

End Utf8.

Module PathBuf.

Definition slash : Z := 47.

(** [Path::join]: an absolute path replaces the base. *)
Definition join (base p : str) : str :=
  if bool_decide (head p = Some slash) then p
  else match last base with
       | None => p
       | Some c => if (c =? slash)%Z then base ++ p else base ++ [slash] ++ p
       end.

(** [file_stem] and [extension] of a file name *)
Definition split_name (name : str) : str * option str :=
  match Text.rsplit_once 46 name with
  | Some ((_ :: _) as stem, ext) => (stem, Some ext)
  | _ => (name, None)
  end.

(** Where a path leads, from the root: its components without empty ones and [.], and with
    [..] taken back. *)
Definition enter (at_ : list str) (c : str) : list str :=
  if bool_decide (c = [] ∨ c = lit ".") then at_
  else if bool_decide (c = lit "..") then take (length at_ - 1) at_
  else at_ ++ [c].
Definition locate (cwd : list str) (p : str) : list str :=
  foldl enter (if bool_decide (head p = Some slash) then [] else cwd) (Text.split slash p).

End PathBuf.

(** ** Artifacts *)

(** [std::io::Error], as its text *)
Notation IoError := (list Z) (only parsing).

Inductive ArtifactError : Type :=
| ArtNotFound (id : str)
| ArtIo (e : IoError)
| ArtInvalidId (id : str).

Definition artifact_error_text (e : ArtifactError) : str :=
  match e with
  | ArtNotFound id => lit "Artifact not found: " ++ id
  | ArtIo e => lit "IO error: " ++ e
  | ArtInvalidId id => lit "Invalid artifact ID: " ++ id
  end.

Record ArtifactMeta := {
  am_package : str;
  am_class_key : str;
  built_at : str;
}.

Record ArtifactInfo := {
  ai_id : str;
  ai_size : Z;
  ai_meta : option ArtifactMeta;
}.

Record SourceInfo := {
  si_package : str;
  si_function : str;
}.

Definition is_ascii_hexdigit (c : Z) : bool :=
  (48 <=? c)%Z && (c <=? 57)%Z || (65 <=? c)%Z && (c <=? 70)%Z || (97 <=? c)%Z && (c <=? 102)%Z.

(** 64 hexadecimal digits *)
Definition valid_hash (id : str) : bool :=
  bool_decide (length id = 64) && forallb is_ascii_hexdigit id.

Definition validate_id {S} (id : str) : M S ArtifactError unit :=
  if valid_hash id then ret tt else throw (ArtInvalidId id).

(** ** The traits *)

Class ArtifactStore (F : Type) := {
  art_store : bytes → M F ArtifactError str;
  art_get : str → M F ArtifactError bytes;
  art_delete : str → M F ArtifactError bool;
  art_exists : str → M F ArtifactError bool;
  art_list : M F ArtifactError (list ArtifactInfo);
  art_store_meta : str → ArtifactMeta → M F ArtifactError unit;
  art_get_meta : str → M F ArtifactError (option ArtifactMeta);
}.

Class SourceStore (F : Type) := {
  src_store : str → str → str → M F ArtifactError unit;
  src_get : str → str → M F ArtifactError (option str);
  src_delete : str → str → M F ArtifactError bool;
  src_delete_package : str → M F ArtifactError Z;
  src_list : M F ArtifactError (list SourceInfo);
}.

(** ** The file system *)

Inductive FileType : Type := AFile | ADir | AnotherType.

(** An entry of a directory: its name, its type if it can be told, and its length. Names are
    texts. *)
Record DirEntry := {
  de_name : str;
  de_type : option FileType;
  de_len : IoError + Z;
}.

Class FileSystem (F : Type) := {
  fs_exists : str → F → bool * F;
  fs_read : str → F → (IoError + bytes) * F;
  fs_write : str → bytes → F → (IoError + unit) * F;
  fs_rename : str → str → F → (IoError + unit) * F;
  fs_remove_file : str → F → (IoError + unit) * F;
  fs_create_dir_all : str → F → (IoError + unit) * F;
  fs_remove_dir : str → F → (IoError + unit) * F;
  (** the entries as [next_entry] gives them *)
  fs_read_dir : str → F → (IoError + list (IoError + DirEntry)) * F;
}.

(** [Vec::sort_by] of the listings *)
Definition info_cmp (a b : ArtifactInfo) : comparison := cmp (ai_id a) (ai_id b).
Definition source_cmp (a b : SourceInfo) : comparison :=
  match cmp (si_package a) (si_package b) with
  | Eq => cmp (si_function a) (si_function b)
  | c => c
  end.

Module FsStore.
Section store.
Context {F : Type} `{FileSystem F}.
Context (content_hash : bytes → str).
Context (meta_json : ArtifactMeta → IoError + str) (parse_meta : str → IoError + ArtifactMeta).
Context (wasm_dir source_dir : str).

Notation AM := (M F ArtifactError).

(** A call with [?] *)
Definition io {A} (call : F → (IoError + A) * F) : AM A := λ f,
  match call f with (inr a, f) => (Ok a, f) | (inl e, f) => (Err (ArtIo e), f) end.
Definition exists_ (p : str) : AM bool := λ f, let '(b, f) := fs_exists p f in (Ok b, f).

(** [fs::read_to_string] *)
Definition read_to_string (p : str) : AM str :=
  let! b := io (fs_read p) in
  match Utf8.decode b with
  | Some s => ret s
  | None => throw (ArtIo (lit "stream did not contain valid UTF-8"))
  end.

Definition wasm_path (id : str) : str := PathBuf.join wasm_dir (id ++ lit ".wasm").
Definition tmp_path (id : str) : str := PathBuf.join wasm_dir (id ++ lit ".wasm.tmp").
Definition meta_path (id : str) : str := PathBuf.join wasm_dir (id ++ lit ".meta.json").
Definition source_path (package function : str) : str :=
  PathBuf.join (PathBuf.join source_dir package) (function ++ lit ".ts").
(** [Path::parent] of a source path *)
Definition parent (p : str) : option str :=
  (λ ab, match ab.1 with [] => [PathBuf.slash] | _ => ab.1 end)
  <$> Text.rsplit_once PathBuf.slash p.

Definition store (b : bytes) : AM str :=
  let id := content_hash b in
  let! known := exists_ (wasm_path id) in
  if known : bool then ret id else
  io (fs_write (tmp_path id) b) ;;;
  io (fs_rename (tmp_path id) (wasm_path id)) ;;;
  ret id.

Definition get (id : str) : AM bytes :=
  validate_id id ;;;
  let! known := exists_ (wasm_path id) in
  if known : bool then io (fs_read (wasm_path id)) else throw (ArtNotFound id).

Definition delete (id : str) : AM bool :=
  validate_id id ;;;
  let! known := exists_ (wasm_path id) in
  if known : bool then io (fs_remove_file (wasm_path id)) ;;; ret true else ret false.

Definition exists_artifact (id : str) : AM bool := validate_id id ;;; exists_ (wasm_path id).

Definition store_meta (id : str) (meta : ArtifactMeta) : AM unit :=
  match meta_json meta with
  | inl e => throw (ArtIo e)
  | inr json => io (fs_write (meta_path id) (Text.utf8 json))
  end.

Definition get_meta (id : str) : AM (option ArtifactMeta) :=
  let! known := exists_ (meta_path id) in
  if known : bool then
    let! json := read_to_string (meta_path id) in
    match parse_meta json with inl e => throw (ArtIo e) | inr m => ret (Some m) end
  else ret None.

(** A listing of which failures are ignored ([.ok().flatten()]) *)
Definition meta_or_none (id : str) : AM (option ArtifactMeta) := λ f,
  match get_meta id f with
  | (Ok m, f) => (Ok m, f)
  | (Err _, f) => (Ok None, f)
  | (Panic p, f) => (Panic p, f)
  end.

Fixpoint list_loop (entries : list (IoError + DirEntry)) (acc : list ArtifactInfo) :
    AM (list ArtifactInfo) :=
  match entries with
  | [] => ret acc
  | inl e :: _ => throw (ArtIo e)
  | inr e :: entries =>
      let '(stem, ext) := PathBuf.split_name (de_name e) in
      if bool_decide (ext = Some (lit "wasm")) && valid_hash stem then
        match de_len e with
        | inl err => throw (ArtIo err)
        | inr len =>
            let! meta := meta_or_none stem in
            list_loop entries (acc ++ [{| ai_id := stem; ai_size := len; ai_meta := meta |}])
        end
      else list_loop entries acc
  end.
Definition list_artifacts : AM (list ArtifactInfo) :=
  let! entries := io (fs_read_dir wasm_dir) in
  let! l := list_loop entries [] in
  ret (sort_by info_cmp l).

Definition store_source (package function source : str) : AM unit :=
  let path := source_path package function in
  (match parent path with Some d => io (fs_create_dir_all d) | None => ret tt end) ;;;
  io (fs_write path (Text.utf8 source)).

Definition get_source (package function : str) : AM (option str) :=
  let path := source_path package function in
  let! known := exists_ path in
  if known : bool then let! s := read_to_string path in ret (Some s) else ret None.

Definition delete_source (package function : str) : AM bool :=
  let path := source_path package function in
  let! known := exists_ path in
  if known : bool then io (fs_remove_file path) ;;; ret true else ret false.

Fixpoint delete_loop (dir : str) (entries : list (IoError + DirEntry)) (count : Z) : AM Z :=
  match entries with
  | [] => ret count
  | inl e :: _ => throw (ArtIo e)
  | inr e :: entries =>
      match de_type e with
      | Some AFile =>
          io (fs_remove_file (PathBuf.join dir (de_name e))) ;;;
          delete_loop dir entries (count + 1)%Z
      | _ => delete_loop dir entries count
      end
  end.
Definition delete_package_sources (package : str) : AM Z :=
  let dir := PathBuf.join source_dir package in
  let! known := exists_ dir in
  if known : bool then
    let! entries := io (fs_read_dir dir) in
    let! count := delete_loop dir entries 0 in
    (λ f, (Ok tt, (fs_remove_dir dir f).2)) ;;;
    ret count
  else ret 0%Z.

Fixpoint functions_loop (package : str) (entries : list (IoError + DirEntry))
    (acc : list SourceInfo) : AM (list SourceInfo) :=
  match entries with
  | [] => ret acc
  | inl e :: _ => throw (ArtIo e)
  | inr e :: entries =>
      functions_loop package entries
        (acc ++ [{| si_package := package; si_function := (PathBuf.split_name (de_name e)).1 |}])
  end.
Fixpoint packages_loop (entries : list (IoError + DirEntry)) (acc : list SourceInfo) :
    AM (list SourceInfo) :=
  match entries with
  | [] => ret acc
  | inl e :: _ => throw (ArtIo e)
  | inr e :: entries =>
      match de_type e with
      | Some ADir =>
          let! fns := io (fs_read_dir (PathBuf.join source_dir (de_name e))) in
          let! acc := functions_loop (de_name e) fns acc in
          packages_loop entries acc
      | _ => packages_loop entries acc
      end
  end.
Definition list_sources : AM (list SourceInfo) :=
  let! entries := io (fs_read_dir source_dir) in
  let! l := packages_loop entries [] in
  ret (sort_by source_cmp l).

End store.

(** [FsArtifactStore::new] *)
Definition new {F} `{FileSystem F} (base : str) : M F ArtifactError (str * str) :=
  let wasm_dir := PathBuf.join base (lit "wasm-modules") in
  let source_dir := PathBuf.join base (lit "sources") in
  io (fs_create_dir_all wasm_dir) ;;;
  io (fs_create_dir_all source_dir) ;;;
  ret (wasm_dir, source_dir).

End FsStore.

(** ** The store in memory *)

Record MemStore := {
  ms_wasm : gmap str bytes;
  ms_metas : gmap str ArtifactMeta;
  ms_sources : gmap str str;
}.

Module MemArtifacts.
Section store.
Context (content_hash : bytes → str).

Notation AM := (M MemStore ArtifactError).

Definition set_wasm (x : gmap str bytes) (s : MemStore) : MemStore :=
  {| ms_wasm := x; ms_metas := ms_metas s; ms_sources := ms_sources s |}.
Definition set_metas (x : gmap str ArtifactMeta) (s : MemStore) : MemStore :=
  {| ms_wasm := ms_wasm s; ms_metas := x; ms_sources := ms_sources s |}.
Definition set_sources (x : gmap str str) (s : MemStore) : MemStore :=
  {| ms_wasm := ms_wasm s; ms_metas := ms_metas s; ms_sources := x |}.

Definition source_key (package function : str) : str := package ++ lit "/" ++ function.

Definition store (b : bytes) : AM str :=
  let id := content_hash b in
  modify (λ s, set_wasm (<[id := b]> (ms_wasm s)) s) ;;; ret id.

Definition get (id : str) : AM bytes :=
  validate_id id ;;;
  let! b := gets (λ s, ms_wasm s !! id) in
  match b with Some b => ret b | None => throw (ArtNotFound id) end.

Definition delete_artifact (id : str) : AM bool :=
  validate_id id ;;;
  let! b := gets (λ s, ms_wasm s !! id) in
  modify (λ s, set_wasm (delete id (ms_wasm s)) s) ;;;
  ret (bool_decide (is_Some b)).

Definition exists_artifact (id : str) : AM bool :=
  validate_id id ;;; gets (λ s, bool_decide (is_Some (ms_wasm s !! id))).

Definition list_artifacts : AM (list ArtifactInfo) :=
  gets (λ s, sort_by info_cmp
    ((λ kv, {| ai_id := kv.1; ai_size := Z.of_nat (length kv.2); ai_meta := ms_metas s !! kv.1 |})
     <$> map_to_list (ms_wasm s))).

Definition store_meta (id : str) (meta : ArtifactMeta) : AM unit :=
  modify (λ s, set_metas (<[id := meta]> (ms_metas s)) s).
Definition get_meta (id : str) : AM (option ArtifactMeta) := gets (λ s, ms_metas s !! id).

Definition store_source (package function source : str) : AM unit :=
  modify (λ s, set_sources (<[source_key package function := source]> (ms_sources s)) s).
Definition get_source (package function : str) : AM (option str) :=
  gets (λ s, ms_sources s !! source_key package function).

Definition delete_source (package function : str) : AM bool :=
  let! b := gets (λ s, ms_sources s !! source_key package function) in
  modify (λ s, set_sources (delete (source_key package function) (ms_sources s)) s) ;;;
  ret (bool_decide (is_Some b)).

Definition of_package (package key : str) : bool := Text.starts_with (package ++ lit "/") key.
Definition delete_package_sources (package : str) : AM Z :=
  let! keys := gets (λ s, filter (λ k, of_package package k = true)
                            (map_to_list (ms_sources s)).*1) in
  modify (λ s, set_sources (foldl (λ m k, delete k m) (ms_sources s) keys) s) ;;;
  ret (Z.of_nat (length keys)).

(** [splitn(2, '/')] of the keys *)
Definition list_sources : AM (list SourceInfo) :=
  gets (λ s, sort_by source_cmp
    (omap (λ kv, (λ ab, {| si_package := ab.1; si_function := ab.2 |})
                 <$> Text.split_once PathBuf.slash kv.1) (map_to_list (ms_sources s)))).

End store.
End MemArtifacts.

(** ** What the calls of a file system do *)

(** The content of files by location: a successful call does what it says and nothing else, one
    that fails changes at most the file that was being written, and in a working file system
    existing files can be read. Directories are made by [create_dir_all] only. *)
Class FileSystemLaws (F : Type) `{FileSystem F} := {
  cwd : list str;
  files : F → gmap (list str) bytes;
  is_dir : F → list str → Prop;
  fs_works : F → Prop;
  exists_same p f : files (fs_exists p f).2 = files f;
  exists_true p f : (fs_exists p f).1 = true →
    is_Some (files f !! PathBuf.locate cwd p) ∨ is_dir f (PathBuf.locate cwd p);
  exists_dirs p f l : is_dir (fs_exists p f).2 l → is_dir f l;
  read_dirs p f l : is_dir (fs_read p f).2 l → is_dir f l;
  write_dirs p b f l : is_dir (fs_write p b f).2 l → is_dir f l;
  rename_dirs p q f l : is_Some (files f !! PathBuf.locate cwd p) →
    is_dir (fs_rename p q f).2 l → is_dir f l;
  create_dirs p f l : is_dir (fs_create_dir_all p f).2 l →
    is_dir f l ∨ l `prefix_of` PathBuf.locate cwd p;
  exists_works p f : fs_works f → fs_works (fs_exists p f).2 ∧
    (is_Some (files f !! PathBuf.locate cwd p) → (fs_exists p f).1 = true);
  read_done p f : files (fs_read p f).2 = files f ∧
    ∀ b, (fs_read p f).1 = inr b → files f !! PathBuf.locate cwd p = Some b;
  read_works p f b : fs_works f → fs_works (fs_read p f).2 ∧
    (files f !! PathBuf.locate cwd p = Some b → (fs_read p f).1 = inr b);
  write_done p b f : ((fs_write p b f).1 = inr tt →
      files (fs_write p b f).2 = <[PathBuf.locate cwd p := b]> (files f)) ∧
    ∀ l, l ≠ PathBuf.locate cwd p → files (fs_write p b f).2 !! l = files f !! l;
  write_works p b f : fs_works f → fs_works (fs_write p b f).2;
  rename_done p q f : match (fs_rename p q f).1 with
    | inr _ => ∃ b, files f !! PathBuf.locate cwd p = Some b ∧
        files (fs_rename p q f).2
        = <[PathBuf.locate cwd q := b]> (delete (PathBuf.locate cwd p) (files f))
    | inl _ => files (fs_rename p q f).2 = files f
    end;
  rename_works p q f : fs_works f → fs_works (fs_rename p q f).2;
  remove_done p f : match (fs_remove_file p f).1 with
    | inr _ => files (fs_remove_file p f).2 = delete (PathBuf.locate cwd p) (files f)
    | inl _ => files (fs_remove_file p f).2 = files f
    end;
  remove_works p f : fs_works f → fs_works (fs_remove_file p f).2;
  remove_dirs p f l : is_dir (fs_remove_file p f).2 l → is_dir f l;
  remove_dir_dirs p f l : is_dir (fs_remove_dir p f).2 l → is_dir f l;
  read_dir_dirs p f l : is_dir (fs_read_dir p f).2 l → is_dir f l;
  create_same p f : files (fs_create_dir_all p f).2 = files f ∧
    (fs_works f → fs_works (fs_create_dir_all p f).2);
  remove_dir_same p f : files (fs_remove_dir p f).2 = files f ∧
    (fs_works f → fs_works (fs_remove_dir p f).2);
  read_dir_same p f : files (fs_read_dir p f).2 = files f ∧
    (fs_works f → fs_works (fs_read_dir p f).2);
}.

(** ** Paths *)

Lemma split_app c s t : Text.split c (s ++ c :: t) = Text.split c s ++ Text.split c t.
Proof.
  induction s as [|x s IH]; simpl.
  - by rewrite Z.eqb_refl.
  - destruct (x =? c)%Z; [by rewrite IH|]. rewrite IH.
    destruct (Text.split c s) as [|p ps] eqn:E; [|done].
    destruct s as [|y s]; simpl in E; [done|]. destruct (y =? c)%Z; [done|].
    by destruct (Text.split c s).
Qed.

Lemma split_plain c s : c ∉ s → Text.split c s = [s].
Proof.
  induction s as [|x s IH]; intros Hc; [done|]. simpl.
  rewrite (proj2 (Z.eqb_neq x c)) by set_solver. by rewrite IH by set_solver.
Qed.

(** The last piece of a text that ends in a piece without the separator *)
Lemma split_last c s e : c ∉ e → ∃ pre t, Text.split c (s ++ e) = pre ++ [t ++ e].
Proof.
  intros He. induction s as [|x s (pre & t & IH)]; simpl.
  { exists [], []. by rewrite split_plain. }
  rewrite IH. destruct (x =? c)%Z; [by exists ([] :: pre), t|].
  destruct pre as [|p pre]; [by exists [], (x :: t)|by exists ((x :: p) :: pre), t].
Qed.

Lemma split_once_app c s t : c ∉ s → Text.split_once c (s ++ c :: t) = Some (s, t).
Proof.
  induction s as [|x s IH]; intros Hc; simpl; [by rewrite Z.eqb_refl|].
  rewrite (proj2 (Z.eqb_neq x c)) by set_solver. by rewrite IH by set_solver.
Qed.

Lemma rsplit_once_app c s t : c ∉ t → Text.rsplit_once c (s ++ c :: t) = Some (s, t).
Proof.
  intros Hc. unfold Text.rsplit_once. rewrite reverse_app, reverse_cons, <- app_assoc. simpl.
  rewrite split_once_app by (by rewrite elem_of_reverse). simpl. by rewrite !reverse_involutive.
Qed.

Import PathBuf.

Lemma enter_empty l : enter l [] = l.
Proof. unfold enter. by rewrite bool_decide_eq_true_2 by by left. Qed.

Lemma locate_join cwd b p : head p ≠ Some slash →
  locate cwd (join b p) = foldl enter (locate cwd b) (Text.split slash p).
Proof.
  intros Hp. unfold join, locate. rewrite (bool_decide_eq_false_2 (head p = _)) by done.
  destruct b as [|c b _] using rev_ind.
  { simpl. by rewrite (bool_decide_eq_false_2 (head p = _)) by done. }
  rewrite last_snoc.
  assert (∀ t, head ((b ++ [c]) ++ t) = head (b ++ [c])) as Hh by (intros t; by destruct b).
  destruct (Z.eqb_spec c slash) as [->|Hc].
  - rewrite Hh, <- app_assoc. simpl. rewrite !split_app, !foldl_app. simpl.
    by rewrite enter_empty.
  - rewrite Hh. change ([slash] ++ p) with (slash :: p). by rewrite split_app, foldl_app.
Qed.

(** A file name that names a file in its directory. *)
Definition plain (n : str) : Prop := slash ∉ n ∧ n ≠ [] ∧ n ≠ lit "." ∧ n ≠ lit "..".

Lemma enter_plain l n : n ≠ [] → n ≠ lit "." → n ≠ lit ".." → enter l n = l ++ [n].
Proof.
  intros. unfold enter. rewrite bool_decide_eq_false_2 by tauto. by rewrite bool_decide_eq_false_2.
Qed.

Lemma locate_plain cwd b n : plain n → locate cwd (join b n) = locate cwd b ++ [n].
Proof.
  intros (Hs & H1 & H2 & H3). rewrite locate_join.
  - rewrite split_plain by done. simpl. by apply enter_plain.
  - destruct n; [done|]. simpl. intros [= ->]. set_solver.
Qed.

(** Whatever stands before it, a path that ends in a suffix leads to a name that ends in it. *)
Lemma locate_suffix cwd b s e : slash ∉ e → 3 ≤ length e →
  ∃ pre t, locate cwd (join b (s ++ e)) = pre ++ [t ++ e].
Proof.
  intros He Hl. destruct (split_last slash s e He) as (ps & t & Hs).
  assert (∀ l, enter l (t ++ e) = l ++ [t ++ e]) as Hen.
  { intros l. apply enter_plain; intros E%(f_equal length); rewrite length_app in E; simpl in E; lia. }
  destruct (decide (head (s ++ e) = Some slash)) as [Hh|Hh].
  - unfold join. rewrite bool_decide_eq_true_2 by done. unfold locate. rewrite Hs, foldl_app.
    simpl. rewrite Hen. by eexists _, _.
  - rewrite locate_join by done. rewrite Hs, foldl_app. simpl. rewrite Hen. by eexists _, _.
Qed.

(** ** UTF-8 *)

Lemma decode_char c s : Utf8.scalar c → Utf8.decode (Text.utf8_char c ++ s) = cons c <$> Utf8.decode s.
Proof.
  unfold Utf8.scalar, Text.utf8_char. intros Hc.
  destruct (Z.ltb_spec c 128).
  { simpl. rewrite bz_zb_small by lia. by rewrite (proj2 (Z.ltb_lt c 128)). }
  pose proof (Z.div_mod c 64). pose proof (Z.mod_pos_bound c 64).
  pose proof (Z.div_mod (c / 64) 64). pose proof (Z.mod_pos_bound (c / 64) 64).
  assert (c / 64 / 64 = c / 4096)%Z as E1 by by rewrite Z.div_div.
  pose proof (Z.div_mod (c / 4096) 64). pose proof (Z.mod_pos_bound (c / 4096) 64).
  assert (c / 4096 / 64 = c / 262144)%Z as E2 by by rewrite Z.div_div.
  destruct (Z.ltb_spec c 2048); [|destruct (Z.ltb_spec c 65536)]; simpl;
    unfold utf8_second3, utf8_second4, utf8_tail, in_range; rewrite !bz_zb_small by lia.
  - rewrite (proj2 (Z.ltb_ge (192 + c / 64) 128)) by lia.
    repeat (rewrite (proj2 (Z.leb_le _ _)) by lia). simpl. do 2 f_equal. lia.
  - rewrite (proj2 (Z.ltb_ge (224 + c / 4096) 128)) by lia.
    rewrite (proj2 (Z.leb_gt (224 + c / 4096) 223)) by lia. rewrite andb_false_r.
    repeat (rewrite (proj2 (Z.leb_le _ _)) by lia). simpl.
    destruct (Z.eqb_spec (224 + c / 4096) 224); [|destruct (Z.eqb_spec (224 + c / 4096) 237)];
      repeat (rewrite (proj2 (Z.leb_le _ _)) by lia); simpl; do 2 f_equal; lia.
  - rewrite (proj2 (Z.ltb_ge (240 + c / 262144) 128)) by lia.
    rewrite (proj2 (Z.leb_gt (240 + c / 262144) 223)) by lia. rewrite andb_false_r.
    rewrite (proj2 (Z.leb_gt (240 + c / 262144) 239)) by lia. rewrite andb_false_r.
    repeat (rewrite (proj2 (Z.leb_le _ _)) by lia). simpl.
    destruct (Z.eqb_spec (240 + c / 262144) 240); [|destruct (Z.eqb_spec (240 + c / 262144) 244)];
      repeat (rewrite (proj2 (Z.leb_le _ _)) by lia); simpl; do 2 f_equal; lia.
Qed.

(** A text read back from its bytes *)
Lemma decode_utf8 s : Forall Utf8.scalar s → Utf8.decode (Text.utf8 s) = Some s.
Proof.
  induction 1 as [|c s Hc _ IH]; [done|]. 
  change (Text.utf8 (c :: s)) with (Text.utf8_char c ++ Text.utf8 s).
  by rewrite decode_char, IH.
Qed.

(** ** What clients rely on *)

(** The artifacts, by hash, and the sources of a store that keeps them. Sources under plain
    names leave the store in working order. *)
Class ArtifactLaws (F : Type) `{!ArtifactStore F} `{!SourceStore F} (content_hash : bytes → str) := {
  artifact_at : F → str → option bytes;
  source_at : F → str → str → option str;
  store_works : F → Prop;
  same_artifacts f f' := (∀ id, artifact_at f' id = artifact_at f id) ∧
    (store_works f → store_works f');
  fewer_artifacts f f' := ∀ id, artifact_at f' id = artifact_at f id ∨ artifact_at f' id = None;
  law_store b f :
    (∀ id, artifact_at (art_store b f).2 id = artifact_at f id ∨
       id = content_hash b ∧ artifact_at (art_store b f).2 id = Some b) ∧
    (store_works f → store_works (art_store b f).2 ∧ ∀ id, (art_store b f).1 = Ok id →
       id = content_hash b ∧ is_Some (artifact_at (art_store b f).2 id));
  law_get id f : same_artifacts f (art_get id f).2 ∧
    (∀ b, (art_get id f).1 = Ok b → artifact_at f id = Some b) ∧
    (∀ b, store_works f → artifact_at f id = Some b → (art_get id f).1 = Ok b);
  law_delete id f : fewer_artifacts f (art_delete id f).2;
  law_exists id f : same_artifacts f (art_exists id f).2;
  law_list f : same_artifacts f (art_list f).2;
  law_store_meta id m f : same_artifacts f (art_store_meta id m f).2;
  law_get_meta id f : same_artifacts f (art_get_meta id f).2;
  law_src_store p q s f : (∀ id, artifact_at (src_store p q s f).2 id = artifact_at f id) ∧
    (store_works f → plain p → plain q → store_works (src_store p q s f).2) ∧
    ((src_store p q s f).1 = Ok tt → Forall Utf8.scalar s →
     source_at (src_store p q s f).2 p q = Some s);
  law_src_get p q f : same_artifacts f (src_get p q f).2 ∧
    ∀ s, store_works f → source_at f p q = Some s → (src_get p q f).1 = Ok (Some s);
  law_src_delete p q f : fewer_artifacts f (src_delete p q f).2;
  law_src_delete_package p f : fewer_artifacts f (src_delete_package p f).2;
  law_src_list f : same_artifacts f (src_list f).2;
}.

(** ** The store in files keeps the laws *)

Section calls.
Context {F : Type} `{FileSystemLaws F}.
Notation AM := (M F ArtifactError).
Implicit Types f : F.

(** Files are as they were or became what [W] allows, no directories but those of [D] are new,
    and the file system goes on working. *)
Definition evolve (W : list str → option bytes → Prop) (D : list str → Prop) f f' : Prop :=
  (∀ l, files f' !! l = files f !! l ∨ W l (files f' !! l)) ∧
  (∀ l, is_dir f' l → is_dir f l ∨ D l) ∧ (fs_works f → fs_works f').

#[export] Instance evolve_preorder W D : PreOrder (evolve W D).
Proof.
  split; [split; [auto|split; [auto|auto]]|]. intros f1 f2 f3 (W1 & D1 & K1) (W2 & D2 & K2).
  split; [|split; [|auto]].
  - intros l. destruct (W2 l) as [E|?]; [|by right]. destruct (W1 l) as [E1|?].
    + left. congruence.
    + right. by rewrite E.
  - intros l [Hl|?]%D2; [auto|by right].
Qed.

Definition calls {A} (m : AM A) (R : F → F → Prop) : Prop := ∀ f, R f (m f).2.

Lemma calls_bind {A B} (m : AM A) (k : A → AM B) R `{!PreOrder R} :
  calls m R → (∀ a, calls (k a) R) → calls (bind m k) R.
Proof.
  intros Hm Hk f. specialize (Hm f). unfold bind. destruct (m f) as [[a|e|p] f']; [|done..].
  etrans; [exact Hm|apply Hk].
Qed.

Lemma calls_ret {A} (a : A) R `{!PreOrder R} : calls (ret a) R.
Proof. intros f. simpl. done. Qed.
Lemma calls_throw {A} e R `{!PreOrder R} : calls (A := A) (throw e) R.
Proof. intros f. simpl. done. Qed.

Lemma calls_validate id R `{!PreOrder R} : calls (validate_id id) R.
Proof. unfold validate_id. destruct (valid_hash id); [by apply calls_ret|by apply calls_throw]. Qed.

Lemma calls_io {A} (c : F → (IoError + A) * F) R : (∀ f, R f (c f).2) → calls (FsStore.io c) R.
Proof. intros Hc f. specialize (Hc f). unfold FsStore.io. by destruct (c f) as [[] ?]. Qed.

Lemma calls_exists p W D : calls (FsStore.exists_ p) (evolve W D).
Proof.
  intros f. pose proof (exists_same p f). pose proof (exists_dirs p f).
  pose proof (exists_works p f). unfold FsStore.exists_. destruct (fs_exists p f) as [b f'].
  simpl in *. split; [left; congruence|]. split; [left; auto|]. tauto.
Qed.

Lemma calls_read p W D : calls (FsStore.io (fs_read p)) (evolve W D).
Proof.
  apply calls_io. intros f. destruct (read_done p f) as [E _]. split; [left; congruence|].
  split; [left; by eapply read_dirs|]. intros Hw. by destruct (read_works p f [] Hw).
Qed.

Lemma calls_write p b (W : list str → option bytes → Prop) D :
  (∀ v, W (PathBuf.locate cwd p) v) → calls (FsStore.io (fs_write p b)) (evolve W D).
Proof.
  intros HW. apply calls_io. intros f. destruct (write_done p b f) as [_ Hl]. split; [|split].
  - intros l. destruct (decide (l = PathBuf.locate cwd p)) as [->|?]; [right; apply HW|left; auto].
  - left. by eapply write_dirs.
  - apply write_works.
Qed.

Lemma calls_remove p (W : list str → option bytes → Prop) D :
  W (PathBuf.locate cwd p) None → calls (FsStore.io (fs_remove_file p)) (evolve W D).
Proof.
  intros HW. apply calls_io. intros f. pose proof (remove_done p f) as Hd. split; [|split].
  - intros l. destruct (fs_remove_file p f).1 as [e|[]]; [left; congruence|]. rewrite Hd.
    destruct (decide (l = PathBuf.locate cwd p)) as [->|?].
    + rewrite lookup_delete_eq. by right.
    + rewrite lookup_delete_ne by done. by left.
  - left. by eapply remove_dirs.
  - apply remove_works.
Qed.

Lemma calls_create p W (D : list str → Prop) : (∀ l, l `prefix_of` PathBuf.locate cwd p → D l) →
  calls (FsStore.io (fs_create_dir_all p)) (evolve W D).
Proof.
  intros HD. apply calls_io. intros f. destruct (create_same p f) as [E Hw].
  split; [left; congruence|]. split; [|done]. intros l [?|?]%create_dirs; auto.
Qed.

Lemma calls_read_dir p W D : calls (FsStore.io (fs_read_dir p)) (evolve W D).
Proof.
  apply calls_io. intros f. destruct (read_dir_same p f) as [E Hw]. split; [left; congruence|].
  split; [left; by eapply read_dir_dirs|done].
Qed.

Lemma calls_text p W D : calls (FsStore.read_to_string p) (evolve W D).
Proof.
  apply calls_bind; [apply _|apply calls_read|]. intros b.
  destruct (Utf8.decode b); [by apply calls_ret; apply _|by apply calls_throw; apply _].
Qed.
Lemma exists_cases p f : ∃ known f', FsStore.exists_ p f = (Ok known, f') ∧
  files f' = files f ∧ (∀ l, is_dir f' l → is_dir f l) ∧ (fs_works f → fs_works f') ∧
  (known = true → is_Some (files f !! locate cwd p) ∨ is_dir f (locate cwd p)) ∧
  (fs_works f → is_Some (files f !! locate cwd p) → known = true).
Proof.
  pose proof (exists_same p f). pose proof (exists_dirs p f). pose proof (exists_works p f).
  pose proof (exists_true p f). unfold FsStore.exists_. destruct (fs_exists p f) as [known f'].
  exists known, f'. simpl in *. tauto.
Qed.

End calls.

Section fs_laws.
Context {F : Type} `{FileSystemLaws F}.
Context (content_hash : bytes → str) (hash_valid : ∀ b, valid_hash (content_hash b) = true).
Context (meta_json : ArtifactMeta → IoError + str) (parse_meta : str → IoError + ArtifactMeta).
Context (base : str).

(** The directories of [FsArtifactStore::new] *)
Definition wasm_dir_of : str := join base (lit "wasm-modules").
Definition source_dir_of : str := join base (lit "sources").

#[local] Instance fs_artifact_store : ArtifactStore F := {|
  art_store := FsStore.store content_hash wasm_dir_of;
  art_get := FsStore.get wasm_dir_of;
  art_delete := FsStore.delete wasm_dir_of;
  art_exists := FsStore.exists_artifact wasm_dir_of;
  art_list := FsStore.list_artifacts parse_meta wasm_dir_of;
  art_store_meta := FsStore.store_meta meta_json wasm_dir_of;
  art_get_meta := FsStore.get_meta parse_meta wasm_dir_of;
|}.
#[local] Instance fs_source_store : SourceStore F := {|
  src_store := FsStore.store_source source_dir_of;
  src_get := FsStore.get_source source_dir_of;
  src_delete := FsStore.delete_source source_dir_of;
  src_delete_package := FsStore.delete_package_sources source_dir_of;
  src_list := FsStore.list_sources source_dir_of;
|}.

(** Where an artifact is kept *)
Definition loc (id : str) : list str := locate cwd (FsStore.wasm_path wasm_dir_of id).

Lemma hash_plain id e : valid_hash id = true → slash ∉ e → plain (id ++ e).
Proof.
  unfold valid_hash. rewrite andb_true_iff, bool_decide_eq_true, forallb_forall.
  intros [Hl Hh] He. unfold plain. split.
  - rewrite elem_of_app. intros [Hi|?]; [|done]. apply list_elem_of_In, Hh in Hi. done.
  - assert (64 ≤ length (id ++ e)) by (rewrite length_app; lia).
    split_and!; intros E; rewrite E in *; simpl in *; lia.
Qed.

Lemma loc_eq id : valid_hash id = true →
  loc id = locate cwd wasm_dir_of ++ [id ++ lit ".wasm"].
Proof.
  intros Hv. apply locate_plain, hash_plain; [done|]. apply (bool_decide_unpack _). done.
Qed.

Lemma loc_inj id id' : valid_hash id = true → valid_hash id' = true → loc id = loc id' → id = id'.
Proof.
  intros Hv Hv'. rewrite !loc_eq by done. intros [= E]%app_inv_head. by apply app_inv_tail in E.
Qed.

(** No path that ends in a suffix of another letter leads to an artifact. *)
Lemma loc_suffix id b s e c : slash ∉ e → 3 ≤ length e → last e = Some c → c ≠ 109%Z →
  valid_hash id = true → loc id ≠ locate cwd (join b (s ++ e)).
Proof.
  intros He Hl Hc Hm Hv. destruct (locate_suffix cwd b s e He Hl) as (pre & t & ->).
  rewrite loc_eq by done. intros [_ [= E]]%app_inj_tail. apply (f_equal last) in E.
  rewrite !last_app, Hc in E. change (last (lit ".wasm")) with (Some 109%Z) in E.
  simpl in E. congruence.
Qed.

Definition fs_artifact_at (f : F) (id : str) : option bytes :=
  if valid_hash id then files f !! loc id else None.
Definition fs_source_at (f : F) (p q : str) : option str :=
  files f !! locate cwd (FsStore.source_path source_dir_of p q) ≫= Utf8.decode.
Definition fs_store_works (f : F) : Prop :=
  fs_works f ∧ ∀ id, valid_hash id = true → ¬ is_dir f (loc id).

Definition never (_ : list str) (_ : option bytes) : Prop := False.
Definition gone (_ : list str) (v : option bytes) : Prop := v = None.
Definition nowhere (_ : list str) : Prop := False.
Definition elsewhere (l : list str) (_ : option bytes) : Prop :=
  ∀ id, valid_hash id = true → loc id ≠ l.

Lemma evolve_same W D f f' : evolve W D f f' → (∀ l v, W l v → elsewhere l v) →
  ∀ id, fs_artifact_at f' id = fs_artifact_at f id.
Proof.
  intros (Hf & _) HW id. unfold fs_artifact_at. destruct (valid_hash id) eqn:Hv; [|done].
  destruct (Hf (loc id)) as [?|Hw]; [done|]. by destruct (HW _ _ Hw id Hv).
Qed.

Lemma evolve_works W D f f' : evolve W D f f' →
  (∀ l, D l → ∀ id, valid_hash id = true → loc id ≠ l) → fs_store_works f → fs_store_works f'.
Proof.
  intros (_ & Hd & Hw) HD [Hk Hn]. split; [auto|]. intros id Hv [Hi|Hi]%Hd; [by apply (Hn id)|].
  by destruct (HD _ Hi id Hv).
Qed.

Lemma evolve_quiet W f f' : evolve W nowhere f f' → (∀ l v, W l v → elsewhere l v) →
  (∀ id, fs_artifact_at f' id = fs_artifact_at f id) ∧ (fs_store_works f → fs_store_works f').
Proof.
  intros He HW. split; [by eapply evolve_same|]. eapply evolve_works; [exact He|]. by intros l [].
Qed.

Lemma evolve_fewer D f f' : evolve gone D f f' →
  ∀ id, fs_artifact_at f' id = fs_artifact_at f id ∨ fs_artifact_at f' id = None.
Proof.
  intros (Hf & _) id. unfold fs_artifact_at. destruct (valid_hash id); [|by right]. apply Hf.
Qed.

Lemma get_meta_calls id W D : calls (FsStore.get_meta parse_meta wasm_dir_of id) (evolve W D).
Proof.
  apply calls_bind; [apply _|apply calls_exists|]. intros [].
  - apply calls_bind; [apply _|apply calls_text|]. intros json.
    destruct (parse_meta json); [by apply calls_throw; apply _|by apply calls_ret; apply _].
  - by apply calls_ret; apply _.
Qed.

Lemma list_loop_calls entries acc W D :
  calls (FsStore.list_loop parse_meta wasm_dir_of entries acc) (evolve W D).
Proof.
  revert acc. induction entries as [|[e|e] entries IH]; intros acc; simpl;
    [by apply calls_ret; apply _|by apply calls_throw; apply _|].
  destruct (split_name (de_name e)) as [stem ext]. destruct (_ && _); [|apply IH].
  destruct (de_len e); [by apply calls_throw; apply _|].
  apply calls_bind; [apply _| |intros; apply IH]. intros f. unfold FsStore.meta_or_none.
  pose proof (get_meta_calls stem W D f) as Hg. by destruct (FsStore.get_meta _ _ _ f) as [[] ?].
Qed.

Lemma functions_loop_calls p entries acc W D :
  calls (FsStore.functions_loop p entries acc) (evolve W D).
Proof.
  revert acc. induction entries as [|[e|e] entries IH]; intros acc; simpl;
    [by apply calls_ret; apply _|by apply calls_throw; apply _|apply IH].
Qed.

Lemma packages_loop_calls entries acc W D :
  calls (FsStore.packages_loop source_dir_of entries acc) (evolve W D).
Proof.
  revert acc. induction entries as [|[e|e] entries IH]; intros acc; simpl;
    [by apply calls_ret; apply _|by apply calls_throw; apply _|].
  destruct (de_type e) as [[]|]; try apply IH.
  apply calls_bind; [apply _|apply calls_read_dir|]. intros fns.
  apply calls_bind; [apply _|apply functions_loop_calls|]. intros; apply IH.
Qed.

Lemma delete_loop_calls dir entries count D :
  calls (FsStore.delete_loop dir entries count) (evolve gone D).
Proof.
  revert count. induction entries as [|[e|e] entries IH]; intros count; simpl;
    [by apply calls_ret; apply _|by apply calls_throw; apply _|].
  destruct (de_type e) as [[]|]; try apply IH.
  apply calls_bind; [apply _|by apply calls_remove|]. intros; apply IH.
Qed.

Lemma tmp_elsewhere id v : valid_hash id = true →
  elsewhere (locate cwd (FsStore.tmp_path wasm_dir_of id)) v.
Proof. intros Hv id' Hv'. apply (loc_suffix _ _ _ _ 112%Z); [|simpl; lia|done..].
  apply (bool_decide_unpack _). done.
Qed.

Lemma meta_elsewhere id v : elsewhere (locate cwd (FsStore.meta_path wasm_dir_of id)) v.
Proof. intros id' Hv'. apply (loc_suffix _ _ _ _ 110%Z); [|simpl; lia|done..].
  apply (bool_decide_unpack _). done.
Qed.

Lemma source_elsewhere p q v : elsewhere (locate cwd (FsStore.source_path source_dir_of p q)) v.
Proof. intros id' Hv'. apply (loc_suffix _ _ _ _ 115%Z); [|simpl; lia|done..].
  apply (bool_decide_unpack _). done.
Qed.

(** The write to a temporary file and its renaming. *)
Lemma store_new b f : let id := content_hash b in
  let r := bind (FsStore.io (fs_write (FsStore.tmp_path wasm_dir_of id) b)) (λ _,
    bind (FsStore.io (fs_rename (FsStore.tmp_path wasm_dir_of id)
                        (FsStore.wasm_path wasm_dir_of id))) (λ _, ret id)) f in
  (∀ id', fs_artifact_at r.2 id' = fs_artifact_at f id' ∨
          id' = id ∧ fs_artifact_at r.2 id' = Some b) ∧
  (fs_store_works f → fs_store_works r.2) ∧
  ∀ id', r.1 = Ok id' → id' = id ∧ fs_artifact_at r.2 id = Some b.
Proof using hash_valid.
  intros id r. pose proof (hash_valid b) as Hv. fold id in Hv.
  set (tmp := FsStore.tmp_path wasm_dir_of id) in r.
  set (path := FsStore.wasm_path wasm_dir_of id) in r.
  pose proof (calls_write tmp b elsewhere nowhere (λ v, tmp_elsewhere id v Hv) f) as Hw.
  destruct (write_done tmp b f) as [Hwd _]. unfold r, FsStore.io, bind.
  unfold FsStore.io in Hw.
  destruct (fs_write tmp b f) as [[e|[]] f1] eqn:Ew; simpl in Hw, Hwd |- *.
  { destruct (evolve_quiet _ _ _ Hw) as [Ha Hk]; [done|]. split; [auto|]. split; [auto|]. by intros. }
  specialize (Hwd eq_refl). destruct (evolve_quiet _ _ _ Hw) as [Ha Hk]; [done|].
  assert (is_Some (files f1 !! locate cwd tmp)) as Htmp by (rewrite Hwd, lookup_insert_eq; eauto).
  pose proof (rename_done tmp path f1) as Hr. pose proof (rename_dirs tmp path f1) as Hrd.
  pose proof (rename_works tmp path f1) as Hrw.
  destruct (fs_rename tmp path f1) as [[e|[]] f2] eqn:Er; simpl in Hr, Hrd, Hrw |- *.
  - assert (evolve never nowhere f1 f2) as He.
    { split; [left; congruence|]. split; [left; by apply Hrd|done]. }
    destruct (evolve_quiet _ _ _ He) as [Ha2 Hk2]; [by intros ? ? []|].
    split; [left; by rewrite Ha2, Ha|]. split; [auto|]. by intros.
  - destruct Hr as (b' & Hb & Hf2). rewrite Hwd, lookup_insert_eq in Hb. injection Hb as <-.
    assert (fs_artifact_at f2 id = Some b) as Hid.
    { unfold fs_artifact_at. rewrite Hv, Hf2. by rewrite lookup_insert_eq. }
    split; [|split; [|by intros id' [= <-]]].
    + intros id'. destruct (decide (id' = id)) as [->|Hne]; [by right|left]. rewrite <- Ha.
      unfold fs_artifact_at. destruct (valid_hash id') eqn:Hv'; [|done]. rewrite Hf2.
      rewrite lookup_insert_ne by (intros E; by apply Hne; symmetry; apply loc_inj).
      rewrite lookup_delete_ne; [done|]. intros E. by apply (tmp_elsewhere id None Hv id').
    + intros [Hk1 Hn]%Hk. split; [auto|]. intros id' Hv' Hd%Hrd; [|done]. by apply (Hn id').
Qed.

Lemma store_law b f : let r := FsStore.store content_hash wasm_dir_of b f in
  (∀ id, fs_artifact_at r.2 id = fs_artifact_at f id ∨
         id = content_hash b ∧ fs_artifact_at r.2 id = Some b) ∧
  (fs_store_works f → fs_store_works r.2 ∧ ∀ id, r.1 = Ok id →
     id = content_hash b ∧ is_Some (fs_artifact_at r.2 id)).
Proof using hash_valid.
  simpl. unfold FsStore.store.
  destruct (exists_cases (FsStore.wasm_path wasm_dir_of (content_hash b)) f)
    as (known & f1 & E & Hfs & Hd & Hw & Hk & _).
  rewrite (bind_ok _ _ _ _ _ E).
  assert (∀ id, fs_artifact_at f1 id = fs_artifact_at f id) as Ha
    by (intros id; unfold fs_artifact_at; by rewrite Hfs).
  assert (fs_store_works f → fs_store_works f1) as Hk1
    by (intros [? Hn]; split; [auto|]; intros id Hv Hi%Hd; by apply (Hn id)).
  destruct known.
  - split; [left; apply Ha|]. intros Hsw. split; [auto|]. intros id [= <-]. split; [done|].
    simpl. rewrite Ha. unfold fs_artifact_at. rewrite hash_valid.
    destruct Hk as [?|Hi]; [done..|]. by destruct (proj2 Hsw _ (hash_valid b)).
  - destruct (store_new b f1) as (H1 & H2 & H3). split.
    + intros id. rewrite <- Ha. apply H1.
    + intros Hsw. split; [auto|]. intros id Hr. destruct (H3 id Hr) as [-> ->]. eauto.
Qed.

Lemma get_law id f : let r := FsStore.get wasm_dir_of id f in
  ((∀ i, fs_artifact_at r.2 i = fs_artifact_at f i) ∧ (fs_store_works f → fs_store_works r.2)) ∧
  (∀ b, r.1 = Ok b → fs_artifact_at f id = Some b) ∧
  (∀ b, fs_store_works f → fs_artifact_at f id = Some b → r.1 = Ok b).
Proof.
  simpl. split.
  { apply (evolve_quiet never); [|by intros ? ? []].
    unfold FsStore.get. apply calls_bind; [apply _|by apply calls_validate; apply _|]. intros _.
    apply calls_bind; [apply _|apply calls_exists|].
    intros []; [apply calls_read|by apply calls_throw; apply _]. }
  unfold FsStore.get, validate_id, fs_artifact_at. destruct (valid_hash id); [|done].
  rewrite bind_ret. destruct (exists_cases (FsStore.wasm_path wasm_dir_of id) f)
    as (known & f1 & E & Hfs & Hd & Hw & Hk & Hk2).
  rewrite (bind_ok _ _ _ _ _ E). split.
  - intros b. destruct known; [|done]. destruct (read_done (FsStore.wasm_path wasm_dir_of id) f1)
      as [_ Hr]. unfold FsStore.io. destruct (fs_read _ f1) as [[e|b'] f2]; [done|]. simpl in *.
    intros [= <-]. rewrite <- Hfs. by apply Hr.
  - intros b [Hwf _] Hb. rewrite Hk2 by (unfold loc in Hb; rewrite ?Hb; eauto).
    destruct (read_works (FsStore.wasm_path wasm_dir_of id) f1 b) as [_ Hr]; [auto|].
    unfold FsStore.io. destruct (fs_read _ f1) as [o f2]. simpl in *.
    rewrite Hfs in Hr. specialize (Hr Hb). by subst o.
Qed.

(** Directories made for a source under plain names are none of the artifacts. *)
Lemma source_dirs p q d l : plain p → FsStore.parent (FsStore.source_path source_dir_of p q) = Some d →
  plain q → l `prefix_of` locate cwd d → ∀ id, valid_hash id = true → loc id ≠ l.
Proof.
  clear hash_valid parse_meta meta_json content_hash.
  intros Hp Hd Hq Hl id Hv E. subst l. pose proof Hp as (Hps & Hp0 & _).
  assert (d = join source_dir_of p) as ->.
  { unfold FsStore.source_path in Hd. set (b := join source_dir_of p) in *.
    assert (∃ b' c, b = b' ++ [c] ∧ c ≠ slash) as (b' & c & Hb & Hc).
    { destruct p as [|c p _] using rev_ind; [done|]. assert (c ≠ slash) by set_solver.
      unfold b, join. rewrite bool_decide_eq_false_2.
      2:{ destruct p; simpl; [intros [=]; congruence|]. intros [= ->]. set_solver. }
      destruct (last source_dir_of) as [x|]; [destruct (x =? slash)%Z|];
        rewrite ?app_assoc; eauto. }
    unfold join in Hd. rewrite bool_decide_eq_false_2 in Hd.
    2:{ destruct Hq as (Hqs & Hq0 & _). destruct q as [|x q]; [done|]. simpl. intros [= ->].
        set_solver. }
    rewrite Hb, last_snoc, (proj2 (Z.eqb_neq c slash)) in Hd by done.
    unfold FsStore.parent in Hd. change ([slash] ++ ?t) with (slash :: t) in Hd.
    rewrite rsplit_once_app in Hd.
    - rewrite Hb. simpl in Hd. destruct (b' ++ [c]) eqn:E; [by destruct b'|]. by injection Hd as <-.
    - rewrite elem_of_app. intros [?|Hs]; [by destruct Hq|].
      revert Hs. change (slash ∉ lit ".ts"). apply (bool_decide_unpack _). done. }
  rewrite loc_eq in Hl by done. unfold source_dir_of, wasm_dir_of in Hl.
  rewrite (locate_plain cwd (join base (lit "sources")) p Hp) in Hl.
  rewrite !locate_plain in Hl by (split_and!; [by apply (bool_decide_unpack _)|done..]).
  rewrite <- !app_assoc in Hl. apply prefix_app_inv in Hl. apply prefix_cons_inv_1 in Hl. done.
Qed.

Lemma store_source_law p q s f : let r := FsStore.store_source source_dir_of p q s f in
  (∀ id, fs_artifact_at r.2 id = fs_artifact_at f id) ∧
  (fs_store_works f → plain p → plain q → fs_store_works r.2) ∧
  (r.1 = Ok tt → Forall Utf8.scalar s → fs_source_at r.2 p q = Some s).
Proof.
  intros r. set (path := FsStore.source_path source_dir_of p q).
  set (D l := ∃ d, FsStore.parent path = Some d ∧ l `prefix_of` locate cwd d).
  assert (evolve elsewhere D f r.2) as He.
  { unfold r, FsStore.store_source. fold path. apply calls_bind; [apply _| |].
    - destruct (FsStore.parent path) as [d|] eqn:Ed; [|by apply calls_ret; apply _].
      apply calls_create. intros l Hl. exists d. done.
    - intros _. apply calls_write. apply source_elsewhere. }
  split; [by eapply evolve_same|]. split.
  - intros Hw Hp Hq. eapply evolve_works; [exact He| |done]. intros l (d & Hd & Hl).
    exact (source_dirs p q d l Hp Hd Hq Hl).
  - unfold r, FsStore.store_source. fold path. intros Hr Hs.
    unfold bind in *. match type of Hr with context [match ?c f with _ => _ end] =>
      destruct (c f) as [[[]|e|m] f1]; [|done..] end.
    destruct (write_done path (Text.utf8 s) f1) as [Hw _]. unfold FsStore.io in *.
    destruct (fs_write path (Text.utf8 s) f1) as [[e|[]] f2]; [done|]. simpl in *.
    unfold fs_source_at. fold path. rewrite (Hw eq_refl), lookup_insert_eq. by apply decode_utf8.
Qed.

Lemma get_source_law p q f : let r := FsStore.get_source source_dir_of p q f in
  ((∀ i, fs_artifact_at r.2 i = fs_artifact_at f i) ∧ (fs_store_works f → fs_store_works r.2)) ∧
  ∀ s, fs_store_works f → fs_source_at f p q = Some s → r.1 = Ok (Some s).
Proof.
  intros r. unfold r. set (path := FsStore.source_path source_dir_of p q). split.
  { apply (evolve_quiet never); [|by intros ? ? []].
    unfold FsStore.get_source. apply calls_bind; [apply _|apply calls_exists|].
    intros []; [|by apply calls_ret; apply _].
    apply calls_bind; [apply _|apply calls_text|]. intros; by apply calls_ret; apply _. }
  intros s [Hw _]. unfold fs_source_at, FsStore.get_source. fold path.
  destruct (files f !! locate cwd path) as [b|] eqn:Eb; [|done]. simpl. intros Hs.
  destruct (exists_cases path f) as (known & f1 & E & Hfs & Hd & Hw1 & Hk & Hk2).
  rewrite (bind_ok _ _ _ _ _ E). rewrite Hk2 by (rewrite ?Eb; eauto).
  destruct (read_works path f1 b) as [_ Hr]; [auto|]. rewrite Hfs in Hr. specialize (Hr Eb).
  unfold FsStore.read_to_string, FsStore.io, bind.
  destruct (fs_read path f1) as [o f2]. simpl in Hr. subst o. by rewrite Hs.
Qed.

#[local] Instance fs_artifact_laws : ArtifactLaws F content_hash.
Proof using All.
  refine {| artifact_at := fs_artifact_at; source_at := fs_source_at;
            store_works := fs_store_works |}; simpl.
  - intros b f. apply store_law.
  - intros id f. apply get_law.
  - intros id f. apply (evolve_fewer nowhere). unfold FsStore.delete.
    apply calls_bind; [apply _|by apply calls_validate; apply _|]. intros _.
    apply calls_bind; [apply _|apply calls_exists|]. intros []; [|by apply calls_ret; apply _].
    apply calls_bind; [apply _|by apply calls_remove|]. intros; by apply calls_ret; apply _.
  - intros id f. apply (evolve_quiet never); [|by intros ? ? []].
    unfold FsStore.exists_artifact.
    apply calls_bind; [apply _|by apply calls_validate; apply _|]. intros _. apply calls_exists.
  - intros f. apply (evolve_quiet never); [|by intros ? ? []].
    unfold FsStore.list_artifacts.
    apply calls_bind; [apply _|apply calls_read_dir|]. intros entries.
    apply calls_bind; [apply _|apply list_loop_calls|]. intros; by apply calls_ret; apply _.
  - intros id m f. apply (evolve_quiet elsewhere); [|done]. unfold FsStore.store_meta.
    destruct (meta_json m); [by apply calls_throw; apply _|]. apply calls_write.
    apply meta_elsewhere.
  - intros id f. apply (evolve_quiet never); [|by intros ? ? []]. apply get_meta_calls.
  - intros p q s f. apply store_source_law.
  - intros p q f. apply get_source_law.
  - intros p q f. apply (evolve_fewer nowhere). unfold FsStore.delete_source.
    apply calls_bind; [apply _|apply calls_exists|]. intros []; [|by apply calls_ret; apply _].
    apply calls_bind; [apply _|by apply calls_remove|]. intros; by apply calls_ret; apply _.
  - intros p f. apply (evolve_fewer nowhere). unfold FsStore.delete_package_sources.
    apply calls_bind; [apply _|apply calls_exists|]. intros []; [|by apply calls_ret; apply _].
    apply calls_bind; [apply _|apply calls_read_dir|]. intros entries.
    apply calls_bind; [apply _|apply delete_loop_calls|]. intros n.
    apply calls_bind; [apply _| |intros; by apply calls_ret; apply _].
    intros f'. destruct (remove_dir_same (join source_dir_of p) f') as [E Hw].
    split; [left; simpl; by rewrite E|]. split; [left; by eapply remove_dir_dirs|done].
  - intros f. apply (evolve_quiet never); [|by intros ? ? []].
    unfold FsStore.list_sources.
    apply calls_bind; [apply _|apply calls_read_dir|]. intros entries.
    apply calls_bind; [apply _|apply packages_loop_calls|]. intros; by apply calls_ret; apply _.
Defined.
End fs_laws.

(** ** The store in memory keeps them too *)

Section mem_laws.
Context (content_hash : bytes → str) (hash_valid : ∀ b, valid_hash (content_hash b) = true).

#[local] Instance mem_artifact_store : ArtifactStore MemStore := {|
  art_store := MemArtifacts.store content_hash;
  art_get := MemArtifacts.get;
  art_delete := MemArtifacts.delete_artifact;
  art_exists := MemArtifacts.exists_artifact;
  art_list := MemArtifacts.list_artifacts;
  art_store_meta := MemArtifacts.store_meta;
  art_get_meta := MemArtifacts.get_meta;
|}.
#[local] Instance mem_source_store : SourceStore MemStore := {|
  src_store := MemArtifacts.store_source;
  src_get := MemArtifacts.get_source;
  src_delete := MemArtifacts.delete_source;
  src_delete_package := MemArtifacts.delete_package_sources;
  src_list := MemArtifacts.list_sources;
|}.

Definition mem_artifact_at (s : MemStore) (id : str) : option bytes :=
  if valid_hash id then ms_wasm s !! id else None.

#[local] Instance mem_artifact_laws : ArtifactLaws MemStore content_hash.
Proof using All.
  refine {| artifact_at := mem_artifact_at; store_works := λ _, True;
            source_at s p q := ms_sources s !! MemArtifacts.source_key p q |};
    simpl; unfold mem_artifact_at; try done.
  - intros b s. split.
    + intros id. simpl. destruct (decide (id = content_hash b)) as [->|Hne].
      * right. by rewrite hash_valid, lookup_insert_eq.
      * left. by rewrite lookup_insert_ne.
    + intros _. split; [done|]. intros id [= <-]. simpl. rewrite hash_valid, lookup_insert_eq. eauto.
  - intros id s. unfold MemArtifacts.get, validate_id, bind, gets.
    destruct (valid_hash id); simpl; [|done]. by destruct (ms_wasm s !! id); simpl; naive_solver.
  - intros id s id'. unfold MemArtifacts.delete_artifact, validate_id, bind.
    destruct (valid_hash id); simpl; [|by left]. destruct (decide (id = id')) as [->|].
    + rewrite lookup_delete_eq. right. by destruct (valid_hash id').
    + left. by rewrite lookup_delete_ne.
  - intros id s. unfold MemArtifacts.exists_artifact, validate_id, bind.
    by destruct (valid_hash id).
  - intros p q s f. split; [done|]. split; [done|]. intros _ _. simpl. by rewrite lookup_insert_eq.
  - intros p q f. split; [done|]. intros s _ Hs. simpl. by rewrite Hs.
  - intros p q f id. by left.
  - intros p f id. by left.
Defined.
End mem_laws.

(** ** What is served *)

(** The calls of the two traits. *)
Inductive StoreCall : Type :=
| CStore (b : bytes) | CGet (id : str) | CDelete (id : str) | CExists (id : str) | CList
| CStoreMeta (id : str) (m : ArtifactMeta) | CGetMeta (id : str)
| CSrcStore (p q s : str) | CSrcGet (p q : str) | CSrcDelete (p q : str)
| CSrcDeletePackage (p : str) | CSrcList.

Section served.
Context {F : Type} `{!ArtifactStore F} `{!SourceStore F} (content_hash : bytes → str)
  `{!ArtifactLaws F content_hash}.

Definition perform (f : F) (c : StoreCall) : F :=
  match c with
  | CStore b => (art_store b f).2 | CGet id => (art_get id f).2
  | CDelete id => (art_delete id f).2 | CExists id => (art_exists id f).2
  | CList => (art_list f).2 | CStoreMeta id m => (art_store_meta id m f).2
  | CGetMeta id => (art_get_meta id f).2 | CSrcStore p q s => (src_store p q s f).2
  | CSrcGet p q => (src_get p q f).2 | CSrcDelete p q => (src_delete p q f).2
  | CSrcDeletePackage p => (src_delete_package p f).2 | CSrcList => (src_list f).2
  end.

(** A call leaves an artifact as it was, removes it, or stores one under its hash. *)
Lemma perform_artifact f c id :
  artifact_at (perform f c) id = artifact_at f id ∨ artifact_at (perform f c) id = None ∨
  ∃ b, artifact_at (perform f c) id = Some b ∧ content_hash b = id.
Proof.
  destruct c; simpl.
  - destruct (law_store b f) as [Hs _]. destruct (Hs id) as [?|[-> ?]]; eauto.
  - left. apply law_get.
  - destruct (law_delete id0 f id); auto.
  - left. apply law_exists.
  - left. apply law_list.
  - left. apply law_store_meta.
  - left. apply law_get_meta.
  - left. apply law_src_store.
  - left. apply law_src_get.
  - destruct (law_src_delete p q f id); auto.
  - destruct (law_src_delete_package p f id); auto.
  - left. apply law_src_list.
Qed.

(** C26. What is served under a hash has this hash: from an empty store, after any sequence of calls
    of both traits with whatever identifiers, package and function names, an artifact that is
    returned for an identifier is one whose hash is the identifier. *)
Theorem artifacts_hashed f cs id b : (∀ id, artifact_at f id = None) →
  (art_get id (foldl perform f cs)).1 = Ok b → content_hash b = id.
Proof.
  intros Hf Hget. apply law_get in Hget.
  assert (∀ id b, artifact_at (foldl perform f cs) id = Some b → content_hash b = id) as Hinv;
    [|by apply Hinv].
  clear Hget id b. induction cs as [|c cs IH] using rev_ind; intros id b.
  { simpl. by rewrite Hf. }
  rewrite foldl_app. simpl. destruct (perform_artifact (foldl perform f cs) c id)
    as [->|[->|(b' & -> & <-)]]; [apply IH|done|by intros [= <-]].
Qed.
End served.

(** ** A file system in memory *)

Module DemoFs.

Record mem_fs := { fs_files : gmap (list str) bytes; fs_dirs : gset (list str) }.

Definition at_ (p : str) : list str := PathBuf.locate [] p.
Definition prefixes (l : list str) : gset (list str) :=
  list_to_set ((λ n, take n l) <$> seq 0 (S (length l))).
Definition set_files (x : gmap (list str) bytes) (f : mem_fs) : mem_fs :=
  {| fs_files := x; fs_dirs := fs_dirs f |}.
Definition entry (p : list str) (kv : list str * bytes) : option (str + DirEntry) :=
  if decide (removelast kv.1 = p)
  then (λ n, inr {| de_name := n; de_type := Some AFile; de_len := inr (Z.of_nat (length kv.2)) |})
       <$> last kv.1
  else None.

#[export] Instance mem_file_system : FileSystem mem_fs := {|
  fs_exists p f := (bool_decide (is_Some (fs_files f !! at_ p) ∨ at_ p ∈ fs_dirs f), f);
  fs_read p f := (match fs_files f !! at_ p with
                  | Some b => inr b | None => inl (lit "no file") end, f);
  fs_write p b f := (inr tt, set_files (<[at_ p := b]> (fs_files f)) f);
  fs_rename p q f :=
    match fs_files f !! at_ p with
    | Some b => (inr tt, set_files (<[at_ q := b]> (delete (at_ p) (fs_files f))) f)
    | None => (inl (lit "no file"), f)
    end;
  fs_remove_file p f := (inr tt, set_files (delete (at_ p) (fs_files f)) f);
  fs_create_dir_all p f :=
    (inr tt, {| fs_files := fs_files f; fs_dirs := prefixes (at_ p) ∪ fs_dirs f |});
  fs_remove_dir p f :=
    (inr tt, {| fs_files := fs_files f; fs_dirs := fs_dirs f ∖ {[at_ p]} |});
  fs_read_dir p f := (inr (omap (entry (at_ p)) (map_to_list (fs_files f))), f);
|}.

#[export] Instance mem_file_system_laws : FileSystemLaws mem_fs.
Proof.
  refine {| cwd := []; files := fs_files; is_dir f l := l ∈ fs_dirs f; fs_works _ := True |};
    simpl; fold at_; try done.
  - intros p f. by rewrite bool_decide_eq_true.
  - intros p q f l _. by destruct (fs_files f !! at_ p).
  - intros p f l. rewrite elem_of_union. intros [Hl|?]; [right|by left].
    unfold prefixes in Hl. rewrite elem_of_list_to_set, list_elem_of_fmap in Hl.
    destruct Hl as (n & -> & _). apply prefix_take.
  - intros p f _. split; [done|]. intros ?. rewrite bool_decide_eq_true. by left.
  - intros p f. split; [done|]. intros b. fold (at_ p). destruct (fs_files f !! at_ p); congruence.
  - intros p f b _. split; [done|]. fold (at_ p). by intros ->.
  - intros p b f. split; [done|]. intros l Hl. by rewrite lookup_insert_ne.
  - intros p q f. fold (at_ p) (at_ q). destruct (fs_files f !! at_ p) as [b|]; simpl; [|done].
    by exists b.
  - intros p f l. set_solver.
Defined.

(** A hash for the examples: 63 zeros and the digit of the length modulo ten. *)
Definition hash (b : bytes) : str :=
  List.repeat 48%Z 63 ++ [(48 + Z.of_nat (length b) mod 10)%Z].

Lemma hash_is_valid b : valid_hash (hash b) = true.
Proof.
  unfold valid_hash, hash. rewrite length_app, repeat_length, bool_decide_eq_true_2 by done.
  rewrite forallb_app. simpl. unfold is_ascii_hexdigit.
  pose proof (Z.mod_pos_bound (Z.of_nat (length b)) 10).
  rewrite !(proj2 (Z.leb_le _ _)) by lia. done.
Qed.

Definition no_json (_ : ArtifactMeta) : str + str := inr (lit "{}").
Definition no_meta (_ : str) : str + ArtifactMeta := inl (lit "none").
Definition data : str := lit "/data".
#[export] Instance demo_artifacts : ArtifactStore mem_fs := fs_artifact_store hash no_json no_meta data.
#[export] Instance demo_sources : SourceStore mem_fs := fs_source_store data.
#[export] Instance demo_laws : ArtifactLaws mem_fs hash :=
  fs_artifact_laws hash hash_is_valid no_json no_meta data.

Definition disk : mem_fs := {| fs_files := ∅; fs_dirs := ∅ |}.
Definition module_ : bytes := Text.utf8 (lit "wasm").

Lemma artifacts_hashed_witness :
  (art_get (hash module_) (foldl perform disk
     [CStore module_; CSrcStore (lit "../wasm-modules") (lit "f") (lit "src")])).1 = Ok module_ ∧
  hash module_ = hash module_.
Proof.
  split; [reflexivity|].
  apply (artifacts_hashed hash disk
    [CStore module_; CSrcStore (lit "../wasm-modules") (lit "f") (lit "src")]).
  - intros id. unfold artifact_at. simpl. unfold fs_artifact_at. by destruct (valid_hash id).
  - reflexivity.
Defined.

(** Package names are not checked: a source is written outside the directory of the sources. *)
Example source_escapes :
  fs_files (src_store (lit "../../etc") (lit "cron") (lit "x") disk).2
    = {[ [lit "etc"; lit "cron.ts"] := Text.utf8 (lit "x") ]} ∧
  fs_files (src_store (lit "/etc") (lit "cron") (lit "x") disk).2
    = {[ [lit "etc"; lit "cron.ts"] := Text.utf8 (lit "x") ]}.
Proof. split; reflexivity. Qed.

(** The directory made for a source can take the place of an artifact: the artifact then counts
    as stored and cannot be read. *)
Example artifact_blocked :
  let f := (src_store (lit "../wasm-modules/" ++ hash module_ ++ lit ".wasm") (lit "f")
              (lit "x") disk).2 in
  (art_store module_ f).1 = Ok (hash module_) ∧
  (art_get (hash module_) (art_store module_ f).2).1 = Err (ArtIo (lit "no file")).
Proof. split; reflexivity. Qed.
End DemoFs.
