(* ===== verification/Scripts.v ===== *)
(** * Scripts

    [control-plane/oprc-pm/src/services/compiler.rs], [services/script.rs] and
    [api/handlers/script.rs]: the client of the compiler service with its retries, building a
    script into a stored module, deploying one as a package with a WASM function, and the HTTP
    handlers. The compiler service, the artifact and source stores (any that keep
    [ArtifactLaws]), the storages and the clusters are as in the files they come from. *)

From stdpp Require Import base tactics list list_numbers numbers option gmap strings sorting.
From Stdlib Require Import ZArith Lia.
From S2P Require Import Prelude BTree Float64 Routing Json Metadata Placement Quorum PmModel.
From S2P Require Import PmUnits PmCrm PmDeploy PmPackage PmApi ClassRuntime Artifacts.

Set Default Proof Using "Type".
Open Scope prog_scope.

(** ** The compiler *)

Inductive CompilerError : Type :=
| CompilationFailed (errors : list str)
| CompilerUnavailable (msg : str)
| RequestFailed (msg : str)
| UnexpectedResponse (msg : str).

Record TestLogEntry := { tl_level : str; tl_message : str }.

Record TestScriptResponse := {
  ts_success : bool;
  ts_result : option Value;
  ts_final_state : option Value;
  ts_logs : list TestLogEntry;
  ts_error : option str;
  ts_duration_ms : f64;
}.

Inductive CompilerRequest : Type :=
| PostCompile (source language : str)
| PostTest (source method_name : str) (payload initial_state : option Value)
| GetHealth
| Pause (millis : Z).

(** An answer: the status, the content type if it is text, and what reading the body as bytes,
    text, a [CompileErrorResponse] and a [TestScriptResponse] gives. *)
Record HttpResponse := {
  hr_status : Z;
  hr_content_type : option str;
  hr_bytes : str + bytes;
  hr_text : str + str;
  hr_errors : str + list str;
  hr_test : str + TestScriptResponse;
}.

(** The service answers as it likes, after all requests so far, or cannot be reached. The texts
    of a status and of a list of texts are those of [Display] and [Debug]. *)
Record CompilerWorld := {
  cw_send : list CompilerRequest → str + HttpResponse;
  cw_status_text : Z → str;
  cw_debug : list str → str;
}.

Record CompilerConfig := { cfg_max_retries : nat }.

Module Compiler.
Section client.
Context (cw : CompilerWorld) (config : CompilerConfig).

Notation CM := (M (list CompilerRequest) CompilerError).

Definition send (q : CompilerRequest) (unreachable : string) : CM HttpResponse := λ log,
  match cw_send cw (log ++ [q]) with
  | inl e => (Err (CompilerUnavailable (lit unreachable ++ lit ": " ++ e)), log ++ [q])
  | inr r => (Ok r, log ++ [q])
  end.

Definition is_success (status : Z) : bool := (200 <=? status)%Z && (status <=? 299)%Z.
Definition is_server_error (status : Z) : bool := (500 <=? status)%Z && (status <=? 599)%Z.
(** [str::contains] *)
Definition contains (sub s : str) : bool :=
  existsb (λ n, Text.starts_with sub (drop n s)) (seq 0 (S (length s))).
Definition text_or_empty (r : HttpResponse) : str := match hr_text r with inr t => t | inl _ => [] end.
Definition returned (what : string) (r : HttpResponse) : str :=
  lit what ++ lit " returned " ++ cw_status_text cw (hr_status r) ++ lit ": " ++ text_or_empty r.

Definition do_compile (source language : str) : CM bytes :=
  let! r := send (PostCompile source language) "Failed to connect to compiler" in
  if is_success (hr_status r) then
    let content_type := default [] (hr_content_type r) in
    if contains (lit "application/wasm") content_type then
      match hr_bytes r with
      | inr b => ret b
      | inl e => throw (RequestFailed (lit "Failed to read response body: " ++ e))
      end
    else
      match hr_text r with
      | inr t => throw (UnexpectedResponse
                   (lit "Expected application/wasm, got " ++ content_type ++ lit ": " ++ t))
      | inl e => throw (RequestFailed (lit "Failed to read response: " ++ e))
      end
  else if (hr_status r =? 400)%Z then
    match hr_errors r with
    | inr errors => throw (CompilationFailed errors)
    | inl e => throw (UnexpectedResponse (lit "Failed to parse error response: " ++ e))
    end
  else if is_server_error (hr_status r) then throw (CompilerUnavailable (returned "Compiler" r))
  else throw (RequestFailed (returned "Compiler" r)).

Definition pause (millis : Z) : CM unit := λ log, (Ok tt, log ++ [Pause millis]).

(** The loop over the attempts, [further] after the present one. *)
Fixpoint attempts (source language : str) (attempt further : nat) : CM bytes :=
  (match attempt with O => ret tt | _ => pause (500 * Z.of_nat attempt) end) ;;;
  let! r := tried (do_compile source language) in
  match r with
  | inr b => ret b
  | inl (CompilerUnavailable msg) =>
      match further with
      | O => throw (CompilerUnavailable msg)
      | S further => attempts source language (S attempt) further
      end
  | inl e => throw e
  end.
Definition compile (source language : str) : CM bytes :=
  attempts source language 0 (cfg_max_retries config).

Definition health : CM unit :=
  let! r := send GetHealth "Compiler health check failed" in
  if is_success (hr_status r) then ret tt
  else throw (CompilerUnavailable
         (lit "Compiler unhealthy: status " ++ cw_status_text cw (hr_status r))).

Definition test_script (source method_name : str) (payload initial_state : option Value) :
    CM TestScriptResponse :=
  let! r := send (PostTest source method_name payload initial_state)
              "Failed to connect to compiler for test" in
  if is_success (hr_status r) || (hr_status r =? 400)%Z then
    match hr_test r with
    | inr t => ret t
    | inl e => throw (UnexpectedResponse (lit "Failed to parse test response: " ++ e))
    end
  else throw (RequestFailed (returned "Compiler test" r)).

Definition error_text (e : CompilerError) : str :=
  match e with
  | CompilationFailed errors => lit "Compilation failed: " ++ cw_debug cw errors
  | CompilerUnavailable m => lit "Compiler service unavailable: " ++ m
  | RequestFailed m => lit "Compiler request failed: " ++ m
  | UnexpectedResponse m => lit "Unexpected response from compiler: " ++ m
  end.
End client.
End Compiler.

(** ** The service *)

Record CompileResponse := {
  cr_success : bool;
  cr_errors : list str;
  cr_wasm_size : option Z;
}.

Record ScriptFunctionBinding := { sb_name : str; sb_stateless : bool }.

Record DeployScriptRequest := {
  dr_source : str;
  dr_language : str;
  dr_package_name : str;
  dr_class_key : str;
  dr_function_bindings : list ScriptFunctionBinding;
  dr_target_envs : list str;
}.

Record DeployScriptResponse := {
  dp_success : bool;
  dp_deployment_key : option str;
  dp_artifact_id : option str;
  dp_artifact_url : option str;
  dp_errors : list str;
  dp_message : option str;
}.

Record BuildScriptRequest := {
  br_source : str;
  br_language : str;
  br_package_name : str;
  br_class_key : str;
}.

Record BuildScriptResponse := {
  bs_success : bool;
  bs_artifact_id : option str;
  bs_artifact_url : option str;
  bs_wasm_size : option Z;
  bs_source_stored : bool;
  bs_errors : list str;
  bs_message : option str;
}.

Record ScriptSourceResponse := {
  ss_package : str;
  ss_function : str;
  ss_source : str;
  ss_language : str;
}.

Record ArtifactListEntry := {
  al_id : str;
  al_size : Z;
  al_url : str;
  al_has_source : bool;
  al_source_package : option str;
  al_source_function : option str;
  al_built_at : option str;
}.

Record TestScriptRequest := {
  tr_source : str;
  tr_method_name : str;
  tr_payload : option Value;
  tr_initial_state : option Value;
}.

(** The storages and clusters, the artifacts and sources, and the requests to the compiler. *)
Record ScriptState (P D F : Type) := {
  sc_app : AppState P D;
  sc_store : F;
  sc_log : list CompilerRequest;
}.
Arguments sc_app {P D F} _.
Arguments sc_store {P D F} _.
Arguments sc_log {P D F} _.

Module Scripts.
Section service.
Context {P D F : Type} `{!PackageStorage P} `{!DeploymentStorage D}.
Context `{!ArtifactStore F} `{!SourceStore F}.
Context (w : CrmWorld) (m : CrmManager) (policy : DeploymentPolicyConfig).
Context (cw : CompilerWorld) (config : CompilerConfig) (artifact_base_url : str).

(** Calls that answer with a value whatever happens, and calls of the handlers. *)
Notation SM E := (M (ScriptState P D F) E).

Definition set_app (x : AppState P D) (s : ScriptState P D F) : ScriptState P D F :=
  {| sc_app := x; sc_store := sc_store s; sc_log := sc_log s |}.
Definition set_store (x : F) (s : ScriptState P D F) : ScriptState P D F :=
  {| sc_app := sc_app s; sc_store := x; sc_log := sc_log s |}.
Definition set_log (x : list CompilerRequest) (s : ScriptState P D F) : ScriptState P D F :=
  {| sc_app := sc_app s; sc_store := sc_store s; sc_log := x |}.

Definition on_app {E A} (c : M (AppState P D) E A) : SM E A := zoom sc_app set_app c.
Definition on_store {E A} (c : M F E A) : SM E A := zoom sc_store set_store c.
Definition on_compiler {E A} (c : M (list CompilerRequest) E A) : SM E A :=
  zoom sc_log set_log c.

(** The state after a run that gives a result only *)
Definition compiled (source language : str) {E} : SM E (CompilerError + bytes) :=
  tried (on_compiler (Compiler.compile cw config source language)).

Definition compiler_error (e : CompilerError) : str :=
  lit "Compiler error: " ++ Compiler.error_text cw e.

Definition compile_script {E} (source language : str) : SM E CompileResponse :=
  let! r := compiled source language in
  ret match r with
      | inr b => {| cr_success := true; cr_errors := [];
                    cr_wasm_size := Some (Z.of_nat (length b)) |}
      | inl (CompilationFailed errors) =>
          {| cr_success := false; cr_errors := errors; cr_wasm_size := None |}
      | inl e => {| cr_success := false; cr_errors := [compiler_error e];
                    cr_wasm_size := None |}
      end.

Definition test_script (req : TestScriptRequest) : SM ApiError TestScriptResponse :=
  map_err (λ e, match e with
                | CompilerUnavailable msg => Unavailable (lit "Compiler unavailable: " ++ msg)
                | other => InternalServerError (compiler_error other)
                end)
    (on_compiler (Compiler.test_script cw (tr_source req) (tr_method_name req)
                    (tr_payload req) (tr_initial_state req))).

(** [trim_end_matches('/')] *)
Definition trim_end_slashes (s : str) : str :=
  reverse ((fix go s := match s with
                        | c :: t => if (c =? 47)%Z then go t else s
                        | [] => []
                        end) (reverse s)).
Definition artifact_url (id : str) : str :=
  trim_end_slashes artifact_base_url ++ lit "/" ++ id.

Definition build_failed (size : option Z) (errors : list str) (msg : option string) :
    BuildScriptResponse :=
  {| bs_success := false; bs_artifact_id := None; bs_artifact_url := None;
     bs_wasm_size := size; bs_source_stored := false; bs_errors := errors;
     bs_message := lit <$> msg |}.

Definition build_script {E} (now : str) (req : BuildScriptRequest) : SM E BuildScriptResponse :=
  let! r := compiled (br_source req) (br_language req) in
  match r with
  | inl (CompilationFailed errors) => ret (build_failed None errors (Some "Compilation failed"))
  | inl e => ret (build_failed None [compiler_error e] (Some "Failed to reach compiler service"))
  | inr wasm_bytes =>
      let wasm_size := Z.of_nat (length wasm_bytes) in
      let! r := tried (on_store (art_store wasm_bytes)) in
      match r with
      | inl e => ret (build_failed (Some wasm_size)
                   [lit "Failed to store artifact: " ++ artifact_error_text e] None)
      | inr id =>
          let meta := {| am_package := br_package_name req; am_class_key := br_class_key req;
                         built_at := now |} in
          let! _ := tried (on_store (art_store_meta id meta)) in
          let! r := tried (on_store (src_store (br_package_name req) (br_class_key req)
                                       (br_source req))) in
          ret {| bs_success := true; bs_artifact_id := Some id;
                 bs_artifact_url := Some (artifact_url id); bs_wasm_size := Some wasm_size;
                 bs_source_stored := match r with inr _ => true | inl _ => false end;
                 bs_errors := []; bs_message := Some (lit "Script built successfully") |}
      end
  end.

(** *** Deploying *)

Definition deploy_failed (artifact : option str) (errors : list str) (msg : option string) :
    DeployScriptResponse :=
  {| dp_success := false; dp_deployment_key := None; dp_artifact_id := artifact;
     dp_artifact_url := artifact_url <$> artifact; dp_errors := errors;
     dp_message := lit <$> msg |}.

Definition wasm_fn_key (req : DeployScriptRequest) : str :=
  dr_package_name req ++ lit "-" ++ dr_class_key req ++ lit "-wasm".

Definition script_function (req : DeployScriptRequest) (url : str) : OFunction :=
  {| fn_key := wasm_fn_key req; function_type := FWasm;
     fn_description := Some (lit "Auto-generated WASM function for " ++ dr_package_name req
                             ++ lit "/" ++ dr_class_key req);
     fn_provision_config := Some
       {| container_image := None; wasm_module_url := Some url; pc_port := None;
          max_concurrency := 0; need_http2 := false; cpu_request := None; memory_request := None;
          cpu_limit := None; memory_limit := None; min_scale := None; max_scale := None;
          wasm_fuel := None |};
     fn_config := ∅ |}.

Definition script_binding (req : DeployScriptRequest) (name : str) (stateless : bool) :
    FunctionBinding :=
  {| fb_name := name; fb_function_key := wasm_fn_key req; access_modifier := AccPublic;
     fb_stateless := stateless; fb_parameters := [] |}.

Definition script_class (req : DeployScriptRequest) : OClass :=
  {| cls_key := dr_class_key req;
     cls_description := Some (lit "Script class for " ++ dr_class_key req); state_spec := None;
     function_bindings :=
       match dr_function_bindings req with
       | [] => [script_binding req (dr_class_key req) false]
       | bs => (λ b, script_binding req (sb_name b) (sb_stateless b)) <$> bs
       end;
     cls_options := ∅ |}.

Definition script_package (req : DeployScriptRequest) (url : str) : OPackage :=
  {| pkg_name := dr_package_name req; pkg_version := Some (lit "1.0.0");
     pkg_metadata := {| pm_author := None; pm_description := None; pm_tags := [];
                        pm_created_at := None; pm_updated_at := None |};
     pkg_classes := [script_class req]; pkg_functions := [script_function req url];
     pkg_dependencies := []; pkg_deployments := [] |}.

Definition ensure_package (p : OPackage) : M (AppState P D) PackageManagerError unit :=
  let! known := Packages.get_package (pkg_name p) in
  match known with
  | Some _ => Packages.update_package p
  | None => let! _ := Packages.create_package p in ret tt
  end.

(** [OClassDeployment] with the defaults at time [now] *)
Definition script_deployment (req : DeployScriptRequest) (now : Z) : OClassDeployment :=
  {| dep_key := dr_package_name req ++ lit "-" ++ dr_class_key req;
     dep_package_name := dr_package_name req; dep_class_key := dr_class_key req;
     target_envs := dr_target_envs req; available_envs := [];
     dep_nfr := {| min_throughput_rps := None; availability := None;
                   cpu_utilization_target := None |};
     env_templates := ∅; dep_functions := []; dep_condition := DPending; dep_odgm := None;
     dep_telemetry := None; dep_status := None; created_at := Some now; updated_at := Some now |}.

Definition deploy_script {E} (now : Z) (req : DeployScriptRequest) : SM E DeployScriptResponse :=
  let! r := compiled (dr_source req) (dr_language req) in
  match r with
  | inl (CompilationFailed errors) => ret (deploy_failed None errors (Some "Compilation failed"))
  | inl e => ret (deploy_failed None [compiler_error e] (Some "Failed to reach compiler service"))
  | inr wasm_bytes =>
      let! r := tried (on_store (art_store wasm_bytes)) in
      match r with
      | inl e => ret (deploy_failed None
                   [lit "Failed to store artifact: " ++ artifact_error_text e] None)
      | inr id =>
          let! _ := tried (on_store (src_store (dr_package_name req) (dr_class_key req)
                                       (dr_source req))) in
          let! r := tried (on_app (ensure_package (script_package req (artifact_url id)))) in
          match r with
          | inl e => ret (deploy_failed (Some id)
                       [lit "Failed to create package: " ++ error_text e] None)
          | inr _ =>
              let! r := tried (on_app (Packages.on_deployments
                          (Deploy.deploy_class w m policy (script_class req)
                             (script_deployment req now)))) in
              match r with
              | inl e => ret (deploy_failed (Some id)
                           [lit "Deployment failed: " ++ error_text e] None)
              | inr dep_id =>
                  ret {| dp_success := true; dp_deployment_key := Some dep_id;
                         dp_artifact_id := Some id; dp_artifact_url := Some (artifact_url id);
                         dp_errors := [];
                         dp_message := Some (lit "Script deployed successfully") |}
              end
          end
      end
  end.

(** *** Reading *)

Definition get_script_source (package function : str) :
    SM ArtifactError (option ScriptSourceResponse) :=
  let! s := on_store (src_get package function) in
  ret ((λ source, {| ss_package := package; ss_function := function; ss_source := source;
                     ss_language := lit "typescript" |}) <$> s).

Definition compiler_health : SM CompilerError unit := on_compiler (Compiler.health cw).

Definition list_entry (a : ArtifactInfo) : ArtifactListEntry :=
  {| al_id := ai_id a; al_size := ai_size a; al_url := artifact_url (ai_id a);
     al_has_source := bool_decide (is_Some (am_package <$> ai_meta a));
     al_source_package := am_package <$> ai_meta a;
     al_source_function := am_class_key <$> ai_meta a;
     al_built_at := built_at <$> ai_meta a |}.
Definition list_artifacts : SM ArtifactError (list ArtifactListEntry) :=
  let! l := on_store art_list in ret (list_entry <$> l).

Definition list_sources : SM ArtifactError (list SourceInfo) := on_store src_list.

(** ** The handlers

    The services are there when a compiler is configured. *)

Definition from_artifact_error (e : ArtifactError) : ApiError :=
  match e with
  | ArtNotFound id => NotFound (lit "Artifact not found: " ++ id)
  | ArtIo e => InternalServerError (lit "IO error: " ++ e)
  | ArtInvalidId id => BadRequest (lit "Invalid artifact ID: " ++ id)
  end.

Definition configured (enabled : bool) (what : string) : SM ApiError unit :=
  if enabled then ret tt else throw (Unavailable (lit what ++ lit " not configured")).

(** The bytes, with content type [application/wasm] and this length *)
Definition h_get_artifact (enabled : bool) (id : str) : SM ApiError (Z * Z * bytes) :=
  configured enabled "Artifact store" ;;;
  let! b := map_err from_artifact_error (on_store (art_get id)) in
  ret (200%Z, Z.of_nat (length b), b).

Definition status_of (success : bool) : Z := if success then 200%Z else 400%Z.

Definition h_compile_script (enabled : bool) (source language : str) :
    SM ApiError (Z * CompileResponse) :=
  configured enabled "Script service" ;;;
  let! r := compile_script source language in ret (status_of (cr_success r), r).

Definition h_deploy_script (enabled : bool) (now : Z) (req : DeployScriptRequest) :
    SM ApiError (Z * DeployScriptResponse) :=
  configured enabled "Script service" ;;;
  let! r := deploy_script now req in ret (status_of (dp_success r), r).

Definition h_get_script_source (enabled : bool) (package function : str) :
    SM ApiError ScriptSourceResponse :=
  configured enabled "Script service" ;;;
  let! r := map_err from_artifact_error (get_script_source package function) in
  match r with
  | Some r => ret r
  | None => throw (NotFound (lit "Source not found for " ++ package ++ lit "/" ++ function))
  end.

Definition h_build_script (enabled : bool) (now : str) (req : BuildScriptRequest) :
    SM ApiError (Z * BuildScriptResponse) :=
  configured enabled "Script service" ;;;
  let! r := build_script now req in ret (status_of (bs_success r), r).

Definition h_list_artifacts (enabled : bool) : SM ApiError (list ArtifactListEntry) :=
  configured enabled "Script service" ;;; map_err from_artifact_error list_artifacts.

Definition h_test_script (enabled : bool) (req : TestScriptRequest) :
    SM ApiError TestScriptResponse :=
  configured enabled "Script service" ;;; test_script req.

End service.
End Scripts.

(** ** The compiler client *)

Definition posts (l : list CompilerRequest) : nat :=
  length (filter (λ q, match q with PostCompile _ _ => true | _ => false end = true) l).

Lemma posts_app l1 l2 : posts (l1 ++ l2) = posts l1 + posts l2.
Proof. unfold posts. by rewrite filter_app, length_app. Qed.

Lemma posts_one source language : posts [PostCompile source language] = 1.
Proof. done. Qed.

Section compiling.
Context (cw : CompilerWorld).

Lemma do_compile_posts source language log : ∃ r,
  Compiler.do_compile cw source language log = (r, log ++ [PostCompile source language]) ∧
  ∀ p, r ≠ Panic p.
Proof.
  unfold Compiler.do_compile, bind, Compiler.send, ret, throw.
  destruct (cw_send cw _) as [e|a]; [by eexists|].
  destruct (Compiler.is_success _); [destruct (Compiler.contains _ _);
    [destruct (hr_bytes a)|destruct (hr_text a)]; by eexists|].
  destruct (hr_status a =? 400)%Z; [destruct (hr_errors a); by eexists|].
  destruct (Compiler.is_server_error _); by eexists.
Qed.

Lemma attempts_spec source language attempt further log : ∃ r new,
  Compiler.attempts cw source language attempt further log = (r, log ++ new) ∧
  (∀ p, r ≠ Panic p) ∧ 1 ≤ posts new ≤ S further ∧
  (∀ msg, r = Err (CompilerUnavailable msg) → posts new = S further).
Proof.
  revert attempt log. induction further as [|further IH]; intros attempt log;
    simpl; unfold bind at 1;
    (assert (∃ pre, match attempt with O => ret tt
       | S _ => Compiler.pause (500 * Z.of_nat attempt) end log
       = (Ok tt : res CompilerError unit, log ++ pre) ∧ posts pre = 0) as (pre & -> & Hpre)
      by (destruct attempt; [exists []; by rewrite app_nil_r|by eexists]));
    destruct (do_compile_posts source language (log ++ pre)) as (r & E & Hr);
    unfold bind at 1, tried; rewrite E; destruct r as [b|e|p]; [| |by destruct (Hr p)| | |by destruct (Hr p)].
  1,3: exists (Ok b), (pre ++ [PostCompile source language]); rewrite app_assoc;
       (split; [done|]); (split; [done|]); rewrite posts_app, Hpre, posts_one; (split; [lia|done]).
  - exists (Err e), (pre ++ [PostCompile source language]). rewrite app_assoc.
    split; [by destruct e|]. split; [done|]. rewrite posts_app, Hpre, posts_one. split; [lia|done].
  - assert (∀ e, (match e with CompilerUnavailable _ => False | _ => True end) →
      ∃ r new, (Err e : res CompilerError bytes, (log ++ pre) ++ [PostCompile source language])
        = (r, log ++ new) ∧ (∀ p, r ≠ Panic p) ∧ 1 ≤ posts new ≤ S (S further) ∧
        (∀ msg, r = Err (CompilerUnavailable msg) → posts new = S (S further))) as Hother.
    { intros e' He'. exists (Err e'), (pre ++ [PostCompile source language]). rewrite app_assoc.
      split; [done|]. split; [done|]. rewrite posts_app, Hpre, posts_one. split; [lia|].
      intros msg [= ->]. done. }
    destruct e as [errs|msg|msg|msg]; [by apply Hother| |by apply Hother..].
    destruct (IH (S attempt) ((log ++ pre) ++ [PostCompile source language]))
      as (r & new & E2 & Hp & Hn & Hu).
    exists r, (pre ++ [PostCompile source language] ++ new). rewrite !app_assoc.
    split; [exact E2|]. split; [done|]. rewrite !posts_app, Hpre, posts_one.
    split; [lia|]. intros msg' Hm. rewrite (Hu msg' Hm). done.
Qed.

(** Compiling ends, whatever the service answers: a script is sent at least once and at most
    once more than the configured retries, and exactly that often when the service is reported
    as unavailable. *)
Theorem compile_attempts config source language log : ∃ r new,
  Compiler.compile cw config source language log = (r, log ++ new) ∧
  (∀ p, r ≠ Panic p) ∧ 1 ≤ posts new ≤ cfg_max_retries config + 1 ∧
  (∀ msg, r = Err (CompilerUnavailable msg) → posts new = cfg_max_retries config + 1).
Proof. rewrite Nat.add_1_r. apply attempts_spec. Qed.
End compiling.

(** ** Building *)

Section building.
Context {P D F : Type} `{!PackageStorage P} `{!DeploymentStorage D}.
Context `{!ArtifactStore F} `{!SourceStore F} (content_hash : bytes → str).
Context `{!ArtifactLaws F content_hash}.
Context (cw : CompilerWorld) (config : CompilerConfig) (base_url : str).
Notation state := (ScriptState P D F).

Lemma on_store_inv {E A} (c : M F E A) (s s1 : state) r :
  match r with
  | inr a => Scripts.on_store c s = (Ok a, s1)
  | inl e => Scripts.on_store c s = (Err e, s1)
  end →
  s1 = Scripts.set_store (c (sc_store s)).2 s ∧
  (c (sc_store s)).1 = match r with inr a => Ok a | inl e => Err e end.
Proof.
  unfold Scripts.on_store, zoom. destruct (c (sc_store s)) as [r' f].
  destruct r; intros [= <- <-]; done.
Qed.

Lemma on_compiler_inv {E A} (c : M (list CompilerRequest) E A) (s s1 : state) r :
  Scripts.on_compiler c s = (r, s1) → ∃ l, c (sc_log s) = (r, l) ∧ s1 = Scripts.set_log l s.
Proof.
  unfold Scripts.on_compiler, zoom. destruct (c (sc_log s)) as [r' l]. intros [= <- <-]. by exists l.
Qed.

Definition hashed (f : F) : Prop := ∀ id b, artifact_at f id = Some b → content_hash b = id.

Lemma hashed_store b f : hashed f → hashed (art_store b f).2.
Proof.
  intros Hh id b' Hb. destruct (law_store b f) as [Hs _].
  destruct (Hs id) as [E|[-> E]]; rewrite E in Hb; [by apply Hh|congruence].
Qed.

Lemma h_get_served id b f (s : state) : (art_get id f).1 = Ok b →
  Scripts.h_get_artifact true id (Scripts.set_store f s)
  = (Ok (200%Z, Z.of_nat (length b), b), Scripts.set_store (art_get id f).2 s).
Proof.
  intros E. unfold Scripts.h_get_artifact, Scripts.configured. rewrite bind_ret.
  unfold bind, map_err, Scripts.on_store, zoom. simpl.
  destruct (art_get id f) as [r f']. simpl in E. by subst r.
Qed.

Lemma h_source_served p q src f (s : state) : (src_get p q f).1 = Ok (Some src) →
  Scripts.h_get_script_source true p q (Scripts.set_store f s)
  = (Ok {| ss_package := p; ss_function := q; ss_source := src; ss_language := lit "typescript" |},
     Scripts.set_store (src_get p q f).2 s).
Proof.
  intros E. unfold Scripts.h_get_script_source, Scripts.configured, Scripts.get_script_source.
  rewrite bind_ret. unfold bind, map_err, Scripts.on_store, zoom. simpl.
  destruct (src_get p q f) as [r f']. simpl in E. by subst r.
Qed.

(** C37. A script that was built is served: in a store in working order that keeps artifacts under
    their hashes, and for plain names, a build that reports success has compiled the script,
    and under the identifier and URL it reports a module of the hash of the compiled one is
    served (so the compiled one, if no other has its hash); and when it reports the source as
    stored, the source is what is then returned for the package and class. *)
Theorem build_then_fetch {E} now req (s s' : state) resp :
  store_works (sc_store s) → hashed (sc_store s) →
  plain (br_package_name req) → plain (br_class_key req) → Forall Utf8.scalar (br_source req) →
  Scripts.build_script (E := E) cw config base_url now req s = (Ok resp, s') →
  bs_success resp = true →
  ∃ wasm log b s2,
    Compiler.compile cw config (br_source req) (br_language req) (sc_log s) = (Ok wasm, log) ∧
    let id := content_hash wasm in
    bs_artifact_id resp = Some id ∧
    bs_artifact_url resp = Some (Scripts.artifact_url base_url id) ∧
    bs_wasm_size resp = Some (Z.of_nat (length wasm)) ∧
    Scripts.h_get_artifact true id s' = (Ok (200%Z, Z.of_nat (length b), b), s2) ∧
    content_hash b = id ∧
    (bs_source_stored resp = true → ∃ s3,
       Scripts.h_get_script_source true (br_package_name req) (br_class_key req) s' =
       (Ok {| ss_package := br_package_name req; ss_function := br_class_key req;
              ss_source := br_source req; ss_language := lit "typescript" |}, s3)).
Proof.
  intros Hw Hh Hp Hq Hsc Hb Hok. unfold Scripts.build_script, Scripts.compiled in Hb.
  apply tried_inv in Hb as ([e|wasm] & s1 & Hb & Hc); [by destruct e; injection Hb as <- <-|].
  apply on_compiler_inv in Hc as (log & Hc & ->). exists wasm, log.
  apply tried_inv in Hb as (r2 & s2 & Hb & [-> Hst]%on_store_inv).
  destruct r2 as [e|id]; [by injection Hb as <- <-|]. simpl in Hst, Hb. set (f1 := (art_store wasm (sc_store s)).2) in Hb.
  destruct (law_store wasm (sc_store s)) as [_ Hlaw]. destruct (Hlaw Hw) as [Hw1 Hid].
  destruct (Hid id Hst) as [-> [b Hab]]. fold f1 in Hw1, Hab.
  apply tried_inv in Hb as (r3 & s3 & Hb & [-> _]%on_store_inv). simpl in Hb.
  match type of Hb with context [Scripts.set_store ?f _] => set (f2 := f) in Hb end.
  destruct (law_store_meta (content_hash wasm) {| am_package := br_package_name req;
    am_class_key := br_class_key req; built_at := now |} f1 : _ ∧ _) as [Ha2 Hw2].
  fold f2 in Ha2, Hw2.
  apply tried_inv in Hb as (r4 & s4 & Hb & [-> Hr4]%on_store_inv). injection Hb as <- <-.
  simpl in Hr4 |- *. destruct (law_src_store (br_package_name req) (br_class_key req)
    (br_source req) f2) as (Ha3 & Hw3 & Hs3).
  set (f3 := (src_store _ _ _ f2).2) in *. specialize (Hw3 (Hw2 Hw1) Hp Hq).
  destruct (law_get (content_hash wasm) f3) as (_ & _ & Hget).
  exists b, (Scripts.set_store (art_get (content_hash wasm) f3).2 (Scripts.set_log log s)).
  split; [done|]. do 3 (split; [done|]). split; [|split; [by apply (hashed_store wasm (sc_store s))|]].
  - refine (h_get_served _ b f3 (Scripts.set_log log s) (Hget b Hw3 _)). by rewrite Ha3, Ha2.
  - intros Hr. destruct (law_src_get (br_package_name req) (br_class_key req) f3) as [_ Hg].
    eexists. refine (h_source_served _ _ _ f3 (Scripts.set_log log s) (Hg _ Hw3 (Hs3 _ Hsc))).
    by destruct r4 as [e|[]].
Qed.
End building.

(** ** Deploying *)

Section deploying.
Context {P D F : Type} `{!PackageStorage P} `{!PackageStorageLaws P}.
Context `{!DeploymentStorage D} `{!DeploymentStorageLaws D}.
Context `{!ArtifactStore F} `{!SourceStore F}.
Context (w : CrmWorld) (m : CrmManager) (policy : DeploymentPolicyConfig).
Context (cw : CompilerWorld) (config : CompilerConfig) (base_url : str).
Notation state := (ScriptState P D F).

Lemma script_package_valid req url : dr_package_name req ≠ [] → 32%Z ∉ dr_package_name req →
  valid_package (Scripts.script_package req url).
Proof.
  intros Hn Hs. split; [done|]. split; [done|]. intros c b Hc Hb.
  apply list_elem_of_singleton in Hc as ->.
  assert (fb_function_key b = Scripts.wasm_fn_key req) as ->.
  { unfold Scripts.script_class in Hb. cbn [function_bindings] in Hb.
    destruct (dr_function_bindings req) as [|x bs].
    - by apply list_elem_of_singleton in Hb as ->.
    - by apply list_elem_of_fmap in Hb as (y & -> & _). }
  split; [|eexists; split; [by left|done]].
  unfold Scripts.wasm_fn_key. by destruct (dr_package_name req).
Qed.

(** A valid package without dependencies is put in place of whatever has its name. *)
Lemma ensure_spec p (s : AppState P D) : valid_package p → pkg_dependencies p = [] → ∃ s',
  Scripts.ensure_package p s = (Ok tt, s') ∧ app_pm s' = app_pm s ∧
  known s' = <[pkg_name p := Packages.without_deployments p]> (known s).
Proof.
  intros Hv%validate_ok Hd.
  assert (Packages.get_package (pkg_name p) s = (Ok (known s !! pkg_name p), s)) as Hg.
  { unfold Packages.get_package, Packages.on_packages, map_err.
    rewrite (zoom_eq _ _ _ _ _ _ (law_get_package (pkg_name p) (app_packages s))). simpl.
    by rewrite set_packages_same. }
  unfold Scripts.ensure_package. rewrite (bind_ok _ _ _ _ _ Hg).
  destruct (known s !! pkg_name p) as [old|] eqn:Eo.
  - unfold Packages.update_package, bind at 1, lift_res. rewrite Hv.
    unfold bind at 1. rewrite exists_spec, bool_decide_true by (rewrite Eo; eauto). simpl negb.
    destruct (check_and_store p s) as (r & s' & Er & Hpm & Hr). rewrite Hd in Hr.
    destruct Hr as [-> Hk]. exists s'. split; [exact Er|by split].
  - destruct (create_package_spec p s) as (r & s' & Er & Hpm & Hr). rewrite Hv in Hr.
    rewrite decide_False in Hr by (rewrite Eo; by intros []). rewrite Hd in Hr.
    destruct Hr as (-> & _ & Hk). exists s'. by rewrite (bind_ok _ _ _ _ _ Er).
Qed.

Lemma deploy_result_no_panic dep (x y : PmState D) r p : deploy_result m policy dep x y r → r ≠ Panic p.
Proof.
  intros [(e & -> & _)|(eff & l & H)]; [done|]. destruct H as (_ & _ & _ & _ & _ & _ & _ & _ & H).
  destruct l as [|[c id] l]; [by destruct H as [-> _]|].
  repeat case_match; by destruct H as [-> _].
Qed.

(** The last part of deploying a script: the class of a package that is in place. *)
Lemma deploy_last {E} now req url (s : state) :
  (∀ h, is_Some (Units.gen_safe_deployment_id (dr_class_key req) (w_nanoid w h))) →
  dr_package_name req ≠ [] → 32%Z ∉ dr_package_name req →
  ∃ s' r, known (sc_app s') = <[dr_package_name req := Scripts.script_package req url]> (known (sc_app s)) ∧
    sc_store s' = sc_store s ∧
    deploy_result m policy (Scripts.script_deployment req now) (app_pm (sc_app s))
      (app_pm (sc_app s')) r ∧
    ∀ B (k : PackageManagerError + unit → M state E B) (kk : PackageManagerError + str → M state E B),
      k (inr tt) = bind (tried (Scripts.on_app (Packages.on_deployments (Deploy.deploy_class w m policy
                     (Scripts.script_class req) (Scripts.script_deployment req now))))) kk →
      bind (tried (Scripts.on_app (Scripts.ensure_package (Scripts.script_package req url)))) k s
      = match r with Ok d => kk (inr d) s' | Err e => kk (inl e) s' | Panic p => (Panic p, s') end.
Proof.
  intros Hid Hn Hsp.
  destruct (ensure_spec (Scripts.script_package req url) (sc_app s)) as (a1 & He & Hpm & Hk);
    [by apply script_package_valid|done|].
  destruct (deploy_class_spec w m policy (Scripts.script_class req)
    (Scripts.script_deployment req now) (app_pm a1) Hid) as (r & d1 & Hdep & Hres).
  exists (Scripts.set_app (Packages.set_pm d1 a1) (Scripts.set_app a1 s)), r.
  split; [exact Hk|]. split; [done|]. rewrite <- Hpm. split; [done|]. intros B k kk Hkk.
  unfold Scripts.on_app, Packages.on_deployments in *.
  rewrite (bind_tried_ok _ _ _ _ _ (zoom_eq sc_app Scripts.set_app _ s _ _ He)), Hkk.
  assert (Hz := zoom_eq sc_app Scripts.set_app _ (Scripts.set_app a1 s) _ _
                  (zoom_eq app_pm Packages.set_pm _ a1 _ _ Hdep)).
  destruct r as [d|e|p]; [exact (bind_tried_ok _ _ _ _ _ Hz)|exact (bind_tried_err _ _ _ _ _ Hz)|].
  by destruct (deploy_result_no_panic _ _ _ _ p Hres).
Qed.


(** The units sent for a script name no function and no data grid configuration, though the
    class binds the module's function: the record that is deployed has neither, and deploying
    does not add them. *)
Theorem script_units_empty now req :
  (∀ h, is_Some (Units.gen_safe_deployment_id (dr_class_key req) (w_nanoid w h))) →
  leads (S := D) (λ k, ∃ eff units,
      k = store_and_send w m policy (Scripts.script_deployment req now) eff units ∧ units ≠ [] ∧
      ∀ u, u ∈ units → unit_functions u = [] ∧ unit_odgm_config u = None ∧
                       unit_function_bindings u ≠ [])
    (Deploy.deploy_class w m policy (Scripts.script_class req) (Scripts.script_deployment req now)).
Proof.
  intros Hid s.
  destruct (deploy_class_prepared w m policy (Scripts.script_class req)
    (Scripts.script_deployment req now) Hid s)
    as [x [He|(k & (eff & units & Heff & ->) & E)]]; exists x; [by left|right].
  exists (store_and_send w m policy (Scripts.script_deployment req now) eff units).
  split; [|done]. exists eff, units. split; [done|].
  destruct Heff as (selected & achieved & rq & eff1 & now1 & Hne & Hsel & Hg & -> & Hu).
  split; [by intros ->; apply Forall2_nil_inv_r in Hu|].
  unfold ids_given in Hg. simpl in Hg. subst eff1.
  intros u (k & Hk)%list_elem_of_lookup_1.
  destruct (Forall2_lookup_r _ _ _ _ _ Hu Hk) as (env & Henv & (id & t & ->)).
  split; [done|]. split; [done|]. simpl. by destruct (dr_function_bindings req).
Qed.
End deploying.

(** ** Examples *)

Module DemoScripts.
Import DemoFs.

(** The first request finds the service down, all others are answered by the module. *)
Definition answer : HttpResponse :=
  {| hr_status := 200; hr_content_type := Some (lit "application/wasm"); hr_bytes := inr module_;
     hr_text := inl []; hr_errors := inl []; hr_test := inl [] |}.
Definition compiler : CompilerWorld :=
  {| cw_send := λ h, match h with [_] => inl (lit "refused") | _ => inr answer end;
     cw_status_text := λ _, lit "200 OK"; cw_debug := λ _, lit "[]" |}.
Definition config : CompilerConfig := {| cfg_max_retries := 2 |}.
Definition url : str := lit "http://pm/artifacts/".

Definition start : ScriptState MemoryPackageStorage MemoryDeploymentStorage mem_fs :=
  {| sc_app := DemoApi.start; sc_store := disk; sc_log := [] |}.

Definition build_request : BuildScriptRequest :=
  {| br_source := lit "class A {}"; br_language := lit "typescript";
     br_package_name := lit "shop"; br_class_key := lit "A" |}.

Definition built := Scripts.build_script (E := ApiError) compiler config url (lit "now") build_request start.

Definition build_response : BuildScriptResponse :=
  {| bs_success := true; bs_artifact_id := Some (hash module_);
     bs_artifact_url := Some (lit "http://pm/artifacts/" ++ hash module_); bs_wasm_size := Some 4%Z;
     bs_source_stored := true; bs_errors := []; bs_message := Some (lit "Script built successfully") |}.

Lemma build_then_fetch_witness :
  built.1 = Ok build_response ∧
  sc_log built.2 = [PostCompile (lit "class A {}") (lit "typescript"); Pause 500;
                    PostCompile (lit "class A {}") (lit "typescript")] ∧
  ∃ b s2, Scripts.h_get_artifact true (hash module_) built.2
          = (Ok (200%Z, Z.of_nat (length b), b), s2) ∧ hash b = hash module_.
Proof.
  assert (built.1 = Ok build_response) as E by (vm_compute; reflexivity).
  split; [exact E|]. split; [vm_compute; reflexivity|].
  destruct (build_then_fetch hash compiler config url (E := ApiError) (lit "now") build_request
    start built.2 build_response) as (wasm & log & b & s2 & Hc & Hid & _ & _ & Hg & Hh & _).
  - split; [exact I|]. intros id _ Hd. exact (not_elem_of_empty (C := gset (list str)) _ Hd).
  - intros id b. unfold artifact_at. simpl. unfold fs_artifact_at. by destruct (valid_hash id).
  - split_and!; [apply (bool_decide_unpack _); vm_compute; exact I|discriminate..].
  - split_and!; [apply (bool_decide_unpack _); vm_compute; exact I|discriminate..].
  - unfold build_request. cbn [br_source]. repeat constructor; unfold Utf8.scalar; vm_compute; intuition discriminate.
  - exact (eq_trans (surjective_pairing built) (f_equal (λ r, (r, built.2)) E)).
  - reflexivity.
  - exists b, s2. assert (hash module_ = hash wasm) as -> by exact (Some_inj _ _ Hid).
    split; [exact Hg|exact Hh].
Defined.

Definition deploy_request (class : string) : DeployScriptRequest :=
  {| dr_source := lit "class A {}"; dr_language := lit "typescript";
     dr_package_name := lit "shop"; dr_class_key := lit class;
     dr_function_bindings := []; dr_target_envs := [lit "b"] |}.

Definition deployed (class : string) (s : ScriptState MemoryPackageStorage MemoryDeploymentStorage mem_fs) :=
  Scripts.deploy_script (E := ApiError) DemoDeploy.world DemoCrm.manager DemoDeploy.policy compiler
    config url 0 (deploy_request class) s.

Lemma nanoids class h : is_Some (Units.gen_safe_deployment_id class (w_nanoid DemoDeploy.world h)).
Proof. apply DemoApi.gather_ids. Qed.

Definition classes_of (s : ScriptState MemoryPackageStorage MemoryDeploymentStorage mem_fs) :
    option (list str) :=
  (λ p, cls_key <$> pkg_classes p) <$> (known (sc_app s) !! lit "shop").

Definition first := (deployed "A" start).2.

Lemma first_log : sc_log first = [PostCompile (lit "class A {}") (lit "typescript"); Pause 500;
                                  PostCompile (lit "class A {}") (lit "typescript")].
Proof. vm_compute. reflexivity. Qed.

Lemma compiled_again : Compiler.compile compiler config (lit "class A {}") (lit "typescript")
  (sc_log first) = (Ok module_, sc_log first ++ [PostCompile (lit "class A {}") (lit "typescript")]).
Proof. rewrite first_log. reflexivity. Qed.

Lemma stored_again : (art_store module_ (sc_store first)).1 = Ok (hash module_).
Proof. vm_compute. reflexivity. Qed.


Lemma script_units_empty_witness : ∃ x eff units,
  Deploy.deploy_class DemoDeploy.world DemoCrm.manager DemoDeploy.policy
    (Scripts.script_class (deploy_request "A")) (Scripts.script_deployment (deploy_request "A") 0)
    DemoDeploy.start
  = store_and_send DemoDeploy.world DemoCrm.manager DemoDeploy.policy
      (Scripts.script_deployment (deploy_request "A") 0) eff units
      (Deploy.set_crm x DemoDeploy.start) ∧
  units ≠ [] ∧ ∀ u, u ∈ units → unit_functions u = [] ∧ unit_odgm_config u = None.
Proof.
  destruct (script_units_empty (D := MemoryDeploymentStorage) DemoDeploy.world DemoCrm.manager
    DemoDeploy.policy 0 (deploy_request "A") (nanoids _) DemoDeploy.start)
    as [x [[e E]|(k & (eff & units & -> & Hne & Hu) & E)]].
  - exfalso. apply (f_equal (λ r, match r.1 with Ok _ => true | _ => false end)) in E.
    vm_compute in E. discriminate.
  - exists x, eff, units. split; [exact E|]. split; [exact Hne|].
    intros u Hin. destruct (Hu u Hin) as (H1 & H2 & _). by split.
Defined.
End DemoScripts.
