(* ===== verification/Gateway.v ===== *)
(** * The gateway

    [commons/oprc-invoke/src/proxy.rs] and [data-plane/oprc-gateway/src/{error,metrics}.rs],
    [handler/{rest,grpc}.rs]: the requests of clients for objects and functions, which the
    gateway sends as queries to the shards. A Zenoh session is the class [ZSession]: what a query
    is answered is not known, and an answer may come after the request has timed out. The
    protobuf and JSON codecs are parameters. *)

From stdpp Require Import base tactics list numbers option gmap sorting strings.
From Stdlib Require Import Lia.
From S2P Require Import Prelude BTree GranularKey Identity ObjectData DataService.

Set Default Proof Using "Type".
Open Scope prog_scope.

(** ** Messages *)

Record ObjMeta := { om_cls_id : bytes; om_partition_id : Z; om_object_id : option bytes }.

(** [ObjData] with its metadata *)
Record ProtoObj := { po_metadata : option ObjMeta; po_data : ObjData }.

Record InvocationRequest := {
  ir_partition_id : Z;
  ir_cls_id : bytes;
  ir_fn_id : bytes;
  ir_options : gmap bytes bytes;
  ir_payload : bytes;
}.

Record ObjectInvocationRequest := {
  oi_partition_id : Z;
  oi_cls_id : bytes;
  oi_fn_id : bytes;
  oi_options : gmap bytes bytes;
  oi_payload : bytes;
  oi_object_id : option bytes;
}.

Record InvocationResponse := {
  iv_payload : option bytes;
  iv_status : Z;
  iv_headers : gmap bytes bytes;
  iv_invocation_id : bytes;
}.

(** The protobuf codecs; a decoder gives the text of its error. *)
Record Wire := {
  enc_obj : ProtoObj → bytes;
  dec_obj : bytes → bytes + ProtoObj;
  enc_batch : BatchSetValuesRequest → bytes;
  dec_batch : bytes → bytes + BatchSetValuesRequest;
  enc_empty : bytes;
  dec_empty : bytes → bytes + unit;
  enc_list : ListObjectsRequest → bytes;
  dec_list : bytes → bytes + ListObjectsRequest;
  enc_envelope : ObjectMetaEnvelope → bytes;
  dec_envelope : bytes → bytes + ObjectMetaEnvelope;
  enc_value : ValueResponse → bytes;
  dec_value : bytes → bytes + ValueResponse;
  enc_invocation : InvocationRequest → bytes;
  dec_invocation : bytes → bytes + InvocationRequest;
  enc_obj_invocation : ObjectInvocationRequest → bytes;
  dec_obj_invocation : bytes → bytes + ObjectInvocationRequest;
  enc_response : InvocationResponse → bytes;
  dec_response : bytes → bytes + InvocationResponse;
}.

(** ** The session *)

Inductive ZReply : Type := RSample (b : bytes) | RError (b : bytes).

(** What became of a query before its caller gave up, if ever. *)
Inductive Answer : Type :=
| ZElapsed
| ZFailed (msg : bytes)
| ZReplies (l : list ZReply).

Inductive Sent : Type := SElapsed | SFailed (msg : bytes) | SDone.

(** [z_query all key payload]: the caller waits for the first reply, or for [all] of them. *)
Class ZSession (Z : Type) := {
  z_query : bool → bytes → option bytes → Z → Answer * Z;
  z_delete : bytes → Z → Sent * Z;
  z_valid_key : bytes → bool;
}.

Inductive ProxyError : Type :=
| NoQueryable (msg : bytes)
| RetrieveReplyErr (msg : bytes)
| ReplyError
| DecodeError (msg : bytes)
| RequireMetadata
| KeyErr.

(** A call of the proxy that ends in an error, or is given up. *)
Inductive CallError : Type := Elapsed | Failed (e : ProxyError).

Module Proxy.
Section proxy.
Context {Z : Type} `{!ZSession Z} (w : Wire).

Notation P A := (M Z CallError A).

Definition slashed (segs : list bytes) : bytes :=
  match segs with
  | [] => []
  | s :: segs => foldl (λ acc seg, acc ++ bs "/" ++ seg) s segs
  end.
Definition decimal : BinNums.Z → bytes := to_decimal 20.

(** [oprc/cls/pid/...] *)
Definition path (cls : bytes) (pid : BinNums.Z) (rest : list bytes) : bytes :=
  slashed ([bs "oprc"; cls; decimal pid] ++ rest).

(** The error of a channel whose senders are gone *)
Definition closed : bytes := bs "receiving on a closed channel".

Definition decoded {A} (r : bytes + A) : res ProxyError A :=
  match r with inr a => Ok a | inl e => Err (DecodeError e) end.

Definition failed {A} (r : res ProxyError A) : P A := lift_res (res_map_err Failed r).

Definition query (all : bool) (key : bytes) (payload : option bytes) : P (list ZReply) := λ z,
  match z_query all key payload z with
  | (ZElapsed, z) => (Err Elapsed, z)
  | (ZFailed e, z) => (Err (Failed (NoQueryable e)), z)
  | (ZReplies l, z) => (Ok l, z)
  end.

Definition call_zenoh {A} (key : bytes) (payload : option bytes) (f : bytes → res ProxyError A) : P A :=
  let! replies := query false key payload in
  match replies with
  | RSample b :: _ => failed (f b)
  | RError _ :: _ => throw (Failed ReplyError)
  | [] => throw (Failed (RetrieveReplyErr closed))
  end.

Fixpoint collect {A} (f : bytes → res ProxyError A) (replies : list ZReply) : res ProxyError (list A) :=
  match replies with
  | [] => Ok []
  | RSample b :: l => res_bind (f b) (λ a, res_bind (collect f l) (λ r, Ok (a :: r)))
  | RError _ :: l => collect f l
  end.
Definition call_zenoh_collect {A} (key : bytes) (payload : option bytes)
    (f : bytes → res ProxyError A) : P (list A) :=
  let! replies := query true key payload in failed (collect f replies).

Definition call_zenoh_raw (key payload : bytes) : P ZReply :=
  let! replies := query false key (Some payload) in
  match replies with
  | r :: _ => ret r
  | [] => throw (Failed (RetrieveReplyErr closed))
  end.

Definition required (id : option bytes) : P bytes :=
  match id with Some id => ret id | None => throw (Failed RequireMetadata) end.

(** An answer with an error counts as absence. *)
Definition or_none {A} (c : P A) : P (option A) :=
  let! r := tried c in
  match r with
  | inr a => ret (Some a)
  | inl (Failed ReplyError) => ret None
  | inl e => throw e
  end.

Definition object_path (m : ObjMeta) (id : bytes) (rest : list bytes) : bytes :=
  path (om_cls_id m) (om_partition_id m) ([bs "objects"; id] ++ rest).

Definition get_obj (meta : ObjMeta) : P (option ProtoObj) :=
  let! object_id := required (om_object_id meta) in
  or_none (call_zenoh (object_path meta object_id []) None (λ b, decoded (dec_obj w b))).

Definition set_obj (obj : ProtoObj) : P unit :=
  match po_metadata obj with
  | None => throw (Failed RequireMetadata)
  | Some meta =>
      let! oid := required (om_object_id meta) in
      call_zenoh (object_path meta oid [bs "set"]) (Some (enc_obj w obj)) (λ _, Ok tt)
  end.

Definition del_obj (meta : ObjMeta) : P unit :=
  let! object_id := required (om_object_id meta) in λ z,
  match z_delete (object_path meta object_id []) z with
  | (SElapsed, z) => (Err Elapsed, z)
  | (SFailed e, z) => (Err (Failed (NoQueryable e)), z)
  | (SDone, z) => (Ok tt, z)
  end.

Definition batch_set_entries (req : BatchSetValuesRequest) : P unit :=
  let! segment := required (object_id (bs_ref req)) in
  call_zenoh (path (cls_id (bs_ref req)) (partition_id (bs_ref req))
                [bs "objects"; segment; bs "batch-set"])
    (Some (enc_batch w req)) (λ b, decoded (dec_empty w b)).

Definition list_objects (cls : bytes) (pid : BinNums.Z) (prefix : option bytes)
    (limit : option nat) (cursor : option bytes) : P (list ObjectMetaEnvelope) :=
  let req := {| lo_cls_id := cls; lo_partition_id := pid; lo_prefix := prefix;
                lo_limit := default 100 limit; lo_cursor := cursor |} in
  call_zenoh_collect (path cls pid [bs "objects"; bs "list-objects"]) (Some (enc_list w req))
    (λ b, decoded (dec_envelope w b)).

Definition get_entry (meta : ObjMeta) (key : bytes) : P (option ValueResponse) :=
  let! segment := required (om_object_id meta) in
  or_none (call_zenoh (object_path meta segment [bs "entries"; key]) None
             (λ b, decoded (dec_value w b))).

Definition response (b : bytes) : res ProxyError InvocationResponse := decoded (dec_response w b).

Definition invoke_fn (cls : bytes) (pid : BinNums.Z) (fn_id payload : bytes) : P InvocationResponse :=
  let req := {| ir_partition_id := 0; ir_cls_id := cls; ir_fn_id := fn_id; ir_options := ∅;
                ir_payload := payload |} in
  call_zenoh (path cls pid [bs "invokes"; fn_id]) (Some (enc_invocation w req)) response.

Definition invoke_fn_with_req (req : InvocationRequest) : P InvocationResponse :=
  call_zenoh (path (ir_cls_id req) (ir_partition_id req) [bs "invokes"; ir_fn_id req])
    (Some (enc_invocation w req)) response.

(** The payload is read from both kinds of replies. *)
Definition raw_response (r : ZReply) : P InvocationResponse :=
  failed (response (match r with RSample b | RError b => b end)).

Definition invoke_fn_raw (key : bytes) (req : InvocationRequest) : P InvocationResponse :=
  let! r := call_zenoh_raw key (enc_invocation w req) in raw_response r.

Definition invoke_object_fn (meta : ObjMeta) (fn_name payload : bytes) : P InvocationResponse :=
  let! segment := required (om_object_id meta) in
  let req := {| oi_partition_id := om_partition_id meta; oi_cls_id := om_cls_id meta;
                oi_fn_id := fn_name; oi_options := ∅; oi_payload := payload;
                oi_object_id := om_object_id meta |} in
  call_zenoh (object_path meta segment [bs "invokes"; fn_name])
    (Some (enc_obj_invocation w req)) response.

Definition invocation_path (req : ObjectInvocationRequest) (segment : bytes) : bytes :=
  path (oi_cls_id req) (oi_partition_id req)
    [bs "objects"; segment; bs "invokes"; oi_fn_id req].

Definition invoke_obj_with_req (req : ObjectInvocationRequest) : P InvocationResponse :=
  let! segment := required (oi_object_id req) in
  call_zenoh (invocation_path req segment) (Some (enc_obj_invocation w req)) response.

Definition invoke_obj_fn_raw (req : ObjectInvocationRequest) : P InvocationResponse :=
  let! segment := required (oi_object_id req) in
  let key := invocation_path req segment in
  if z_valid_key (Z := Z) key then
    let! r := call_zenoh_raw key (enc_obj_invocation w req) in raw_response r
  else throw (Failed KeyErr).
End proxy.
End Proxy.

(** ** Errors *)

Inductive GrpcCode : Type :=
| GNotFound | GInvalidArgument | GDeadlineExceeded | GUnavailable | GUnknown | GInternal
| GUnimplemented.

Record GrpcStatus := { gs_code : GrpcCode; gs_message : bytes }.

Inductive ParseIdError : Type :=
| InvalidFormat | PartitionIdDecodeError | ObjectIdDecodeError | InvalidPartitionIdLength
| InvalidObjectIdLength.

Inductive GatewayError : Type :=
| GGrpcError (s : GrpcStatus)
| GParseIdError (e : ParseIdError)
| InvalidObjectId (msg : bytes)
| GInvalidUrl (msg : bytes)
| InvalidProtobuf (msg : bytes)
| GNoCls (cls : bytes)
| GNoObj (cls : bytes) (pid oid : BinNums.Z)
| NoObjStr (cls : bytes) (pid : BinNums.Z) (oid : bytes)
| GNoFunc (cls func : bytes)
| GNoPartition (cls : bytes) (pid : BinNums.Z)
| GProxyError (e : ProxyError)
| UnknownError (msg : bytes).

(** An HTTP answer: the content type is that of the body's type unless it is set. *)
Record HttpAnswer := { ha_status : BinNums.Z; ha_content_type : bytes; ha_body : bytes }.

Module Errors.
Section errors.
(** The [Display] of a status and of a JSON error body are those of their libraries. *)
Context (status_text : GrpcStatus → bytes) (json_error : bytes → bytes → bytes).

Definition proxy_text (e : ProxyError) : bytes :=
  match e with
  | NoQueryable m => bs "No queryable object found: " ++ m
  | RetrieveReplyErr m => bs "Failed to retrieve reply: " ++ m
  | ReplyError => bs "Got reply with error"
  | DecodeError m => bs "decode error: " ++ m
  | RequireMetadata => bs "Require metadata"
  | KeyErr => bs "Key error"
  end.

Definition proxy_status (e : ProxyError) : GrpcStatus :=
  match e with
  | NoQueryable m => {| gs_code := GNotFound; gs_message := bs "No queryable object found: " ++ m |}
  | RetrieveReplyErr m =>
      {| gs_code := GInternal; gs_message := bs "Failed to retrieve reply: " ++ m |}
  | ReplyError => {| gs_code := GInternal; gs_message := bs "Got reply with error" |}
  | DecodeError m => {| gs_code := GInternal; gs_message := bs "Decode error: " ++ m |}
  | RequireMetadata => {| gs_code := GInvalidArgument; gs_message := bs "Require metadata" |}
  | KeyErr => {| gs_code := GInternal; gs_message := bs "Key error" |}
  end.

Definition parse_text (e : ParseIdError) : bytes :=
  match e with
  | InvalidFormat => bs "Invalid format. Expected '<partition_id>:<object_id>'."
  | PartitionIdDecodeError => bs "Failed to decode base32 partition_id."
  | ObjectIdDecodeError => bs "Failed to decode base32 object_id."
  | InvalidPartitionIdLength => bs "Invalid partition_id length. Expected 2 bytes."
  | InvalidObjectIdLength => bs "Invalid object_id length. Expected 8 bytes."
  end.

Definition text (e : GatewayError) : bytes :=
  match e with
  | GGrpcError s => bs "gRPC error: " ++ status_text s
  | GParseIdError e => bs "Parse ID error: " ++ parse_text e
  | InvalidObjectId m => bs "Invalid object id: " ++ m
  | GInvalidUrl m => bs "Uri parsing error: " ++ m
  | InvalidProtobuf m => bs "Invalid protobuf: " ++ m
  | GNoCls c => bs "No class " ++ c ++ bs " exists"
  | GNoObj c p o => bs "No object exists in " ++ c ++ bs " with partition " ++ Proxy.decimal p
                    ++ bs " and id " ++ Proxy.decimal o
  | NoObjStr c p o => bs "No object exists in " ++ c ++ bs " with partition " ++ Proxy.decimal p
                      ++ bs " and string id " ++ o
  | GNoFunc c f => bs "No func " ++ f ++ bs " on class " ++ c ++ bs " exists"
  | GNoPartition c p => bs "No partition " ++ Proxy.decimal p ++ bs " on class " ++ c ++ bs " exists"
  | GProxyError e => bs "Proxy error: " ++ proxy_text e
  | UnknownError m => bs "Error: " ++ m
  end.

Definition gateway_status (e : GatewayError) : GrpcStatus :=
  match e with
  | GNoCls _ | GNoFunc _ _ => {| gs_code := GNotFound; gs_message := bs "not found class" |}
  | NoObjStr _ _ _ => {| gs_code := GNotFound; gs_message := bs "not found object" |}
  | GGrpcError s => s
  | InvalidObjectId m => {| gs_code := GInvalidArgument; gs_message := m |}
  | e => {| gs_code := GUnknown; gs_message := text e |}
  end.

Definition http_status (e : GatewayError) : BinNums.Z :=
  match e with
  | GParseIdError _ | GInvalidUrl _ | InvalidObjectId _ => 400
  | InvalidProtobuf _ => 422
  | GNoCls _ | GNoFunc _ _ | GNoPartition _ _ | GNoObj _ _ _ | NoObjStr _ _ _ => 404
  | GProxyError (NoQueryable _) => 404
  | GProxyError (RetrieveReplyErr _) | GProxyError ReplyError => 502
  | GProxyError (DecodeError _) => 422
  | GProxyError RequireMetadata | GProxyError KeyErr => 400
  | GGrpcError s =>
      match gs_code s with
      | GNotFound => 404
      | GInvalidArgument => 400
      | GDeadlineExceeded => 504
      | _ => 502
      end
  | UnknownError _ => 502
  end.

Definition message (e : GatewayError) : bytes :=
  match e with GGrpcError s => status_text s | e => text e end.

Definition code_str (e : GatewayError) : bytes :=
  bs match e with
     | GParseIdError _ => "PARSE_ID_ERROR"
     | GInvalidUrl _ => "INVALID_URL"
     | InvalidProtobuf _ => "INVALID_PROtobuf"
     | InvalidObjectId _ => "INVALID_OBJECT_ID"
     | GNoCls _ => "NO_CLASS"
     | GNoObj _ _ _ | NoObjStr _ _ _ => "NO_OBJECT"
     | GNoFunc _ _ => "NO_FUNCTION"
     | GNoPartition _ _ => "NO_PARTITION"
     | GProxyError (NoQueryable _) => "NO_QUERYABLE"
     | GProxyError (RetrieveReplyErr _) => "ZENOH_RETRIEVE_ERR"
     | GProxyError ReplyError => "ZENOH_REPLY_ERR"
     | GProxyError (DecodeError _) => "DECODE_ERROR"
     | GProxyError RequireMetadata => "REQUIRE_METADATA"
     | GProxyError KeyErr => "KEY_ERROR"
     | GGrpcError s =>
         match gs_code s with
         | GNotFound => "NOT_FOUND"
         | GInvalidArgument => "INVALID_ARGUMENT"
         | GDeadlineExceeded => "DEADLINE_EXCEEDED"
         | GUnavailable => "UNAVAILABLE"
         | _ => "GRPC_ERROR"
         end
     | UnknownError _ => "UNKNOWN"
     end.

Definition into_response (e : GatewayError) : HttpAnswer :=
  {| ha_status := http_status e; ha_content_type := bs "application/json";
     ha_body := json_error (code_str e) (message e) |}.
End errors.
End Errors.

(** ** REST *)

(** The session and the counters of identifiers seen and rejected. *)
Record GwState (Z : Type) := { gw_session : Z; gw_attempt : nat; gw_rejected : nat }.
Arguments gw_session {Z} _.
Arguments gw_attempt {Z} _.
Arguments gw_rejected {Z} _.

(** The headers that are looked at, when their values are text. *)
Record Headers := { h_accept : option bytes; h_content_type : option bytes }.

Record InvokeObjectPath := { iop_cls : bytes; iop_pid : BinNums.Z; iop_oid : bytes; iop_func : bytes }.
Record ObjectPath := { op_cls : bytes; op_pid : BinNums.Z; op_oid : bytes }.
Record InvokeFunctionPath := { ifp_cls : bytes; ifp_pid : bytes; ifp_func : bytes }.
Record ListObjectsPath := { lp_cls : bytes; lp_pid : BinNums.Z }.
Record ListObjectsQuery := { lq_prefix : option bytes; lq_limit : option nat; lq_cursor : option bytes }.
Record ObjectListItem := { li_object_id : bytes; li_version : BinNums.Z; li_entry_count : BinNums.Z }.
Record ListObjectsResponse := { lr_objects : list ObjectListItem; lr_next_cursor : option bytes }.

(** The libraries of the gateway: JSON of objects, base64 of cursors, the values allowed in a
    header, and the headers of the current trace. *)
Record GwLibs := {
  json_of : ProtoObj → bytes + bytes;
  json_obj : bytes → bytes + ProtoObj;
  b64_encode : bytes → bytes;
  b64_decode : bytes → bytes + bytes;
  header_value : bytes → bool;
  trace_headers : list (bytes * bytes);
}.

Module Rest.
Section rest.
Context {Z : Type} `{!ZSession Z} (w : Wire) (lib : GwLibs) (retries : nat).

Notation state := (GwState Z).
Notation G A := (M state GatewayError A).

Definition set_session (z : Z) (s : state) : state :=
  {| gw_session := z; gw_attempt := gw_attempt s; gw_rejected := gw_rejected s |}.
Definition inc_attempt (s : state) : state :=
  {| gw_session := gw_session s; gw_attempt := S (gw_attempt s); gw_rejected := gw_rejected s |}.
Definition inc_rejected (s : state) : state :=
  {| gw_session := gw_session s; gw_attempt := gw_attempt s; gw_rejected := S (gw_rejected s) |}.

Definition on_proxy {A} (c : M Z CallError A) : M state CallError A :=
  zoom gw_session set_session c.

Definition timeout_error : GatewayError :=
  GGrpcError {| gs_code := GDeadlineExceeded; gs_message := bs "timeout" |}.

(** The loop of every handler: [more] more calls may be made, the next one when the channel
    of the replies closed without any and retries are left. *)
Fixpoint retrying {B A} (more : nat) (check : G B) (call : B → M state CallError A) : G A :=
  let! b := check in
  let! r := tried (call b) in
  match r with
  | inr a => ret a
  | inl Elapsed => throw timeout_error
  | inl (Failed (RetrieveReplyErr m)) =>
      match more with
      | S more => retrying more check call
      | O => throw (GProxyError (RetrieveReplyErr m))
      end
  | inl (Failed e) => throw (GProxyError e)
  end.

Definition rejected {A} (msg : string) : G A :=
  modify inc_rejected ;;; throw (InvalidObjectId (bs msg)).

Definition checked_id (oid : bytes) : G bytes :=
  modify inc_attempt ;;;
  let norm := to_ascii_lowercase oid in
  if bool_decide (norm = []) then rejected "empty object id"
  else if (160 <? length norm) then rejected "object id too long"
  else if negb (forallb valid_char norm) then rejected "invalid characters in object id"
  else ret norm.

Definition octets (body : bytes) : HttpAnswer :=
  {| ha_status := 200; ha_content_type := bs "application/octet-stream"; ha_body := body |}.
Definition with_type (ct : bytes) (a : HttpAnswer) : HttpAnswer :=
  {| ha_status := ha_status a; ha_content_type := ct; ha_body := ha_body a |}.

(** [accept.contains("application/json")] *)
Fixpoint contains (sub s : bytes) : bool :=
  bool_decide (take (length sub) s = sub) ||
  match s with [] => false | _ :: s => contains sub s end.

(** The options of a request: the headers of the client and the trace. *)
Definition request_options (h : Headers) : gmap bytes bytes :=
  let o := match h_accept h with Some a => {[bs "accept" := a]} | None => ∅ end in
  let o := match h_content_type h with Some ct => <[bs "content-type" := ct]> o | None => o end in
  foldl (λ o kv, <[kv.1 := kv.2]> o) o (trace_headers lib).

Definition invoke_answer (h : Headers) (resp : InvocationResponse) : HttpAnswer :=
  let out := octets (default [] (iv_payload resp)) in
  match iv_headers resp !! bs "content-type" with
  | Some ct => if header_value lib ct then with_type ct out else out
  | None =>
      match h_accept h with
      | Some accept =>
          with_type (if contains (bs "application/json") accept then bs "application/json"
                     else bs "application/octet-stream") out
      | None => out
      end
  end.

Definition invoke_fn (p : InvokeFunctionPath) (h : Headers) (body : bytes) : G HttpAnswer :=
  let req := {| ir_partition_id := 0; ir_cls_id := ifp_cls p; ir_fn_id := ifp_func p;
                ir_options := request_options h; ir_payload := body |} in
  let! resp := retrying retries (ret tt) (λ _, on_proxy (Proxy.invoke_fn_with_req w req)) in
  ret (invoke_answer h resp).

Definition invoke_obj (p : InvokeObjectPath) (h : Headers) (body : bytes) : G HttpAnswer :=
  let! object_id := checked_id (iop_oid p) in
  let req := {| oi_partition_id := iop_pid p; oi_cls_id := iop_cls p; oi_fn_id := iop_func p;
                oi_options := request_options h; oi_payload := body;
                oi_object_id := Some object_id |} in
  let! resp := retrying retries (ret tt) (λ _, on_proxy (Proxy.invoke_obj_with_req w req)) in
  ret (invoke_answer h resp).

Definition meta_of_path (p : ObjectPath) (object_id : bytes) : ObjMeta :=
  {| om_cls_id := op_cls p; om_partition_id := op_pid p; om_object_id := Some object_id |}.

Definition object_answer (h : Headers) (o : ProtoObj) : HttpAnswer :=
  if contains (bs "application/json") (default [] (h_accept h)) then
    match json_of lib o with
    | inr body => with_type (bs "application/json") (octets body)
    | inl e => {| ha_status := 500; ha_content_type := bs "text/plain; charset=utf-8"; ha_body := e |}
    end
  else with_type (bs "application/x-protobuf") (octets (enc_obj w o)).

(** The identifier is checked again for every attempt. *)
Definition get_obj (p : ObjectPath) (h : Headers) : G HttpAnswer :=
  let! obj := retrying retries (checked_id (op_oid p))
                (λ id, on_proxy (Proxy.get_obj w (meta_of_path p id))) in
  match obj with
  | Some o =>
      match po_metadata o with
      | None => throw (NoObjStr (op_cls p) (op_pid p) (op_oid p))
      | Some _ => ret (object_answer h o)
      end
  | None => throw (NoObjStr (op_cls p) (op_pid p) (op_oid p))
  end.

Definition starts_with (prefix s : bytes) : bool := bool_decide (take (length prefix) s = prefix).

Definition body_object (h : Headers) (body : bytes) : res GatewayError ProtoObj :=
  let content_type := default (bs "application/x-protobuf") (h_content_type h) in
  if starts_with (bs "application/json") content_type then
    match json_obj lib body with inr o => Ok o | inl e => Err (UnknownError e) end
  else if starts_with (bs "application/x-protobuf") content_type
          || starts_with (bs "application/octet-stream") content_type then
    match dec_obj w body with inr o => Ok o | inl e => Err (InvalidProtobuf e) end
  else Err (UnknownError (bs "unsupported content-type: " ++ content_type)).

Definition put_obj (p : ObjectPath) (h : Headers) (body : bytes) : G unit :=
  let! object_id := checked_id (op_oid p) in
  let! obj := lift_res (body_object h body) in
  let obj := {| po_metadata := Some (meta_of_path p object_id); po_data := po_data obj |} in
  retrying retries (ret tt) (λ _, on_proxy (Proxy.set_obj w obj)).

(** The answer is the status. *)
Definition del_obj (p : ObjectPath) : G BinNums.Z :=
  let! object_id := checked_id (op_oid p) in
  retrying retries (ret tt) (λ _, on_proxy (Proxy.del_obj (meta_of_path p object_id))) ;;;
  ret 204%Z.

(** The items of a listing and the last cursor that is not empty. *)
Definition list_response (envelopes : list ObjectMetaEnvelope) : ListObjectsResponse :=
  {| lr_objects := omap (λ e, if bool_decide (oe_object_id e = []) then None
       else Some {| li_object_id := oe_object_id e; li_version := oe_version e;
                    li_entry_count := oe_entry_count e |}) envelopes;
     lr_next_cursor := foldl (λ c e, match oe_next_cursor e with
                                     | Some (b :: l) => Some (b64_encode lib (b :: l))
                                     | _ => c
                                     end) None envelopes |}.

Definition list_objects (p : ListObjectsPath) (q : ListObjectsQuery) : G ListObjectsResponse :=
  let! cursor :=
    match lq_cursor q with
    | Some c => match b64_decode lib c with
                | inr b => ret (Some b)
                | inl e => throw (UnknownError (bs "invalid cursor encoding: " ++ e))
                end
    | None => ret None
    end in
  let limit := Nat.min (default 100 (lq_limit q)) 1000 in
  let! envelopes := retrying retries (ret tt) (λ _,
    on_proxy (Proxy.list_objects w (lp_cls p) (lp_pid p) (lq_prefix q) (Some limit) cursor)) in
  ret (list_response envelopes).
End rest.
End Rest.

(** ** gRPC *)

Module GrpcGateway.
Section grpc.
Context {Z : Type} `{!ZSession Z} (w : Wire).

Notation S A := (M Z GrpcStatus A).

Definition status_of (e : CallError) : GrpcStatus :=
  match e with
  | Elapsed => {| gs_code := GDeadlineExceeded; gs_message := bs "timeout" |}
  | Failed e => Errors.proxy_status e
  end.
Definition called {A} (c : M Z CallError A) : S A := map_err status_of c.

Definition invoke_fn (req : InvocationRequest) : S InvocationResponse :=
  called (Proxy.invoke_fn_with_req w req).
Definition invoke_obj (req : ObjectInvocationRequest) : S InvocationResponse :=
  called (Proxy.invoke_obj_with_req w req).

Definition meta_of_ref (r : ObjectRef) : ObjMeta :=
  {| om_cls_id := cls_id r; om_partition_id := partition_id r; om_object_id := object_id r |}.

Definition get (r : ObjectRef) : S ProtoObj :=
  let! o := called (Proxy.get_obj w (meta_of_ref r)) in
  match o with
  | Some o => ret o
  | None => throw {| gs_code := GNotFound; gs_message := bs "object not found" |}
  end.
Definition delete (r : ObjectRef) : S unit := called (Proxy.del_obj (meta_of_ref r)).

Definition empty_object : ObjData := {| od_entries := []; od_event := None |}.
Definition as_u32 (z : BinNums.Z) : BinNums.Z := (z mod 2 ^ 32)%Z.

(** The partition of this request is an [i32]. *)
Definition set (q : SetObjectRequest) : S unit :=
  let r := so_ref q in
  called (Proxy.set_obj w
    {| po_metadata := Some {| om_cls_id := cls_id r; om_partition_id := as_u32 (partition_id r);
                              om_object_id := object_id r |};
       po_data := default empty_object (so_object q) |}).

Definition unimplemented (msg : string) : GrpcStatus :=
  {| gs_code := GUnimplemented; gs_message := bs msg |}.
Definition granular : string :=
  "granular storage APIs not supported by gateway (use direct ODGM access)".

Definition merge (_ : SetObjectRequest) : S ProtoObj :=
  throw (unimplemented "merge not supported by gateway").
Definition get_value (_ : SingleKeyRequest) : S ValueResponse :=
  throw (unimplemented "get_value not supported by gateway").
Definition set_value (_ : SetKeyRequest) : S unit :=
  throw (unimplemented "set_value not supported by gateway").
Definition stats : S (list ShardStats) := throw (unimplemented "stats not supported by gateway").
Definition capabilities : S CapabilitiesResponse :=
  ret {| string_ids := true; string_entry_keys := true; granular_entry_storage := false;
         event_pipeline_v2 := false |}.
Definition delete_value (_ : SingleKeyRequest) : S unit := throw (unimplemented granular).
Definition batch_set_values (_ : BatchSetValuesRequest) : S unit := throw (unimplemented granular).
Definition list_values (_ : ListValuesRequest) : S (list ValueEnvelope) :=
  throw (unimplemented granular).

Definition list_objects (q : ListObjectsRequest) : S (list ObjectMetaEnvelope) :=
  called (Proxy.list_objects w (lo_cls_id q) (as_u16 (lo_partition_id q)) (lo_prefix q)
            (if 0 <? lo_limit q then Some (lo_limit q) else None) (lo_cursor q)).
End grpc.
End GrpcGateway.

(** ** Lemmas and theorems *)

Section theorems.
Context {Z : Type} `{!ZSession Z} (w : Wire) (lib : GwLibs).
Implicit Types s : GwState Z.

(** The gateway accepts exactly the identifiers that the data grid accepts with its default bound
    of 160 characters, and turns them into the same normal form. *)
Theorem gateway_ids_agree raw s :
  Rest.checked_id raw s
  = match normalize_object_id raw 160 with
    | Ok id => (Ok id, Rest.inc_attempt s)
    | Err e => (Err (InvalidObjectId (bs match e with
                 | Empty => "empty object id"
                 | Length _ _ => "object id too long"
                 | _ => "invalid characters in object id"
                 end)), Rest.inc_rejected (Rest.inc_attempt s))
    | Panic p => (Panic p, s)
    end.
Proof.
  unfold Rest.checked_id, normalize_object_id, bind, modify, Rest.rejected, throw, ret.
  destruct raw as [|b raw]; [done|]. rewrite !bool_decide_false by done.
  set (lc := to_ascii_lowercase (b :: raw)). destruct (160 <? length lc); [done|].
  unfold valid_chars. rewrite bool_decide_true by done. cbn [andb].
  by destruct (forallb valid_char lc).
Qed.

Lemma checked_id_ok raw id s : normalize_object_id raw 160 = Ok id →
  Rest.checked_id raw s = (Ok id, Rest.inc_attempt s).
Proof. intros E. by rewrite gateway_ids_agree, E. Qed.

(** One round of a handler's loop that ends without any reply. *)
Definition no_reply {B A} (check : M (GwState Z) GatewayError B)
    (call : B → M (GwState Z) CallError A) s s' : Prop :=
  ∃ b s1 m, check s = (Ok b, s1) ∧ call b s1 = (Err (Failed (RetrieveReplyErr m)), s').

Section rounds.
Context {B A : Type} (check : M (GwState Z) GatewayError B).
Context (call : B → M (GwState Z) CallError A).

Lemma retrying_again n s s' : no_reply check call s s' →
  Rest.retrying (S n) check call s = Rest.retrying n check call s'.
Proof. intros (b & s1 & m & Hb & Hl). cbn. unfold bind, tried. by rewrite Hb, Hl. Qed.

Lemma retrying_ok n s b s1 a s2 : check s = (Ok b, s1) → call b s1 = (Ok a, s2) →
  Rest.retrying n check call s = (Ok a, s2).
Proof. intros Hb Ha. destruct n; cbn; unfold bind, tried; by rewrite Hb, Ha. Qed.

Lemma retrying_stops s : (∃ s', no_reply check call s s') ∨
  (¬ ∃ s', no_reply check call s s') ∧
  ∀ n, Rest.retrying n check call s = Rest.retrying 0 check call s.
Proof.
  destruct (check s) as [[b|e|p] s1] eqn:Ec;
    [|right; split; [intros (s' & b & ? & m & Hb & _); congruence|];
      intros []; cbn; unfold bind; by rewrite Ec..].
  destruct (call b s1) as [r s2] eqn:El.
  assert ((∃ m, r = Err (Failed (RetrieveReplyErr m))) ∨ ¬ ∃ m, r = Err (Failed (RetrieveReplyErr m)))
    as [[m ->]|Hr] by (destruct r as [a|[|[]]|p]; first [left; by eexists|right; by intros [? ?]]).
  { left. by exists s2, b, s1, m. }
  right. split; [intros (s' & b' & s1' & m & Hb & Hl); apply Hr; exists m; congruence|].
  intros [|n]; [done|]. cbn. unfold bind, tried. rewrite Ec, El.
  destruct r as [a|[|[]]|p]; try done. exfalso. eauto.
Qed.
End rounds.

(** A handler sends its query again only after the channel of the replies closed without one, and
    at most as often as it is told: its outcome is that of one last round after at most [n]
    rounds without a reply. *)
Theorem retries_bounded {B A} n (check : M (GwState Z) GatewayError B)
    (call : B → M (GwState Z) CallError A) s :
  ∃ k s', k ≤ n ∧ nsteps (no_reply check call) k s s' ∧
    Rest.retrying n check call s = Rest.retrying 0 check call s' ∧
    (k < n → ¬ ∃ s'', no_reply check call s' s'').
Proof.
  revert s. induction n as [|n IH]; intros s.
  { exists 0, s. split; [lia|]. split; [constructor|]. split; [done|lia]. }
  destruct (retrying_stops check call s) as [[s1 H1]|[Hn E]].
  - destruct (IH s1) as (k & s' & Hk & Hs & Er & Hlast). exists (S k), s'.
    split; [lia|]. split; [by econstructor|]. rewrite (retrying_again _ _ _ _ _ H1).
    split; [done|]. intros; apply Hlast; lia.
  - exists 0, s. split; [lia|]. split; [constructor|]. by split; [apply E|].
Qed.
End theorems.
