(* ===== verification/ShardService.v ===== *)
(** * The network service of a shard

    [data-plane/oprc-odgm/src/shard/network/mod.rs] with [start_network] and [close] of
    [shard/object_shard]: the queryables and the subscriber a shard declares, which of them a
    query reaches, and what a client of the gateway sees of a shard that is served. Matching of
    key expressions is Zenoh's, with the documented meaning of [*] and [**]; a session that
    reaches the shard is the class [ShardSession]. *)

From stdpp Require Import base tactics list numbers option gmap sorting strings.
From Stdlib Require Import Lia.
From S2P Require Import Prelude BTree Backend Memory Replication StorageKey GranularKey Identity.
From S2P Require Import Events ObjectData Shard EntryStore ObjectView EntryOps EntryList ObjectShard.
From S2P Require Import ObjectOps ObjectApi DataService ShardNetwork Gateway.

Set Default Proof Using "Type".
Open Scope prog_scope.

(** ** Declarations *)

(** A declared key expression; its handler has the shard if it was attached by then. *)
Record Declared := { dk_key : bytes; dk_attached : bool }.

Record UnifiedShardNetwork := {
  un_prefix : bytes;
  un_running : bool;
  set_subscriber : option Declared;
  set_queryable : option Declared;
  get_queryable : option Declared;
  batch_set_queryable : option Declared;
  list_objects_queryable : option Declared;
  un_shard : bool;
}.

Module Network.
Section network.
(** Declaring a key expression may fail, with this text. *)
Context (declare_error : bytes → option bytes).

Notation N A := (M UnifiedShardNetwork bytes A).

Definition new (prefix : bytes) : UnifiedShardNetwork :=
  {| un_prefix := prefix; un_running := false; set_subscriber := None; set_queryable := None;
     get_queryable := None; batch_set_queryable := None; list_objects_queryable := None;
     un_shard := false |}.

Definition attach_shard (n : UnifiedShardNetwork) : UnifiedShardNetwork :=
  {| un_prefix := un_prefix n; un_running := un_running n; set_subscriber := set_subscriber n;
     set_queryable := set_queryable n; get_queryable := get_queryable n;
     batch_set_queryable := batch_set_queryable n;
     list_objects_queryable := list_objects_queryable n; un_shard := true |}.

(** [ManagedConfig::validate] and the declaration. The batch handler never has the shard. *)
Definition declared (key : bytes) (with_shard : bool) : N Declared := λ n,
  if bool_decide (key = []) then (Err (bs "Configuration error: Key cannot be empty"), n)
  else match declare_error key with
       | Some e => (Err (bs "Zenoh API error: " ++ e), n)
       | None => (Ok {| dk_key := key; dk_attached := with_shard && un_shard n |}, n)
       end.

Definition start_set_subscriber : N unit := λ n,
  (let! d := declared (un_prefix n ++ bs "/*") true in
   modify (λ n, {| un_prefix := un_prefix n; un_running := un_running n; set_subscriber := Some d;
                   set_queryable := set_queryable n; get_queryable := get_queryable n;
                   batch_set_queryable := batch_set_queryable n;
                   list_objects_queryable := list_objects_queryable n; un_shard := un_shard n |})) n.

Definition start_set_queryable : N unit := λ n,
  (let! d := declared (un_prefix n ++ bs "/*/set") true in
   modify (λ n, {| un_prefix := un_prefix n; un_running := un_running n;
                   set_subscriber := set_subscriber n; set_queryable := Some d;
                   get_queryable := get_queryable n;
                   batch_set_queryable := batch_set_queryable n;
                   list_objects_queryable := list_objects_queryable n; un_shard := un_shard n |})) n.

Definition start_get_queryable : N unit := λ n,
  (let! d := declared (un_prefix n ++ bs "/**") true in
   modify (λ n, {| un_prefix := un_prefix n; un_running := un_running n;
                   set_subscriber := set_subscriber n; set_queryable := set_queryable n;
                   get_queryable := Some d; batch_set_queryable := batch_set_queryable n;
                   list_objects_queryable := list_objects_queryable n; un_shard := un_shard n |})) n.

Definition start_batch_set_queryable : N unit := λ n,
  (let! d := declared (un_prefix n ++ bs "/*/batch-set") false in
   modify (λ n, {| un_prefix := un_prefix n; un_running := un_running n;
                   set_subscriber := set_subscriber n; set_queryable := set_queryable n;
                   get_queryable := get_queryable n; batch_set_queryable := Some d;
                   list_objects_queryable := list_objects_queryable n; un_shard := un_shard n |})) n.

Definition start_list_objects_queryable : N unit := λ n,
  (let! d := declared (un_prefix n ++ bs "/list-objects") true in
   modify (λ n, {| un_prefix := un_prefix n; un_running := un_running n;
                   set_subscriber := set_subscriber n; set_queryable := set_queryable n;
                   get_queryable := get_queryable n; batch_set_queryable := batch_set_queryable n;
                   list_objects_queryable := Some d; un_shard := un_shard n |})) n.

(** The token is renewed first. *)
Definition start : N unit :=
  modify (λ n, {| un_prefix := un_prefix n; un_running := true; set_subscriber := set_subscriber n;
                  set_queryable := set_queryable n; get_queryable := get_queryable n;
                  batch_set_queryable := batch_set_queryable n;
                  list_objects_queryable := list_objects_queryable n; un_shard := un_shard n |}) ;;;
  start_set_subscriber ;;;
  start_set_queryable ;;;
  start_get_queryable ;;;
  start_batch_set_queryable ;;;
  start_list_objects_queryable.

(** Everything is undeclared; the token is left as it is. *)
Definition stop (n : UnifiedShardNetwork) : UnifiedShardNetwork :=
  {| un_prefix := un_prefix n; un_running := un_running n; set_subscriber := None;
     set_queryable := None; get_queryable := None; batch_set_queryable := None;
     list_objects_queryable := None; un_shard := un_shard n |}.

Definition is_running (n : UnifiedShardNetwork) : bool := un_running n.

(** The part of [start_network] of a shard that concerns its network. *)
Definition start_network : N unit :=
  modify attach_shard ;;;
  λ n, if is_running n then (Ok tt, n) else start n.
End network.

(** The network that [initialize] of a shard makes. *)
Definition of_shard (collection : bytes) (partition_id : Z) : UnifiedShardNetwork :=
  new (Proxy.path collection partition_id [bs "objects"]).
End Network.

(** ** Serving *)

Inductive Endpoint : Type := EpSet | EpGet | EpBatchSet | EpListObjects.

Section serving.
Context {R : Type} `{Storage R} `{!ReplicationLayer R} `{Codec}.
Context (fuel : nat) (w : Wire) (max_string_id_len : nat) (error_text : NetError → bytes).
(** Whether two key expressions have a key in common. *)
Context (intersects : bytes → bytes → bool).

Definition decoders : Decoders :=
  {| decode_object := λ b, match dec_obj w b with inr o => Some (po_data o) | inl _ => None end;
     decode_batch := λ b, match dec_batch w b with inr o => Some o | inl _ => None end;
     decode_list := λ b, match dec_list w b with inr o => Some o | inl _ => None end |}.

Definition queryables (n : UnifiedShardNetwork) : list (Endpoint * Declared) :=
  omap (λ '(ep, d), (ep,.) <$> d)
    [(EpSet, set_queryable n); (EpGet, get_queryable n); (EpBatchSet, batch_set_queryable n);
     (EpListObjects, list_objects_queryable n)].

(** The queryables a query for this key reaches. *)
Definition matching (n : UnifiedShardNetwork) (key : bytes) : list (Endpoint * Declared) :=
  filter (λ d, intersects (dk_key d.2) key = true) (queryables n).

Definition handle (now : Z) (q : Query) (d : Endpoint * Declared) : M (Shard R) NetError Reply :=
  let attached := dk_attached d.2 in
  match d.1 with
  | EpSet => Net.handle_set decoders max_string_id_len attached now q
  | EpGet => Net.handle_get fuel max_string_id_len attached q
  | EpBatchSet => Net.handle_batch_set decoders max_string_id_len q
  | EpListObjects => Net.handle_list_objects fuel decoders attached q
  end.

Definition object_message (o : ObjectResponse) : ProtoObj :=
  {| po_metadata := Some {| om_cls_id := or_cls_id o; om_partition_id := or_partition_id o;
                            om_object_id := Some (or_object_id o) |};
     po_data := or_data o |}.

Definition replies (r : res NetError Reply) : list ZReply :=
  match r with
  | Ok NoReply => []
  | Ok ReplyEmpty => [RSample (enc_empty w)]
  | Ok (ReplyObject o) => [RSample (enc_obj w (object_message o))]
  | Ok (ReplyValue v) => [RSample (enc_value w v)]
  | Ok (ReplyObjects es) => (λ e, RSample (enc_envelope w e)) <$> es
  | Err e => [RError (error_text e)]
  | Panic _ => []
  end.

(** The handlers of a query, one after the other *)
Fixpoint serve (now : Z) (q : Query) (eps : list (Endpoint * Declared)) (s : Shard R) :
    list ZReply * Shard R :=
  match eps with
  | [] => ([], s)
  | ep :: eps =>
      let '(r, s) := handle now q ep s in
      let '(l, s) := serve now q eps s in
      (replies r ++ l, s)
  end.

Definition plain_query (key : bytes) (p : option bytes) : Query :=
  {| key_expr := key; parameters := λ _, None; payload := p |}.
End serving.

(** ** Key expressions *)

(** A chunk of a key that no wildcard of a key expression is part of *)
Definition reserved : bytes := bs "/*$?#@".
Definition plain_seg (seg : bytes) : Prop := seg ≠ [] ∧ Forall (λ b, b ∉ reserved) seg.

(** The documented meaning of [*], which stands for one chunk, and of a final [**], which stands
    for any number of them. *)
Fixpoint pattern_matches (pats segs : list bytes) : bool :=
  match pats, segs with
  | [], [] => true
  | [], _ :: _ => false
  | p :: pats', [] => bool_decide (p = bs "**") && bool_decide (pats' = [])
  | p :: pats', s :: segs' =>
      if bool_decide (p = bs "**") && bool_decide (pats' = []) then true
      else (bool_decide (p = bs "*") || bool_decide (p = s)) && pattern_matches pats' segs'
  end.

(** What is relied on of Zenoh's key expressions. *)
Class KeyExprs (intersects : bytes → bytes → bool) := {
  ke_law pats segs : Forall no_slash pats → Forall plain_seg segs → segs ≠ [] →
    bs "**" ∉ removelast pats →
    intersects (address pats) (address segs) = pattern_matches pats segs;
}.

Lemma plain_no_slash seg : plain_seg seg → no_slash seg.
Proof.
  intros [Hne Hf]. split; [|done]. intros Hin. rewrite Forall_forall in Hf.
  apply (Hf _ Hin). by left.
Qed.

Lemma slashed_address segs : Proxy.slashed segs = address segs.
Proof.
  destruct segs as [|s segs]; [done|]. simpl.
  assert (∀ acc segs, foldl (λ acc seg, acc ++ bs "/" ++ seg) acc segs
    = acc ++ match segs with [] => [] | _ => Path.slash :: address segs end) as ->.
  { clear. intros acc segs. revert acc. induction segs as [|x segs IH]; intros acc; simpl.
    { by rewrite app_nil_r. }
    rewrite IH, <- !(assoc_L (++)). simpl. by destruct segs; rewrite ?app_nil_r. }
  by destruct segs; rewrite ?app_nil_r.
Qed.

Lemma digit_plain n : Forall (λ b, b ∉ reserved) [digit (n mod 10)].
Proof.
  constructor; [|constructor]. pose proof (Z.mod_pos_bound n 10 ltac:(lia)) as Hb.
  assert ((n mod 10)%Z ∈ [0;1;2;3;4;5;6;7;8;9]%Z) as Hin.
  { rewrite !elem_of_cons. lia. }
  revert Hin. generalize (n mod 10)%Z. intros m Hin.
  repeat (apply elem_of_cons in Hin as [->|Hin]; [decide_now|]). by apply not_elem_of_nil in Hin.
Qed.

Lemma decimal_plain n : plain_seg (Proxy.decimal n).
Proof.
  unfold Proxy.decimal. split.
  - cbn [to_decimal]. by intros []%app_nil.
  - generalize 20. intros f. revert n. induction f as [|f IH]; intros n; [constructor|].
    cbn [to_decimal]. apply Forall_app. split; [|apply digit_plain]. case_match; [constructor|apply IH].
Qed.

Lemma normal_plain max_len id : normal_id max_len id → plain_seg id.
Proof.
  intros (Hne & _ & Hall). split; [done|]. eapply Forall_impl; [exact Hall|].
  intros b Hb Hin. simpl in Hb.
  repeat (apply elem_of_cons in Hin as [->|Hin]; [vm_compute in Hb; discriminate|]).
  by apply not_elem_of_nil in Hin.
Qed.

(** ** Sessions that reach a shard *)

Section sessions.
Context {R : Type} `{StorageLaws R} `{!ReplicationLayer R} `{!ReplicationLaws R}.
Context `{CodecLaws}.
Context (fuel : nat) (w : Wire) (max_len : nat) (error_text : NetError → bytes).
Context (intersects : bytes → bytes → bool) `{!KeyExprs intersects}.
Implicit Types s : Shard R.

(** A session that is connected to the node of a shard: a query is answered by the handlers of
    the queryables that match, in any order. *)
Class ShardSession (Z : Type) `{!ZSession Z} (n : UnifiedShardNetwork) := {
  shard_at : Z → Shard R;
  connected : Z → Prop;
  law_query all key p z : connected z → ∃ eps now z',
    let r := serve fuel w max_len error_text now (plain_query key p) eps (shard_at z) in
    eps ≡ₚ matching intersects n key ∧
    z_query all key p z = (ZReplies r.1, z') ∧ shard_at z' = r.2 ∧ connected z';
}.

(** The address of an object of a partition *)
Definition prefix_of (cls : bytes) (pid : BinNums.Z) : list bytes :=
  [bs "oprc"; cls; Proxy.decimal pid].
Definition object_key (cls : bytes) (pid : BinNums.Z) (tail : list bytes) : bytes :=
  address (prefix_of cls pid ++ bs "objects" :: tail).

Lemma path_key cls pid tail : Proxy.path cls pid (bs "objects" :: tail) = object_key cls pid tail.
Proof. unfold Proxy.path. by rewrite slashed_address. Qed.

(** The network of a shard after it was started *)
Definition serving (cls : bytes) (pid : BinNums.Z) (n : UnifiedShardNetwork) : Prop :=
  Network.start_network (λ _, None) (Network.of_shard cls pid) = (Ok tt, n).

Definition pattern (cls : bytes) (pid : BinNums.Z) (tail : list bytes) : bytes :=
  address (prefix_of cls pid ++ bs "objects" :: tail).

Lemma address_snoc segs tail : segs ≠ [] → address (segs ++ tail)
  = address segs ++ match tail with [] => [] | _ => Path.slash :: address tail end.
Proof.
  intros Hne. induction segs as [|x [|y segs] IH]; [done| |].
  - destruct tail; simpl; [by rewrite app_nil_r|done].
  - change (address ((x :: y :: segs) ++ tail)) with (x ++ Path.slash :: address ((y :: segs) ++ tail)).
    rewrite IH by done. change (address (x :: y :: segs)) with (x ++ Path.slash :: address (y :: segs)).
    by rewrite <- app_assoc.
Qed.

Lemma serving_queryables cls pid n : serving cls pid n →
  queryables n =
    [(EpSet, {| dk_key := pattern cls pid [bs "*"; bs "set"]; dk_attached := true |});
     (EpGet, {| dk_key := pattern cls pid [bs "**"]; dk_attached := true |});
     (EpBatchSet, {| dk_key := pattern cls pid [bs "*"; bs "batch-set"]; dk_attached := false |});
     (EpListObjects, {| dk_key := pattern cls pid [bs "list-objects"]; dk_attached := true |})].
Proof.
  unfold serving, Network.of_shard. rewrite path_key.
  assert (∀ tail, tail ≠ [] → pattern cls pid tail = object_key cls pid [] ++ Path.slash :: address tail) as Hp.
  { intros tail Ht. unfold pattern, object_key.
    change (prefix_of cls pid ++ bs "objects" :: tail)
      with ((prefix_of cls pid ++ [bs "objects"]) ++ tail).
    rewrite address_snoc by done. by destruct tail. }
  assert (∀ x, bool_decide (object_key cls pid [] ++ x = []) = false) as Hb.
  { intros x. apply bool_decide_false. unfold object_key. simpl. done. }
  revert Hp Hb. generalize (object_key cls pid []). intros o Hp Hb.
  unfold Network.start_network, Network.new, bind at 1, modify at 1, Network.is_running. simpl.
  unfold Network.start, Network.start_set_subscriber, Network.start_set_queryable,
    Network.start_get_queryable, Network.start_batch_set_queryable,
    Network.start_list_objects_queryable, Network.declared, bind, modify. simpl.
  repeat (rewrite Hb; simpl).
  intros [= <-]. unfold queryables. simpl. by rewrite !Hp.
Qed.

Lemma prefix_plain cls pid : plain_seg cls → Forall plain_seg (prefix_of cls pid ++ [bs "objects"]).
Proof.
  intros Hc. repeat constructor; try apply decimal_plain; try apply Hc; decide_now.
Qed.

Lemma pattern_under pre p pats segs :
  pattern_matches (pre ++ p :: pats) (pre ++ segs) = pattern_matches (p :: pats) segs.
Proof.
  induction pre as [|x pre IH]; [done|]. rewrite <- IH. simpl app. cbn [pattern_matches].
  rewrite (bool_decide_false (pre ++ p :: pats = [])) by (by destruct pre).
  by rewrite andb_false_r, (bool_decide_true (x = x)), orb_true_r by done.
Qed.

(** What is declared under the prefix for an endpoint *)
Definition tail_of (ep : Endpoint) : list bytes :=
  match ep with
  | EpSet => [bs "*"; bs "set"]
  | EpGet => [bs "**"]
  | EpBatchSet => [bs "*"; bs "batch-set"]
  | EpListObjects => [bs "list-objects"]
  end.
Definition endpoint (cls : bytes) (pid : BinNums.Z) (ep : Endpoint) : Endpoint * Declared :=
  (ep, {| dk_key := pattern cls pid (tail_of ep);
          dk_attached := match ep with EpBatchSet => false | _ => true end |}).

Lemma tail_matches cls pid ep segs : plain_seg cls → Forall plain_seg segs →
  intersects (pattern cls pid (tail_of ep)) (object_key cls pid segs) = pattern_matches (tail_of ep) segs.
Proof using Type*.
  intros Hc Hs. pose proof (prefix_plain cls pid Hc) as Hp.
  unfold pattern, object_key.
  change (prefix_of cls pid ++ bs "objects" :: ?t) with ((prefix_of cls pid ++ [bs "objects"]) ++ t).
  set (pre := prefix_of cls pid ++ [bs "objects"]) in *.
  assert (∃ p pats, tail_of ep = p :: pats ∧ Forall no_slash (p :: pats) ∧ bs "**" ∉ removelast (p :: pats))
    as (p & pats & -> & Ht & Hd).
  { destruct ep; do 2 eexists; (split; [reflexivity|]); (split; [|decide_now]);
      repeat (apply Forall_cons_2 || apply Forall_nil_2); (split; [decide_now|done]). }
  rewrite ke_law; [apply pattern_under|..].
  - apply Forall_app. split; [|done]. eapply Forall_impl; [exact Hp|]. apply plain_no_slash.
  - by apply Forall_app.
  - unfold pre. simpl. done.
  - rewrite removelast_app by done. intros [Hin|Hin]%elem_of_app; [|done].
    rewrite Forall_forall in Hp. destruct (Hp _ Hin) as [_ Hr]. rewrite Forall_forall in Hr.
    apply (Hr Byte.x2a); [by left|]. decide_now.
Qed.

(** Which queryables a key of an object reaches *)
Lemma matching_key cls pid n segs : serving cls pid n → plain_seg cls → Forall plain_seg segs →
  matching intersects n (object_key cls pid segs)
  = endpoint cls pid <$> filter (λ ep, pattern_matches (tail_of ep) segs = true)
      [EpSet; EpGet; EpBatchSet; EpListObjects].
Proof using Type*.
  intros Hn Hc Hs. unfold matching.
  rewrite (serving_queryables _ _ _ Hn : _ = endpoint cls pid <$> [EpSet; EpGet; EpBatchSet; EpListObjects]).
  assert (∀ l : list Endpoint, filter (λ d : Endpoint * Declared, intersects (dk_key d.2) (object_key cls pid segs) = true)
      (endpoint cls pid <$> l)
    = endpoint cls pid <$> filter (λ ep, pattern_matches (tail_of ep) segs = true) l) as Hf; [|apply Hf].
  intros l. induction l as [|ep l IH]; [done|]. rewrite fmap_cons, !filter_cons, IH. simpl.
  rewrite tail_matches by done. by destruct (pattern_matches _ _).
Qed.

(** ** Objects *)

(** Identifiers fit a [String]. *)
Hypothesis Hlen : (Z.of_nat max_len < 2 ^ 62)%Z.

(** Identifiers that are not read as something else when they are part of a key *)
Definition addressable (id : bytes) : Prop :=
  normal_id max_len id ∧ Path.parse_u64 id = None ∧
  id ∉ [bs "objects"; bs "get"; bs "set"; bs "batch-set"].

Lemma addressable_ok id : addressable id → obj_ok id.
Proof using Hlen.
  intros (Hn & _). pose proof (normal_id_ok _ _ Hn) as Ho. destruct Hn as (_ & Hl & _).
  split; [done|]. lia.
Qed.

Lemma object_key_parses cls pid id : plain_seg cls → addressable id →
  Path.extract_identity_from_expr (object_key cls pid [id]) max_len = Some (Str id) ∧
  Path.extract_identity_from_expr (object_key cls pid [id; bs "set"]) max_len = Some (Str id) ∧
  Path.parse_entry_request (object_key cls pid [id]) max_len = None ∧
  Path.parse_entry_request (object_key cls pid [id; bs "set"]) max_len = None.
Proof.
  intros Hc (Hn & Hu & Hv).
  pose proof (prefix_plain cls pid Hc) as [Hp _]%Forall_app.
  assert (Forall no_slash (prefix_of cls pid)) as Hpre.
  { eapply Forall_impl; [exact Hp|]. apply plain_no_slash. }
  assert (normalize_object_id id max_len = Ok id) as Hid.
  { apply normalize_ok_iff. split; [|done]. destruct Hn as (_ & _ & Hall).
    unfold to_ascii_lowercase. symmetry. rewrite <- (list_fmap_id id) at 2.
    apply list_fmap_ext. intros i b Hb. apply lower_valid. by eapply Forall_lookup_1 in Hall. }
  destruct (addresses_parse max_len (prefix_of cls pid) Hpre id id (bs "k")
    (plain_no_slash _ (normal_plain _ _ Hn)) ltac:(split; [decide_now|done]) Hu Hid Hv ltac:(done))
    as (E1 & E2 & _ & _ & E3 & E4).
  by split_and!.
Qed.

Definition accepted_object (o : ObjData) : Prop :=
  od_entries o ≠ [] ∧ bt_wf (od_entries o) ∧ Forall key_ok (od_entries o).*1.

(** The state of the shard after the object was set *)
Definition object_set s (id : bytes) (o : ObjData) s' : Prop :=
  shard_inv s' ∧ same_config s s' ∧
  obj_update (sh_contents s) (sh_contents s') id
    (override (Obj.map_vals from_val_data (od_entries o)) (entry_of (sh_contents s) id))
    (Some (ObjectMeta.increment_version (meta_or_new (sh_contents s) id)))
    (set_event (od_event o) (event_of (sh_contents s) id)).

Lemma set_handler cls pid id p o now s :
  shard_inv s → plain_seg cls → addressable id → dec_obj w p = inr o → accepted_object (po_data o) →
  ∃ s', handle fuel w max_len now (plain_query (object_key cls pid [id; bs "set"]) (Some p))
          (endpoint cls pid EpSet) s = (Ok ReplyEmpty, s') ∧ object_set s id (po_data o) s'.
Proof using All.
  intros Hinv Hc Hid Hp (Hne & Hw & Hk).
  destruct (object_key_parses cls pid id Hc Hid) as (_ & E & _).
  pose proof (addressable_ok id Hid) as Hi.
  set (obj := Obj.from_data now (po_data o)).
  assert (Hk1 : (entries obj).*1 = (od_entries (po_data o)).*1).
  { unfold obj. simpl. unfold Obj.map_vals. rewrite <- list_fmap_compose. by apply list_fmap_ext. }
  destruct (internal_set_object_ok id obj s Hinv Hi) as (s' & Es & Hinv' & Hcfg & U);
    [by rewrite Hk1|rewrite Hk1; by apply bt_wf_NoDup|unfold obj; simpl; by destruct (od_entries _)|].
  exists s'. split; [|by split_and!].
  unfold handle. simpl. unfold Net.handle_set. simpl. unfold Path.parse_identity_from_query. rewrite E. rewrite Hp.
  unfold Net.shard_call, map_err, Api.upsert_object, bind. fold obj.
  rewrite bool_decide_false by (unfold obj; simpl; by destruct (od_entries _)). simpl Path.object_name.
  by rewrite Es.
Qed.

Lemma set_ignored_by_getter cls pid id p now s :
  plain_seg cls → addressable id →
  handle fuel w max_len now (plain_query (object_key cls pid [id; bs "set"]) (Some p))
    (endpoint cls pid EpGet) s = (Ok NoReply, s).
Proof using All.
  intros Hc Hid. destruct (object_key_parses cls pid id Hc Hid) as (_ & _ & _ & E).
  unfold handle. simpl. unfold Net.handle_get. simpl. by rewrite E.
Qed.

Lemma get_handler cls pid id now s :
  shard_inv s → plain_seg cls → addressable id → length (sh_contents s) < fuel →
  length (all_entries id (sh_contents s)) < MAX_PAGES * Nat.min 1024 MAX_LIST_LIMIT →
  handle fuel w max_len now (plain_query (object_key cls pid [id]) None) (endpoint cls pid EpGet) s
  = (match object_of (sh_contents s) id with
     | Some obj => Ok (ReplyObject {| or_data := Obj.to_data obj;
                         or_cls_id := sm_collection (sh_meta s);
                         or_partition_id := sm_partition_id (sh_meta s); or_object_id := id |})
     | None => Err (NText "object not found")
     end, s).
Proof using All.
  intros Hinv Hc Hid Hf Hr. destruct (object_key_parses cls pid id Hc Hid) as (E1 & _ & E3 & _).
  pose proof (addressable_ok id Hid) as Hi.
  unfold handle. simpl. unfold Net.handle_get. simpl. rewrite E3.
  unfold Path.parse_identity_from_query. rewrite E1. unfold Net.get_whole. simpl.
  unfold Net.shard_call, map_err, bind, Api.get_object.
  rewrite (reconstruct_pages_ok fuel id 1024 s Hinv Hi ltac:(done) Hf Hr). simpl.
  by destruct (object_of (sh_contents s) id).
Qed.

(** ** Through the gateway *)

Context {Z : Type} `{!ZSession Z} (n : UnifiedShardNetwork) `{!ShardSession Z n}.
Context (cls : bytes) (pid : BinNums.Z) (Hn : serving cls pid n) (Hcls : plain_seg cls).
Hypothesis wire_obj : ∀ o, dec_obj w (enc_obj w o) = inr o.

Definition meta_for (id : bytes) : ObjMeta :=
  {| om_cls_id := cls; om_partition_id := pid; om_object_id := Some id |}.

Lemma proxy_set id o (z : Z) :
  connected z → shard_inv (shard_at z) → addressable id → accepted_object o →
  ∃ z', Proxy.set_obj w {| po_metadata := Some (meta_for id); po_data := o |} z = (Ok tt, z') ∧
    connected z' ∧ object_set (shard_at z) id o (shard_at z').
Proof using All.
  intros Hz Hinv Hid Ho. set (m := {| po_metadata := Some (meta_for id); po_data := o |}).
  unfold Proxy.set_obj, Proxy.required, Proxy.object_path. simpl. rewrite bind_ret, path_key.
  unfold Proxy.call_zenoh, bind, Proxy.query.
  destruct (law_query false (object_key cls pid [id; bs "set"]) (Some (enc_obj w m)) z Hz)
    as (eps & now & z' & Hp & E & Hs & Hz').
  rewrite (matching_key cls pid n _ Hn Hcls) in Hp by
    (repeat constructor; try apply (normal_plain max_len id), Hid; decide_now).
  destruct (set_handler cls pid id (enc_obj w m) m now (shard_at z) Hinv Hcls Hid (wire_obj m) Ho)
    as (s' & Eset & Hset).
  pose proof (set_ignored_by_getter cls pid id (enc_obj w m) now) as Eget.
  assert ((endpoint cls pid <$> filter (λ ep, pattern_matches (tail_of ep) [id; bs "set"] = true)
      [EpSet; EpGet; EpBatchSet; EpListObjects]) = [endpoint cls pid EpSet; endpoint cls pid EpGet]) as Ef.
  { rewrite !filter_cons, filter_nil. simpl tail_of. cbn [pattern_matches].
    rewrite !decide_True, !decide_False by (by rewrite ?andb_false_r). done. }
  rewrite Ef in Hp. rewrite E. exists z'.
  assert (serve fuel w max_len error_text now (plain_query (object_key cls pid [id; bs "set"]) (Some (enc_obj w m)))
            eps (shard_at z) = ([RSample (enc_empty w)], s')) as Hr.
  { symmetry in Hp. apply Permutation_length_2_inv in Hp as [Hp|Hp]; subst eps; cbn [serve];
      rewrite ?Eget, Eset by done; simpl; by rewrite ?Eget by done. }
  rewrite Hr in Hs |- *. simpl in Hs |- *. rewrite Hs. by split_and!.
Qed.

Lemma proxy_get id (z : Z) :
  connected z → shard_inv (shard_at z) → addressable id → id ≠ bs "list-objects" →
  sm_collection (sh_meta (shard_at z)) = cls → sm_partition_id (sh_meta (shard_at z)) = pid →
  length (sh_contents (shard_at z)) < fuel →
  length (all_entries id (sh_contents (shard_at z))) < MAX_PAGES * Nat.min 1024 MAX_LIST_LIMIT →
  ∃ z', Proxy.get_obj w (meta_for id) z
      = (Ok ((λ o, {| po_metadata := Some (meta_for id); po_data := Obj.to_data o |})
             <$> object_of (sh_contents (shard_at z)) id), z') ∧
    connected z' ∧ shard_at z' = shard_at z.
Proof using All.
  intros Hz Hinv Hid Hl Hc Hp' Hf Hr.
  unfold Proxy.get_obj, Proxy.required, Proxy.object_path. simpl. rewrite bind_ret, path_key.
  destruct (law_query false (object_key cls pid [id]) None z Hz) as (eps & now & z' & Hp & E & Hs & Hz').
  rewrite (matching_key cls pid n _ Hn Hcls) in Hp by
    (repeat constructor; apply (normal_plain max_len id), Hid).
  assert ((endpoint cls pid <$> filter (λ ep, pattern_matches (tail_of ep) [id] = true)
      [EpSet; EpGet; EpBatchSet; EpListObjects]) = [endpoint cls pid EpGet]) as Ef.
  { rewrite !filter_cons, filter_nil. simpl tail_of. cbn [pattern_matches].
    rewrite (bool_decide_false (bs "list-objects" = id)) by done.
    rewrite decide_False, decide_True by done. by rewrite !decide_False by done. }
  rewrite Ef in Hp. symmetry in Hp. apply Permutation_singleton_l in Hp. subst eps.
  cbn [serve] in E, Hs. rewrite (get_handler cls pid id now (shard_at z)) in E, Hs by done.
  exists z'. unfold Proxy.or_none, Proxy.call_zenoh, Proxy.query, bind, tried. rewrite E.
  destruct (object_of (sh_contents (shard_at z)) id) as [o|]; simpl in Hs |- *; [|by rewrite Hs].
  rewrite wire_obj. unfold object_message, meta_for. simpl. rewrite Hc, Hp'. by rewrite Hs.
Qed.

Context (lib : GwLibs) (retries : nat).

Definition path_of (oid : bytes) : ObjectPath := {| op_cls := cls; op_pid := pid; op_oid := oid |}.

(** C22. An object that was put through the gateway is what the gateway then returns, under every
    spelling of its identifier: the entries that were sent over those the object had, the
    identity in its normal form, as protobuf or as JSON as the client asks; an object that was
    deleted before stays absent. The identifier must not be read as a number or as a word of
    the key expressions. *)
Theorem put_then_get oid oid' id h h' body o (st : GwState Z) :
  let s := shard_at (gw_session st) in
  connected (gw_session st) → shard_inv s → sm_collection (sh_meta s) = cls →
  sm_partition_id (sh_meta s) = pid → 160 ≤ max_len →
  normalize_object_id oid 160 = Ok id → normalize_object_id oid' 160 = Ok id →
  Path.parse_u64 id = None →
  id ∉ [bs "objects"; bs "get"; bs "set"; bs "batch-set"; bs "list-objects"] →
  Rest.body_object w lib h body = Ok o → accepted_object (po_data o) →
  ∃ st', Rest.put_obj w lib retries (path_of oid) h body st = (Ok tt, st') ∧
    let s' := shard_at (gw_session st') in
    object_set s id (po_data o) s' ∧
    (length (sh_contents s') < fuel →
     length (all_entries id (sh_contents s')) < MAX_PAGES * Nat.min 1024 MAX_LIST_LIMIT →
     (Rest.get_obj w lib retries (path_of oid') h' st').1 =
       if tombstone (meta_or_new (sh_contents s) id) then Err (NoObjStr cls pid oid')
       else Ok (Rest.object_answer w lib h' {|
              po_metadata := Some (meta_for id);
              po_data := {| od_entries := Obj.map_vals into_val (object_entries (sh_contents s') id);
                            od_event := set_event (od_event (po_data o))
                                          (event_of (sh_contents s) id) |} |})).
Proof using All.
  intros s Hz Hinv Hc Hp Hmax Hoid Hoid' Hu Hv Hb Ho.
  assert (addressable id) as Hid.
  { apply normalize_ok_iff in Hoid as (_ & Hne & Hl & Hall).
    split; [by split_and!; [|lia|]|]. split; [done|]. set_solver. }
  assert (id ≠ bs "list-objects") as Hlo by set_solver.
  destruct (proxy_set id (po_data o) (gw_session st) Hz Hinv Hid Ho) as (z' & Es & Hz' & Hset).
  set (st' := Rest.set_session z' (Rest.inc_attempt st)). exists st'. split.
  { unfold Rest.put_obj. rewrite (bind_ok _ _ _ _ _ (checked_id_ok oid id st Hoid)).
    unfold bind at 1. rewrite Hb. simpl.
    refine (retrying_ok (ret tt) _ _ _ tt (Rest.inc_attempt st) tt st' eq_refl _).
    by apply (zoom_eq gw_session Rest.set_session). }
  split; [exact Hset|]. intros Hf Hr. change (shard_at (gw_session st')) with (shard_at z') in Hf, Hr |- *.
  destruct Hset as (Hinv' & Hcfg & U). destruct Hcfg as (Hm & _).
  destruct (proxy_get id z' Hz' Hinv' Hid) as (z2 & Eg & _ & _); [exact Hlo|rewrite Hm; exact Hc|rewrite Hm; exact Hp|exact Hf|exact Hr|].
  pose proof (object_of_updated _ _ _ _ _ _ (shard_wf _ (proj1 Hinv')) (proj2 Hinv')
    (addressable_ok id Hid) U) as Hobj.
  change (tombstone (ObjectMeta.increment_version ?m)) with (tombstone m) in Hobj.
  rewrite Hobj in Eg. unfold Rest.get_obj.
  set (found := (λ o, _) <$> _) in Eg.
  assert (Rest.retrying retries (Rest.checked_id (op_oid (path_of oid')))
    (λ i, Rest.on_proxy (Proxy.get_obj w (Rest.meta_of_path (path_of oid') i))) st'
    = (Ok found, Rest.set_session z2 (Rest.inc_attempt st'))) as Hget.
  { refine (retrying_ok _ _ _ _ _ _ _ _ (checked_id_ok oid' id st' Hoid') _).
    by apply (zoom_eq gw_session Rest.set_session). }
  rewrite (bind_ok _ _ _ _ _ Hget). unfold found. fold s.
  by destruct (tombstone (meta_or_new (sh_contents s) id)).
Qed.
End sessions.

(** ** Examples *)

Import Demo.

Module DemoGateway.

(** A codec: any countable type as the bits of its number, one in each byte. *)
Fixpoint pos_bytes (p : positive) : bytes :=
  match p with
  | xH => []
  | xO p => Byte.x00 :: pos_bytes p
  | xI p => Byte.x01 :: pos_bytes p
  end.
Fixpoint bytes_pos (l : bytes) : positive :=
  match l with
  | [] => xH
  | b :: l => if decide (b = Byte.x00) then xO (bytes_pos l) else xI (bytes_pos l)
  end.
Lemma bytes_pos_bytes p : bytes_pos (pos_bytes p) = p.
Proof. induction p; simpl; by rewrite ?IHp. Qed.

Definition enc {A} `{Countable A} (a : A) : bytes := pos_bytes (encode a).
Definition dec {A} `{Countable A} (l : bytes) : bytes + A :=
  match decode (bytes_pos l) with Some a => inr a | None => inl (bs "malformed") end.
Lemma dec_enc {A} `{Countable A} (a : A) : dec (enc a) = inr a.
Proof. unfold dec, enc. by rewrite bytes_pos_bytes, decode_encode. Qed.

#[local] Instance target_eq : EqDecision TriggerTarget.
Proof. solve_decision. Defined.
#[local] Instance target_countable : Countable TriggerTarget.
Proof.
  refine (inj_countable' (λ t, (t_cls_id t, t_partition_id t, t_object_id t, t_fn_id t, t_req_options t))
    (λ '(a, b, c, d, e), {| t_cls_id := a; t_partition_id := b; t_object_id := c; t_fn_id := d;
                            t_req_options := e |}) _). by intros [].
Defined.
#[local] Instance func_trigger_eq : EqDecision FuncTrigger.
Proof. solve_decision. Defined.
#[local] Instance func_trigger_countable : Countable FuncTrigger.
Proof.
  refine (inj_countable' (λ t, (on_complete t, on_error t))
    (λ '(a, b), {| on_complete := a; on_error := b |}) _). by intros [].
Defined.
#[local] Instance data_trigger_eq : EqDecision DataTrigger.
Proof. solve_decision. Defined.
#[local] Instance data_trigger_countable : Countable DataTrigger.
Proof.
  refine (inj_countable' (λ t, (on_create t, on_update t, on_delete t))
    (λ '(a, b, c), {| on_create := a; on_update := b; on_delete := c |}) _). by intros [].
Defined.
#[local] Instance event_eq : EqDecision ObjectEvent.
Proof. solve_decision. Defined.
#[local] Instance event_countable : Countable ObjectEvent.
Proof.
  refine (inj_countable' (λ t, (func_trigger t, data_trigger t))
    (λ '(a, b), {| func_trigger := a; data_trigger := b |}) _). by intros [].
Defined.

Definition obj_tuple (o : ProtoObj) :=
  ((λ m, (om_cls_id m, om_partition_id m, om_object_id m)) <$> po_metadata o,
   (λ kv : bytes * ValData, (kv.1, (vd_data kv.2, vd_type kv.2))) <$> od_entries (po_data o),
   od_event (po_data o)).
Definition tuple_obj (t : option (bytes * Z * option bytes) * list (bytes * (bytes * Z)) *
                          option ObjectEvent) : ProtoObj :=
  {| po_metadata := (λ '(c, p, o), {| om_cls_id := c; om_partition_id := p; om_object_id := o |}) <$> t.1.1;
     po_data := {| od_entries := (λ kv : bytes * (bytes * Z), (kv.1, {| vd_data := kv.2.1; vd_type := kv.2.2 |}))
                                 <$> t.1.2;
                   od_event := t.2 |} |}.
Lemma tuple_obj_tuple o : tuple_obj (obj_tuple o) = o.
Proof.
  destruct o as [[[]|] [es ev]]; unfold tuple_obj, obj_tuple; simpl; do 2 f_equal;
    rewrite <- list_fmap_compose; rewrite <- (list_fmap_id es) at 2; apply list_fmap_ext;
    by intros ? [? []].
Qed.

(** Only objects are sent in the examples. *)
Definition wire : Wire :=
  {| enc_obj := λ o, enc (obj_tuple o);
     dec_obj := λ b, match dec b with inr t => inr (tuple_obj t) | inl e => inl e end;
     enc_batch := λ _, []; dec_batch := λ _, inl []; enc_empty := []; dec_empty := λ _, inr tt;
     enc_list := λ _, []; dec_list := λ _, inl []; enc_envelope := λ _, []; dec_envelope := λ _, inl [];
     enc_value := λ _, []; dec_value := λ _, inl []; enc_invocation := λ _, [];
     dec_invocation := λ _, inl []; enc_obj_invocation := λ _, []; dec_obj_invocation := λ _, inl [];
     enc_response := λ _, []; dec_response := λ _, inl [] |}.
Lemma wire_obj o : dec_obj wire (enc_obj wire o) = inr o.
Proof. simpl. by rewrite dec_enc, tuple_obj_tuple. Qed.

Definition matches (p k : bytes) : bool :=
  pattern_matches (Path.split_slash p) (Path.split_slash k).
#[local] Instance matches_exprs : KeyExprs matches.
Proof.
  split. intros pats segs Hp Hs Hne _. unfold matches.
  rewrite (split_slash_address segs) by (done || (eapply Forall_impl; [exact Hs|apply plain_no_slash])).
  destruct pats as [|p pats]; [|by rewrite split_slash_address].
  destruct segs as [|s segs]; [done|]. inversion_clear Hs as [|?? [Hs' _] _]. simpl.
  by rewrite (bool_decide_false ([] = s)) by done.
Qed.

(** The shard [cls/0] with its network, and the session of a client next to it *)
Definition network : UnifiedShardNetwork :=
  (Network.start_network (λ _, None) (Network.of_shard (bs "cls") 0)).2.
Definition texts (_ : NetError) : bytes := bs "error".
Definition fuel : nat := 100.
Definition asked (key : bytes) (p : option bytes) (s : Shard MemoryStorage) :=
  serve fuel wire 160 texts 0 (plain_query key p) (matching matches network key) s.

#[local] Instance session : ZSession (Shard MemoryStorage) := {|
  z_query _ key p s := (ZReplies (asked key p s).1, (asked key p s).2);
  z_delete key s := (SDone, (Net.handle_sample fuel (decoders wire) 160 true 0 (SampleDelete key) s).2);
  z_valid_key _ := true;
|}.
#[local] Instance shard_session : ShardSession (R := MemoryStorage) fuel wire 160 texts matches
  (Shard MemoryStorage) network.
Proof.
  refine {| shard_at := id; connected := λ _, True |}. intros all key p z _.
  by exists (matching matches network key), 0%Z, (asked key p z).2.
Defined.

Definition lib : GwLibs :=
  {| json_of := λ _, inr []; json_obj := λ _, inl []; b64_encode := id; b64_decode := inr;
     header_value := λ _, true; trace_headers := [] |}.

Definition sent : ProtoObj :=
  {| po_metadata := None;
     po_data := {| od_entries := [(bs "c", DemoService.byte_val "7")]; od_event := None |} |}.
Definition headers : Headers := {| h_accept := None; h_content_type := None |}.
Definition gw : GwState (Shard MemoryStorage) :=
  {| gw_session := demo3; gw_attempt := 0; gw_rejected := 0 |}.

Lemma put_then_get_witness : ∃ st' a,
  Rest.put_obj wire lib 0 (path_of (bs "cls") 0 (bs "O")) headers (enc_obj wire sent) gw = (Ok tt, st') ∧
  (Rest.get_obj wire lib 0 (path_of (bs "cls") 0 (bs "o")) headers st').1 = Ok a ∧
  ha_status a = 200%Z ∧ entry_of (sh_contents (gw_session st')) (bs "o") (bs "c") = Some (Demo.val "7").
Proof.
  destruct (put_then_get fuel wire 160 texts matches ltac:(done) network (bs "cls") 0
    ltac:(vm_compute; reflexivity) ltac:(split; [done|decide_now]) wire_obj lib 0
    (bs "O") (bs "o") (bs "o") headers headers (enc_obj wire sent) sent gw)
    as (st' & Hp & Hset & Hget).
  - exact I.
  - exact demo3_inv.
  - reflexivity.
  - reflexivity.
  - lia.
  - vm_compute. reflexivity.
  - vm_compute. reflexivity.
  - vm_compute. reflexivity.
  - decide_now.
  - transitivity (match dec_obj wire (enc_obj wire sent) with
                  | inr o => Ok o | inl e => Err (InvalidProtobuf e) end); [reflexivity|].
    by rewrite wire_obj.
  - split_and!; [done|repeat constructor|decide_now].
  - exists st'. eexists. split; [exact Hp|].
    destruct Hset as (_ & _ & U). split; [|split].
    + assert (gw_session st' = gw_session (Rest.put_obj wire lib 0 (path_of (bs "cls") 0 (bs "O"))
        headers (enc_obj wire sent) gw).2) as Hs by (by rewrite Hp).
      rewrite Hget; [reflexivity|simpl; rewrite Hs; apply Nat.ltb_lt; vm_compute; reflexivity|].
      apply (Nat.lt_le_trans _ (MAX_PAGES * 1)).
      * simpl. rewrite Hs. apply Nat.ltb_lt. vm_compute. reflexivity.
      * apply Nat.mul_le_mono_l, Nat.leb_le. reflexivity.
    + reflexivity.
    + refine (obj_update_entry_of _ _ _ _ _ _ (bs "c") _ _ U); decide_now.
Defined.

(** The object [list-objects] is asked for at the key of the listings, where both handlers answer:
    the client gets whichever comes first. *)
Example list_objects_ambiguous :
  (λ d, d.1) <$> matching matches network (object_key (bs "cls") 0 [bs "list-objects"])
  = [EpGet; EpListObjects].
Proof. reflexivity. Qed.

(** A network that failed to start counts as running, and is not started again; one that was
    stopped counts as running too. *)
Definition refused (key : bytes) : option bytes :=
  if decide (key = Proxy.path (bs "cls") 0 [bs "objects"; bs "**"]) then Some (bs "refused") else None.
Definition half : UnifiedShardNetwork :=
  (Network.start_network refused (Network.of_shard (bs "cls") 0)).2.
Example failed_start_is_final :
  (Network.start_network refused (Network.of_shard (bs "cls") 0)).1
    = Err (bs "Zenoh API error: refused") ∧
  Network.start_network (λ _, None) half = (Ok tt, half) ∧ get_queryable half = None ∧
  Network.is_running (Network.stop network) = true.
Proof. split_and!; reflexivity. Qed.
End DemoGateway.
