(* ===== verification/Invocation.v ===== *)
(** * Invocations

    [commons/oprc-invoke/src/{lib,route,conn,local,handler}.rs] and
    [data-plane/oprc-odgm/src/shard/invocation/*.rs], [shard/liveliness.rs] and the calls of a
    shard in [shard/object_shard/trait_impl.rs]: the table of routes, pools of connections, the
    executors of functions, the handlers of queries and samples, and the endpoints a shard
    declares, with the standby endpoints that come and go with the other members. The functions
    themselves and the pools are a parameter ([FnWorld]) that sees the history of the calls. *)

From stdpp Require Import base tactics list numbers option gmap sorting strings.
From Stdlib Require Import Lia.
From S2P Require Import Prelude BTree Backend Memory Replication StorageKey GranularKey Identity.
From S2P Require Import Events ObjectData Shard EntryStore EntryOps EntryList Collections DataService.
From S2P Require Import ShardNetwork Gateway ShardService.

Set Default Proof Using "Type".
Open Scope prog_scope.

(** ** Errors *)

Inductive OffloadError : Type :=
| OGrpcError (s : GrpcStatus)
| OConnectError (msg : bytes)
| OInvalidUrl (msg : bytes)
| ONoCls (cls : bytes)
| ONoFunc (cls func : bytes)
| ONoPartition (cls : bytes) (pid : Z)
| OPoolError (msg : bytes)
| OConfigurationError (msg : bytes)
| OInternalError (msg : bytes).

(** The errors of a pool *)
Inductive MobcError : Type := MInner (e : OffloadError) | MTimeout | MBadConn | MPoolClosed.

Module Offload.
Definition from_mobc (e : MobcError) : OffloadError :=
  match e with
  | MInner e => e
  | MTimeout => OGrpcError {| gs_code := GDeadlineExceeded; gs_message := bs "timeout" |}
  | MBadConn => OGrpcError {| gs_code := GUnavailable; gs_message := bs "bad connection" |}
  | MPoolClosed => OGrpcError {| gs_code := GUnavailable; gs_message := bs "pool closed" |}
  end.

Definition error_text (status_text : GrpcStatus → bytes) (e : OffloadError) : bytes :=
  match e with
  | OGrpcError s => bs "gRPC error: " ++ status_text s
  | OConnectError m => bs "gRPC error: " ++ m
  | OInvalidUrl m => bs "Uri parsing error: " ++ m
  | ONoCls c => bs "No class " ++ c ++ bs " exists"
  | ONoFunc c f => bs "No func " ++ f ++ bs " on class " ++ c ++ bs " exists"
  | ONoPartition c p => bs "No partition " ++ Proxy.decimal p ++ bs " on class " ++ c ++ bs " exists"
  | OPoolError m => bs "Pool error: " ++ m
  | OConfigurationError m => bs "Configuration error: " ++ m
  | OInternalError m => bs "Internal error: " ++ m
  end.
End Offload.

(** ** Routes of other clusters *)

Record PartitionRouting := { pr_functions : gmap bytes bytes }.
Record ClsRouting := { cr_name : bytes; cr_routing : list PartitionRouting }.
Record Routable := { rt_cls : bytes; rt_func : bytes; rt_partition : Z }.
Definition RoutingTable := gmap bytes ClsRouting.

#[global] Instance Routable_eq_dec : EqDecision Routable.
Proof. solve_decision. Defined.
#[global] Instance Routable_countable : Countable Routable.
Proof.
  refine (inj_countable' (λ r, (rt_cls r, rt_func r, rt_partition r))
    (λ '(c, f, p), {| rt_cls := c; rt_func := f; rt_partition := p |}) _). by intros [].
Defined.

Module Routes.
(** One class of the table as it comes from the service, at the start or later. *)
Definition upsert (t : RoutingTable) (c : ClsRouting) : RoutingTable := <[cr_name c := c]> t.
Definition sync (clss : list ClsRouting) (t : RoutingTable) : RoutingTable := foldl upsert t clss.

Definition get_route (t : RoutingTable) (r : Routable) : res OffloadError bytes :=
  match t !! rt_cls r with
  | Some c =>
      match cr_routing c !! Z.to_nat (rt_partition r) with
      | Some p =>
          match pr_functions p !! rt_func r with
          | Some url => Ok url
          | None => Err (ONoFunc (rt_cls r) (rt_func r))
          end
      | None => Err (ONoPartition (rt_cls r) (rt_partition r))
      end
  | None => Err (ONoCls (rt_cls r))
  end.
End Routes.

(** ** Calling functions *)

Inductive FnRequest : Type :=
| GetConn (uri : bytes)
| CallFn (uri : bytes) (req : InvocationRequest)
| CallObj (uri : bytes) (req : ObjectInvocationRequest).

(** Which texts are URIs, what a pool gives and what a function answers, after all requests so
    far *)
Record FnWorld := {
  fw_uri : bytes → option bytes;
  fw_conn : list FnRequest → option MobcError;
  fw_answer : list FnRequest → GrpcStatus + InvocationResponse;
}.

(** The pools by key, each for a URI, and the requests so far *)
Record Pools (K : Type) `{Countable K} := { pools : gmap K bytes; fn_log : list FnRequest }.
Arguments pools {K _ _} _.
Arguments fn_log {K _ _} _.

Module Conn.
Section conn.
Context {K : Type} `{Countable K} (fw : FnWorld).

Notation C A := (M (Pools K) MobcError A).

Definition set_pools (x : gmap K bytes) (s : Pools K) : Pools K :=
  {| pools := x; fn_log := fn_log s |}.
Definition logged (r : FnRequest) (s : Pools K) : Pools K :=
  {| pools := pools s; fn_log := fn_log s ++ [r] |}.

(** [pool.get()]: a connection is known by its URI. *)
Definition pool_get (uri : bytes) : C bytes := λ s,
  let s := logged (GetConn uri) s in
  match fw_conn fw (fn_log s) with
  | Some e => (Err e, s)
  | None => (Ok uri, s)
  end.

(** [RpcManager::new] *)
Definition rpc_manager (addr : bytes) : res OffloadError bytes :=
  match fw_uri fw addr with Some e => Err (OInvalidUrl e) | None => Ok addr end.

(** The pool of a key, made by the factory at its first use. *)
Definition get (create : K → res OffloadError bytes) (key : K) : C bytes := λ s,
  match pools s !! key with
  | Some uri => pool_get uri s
  | None =>
      (let! uri := lift_res (res_map_err MInner (create key)) in
       modify (λ s, set_pools (<[key := uri]> (pools s)) s) ;;;
       pool_get uri) s
  end.

(** [ConnFactory] of the routing table and of the routes of one class *)
Definition create_route (t : RoutingTable) (r : Routable) : res OffloadError bytes :=
  res_bind (Routes.get_route t r) rpc_manager.
Definition create_fn (routes : list (bytes * FuncInvokeRoute)) (cls_id key : bytes) :
    res OffloadError bytes :=
  match bt_get key routes with
  | Some r => rpc_manager (inv_url r)
  | None => Err (ONoFunc cls_id key)
  end.
End conn.
End Conn.

(** ** Executors *)

Class InvocationExecutor (T : Type) := {
  ex_invoke_fn : InvocationRequest → M T OffloadError InvocationResponse;
  ex_invoke_obj : ObjectInvocationRequest → M T OffloadError InvocationResponse;
}.

Definition okay (payload : bytes) : InvocationResponse :=
  {| iv_payload := Some payload; iv_status := 0; iv_headers := ∅; iv_invocation_id := [] |}.

Record LocalFnOffloader := {
  fn_handlers : gmap bytes (bytes → bytes);
  obj_handlers : gmap bytes (bytes → bytes);
}.

Module LocalFn.
Definition new : LocalFnOffloader := {| fn_handlers := ∅; obj_handlers := ∅ |}.
Definition register_fn (id : bytes) (h : bytes → bytes) (o : LocalFnOffloader) : LocalFnOffloader :=
  {| fn_handlers := <[id := h]> (fn_handlers o); obj_handlers := obj_handlers o |}.
Definition register_obj_fn (id : bytes) (h : bytes → bytes) (o : LocalFnOffloader) : LocalFnOffloader :=
  {| fn_handlers := fn_handlers o; obj_handlers := <[id := h]> (obj_handlers o) |}.
Definition is_empty (o : LocalFnOffloader) : bool :=
  bool_decide (dom (fn_handlers o) = ∅) && bool_decide (dom (obj_handlers o) = ∅).
Definition has_fn (id : bytes) (o : LocalFnOffloader) : bool :=
  bool_decide (is_Some (fn_handlers o !! id)) || bool_decide (is_Some (obj_handlers o !! id)).

Definition invoke_fn (req : InvocationRequest) : M LocalFnOffloader OffloadError InvocationResponse :=
  λ o, (match fn_handlers o !! ir_fn_id req with
        | Some h => Ok (okay (h (ir_payload req)))
        | None => Err (ONoFunc (ir_cls_id req) (ir_fn_id req))
        end, o).
Definition invoke_obj (req : ObjectInvocationRequest) :
    M LocalFnOffloader OffloadError InvocationResponse :=
  λ o, (match obj_handlers o !! oi_fn_id req with
        | Some h => Ok (okay (h (oi_payload req)))
        | None => match fn_handlers o !! oi_fn_id req with
                  | Some h => Ok (okay (h (oi_payload req)))
                  | None => Err (ONoFunc (oi_cls_id req) (oi_fn_id req))
                  end
        end, o).
End LocalFn.

#[export] Instance local_executor : InvocationExecutor LocalFnOffloader :=
  {| ex_invoke_fn := LocalFn.invoke_fn; ex_invoke_obj := LocalFn.invoke_obj |}.

(** *** The offloader of a shard

    What it calls itself, the executor of WASM functions if one was set, and the events it
    triggered, if there is an event manager *)
Record InvocationOffloader (L : Type) := {
  io_pools : Pools bytes;
  io_local : option L;
  io_has_events : bool;
  io_events : list EventContext;
}.
Arguments io_pools {L} _.
Arguments io_local {L} _.
Arguments io_has_events {L} _.
Arguments io_events {L} _.

Module Offloader.
Section offloader.
Context {L : Type} `{!InvocationExecutor L} (fw : FnWorld) (status_text : GrpcStatus → bytes).
Context (collection : bytes) (routes : list (bytes * FuncInvokeRoute)).

Notation O A := (M (InvocationOffloader L) OffloadError A).

Definition new (has_events : bool) : InvocationOffloader L :=
  {| io_pools := {| pools := ∅; fn_log := [] |}; io_local := None; io_has_events := has_events;
     io_events := [] |}.
Definition set_pools (x : Pools bytes) (o : InvocationOffloader L) : InvocationOffloader L :=
  {| io_pools := x; io_local := io_local o; io_has_events := io_has_events o; io_events := io_events o |}.
Definition set_local (x : option L) (o : InvocationOffloader L) : InvocationOffloader L :=
  {| io_pools := io_pools o; io_local := x; io_has_events := io_has_events o; io_events := io_events o |}.
Definition trigger_event (e : EventContext) (o : InvocationOffloader L) : InvocationOffloader L :=
  {| io_pools := io_pools o; io_local := io_local o; io_has_events := io_has_events o;
     io_events := io_events o ++ [e] |}.

(** Set once *)
Definition set_local_offloader (x : L) : M (InvocationOffloader L) L unit := λ o,
  match io_local o with
  | Some _ => (Err x, o)
  | None => (Ok tt, set_local (Some x) o)
  end.

Definition is_wasm_fn (fn_id : bytes) : bool :=
  match bt_get fn_id routes with
  | Some r => Rest.starts_with (bs "wasm://") (inv_url r)
  | None => false
  end.

Definition on_local {A} (x : L) (c : M L OffloadError A) : O A := λ o,
  let '(r, x) := c x in (r, set_local (Some x) o).

Definition connection (fn_id : bytes) : O bytes :=
  map_err Offload.from_mobc
    (zoom io_pools set_pools (Conn.get fw (Conn.create_fn fw routes collection) fn_id)).

Definition call (r : FnRequest) : O InvocationResponse := λ o,
  let p := Conn.logged r (io_pools o) in
  (match fw_answer fw (fn_log p) with
   | inr resp => Ok resp
   | inl s => Err (OGrpcError s)
   end, set_pools p o).

(** The executor of WASM functions, when the route is to a module and there is one *)
Definition wasm_executor (fn_id : bytes) : O (option L) := λ o,
  (Ok (if is_wasm_fn fn_id then io_local o else None), o).

Definition invoke_fn (req : InvocationRequest) : O InvocationResponse :=
  let! local := wasm_executor (ir_fn_id req) in
  match local with
  | Some x => on_local x (ex_invoke_fn req)
  | None =>
      let! conn := connection (ir_fn_id req) in
      call (CallFn conn req)
  end.

Definition completion (req : ObjectInvocationRequest) (r : OffloadError + InvocationResponse) :
    EventContext :=
  {| e_object_id := default [] (oi_object_id req); e_class_id := collection;
     e_partition_id := as_u16 (oi_partition_id req);
     e_event_type := match r with
                     | inr _ => FunctionComplete (oi_fn_id req)
                     | inl _ => FunctionError (oi_fn_id req)
                     end;
     e_payload := match r with inr resp => iv_payload resp | inl _ => None end;
     e_error_message := match r with inr _ => None
                        | inl e => Some (Offload.error_text status_text e) end |}.

Definition invoke_obj (req : ObjectInvocationRequest) : O InvocationResponse :=
  let! local := wasm_executor (oi_fn_id req) in
  match local with
  | Some x => on_local x (ex_invoke_obj req)
  | None =>
      let! conn := connection (oi_fn_id req) in
      let! r := tried (call (CallObj conn req)) in
      (λ o, (Ok tt, if io_has_events o then trigger_event (completion req r) o else o)) ;;;
      match r with inr resp => ret resp | inl e => throw e end
  end.
End offloader.
End Offloader.

#[export] Instance offloader_executor {L} `{!InvocationExecutor L} fw status_text collection routes :
    InvocationExecutor (InvocationOffloader L) :=
  {| ex_invoke_fn := Offloader.invoke_fn fw collection routes;
     ex_invoke_obj := Offloader.invoke_obj fw status_text collection routes |}.

(** ** Handlers *)

(** The protobuf numbers of [ResponseStatus] *)
Definition INVALID_REQUEST : Z := 1.
Definition APP_ERROR : Z := 2.
Definition SYSTEM_ERROR : Z := 3.

Module Handlers.
Section handlers.
Context {T : Type} `{!InvocationExecutor T} (w : Wire) (status_text : GrpcStatus → bytes).

(** What a handler replies; replies that cannot be sent are given up. *)
Definition H : Type := T → list InvocationResponse * T.

Definition failure (msg : bytes) (status : Z) : InvocationResponse :=
  {| iv_payload := Some msg; iv_status := status; iv_headers := ∅; iv_invocation_id := [] |}.

Definition decode_query {A} (dec : bytes → bytes + A) (p : option bytes) : bytes + A :=
  match p with Some b => dec b | None => inl (bs "Payload must not be empty") end.

(** The answer to an outcome of the executor *)
Definition answer_of (r : res OffloadError InvocationResponse) : list InvocationResponse :=
  match r with
  | Ok resp => [resp]
  | Err (OGrpcError s) => [failure (status_text s) APP_ERROR]
  | Err e => [failure (Offload.error_text status_text e) SYSTEM_ERROR]
  | Panic _ => []
  end.

Definition handle_invoke_fn (p : option bytes) : H := λ t,
  match decode_query (dec_invocation w) p with
  | inr req => let '(r, t) := ex_invoke_fn req t in (answer_of r, t)
  | inl e => ([failure e INVALID_REQUEST], t)
  end.

Definition handle_invoke_obj (p : option bytes) : H := λ t,
  match decode_query (dec_obj_invocation w) p with
  | inr req => let '(r, t) := ex_invoke_obj req t in (answer_of r, t)
  | inl e => ([failure e INVALID_REQUEST], t)
  end.

(** [InvocationZenohHandler::handle] *)
Definition handle (key : bytes) (p : option bytes) : H := λ t,
  match Path.split_slash key !! 3 with
  | None => ([], t)
  | Some seg => if bool_decide (seg = bs "objects") then handle_invoke_obj p t else handle_invoke_fn p t
  end.

(** [AsyncInvocationHandler]: results are only logged. *)
Definition handle_async_invoke_fn (key data : bytes) (t : T) : T :=
  if length (Path.split_slash key) <? 6 then t
  else match dec_invocation w data with inr req => (ex_invoke_fn req t).2 | inl _ => t end.

Definition handle_async_invoke_obj (key data : bytes) (t : T) : T :=
  if length (Path.split_slash key) <? 8 then t
  else match dec_obj_invocation w data with inr req => (ex_invoke_obj req t).2 | inl _ => t end.

Definition handle_async (key data : bytes) : T → T :=
  if Rest.contains (bs "/objects/") key then handle_async_invoke_obj key data
  else handle_async_invoke_fn key data.
End handlers.
End Handlers.

(** ** The endpoints of a shard *)

(** The members of a partition that were seen, and whether they live *)
Definition Liveliness := gmap Z bool.

Record LivelinessSample := { ls_key : bytes; ls_put : bool }.

Module Live.
Definition declared_key (m : ShardMetadata) : bytes :=
  Proxy.path (sm_collection m) (sm_partition_id m) [bs "liveliness"; Proxy.decimal (sm_id m)].
Definition selector (m : ShardMetadata) : bytes :=
  Proxy.path (sm_collection m) (sm_partition_id m) [bs "liveliness"; bs "*"].

Definition handle_sample (s : LivelinessSample) (l : Liveliness) : option Z * Liveliness :=
  match Path.split_slash (ls_key s) !! 4 ≫= Path.parse_u64 with
  | Some id => (Some id, <[id := ls_put s]> l)
  | None => (None, l)
  end.

(** The samples that answer a query for all tokens *)
Definition update (samples : list LivelinessSample) (l : Liveliness) : Liveliness :=
  foldl (λ l s, (handle_sample s l).2) l samples.
End Live.

(** The queryables and subscribers by the identifiers of their functions, the latter followed by
    [_async] *)
Record InvocationNetworkManager := {
  inm_prefix : bytes;
  queryable_table : gmap bytes bytes;
  async_subscriber_table : gmap bytes bytes;
}.

Module InvNet.
Section manager.
Context (declare_error : bytes → option bytes).
Context (meta : ShardMetadata) (routes : list (bytes * FuncInvokeRoute)).

Notation N A := (M InvocationNetworkManager bytes A).

Definition new : InvocationNetworkManager :=
  {| inm_prefix := Proxy.path (sm_collection meta) (sm_partition_id meta) [];
     queryable_table := ∅; async_subscriber_table := ∅ |}.

Definition set_queryables (x : gmap bytes bytes) (m : InvocationNetworkManager) :=
  {| inm_prefix := inm_prefix m; queryable_table := x;
     async_subscriber_table := async_subscriber_table m |}.
Definition set_subscribers (x : gmap bytes bytes) (m : InvocationNetworkManager) :=
  {| inm_prefix := inm_prefix m; queryable_table := queryable_table m; async_subscriber_table := x |}.

Definition declare (key : bytes) : N unit := λ m,
  (match declare_error key with Some e => Err e | None => Ok tt end, m).

Definition sync_key (prefix : bytes) (stateless : bool) (fn_id : bytes) : bytes :=
  if stateless then prefix ++ bs "/invokes/" ++ fn_id
  else prefix ++ bs "/objects/*/invokes/" ++ fn_id.

Definition start_invoke_loop (route : FuncInvokeRoute) (fn_id : bytes) : N unit := λ m,
  if bool_decide (is_Some (queryable_table m !! fn_id)) then (Ok tt, m)
  else
    let key := sync_key (inm_prefix m) (inv_stateless route) fn_id in
    (declare key ;;; modify (λ m, set_queryables (<[fn_id := key]> (queryable_table m)) m)) m.

Definition async_id (fn_id : bytes) : bytes := fn_id ++ bs "_async".
Definition async_key (prefix : bytes) (stateless : bool) (fn_id : bytes) : bytes :=
  sync_key prefix stateless fn_id ++ bs "/async/*".

Definition start_async_invoke_loop (route : FuncInvokeRoute) (fn_id : bytes) : N unit := λ m,
  if bool_decide (is_Some (async_subscriber_table m !! async_id fn_id)) then (Ok tt, m)
  else
    let key := async_key (inm_prefix m) (inv_stateless route) fn_id in
    (declare key ;;;
     modify (λ m, set_subscribers (<[async_id fn_id := key]> (async_subscriber_table m)) m)) m.

Definition should_set_invoke : bool :=
  negb (bool_decide (sm_options meta !! bs "invoke_only_primary" = Some (bs "true")))
  || bool_decide (sm_primary meta = Some (sm_id meta)).

Definition start : N unit :=
  if should_set_invoke then
    for_each (λ r : bytes * FuncInvokeRoute,
      if inv_standby r.2 then ret tt
      else start_invoke_loop r.2 r.1 ;;; start_async_invoke_loop r.2 r.1) routes
  else ret tt.

(** Whether a standby function is to be active: no other member of its group lives. *)
Definition should_active (l : Liveliness) (route : FuncInvokeRoute) : bool :=
  let group := match inv_active_group route with [] => sm_replica meta | g => g end in
  forallb (λ id, bool_decide (id = sm_id meta) || negb (default false (l !! id))) group.

(** Failures to start are only logged, and what is removed is undeclared. *)
Definition update_standby (l : Liveliness) (fn_id : bytes) (route : FuncInvokeRoute) :
    InvocationNetworkManager → InvocationNetworkManager := λ m,
  if should_active l route then
    let m := (start_invoke_loop route fn_id m).2 in
    (start_async_invoke_loop route fn_id m).2
  else
    set_subscribers (delete (async_id fn_id) (async_subscriber_table m))
      (set_queryables (delete fn_id (queryable_table m)) m).

Definition on_liveliness_updated (l : Liveliness) (m : InvocationNetworkManager) :
    InvocationNetworkManager :=
  foldl (λ m r, if inv_standby r.2 then update_standby l r.1 r.2 m else m) m routes.

Definition stop (m : InvocationNetworkManager) : InvocationNetworkManager :=
  set_subscribers ∅ (set_queryables ∅ m).

(** A step of the loop of [sync_network]: the sample of a member updates the endpoints unless
    it is the shard's own. *)
Definition on_sample (s : LivelinessSample) (st : Liveliness * InvocationNetworkManager) :
    Liveliness * InvocationNetworkManager :=
  let '(id, l) := Live.handle_sample s st.1 in
  (l, if bool_decide (id = Some (sm_id meta)) then st.2 else on_liveliness_updated l st.2).
End manager.
End InvNet.

(** ** The calls of a shard *)

(** A shard and its offloader for queries are given the same executor of WASM functions, which is
    kept once here, in the state of the offloader; there may be no offloader. The shard itself
    prefers the executor for every function. *)
Record ShardInvoker (L : Type) := {
  si_offloader : InvocationOffloader L;
  si_has_offloader : bool;
}.
Arguments si_offloader {L} _.
Arguments si_has_offloader {L} _.

Module ShardInvoke.
Section invoke.
Context {L : Type} `{!InvocationExecutor L} (fw : FnWorld) (status_text : GrpcStatus → bytes).
Context (collection : bytes) (routes : list (bytes * FuncInvokeRoute)).

Notation I A := (M (ShardInvoker L) OffloadError A).

Definition set_offloader (o : InvocationOffloader L) (s : ShardInvoker L) : ShardInvoker L :=
  {| si_offloader := o; si_has_offloader := si_has_offloader s |}.

Definition through {A} (local : M L OffloadError A)
    (remote : M (InvocationOffloader L) OffloadError A) : I A := λ s,
  match io_local (si_offloader s) with
  | Some x => zoom si_offloader set_offloader (Offloader.on_local x local) s
  | None =>
      if si_has_offloader s then zoom si_offloader set_offloader remote s
      else (Err (OConfigurationError (bs "Invocation offloader not available")), s)
  end.

Definition invoke_fn (req : InvocationRequest) : I InvocationResponse :=
  through (ex_invoke_fn req) (Offloader.invoke_fn fw collection routes req).
Definition invoke_obj (req : ObjectInvocationRequest) : I InvocationResponse :=
  through (ex_invoke_obj req) (Offloader.invoke_obj fw status_text collection routes req).

Definition set_local_offloader (x : L) : M (ShardInvoker L) bytes unit :=
  map_err (λ _, bs "local_offloader already set")
    (zoom si_offloader set_offloader (Offloader.set_local_offloader x)).
End invoke.
End ShardInvoke.

(** ** Standby endpoints *)

Section standby.
Context (meta : ShardMetadata) (routes : list (bytes * FuncInvokeRoute)).
(** The routes are a map; declarations succeed. *)
Hypothesis Hroutes : NoDup routes.*1.
Implicit Types (m : InvocationNetworkManager) (l : Liveliness).

Notation update l := (InvNet.update_standby (λ _, None) meta l).
Notation updated l := (InvNet.on_liveliness_updated (λ _, None) meta routes l).

Lemma async_id_inj f g : InvNet.async_id f = InvNet.async_id g → f = g.
Proof. apply app_inv_tail. Qed.

(** Whether a function has both its endpoints, or none *)
Definition active m (f : bytes) : Prop :=
  is_Some (queryable_table m !! f) ∧ is_Some (async_subscriber_table m !! InvNet.async_id f).
Definition inactive m (f : bytes) : Prop :=
  queryable_table m !! f = None ∧ async_subscriber_table m !! InvNet.async_id f = None.
Definition same_endpoints m m' (f : bytes) : Prop :=
  queryable_table m' !! f = queryable_table m !! f ∧
  async_subscriber_table m' !! InvNet.async_id f = async_subscriber_table m !! InvNet.async_id f.

Lemma start_loop_spec r f m :
  let m' := (InvNet.start_invoke_loop (λ _, None) r f m).2 in
  is_Some (queryable_table m' !! f) ∧ async_subscriber_table m' = async_subscriber_table m ∧
  ∀ g, g ≠ f → queryable_table m' !! g = queryable_table m !! g.
Proof.
  unfold InvNet.start_invoke_loop. case_bool_decide as Hf; simpl; [done|].
  rewrite lookup_insert_eq. split; [done|]. split; [done|]. intros g Hg. by rewrite lookup_insert_ne.
Qed.

Lemma start_async_spec r f m :
  let m' := (InvNet.start_async_invoke_loop (λ _, None) r f m).2 in
  is_Some (async_subscriber_table m' !! InvNet.async_id f) ∧ queryable_table m' = queryable_table m ∧
  ∀ g, g ≠ f → async_subscriber_table m' !! InvNet.async_id g
               = async_subscriber_table m !! InvNet.async_id g.
Proof.
  unfold InvNet.start_async_invoke_loop. case_bool_decide as Hf; simpl; [done|].
  rewrite lookup_insert_eq. split; [done|]. split; [done|]. intros g Hg.
  rewrite lookup_insert_ne; [done|]. by intros ?%async_id_inj.
Qed.

Lemma update_standby_spec l f r m :
  (if InvNet.should_active meta l r then active (update l f r m) f else inactive (update l f r m) f) ∧
  ∀ g, g ≠ f → same_endpoints m (update l f r m) g.
Proof.
  unfold InvNet.update_standby. destruct (InvNet.should_active meta l r).
  - destruct (start_loop_spec r f m) as (Hq & Ha & Hg).
    set (m1 := (InvNet.start_invoke_loop (λ _, None) r f m).2) in *.
    destruct (start_async_spec r f m1) as (Ha1 & Hq1 & Hg1).
    split; [split; [by rewrite Hq1|done]|]. intros g Hne. split; [by rewrite Hq1, Hg|].
    by rewrite Hg1, Ha by done.
  - simpl. split; [split; apply lookup_delete_eq|]. intros g Hne. split; simpl.
    + by rewrite lookup_delete_ne.
    + rewrite lookup_delete_ne; [done|]. by intros ?%async_id_inj.
Qed.

Lemma updated_fold l rs m : NoDup rs.*1 →
  let m' := foldl (λ m r, if inv_standby r.2 then update l r.1 r.2 m else m) m rs in
  (∀ f r, (f, r) ∈ rs → inv_standby r = true →
     if InvNet.should_active meta l r then active m' f else inactive m' f) ∧
  (∀ f, (∀ r, (f, r) ∈ rs → inv_standby r = false) → same_endpoints m m' f).
Proof.
  revert m. induction rs as [|[f0 r0] rs IH]; intros m Hn.
  { split; [by intros f r ?%not_elem_of_nil|]. intros; by split. }
  apply NoDup_cons in Hn as [Hnot Hn]. simpl.
  set (m1 := if inv_standby r0 then update l f0 r0 m else m).
  destruct (IH m1 Hn) as [Hs Ho].
  assert (∀ r, (f0, r) ∉ rs) as Hf0.
  { intros r Hin. apply Hnot, list_elem_of_fmap. by exists (f0, r). }
  destruct (update_standby_spec l f0 r0 m) as [H0 H1]. split.
  - intros f r [[= -> ->]|Hin]%elem_of_cons Hst; [|by apply Hs].
    destruct (Ho f0) as [Eq Ea]; [by intros r ?%Hf0|]. unfold m1 in Eq, Ea. rewrite Hst in Eq, Ea.
    unfold active, inactive in *. fold m1. unfold m1. rewrite Hst. rewrite Eq, Ea. exact H0.
  - intros f Hf. destruct (Ho f) as [Eq Ea]; [intros r Hin; apply Hf; by right|].
    destruct (inv_standby r0) eqn:Est; unfold m1 in *; [|by split].
    assert (f ≠ f0) as Hne. { intros ->. rewrite (Hf r0) in Est; [done|by left]. }
    destruct (H1 f Hne) as [E1 E2]. split; congruence.
Qed.

(** After an update of the members, a standby function has its endpoints exactly when no other
    member of its group is known to live; the endpoints of all others are as before. *)
Theorem standby_follows l m :
  (∀ f r, (f, r) ∈ routes → inv_standby r = true →
     if InvNet.should_active meta l r then active (updated l m) f else inactive (updated l m) f) ∧
  (∀ f, (∀ r, (f, r) ∈ routes → inv_standby r = false) → same_endpoints m (updated l m) f).
Proof using Hroutes. by apply updated_fold. Qed.
End standby.

(** ** Invocations through the gateway *)

Section serving_fns.
Context {L : Type} `{!InvocationExecutor L} (fw : FnWorld) (w : Wire) (status_text : GrpcStatus → bytes).
Context (collection : bytes) (routes : list (bytes * FuncInvokeRoute)).
Context (intersects : bytes → bytes → bool).

(** The functions whose queryables a query for this key reaches *)
Definition matching_fns (m : InvocationNetworkManager) (key : bytes) : list (bytes * bytes) :=
  filter (λ fk, intersects fk.2 key = true) (map_to_list (queryable_table m)).

(** The same handler serves them all. *)
Fixpoint serve_fns (key : bytes) (p : option bytes) (fns : list (bytes * bytes))
    (o : InvocationOffloader L) : list ZReply * InvocationOffloader L :=
  match fns with
  | [] => ([], o)
  | _ :: fns =>
      let '(resps, o) := Handlers.handle
        (T := InvocationOffloader L)
        (InvocationExecutor0 := offloader_executor fw status_text collection routes) w status_text key p o in
      let '(l, o) := serve_fns key p fns o in
      (((λ r, RSample (enc_response w r)) <$> resps) ++ l, o)
  end.
End serving_fns.

Section reach.
Context {R L : Type} `{Storage R} `{!ReplicationLayer R} `{Codec} `{!InvocationExecutor L}.
Context (fuel : nat) (w : Wire) (max_len : nat) (error_text : NetError → bytes).
Context (intersects : bytes → bytes → bool) `{!KeyExprs intersects}.
Context (fw : FnWorld) (status_text : GrpcStatus → bytes) (routes : list (bytes * FuncInvokeRoute)).
Context (cls : bytes) (pid : BinNums.Z) (Hcls : plain_seg cls).

(** A session connected to a node where the network of a shard and its endpoints for functions
    are declared: a query is answered by all that match, in any order. *)
Class InvSession (Z : Type) `{!ZSession Z} (n : UnifiedShardNetwork) (m : InvocationNetworkManager) := {
  is_shard : Z → Shard R;
  is_offloader : Z → InvocationOffloader L;
  is_connected : Z → Prop;
  law_inv_query all key p z : is_connected z → ∃ eps fns now l z',
    let r := serve fuel w max_len error_text now (plain_query key p) eps (is_shard z) in
    let f := serve_fns fw w status_text cls routes key p fns (is_offloader z) in
    eps ≡ₚ matching intersects n key ∧ fns ≡ₚ matching_fns intersects m key ∧ l ≡ₚ r.1 ++ f.1 ∧
    z_query all key p z = (ZReplies l, z') ∧ is_shard z' = r.2 ∧ is_offloader z' = f.2 ∧
    is_connected z';
}.

(** The endpoints that were declared for functions have the keys of their functions. *)
Definition endpoints_ok (m : InvocationNetworkManager) : Prop :=
  ∀ f k, queryable_table m !! f = Some k → plain_seg f ∧ ∃ stateless,
    k = InvNet.sync_key (address (prefix_of cls pid)) stateless f.

Definition fn_pattern (stateless : bool) (f : bytes) : list bytes :=
  if stateless then [bs "invokes"; f] else [bs "objects"; bs "*"; bs "invokes"; f].

Lemma sync_key_pattern stateless f :
  InvNet.sync_key (address (prefix_of cls pid)) stateless f
  = address (prefix_of cls pid ++ fn_pattern stateless f).
Proof.
  rewrite address_snoc by done. unfold InvNet.sync_key. by destruct stateless.
Qed.

Lemma prefix_segs : Forall plain_seg (prefix_of cls pid).
Proof using Hcls. by apply (prefix_plain cls pid), Forall_app in Hcls as [? _]. Qed.

Lemma fn_pattern_ok st f : plain_seg f →
  Forall no_slash (prefix_of cls pid ++ fn_pattern st f) ∧
  bs "**" ∉ removelast (prefix_of cls pid ++ fn_pattern st f).
Proof using Hcls.
  intros Hp. pose proof prefix_segs as Hpre. pose proof (plain_no_slash _ Hp) as Hns.
  assert (Forall no_slash (fn_pattern st f) ∧ bs "**" ∉ removelast (fn_pattern st f)) as [H1 H2].
  { destruct st; (split; [|decide_now]); repeat (apply Forall_cons_2 || apply Forall_nil_2); try done;
      (split; [decide_now|done]). }
  split.
  - apply Forall_app. split; [|done]. eapply Forall_impl; [exact Hpre|apply plain_no_slash].
  - rewrite removelast_app by (by destruct st). intros [Hin|Hin]%elem_of_app; [|done].
    rewrite Forall_forall in Hpre. destruct (Hpre _ Hin) as [_ Hr]. rewrite Forall_forall in Hr.
    apply (Hr Byte.x2a); [by left|]. decide_now.
Qed.

Lemma sync_key_inj st st' f g : plain_seg f → plain_seg g →
  InvNet.sync_key (address (prefix_of cls pid)) st f
  = InvNet.sync_key (address (prefix_of cls pid)) st' g → st = st' ∧ f = g.
Proof using Hcls.
  intros Hf Hg. rewrite !sync_key_pattern. intros E%(f_equal Path.split_slash).
  rewrite !split_slash_address in E by (try apply fn_pattern_ok; done).
  apply app_inv_head in E. by destruct st, st'; injection E.
Qed.

Lemma fn_matches m f k segs : endpoints_ok m → queryable_table m !! f = Some k →
  Forall plain_seg segs →
  ∃ stateless, k = InvNet.sync_key (address (prefix_of cls pid)) stateless f ∧
  intersects k (address (prefix_of cls pid ++ segs)) = pattern_matches (fn_pattern stateless f) segs.
Proof using Type*.
  intros Hm Hf Hs. destruct (Hm _ _ Hf) as (Hp & st & ->). exists st. split; [done|].
  rewrite sync_key_pattern. pose proof prefix_segs as Hpre. destruct (fn_pattern_ok st f Hp) as [H1 H2].
  rewrite ke_law; [|done|by apply Forall_app|done|done].
  by destruct st; apply pattern_under.
Qed.

(** The queryables of functions that a key reaches are those of one function. *)
Lemma matching_one m f stateless segs :
  endpoints_ok m → queryable_table m !! f = Some (InvNet.sync_key (address (prefix_of cls pid)) stateless f) →
  Forall plain_seg segs →
  (∀ st g, plain_seg g → pattern_matches (fn_pattern st g) segs = true ↔ st = stateless ∧ g = f) →
  matching_fns intersects m (address (prefix_of cls pid ++ segs))
  = [(f, InvNet.sync_key (address (prefix_of cls pid)) stateless f)].
Proof using Type*.
  intros Hm Hf Hs Hpat. set (k := InvNet.sync_key _ stateless f) in *.
  assert (∀ x, x ∈ matching_fns intersects m (address (prefix_of cls pid ++ segs)) ↔ x = (f, k)) as Hx.
  { intros [g k']. unfold matching_fns. rewrite list_elem_of_filter, elem_of_map_to_list.
    cbn [fst snd]. destruct (Hm _ _ Hf) as [Hpl _]. split.
    - intros [Hi Hg]. destruct (fn_matches m g k' segs Hm Hg Hs) as (st & -> & E). rewrite E in Hi.
      apply Hpat in Hi as [-> ->]; [done|]. by apply (Hm _ _ Hg).
    - intros [= -> ->]. split; [|done]. destruct (fn_matches m f k segs Hm Hf Hs) as (st & Ek & E).
      rewrite E. apply Hpat; [done|]. by apply sync_key_inj in Ek as [-> _]. }
  assert (NoDup (matching_fns intersects m (address (prefix_of cls pid ++ segs)))) as Hn
    by (apply NoDup_filter, NoDup_map_to_list).
  destruct (matching_fns _ _ _) as [|x [|y l]].
  - exfalso. by apply (not_elem_of_nil (f, k)), Hx.
  - f_equal. apply Hx. by left.
  - exfalso. assert (x = (f, k)) as -> by (apply Hx; by left).
    assert (y = (f, k)) as -> by (apply Hx; by right; left).
    apply NoDup_cons in Hn as [Hn _]. apply Hn. by left.
Qed.

Definition invoke_key (id f : bytes) : bytes := object_key cls pid [id; bs "invokes"; f].

Lemma after_objects_app pre segs rest :
  Path.after_objects segs = Some rest → Path.after_objects (pre ++ segs) = Some rest.
Proof. intros E. induction pre as [|x pre IH]; [done|]. cbn [app Path.after_objects]. by rewrite IH. Qed.

Lemma invocation_no_entry id f : plain_seg id → plain_seg f →
  Path.parse_entry_request (invoke_key id f) max_len = None.
Proof using Hcls.
  intros Hi Hf. unfold Path.parse_entry_request, invoke_key, object_key.
  rewrite segments_address.
  - assert (∃ rest, Path.after_objects (bs "objects" :: [id; bs "invokes"; f]) = Some rest ∧
      match rest with _ :: w :: _ :: _ => w = bs "invokes" | _ => True end) as (rest & E & Hr).
    { cbn [Path.after_objects]. repeat (case_decide || simpl); try done; eexists; (split; [reflexivity|done]). }
    rewrite (after_objects_app _ _ _ E). simpl. destruct rest as [|x [|y [|z rest]]]; try done.
    by subst y.
  - apply Forall_app. split.
    { eapply Forall_impl; [exact prefix_segs|apply plain_no_slash]. }
    repeat (apply Forall_cons_2 || apply Forall_nil_2); try (by apply plain_no_slash);
      (split; [decide_now|done]).
  - done.
Qed.

(** A query is answered at most once. *)
Lemma few_replies p o resps o' :
  Handlers.handle_invoke_obj (InvocationExecutor0 := offloader_executor fw status_text cls routes)
    w status_text p o = (resps, o') → match resps with _ :: _ :: _ => False | _ => True end.
Proof.
  unfold Handlers.handle_invoke_obj. destruct (Handlers.decode_query _ _) as [e|req].
  { by intros [= <- <-]. }
  destruct (ex_invoke_obj req o) as [r o1]. intros [= <- <-]. by destruct r as [|[]|].
Qed.

Context {Z : Type} `{!ZSession Z} (n : UnifiedShardNetwork) (m : InvocationNetworkManager).
Context `{!InvSession Z n m} (Hn : serving cls pid n) (Hm : endpoints_ok m).

(** A query for the method of an object is answered by the endpoint of its function only. *)
Lemma object_query id f p (z : Z) all :
  is_connected z → plain_seg id → plain_seg f →
  queryable_table m !! f = Some (InvNet.sync_key (address (prefix_of cls pid)) false f) →
  ∃ z', let h := Handlers.handle_invoke_obj (InvocationExecutor0 := offloader_executor fw status_text cls routes)
                   w status_text (Some p) (is_offloader z) in
    z_query all (invoke_key id f) (Some p) z
    = (ZReplies ((λ r, RSample (enc_response w r)) <$> h.1), z') ∧
    is_offloader z' = h.2 ∧ is_shard z' = is_shard z ∧ is_connected z'.
Proof using All.
  intros Hz Hi Hf Hq. pose proof prefix_segs as Hpre.
  assert (Forall plain_seg [id; bs "invokes"; f]) as Hsegs
    by (repeat (apply Forall_cons_2 || apply Forall_nil_2); try done; split; [done|decide_now]).
  destruct (law_inv_query all (invoke_key id f) (Some p) z Hz)
    as (eps & fns & now & l & z' & He & Hfns & Hl & E & Hs & Ho & Hz'). exists z'. cbv zeta.
  unfold invoke_key in He. rewrite (matching_key intersects cls pid n _ Hn Hcls Hsegs) in He.
  assert ((endpoint cls pid <$> filter (λ ep, pattern_matches (tail_of ep) [id; bs "invokes"; f] = true)
      [EpSet; EpGet; EpBatchSet; EpListObjects]) = [endpoint cls pid EpGet]) as Ef.
  { rewrite !filter_cons, filter_nil. simpl tail_of. cbn [pattern_matches].
    rewrite decide_False by (by rewrite ?andb_false_r). rewrite decide_True by done.
    by rewrite !decide_False by (by rewrite ?andb_false_r). }
  rewrite Ef in He. symmetry in He. apply Permutation_singleton_l in He. subst eps.
  assert (serve fuel w max_len error_text now (plain_query (invoke_key id f) (Some p))
    [endpoint cls pid EpGet] (is_shard z) = ([], is_shard z)) as Hg.
  { cbn [serve]. unfold handle. simpl. unfold Net.handle_get. simpl.
    by rewrite (invocation_no_entry id f Hi Hf). }
  rewrite Hg in Hl, Hs. simpl in Hs.
  unfold invoke_key, object_key in Hfns.
  rewrite (matching_one m f false (bs "objects" :: [id; bs "invokes"; f]) Hm Hq) in Hfns.
  2:{ constructor; [split; [done|decide_now]|done]. }
  2:{ intros st g Hgp. destruct st; cbn [fn_pattern pattern_matches].
      - split; [|naive_solver]. by rewrite ?andb_false_r.
      - assert (∀ t, t = bs "**" ∨ t = bs "*" → g ≠ t) as Hw.
        { intros t Ht ->. destruct Hgp as [_ Hr]. destruct Ht as [->| ->];
            (apply Forall_cons in Hr as [Hr _]; apply Hr; decide_now). }
        rewrite (bool_decide_false (g = bs "**")), (bool_decide_false (g = bs "*")) by (apply Hw; auto).
        simpl. rewrite andb_true_r, bool_decide_eq_true. naive_solver. }
  symmetry in Hfns. apply Permutation_singleton_l in Hfns. subst fns.
  assert (Path.split_slash (invoke_key id f) !! 3 = Some (bs "objects")) as H3.
  { unfold invoke_key, object_key. rewrite split_slash_address; [done| |done].
    apply Forall_app. split; [eapply Forall_impl; [exact Hpre|apply plain_no_slash]|].
    constructor; [split; [decide_now|done]|]. eapply Forall_impl; [exact Hsegs|apply plain_no_slash]. }
  cbn [serve_fns] in Hl, Ho. unfold Handlers.handle in Hl, Ho. rewrite H3 in Hl, Ho.
  rewrite bool_decide_true in Hl, Ho by done.
  destruct (Handlers.handle_invoke_obj _ _ _ _) as [resps o'] eqn:Eh. simpl in Hl, Ho |- *.
  rewrite app_nil_r in Hl. rewrite E. split_and!; try done. f_equal. f_equal.
  apply few_replies in Eh. destruct resps as [|r [|]]; simpl in Hl |- *; try done.
  - by apply Permutation_nil_r in Hl.
  - by apply Permutation_singleton_r in Hl.
Qed.

Hypothesis wire_request : ∀ r, dec_obj_invocation w (enc_obj_invocation w r) = inr r.
Hypothesis wire_response : ∀ r, dec_response w (enc_response w r) = inr r.

(** C17. A method called through the gateway is carried out once, by the endpoint of its function on
    the shard of the object, on the request as the client sent it, with the identifier in its
    normal form; the client gets the answer of the function, or the text of the error it
    failed with, and the objects of the shard are not touched by the call itself. *)
Theorem gateway_invokes lib retries oid id f h body (st : GwState Z) :
  is_connected (gw_session st) → normalize_object_id oid 160 = Ok id → plain_seg f →
  queryable_table m !! f = Some (InvNet.sync_key (address (prefix_of cls pid)) false f) →
  let req := {| oi_partition_id := pid; oi_cls_id := cls; oi_fn_id := f;
                oi_options := Rest.request_options lib h; oi_payload := body;
                oi_object_id := Some id |} in
  let run := Offloader.invoke_obj fw status_text cls routes req (is_offloader (gw_session st)) in
  (∀ p, run.1 ≠ Panic p) →
  ∃ resp st', Handlers.answer_of status_text run.1 = [resp] ∧
    Rest.invoke_obj w lib retries {| iop_cls := cls; iop_pid := pid; iop_oid := oid; iop_func := f |}
      h body st = (Ok (Rest.invoke_answer lib h resp), st') ∧
    is_offloader (gw_session st') = run.2 ∧
    is_shard (gw_session st') = is_shard (gw_session st).
Proof using All.
  intros Hz Hid Hf Hq req run Hnp.
  assert (plain_seg id) as Hpl.
  { apply normalize_ok_iff in Hid as (_ & Hnorm). by eapply normal_plain. }
  destruct (object_query id f (enc_obj_invocation w req) (gw_session st) false Hz Hpl Hf Hq)
    as (z' & E & Ho & Hs & _). unfold Handlers.handle_invoke_obj in E, Ho. simpl in E, Ho.
  rewrite wire_request in E, Ho. fold run in E, Ho. destruct run as [r o'] eqn:Er. simpl in *.
  assert (∃ resp, Handlers.answer_of status_text r = [resp]) as [resp Hr].
  { destruct r as [x|e|p]; [by eexists|by destruct e; eexists|by destruct (Hnp p)]. }
  rewrite Hr in E. simpl in E. exists resp.
  exists (Rest.set_session z' (Rest.inc_attempt st)). split; [done|]. split; [|by split].
  unfold Rest.invoke_obj. cbn [iop_oid iop_pid iop_cls iop_func].
  rewrite (bind_ok _ _ _ _ _ (checked_id_ok oid id st Hid)). cbv zeta. fold req.
  erewrite bind_ok; [reflexivity|].
  refine (retrying_ok (ret tt) _ _ _ tt (Rest.inc_attempt st) resp _ eq_refl _).
  apply (zoom_eq gw_session Rest.set_session).
  unfold Proxy.invoke_obj_with_req, Proxy.required. simpl. rewrite bind_ret.
  unfold Proxy.call_zenoh, Proxy.invocation_path, Proxy.query, bind. simpl.
  rewrite path_key. fold (invoke_key id f). rewrite E. simpl.
  unfold Proxy.response. by rewrite wire_response.
Qed.
End reach.

(** ** Starting *)

Section starting.
Context (meta : ShardMetadata).
Notation cls := (sm_collection meta).
Notation pid := (sm_partition_id meta).
Notation start_one r := (if inv_standby r.2 then ret tt
  else InvNet.start_invoke_loop (λ _, None) r.2 r.1 ;;;
       InvNet.start_async_invoke_loop (λ _, None) r.2 r.1).

Definition prefix_ok (m : InvocationNetworkManager) : Prop :=
  inm_prefix m = address (prefix_of cls pid).

Lemma loop_started r f m : prefix_ok m → endpoints_ok cls pid m → plain_seg f →
  ∃ m', InvNet.start_invoke_loop (λ _, None) r f m = (Ok tt, m') ∧ prefix_ok m' ∧
    endpoints_ok cls pid m' ∧
    queryable_table m' = match queryable_table m !! f with
                         | Some _ => queryable_table m
                         | None => <[f := InvNet.sync_key (address (prefix_of cls pid)) (inv_stateless r) f]>
                                     (queryable_table m)
                         end.
Proof.
  intros Hp Hm Hf. unfold InvNet.start_invoke_loop.
  destruct (queryable_table m !! f) as [k|] eqn:E; [by exists m|]. simpl. rewrite Hp.
  eexists. split; [reflexivity|]. split; [done|]. split; [|done].
  intros g k. simpl. destruct (decide (g = f)) as [->|Hne].
  - rewrite lookup_insert_eq. intros [= <-]. eauto.
  - rewrite lookup_insert_ne by done. apply Hm.
Qed.

Lemma async_started r f m : ∃ m', InvNet.start_async_invoke_loop (λ _, None) r f m = (Ok tt, m') ∧
  inm_prefix m' = inm_prefix m ∧ queryable_table m' = queryable_table m.
Proof.
  unfold InvNet.start_async_invoke_loop.
  destruct (async_subscriber_table m !! InvNet.async_id f); [by exists m|by eexists].
Qed.

Lemma started_loop routes m : NoDup routes.*1 → Forall plain_seg routes.*1 →
  prefix_ok m → endpoints_ok cls pid m → (∀ f, f ∈ routes.*1 → queryable_table m !! f = None) →
  ∃ m', for_each (λ r : bytes * FuncInvokeRoute, start_one r) routes m = (Ok tt : res bytes unit, m') ∧ prefix_ok m' ∧ endpoints_ok cls pid m' ∧
  (∀ f, f ∉ routes.*1 → queryable_table m' !! f = queryable_table m !! f) ∧
  ∀ f r, (f, r) ∈ routes → queryable_table m' !! f
    = if inv_standby r then None
      else Some (InvNet.sync_key (address (prefix_of cls pid)) (inv_stateless r) f).
Proof.
  intros Hn Hpl. revert m. induction routes as [|[f0 r0] routes IH]; intros m Hp Hm Hnone.
  { exists m. split; [done|]. split_and!; [done|done|done|]. by intros f r ?%not_elem_of_nil. }
  apply NoDup_cons in Hn as [Hf0 Hn]. apply Forall_cons in Hpl as [Hpf Hpl].
  assert (∃ m1, (start_one (f0, r0)) m = (Ok tt : res bytes unit, m1) ∧ prefix_ok m1 ∧ endpoints_ok cls pid m1 ∧
    (∀ f, f ≠ f0 → queryable_table m1 !! f = queryable_table m !! f) ∧
    queryable_table m1 !! f0 = if inv_standby r0 then None
      else Some (InvNet.sync_key (address (prefix_of cls pid)) (inv_stateless r0) f0))
    as (m1 & E1 & Hp1 & Hm1 & Ho1 & Hq1).
  { simpl. pose proof (Hnone f0 ltac:(simpl; by left)) as H0.
    destruct (inv_standby r0); [by exists m|].
    destruct (loop_started r0 f0 m Hp Hm Hpf) as (m1 & E & Hp' & Hm' & Hq). rewrite H0 in Hq.
    destruct (async_started r0 f0 m1) as (m2 & E2 & Hp2 & Hq2). exists m2.
    rewrite (bind_ok _ _ _ _ _ E). split; [done|]. unfold prefix_ok, endpoints_ok. rewrite Hp2, Hq2, Hq.
    split; [done|]. split; [by rewrite <- Hq|]. split; [|apply lookup_insert_eq].
    intros f Hf. by rewrite lookup_insert_ne. }
  destruct (IH Hn Hpl m1 Hp1 Hm1) as (m' & E & Hp' & Hm' & Ho & Hq).
  { intros f Hf. rewrite Ho1 by set_solver. apply Hnone. simpl. by right. }
  exists m'. split; [cbn [for_each]; by rewrite (bind_ok _ _ _ _ _ E1)|]. split_and!; [done|done| |].
  - intros f Hf. simpl in Hf. apply not_elem_of_cons in Hf as [Hne Hf]. by rewrite Ho, Ho1.
  - intros f r [[= -> ->]|Hin]%elem_of_cons; [by rewrite Ho|by apply Hq].
Qed.

(** When the shard is to serve functions, starting declares an endpoint for every function that is
    not on standby, under the key of the function, and for no other. *)
Theorem start_declares routes : NoDup routes.*1 → Forall plain_seg routes.*1 →
  InvNet.should_set_invoke meta = true →
  ∃ m, InvNet.start (λ _, None) meta routes (InvNet.new meta) = (Ok tt, m) ∧
  endpoints_ok cls pid m ∧ (∀ f, f ∉ routes.*1 → queryable_table m !! f = None) ∧
  ∀ f r, (f, r) ∈ routes → queryable_table m !! f
    = if inv_standby r then None
      else Some (InvNet.sync_key (address (prefix_of cls pid)) (inv_stateless r) f).
Proof.
  intros Hn Hpl Hset. unfold InvNet.start. rewrite Hset.
  destruct (started_loop routes (InvNet.new meta) Hn Hpl) as (m & E & _ & Hm & Ho & Hq); try done.
  by exists m.
Qed.
End starting.

(** ** Examples *)

Module DemoInvocation.
Import Demo DemoGateway.
#[local] Existing Instance matches_exprs.

Definition req_tuple (r : ObjectInvocationRequest) :=
  (oi_partition_id r, oi_cls_id r, oi_fn_id r, oi_options r, oi_payload r, oi_object_id r).
Definition tuple_req (t : Z * bytes * bytes * gmap bytes bytes * bytes * option bytes) :
    ObjectInvocationRequest :=
  let '(p, c, f, o, b, i) := t in
  {| oi_partition_id := p; oi_cls_id := c; oi_fn_id := f; oi_options := o; oi_payload := b;
     oi_object_id := i |}.
Definition resp_tuple (r : InvocationResponse) :=
  (iv_payload r, iv_status r, iv_headers r, iv_invocation_id r).
Definition tuple_resp (t : option bytes * Z * gmap bytes bytes * bytes) : InvocationResponse :=
  let '(p, s, h, i) := t in
  {| iv_payload := p; iv_status := s; iv_headers := h; iv_invocation_id := i |}.

(** Method calls and their answers are sent too. *)
Definition calls : Wire :=
  {| enc_obj := enc_obj wire; dec_obj := dec_obj wire;
     enc_batch := λ _, []; dec_batch := λ _, inl []; enc_empty := []; dec_empty := λ _, inr tt;
     enc_list := λ _, []; dec_list := λ _, inl []; enc_envelope := λ _, []; dec_envelope := λ _, inl [];
     enc_value := λ _, []; dec_value := λ _, inl []; enc_invocation := λ _, [];
     dec_invocation := λ _, inl [];
     enc_obj_invocation := λ r, enc (req_tuple r);
     dec_obj_invocation := λ b, match dec b with inr t => inr (tuple_req t) | inl e => inl e end;
     enc_response := λ r, enc (resp_tuple r);
     dec_response := λ b, match dec b with inr t => inr (tuple_resp t) | inl e => inl e end |}.
Lemma calls_request r : dec_obj_invocation calls (enc_obj_invocation calls r) = inr r.
Proof. simpl. rewrite dec_enc. by destruct r. Qed.
Lemma calls_response r : dec_response calls (enc_response calls r) = inr r.
Proof. simpl. rewrite dec_enc. by destruct r. Qed.

Definition route (url : string) (standby : bool) (group : list Z) : FuncInvokeRoute :=
  {| inv_url := bs url; inv_stateless := false; inv_standby := standby; inv_active_group := group;
     inv_wasm_module_url := None; inv_wasm_fuel := None |}.

(** The function [echo] runs in a container, [spare] only when member 2 is not there. *)
Definition routes : list (bytes * FuncInvokeRoute) :=
  [(bs "echo", route "http://echo" false []); (bs "spare", route "http://spare" true [2%Z])].
Definition meta : ShardMetadata :=
  {| sm_id := 1; sm_collection := bs "cls"; sm_partition_id := 0; sm_owner := Some 1%Z;
     sm_primary := Some 1%Z; sm_replica := [1%Z; 2%Z]; sm_replica_owner := [1%Z];
     sm_shard_type := []; sm_options := ∅ |}.
Definition declared_fns : InvocationNetworkManager :=
  (InvNet.start (λ _, None) meta routes (InvNet.new meta)).2.

(** Functions answer with the payload they are sent, or fail. *)
Definition world (failing : bool) : FnWorld :=
  {| fw_uri := λ _, None; fw_conn := λ _, None;
     fw_answer := λ log,
       match last log with
       | Some (CallObj _ req) =>
           if failing then inl {| gs_code := GUnavailable; gs_message := bs "gone" |}
           else inr (okay (oi_payload req))
       | _ => inr (okay [])
       end |}.
Definition status_text (s : GrpcStatus) : bytes := gs_message s.

Section node.
Context (failing : bool).

Definition Node : Type := Shard MemoryStorage * InvocationOffloader LocalFnOffloader.

Definition asked_fns (key : bytes) (p : option bytes) (o : InvocationOffloader LocalFnOffloader) :=
  serve_fns (world failing) calls status_text (bs "cls") routes key p
    (matching_fns matches declared_fns key) o.
Definition asked_shard (key : bytes) (p : option bytes) (s : Shard MemoryStorage) :=
  serve fuel calls 160 texts 0 (plain_query key p) (matching matches network key) s.

#[export] Instance node_session : ZSession Node := {|
  z_query _ key p z :=
    (ZReplies ((asked_shard key p z.1).1 ++ (asked_fns key p z.2).1),
     ((asked_shard key p z.1).2, (asked_fns key p z.2).2));
  z_delete key z :=
    (SDone, ((Net.handle_sample fuel (decoders calls) 160 true 0 (SampleDelete key) z.1).2, z.2));
  z_valid_key _ := true;
|}.
#[export] Instance node_inv_session : InvSession (R := MemoryStorage) (L := LocalFnOffloader) fuel calls 160
  texts matches (world failing) status_text routes (bs "cls") Node network declared_fns.
Proof.
  refine {| is_shard := fst; is_offloader := snd; is_connected := λ _, True |}. intros all key p z _.
  exists (matching matches network key), (matching_fns matches declared_fns key), 0%Z.
  eexists _, _. cbv zeta. by split_and!.
Defined.

Definition node_gw (local : option LocalFnOffloader) : GwState Node :=
  {| gw_session := (demo3, {| io_pools := {| pools := ∅; fn_log := [] |}; io_local := local;
                             io_has_events := true; io_events := [] |});
     gw_attempt := 0; gw_rejected := 0 |}.
End node.

Lemma fns_started : endpoints_ok (bs "cls") 0 declared_fns ∧
  queryable_table declared_fns !! bs "echo"
  = Some (InvNet.sync_key (address (prefix_of (bs "cls") 0)) false (bs "echo")).
Proof.
  destruct (start_declares meta routes) as (m & E & Hm & _ & Hq).
  - decide_now.
  - repeat (apply Forall_cons_2 || apply Forall_nil_2); (split; [done|decide_now]).
  - reflexivity.
  - unfold declared_fns. rewrite E. split; [exact Hm|]. apply (Hq _ (route "http://echo" false [])). by left.
Qed.

Definition first_call (failing : bool) : res GatewayError HttpAnswer * GwState Node :=
  Rest.invoke_obj (ZSession0 := node_session failing) calls lib 0
    {| iop_cls := bs "cls"; iop_pid := 0; iop_oid := bs "O"; iop_func := bs "echo" |}
    headers (bs "hello") (node_gw None).

Lemma gateway_invokes_witness : ∃ a st', first_call false = (Ok a, st') ∧
  ha_body a = bs "hello" ∧ length (io_events (gw_session st').2) = 1.
Proof.
  destruct (gateway_invokes (R := MemoryStorage) (L := LocalFnOffloader) fuel calls 160 texts matches
    (world false) status_text routes (bs "cls") 0 ltac:(split; [done|decide_now]) network declared_fns
    (InvSession0 := node_inv_session false) ltac:(vm_compute; reflexivity) (proj1 fns_started)
    calls_request calls_response lib 0 (bs "O") (bs "o") (bs "echo") headers (bs "hello")
    (node_gw None)) as (resp & st' & Hr & E & Ho & _).
  - exact I.
  - reflexivity.
  - split; [done|decide_now].
  - exact (proj2 fns_started).
  - intros p. vm_compute. discriminate.
  - vm_compute in Hr. injection Hr as <-. exists (Rest.invoke_answer lib headers (okay (bs "hello"))), st'.
    split; [exact E|]. split; [reflexivity|]. refine (eq_trans (f_equal (λ o, length (io_events o)) Ho) _).
    vm_compute. reflexivity.
Defined.

Lemma standby_follows_witness :
  active (InvNet.on_liveliness_updated (λ _, None) meta routes {[ 2%Z := false ]} declared_fns) (bs "spare") ∧
  inactive (InvNet.on_liveliness_updated (λ _, None) meta routes {[ 2%Z := true ]} declared_fns) (bs "spare") ∧
  same_endpoints declared_fns
    (InvNet.on_liveliness_updated (λ _, None) meta routes {[ 2%Z := true ]} declared_fns) (bs "echo").
Proof.
  assert (NoDup routes.*1) as Hn by decide_now.
  destruct (standby_follows meta routes Hn {[ 2%Z := false ]} declared_fns) as [H1 _].
  destruct (standby_follows meta routes Hn {[ 2%Z := true ]} declared_fns) as [H2 H3].
  specialize (H1 (bs "spare") (route "http://spare" true [2%Z]) ltac:(by right; left) eq_refl).
  specialize (H2 (bs "spare") (route "http://spare" true [2%Z]) ltac:(by right; left) eq_refl).
  destruct (InvNet.should_active meta {[ 2%Z := false ]} (route "http://spare" true [2%Z])) eqn:E1 in H1;
    [|vm_compute in E1; discriminate].
  destruct (InvNet.should_active meta {[ 2%Z := true ]} (route "http://spare" true [2%Z])) eqn:E2 in H2;
    [vm_compute in E2; discriminate|].
  split; [exact H1|]. split; [exact H2|]. apply H3. intros r Hr.
  apply elem_of_cons in Hr as [[= ->]|Hr]; [done|]. apply elem_of_cons in Hr as [[=]|Hr].
  by apply not_elem_of_nil in Hr.
Defined.

(** A method that fails is answered like one that succeeds, the text of the error as the body. *)
Example failure_is_200 : ∃ st', first_call true
  = (Ok {| ha_status := 200; ha_content_type := bs "application/octet-stream"; ha_body := bs "gone" |}, st').
Proof. eexists. vm_compute. reflexivity. Qed.

(** The pool of a route keeps the address it was made with when the table changes. *)
Definition table (url : string) : RoutingTable :=
  Routes.sync [{| cr_name := bs "cls"; cr_routing := [{| pr_functions := {[ bs "f" := bs url ]} |}] |}] ∅.
Definition to_f : Routable := {| rt_cls := bs "cls"; rt_func := bs "f"; rt_partition := 0 |}.
Example route_is_stale :
  let s := (Conn.get (world false) (Conn.create_route (world false) (table "http://old")) to_f
              {| pools := ∅; fn_log := [] |}).2 in
  Routes.get_route (table "http://new") to_f = Ok (bs "http://new") ∧
  (Conn.get (world false) (Conn.create_route (world false) (table "http://new")) to_f s).1
  = Ok (bs "http://old").
Proof. by vm_compute. Qed.

(** A shard that has an executor of WASM functions sends it every function, also those that run in
    containers; called through the network the same function is found. *)
Definition invoker : ShardInvoker LocalFnOffloader :=
  {| si_offloader := Offloader.set_local (Some LocalFn.new) (Offloader.new false); si_has_offloader := true |}.
Definition echo : ObjectInvocationRequest :=
  {| oi_partition_id := 0; oi_cls_id := bs "cls"; oi_fn_id := bs "echo"; oi_options := ∅;
     oi_payload := bs "x"; oi_object_id := Some (bs "o") |}.
Example container_fn_not_found :
  (ShardInvoke.invoke_obj (world false) status_text (bs "cls") routes echo invoker).1
    = Err (ONoFunc (bs "cls") (bs "echo")) ∧
  (Offloader.invoke_obj (world false) status_text (bs "cls") routes echo (si_offloader invoker)).1
    = Ok (okay (bs "x")).
Proof. by vm_compute. Qed.
End DemoInvocation.
