(* ===== verification/WasmStore.v ===== *)
(** * WASM modules

    [data-plane/oprc-wasm/src/store.rs]: fetching modules from files, over HTTP and from OCI
    registries with their authentication, and the cache of compiled components. Files and HTTP
    servers are a parameter ([Web]) that sees the history of the requests; compiling and the JSON
    parser are parameters too. An error is known by the text it is displayed with. *)

From stdpp Require Import base tactics list numbers option gmap sorting strings.
From Stdlib Require Import Lia.
From S2P Require Import Prelude BTree Routing Json ClassRuntime.

Set Default Proof Using "Type".
Open Scope prog_scope.

(** ** The world *)

Inductive Auth : Type := NoAuth | BasicAuth (user pass : bytes) | BearerAuth (token : bytes).

Inductive WebRequest : Type :=
| ReadFile (path : bytes)
| HttpGet (url : bytes) (accept : list bytes) (auth : Auth).

(** The body, or the error of reading it *)
Record WebReply := { wb_status : Z; wb_www_auth : option bytes; wb_body : bytes + bytes }.

(** [web_send] answers the last of the requests; [web_env] are the environment variables. *)
Record Web := {
  web_send : list WebRequest → bytes + WebReply;
  web_status_text : Z → bytes;
  web_env : bytes → option bytes;
  web_json : bytes → option Value;
}.

(** ** Texts *)

Fixpoint find_byte (c : byte) (s : bytes) : option (bytes * bytes) :=
  match s with
  | [] => None
  | b :: s => if decide (b = c) then Some ([], s)
              else '(l, r) ← find_byte c s; Some (b :: l, r)
  end.

(** [str::rfind] *)
Definition rfind_byte (c : byte) (s : bytes) : option (bytes * bytes) :=
  '(l, r) ← find_byte c (reverse s); Some (reverse r, reverse l).

(** [str::find] of a text: what follows it *)
Fixpoint find_text (needle s : bytes) : option bytes :=
  if starts_with needle s then Some (drop (length needle) s)
  else match s with [] => None | _ :: s => find_text needle s end.

Definition strip_prefix (p s : bytes) : option bytes :=
  if starts_with p s then Some (drop (length p) s) else None.

(** ** OCI registries *)

Record OciReference := { oci_proto : bytes; oci_registry : bytes; oci_repo : bytes; oci_ref : bytes }.

Module Oci.

(** The part of [fetch_oci_module] that reads the URL *)
Definition parse_reference (url : bytes) : res bytes OciReference :=
  let scheme :=
    match strip_prefix (bs "oci+http://") url with
    | Some r => Some (bs "http", r)
    | None => r ← strip_prefix (bs "oci://") url; Some (bs "https", r)
    end in
  match scheme with
  | None => Err (bs "expected oci:// scheme")
  | Some (proto, reference) =>
      match find_byte Byte.x2f reference with
      | None => Err (bs "OCI reference must be registry/repo:tag")
      | Some (registry, rest) =>
          let '(repo, ref_str) :=
            match find_byte Byte.x40 rest with
            | Some (repo, digest) => (repo, digest)
            | None =>
                match rfind_byte Byte.x3a rest with
                | Some (repo, tag) => (repo, tag)
                | None => (rest, bs "latest")
                end
            end in
          Ok {| oci_proto := proto; oci_registry := registry; oci_repo := repo; oci_ref := ref_str |}
      end
  end.

(** [oci_append_query] *)
Definition append_query (url key val : bytes) : bytes :=
  url ++ (if bool_decide (Byte.x3f ∈ url) then bs "&" else bs "?") ++ key ++ bs "=" ++ val.

Definition quote : byte := Byte.x22.

Definition parse_bearer_param (header param : bytes) : res bytes bytes :=
  match find_text (param ++ bs "=" ++ [quote]) header with
  | None => Err (bs "Www-Authenticate missing '" ++ param ++ bs "'")
  | Some rest =>
      match find_byte quote rest with
      | Some (value, _) => Ok value
      | None => Err (bs "unterminated quoted value in Www-Authenticate")
      end
  end.

(** [value["key"]] of a field that is text *)
Definition text_field (k : string) (v : Value) : option bytes :=
  Text.utf8 <$> (Json.get (lit k) v ≫= Json.as_str).

Definition token_of (v : Value) : option bytes :=
  match text_field "token" v with Some t => Some t | None => text_field "access_token" v end.

(** The layer of the module: one of its media type, or else the first *)
Definition wasm_layer (layers : list Value) : option Value :=
  match filter (λ l, text_field "mediaType" l = Some (bs "application/wasm")) layers with
  | l :: _ => Some l
  | [] => head layers
  end.

Section oci.
Context (web : Web).

Notation F A := (M (list WebRequest) bytes A).

Definition send (q : WebRequest) (on_error : bytes → bytes) : F WebReply := λ log,
  (match web_send web (log ++ [q]) with
   | inr r => Ok r
   | inl e => Err (on_error e)
   end, log ++ [q]).

Definition is_success (status : Z) : bool := (200 <=? status)%Z && (status <=? 299)%Z.

Definition body (r : WebReply) : F bytes :=
  lift_res (match wb_body r with inr b => Ok b | inl e => Err e end).

Definition some_or {A} (o : option A) (msg : string) : F A :=
  lift_res (match o with Some a => Ok a | None => Err (bs msg) end).

Definition refused (r : WebReply) (url : bytes) : bytes :=
  bs "OCI " ++ web_status_text web (wb_status r) ++ bs " " ++ url.

Definition get_url (url : bytes) : bytes := bs "GET " ++ url.

(** The retry with an authorization *)
Definition get_with (url : bytes) (accept : list bytes) (auth : Auth) (how : string) : F bytes :=
  let! r := send (HttpGet url accept auth) (λ _, get_url url ++ bs how) in
  if is_success (wb_status r) then body r else throw (refused r url).

Definition credential_auth (credentials : option (bytes * bytes)) : Auth :=
  match credentials with Some (u, p) => BasicAuth u p | None => NoAuth end.

Definition bearer_token (www_auth : bytes) (credentials : option (bytes * bytes)) : F bytes :=
  let! realm := lift_res (res_map_err (λ _, bs "Www-Authenticate missing 'realm'")
                            (parse_bearer_param www_auth (bs "realm"))) in
  let with_param url (p : string) :=
    match parse_bearer_param www_auth (bs p) with
    | Ok v => append_query url (bs p) v
    | _ => url
    end in
  let token_url := with_param (with_param realm "service") "scope" in
  let! r := send (HttpGet token_url [] (credential_auth credentials))
              (λ _, bs "OCI token endpoint request failed") in
  if is_success (wb_status r) then
    let! b := body r in
    let! v := some_or (web_json web b) "OCI token response not JSON" in
    some_or (token_of v) "OCI token response missing 'token' / 'access_token' field"
  else throw (bs "OCI token endpoint " ++ web_status_text web (wb_status r) ++ bs " " ++ realm).

(** Without a challenge and credentials *)
Definition anonymous_token (registry repo proto : bytes) : F bytes :=
  let! r := send (HttpGet (proto ++ bs "://" ++ registry ++ bs "/service/token?scope=repository:"
                           ++ repo ++ bs ":pull") [] NoAuth) id in
  if is_success (wb_status r) then
    let! b := body r in
    let! v := some_or (web_json web b) "OCI anonymous token response not JSON" in
    some_or (token_of v) "OCI anonymous token missing 'token' field"
  else throw (bs "OCI registry requires authentication and no credentials provided").

Definition oci_get (url : bytes) (accept : list bytes) (credentials : option (bytes * bytes))
    (registry repo proto : bytes) : F bytes :=
  let! resp := send (HttpGet url accept NoAuth) (λ _, get_url url) in
  if (wb_status resp =? 401)%Z then
    match wb_www_auth resp with
    | Some header =>
        let! token := bearer_token header credentials in
        get_with url accept (BearerAuth token) " (bearer)"
    | None =>
        match credentials with
        | Some (u, p) => get_with url accept (BasicAuth u p) " (basic auth)"
        | None =>
            let! token := anonymous_token registry repo proto in
            get_with url accept (BearerAuth token) " (bearer)"
        end
    end
  else if is_success (wb_status resp) then body resp
  else throw (refused resp url).

Definition credentials : option (bytes * bytes) :=
  user ← web_env web (bs "OCI_USERNAME"); pass ← web_env web (bs "OCI_PASSWORD"); Some (user, pass).

Definition manifest_types : list bytes :=
  [bs "application/vnd.oci.image.manifest.v1+json";
   bs "application/vnd.docker.distribution.manifest.v2+json"].

Definition fetch_oci_module (url : bytes) : F bytes :=
  let! r := lift_res (parse_reference url) in
  let base := oci_proto r ++ bs "://" ++ oci_registry r ++ bs "/v2/" ++ oci_repo r in
  let! manifest_bytes := map_err (λ _, bs "failed to fetch OCI manifest")
    (oci_get (base ++ bs "/manifests/" ++ oci_ref r) manifest_types credentials
       (oci_registry r) (oci_repo r) (oci_proto r)) in
  let! manifest := some_or (web_json web manifest_bytes) "OCI manifest is not valid JSON" in
  let! layers := some_or (Json.get (lit "layers") manifest ≫= Json.as_array)
                   "OCI manifest missing 'layers' array" in
  let! layer := some_or (wasm_layer layers) "OCI manifest has no layers" in
  let! digest := some_or (text_field "digest" layer) "OCI layer missing 'digest'" in
  map_err (λ _, bs "failed to fetch OCI blob")
    (oci_get (base ++ bs "/blobs/" ++ digest) [] credentials
       (oci_registry r) (oci_repo r) (oci_proto r)).

Definition fetch_module (url : bytes) : F bytes :=
  match strip_prefix (bs "file://") url with
  | Some path =>
      let! r := send (ReadFile path) (λ _, bs "failed to read WASM module from " ++ path) in
      body r
  | None =>
      if starts_with (bs "http://") url || starts_with (bs "https://") url then
        let! r := send (HttpGet url [] NoAuth) (λ _, bs "failed to fetch WASM module from " ++ url) in
        if is_success (wb_status r) then
          map_err (λ _, bs "failed to read response body from " ++ url) (body r)
        else throw (bs "HTTP " ++ web_status_text web (wb_status r)
                      ++ bs " fetching WASM module from " ++ url)
      else if starts_with (bs "oci://") url || starts_with (bs "oci+http://") url
      then fetch_oci_module url
      else throw (bs "unsupported WASM module URL scheme: " ++ url)
  end.
End oci.
End Oci.

(** ** The cache *)

Inductive WorldType : Type := Legacy | ObjectOriented.

Record CompiledModule (C : Type) := { cm_component : C; cm_source_url : bytes; cm_world_type : WorldType }.
Arguments cm_component {C} _.
Arguments cm_source_url {C} _.
Arguments cm_world_type {C} _.

(** [Component::from_binary] and the names a component exports *)
Record Engine (C : Type) := { en_compile : bytes → bytes + C; en_exports : C → list bytes }.
Arguments en_compile {C} _.
Arguments en_exports {C} _.

(** The modules by the identifiers of functions, and the requests made for them *)
Record WasmModuleStore (C : Type) := { modules : gmap bytes (CompiledModule C); ms_log : list WebRequest }.
Arguments modules {C} _.
Arguments ms_log {C} _.

Module ModuleStore.
Section store.
Context {C : Type} (web : Web) (en : Engine C).

Notation S A := (M (WasmModuleStore C) bytes A).

Definition new : WasmModuleStore C := {| modules := ∅; ms_log := [] |}.
Definition set_log (x : list WebRequest) (s : WasmModuleStore C) : WasmModuleStore C :=
  {| modules := modules s; ms_log := x |}.

(** [str::contains] *)
Definition contains (sub s : bytes) : bool := bool_decide (is_Some (find_text sub s)).

Definition detect_world_type (c : C) : WorldType :=
  if existsb (contains (bs "guest-object")) (en_exports en c) then ObjectOriented else Legacy.

Definition insert (fn_id : bytes) (m : CompiledModule C) (s : WasmModuleStore C) : WasmModuleStore C :=
  {| modules := <[fn_id := m]> (modules s); ms_log := ms_log s |}.

Definition compile (url bytes : bytes) : S (CompiledModule C) :=
  lift_res match en_compile en bytes with
           | inr c => Ok {| cm_component := c; cm_source_url := url;
                            cm_world_type := detect_world_type c |}
           | inl e => Err e
           end.

Definition load (fn_id url : bytes) : S (CompiledModule C) :=
  let! b := zoom ms_log set_log (Oci.fetch_module web url) in
  let! m := compile url b in
  modify (insert fn_id m) ;;; ret m.

Definition load_from_bytes (fn_id b : bytes) : S (CompiledModule C) :=
  let! m := compile (bs "bytes://") b in
  modify (insert fn_id m) ;;; ret m.

Definition get (fn_id : bytes) (s : WasmModuleStore C) : option (CompiledModule C) := modules s !! fn_id.
Definition remove (fn_id : bytes) (s : WasmModuleStore C) : bool * WasmModuleStore C :=
  (bool_decide (is_Some (modules s !! fn_id)),
   {| modules := delete fn_id (modules s); ms_log := ms_log s |}).
Definition len (s : WasmModuleStore C) : nat := size (modules s).
Definition is_empty (s : WasmModuleStore C) : bool := (len s =? 0).
End store.
End ModuleStore.

(** ** References *)

Lemma find_byte_Some c s l r : find_byte c s = Some (l, r) ↔ s = l ++ c :: r ∧ c ∉ l.
Proof.
  revert l r. induction s as [|b s IH]; intros l r; simpl.
  - split; [done|]. intros [E _]. by destruct l.
  - destruct (decide (b = c)) as [->|Hb].
    + split; [intros [= <- <-]; split; [done|apply not_elem_of_nil]|]. intros [E Hc].
      destruct l as [|b' l]; [by injection E as <-|]. injection E as -> _. destruct Hc. by left.
    + destruct (find_byte c s) as [[l' r']|] eqn:E; simpl.
      * destruct (proj1 (IH l' r') eq_refl) as [-> Hc]. split.
        -- intros [= <- <-]. split; [done|]. by apply not_elem_of_cons.
        -- intros [Es Hl]. destruct l as [|b' l]; [by injection Es|]. injection Es as <- Es.
           apply not_elem_of_cons in Hl as [_ Hl]. assert (Some (l', r') = Some (l, r)) as [= -> ->]; [|done].
           by apply IH.
      * split; [done|]. intros [Es Hl]. destruct l as [|b' l]; [by injection Es|]. injection Es as <- Es.
        apply not_elem_of_cons in Hl as [_ Hl]. by assert (None = Some (l, r)) by (by apply IH).
Qed.

Lemma find_byte_None c s : c ∉ s → find_byte c s = None.
Proof.
  intros Hc. destruct (find_byte c s) as [[l r]|] eqn:E; [|done].
  apply find_byte_Some in E as [-> _]. destruct Hc. set_solver.
Qed.

Lemma rfind_byte_last c l r : c ∉ r → rfind_byte c (l ++ c :: r) = Some (l, r).
Proof.
  intros Hc. unfold rfind_byte. rewrite reverse_app, reverse_cons, <- app_assoc. simpl.
  rewrite (proj2 (find_byte_Some c _ (reverse r) (reverse l))).
  - simpl. by rewrite !reverse_involutive.
  - split; [done|]. by rewrite elem_of_reverse.
Qed.

Lemma rfind_byte_None c s : c ∉ s → rfind_byte c s = None.
Proof. intros Hc. unfold rfind_byte. rewrite find_byte_None; [done|]. by rewrite elem_of_reverse. Qed.

Definition oci_url (registry repo suffix : bytes) : bytes :=
  bs "oci://" ++ registry ++ Byte.x2f :: repo ++ suffix.

(** What a reference names: a tag after the last colon, a digest after the first at sign, or the
    tag [latest]. A registry may carry a port. *)
Theorem references_parsed registry repo : Byte.x2f ∉ registry → Byte.x40 ∉ repo →
  let named r := Ok {| oci_proto := bs "https"; oci_registry := registry; oci_repo := repo; oci_ref := r |} in
  (∀ tag, Byte.x40 ∉ tag → Byte.x3a ∉ tag →
     Oci.parse_reference (oci_url registry repo (Byte.x3a :: tag)) = named tag) ∧
  (∀ digest, Oci.parse_reference (oci_url registry repo (Byte.x40 :: digest)) = named digest) ∧
  (Byte.x3a ∉ repo → Oci.parse_reference (oci_url registry repo []) = named (bs "latest")).
Proof.
  intros Hr Hp named.
  assert (∀ suffix, Oci.parse_reference (oci_url registry repo suffix)
    = let '(repo', r) := match find_byte Byte.x40 (repo ++ suffix) with
                        | Some x => x
                        | None => match rfind_byte Byte.x3a (repo ++ suffix) with
                                  | Some x => x | None => (repo ++ suffix, bs "latest") end end in
      Ok {| oci_proto := bs "https"; oci_registry := registry; oci_repo := repo'; oci_ref := r |}) as E.
  { intros suffix. unfold Oci.parse_reference, oci_url.
    change (strip_prefix (bs "oci+http://") _) with (@None bytes).
    change (strip_prefix (bs "oci://") _) with (Some (registry ++ Byte.x2f :: repo ++ suffix)).
    cbn [mbind option_bind]. rewrite (proj2 (find_byte_Some Byte.x2f _ registry (repo ++ suffix))) by done.
    destruct (find_byte _ _) as [[??]|]; [done|]. by destruct (rfind_byte _ _) as [[??]|]. }
  split; [|split].
  - intros tag H1 H2. rewrite E, find_byte_None by set_solver. by rewrite rfind_byte_last.
  - intros digest. rewrite E. by rewrite (proj2 (find_byte_Some Byte.x40 _ repo digest)).
  - intros Hc. rewrite E, app_nil_r, find_byte_None by done. by rewrite rfind_byte_None.
Qed.

(** ** Requests *)

Section requests.
Context (web : Web).

(** [m] makes at most [n] requests, all of which satisfy [Q]. *)
Definition sends {A} (n : nat) (Q : WebRequest → Prop) (m : M (list WebRequest) bytes A) : Prop :=
  ∀ log, ∃ l, (m log).2 = log ++ l ∧ length l ≤ n ∧ Forall Q l.

Definition auth_of (q : WebRequest) : Auth :=
  match q with ReadFile _ => NoAuth | HttpGet _ _ a => a end.

(** The name and the password are those of the environment. *)
Definition configured (q : WebRequest) : Prop :=
  ∀ u p, auth_of q = BasicAuth u p → Oci.credentials web = Some (u, p).

Definition unchallenged : Prop := ∀ log r, web_send web log = inr r → wb_status r ≠ 401%Z.

Definition careful (q : WebRequest) : Prop := configured q ∧ (unchallenged → auth_of q = NoAuth).

Lemma sends_none {A} Q (m : M (list WebRequest) bytes A) : (∀ log, (m log).2 = log) → sends 0 Q m.
Proof. intros Hm log. exists []. rewrite Hm, app_nil_r. by split_and!. Qed.

Lemma sends_le {A} n n' Q (m : M (list WebRequest) bytes A) : sends n Q m → n ≤ n' → sends n' Q m.
Proof. intros Hm Hn log. destruct (Hm log) as (l & ? & ? & ?). exists l. split_and!; [done|lia|done]. Qed.

Lemma sends_bind {A B} n n' Q (m : M (list WebRequest) bytes A) (k : A → M _ _ B) :
  sends n Q m → (∀ a, sends n' Q (k a)) → sends (n + n') Q (bind m k).
Proof.
  intros Hm Hk log. destruct (Hm log) as (l & E & Hl & Hq). unfold bind.
  destruct (m log) as [[a|e|p] log']; simpl in E; subst log'; simpl.
  - destruct (Hk a (log ++ l)) as (l' & -> & Hl' & Hq'). exists (l ++ l'). rewrite app_assoc, length_app.
    split_and!; [done|lia|]. by apply Forall_app.
  - exists l. split_and!; [done|lia|done].
  - exists l. split_and!; [done|lia|done].
Qed.

Lemma sends_then {A B} n Q (m : M (list WebRequest) bytes A) (k : A → M _ _ B) :
  (∀ log, (m log).2 = log) → (∀ a, sends n Q (k a)) → sends n Q (bind m k).
Proof. intros Hm Hk. by apply (sends_bind 0 n), Hk; apply sends_none. Qed.

Lemma sends_map_err {A} n Q f (m : M (list WebRequest) bytes A) : sends n Q m → sends n Q (map_err f m).
Proof.
  intros Hm log. destruct (Hm log) as (l & E & H). exists l. unfold map_err.
  by destruct (m log) as [[] ?].
Qed.

Lemma sends_send Q q f : Q q → sends 1 Q (Oci.send web q f).
Proof. intros Hq log. exists [q]. split; [done|]. split; [done|]. by constructor. Qed.

(** A request followed by the reading of its answer *)
Lemma sends_read {B} q f (k : WebReply → M _ _ B) : careful q →
  (∀ r log, (k r log).2 = log) → sends 1 careful (bind (Oci.send web q f) k).
Proof.
  intros Hq Hk. apply (sends_bind 1 0); [by apply sends_send|]. intros r. by apply sends_none.
Qed.

Lemma careful_plain url accept : careful (HttpGet url accept NoAuth).
Proof. by split. Qed.

(** After a challenge anything may be said. *)
Lemma careful_challenged q : ¬ unchallenged → configured q → careful q.
Proof. by split. Qed.

Lemma credential_configured url accept : configured (HttpGet url accept (Oci.credential_auth (Oci.credentials web))).
Proof. intros u p. simpl. destruct (Oci.credentials web) as [[??]|]; simpl; congruence. Qed.

Lemma lift_stays {A} (x : res bytes A) (log : list WebRequest) : (lift_res x log).2 = log.
Proof. done. Qed.

Lemma get_with_sends url accept a how : careful (HttpGet url accept a) →
  sends 1 careful (Oci.get_with web url accept a how).
Proof. intros Ha. apply sends_read; [done|]. intros r log. by destruct (Oci.is_success _). Qed.

(** The token in the body of an answer *)
Lemma token_stays r m1 m2 other log :
  ((if Oci.is_success (wb_status r)
    then let! b := Oci.body r in let! v := Oci.some_or (web_json web b) m1 in Oci.some_or (Oci.token_of v) m2
    else throw other) log).2 = log.
Proof.
  destruct (Oci.is_success _); [|done]. unfold bind, Oci.body, Oci.some_or, lift_res.
  destruct (wb_body r) as [e|b]; [done|]. by destruct (web_json web b).
Qed.

Lemma bearer_token_sends header : ¬ unchallenged →
  sends 1 careful (Oci.bearer_token web header (Oci.credentials web)).
Proof.
  intros Hu. apply sends_then; [done|]. intros realm. cbv zeta.
  apply sends_read; [apply careful_challenged, credential_configured; done|]. intros r log. apply token_stays.
Qed.

Lemma anonymous_token_sends registry repo proto :
  sends 1 careful (Oci.anonymous_token web registry repo proto).
Proof. apply sends_read; [apply careful_plain|]. intros r log. apply token_stays. Qed.

Lemma oci_get_sends url accept registry repo proto :
  sends 3 careful (Oci.oci_get web url accept (Oci.credentials web) registry repo proto).
Proof.
  intros log. unfold Oci.oci_get, bind at 1, Oci.send at 1.
  destruct (web_send web (log ++ [HttpGet url accept NoAuth])) as [e|r] eqn:E; simpl.
  { exists [HttpGet url accept NoAuth]. split; [done|]. split; [simpl; lia|]. constructor; [apply careful_plain|done]. }
  destruct (wb_status r =? 401)%Z eqn:Es.
  2:{ exists [HttpGet url accept NoAuth]. split; [by destruct (Oci.is_success _)|]. split; [simpl; lia|].
      constructor; [apply careful_plain|done]. }
  assert (¬ unchallenged) as Hu. { intros Hu. apply (Hu _ _ E). by apply Z.eqb_eq. }
  assert (∀ t, careful (HttpGet url accept (BearerAuth t))) as Hb by (intros t; by apply careful_challenged).
  assert (∀ m : M (list WebRequest) bytes bytes, sends 2 careful m →
    ∃ l, (m (log ++ [HttpGet url accept NoAuth])).2 = log ++ l ∧ length l ≤ 3 ∧ Forall careful l) as Hm.
  { intros m Hm. destruct (Hm (log ++ [HttpGet url accept NoAuth])) as (l & -> & Hl & Hq).
    exists (HttpGet url accept NoAuth :: l). rewrite <- app_assoc. split; [done|]. split; [simpl; lia|].
    constructor; [apply careful_plain|done]. }
  apply Hm. destruct (wb_www_auth r) as [header|].
  - apply (sends_bind 1 1); [by apply bearer_token_sends|]. intros token. by apply get_with_sends.
  - destruct (Oci.credentials web) as [[u p]|] eqn:Ec.
    + apply (sends_le 1); [|lia]. apply get_with_sends, careful_challenged; [done|].
      intros u' p' [= <- <-]. done.
    + apply (sends_bind 1 1); [apply anonymous_token_sends|]. intros token. by apply get_with_sends.
Qed.

(** Fetching a module makes at most six requests, whatever the servers answer. A name and password
    are sent only if the environment holds them, and nothing is sent to authenticate before a server
    has asked for it. *)
Theorem fetch_requests url log : ∃ l,
  (Oci.fetch_module web url log).2 = log ++ l ∧ length l ≤ 6 ∧
  Forall (λ q, (∀ u p, auth_of q = BasicAuth u p → Oci.credentials web = Some (u, p)) ∧
               (unchallenged → auth_of q = NoAuth)) l.
Proof.
  revert log. change (sends 6 careful (Oci.fetch_module web url)). unfold Oci.fetch_module.
  destruct (strip_prefix _ _) as [path|].
  { apply (sends_le 1); [|lia]. by apply sends_read. }
  destruct (_ || _).
  { apply (sends_le 1); [|lia]. apply sends_read; [apply careful_plain|]. intros r l.
    destruct (Oci.is_success _); [|done]. unfold map_err. by destruct (Oci.body r l) as [[] ?] eqn:E;
      injection E as _ <-. }
  destruct (_ || _); [|by apply (sends_le 0); [apply sends_none|lia]].
  unfold Oci.fetch_oci_module. apply sends_then; [done|]. intros ref. cbv zeta.
  apply (sends_bind 3 3); [apply sends_map_err, oci_get_sends|]. intros manifest.
  repeat (apply sends_then; [done|]; intros ?). apply sends_map_err, oci_get_sends.
Qed.
End requests.

(** ** Servers without a memory *)

Section steady.
Context (web : Web).
Hypothesis memoryless : ∀ log log' q, web_send web (log ++ [q]) = web_send web (log' ++ [q]).

(** The outcome does not depend on what was asked before. *)
Definition steady {A} (m : M (list WebRequest) bytes A) : Prop := ∀ log log', (m log).1 = (m log').1.

Lemma steady_bind {A B} (m : M (list WebRequest) bytes A) (k : A → M _ _ B) :
  steady m → (∀ a, steady (k a)) → steady (bind m k).
Proof.
  intros Hm Hk log log'. specialize (Hm log log'). unfold bind.
  destruct (m log) as [r l], (m log') as [r' l']. simpl in Hm. subst r'. destruct r; [apply Hk|done..].
Qed.

Lemma steady_map_err {A} f (m : M (list WebRequest) bytes A) : steady m → steady (map_err f m).
Proof.
  intros Hm log log'. specialize (Hm log log'). unfold map_err.
  destruct (m log) as [r l], (m log') as [r' l']. simpl in Hm. subst r'. by destruct r.
Qed.

Lemma steady_send q f : steady (Oci.send web q f).
Proof using All. intros log log'. unfold Oci.send. simpl. by rewrite (memoryless log log'). Qed.

Lemma steady_lift {A} (x : res bytes A) : steady (lift_res x).
Proof. done. Qed.


Ltac steady := repeat first
  [ apply steady_bind | apply steady_map_err | apply steady_send | progress cbv zeta
  | match goal with |- ∀ _, _ => intros ? end
  | match goal with |- steady (if ?b then _ else _) => destruct b end
  | match goal with |- steady (match ?o with _ => _ end) => destruct o end
  | done ].

Lemma steady_get url accept credentials registry repo proto :
  steady (Oci.oci_get web url accept credentials registry repo proto).
Proof using All.
  unfold Oci.oci_get, Oci.bearer_token, Oci.anonymous_token, Oci.get_with. steady.
Qed.

Lemma fetch_steady url : steady (Oci.fetch_module web url).
Proof using All.
  unfold Oci.fetch_module, Oci.fetch_oci_module. repeat first [apply steady_get | progress steady].
Qed.
End steady.
