(* ===== verification/Wasm.v ===== *)
(** * The host of WASM functions

    [data-plane/oprc-wasm/src/{host,object_host,executor,adapter}.rs] and
    [data-plane/oprc-odgm/src/wasm_bridge.rs]: what the two worlds of [wit/oaas.wit] offer to a
    guest, the executor that runs a module, and the shard as the data a guest works on. A guest is
    the tree of its calls to the host: it returns, traps or calls and goes on with the answer;
    since it runs on fuel the tree is well founded. What modules there are and what they do is a
    parameter ([Runtime]). A call that never returns is a [Panic]: a remote query that is never
    answered, or more nested invocations than the process has room for. *)

From stdpp Require Import base tactics list numbers option gmap sorting strings.
From Stdlib Require Import Lia.
From S2P Require Import Prelude BTree Backend Memory Replication StorageKey GranularKey Identity.
From S2P Require Import Events ObjectData Shard EntryStore ObjectView EntryOps EntryList ObjectShard.
From S2P Require Import ObjectOps Collections DataService ShardNetwork Gateway ShardService Invocation WasmStore.

Set Default Proof Using "Type".
Open Scope prog_scope.

(** ** The types of the interfaces *)

Record WitVal := { wv_data : bytes; wv_type : ValType }.
Record WitEntry := { we_key : bytes; we_value : WitVal }.
Record WitObj := { wo_metadata : option ObjMeta; wo_entries : list WitEntry }.
Record WitRef := { wf_cls : bytes; wf_partition_id : Z; wf_object_id : bytes }.
Record FieldEntry := { fe_key : bytes; fe_value : bytes }.

Inductive WitError : Type :=
| WNotFound
| WPermissionDenied
| WInvalidArgument (msg : bytes)
| WInternal (msg : bytes).

Inductive WitStatus : Type := WOkay | WInvalidRequest | WAppError | WSystemError.

Record WitRequest := {
  wq_partition_id : Z;
  wq_cls_id : bytes;
  wq_fn_id : bytes;
  wq_object_id : option bytes;
  wq_options : list (bytes * bytes);
  wq_payload : option bytes;
}.
Record WitResponse := {
  wr_payload : option bytes;
  wr_status : WitStatus;
  wr_headers : list (bytes * bytes);
}.

(** ** Guests *)

Inductive Guest (Call : Type → Type) (B : Type) : Type :=
| GReturn (b : B)
| GTrap (msg : bytes)
| GCall {A : Type} (c : Call A) (k : A → Guest Call B).
Arguments GReturn {Call B} _.
Arguments GTrap {Call B} _.
Arguments GCall {Call B A} _ _.

(** Running a guest on a host; a trap is an error with its text. *)
Fixpoint run {S : Type} {Call : Type → Type} {B : Type} (host : ∀ A, Call A → M S bytes A)
    (g : Guest Call B) : M S bytes B :=
  match g with
  | GReturn b => ret b
  | GTrap msg => throw msg
  | GCall c k => let! a := host _ c in run host (k a)
  end.

(** ** Data operations *)

Inductive DataOpsError : Type :=
| DNotFound
| DPermissionDenied
| DInvalidArgument (msg : bytes)
| DInternal (msg : bytes).

Class OdgmDataOps (W : Type) := {
  do_get_object : bytes → Z → bytes → M W DataOpsError (option bytes);
  do_set_object : bytes → Z → bytes → bytes → M W DataOpsError unit;
  do_delete_object : bytes → Z → bytes → M W DataOpsError unit;
  do_get_value : bytes → Z → bytes → bytes → M W DataOpsError (option bytes);
  do_set_value : bytes → Z → bytes → bytes → bytes → M W DataOpsError unit;
  do_delete_value : bytes → Z → bytes → bytes → M W DataOpsError unit;
  do_invoke_fn : bytes → Z → bytes → option bytes → M W DataOpsError (option bytes);
  do_invoke_obj : bytes → Z → bytes → bytes → option bytes → M W DataOpsError (option bytes);
  do_batch_set_values : bytes → Z → bytes → list (bytes * bytes) → M W DataOpsError unit;
  do_get_all_entries : bytes → Z → bytes → M W DataOpsError (option (list (bytes * bytes)));
}.

(** [From<DataOpsError> for OdgmError] *)
Definition of_ops (e : DataOpsError) : WitError :=
  match e with
  | DNotFound => WNotFound
  | DPermissionDenied => WPermissionDenied
  | DInvalidArgument msg => WInvalidArgument msg
  | DInternal msg => WInternal msg
  end.

Definition byte_value (data : bytes) : WitVal := {| wv_data := data; wv_type := Byte |}.

Definition obj_to_bytes (obj : WitObj) : bytes :=
  match wo_entries obj with
  | e :: _ => wv_data (we_value e)
  | [] => []
  end.

(** ** The procedural world *)

(** [data-access] *)
Inductive FnCall : Type → Type :=
| FGetObject (cls : bytes) (pid : Z) (id : bytes) : FnCall (WitError + option WitObj)
| FSetObject (cls : bytes) (pid : Z) (id : bytes) (obj : WitObj) : FnCall (WitError + unit)
| FDeleteObject (cls : bytes) (pid : Z) (id : bytes) : FnCall (WitError + unit)
| FMergeObject (cls : bytes) (pid : Z) (id : bytes) (obj : WitObj) : FnCall (WitError + option WitObj)
| FGetValue (cls : bytes) (pid : Z) (id key : bytes) : FnCall (WitError + option WitVal)
| FSetValue (cls : bytes) (pid : Z) (id key : bytes) (v : WitVal) : FnCall (WitError + unit)
| FDeleteValue (cls : bytes) (pid : Z) (id key : bytes) : FnCall (WitError + unit)
| FInvokeFn (cls : bytes) (pid : Z) (fn_id : bytes) (payload : option bytes) :
    FnCall (WitError + option bytes).

Module FnHost.
Section host.
Context {W : Type} `{!OdgmDataOps W}.

Notation H A := (M W WitError A).

Definition ops {A} (m : M W DataOpsError A) : H A := map_err of_ops m.

Definition bytes_to_obj (data : bytes) : WitObj :=
  {| wo_metadata := None; wo_entries := [{| we_key := bs "_raw"; we_value := byte_value data |}] |}.

Definition get_object (cls : bytes) (pid : Z) (id : bytes) : H (option WitObj) :=
  let! data := ops (do_get_object cls pid id) in ret (bytes_to_obj <$> data).
Definition set_object (cls : bytes) (pid : Z) (id : bytes) (obj : WitObj) : H unit :=
  ops (do_set_object cls pid id (obj_to_bytes obj)).
Definition delete_object (cls : bytes) (pid : Z) (id : bytes) : H unit :=
  ops (do_delete_object cls pid id).
Definition merge_object (cls : bytes) (pid : Z) (id : bytes) (obj : WitObj) : H (option WitObj) :=
  ops (do_set_object cls pid id (obj_to_bytes obj)) ;;; get_object cls pid id.
Definition get_value (cls : bytes) (pid : Z) (id key : bytes) : H (option WitVal) :=
  let! data := ops (do_get_value cls pid id key) in ret (byte_value <$> data).
Definition set_value (cls : bytes) (pid : Z) (id key : bytes) (value : WitVal) : H unit :=
  ops (do_set_value cls pid id key (wv_data value)).
Definition delete_value (cls : bytes) (pid : Z) (id key : bytes) : H unit :=
  ops (do_delete_value cls pid id key).
Definition invoke_fn (cls : bytes) (pid : Z) (fn_id : bytes) (payload : option bytes) :
    H (option bytes) :=
  ops (do_invoke_fn cls pid fn_id payload).

Definition answer (A : Type) (c : FnCall A) : M W bytes A :=
  match c with
  | FGetObject cls pid id => tried (get_object cls pid id)
  | FSetObject cls pid id obj => tried (set_object cls pid id obj)
  | FDeleteObject cls pid id => tried (delete_object cls pid id)
  | FMergeObject cls pid id obj => tried (merge_object cls pid id obj)
  | FGetValue cls pid id key => tried (get_value cls pid id key)
  | FSetValue cls pid id key v => tried (set_value cls pid id key v)
  | FDeleteValue cls pid id key => tried (delete_value cls pid id key)
  | FInvokeFn cls pid fn_id payload => tried (invoke_fn cls pid fn_id payload)
  end.
End host.
End FnHost.

(** ** The world of objects *)

Record ObjectProxyState := { ps_object_ref : WitRef; ps_is_local : bool }.

(** The table of resources gives a free slot to a new resource, if there is one; the texts are of
    its errors. *)
Record Resources := {
  rs_slot : gmap nat ObjectProxyState → option nat;
  rs_missing : bytes;
  rs_full : bytes;
}.
Class ResourceLaws (rs : Resources) := rs_free t h : rs_slot rs t = Some h → t !! h = None.

(** [ObjectWasmHostState] over the data of the node; [oh_remote] tells whether there is a proxy
    for other shards. *)
Record ObjHost (W : Type) := {
  oh_world : W;
  oh_remote : bool;
  oh_cls_id : bytes;
  oh_partition_id : Z;
  oh_table : gmap nat ObjectProxyState;
  oh_depth : Z;
  oh_max_depth : Z;
}.
Arguments oh_world {W} _.
Arguments oh_remote {W} _.
Arguments oh_cls_id {W} _.
Arguments oh_partition_id {W} _.
Arguments oh_table {W} _.
Arguments oh_depth {W} _.
Arguments oh_max_depth {W} _.

Definition DEFAULT_MAX_REENTRANT_DEPTH : Z := 4.

(** [object-context]; a handle is known by its slot. *)
Inductive ObjectCall : Type → Type :=
| CRef (h : nat) : ObjectCall WitRef
| CGet (h : nat) (key : bytes) : ObjectCall (WitError + option bytes)
| CGetMany (h : nat) (keys : list bytes) : ObjectCall (WitError + list FieldEntry)
| CSet (h : nat) (key value : bytes) : ObjectCall (WitError + unit)
| CSetMany (h : nat) (fields : list FieldEntry) : ObjectCall (WitError + unit)
| CDelete (h : nat) (key : bytes) : ObjectCall (WitError + unit)
| CGetAll (h : nat) : ObjectCall (WitError + WitObj)
| CSetAll (h : nat) (obj : WitObj) : ObjectCall (WitError + unit)
| CInvoke (h : nat) (fn_name : bytes) (payload : option bytes) : ObjectCall (WitError + option bytes)
| CDrop (h : nat) : ObjectCall unit
| CObject (r : WitRef) : ObjectCall (WitError + nat)
| CObjectByStr (s : bytes) : ObjectCall (WitError + nat)
| CLog (message : bytes) : ObjectCall unit.

Module ObjectHost.

Definition not_a_ref (s : bytes) : WitError :=
  WInvalidArgument (bs "invalid object ref string '" ++ s ++ bs "': expected 'cls/partition/id'").

Definition parse_object_ref_str (s : bytes) : res WitError WitRef :=
  match find_byte Path.slash s with
  | None => Err (not_a_ref s)
  | Some (cls, rest) =>
      match find_byte Path.slash rest with
      | None => Err (not_a_ref s)
      | Some (partition_str, id) =>
          if bool_decide (cls = []) then Err (WInvalidArgument (bs "class name must not be empty"))
          else if bool_decide (id = []) then Err (WInvalidArgument (bs "object_id must not be empty"))
          else match string_to_numeric_key partition_str with
               | Some p => Ok {| wf_cls := cls; wf_partition_id := p; wf_object_id := id |}
               | None => Err (WInvalidArgument (bs "invalid partition id '" ++ partition_str
                                                 ++ bs "': must be a u32"))
               end
      end
  end.

Definition convert_proxy_error (e : ProxyError) : WitError :=
  match e with
  | NoQueryable _ => WNotFound
  | _ => WInternal (Errors.proxy_text e)
  end.

Section host.
Context {W Z : Type} `{!OdgmDataOps W} `{!ZSession Z} (w : Wire) (rs : Resources).
(** The session of the proxy is part of the node. *)
Context (net : W → Z) (set_net : Z → W → W).
(** The order in which a hash map is iterated *)
Context (hash_order : gmap bytes ValData → list (bytes * ValData)).

Notation H A := (M (ObjHost W) WitError A).

Definition set_world (x : W) (s : ObjHost W) : ObjHost W :=
  {| oh_world := x; oh_remote := oh_remote s; oh_cls_id := oh_cls_id s;
     oh_partition_id := oh_partition_id s; oh_table := oh_table s; oh_depth := oh_depth s;
     oh_max_depth := oh_max_depth s |}.
Definition set_table (x : gmap nat ObjectProxyState) (s : ObjHost W) : ObjHost W :=
  {| oh_world := oh_world s; oh_remote := oh_remote s; oh_cls_id := oh_cls_id s;
     oh_partition_id := oh_partition_id s; oh_table := x; oh_depth := oh_depth s;
     oh_max_depth := oh_max_depth s |}.
Definition add_depth (n : BinNums.Z) (s : ObjHost W) : ObjHost W :=
  {| oh_world := oh_world s; oh_remote := oh_remote s; oh_cls_id := oh_cls_id s;
     oh_partition_id := oh_partition_id s; oh_table := oh_table s; oh_depth := (oh_depth s + n)%Z;
     oh_max_depth := oh_max_depth s |}.

Definition new (x : W) (remote : bool) (cls : bytes) (pid : BinNums.Z) : ObjHost W :=
  {| oh_world := x; oh_remote := remote; oh_cls_id := cls; oh_partition_id := pid;
     oh_table := ∅; oh_depth := 0; oh_max_depth := DEFAULT_MAX_REENTRANT_DEPTH |}.

Definition is_local (r : WitRef) (s : ObjHost W) : bool :=
  bool_decide (wf_cls r = oh_cls_id s) && bool_decide (wf_partition_id r = oh_partition_id s).

Definition get_proxy (h : nat) : H ObjectProxyState := λ s,
  (match oh_table s !! h with
   | Some p => Ok p
   | None => Err (WInternal (bs "invalid proxy handle: " ++ rs_missing rs))
   end, s).

Definition create_proxy (r : WitRef) : H nat := λ s,
  match rs_slot rs (oh_table s) with
  | Some h => (Ok h, set_table (<[h := {| ps_object_ref := r; ps_is_local := is_local r s |}]>
                                  (oh_table s)) s)
  | None => (Err (WInternal (bs "failed to create proxy: " ++ rs_full rs)), s)
  end.

Definition ops {A} (m : M W DataOpsError A) : H A :=
  map_err of_ops (zoom oh_world set_world m).

(** [self.remote()?] *)
Definition remote : H unit := λ s,
  (if oh_remote s then Ok tt else Err (WInternal (bs "remote proxy not available")), s).

(** A call of the proxy; nobody gives it up. *)
Definition proxied {A} (m : M Z CallError A) : H A := λ s,
  let '(r, z) := m (net (oh_world s)) in
  (match r with
   | Ok a => Ok a
   | Err (Failed e) => Err (convert_proxy_error e)
   | Err Elapsed => Panic "query is never answered"
   | Panic p => Panic p
   end, set_world (set_net z (oh_world s)) s).

Definition meta_of (r : WitRef) : ObjMeta :=
  {| om_cls_id := wf_cls r; om_partition_id := wf_partition_id r;
     om_object_id := Some (wf_object_id r) |}.
Definition ref_of (r : WitRef) : ObjectRef :=
  {| cls_id := wf_cls r; partition_id := wf_partition_id r; object_id := Some (wf_object_id r) |}.

Definition ref_ (h : nat) : M (ObjHost W) bytes WitRef := λ s,
  (Ok match oh_table s !! h with
      | Some p => ps_object_ref p
      | None => {| wf_cls := []; wf_partition_id := 0; wf_object_id := [] |}
      end, s).

(** One field, of an object here or elsewhere *)
Definition get_local (r : WitRef) (key : bytes) : H (option bytes) :=
  ops (do_get_value (wf_cls r) (wf_partition_id r) (wf_object_id r) key).
Definition get_remote (r : WitRef) (key : bytes) : H (option bytes) :=
  let! resp := proxied (Proxy.get_entry w (meta_of r) key) in
  ret (resp ≫= λ v, vd_data <$> vr_value v).

Definition get (h : nat) (key : bytes) : H (option bytes) :=
  let! proxy := get_proxy h in
  let r := ps_object_ref proxy in
  if ps_is_local proxy then get_local r key else remote ;;; get_remote r key.

Fixpoint get_each (read : bytes → H (option bytes)) (keys : list bytes) : H (list FieldEntry) :=
  match keys with
  | [] => ret []
  | key :: keys =>
      let! v := read key in
      let! rest := get_each read keys in
      ret (match v with
           | Some data => {| fe_key := key; fe_value := data |} :: rest
           | None => rest
           end)
  end.

Definition get_many (h : nat) (keys : list bytes) : H (list FieldEntry) :=
  let! proxy := get_proxy h in
  let r := ps_object_ref proxy in
  if ps_is_local proxy then get_each (get_local r) keys
  else remote ;;; get_each (get_remote r) keys.

Definition val_data (data : bytes) : ValData := {| vd_data := data; vd_type := 0 |}.

Definition batch_request (r : WitRef) (values : gmap bytes ValData) : BatchSetValuesRequest :=
  {| bs_ref := ref_of r; bs_values := hash_order values; bs_delete_keys := [];
     bs_expected_version := None |}.

Definition set (h : nat) (key value : bytes) : H unit :=
  let! proxy := get_proxy h in
  let r := ps_object_ref proxy in
  if ps_is_local proxy
  then ops (do_set_value (wf_cls r) (wf_partition_id r) (wf_object_id r) key value)
  else remote ;;;
       proxied (Proxy.batch_set_entries w (batch_request r {[ key := val_data value ]})).

Definition set_many (h : nat) (fields : list FieldEntry) : H unit :=
  let! proxy := get_proxy h in
  let r := ps_object_ref proxy in
  if ps_is_local proxy
  then ops (do_batch_set_values (wf_cls r) (wf_partition_id r) (wf_object_id r)
              ((λ e, (fe_key e, fe_value e)) <$> fields))
  else remote ;;;
       proxied (Proxy.batch_set_entries w (batch_request r
         (foldl (λ m e, <[fe_key e := val_data (fe_value e)]> m) ∅ fields))).

Definition delete (h : nat) (key : bytes) : H unit :=
  let! proxy := get_proxy h in
  let r := ps_object_ref proxy in
  if ps_is_local proxy
  then ops (do_delete_value (wf_cls r) (wf_partition_id r) (wf_object_id r) key)
  else throw (WInternal (bs "remote field delete not yet supported; use set with empty value")).

Definition wit_entries (l : list (bytes * bytes)) : WitObj :=
  {| wo_metadata := None;
     wo_entries := (λ kv, {| we_key := kv.1; we_value := byte_value kv.2 |}) <$> l |}.

Definition get_all (h : nat) : H WitObj :=
  let! proxy := get_proxy h in
  let r := ps_object_ref proxy in
  if ps_is_local proxy then
    let! entries := ops (do_get_all_entries (wf_cls r) (wf_partition_id r) (wf_object_id r)) in
    match entries with Some l => ret (wit_entries l) | None => throw WNotFound end
  else
    remote ;;;
    let! obj := proxied (Proxy.get_obj w (meta_of r)) in
    match obj with
    | Some o => ret (wit_entries ((λ kv, (kv.1, vd_data kv.2)) <$> od_entries (po_data o)))
    | None => throw WNotFound
    end.

(** Entries are collected into a hash map. *)
Definition proto_obj (r : WitRef) (obj : WitObj) : ProtoObj :=
  {| po_metadata := Some (meta_of r);
     po_data := {| od_entries := hash_order (foldl (λ m e, <[we_key e := val_data (wv_data (we_value e))]> m)
                                               ∅ (wo_entries obj));
                   od_event := None |} |}.

Definition set_all (h : nat) (obj : WitObj) : H unit :=
  let! proxy := get_proxy h in
  let r := ps_object_ref proxy in
  if ps_is_local proxy
  then ops (do_set_object (wf_cls r) (wf_partition_id r) (wf_object_id r) (obj_to_bytes obj))
  else remote ;;; proxied (Proxy.set_obj w (proto_obj r obj)).

(** The depth is counted up before the call and down after it, but [self.remote()?] leaves in
    between. *)
Definition invoke (h : nat) (fn_name : bytes) (payload : option bytes) : H (option bytes) :=
  let! proxy := get_proxy h in
  let r := ps_object_ref proxy in
  let! depth := gets oh_depth in
  let! max := gets oh_max_depth in
  if (max <=? depth)%Z
  then throw (WInternal (bs "max re-entrant depth exceeded (" ++ Proxy.decimal max ++ bs ")"))
  else
    modify (add_depth 1) ;;;
    let! result :=
      (if ps_is_local proxy then
         tried (ops (do_invoke_obj (wf_cls r) (wf_partition_id r) (wf_object_id r) fn_name payload))
       else
         remote ;;;
         tried (let! resp := proxied (Proxy.invoke_object_fn w (meta_of r) fn_name (default [] payload)) in
                ret (iv_payload resp))) in
    modify (add_depth (-1)) ;;;
    match result with inr a => ret a | inl e => throw e end.

(** Dropping a handle that is not there traps. *)
Definition drop (h : nat) : M (ObjHost W) bytes unit := λ s,
  match oh_table s !! h with
  | Some _ => (Ok tt, set_table (base.delete h (oh_table s)) s)
  | None => (Err (rs_missing rs), s)
  end.

Definition object (r : WitRef) : H nat := create_proxy r.
Definition object_by_str (s : bytes) : H nat :=
  let! r := lift_res (parse_object_ref_str s) in object r.

Definition answer (A : Type) (c : ObjectCall A) : M (ObjHost W) bytes A :=
  match c with
  | CRef h => ref_ h
  | CGet h key => tried (get h key)
  | CGetMany h keys => tried (get_many h keys)
  | CSet h key value => tried (set h key value)
  | CSetMany h fields => tried (set_many h fields)
  | CDelete h key => tried (delete h key)
  | CGetAll h => tried (get_all h)
  | CSetAll h obj => tried (set_all h obj)
  | CInvoke h fn_name payload => tried (invoke h fn_name payload)
  | CDrop h => drop h
  | CObject r => tried (object r)
  | CObjectByStr s => tried (object_by_str s)
  | CLog _ => ret tt
  end.
End host.
End ObjectHost.

(** ** The executor *)

(** What a component does: instantiating it may fail with a text; then it is a guest for the fuel,
    the call ([invoke-obj] or [invoke-fn]) and the request, or for the fuel, the handle of the
    object, the name of the function and the payload. *)
Record Runtime (C : Type) := {
  rt_function : C → Z → bool → WitRequest → bytes + Guest FnCall WitResponse;
  rt_object : C → Z → nat → bytes → option bytes → bytes + Guest ObjectCall WitResponse;
}.
Arguments rt_function {C} _.
Arguments rt_object {C} _.

(** [OopContext]: whether there is a proxy, and the shard *)
Record OopContext := { oc_remote : bool; oc_cls_id : bytes; oc_partition_id : Z }.

Record WasmInvocationResult := {
  wi_payload : option bytes;
  wi_status : WitStatus;
  wi_headers : list (bytes * bytes);
}.

Module Executor.
Section executor.
Context {C W Z : Type} `{!OdgmDataOps W} `{!ZSession Z} (w : Wire) (rs : Resources).
Context (net : W → Z) (set_net : Z → W → W) (hash_order : gmap bytes ValData → list (bytes * ValData)).
Context (rt : Runtime C) (store : WasmModuleStore C) (debug : WitError → bytes).

Notation X A := (M W bytes A).

Definition from_wit (resp : WitResponse) : WasmInvocationResult :=
  {| wi_payload := wr_payload resp; wi_status := wr_status resp; wi_headers := wr_headers resp |}.

(** [invoke_fn_legacy] and [invoke_obj_legacy]: without and with an object *)
Definition invoke_legacy (obj : option bytes) (fn_id cls : bytes) (pid : BinNums.Z)
    (payload : option bytes) (component : C) (fuel : BinNums.Z) : X WasmInvocationResult :=
  let req := {| wq_partition_id := pid; wq_cls_id := cls; wq_fn_id := fn_id; wq_object_id := obj;
                wq_options := []; wq_payload := payload |} in
  match rt_function rt component fuel (bool_decide (is_Some obj)) req with
  | inl e => throw e
  | inr g => let! resp := run FnHost.answer g in ret (from_wit resp)
  end.

(** A host for one invocation, on the data of the node *)
Definition on_host {A} (remote : bool) (cls : bytes) (pid : BinNums.Z) (m : M (ObjHost W) bytes A) :
    X A := λ x,
  let '(r, s) := m (ObjectHost.new x remote cls pid) in (r, oh_world s).

Definition invoke_oop (fn_id cls : bytes) (pid : BinNums.Z) (obj : bytes) (payload : option bytes)
    (ctx : option OopContext) (component : C) (fuel : BinNums.Z) : X WasmInvocationResult :=
  let '(remote, shard_cls, shard_part) :=
    match ctx with
    | Some c => (oc_remote c, oc_cls_id c, oc_partition_id c)
    | None => (false, cls, pid)
    end in
  on_host remote shard_cls shard_part
    (let! self_proxy := map_err (λ e, bs "failed to create self proxy: " ++ debug e)
       (ObjectHost.create_proxy rs {| wf_cls := cls; wf_partition_id := pid; wf_object_id := obj |}) in
     match rt_object rt component fuel self_proxy fn_id payload with
     | inl e => throw e
     | inr g => let! resp := run (ObjectHost.answer w rs net set_net hash_order) g in
                ret (from_wit resp)
     end).

Definition not_loaded (fn_id : bytes) : bytes := bs "WASM module not loaded for fn_id=" ++ fn_id.

Definition invoke_fn (fn_id cls : bytes) (pid : BinNums.Z) (payload : option bytes)
    (ctx : option OopContext) (fuel : BinNums.Z) : X WasmInvocationResult :=
  match ModuleStore.get fn_id store with
  | None => throw (not_loaded fn_id)
  | Some m =>
      match cm_world_type m with
      | Legacy => invoke_legacy None fn_id cls pid payload (cm_component m) fuel
      | ObjectOriented => invoke_oop fn_id cls pid [] payload ctx (cm_component m) fuel
      end
  end.

Definition invoke_obj (fn_id cls : bytes) (pid : BinNums.Z) (obj : bytes) (payload : option bytes)
    (ctx : option OopContext) (fuel : BinNums.Z) : X WasmInvocationResult :=
  match ModuleStore.get fn_id store with
  | None => throw (not_loaded fn_id)
  | Some m =>
      match cm_world_type m with
      | Legacy => invoke_legacy (Some obj) fn_id cls pid payload (cm_component m) fuel
      | ObjectOriented => invoke_oop fn_id cls pid obj payload ctx (cm_component m) fuel
      end
  end.
End executor.
End Executor.

(** ** The adapter *)

Definition DEFAULT_WASM_FUEL : Z := 1000000000.

Record WasmExecutorAdapter (C : Type) := {
  wa_store : WasmModuleStore C;
  wa_oop_context : option OopContext;
  wa_fn_fuel : gmap bytes Z;
}.
Arguments wa_store {C} _.
Arguments wa_oop_context {C} _.
Arguments wa_fn_fuel {C} _.

Module Adapter.

(** The protobuf numbers of the statuses *)
Definition status_number (s : WitStatus) : Z :=
  match s with
  | WOkay => 0
  | WInvalidRequest => INVALID_REQUEST
  | WAppError => APP_ERROR
  | WSystemError => SYSTEM_ERROR
  end.

Definition wasm_result_to_proto (r : WasmInvocationResult) : InvocationResponse :=
  {| iv_payload := wi_payload r; iv_status := status_number (wi_status r);
     iv_headers := foldl (λ m kv, <[kv.1 := kv.2]> m) ∅ (wi_headers r); iv_invocation_id := [] |}.

Section adapter.
Context {C W Z : Type} `{!OdgmDataOps W} `{!ZSession Z} (w : Wire) (rs : Resources).
Context (net : W → Z) (set_net : Z → W → W) (hash_order : gmap bytes ValData → list (bytes * ValData)).
Context (rt : Runtime C) (debug : WitError → bytes) (a : WasmExecutorAdapter C).

Notation A R := (M W OffloadError R).

Definition fuel_for (fn_id : bytes) : BinNums.Z := default DEFAULT_WASM_FUEL (wa_fn_fuel a !! fn_id).

Definition payload_of (p : bytes) : option bytes := if bool_decide (p = []) then None else Some p.

Definition invoke_fn (req : InvocationRequest) : A InvocationResponse :=
  let! r := map_err (λ e, OInternalError (bs "WASM invoke_fn failed: " ++ e))
    (Executor.invoke_fn w rs net set_net hash_order rt (wa_store a) debug (ir_fn_id req) (ir_cls_id req)
       (ir_partition_id req) (payload_of (ir_payload req)) (wa_oop_context a)
       (fuel_for (ir_fn_id req))) in
  ret (wasm_result_to_proto r).

Definition invoke_obj (req : ObjectInvocationRequest) : A InvocationResponse :=
  let! r := map_err (λ e, OInternalError (bs "WASM invoke_obj failed: " ++ e))
    (Executor.invoke_obj w rs net set_net hash_order rt (wa_store a) debug (oi_fn_id req) (oi_cls_id req)
       (oi_partition_id req) (default [] (oi_object_id req)) (payload_of (oi_payload req))
       (wa_oop_context a) (fuel_for (oi_fn_id req))) in
  ret (wasm_result_to_proto r).
End adapter.
End Adapter.

(** ** The shard as the data of guests *)

Module Bridge.
Section bridge.
Context {R Z : Type} `{Storage R} `{!ReplicationLayer R} `{Codec}.
Context (fuel : Shard R → nat) (shard_text : ShardError → bytes) (status_text : GrpcStatus → bytes).
Context (order : gmap bytes ObjectVal → list (bytes * ObjectVal)).
(** The invocations of the shard *)
Context (shard_invoke_fn : InvocationRequest → M (Shard R * Z) OffloadError InvocationResponse).
Context (shard_invoke_obj : ObjectInvocationRequest → M (Shard R * Z) OffloadError InvocationResponse).

Notation D A := (M (Shard R * Z) DataOpsError A).

Definition set_shard (s : Shard R) (x : Shard R * Z) : Shard R * Z := (s, x.2).

Definition shard_err_to_ops (e : ShardError) : DataOpsError := DInternal (shard_text e).

Definition on_shard {A} (m : M (Shard R) ShardError A) : D A :=
  map_err shard_err_to_ops (zoom fst set_shard m).

Definition RAW_ENTRY_KEY : bytes := bs "_raw".

Definition byte_val (data : bytes) : ObjectVal := {| ObjectData.val_data := data; val_type := Byte |}.

Definition get_value (cls : bytes) (pid : BinNums.Z) (id key : bytes) : D (option bytes) :=
  let! v := on_shard (ES.get_entry id key) in ret (ObjectData.val_data <$> v).
Definition set_value (cls : bytes) (pid : BinNums.Z) (id key value : bytes) : D unit :=
  on_shard (ES.set_entry id key (byte_val value)).
Definition delete_value (cls : bytes) (pid : BinNums.Z) (id key : bytes) : D unit :=
  on_shard (ES.delete_entry id key).

Definition get_object (cls : bytes) (pid : BinNums.Z) (id : bytes) : D (option bytes) :=
  get_value cls pid id RAW_ENTRY_KEY.
(** What becomes of the metadata is ignored. *)
Definition set_object (cls : bytes) (pid : BinNums.Z) (id data : bytes) : D unit :=
  let! _ := tried (on_shard (OS.ensure_metadata_exists id)) in
  on_shard (ES.set_entry id RAW_ENTRY_KEY (byte_val data)).
Definition delete_object (cls : bytes) (pid : BinNums.Z) (id : bytes) : D unit :=
  on_shard (λ s, OS.delete_object (fuel s) id s).

Definition invoke_fn (cls : bytes) (pid : BinNums.Z) (fn_id : bytes) (payload : option bytes) :
    D (option bytes) := λ x,
  (let! resp := map_err (λ e, DInternal (bs "cross-invoke failed: " ++ Offload.error_text status_text e))
     (shard_invoke_fn {| ir_partition_id := pid; ir_cls_id := class_id x.1; ir_fn_id := fn_id;
                         ir_options := ∅; ir_payload := default [] payload |}) in
   ret (iv_payload resp)) x.

Definition invoke_obj (cls : bytes) (pid : BinNums.Z) (id fn_id : bytes) (payload : option bytes) :
    D (option bytes) := λ x,
  (let! resp := map_err (λ e, DInternal (bs "cross-invoke-obj failed: " ++ Offload.error_text status_text e))
     (shard_invoke_obj {| oi_partition_id := pid; oi_cls_id := class_id x.1; oi_fn_id := fn_id;
                          oi_options := ∅; oi_payload := default [] payload;
                          oi_object_id := Some id |}) in
   ret (iv_payload resp)) x.

Definition batch_set_values (cls : bytes) (pid : BinNums.Z) (id : bytes) (entries : list (bytes * bytes)) :
    D unit :=
  let values := foldl (λ m kv, <[kv.1 := byte_val kv.2]> m) ∅ entries in
  let! _ := on_shard (ES.batch_set_entries id (order values) None) in ret tt.

Definition get_all_entries (cls : bytes) (pid : BinNums.Z) (id : bytes) :
    D (option (list (bytes * bytes))) :=
  let! obj := on_shard (λ s, OS.reconstruct_object_from_entries (fuel s) id 1024 s) in
  ret ((λ o, (λ kv, (kv.1, ObjectData.val_data kv.2)) <$> entries o) <$> obj).

(** [ShardDataOpsAdapter] *)
Definition shard_data_ops : OdgmDataOps (Shard R * Z) := {|
  do_get_object := get_object; do_set_object := set_object; do_delete_object := delete_object;
  do_get_value := get_value; do_set_value := set_value; do_delete_value := delete_value;
  do_invoke_fn := invoke_fn; do_invoke_obj := invoke_obj;
  do_batch_set_values := batch_set_values; do_get_all_entries := get_all_entries;
|}.
End bridge.
End Bridge.

(** ** A node *)

Module Node.
Section node.
Context {C R Z : Type} `{Storage R} `{!ReplicationLayer R} `{Codec} `{!ZSession Z}.
Context (w : Wire) (rs : Resources) (rt : Runtime C) (debug : WitError → bytes).
Context (fuel : Shard R → nat) (shard_text : ShardError → bytes) (status_text : GrpcStatus → bytes).
Context (hash_order : gmap bytes ValData → list (bytes * ValData)).
Context (order : gmap bytes ObjectVal → list (bytes * ObjectVal)).
Context (a : WasmExecutorAdapter C).

Definition set_session (z : Z) (x : Shard R * Z) : Shard R * Z := (x.1, z).

(** The executor of a shard, as [n] invocations are nested. The shard hands every invocation to
    the executor that was set, and so do the guests that invoke through the shard: each runs in a
    host of its own. *)
Fixpoint executor (n : nat) :
    (InvocationRequest → M (Shard R * Z) OffloadError InvocationResponse) *
    (ObjectInvocationRequest → M (Shard R * Z) OffloadError InvocationResponse) :=
  match n with
  | O => (λ _, panic "too many nested invocations", λ _, panic "too many nested invocations")
  | S n =>
      let ops := Bridge.shard_data_ops fuel shard_text status_text order
                   (executor n).1 (executor n).2 in
      (Adapter.invoke_fn (OdgmDataOps0 := ops) w rs snd set_session hash_order rt debug a,
       Adapter.invoke_obj (OdgmDataOps0 := ops) w rs snd set_session hash_order rt debug a)
  end.

Definition invoke_fn (n : nat) := (executor n).1.
Definition invoke_obj (n : nat) := (executor n).2.
End node.
End Node.

(** *** Setting up the executor of a shard *)

Module Setup.
Section setup.
Context {C : Type} (web : Web).

(** One route, on the modules and those that were loaded by their URLs; failures are only logged. *)
Definition load_route (en : Engine C) (st : WasmModuleStore C * gmap bytes (CompiledModule C))
    (r : bytes * FuncInvokeRoute) : WasmModuleStore C * gmap bytes (CompiledModule C) :=
  match inv_wasm_module_url r.2 with
  | None => st
  | Some url =>
      match st.2 !! url with
      | Some m => (ModuleStore.insert r.1 m st.1, st.2)
      | None =>
          match ModuleStore.load web en r.1 url st.1 with
          | (Ok m, store) => (store, <[url := m]> st.2)
          | (_, store) => (store, st.2)
          end
      end
  end.

Definition wasm_routes (routes : list (bytes * FuncInvokeRoute)) : list (bytes * FuncInvokeRoute) :=
  filter (λ r, starts_with (bs "wasm://") (inv_url r.2) = true) routes.

Definition fn_fuel (routes : list (bytes * FuncInvokeRoute)) : gmap bytes Z :=
  foldl (λ m r, match inv_wasm_fuel r.2 with Some f => <[r.1 := f]> m | None => m end) ∅ routes.

(** [setup_wasm_offloader]: the engine and the linkers may be refused. *)
Definition setup_wasm_offloader (engine : option (Engine C)) (linkers : bool) (collection : bytes)
    (partition_id : Z) (routes : list (bytes * FuncInvokeRoute)) : option (WasmExecutorAdapter C) :=
  match wasm_routes routes with
  | [] => None
  | wasm =>
      en ← engine;
      let store := (foldl (load_route en) (ModuleStore.new, ∅) wasm).1 in
      if linkers then
        Some {| wa_store := store;
                wa_oop_context := Some {| oc_remote := false; oc_cls_id := collection;
                                          oc_partition_id := partition_id |};
                wa_fn_fuel := fn_fuel wasm |}
      else None
  end.
End setup.
End Setup.

(** ** Safety of computations *)

(** From states that satisfy [I], [m] ends in one that satisfies it and is related by [T], and its
    result satisfies [Q]. *)
Definition safe {S E A} (I : S → Prop) (T : relation S) (Q : A → Prop) (m : M S E A) : Prop :=
  ∀ s, I s → I (m s).2 ∧ T s (m s).2 ∧ ∀ a, (m s).1 = Ok a → Q a.

Section safe.
Context {S : Type} (I : S → Prop) (T : relation S) `{!PreOrder T}.
Implicit Types (Q : Prop).

Lemma safe_ret {E A} (Q : A → Prop) (a : A) : Q a → safe I T Q (ret a : M S E A).
Proof using All. intros Ha s Hs. split; [done|]. split; [reflexivity|]. by intros ? [= <-]. Qed.

Lemma safe_throw {E A} (Q : A → Prop) (e : E) : safe I T Q (throw e : M S E A).
Proof using All. intros s Hs. split; [done|]. by split; [reflexivity|]. Qed.

Lemma safe_panic {E A} (Q : A → Prop) msg : safe I T Q (panic msg : M S E A).
Proof using All. intros s Hs. split; [done|]. by split; [reflexivity|]. Qed.

Lemma safe_bind {E A B} (Q : A → Prop) (Q' : B → Prop) (m : M S E A) (k : A → M S E B) :
  safe I T Q m → (∀ a, Q a → safe I T Q' (k a)) → safe I T Q' (bind m k).
Proof using All.
  intros Hm Hk s Hs. destruct (Hm s Hs) as (Hi & Ht & Hq). unfold bind.
  destruct (m s) as [[a|e|p] s1]; simpl in *; [|done..].
  destruct (Hk a (Hq a eq_refl) s1 Hi) as (Hi' & Ht' & Hq'). split; [done|]. split; [|done].
  by transitivity s1.
Qed.

Lemma safe_gets {E A} (f : S → A) (Q : A → Prop) : (∀ s, I s → Q (f s)) → safe I T Q (gets f : M S E A).
Proof using All. intros Hf s Hs. split; [done|]. split; [reflexivity|]. intros ? [= <-]. auto. Qed.

Lemma safe_mono {E A} (Q Q' : A → Prop) (m : M S E A) :
  safe I T Q m → (∀ a, Q a → Q' a) → safe I T Q' m.
Proof using Type. intros Hm Hq s Hs. destruct (Hm s Hs) as (? & ? & ?). eauto. Qed.

Lemma safe_map_err {E F A} (Q : A → Prop) (f : E → F) (m : M S E A) :
  safe I T Q m → safe I T Q (map_err f m).
Proof using Type.
  intros Hm s Hs. destruct (Hm s Hs) as (? & ? & Hq). unfold map_err.
  destruct (m s) as [[] ?]; simpl in *; (split; [done|]; split; [done|]); [|done..].
  intros a' [= <-]. by apply Hq.
Qed.

Lemma safe_tried {E F A} (Q : A → Prop) (m : M S E A) :
  safe I T Q m → safe I T (λ r, ∀ a, r = inr a → Q a) (tried m : M S F _).
Proof using Type.
  intros Hm s Hs. destruct (Hm s Hs) as (? & ? & Hq). unfold tried.
  destruct (m s) as [[] ?]; simpl in *; (split; [done|]; split; [done|]); [..|done].
  - intros r [= <-] a' [= <-]. by apply Hq.
  - by intros r [= <-].
Qed.

(** A safe step on a part of the state *)
Lemma safe_zoom {S' E A} (get : S' → S) (set : S → S' → S') (I' : S' → Prop) (T' : relation S')
    (Q : A → Prop) (m : M S E A) :
  (∀ s, I' s → I (get s)) → (∀ s x, I' s → I x → T (get s) x → I' (set x s) ∧ T' s (set x s)) →
  safe I T Q m → safe I' T' Q (zoom get set m).
Proof using Type.
  intros Hg Hs Hm s Hi. destruct (Hm (get s) (Hg s Hi)) as (H1 & H2 & H3). unfold zoom.
  destruct (m (get s)) as [r x]. simpl in *. destruct (Hs s x Hi H1 H2). done.
Qed.

End safe.

(** What a guest may do: its calls are fine as long as the answers are. *)
Fixpoint guest_ok {Call : Type → Type} {B : Type} (ok : ∀ A, Call A → Prop)
    (ans : ∀ A, Call A → A → Prop) (g : Guest Call B) : Prop :=
  match g with
  | GReturn _ | GTrap _ => True
  | GCall c k => ok _ c ∧ ∀ a, ans _ c a → guest_ok ok ans (k a)
  end.

Lemma safe_run {S : Type} (I : S → Prop) (T : relation S) `{!PreOrder T} {Call B}
    (host : ∀ A, Call A → M S bytes A) ok ans (g : Guest Call B) :
  (∀ A (c : Call A), ok A c → safe I T (ans A c) (host A c)) → guest_ok ok ans g →
  safe I T (λ _, True) (run host g).
Proof.
  intros Hh. induction g as [b|msg|A c k IH]; intros Hg; simpl.
  - by apply safe_ret.
  - by apply safe_throw.
  - destruct Hg as [Hc Hk]. eapply safe_bind; [done|by apply Hh|]. intros a Ha. by apply IH, Hk.
Qed.

(** ** Guests on a shard *)

Section confined.
Context {R : Type} `{StorageLaws R} `{!ReplicationLayer R} `{!ReplicationLaws R} `{CodecLaws}.
(** The objects the guests may change *)
Context (P : bytes → Prop).
Implicit Types s : Shard R.

Definition same_object (d d' : store) (id : bytes) : Prop :=
  (∀ key, key_ok key → entry_of d' id key = entry_of d id key) ∧
  meta_of d' id = meta_of d id ∧ event_of d' id = event_of d id.

(** [s'] is [s] but for the objects the guests may change, counters and events. *)
Definition frame s s' : Prop :=
  same_config s s' ∧ ∀ id, obj_ok id → ¬ P id → same_object (sh_contents s) (sh_contents s') id.

#[local] Instance frame_preorder : PreOrder frame.
Proof.
  split.
  - intros s. split; [by repeat split|]. intros. by repeat split.
  - intros s1 s2 s3 [(C1 & C2 & C3 & C4) F1] [(D1 & D2 & D3 & D4) F2]. split.
    { unfold same_config. by rewrite D1, D2, D3, D4. }
    intros id Hi Hp. destruct (F1 id Hi Hp) as (A1 & A2 & A3). destruct (F2 id Hi Hp) as (B1 & B2 & B3).
    split; [|split; congruence]. intros key Hk. by rewrite B1, A1.
Qed.

Lemma frame_same s s' : sh_contents s' = sh_contents s → same_config s s' → frame s s'.
Proof. intros E Hc. split; [done|]. intros. unfold same_object. by rewrite E. Qed.

Lemma frame_update s s' id f m ev :
  same_config s s' → P id → obj_update (sh_contents s) (sh_contents s') id f m ev → frame s s'.
Proof.
  intros Hc Hp [Ue Um Uv]. split; [done|]. intros id' Hi' Hp'. assert (id' ≠ id) by (by intros ->).
  split; [|split].
  - intros key Hk. rewrite Ue by done. by rewrite decide_False.
  - rewrite Um by done. by rewrite decide_False.
  - rewrite Uv by done. by rewrite decide_False.
Qed.

Notation tame := (safe shard_inv frame (λ _, True)).

(** A run with a known end *)
Lemma tame_run {A} (m : M (Shard R) ShardError A) :
  (∀ s, shard_inv s → ∃ x s', m s = (x, s') ∧ shard_inv s' ∧ frame s s') → tame m.
Proof using All. intros Hm s Hs. destruct (Hm s Hs) as (x & s' & -> & ? & ?). done. Qed.

Lemma tame_get_entry id key : obj_ok id → key_ok key → tame (ES.get_entry (R := R) id key).
Proof using All.
  intros Hi Hk. apply tame_run. intros s Hs. eexists _, _. split; [by apply get_entry_ok|].
  destruct (entry_of (sh_contents s) id key); (split; [done|]); by apply frame_same.
Qed.

Lemma tame_set_entry id key v : obj_ok id → P id → key_ok key → tame (ES.set_entry (R := R) id key v).
Proof using All.
  intros Hi Hp Hk. apply tame_run. intros s Hs.
  destruct (set_entry_ok id key v s Hs Hi Hk) as (s' & E & Hs' & Hc & U & _).
  eexists _, s'. split; [exact E|]. split; [done|]. by eapply frame_update.
Qed.

Lemma tame_delete_entry id key : obj_ok id → P id → key_ok key → tame (ES.delete_entry (R := R) id key).
Proof using All.
  intros Hi Hp Hk. apply tame_run. intros s Hs.
  destruct (decide (is_Some (entry_of (sh_contents s) id key))) as [He|He].
  - destruct (delete_entry_ok id key s Hs Hi Hk He) as (s' & E & Hs' & Hc & U & _).
    eexists _, s'. split; [exact E|]. split; [done|]. by eapply frame_update.
  - eexists _, s. split; [apply delete_entry_absent; [done..|by apply eq_None_not_Some]|].
    split; [done|reflexivity].
Qed.

Lemma tame_batch_set id values :
  obj_ok id → P id → Forall key_ok values.*1 → NoDup values.*1 →
  tame (ES.batch_set_entries (R := R) id values None).
Proof using All.
  intros Hi Hp Hk Hn. apply tame_run. intros s Hs. destruct values as [|kv values].
  - eexists _, s. split; [|split; [done|reflexivity]]. simpl.
    by erewrite bind_ok by by apply metadata_or_default_ok.
  - destruct (batch_set_ok id (kv :: values) None s Hs Hi Hk Hn ltac:(done) ltac:(done))
      as (s' & E & Hs' & Hc & U & _).
    eexists _, s'. split; [exact E|]. split; [done|]. by eapply frame_update.
Qed.

Lemma tame_ensure id : obj_ok id → P id → tame (OS.ensure_metadata_exists (R := R) id).
Proof using All.
  intros Hi Hp. apply tame_run. intros s Hinv. pose proof Hinv as [Hs Hd].
  unfold OS.ensure_metadata_exists. rewrite (bind_ok _ _ _ _ _ (get_metadata_ok id s Hinv Hi)).
  destruct (meta_of (sh_contents s) id) as [m|].
  { eexists _, s. split; [reflexivity|]. split; [done|reflexivity]. }
  set (wr := {| w_key := build_metadata_key id; w_value := ObjectMeta.to_bytes ObjectMeta.new;
                w_ttl := None; w_return_old := true |}).
  destruct (law_write wr (sh_now s) 0 (sh_rep s) Hs) as (r & E & Hr & Hc).
  eexists _, (set_rep r s). split.
  { erewrite bind_ok by (unfold replicate, map_err, zoom; by rewrite E). reflexivity. }
  change (contents r = bt_insert (rk (KMeta id)) (ObjectMeta.to_bytes ObjectMeta.new) (sh_contents s)) in Hc.
  split.
  - split; [done|]. unfold sh_contents. simpl. rewrite Hc. apply store_ok_insert; [|done].
    apply (rec_meta id); [done|apply new_wf].
  - eapply (frame_update _ _ id); [done|done|]. unfold sh_contents at 2. simpl. rewrite Hc.
    apply obj_update_meta; [done|apply new_wf].
Qed.

(** Listing all entries changes nothing, also when it is given up. *)
Lemma collect_pages_same fuel pages id n acc cursor rows s :
  shard_inv s → obj_ok id → n ≠ 0 → length (sh_contents s) < fuel →
  at_cursor id (sh_contents s) cursor rows →
  (OS.collect_pages fuel pages id n acc cursor s).2 = s.
Proof using All.
  intros Hinv Hi Hn Hf. pose proof Hinv as [Hs Hd].
  assert (Nat.min n MAX_LIST_LIMIT ≠ 0) as Hlim by (unfold MAX_LIST_LIMIT; lia).
  revert acc cursor rows. induction pages as [|pages IH]; intros acc cursor rows Hc; [done|].
  cbn [OS.collect_pages].
  rewrite (bind_ok _ _ _ _ _ (list_entries_page _ _ _ _ _ _ Hinv Hi Hn Hf Hc)).
  destruct (next_cursor (page id _ rows)) as [c|] eqn:En; [|done].
  destruct (next_page id _ _ _ _ _ (shard_wf s Hs) Hd Hi Hlim Hc En) as (Hc' & _).
  case_bool_decide; [done|]. by eapply IH.
Qed.

Lemma reconstruct_same fuel id n s :
  shard_inv s → obj_ok id → length (sh_contents s) < fuel →
  (OS.reconstruct_object_from_entries fuel id n s).2 = s.
Proof using All.
  intros Hinv Hi Hf. unfold OS.reconstruct_object_from_entries. destruct (Nat.eqb_spec n 0) as [|Hn]; [done|].
  pose proof (collect_pages_same fuel MAX_PAGES id n [] None _ s Hinv Hi Hn Hf eq_refl) as Hc.
  unfold bind at 1. destruct (OS.collect_pages fuel MAX_PAGES id n [] None s) as [[es|e|p] s'];
    simpl in Hc; subst s'; [|done..].
  rewrite (bind_ok _ _ _ _ _ (get_metadata_ok id s Hinv Hi)). cbv zeta.
  repeat case_match; try done;
    by rewrite (bind_ok _ _ _ _ _ (load_event_config_ok id s (proj1 Hinv))).
Qed.

Context (fuel : Shard R → nat) (Hfuel : ∀ s, length (sh_contents s) < fuel s).

Lemma tame_reconstruct id n : obj_ok id →
  tame (λ s, OS.reconstruct_object_from_entries (fuel s) id n s).
Proof using All.
  intros Hi s Hs. rewrite reconstruct_same by done. split; [done|]. by split; [reflexivity|].
Qed.

(** Deleting an object after its entries were looked at *)
Lemma tame_delete_object id : obj_ok id → P id → tame (λ s, OS.delete_object (fuel s) id s).
Proof using All.
  intros Hi Hp. apply tame_run. intros s Hinv. unfold OS.delete_object.
  rewrite (bind_ok _ _ _ _ _ (get_metadata_ok id s Hinv Hi)).
  destruct (meta_of (sh_contents s) id) as [m|] eqn:Hm.
  2:{ eexists _, s. split; [reflexivity|]. split; [done|reflexivity]. }
  destruct (tombstone m).
  { eexists _, s. split; [reflexivity|]. split; [done|reflexivity]. }
  rewrite !bind_gets.
  assert (∃ x, (if v2_mode s then OS.reconstruct_object_from_entries (fuel s) id (sh_prefetch_limit s)
                else ret None) s = (x, s)) as [x Ex].
  { destruct (v2_mode s); [|by eexists].
    pose proof (reconstruct_same (fuel s) id (sh_prefetch_limit s) s Hinv Hi (Hfuel s)) as E.
    destruct (OS.reconstruct_object_from_entries _ _ _ s) as [x s']. simpl in E. subst. by exists x. }
  unfold bind at 1. rewrite Ex. destruct x as [existing|e|p].
  2:{ eexists _, s. split; [reflexivity|]. split; [done|reflexivity]. }
  2:{ eexists _, s. split; [reflexivity|]. split; [done|reflexivity]. }
  rewrite (bind_ok _ _ _ _ _ (load_event_config_ok id s (proj1 Hinv))).
  destruct (delete_granular_ok id s Hinv Hi) as (r1 & E1 & Hinv1 & U1).
  rewrite (bind_ok _ _ _ _ _ E1). cbv zeta.
  set (m' := ObjectMeta.mark_tombstone (ObjectMeta.increment_version m)).
  assert (ObjectMeta.wf m') as Hmw.
  { pose proof (meta_or_new_wf (sh_contents s) id (shard_wf s (proj1 Hinv)) (proj2 Hinv) Hi) as Hw.
    unfold meta_or_new in Hw. rewrite Hm in Hw. by apply mark_tombstone_wf, increment_version_wf. }
  destruct (set_metadata_ok id m' (set_rep r1 s) (proj1 Hinv1)) as (r2 & Hr2 & Hc2 & E2).
  rewrite (bind_ok _ _ _ _ _ E2).
  assert (shard_inv (set_rep r2 s)) as Hinv2.
  { split; [done|]. unfold sh_contents. simpl. rewrite Hc2. apply store_ok_insert.
    - by apply (rec_meta id).
    - apply Hinv1. }
  assert (obj_update (sh_contents s) (contents r2) id (λ _, None) (Some m') None) as U2.
  { rewrite Hc2. by eapply obj_update_then_meta. }
  destruct existing as [o|]; [case_bool_decide|]; (eexists _, _; split; [reflexivity|];
    split; [exact Hinv2|]; by eapply (frame_update _ _ id)).
Qed.
End confined.

Lemma collected_keys (l : list (bytes * bytes)) (m : gmap bytes ObjectVal) k :
  k ∈ dom (foldl (λ m kv, <[kv.1 := Bridge.byte_val kv.2]> m) m l) → k ∈ dom m ∨ k ∈ l.*1.
Proof.
  revert m. induction l as [|[k' v] l IH]; intros m; simpl; [by left|].
  intros [Hk|Hk]%IH; [|set_solver]. rewrite dom_insert in Hk. set_solver.
Qed.

Lemma raw_key_ok : key_ok Bridge.RAW_ENTRY_KEY.
Proof. decide_now. Qed.

Section guests.
Context {C R Z : Type} `{StorageLaws R} `{!ReplicationLayer R} `{!ReplicationLaws R} `{CodecLaws}.
Context `{!ZSession Z} (w : Wire) (rs : Resources) (rt : Runtime C) (debug : WitError → bytes).
Context (fuel : Shard R → nat) (shard_text : ShardError → bytes) (status_text : GrpcStatus → bytes).
Context (hash_order : gmap bytes ValData → list (bytes * ValData)).
Context (order : gmap bytes ObjectVal → list (bytes * ObjectVal)).
Context (a : WasmExecutorAdapter C) (P : bytes → Prop).
Hypothesis fuel_enough : ∀ s, length (sh_contents s) < fuel s.
Hypothesis order_iterates : ∀ m, iterates (order m) m.

Notation W := (Shard R * Z)%type.

Definition id_allowed (id : bytes) : Prop := obj_ok id ∧ P id.

(** *** What guests may ask *)

Definition fn_call_ok (A : Type) (c : FnCall A) : Prop :=
  match c with
  | FGetObject _ _ id => obj_ok id
  | FSetObject _ _ id _ | FDeleteObject _ _ id | FMergeObject _ _ id _ => id_allowed id
  | FGetValue _ _ id key => obj_ok id ∧ key_ok key
  | FSetValue _ _ id key _ | FDeleteValue _ _ id key => id_allowed id ∧ key_ok key
  | FInvokeFn _ _ _ _ => True
  end.

Definition object_call_ok (A : Type) (c : ObjectCall A) : Prop :=
  match c with
  | CGet _ key | CSet _ key _ | CDelete _ key => key_ok key
  | CGetMany _ keys => Forall key_ok keys
  | CSetMany _ fields => Forall (λ e, key_ok (fe_key e)) fields
  | CObject r => id_allowed (wf_object_id r)
  | CObjectByStr s => ∀ r, ObjectHost.parse_object_ref_str s = Ok r → id_allowed (wf_object_id r)
  | _ => True
  end.

(** The references a guest is given: of an object it may change, or the empty one *)
Definition object_answer_ok (A : Type) (c : ObjectCall A) : A → Prop :=
  match c with
  | CRef _ => λ r, wf_object_id r = [] ∨ id_allowed (wf_object_id r)
  | _ => λ _, True
  end.

Definition any_answer (A : Type) (c : FnCall A) : A → Prop := λ _, True.

Definition runtime_ok : Prop :=
  (∀ c f b req g, (∀ id, wq_object_id req = Some id → id_allowed id) →
     rt_function rt c f b req = inr g → guest_ok fn_call_ok any_answer g) ∧
  (∀ c f h fn p g, rt_object rt c f h fn p = inr g → guest_ok object_call_ok object_answer_ok g).

(** *** The data operations *)

Definition node_inv (x : W) : Prop := shard_inv x.1.
Definition node_frame (x y : W) : Prop := frame P x.1 y.1.

#[local] Instance node_frame_preorder : PreOrder node_frame.
Proof.
  split; [intros x; apply (frame_preorder P)|]. intros x y z. apply (frame_preorder P).
Qed.

Notation calm := (safe node_inv node_frame (λ _, True)).

Lemma on_shard_calm {A} (m : M (Shard R) ShardError A) :
  safe shard_inv (frame P) (λ _, True) m → calm (Bridge.on_shard (Z := Z) shard_text m).
Proof.
  intros Hm. apply safe_map_err. eapply safe_zoom; [| |exact Hm]; [done|]. intros s x Hs Hx Ht. by split.
Qed.

Context (f : InvocationRequest → M W OffloadError InvocationResponse).
Context (o : ObjectInvocationRequest → M W OffloadError InvocationResponse).

Definition executor_calm (f : InvocationRequest → M W OffloadError InvocationResponse)
    (o : ObjectInvocationRequest → M W OffloadError InvocationResponse) : Prop :=
  (∀ req, calm (f req)) ∧ ∀ req, id_allowed (default [] (oi_object_id req)) → calm (o req).

Hypothesis Hexec : executor_calm f o.

#[local] Instance ops : OdgmDataOps W :=
  Bridge.shard_data_ops fuel shard_text status_text order f o.

Lemma calm_get_value cls pid id key : obj_ok id → key_ok key → calm (do_get_value cls pid id key).
Proof using All.
  intros Hi Hk. eapply safe_bind; [apply _|by apply on_shard_calm, tame_get_entry|].
  intros v _. by apply safe_ret; [apply _|].
Qed.

Lemma calm_set_value cls pid id key v : id_allowed id → key_ok key → calm (do_set_value cls pid id key v).
Proof using All. intros [Hi Hp] Hk. by apply on_shard_calm, tame_set_entry. Qed.

Lemma calm_delete_value cls pid id key : id_allowed id → key_ok key → calm (do_delete_value cls pid id key).
Proof using All. intros [Hi Hp] Hk. by apply on_shard_calm, tame_delete_entry. Qed.

Lemma calm_set_object cls pid id data : id_allowed id → calm (do_set_object cls pid id data).
Proof using All.
  intros [Hi Hp]. eapply safe_bind; [apply _|by eapply safe_tried, on_shard_calm, tame_ensure|].
  intros x _. by apply on_shard_calm, tame_set_entry, raw_key_ok.
Qed.

Lemma calm_delete_object cls pid id : id_allowed id → calm (do_delete_object cls pid id).
Proof using All. intros [Hi Hp]. by apply on_shard_calm, tame_delete_object. Qed.

Lemma calm_get_all cls pid id : obj_ok id → calm (do_get_all_entries cls pid id).
Proof using All.
  intros Hi. eapply safe_bind; [apply _|by apply on_shard_calm, tame_reconstruct|].
  intros v _. by apply safe_ret; [apply _|].
Qed.

Lemma calm_batch cls pid id l : id_allowed id → Forall key_ok l.*1 → calm (do_batch_set_values cls pid id l).
Proof using All.
  intros [Hi Hp] Hk. eapply safe_bind; [apply _| |intros v _; by apply safe_ret; [apply _|]].
  apply on_shard_calm, tame_batch_set; [done|done| |by eapply iterates_NoDup].
  eapply iterates_keys; [done|]. intros k [Hd|Hd]%collected_keys; [by rewrite dom_empty_L in Hd|].
  rewrite Forall_forall in Hk. auto.
Qed.

Lemma calm_invoke_fn cls pid fn_id p : calm (do_invoke_fn cls pid fn_id p).
Proof using All.
  intros x. simpl. unfold Bridge.invoke_fn. revert x. change (calm (λ x : W, bind (map_err
    (λ e, DInternal (bs "cross-invoke failed: " ++ Offload.error_text status_text e))
    (f {| ir_partition_id := pid; ir_cls_id := class_id x.1; ir_fn_id := fn_id; ir_options := ∅;
          ir_payload := default [] p |})) (λ resp, ret (iv_payload resp)) x)).
  intros x. eapply safe_bind; [apply _|apply safe_map_err, (proj1 Hexec)|].
  intros v _. by apply safe_ret; [apply _|].
Qed.

Lemma calm_invoke_obj cls pid id fn_id p : id_allowed id → calm (do_invoke_obj cls pid id fn_id p).
Proof using All.
  intros Hi x. revert x. change (calm (λ x : W, bind (map_err
    (λ e, DInternal (bs "cross-invoke-obj failed: " ++ Offload.error_text status_text e))
    (o {| oi_partition_id := pid; oi_cls_id := class_id x.1; oi_fn_id := fn_id; oi_options := ∅;
          oi_payload := default [] p; oi_object_id := Some id |})) (λ resp, ret (iv_payload resp)) x)).
  intros x. eapply safe_bind; [apply _|by apply safe_map_err, (proj2 Hexec)|].
  intros v _. by apply safe_ret; [apply _|].
Qed.

(** *** The hosts *)

Lemma fn_host_calm A (c : FnCall A) : fn_call_ok A c → safe node_inv node_frame (any_answer A c) (FnHost.answer A c).
Proof using All.
  assert (∀ B (m : M W WitError B), calm m → calm (tried m : M W bytes (WitError + B))) as Ht.
  { intros B m Hm. eapply safe_mono; [by apply safe_tried|done]. }
  assert (∀ B B' (m : M W DataOpsError B) (g : B → B'),
    calm m → calm (let! x := FnHost.ops m in ret (g x) : M W WitError B')) as Hb.
  { intros B B' m g Hm. eapply safe_bind; [apply _|by apply safe_map_err|].
    intros v _. by apply safe_ret; [apply _|]. }
  destruct c; simpl; intros Hc; apply Ht.
  - apply Hb, (calm_get_value cls pid); [done|apply raw_key_ok].
  - by apply safe_map_err, calm_set_object.
  - by apply safe_map_err, calm_delete_object.
  - eapply safe_bind; [apply _|by apply safe_map_err, calm_set_object|]. intros _ _.
    apply Hb, (calm_get_value cls pid); [apply Hc|apply raw_key_ok].
  - destruct Hc. by apply Hb, calm_get_value.
  - destruct Hc. by apply safe_map_err, calm_set_value.
  - destruct Hc. by apply safe_map_err, calm_delete_value.
  - apply safe_map_err, calm_invoke_fn.
Qed.

Definition host_inv (h : ObjHost W) : Prop :=
  node_inv (oh_world h) ∧ map_Forall (λ _ p, id_allowed (wf_object_id (ps_object_ref p))) (oh_table h).
Definition host_frame (h h' : ObjHost W) : Prop := node_frame (oh_world h) (oh_world h').

#[local] Instance host_frame_preorder : PreOrder host_frame.
Proof.
  split; [intros h; unfold host_frame; reflexivity|]. intros x y z. unfold host_frame. apply transitivity.
Qed.

Notation quiet := (safe host_inv host_frame (λ _, True)).

Lemma host_ops {A} (m : M W DataOpsError A) : calm m → quiet (ObjectHost.ops m).
Proof.
  intros Hm. apply safe_map_err. eapply safe_zoom; [| |exact Hm].
  - by intros h [Hw _].
  - intros h x [Hw Ht] Hx Hf. by split.
Qed.

Lemma host_proxied {A} (m : M Z CallError A) : quiet (ObjectHost.proxied snd Node.set_session m).
Proof.
  intros h [Hw Ht]. unfold ObjectHost.proxied. destruct (m (oh_world h).2) as [r z]. simpl.
  split; [by split|]. split; [|done]. unfold host_frame, node_frame. simpl. apply (frame_preorder P).
Qed.

Lemma host_remote : quiet (ObjectHost.remote (W := W)).
Proof. intros h Hh. split; [done|]. split; [unfold host_frame; reflexivity|done]. Qed.

Lemma host_proxy {A} h (k : ObjectProxyState → M (ObjHost W) WitError A) :
  (∀ p, id_allowed (wf_object_id (ps_object_ref p)) → quiet (k p)) →
  quiet (bind (ObjectHost.get_proxy rs h) k).
Proof.
  intros Hk. eapply (safe_bind _ _ (λ p, id_allowed (wf_object_id (ps_object_ref p)))); [|done].
  intros s Hs. unfold ObjectHost.get_proxy. simpl. split; [done|]. split; [unfold host_frame; reflexivity|].
  destruct (oh_table s !! h) as [p|] eqn:E; intros ? [= <-]. by apply Hs in E.
Qed.

(** A call that goes to another shard *)
Lemma host_away {A} (m : M (ObjHost W) WitError A) : quiet m → quiet (ObjectHost.remote ;;; m).
Proof. intros Hm. eapply safe_bind; [apply _|apply host_remote|done]. Qed.

Lemma host_then {A B} (m : M (ObjHost W) WitError A) (g : A → M (ObjHost W) WitError B) :
  quiet m → (∀ x, quiet (g x)) → quiet (bind m g).
Proof. intros Hm Hg. eapply safe_bind; [apply _|done|auto]. Qed.

Lemma host_ret {A} (x : A) : quiet (ret x : M (ObjHost W) WitError A).
Proof. by apply safe_ret; [apply _|]. Qed.

Lemma host_each read keys : (∀ key, key_ok key → quiet (read key)) → Forall key_ok keys →
  quiet (ObjectHost.get_each read keys).
Proof.
  intros Hr. induction 1 as [|key keys Hk Hks IH]; simpl; [apply host_ret|].
  apply host_then; [auto|]. intros v. apply host_then; [done|]. intros; apply host_ret.
Qed.

Lemma host_depth n : quiet (modify (ObjectHost.add_depth n) : M (ObjHost W) WitError unit).
Proof. intros h Hh. split; [done|]. split; [unfold host_frame; reflexivity|done]. Qed.

Lemma host_tried {A} (m : M (ObjHost W) WitError A) :
  quiet m → quiet (tried m : M (ObjHost W) WitError (WitError + A)).
Proof. intros Hm. eapply safe_mono; [by apply safe_tried|done]. Qed.

Lemma invoke_quiet h fn_name p :
  quiet (ObjectHost.invoke w rs snd Node.set_session h fn_name p).
Proof using All.
  apply host_proxy. intros proxy Hp. cbv zeta.
  eapply safe_bind; [apply _|by apply (safe_gets _ _ _ (λ _, True))|]. intros depth _.
  eapply safe_bind; [apply _|by apply (safe_gets _ _ _ (λ _, True))|]. intros max _.
  case_match; [apply safe_throw; apply _|].
  apply host_then; [apply host_depth|]. intros _. apply host_then.
  - destruct (ps_is_local proxy); [by apply host_tried, host_ops, calm_invoke_obj|].
    apply host_away, host_tried, host_then; [apply host_proxied|]. intros; apply host_ret.
  - intros x. apply host_then; [apply host_depth|]. intros _.
    destruct x; [apply safe_throw; apply _|apply host_ret].
Qed.

Lemma create_quiet r : id_allowed (wf_object_id r) → quiet (ObjectHost.create_proxy (W := W) rs r).
Proof.
  intros Hr h [Hw Ht]. unfold ObjectHost.create_proxy.
  destruct (rs_slot rs (oh_table h)) as [i|]; simpl; (split; [|split; [unfold host_frame; reflexivity|done]]);
    [|by split]. split; [done|]. simpl. by apply map_Forall_insert_2.
Qed.

Lemma object_host_quiet A (c : ObjectCall A) : object_call_ok A c →
  safe host_inv host_frame (object_answer_ok A c)
    (ObjectHost.answer w rs snd Node.set_session hash_order A c).
Proof using All.
  assert (∀ B (m : M (ObjHost W) WitError B), quiet m → quiet (tried m : M (ObjHost W) bytes (WitError + B))) as Ht.
  { intros B m Hm. eapply safe_mono; [by apply safe_tried|done]. }
  assert (∀ r key, id_allowed (wf_object_id r) → key_ok key → quiet (ObjectHost.get_local r key)) as Hgl.
  { intros r key [Hr _] Hk. by apply host_ops, calm_get_value. }
  assert (∀ r key, quiet (ObjectHost.get_remote w snd Node.set_session r key)) as Hgr.
  { intros r key. apply host_then; [apply host_proxied|]. intros; apply host_ret. }
  destruct c; simpl; intros Hc; try (by apply Ht, invoke_quiet); try (apply Ht; try (apply host_proxy; intros proxy Hp; cbv zeta;
    destruct (ps_is_local proxy))); try (by apply host_away, host_proxied).
  - intros s [Hw Hs]. split; [done|]. split; [unfold host_frame; reflexivity|]. intros r [= <-].
    destruct (oh_table s !! h) as [p|] eqn:E; [right; by apply Hs in E|by left].
  - by apply Hgl.
  - by apply host_away.
  - apply host_each; [|done]. intros; by apply Hgl.
  - apply host_away, host_each; [|done]. intros; by apply Hgr.
  - by apply host_ops, calm_set_value.
  - apply host_ops, calm_batch; [done|]. rewrite <- list_fmap_compose. by apply Forall_fmap.
  - by apply host_ops, calm_delete_value.
  - apply safe_throw; apply _.
  - apply host_then; [by apply host_ops, calm_get_all, Hp|]. intros [l|]; [apply host_ret|].
    apply safe_throw; apply _.
  - apply host_away, host_then; [apply host_proxied|]. intros [l|]; [apply host_ret|].
    apply safe_throw; apply _.
  - by apply host_ops, calm_set_object.
  - intros s [Hw Hs]. unfold ObjectHost.drop. destruct (oh_table s !! h) as [p|]; simpl;
      (split; [|split; [unfold host_frame; reflexivity|done]]); [|done].
    split; [done|]. simpl. by apply map_Forall_delete.
  - by apply create_quiet.
  - unfold ObjectHost.object_by_str. intros st Hs. unfold bind, lift_res.
    destruct (ObjectHost.parse_object_ref_str s) as [r|e|p] eqn:E; [by apply create_quiet; [apply Hc|]|..];
      (split; [done|]; split; [unfold host_frame; reflexivity|done]).
  - by apply safe_ret; [apply _|].
Qed.

(** *** The executor *)

Hypothesis guests_ok : runtime_ok.
Hypothesis P_nil : P [].

Lemma legacy_calm obj fn_id cls pid p c fl : (∀ id, obj = Some id → id_allowed id) →
  calm (Executor.invoke_legacy rt obj fn_id cls pid p c fl).
Proof using All.
  intros Hobj. unfold Executor.invoke_legacy. cbv zeta.
  destruct (rt_function rt c fl _ _) as [e|g] eqn:E; [apply safe_throw; apply _|].
  eapply safe_bind; [apply _| |intros resp _; by apply safe_ret; [apply _|]].
  eapply safe_run; [apply _|apply fn_host_calm|].
  by eapply (proj1 guests_ok); [|exact E].
Qed.

Lemma oop_calm fn_id cls pid obj p ctx c fl : id_allowed obj →
  calm (Executor.invoke_oop w rs snd Node.set_session hash_order rt debug fn_id cls pid obj p ctx c fl).
Proof using All.
  intros Hobj x Hx. unfold Executor.invoke_oop.
  assert (∀ remote cls' pid' (m : M (ObjHost W) bytes WasmInvocationResult), quiet m →
    node_inv (Executor.on_host remote cls' pid' m x).2 ∧
    node_frame x (Executor.on_host remote cls' pid' m x).2 ∧
    ∀ r, (Executor.on_host remote cls' pid' m x).1 = Ok r → True) as Hon.
  { intros remote cls' pid' m Hm. unfold Executor.on_host.
    destruct (Hm (ObjectHost.new x remote cls' pid')) as ((Hw & _) & Hf & _).
    - split; [done|]. apply map_Forall_empty.
    - by destruct (m _). }
  destruct ctx as [ctx|]; apply Hon;
    (eapply safe_bind; [apply _|by apply safe_map_err, create_quiet|]; intros h _;
     destruct (rt_object rt c fl h fn_id p) as [e|g] eqn:E; [apply safe_throw; apply _|];
     eapply safe_bind; [apply _| |intros resp _; by apply safe_ret; [apply _|]];
     eapply safe_run; [apply _|apply object_host_quiet|]; by eapply (proj2 guests_ok)).
Qed.

Lemma adapter_calm : executor_calm
  (Adapter.invoke_fn w rs snd Node.set_session hash_order rt debug a)
  (Adapter.invoke_obj w rs snd Node.set_session hash_order rt debug a).
Proof using All.
  split; [intros req|intros req Hid];
    (eapply safe_bind; [apply _|apply safe_map_err|intros r _; by apply safe_ret; [apply _|]]).
  - unfold Executor.invoke_fn. destruct (ModuleStore.get _ _) as [m|]; [|apply safe_throw; apply _].
    destruct (cm_world_type m); [by apply legacy_calm|]. apply oop_calm. by split; [decide_now|].
  - unfold Executor.invoke_obj. destruct (ModuleStore.get _ _) as [m|]; [|apply safe_throw; apply _].
    destruct (cm_world_type m); [|by apply oop_calm]. apply legacy_calm. by intros id [= <-].
Qed.
End guests.

Section nodes.
Context {C R Z : Type} `{StorageLaws R} `{!ReplicationLayer R} `{!ReplicationLaws R} `{CodecLaws}.
Context `{!ZSession Z} (w : Wire) (rs : Resources) (rt : Runtime C) (debug : WitError → bytes).
Context (fuel : Shard R → nat) (shard_text : ShardError → bytes) (status_text : GrpcStatus → bytes).
Context (hash_order : gmap bytes ValData → list (bytes * ValData)).
Context (order : gmap bytes ObjectVal → list (bytes * ObjectVal)).
Context (a : WasmExecutorAdapter C) (P : bytes → Prop).
Hypothesis fuel_enough : ∀ s, length (sh_contents s) < fuel s.
Hypothesis order_iterates : ∀ m, iterates (order m) m.
Hypothesis guests_ok : runtime_ok rt P.
Hypothesis P_nil : P [].

Notation execute n := (Node.executor (R := R) (Z := Z) w rs rt debug fuel shard_text status_text hash_order order a n).

Lemma executor_is_calm n : executor_calm P (execute n).1 (execute n).2.
Proof using All.
  induction n as [|n IH]; [split; intros; apply safe_panic, node_frame_preorder|].
  by apply adapter_calm.
Qed.

(** C34. Whatever the modules of a shard do, as long as the identifiers they address are text without
    zero bytes: an invocation, with all the invocations it makes in turn and also when it traps,
    leaves the shard with its invariant and its configuration, and changes no object but those the
    guests address; a stateless call counts as one on the object with the empty identifier. *)
Theorem guests_confined n req (s : Shard R) (z : Z) :
  shard_inv s → id_allowed P (default [] (oi_object_id req)) →
  let s' := (Node.invoke_obj w rs rt debug fuel shard_text status_text hash_order order a n req (s, z)).2.1 in
  shard_inv s' ∧ same_config s s' ∧
  ∀ id, obj_ok id → ¬ P id → same_object (sh_contents s) (sh_contents s') id.
Proof using All.
  intros Hs Hid. destruct (proj2 (executor_is_calm n) req Hid (s, z) Hs) as (Hi & [Hc Hf] & _).
  by split_and!.
Qed.
End nodes.

(** ** Fields through a proxy *)

Section fields.
Context {R Z : Type} `{StorageLaws R} `{!ReplicationLayer R} `{!ReplicationLaws R} `{CodecLaws}.
Context `{!ZSession Z} (w : Wire) (rs : Resources).
Context (fuel : Shard R → nat) (shard_text : ShardError → bytes) (status_text : GrpcStatus → bytes).
Context (hash_order : gmap bytes ValData → list (bytes * ValData)).
Context (order : gmap bytes ObjectVal → list (bytes * ObjectVal)).
Context (f : InvocationRequest → M (Shard R * Z) OffloadError InvocationResponse).
Context (o : ObjectInvocationRequest → M (Shard R * Z) OffloadError InvocationResponse).

#[local] Instance fields_ops : OdgmDataOps (Shard R * Z) :=
  Bridge.shard_data_ops fuel shard_text status_text order f o.

Notation set := (ObjectHost.set w rs snd Node.set_session hash_order).
Notation get := (ObjectHost.get w rs snd Node.set_session).

Lemma local_get h key p (st : ObjHost (Shard R * Z)) :
  oh_table st !! h = Some p → ps_is_local p = true →
  shard_inv (oh_world st).1 → obj_ok (wf_object_id (ps_object_ref p)) → key_ok key →
  (get h key st).1
  = Ok (val_data <$> entry_of (sh_contents (oh_world st).1) (wf_object_id (ps_object_ref p)) key).
Proof.
  intros Hp Hl Hinv Hi Hk. unfold ObjectHost.get, bind, ObjectHost.get_proxy. rewrite Hp, Hl.
  unfold ObjectHost.get_local, ObjectHost.ops, map_err, zoom. simpl.
  unfold Bridge.get_value, bind, Bridge.on_shard, map_err, zoom. by rewrite get_entry_ok.
Qed.

(** A field that a guest sets through the proxy of an object of the shard is stored with the next
    version of the object, and is what the guest then reads; every other field of every object it
    can reach reads as before. *)
Theorem field_roundtrip h key v p (st : ObjHost (Shard R * Z)) :
  oh_table st !! h = Some p → ps_is_local p = true → shard_inv (oh_world st).1 →
  let id := wf_object_id (ps_object_ref p) in obj_ok id → key_ok key →
  ∃ st', set h key v st = (Ok tt, st') ∧
  shard_inv (oh_world st').1 ∧ oh_table st' = oh_table st ∧ oh_depth st' = oh_depth st ∧
  version_of (sh_contents (oh_world st').1) id
  = object_version (ObjectMeta.increment_version (meta_or_new (sh_contents (oh_world st).1) id)) ∧
  ∀ h' p' key', oh_table st !! h' = Some p' → ps_is_local p' = true →
    obj_ok (wf_object_id (ps_object_ref p')) → key_ok key' →
    (get h' key' st').1
    = if decide (wf_object_id (ps_object_ref p') = id ∧ key' = key) then Ok (Some v)
      else (get h' key' st).1.
Proof using All.
  intros Hp Hl Hinv id Hi Hk.
  destruct (set_entry_ok id key (Bridge.byte_val v) _ Hinv Hi Hk) as (s' & E & Hinv' & _ & U & _).
  set (st' := ObjectHost.set_world (s', (oh_world st).2) st). exists st'.
  split.
  { unfold ObjectHost.set, bind, ObjectHost.get_proxy. rewrite Hp, Hl. cbv zeta.
    unfold ObjectHost.ops, map_err, zoom. simpl. unfold Bridge.set_value, Bridge.on_shard, map_err, zoom.
    fold id. by rewrite E. }
  split; [done|]. split; [done|]. split; [done|]. split.
  { unfold version_of, meta_or_new. simpl. destruct U as [_ Um _]. rewrite Um by done. by rewrite decide_True. }
  intros h' p' key' Hp' Hl' Hi' Hk'.
  rewrite (local_get h' key' p' st'), (local_get h' key' p' st) by done. simpl.
  destruct U as [Ue _ _]. rewrite Ue by done.
  destruct (decide (_ = id)) as [->|Hne]; [|by rewrite decide_False by (by intros [? _])].
  destruct (decide (key' = key)) as [->|Hnk]; [by rewrite decide_True|].
  by rewrite decide_False by (by intros [_ ?]).
Qed.

(** *** The depth of invocations *)

(** An invocation leaves the depth as it was, unless it goes to another shard and there is no
    proxy: then it stays counted. *)
Theorem invoke_depth h fn_name payload p (st : ObjHost (Shard R * Z)) :
  oh_table st !! h = Some p → (oh_depth st < oh_max_depth st)%Z →
  oh_depth (ObjectHost.invoke w rs snd Node.set_session h fn_name payload st).2
  = if ps_is_local p || oh_remote st
    then match (ObjectHost.invoke w rs snd Node.set_session h fn_name payload st).1 with
         | Panic _ => (oh_depth st + 1)%Z
         | _ => oh_depth st
         end
    else (oh_depth st + 1)%Z.
Proof.
  intros Hp Hd. set (st1 := ObjectHost.add_depth 1 st).
  eassert (ObjectHost.invoke w rs snd Node.set_session h fn_name payload st = _) as E.
  { unfold ObjectHost.invoke.
    erewrite bind_ok by (unfold ObjectHost.get_proxy; by rewrite Hp). cbv zeta.
    rewrite !bind_gets. rewrite (proj2 (Z.leb_gt _ _)) by done. rewrite bind_modify. fold st1. reflexivity. }
  rewrite E. clear E.
  assert (oh_depth st1 = (oh_depth st + 1)%Z) as Hd1 by done.
  assert (∀ A (m : M (ObjHost (Shard R * Z)) WitError A), (∀ s, oh_depth (m s).2 = oh_depth s) →
    ∀ s, oh_depth s = (oh_depth st + 1)%Z →
    let r := bind (tried m) (λ x, modify (ObjectHost.add_depth (-1)) ;;;
               match x with inr y => ret y | inl e => throw e end) s in
    oh_depth r.2 = match r.1 with Panic _ => (oh_depth st + 1)%Z | _ => oh_depth st end) as Hb.
  { intros A m Hm s Hs. specialize (Hm s). unfold bind, tried, modify.
    destruct (m s) as [[y|e|q] s']; simpl in *; lia. }
  destruct (ps_is_local p); simpl.
  - apply Hb; [|done]. intros s. unfold ObjectHost.ops, map_err, zoom.
    repeat case_match; by simplify_eq/=.
  - destruct (oh_remote st) eqn:Er.
    + rewrite bind_assoc.
      erewrite bind_ok by (unfold ObjectHost.remote; simpl; by rewrite Er). apply Hb; [|done]. intros s.
      unfold bind, ObjectHost.proxied. repeat case_match; by simplify_eq/=.
    + rewrite bind_assoc.
      erewrite bind_err by (unfold ObjectHost.remote; simpl; by rewrite Er). done.
Qed.
End fields.

(** ** Recursion *)

Section recursion.
Context {C R Z : Type} `{Storage R} `{!ReplicationLayer R} `{Codec} `{!ZSession Z}.
Context (w : Wire) (rs : Resources) (debug : WitError → bytes).
Context (fuel : Shard R → nat) (shard_text : ShardError → bytes) (status_text : GrpcStatus → bytes).
Context (hash_order : gmap bytes ValData → list (bytes * ValData)).
Context (order : gmap bytes ObjectVal → list (bytes * ObjectVal)).

(** A guest that calls its own method and gives up when that fails *)
Definition calls_itself (h : nat) (fn : bytes) (p : option bytes) : Guest ObjectCall WitResponse :=
  GCall (CInvoke h fn p) (λ _, GReturn {| wr_payload := None; wr_status := WOkay; wr_headers := [] |}).

Definition recursive : Runtime C :=
  {| rt_function := λ _ _ _ _, inl (bs "not a function");
     rt_object := λ _ _ h fn p, inr (calls_itself h fn p) |}.

Lemma invoke_panics `{!OdgmDataOps (Shard R * Z)} h fn p proxy q x (st : ObjHost (Shard R * Z)) :
  oh_table st !! h = Some proxy → ps_is_local proxy = true → (oh_depth st < oh_max_depth st)%Z →
  let r := ps_object_ref proxy in
  do_invoke_obj (wf_cls r) (wf_partition_id r) (wf_object_id r) fn p (oh_world st) = (Panic q, x) →
  ∃ st', ObjectHost.invoke w rs snd Node.set_session h fn p st = (Panic q, st') ∧ oh_world st' = x.
Proof.
  intros Hp Hl Hd r E. unfold ObjectHost.invoke.
  erewrite bind_ok by (unfold ObjectHost.get_proxy; by rewrite Hp). cbv zeta.
  rewrite !bind_gets. rewrite (proj2 (Z.leb_gt _ _)) by done. rewrite bind_modify, Hl. fold r.
  unfold bind, tried, ObjectHost.ops, map_err, zoom. simpl. rewrite E. by eexists.
Qed.

(** The limit of nested invocations does not stop a method that calls itself: each invocation has
    a host of its own, which counts from zero. The calls nest as long as there is room for them. *)
Theorem recursion_not_stopped n (a : WasmExecutorAdapter C) c m req (s : Shard R) (z : Z) h :
  ModuleStore.get (oi_fn_id req) (wa_store a) = Some m → cm_world_type m = ObjectOriented →
  wa_oop_context a = Some c → oc_cls_id c = class_id s → oc_partition_id c = oi_partition_id req →
  rs_slot rs ∅ = Some h → oi_cls_id req = class_id s →
  Node.invoke_obj w rs recursive debug fuel shard_text status_text hash_order order a n req (s, z)
  = (Panic "too many nested invocations", (s, z)).
Proof.
  intros Hm Ht Hc Hcls Hpid Hslot. revert req Hm Hpid.
  induction n as [|n IH]; intros req Hm Hpid Hreq; [done|].
  set (inner := {| oi_partition_id := oi_partition_id req; oi_cls_id := class_id s;
                   oi_fn_id := oi_fn_id req; oi_options := ∅;
                   oi_payload := default [] (Adapter.payload_of (oi_payload req));
                   oi_object_id := Some (default [] (oi_object_id req)) |}).
  specialize (IH inner Hm Hpid eq_refl). unfold Node.invoke_obj in *.
  cbn [Node.executor snd]. unfold Adapter.invoke_obj, Executor.invoke_obj. rewrite Hm, Ht, Hc.
  unfold Executor.invoke_oop. set (host := ObjectHost.new (s, z) (oc_remote c) (oc_cls_id c) (oc_partition_id c)).
  set (self := {| wf_cls := oi_cls_id req; wf_partition_id := oi_partition_id req;
                  wf_object_id := default [] (oi_object_id req) |}).
  set (proxy := {| ps_object_ref := self; ps_is_local := ObjectHost.is_local self host |}).
  assert (ps_is_local proxy = true) as Hl.
  { unfold proxy, ObjectHost.is_local. simpl. by rewrite !bool_decide_true by congruence. }
  destruct (invoke_panics (OdgmDataOps0 := Bridge.shard_data_ops fuel shard_text status_text order
      (Node.executor w rs recursive debug fuel shard_text status_text hash_order order a n).1
      (Node.executor w rs recursive debug fuel shard_text status_text hash_order order a n).2)
    h (oi_fn_id req) (Adapter.payload_of (oi_payload req)) proxy "too many nested invocations" (s, z)
    (ObjectHost.set_table (<[h := proxy]> ∅) host)) as (st' & E & Ew); [apply lookup_insert_eq|done|done| |].
  { simpl. unfold Bridge.invoke_obj, bind, map_err. simpl. fold inner. by rewrite IH. }
  unfold bind at 1, map_err at 1, Executor.on_host. fold host.
  erewrite bind_ok by (unfold map_err, ObjectHost.create_proxy; simpl; by rewrite Hslot).
  cbn [rt_object recursive run calls_itself]. fold proxy.
  unfold bind, ObjectHost.answer, tried. rewrite E. by rewrite <- Ew.
Qed.
End recursion.

(** ** Setting up *)

Section setup.
Context {C : Type} (web : Web) (en : Engine C).

(** Servers and files that do not change as they are read *)
Hypothesis memoryless : ∀ log log' q, web_send web (log ++ [q]) = web_send web (log' ++ [q]).

(** The module of a URL, fetched by itself *)
Definition compiled (url : bytes) : option (CompiledModule C) :=
  match (Oci.fetch_module web url []).1 with
  | Ok b => match en_compile en b with
            | inr c => Some {| cm_component := c; cm_source_url := url;
                               cm_world_type := ModuleStore.detect_world_type en c |}
            | inl _ => None
            end
  | _ => None
  end.

(** The modules of these routes, each loaded by itself *)
Definition loaded (routes : list (bytes * FuncInvokeRoute)) (acc : gmap bytes (CompiledModule C)) :=
  foldl (λ m r, match inv_wasm_module_url r.2 ≫= compiled with
                | Some x => <[r.1 := x]> m
                | None => m
                end) acc routes.

Lemma loaded_cons f r (routes : list (bytes * FuncInvokeRoute)) acc :
  loaded ((f, r) :: routes) acc
  = loaded routes match inv_wasm_module_url r ≫= compiled with Some x => <[f := x]> acc | None => acc end.
Proof. done. Qed.

Lemma load_spec f url (s : WasmModuleStore C) :
  modules (ModuleStore.load web en f url s).2
  = match compiled url with Some m => <[f := m]> (modules s) | None => modules s end ∧
  ok_opt (ModuleStore.load web en f url s).1 = compiled url.
Proof using memoryless.
  unfold ModuleStore.load, bind, zoom, ModuleStore.compile, lift_res, modify, compiled.
  pose proof (fetch_steady web memoryless url (ms_log s) []) as E.
  destruct (Oci.fetch_module web url (ms_log s)) as [r log]. simpl in E. subst r.
  destruct (Oci.fetch_module web url []).1 as [b|e|p]; [|done..]. by destruct (en_compile en b).
Qed.

Lemma load_routes (routes : list (bytes * FuncInvokeRoute)) (store : WasmModuleStore C) (urls : gmap bytes (CompiledModule C)) :
  (∀ url m, urls !! url = Some m → compiled url = Some m) →
  modules (foldl (Setup.load_route (C := C) web en) (store, urls) routes).1 = loaded routes (modules store).
Proof using memoryless.
  revert store urls. induction routes as [|[f r] routes IH]; intros store urls Hu; [done|].
  cbn [foldl loaded]. unfold Setup.load_route at 2. cbn [fst snd].
  destruct (inv_wasm_module_url r) as [url|]; [|by apply IH]. cbn [mbind option_bind].
  destruct (urls !! url) as [m|] eqn:E.
  - rewrite (Hu _ _ E). by rewrite IH.
  - destruct (load_spec f url store) as [Hm Hr].
    destruct (ModuleStore.load web en f url store) as [[m|e|p] store']; simpl in Hm, Hr;
      rewrite <- Hr in Hm |- *; rewrite <- Hm; apply IH; [|done..].
    intros u x. rewrite lookup_insert_Some. intros [[<- <-]|[_ Hx]]; [done|by apply Hu].
Qed.

Lemma loaded_other (routes : list (bytes * FuncInvokeRoute)) acc f : f ∉ routes.*1 → loaded routes acc !! f = acc !! f.
Proof.
  revert acc. induction routes as [|[f' r'] routes IH]; intros acc Hf; [done|].
  apply not_elem_of_cons in Hf as [Hne Hf]. rewrite loaded_cons. rewrite IH by done.
  destruct (inv_wasm_module_url r' ≫= compiled); [|done]. by rewrite lookup_insert_ne.
Qed.

Lemma loaded_lookup (routes : list (bytes * FuncInvokeRoute)) acc f r : NoDup routes.*1 → (f, r) ∈ routes → acc !! f = None →
  loaded routes acc !! f = inv_wasm_module_url r ≫= compiled.
Proof.
  revert acc. induction routes as [|[f' r'] routes IH]; intros acc Hn Hin Hacc; [by apply not_elem_of_nil in Hin|].
  apply NoDup_cons in Hn as [Hf' Hn]. apply elem_of_cons in Hin as [[= <- <-]|Hin].
  - rewrite loaded_cons. rewrite loaded_other by done.
    destruct (inv_wasm_module_url r ≫= compiled); [apply lookup_insert_eq|done].
  - assert (f' ≠ f) as Hne. { intros ->. apply Hf', list_elem_of_fmap. by exists (f, r). }
    rewrite loaded_cons. apply IH; [done|done|].
    destruct (inv_wasm_module_url r' ≫= compiled); [by rewrite lookup_insert_ne|done].
Qed.

(** The executor of a shard has, for every function with a [wasm://] route, the module of its URL
    if this can be fetched and compiled, as if each were loaded by itself, and no other; there is
    an executor exactly when there is such a route. *)
Theorem setup_loads collection pid (routes : list (bytes * FuncInvokeRoute)) : NoDup routes.*1 →
  match Setup.setup_wasm_offloader web (Some en) true collection pid routes with
  | None => Setup.wasm_routes routes = []
  | Some a =>
      Setup.wasm_routes routes ≠ [] ∧
      ∀ f r, (f, r) ∈ routes →
        ModuleStore.get f (wa_store a)
        = if starts_with (bs "wasm://") (inv_url r) then inv_wasm_module_url r ≫= compiled else None
  end.
Proof using memoryless.
  intros Hn. unfold Setup.setup_wasm_offloader.
  assert (NoDup (Setup.wasm_routes routes).*1) as Hw.
  { eapply sublist_NoDup; [exact Hn|]. by apply fmap_sublist, sublist_filter. }
  destruct (Setup.wasm_routes routes) as [|x l] eqn:E; [done|]. rewrite <- E in *. split; [by rewrite E|].
  intros f r Hin. unfold ModuleStore.get. cbn [wa_store fst]. rewrite load_routes by done.
  cbn [modules ModuleStore.new].
  destruct (starts_with (bs "wasm://") (inv_url r)) eqn:Es.
  - apply loaded_lookup; [done| |done]. by apply list_elem_of_filter.
  - destruct (decide (f ∈ (Setup.wasm_routes routes).*1)) as [([f' r'] & Ef & Hin')%list_elem_of_fmap|Hno].
    + simpl in Ef. subst f'. apply list_elem_of_filter in Hin' as [Hs' Hin']. cbn [snd] in Hs'.
      pose proof (elem_of_list_to_map_1 (M := gmap bytes) _ _ _ Hn Hin) as E1.
      pose proof (elem_of_list_to_map_1 (M := gmap bytes) _ _ _ Hn Hin') as E2. congruence.
    + by rewrite loaded_other.
Qed.
End setup.

(** ** References *)

(** A text refers to an object exactly when it is a class, a partition and an identifier, with a
    slash after the first two: what follows the second slash is the identifier, slashes and all. *)
Theorem object_ref_iff s r : ObjectHost.parse_object_ref_str s = Ok r ↔
  ∃ p, s = (wf_cls r ++ [Path.slash] ++ p ++ [Path.slash] ++ wf_object_id r)%list ∧
       (Path.slash ∉ wf_cls r) ∧ (Path.slash ∉ p) ∧ wf_cls r ≠ [] ∧ wf_object_id r ≠ [] ∧
       string_to_numeric_key p = Some (wf_partition_id r).
Proof.
  unfold ObjectHost.parse_object_ref_str. split.
  - destruct (find_byte Path.slash s) as [[cls rest]|] eqn:E1; [|done].
    destruct (find_byte Path.slash rest) as [[p id]|] eqn:E2; [|done].
    apply find_byte_Some in E1 as [-> ?], E2 as [-> ?].
    case_bool_decide; [done|]. case_bool_decide; [done|].
    destruct (string_to_numeric_key p) as [n|] eqn:E3; [|done]. intros [= <-]. by exists p.
  - intros (p & -> & Hc & Hp & Hc' & Hi & E).
    rewrite (proj2 (find_byte_Some Path.slash _ _ _)) by (split; [reflexivity|done]).
    rewrite (proj2 (find_byte_Some Path.slash _ _ _)) by (split; [reflexivity|done]).
    rewrite !bool_decide_false by done. rewrite E. by destruct r.
Qed.

(** ** A node with modules *)

Module DemoWasm.
Import Demo.

(** Nobody is there beyond the shard. *)
#[local] Instance no_session : ZSession unit := {|
  z_query _ _ _ z := (ZReplies [], z); z_delete _ z := (SDone, z); z_valid_key _ := true;
|}.

Definition slots : Resources :=
  {| rs_slot := λ t, Some (fresh (dom t)); rs_missing := bs "no handle"; rs_full := bs "full" |}.
#[local] Instance slots_laws : ResourceLaws slots.
Proof. intros t h [= <-]. apply not_elem_of_dom, is_fresh. Qed.

Definition fuel (s : Shard MemoryStorage) : nat := S (length (sh_contents s)).
Lemma fuel_enough s : length (sh_contents s) < fuel s.
Proof. unfold fuel. lia. Qed.

Definition finished (p : option bytes) : WitResponse :=
  {| wr_payload := p; wr_status := WOkay; wr_headers := [] |}.

(** A module of one method: it stores the payload in the field [n] of its object and answers with
    what it then reads; without a payload it traps. *)
Definition keep (h : nat) (p : option bytes) : Guest ObjectCall WitResponse :=
  match p with
  | None => GTrap (bs "nothing to keep")
  | Some v => GCall (CSet h (bs "n") v) (λ _, GCall (CGet h (bs "n")) (λ r,
                match r with inr x => GReturn (finished x) | inl _ => GTrap (bs "lost") end))
  end.
Definition rt : Runtime unit :=
  {| rt_function := λ _ _ _ _, inl (bs "not a function"); rt_object := λ _ _ h _ p, inr (keep h p) |}.

Definition module : CompiledModule unit :=
  {| cm_component := tt; cm_source_url := bs "file://m"; cm_world_type := ObjectOriented |}.
Definition adapter : WasmExecutorAdapter unit :=
  {| wa_store := {| modules := {[ bs "keep" := module ]}; ms_log := [] |};
     wa_oop_context := Some {| oc_remote := false; oc_cls_id := bs "cls"; oc_partition_id := 0 |};
     wa_fn_fuel := ∅ |}.

Definition to (obj fn : string) (p : bytes) : ObjectInvocationRequest :=
  {| oi_partition_id := 0; oi_cls_id := bs "cls"; oi_fn_id := bs fn; oi_options := ∅; oi_payload := p;
     oi_object_id := Some (bs obj) |}.
Definition text {A : Type} (_ : A) : bytes := bs "error".
Definition call (rt : Runtime unit) (n : nat) (req : ObjectInvocationRequest) :=
  Node.invoke_obj DemoGateway.wire slots rt text fuel text text map_to_list map_to_list adapter n req.

Definition allowed (id : bytes) : Prop := id = [] ∨ id = bs "p".

Lemma guests_confined_witness :
  let '(r, x) := call rt 1 (to "p" "keep" (bs "7")) (demo3, tt) in
  (∃ resp, r = Ok resp ∧ iv_payload resp = Some (bs "7")) ∧
  entry_of (sh_contents x.1) (bs "p") (bs "n") = Some (val "7") ∧
  shard_inv x.1 ∧ same_object (sh_contents demo3) (sh_contents x.1) (bs "o").
Proof.
  destruct (guests_confined DemoGateway.wire slots rt text fuel text text map_to_list map_to_list adapter
    allowed fuel_enough (λ m, reflexivity (map_to_list m))
    ltac:(split; [by intros|intros c f h fn [v|] g [= <-]; [|done]; split; [by decide_now|];
      intros ? _; split; [by decide_now|]; by intros [?|?] _])
    ltac:(by left) 1 (to "p" "keep" (bs "7")) demo3 tt demo3_inv ltac:(split; [decide_now|by right]))
    as (Hi & _ & Ho).
  specialize (Ho (bs "o") ltac:(decide_now) ltac:(by intros [?|?])).
  fold (call rt 1 (to "p" "keep" (bs "7")) (demo3, tt)) in Hi, Ho.
  assert (∃ resp, (call rt 1 (to "p" "keep" (bs "7")) (demo3, tt)).1 = Ok resp ∧ iv_payload resp = Some (bs "7"))
    as Hr by (eexists; vm_compute; by split).
  assert (entry_of (sh_contents (call rt 1 (to "p" "keep" (bs "7")) (demo3, tt)).2.1) (bs "p") (bs "n")
          = Some (val "7")) as He by (by vm_compute).
  destruct (call _ _ _ _) as [r x]. by split_and!.
Defined.

(** *** Handles *)

Definition self (is_local : bool) : ObjectProxyState :=
  {| ps_object_ref := {| wf_cls := bs "cls"; wf_partition_id := if is_local then 0 else 1;
                         wf_object_id := bs "o" |}; ps_is_local := is_local |}.
(** The host of a guest with the handles 0, of an object of the shard, and 1, of one elsewhere *)
Definition host : ObjHost (Shard MemoryStorage * unit) :=
  ObjectHost.set_table {[ 0 := self true; 1 := self false ]}
    (ObjectHost.new (demo3, tt) false (bs "cls") 0).

Definition no_fn (_ : InvocationRequest) : M (Shard MemoryStorage * unit) OffloadError InvocationResponse :=
  throw (ONoFunc [] []).
Definition no_obj (_ : ObjectInvocationRequest) : M (Shard MemoryStorage * unit) OffloadError InvocationResponse :=
  ret {| iv_payload := None; iv_status := 0; iv_headers := ∅; iv_invocation_id := [] |}.
#[local] Instance ops_demo : OdgmDataOps (Shard MemoryStorage * unit) :=
  Bridge.shard_data_ops fuel text text map_to_list no_fn no_obj.

Lemma field_roundtrip_witness : ∃ st',
  ObjectHost.set DemoGateway.wire slots snd Node.set_session map_to_list 0 (bs "a") (bs "9") host = (Ok tt, st') ∧
  (ObjectHost.get DemoGateway.wire slots snd Node.set_session 0 (bs "a") st').1 = Ok (Some (bs "9")) ∧
  (ObjectHost.get DemoGateway.wire slots snd Node.set_session 0 (bs "b") st').1 = Ok (Some (bs "2")).
Proof.
  destruct (field_roundtrip DemoGateway.wire slots fuel text text map_to_list map_to_list no_fn no_obj
    0 (bs "a") (bs "9") (self true) host eq_refl eq_refl demo3_inv ltac:(decide_now) ltac:(decide_now))
    as (st' & E & _ & _ & _ & _ & Hr).
  exists st'. split; [exact E|].
  split; (rewrite (Hr 0 (self true)) by (reflexivity || decide_now); vm_compute; reflexivity).
Defined.

Lemma invoke_depth_witness :
  oh_depth (ObjectHost.invoke DemoGateway.wire slots snd Node.set_session 1 (bs "f") None host).2 = 1%Z.
Proof.
  rewrite (invoke_depth DemoGateway.wire slots fuel text text map_to_list no_fn no_obj
    1 (bs "f") None (self false) host eq_refl eq_refl). reflexivity.
Defined.

(** After four calls of objects elsewhere, which all fail, the guest cannot call an object of the
    shard any more. *)
Fixpoint again (n : nat) (g : Guest ObjectCall WitResponse) : Guest ObjectCall WitResponse :=
  match n with O => g | S n => GCall (CInvoke 1 (bs "f") None) (λ _, again n g) end.
Definition then_local : Guest ObjectCall WitResponse :=
  GCall (CInvoke 0 (bs "f") None) (λ r, match r with inr x => GReturn (finished x)
                                         | inl _ => GTrap (bs "refused") end).
Definition attempts (n : nat) : res bytes WitResponse :=
  (run (ObjectHost.answer DemoGateway.wire slots snd Node.set_session map_to_list) (again n then_local) host).1.
Example remote_calls_use_up_depth :
  attempts 3 = Ok (finished None) ∧ attempts 4 = Err (bs "refused").
Proof. by vm_compute. Qed.

(** Setting all fields of an object keeps the first, under a name of its own, and the fields the
    object had. *)
Definition two_fields : WitObj :=
  {| wo_metadata := None; wo_entries := [{| we_key := bs "x"; we_value := byte_value (bs "8") |};
                                         {| we_key := bs "y"; we_value := byte_value (bs "9") |}] |}.
Example set_all_keeps_first :
  let st := (ObjectHost.set_all DemoGateway.wire slots snd Node.set_session map_to_list 0 two_fields host).2 in
  ∃ o, (ObjectHost.get_all DemoGateway.wire slots snd Node.set_session 0 st).1 = Ok o ∧
  (λ e, (we_key e, wv_data (we_value e))) <$> wo_entries o
  = [(bs "_raw", bs "8"); (bs "a", bs "1"); (bs "aa", bs "3"); (bs "b", bs "2")].
Proof. eexists. vm_compute. by split. Qed.

(** *** Recursion *)

Lemma recursion_not_stopped_witness :
  (Node.invoke_obj DemoGateway.wire slots recursive text fuel text text map_to_list map_to_list adapter 7
     (to "o" "keep" []) (demo3, tt)).1 = Panic "too many nested invocations".
Proof.
  by rewrite (recursion_not_stopped DemoGateway.wire slots text fuel text text map_to_list map_to_list 7
    adapter {| oc_remote := false; oc_cls_id := bs "cls"; oc_partition_id := 0 |} module
    (to "o" "keep" []) demo3 tt 0) by (vm_compute; reflexivity).
Defined.

(** *** Setting up *)

(** There is a file [m]; whatever else is asked for is not there. *)
Definition files : Web :=
  {| web_send := λ log, match last log with
                        | Some (ReadFile p) =>
                            if decide (p = bs "m")
                            then inr {| wb_status := 200; wb_www_auth := None; wb_body := inr (bs "code") |}
                            else inl (bs "not found")
                        | _ => inl (bs "not found")
                        end;
     web_status_text := λ _, []; web_env := λ _, None; web_json := λ _, None |}.
Definition engine : Engine unit := {| en_compile := λ _, inr tt; en_exports := λ _, [bs "oaas:odgm/guest-object"] |}.
Definition wasm_route (url module_url : string) : FuncInvokeRoute :=
  {| inv_url := bs url; inv_stateless := false; inv_standby := false; inv_active_group := [];
     inv_wasm_module_url := Some (bs module_url); inv_wasm_fuel := None |}.
Definition wasm_fns : list (bytes * FuncInvokeRoute) :=
  [(bs "f", wasm_route "wasm://f" "file://m"); (bs "g", wasm_route "wasm://g" "file://gone");
   (bs "h", wasm_route "http://h" "file://m")].

Lemma setup_loads_witness : ∃ a,
  Setup.setup_wasm_offloader files (Some engine) true (bs "cls") 0 wasm_fns = Some a ∧
  ModuleStore.get (bs "f") (wa_store a) = Some module ∧
  ModuleStore.get (bs "g") (wa_store a) = None ∧ ModuleStore.get (bs "h") (wa_store a) = None.
Proof.
  pose proof (setup_loads files engine ltac:(intros log log' q; simpl; by rewrite !last_snoc)
    (bs "cls") 0 wasm_fns ltac:(decide_now)) as Hs.
  destruct (Setup.setup_wasm_offloader _ _ _ _ _ wasm_fns) as [a|]; [|by vm_compute in Hs].
  destruct Hs as [_ Hs]. exists a. split; [done|].
  rewrite (Hs (bs "f") (wasm_route "wasm://f" "file://m")) by (by left).
  rewrite (Hs (bs "g") (wasm_route "wasm://g" "file://gone")) by (right; by left).
  rewrite (Hs (bs "h") (wasm_route "http://h" "file://m")) by (right; right; by left).
  by vm_compute.
Defined.
End DemoWasm.
