(* ===== verification/RaftGroup.v ===== *)
(** * A node of a Raft group

    [data-plane/oprc-odgm/src/replication/raft/raft_layer.rs]: carrying requests out through the
    group, forwarding them to the leader, starting a group, its members and its readiness. The
    OpenRaft instance of the node, with its RPC services, the network and the storage it shares
    with the shard, is the class [RaftNode]; its documented behaviour are the laws [RaftGroupLaws].
    The leader's own path through the state machine is [RaftSM.client_write]. *)

From stdpp Require Import base tactics list numbers option gmap sorting strings.
From Stdlib Require Import Lia.
From S2P Require Import Prelude BTree Backend Memory Replication RaftSnapshot RaftSM StorageKey GranularKey Events ObjectData Shard EntryStore ObjectView EntryOps Metadata.

Set Default Proof Using "Type".
Open Scope prog_scope.

(** ** The instance *)

(** [RaftError<ClientWriteError>]: forward to a leader, another refusal, or a fatal error; the
    texts are what they are displayed as. *)
Inductive WriteError : Type :=
| ForwardToLeader (leader_id : option Z)
| WriteRefused (text : string)
| RaftFatal (text : string).

(** [ZrpcError] of a forwarded request *)
Inductive CallFailure : Type :=
| AppError (e : WriteError)
| CallError (text : string).

(** What [server_metrics] shows *)
Record RaftMetrics := { rm_id : Z; rm_current_leader : option Z }.

(** The calls of one node; [None] is success. *)
Class RaftNode (N : Type) := {
  rn_client_write : ShardRequest → N → (WriteError + ReplicationResponse) * N;
  rn_call : Z → ShardRequest → N → (CallFailure + ReplicationResponse) * N;
  rn_linearizable : N → bool * N;
  rn_get : bytes → M N StorageError (option bytes);
  rn_metrics : N → RaftMetrics;
  rn_start_raft_rpc : N → option string * N;
  rn_start_ops_rpc : N → option string * N;
  rn_initialize : gmap Z string → N → option string * N;
  rn_add_learner : Z → string → N → option string * N;
  rn_change_membership : list Z → bool → N → option string * N;
  rn_shutdown : N → option string * N;
}.

(** ** Replication status *)

Inductive ConsensusAlgorithm : Type := RaftConsensus.
Inductive MergeStrategy : Type := AutoMerge | LastWriterWins | Manual.
Inductive ConsistencyLevel : Type := Strong | Sequential | Eventual.

Inductive ReplicationModel : Type :=
| Consensus (algorithm : ConsensusAlgorithm)
| ConflictFree (merge_strategy : MergeStrategy)
| EventualConsistency (sync_interval_ms : Z) (consistency_level : ConsistencyLevel)
| NoModel.

Record ReplicationStatus := {
  rs_model : ReplicationModel;
  rs_healthy_replicas : nat;
  rs_total_replicas : nat;
  rs_lag_ms : option Z;
  rs_conflicts : nat;
  rs_is_leader : bool;
  rs_leader_id : option Z;
  rs_last_sync : option Z;
}.

(** ** The layer *)

(** [OpenRaftReplicationLayer]: [rl_ready] is the value of the readiness channel, [rl_monitor]
    tells whether the task that follows the leadership runs. *)
Record RaftLayer (N : Type) := {
  rl_shard_id : Z;
  rl_metadata : ShardMetadata;
  rl_node : N;
  rl_ready : bool;
  rl_monitor : bool;
  rl_cancelled : bool;
}.
Arguments rl_shard_id {N} _.
Arguments rl_metadata {N} _.
Arguments rl_node {N} _.
Arguments rl_ready {N} _.
Arguments rl_monitor {N} _.
Arguments rl_cancelled {N} _.

Module Raft.

(** [format!("{}", n)] *)
Definition decimal (n : Z) : string := String.string_of_list_byte (to_decimal 20 n).

(** [format!("{:?}", leader_id)] *)
Definition debug_id (leader : option Z) : string :=
  match leader with Some n => "Some(" +:+ decimal n +:+ ")" | None => "None" end.

Definition convert_raft_error (error : WriteError) : ReplicationError :=
  match error with
  | ForwardToLeader leader => ConsensusError ("Not leader, forward to: " +:+ debug_id leader)
  | WriteRefused text => ConsensusError ("Client write error: " +:+ text)
  | RaftFatal text => ConsensusError ("Raft error: " +:+ text)
  end.

Section layer.
Context {N : Type} `{!RaftNode N}.

Notation L A := (M (RaftLayer N) ReplicationError A).

Definition set_node (n : N) (l : RaftLayer N) : RaftLayer N :=
  {| rl_shard_id := rl_shard_id l; rl_metadata := rl_metadata l; rl_node := n;
     rl_ready := rl_ready l; rl_monitor := rl_monitor l; rl_cancelled := rl_cancelled l |}.
Definition set_ready (b : bool) (l : RaftLayer N) : RaftLayer N :=
  {| rl_shard_id := rl_shard_id l; rl_metadata := rl_metadata l; rl_node := rl_node l;
     rl_ready := b; rl_monitor := rl_monitor l; rl_cancelled := rl_cancelled l |}.
Definition set_monitor (l : RaftLayer N) : RaftLayer N :=
  {| rl_shard_id := rl_shard_id l; rl_metadata := rl_metadata l; rl_node := rl_node l;
     rl_ready := rl_ready l; rl_monitor := true; rl_cancelled := rl_cancelled l |}.
Definition cancel (l : RaftLayer N) : RaftLayer N :=
  {| rl_shard_id := rl_shard_id l; rl_metadata := rl_metadata l; rl_node := rl_node l;
     rl_ready := rl_ready l; rl_monitor := rl_monitor l; rl_cancelled := true |}.

(** A call of the instance *)
Definition node {A} (m : N → A * N) : L A := λ l,
  let '(a, n) := m (rl_node l) in (Ok a, set_node n l).

Definition new (shard_id : Z) (metadata : ShardMetadata) (rpc_prefix : bytes)
    (make : Z → bytes → bytes → string + N) : res ReplicationError (RaftLayer N) :=
  let cluster_name :=
    (bs "oprc-raft/" ++ sm_collection metadata ++ bs "/" ++ to_decimal 10 (sm_partition_id metadata))%list in
  match make shard_id cluster_name rpc_prefix with
  | inl e => Err (ConsensusError ("Failed to create Raft: " +:+ e))
  | inr n => Ok {| rl_shard_id := shard_id; rl_metadata := metadata; rl_node := n;
                   rl_ready := false; rl_monitor := false; rl_cancelled := false |}
  end.

(** *** Requests *)

Definition forward_to_leader (leader_id : Z) (request : ShardRequest) : L ReplicationResponse :=
  let! r := node (rn_call leader_id request) in
  match r with
  | inr response => ret response
  | inl (AppError e) => throw (convert_raft_error e)
  | inl (CallError e) =>
      throw (NetworkError ("Failed to forward to leader " +:+ decimal leader_id +:+ ": " +:+ e))
  end.

Definition exec (request : ShardRequest) : L ReplicationResponse :=
  let! result := node (rn_client_write request) in
  match result with
  | inr response => ret response
  | inl (ForwardToLeader (Some leader_id)) => forward_to_leader leader_id request
  | inl (ForwardToLeader None) => throw (ConsensusError "No leader available for forwarding")
  | inl e => throw (convert_raft_error e)
  end.

(** [ReplicationOperationHandler::handle]: a request another node forwarded *)
Definition handle (request : ShardRequest) (n : N) : (WriteError + ReplicationResponse) * N :=
  rn_client_write request n.

Definition replicate_write (request : ShardRequest) : L ReplicationResponse := exec request.

Definition replicate_read (request : ShardRequest) : L ReplicationResponse :=
  let! linearizable := node rn_linearizable in
  match linearizable, operation request with
  | true, Read key =>
      let! value := map_err RStorageError (zoom rl_node set_node (rn_get key)) in
      ret {| status := Applied; resp_data := value; extra := ExtraNone; resp_metadata := ∅ |}
  | _, _ => exec request
  end.

(** *** Starting *)

(** [options.get(key).map(|v| v == "true").unwrap_or(default)] *)
Definition flag (key : string) (default : bool) (metadata : ShardMetadata) : bool :=
  match sm_options metadata !! bs key with
  | Some v => bool_decide (v = bs "true")
  | None => default
  end.

Definition is_primary_shard (metadata : ShardMetadata) : bool :=
  bool_decide (sm_primary metadata = Some (sm_id metadata)).

Definition init_leader_only (metadata : ShardMetadata) : bool :=
  flag "raft_init_leader_only" (1 <? length (sm_replica_owner metadata))%nat metadata.

(** Whether this shard creates the group *)
Definition initializes (metadata : ShardMetadata) : bool :=
  negb (init_leader_only metadata) || is_primary_shard metadata.

Definition initial_members (metadata : ShardMetadata) : gmap Z string :=
  foldl (λ m id, <[id := decimal id]> m) ∅ (sm_replica_owner metadata).

Definition start_service (start : N → option string * N) (what : string) : L unit :=
  let! r := node start in
  match r with
  | Some e => throw (NetworkError ("Failed to start " +:+ what +:+ " RPC service: " +:+ e))
  | None => ret tt
  end.

Definition initialize : L unit :=
  start_service rn_start_raft_rpc "Raft" ;;;
  start_service rn_start_ops_rpc "Replication" ;;;
  let! metadata := gets rl_metadata in
  (if flag "raft_net_leader_only" false metadata then modify set_monitor
   else modify (set_ready true)) ;;;
  if initializes metadata then
    let! r := node (rn_initialize (initial_members metadata)) in
    match r with
    | Some e =>
        if is_primary_shard metadata
        then throw (ConsensusError ("Failed to initialize cluster: " +:+ e))
        else ret tt
    | None => ret tt
    end
  else ret tt.

(** One round of the task that follows the leadership *)
Definition on_metrics (l : RaftLayer N) : RaftLayer N :=
  if rl_monitor l && negb (rl_cancelled l) then
    let m := rn_metrics (rl_node l) in
    set_ready (bool_decide (Some (rm_id m) = rm_current_leader m)) l
  else l.

Definition shutdown : L unit :=
  modify cancel ;;;
  let! r := node rn_shutdown in
  match r with
  | Some e => throw (ConsensusError ("Failed to shutdown Raft: " +:+ e))
  | None => ret tt
  end.

(** *** Members and status *)

Definition replication_model : ReplicationModel := Consensus RaftConsensus.

(** A learner that cannot be promoted stays one. *)
Definition add_replica (node_id : Z) (address : string) : L unit :=
  let! result := node (rn_add_learner node_id address) in
  match result with
  | None => let! _ := node (rn_change_membership [node_id] false) in ret tt
  | Some e => throw (MembershipChange ("Failed to add replica " +:+ decimal node_id +:+ ": " +:+ e))
  end.

Definition remove_replica (node_id : Z) : L unit :=
  let! result := node (rn_change_membership [] true) in
  match result with
  | None => ret tt
  | Some e => throw (MembershipChange ("Failed to remove replica " +:+ decimal node_id +:+ ": " +:+ e))
  end.

Definition get_replication_status (now : Z) : L ReplicationStatus :=
  let! metrics := gets (λ l, rn_metrics (rl_node l)) in
  let! total := gets (λ l, length (sm_replica (rl_metadata l))) in
  let is_leader := bool_decide (Some (rm_id metrics) = rm_current_leader metrics) in
  ret {| rs_model := replication_model;
         rs_healthy_replicas := if is_leader then total else 1;
         rs_total_replicas := total;
         rs_lag_ms := if is_leader then Some 0%Z else None;
         rs_conflicts := 0; rs_is_leader := is_leader;
         rs_leader_id := rm_current_leader metrics; rs_last_sync := Some now |}.

Definition sync_replicas : L unit := ret tt.
Definition watch_readiness (l : RaftLayer N) : bool := rl_ready l.

End layer.
End Raft.

(** ** A group with a stable leader *)

(** What OpenRaft promises while the leadership of the group does not change: the leader commits a
    request and applies it once, the others refuse it before anything is proposed and name the
    leader they know; a forwarded request is committed by the leader, or the call fails and whether
    it was committed is not known. [rg_map] is the map of the committed requests; a node that is
    sure to lead has applied all of them. *)
Class RaftGroupLaws (N : Type) `{!RaftNode N} := {
  rg_map : N → store;
  rg_stable : N → Prop;
  rg_leads (n : N) : Prop := Some (rm_id (rn_metrics n)) = rm_current_leader (rn_metrics n);
  law_leader_write req n : rg_stable n → rg_leads n → ∃ resp n',
    rn_client_write req n = (inr resp, n') ∧ rg_stable n' ∧ rn_metrics n' = rn_metrics n ∧
    (resp, rg_map n') = request_spec (operation req) (rg_map n);
  law_follower_write req n : rg_stable n → ¬ rg_leads n → ∃ n',
    rn_client_write req n = (inl (ForwardToLeader (rm_current_leader (rn_metrics n))), n') ∧
    rg_stable n' ∧ rn_metrics n' = rn_metrics n ∧ rg_map n' = rg_map n;
  law_call leader req n : rg_stable n → rm_current_leader (rn_metrics n) = Some leader → ∃ r n',
    rn_call leader req n = (r, n') ∧ rg_stable n' ∧ rn_metrics n' = rn_metrics n ∧
    match r with
    | inr resp => (resp, rg_map n') = request_spec (operation req) (rg_map n)
    | inl (AppError _) => False
    | inl (CallError _) =>
        rg_map n' = rg_map n ∨ rg_map n' = (request_spec (operation req) (rg_map n)).2
    end;
  law_linearizable n : rg_stable n → ∃ b n',
    rn_linearizable n = (b, n') ∧ rg_stable n' ∧ rn_metrics n' = rn_metrics n ∧
    rg_map n' = rg_map n ∧
    (b = true → ∀ key, rn_get key n' = (Ok (bt_get key (rg_map n')), n'));
}.

Section requests.
Context {N : Type} `{RaftGroupLaws N}.
Implicit Types l : RaftLayer N.

(** Nothing but the node changes. *)
Definition same_layer l l' : Prop :=
  rl_metadata l' = rl_metadata l ∧ rl_ready l' = rl_ready l ∧ rl_shard_id l' = rl_shard_id l.

(** The outcome of a request: carried out once, or an error and then at most once *)
Definition carried_out (req : ShardRequest) l (r : res ReplicationError ReplicationResponse) l' : Prop :=
  let d := rg_map (rl_node l) in
  let spec := request_spec (operation req) d in
  rg_stable (rl_node l') ∧ rn_metrics (rl_node l') = rn_metrics (rl_node l) ∧ same_layer l l' ∧
  match r with
  | Ok resp => is_Some (rm_current_leader (rn_metrics (rl_node l))) ∧ (resp, rg_map (rl_node l')) = spec
  | Err (NetworkError _) => ¬ rg_leads (rl_node l) ∧
      (rg_map (rl_node l') = d ∨ rg_map (rl_node l') = spec.2)
  | Err (ConsensusError msg) => rm_current_leader (rn_metrics (rl_node l)) = None ∧
      msg = "No leader available for forwarding" ∧ rg_map (rl_node l') = d
  | _ => False
  end.

Lemma exec_carried_out req l : rg_stable (rl_node l) →
  carried_out req l (Raft.exec req l).1 (Raft.exec req l).2.
Proof.
  intros Hs. unfold Raft.exec, bind at 1 2, Raft.node at 1 2.
  destruct (decide (Some (rm_id (rn_metrics (rl_node l))) = rm_current_leader (rn_metrics (rl_node l)))) as [Hl|Hl].
  - destruct (law_leader_write req _ Hs Hl) as (resp & n' & E & Hs' & Hm & Hspec). rewrite E.
    by split_and!.
  - destruct (law_follower_write req _ Hs Hl) as (n1 & E & Hs1 & Hm1 & Hd1). rewrite E.
    destruct (rm_current_leader (rn_metrics (rl_node l))) as [leader|] eqn:El; [|by split_and!].
    destruct (law_call leader req n1 Hs1 ltac:(congruence)) as (r & n2 & E2 & Hs2 & Hm2 & Hr).
    unfold Raft.forward_to_leader, bind at 1 2, Raft.node at 1 2. simpl. rewrite E2. rewrite Hd1 in Hr.
    destruct r as [[e|e]|resp]; [done| |]; (split; [done|]; split; [simpl; congruence|]; split; [done|]).
    + split; [|done]. unfold rg_leads. by rewrite El.
    + by rewrite El.
Qed.


(** A read through the group answers with the committed value on every node, and changes nothing. *)
Theorem read_through_group now key src l : rg_stable (rl_node l) →
  ∃ r l', Raft.replicate_read (from_operation now (Read key) src) l = (r, l') ∧
  rg_map (rl_node l') = rg_map (rl_node l) ∧
  match r with
  | Ok resp => status resp = Applied ∧ resp_data resp = bt_get key (rg_map (rl_node l))
  | Err (NetworkError _) | Err (ConsensusError _) => True
  | _ => False
  end.
Proof.
  intros Hs. destruct (law_linearizable _ Hs) as (b & n1 & E & Hs1 & Hm1 & Hd1 & Hg).
  unfold Raft.replicate_read, bind at 1, Raft.node. rewrite E.
  set (l1 := Raft.set_node n1 l). destruct b.
  - specialize (Hg eq_refl key). eexists _, l1. split.
    { simpl. unfold bind, map_err, zoom. simpl. rewrite Hg. reflexivity. }
    simpl. by rewrite <- Hd1.
  - pose proof (exec_carried_out (from_operation now (Read key) src) l1 Hs1) as (Hs2 & Hm2 & _ & Hr).
    exists (Raft.exec (from_operation now (Read key) src) l1).1, (Raft.exec (from_operation now (Read key) src) l1).2.
    split; [by destruct (Raft.exec _ l1)|]. simpl in Hr.
    destruct (Raft.exec _ l1).1 as [resp|[]|]; try done; simpl in Hr.
    + destruct Hr as [_ [= -> Hd2]]. simpl. by rewrite Hd2, Hd1.
    + destruct Hr as [_ [Hd2|Hd2]]; (split; [congruence|done]).
    + destruct Hr as (_ & _ & Hd2). split; [congruence|done].
Qed.
End requests.

(** ** Starting the group of a partition *)

Section start.
Context {N : Type} `{!RaftNode N}.
Implicit Types l : RaftLayer N.

Lemma initial_members_dom md : dom (Raft.initial_members md) = list_to_set (sm_replica_owner md).
Proof.
  unfold Raft.initial_members.
  assert (∀ ids (m : gmap Z string),
    dom (foldl (λ m id, <[id := Raft.decimal id]> m) m ids) = dom m ∪ list_to_set ids) as Hf.
  { induction ids as [|id ids IH]; intros m; simpl; [set_solver|]. rewrite IH. set_solver. }
  rewrite Hf. set_solver.
Qed.

(** Once the services run, only creating the group can fail, and only the shard that must. *)
Lemma initialize_started l n1 n2 :
  rn_start_raft_rpc (rl_node l) = (None, n1) → rn_start_ops_rpc n1 = (None, n2) →
  let md := rl_metadata l in
  let created := rn_initialize (Raft.initial_members md) n2 in
  rl_node (Raft.initialize l).2 = (if Raft.initializes md then created.2 else n2) ∧
  rl_ready (Raft.initialize l).2 = (rl_ready l || negb (Raft.flag "raft_net_leader_only" false md)) ∧
  ((Raft.initialize l).1 = Ok tt ↔
   Raft.initializes md = false ∨ created.1 = None ∨ Raft.is_primary_shard md = false).
Proof.
  intros E1 E2 md created.
  set (l2 := Raft.set_node n2 (Raft.set_node n1 l)).
  set (l3 := if Raft.flag "raft_net_leader_only" false md then Raft.set_monitor l2 else Raft.set_ready true l2).
  eassert (Raft.initialize l = _ l3) as E.
  { unfold Raft.initialize.
    rewrite (bind_ok _ _ l tt (Raft.set_node n1 l)) by
      (unfold Raft.start_service, bind, Raft.node; by rewrite E1).
    rewrite (bind_ok _ _ (Raft.set_node n1 l) tt l2) by
      (unfold Raft.start_service, bind, Raft.node; simpl; by rewrite E2).
    rewrite bind_gets. change (rl_metadata l2) with md.
    rewrite (bind_ok _ _ l2 tt l3) by (unfold l3; by destruct (Raft.flag _ _ _)). reflexivity. }
  rewrite E. clear E. simpl.
  assert (rl_node l3 = n2) as Hn by (unfold l3; by destruct (Raft.flag _ _ _)).
  assert (rl_ready l3 = rl_ready l || negb (Raft.flag "raft_net_leader_only" false md)) as Hr.
  { unfold l3. destruct (Raft.flag _ _ _); simpl; [by rewrite orb_false_r|by rewrite orb_true_r]. }
  destruct (Raft.initializes md) eqn:Ei.
  2:{ simpl. split_and!; [done|done|]. split; [by left|done]. }
  unfold bind, Raft.node. rewrite Hn. fold md created. destruct created as [[e|] n3] eqn:Ec; simpl.
  - destruct (Raft.is_primary_shard md) eqn:Ep; simpl; (split_and!; [done|done|]).
    + split; [done|]. by intros [?|[?|?]].
    + split; [by right; right|done].
  - split_and!; [done|done|]. split; [by right; left|done].
Qed.

(** A new collection has its groups started once: of the replicas a partition is placed on in
    rotation, the one with the first identifier creates the group, with all members it is placed
    on, and it alone can fail to; the others only serve the calls of the group. *)
Theorem one_shard_starts_group checks request m pid :
  meta_wf m → default_request request m → (0 ≤ pid < partition_count request)%Z →
  (∀ v, req_options request !! bs "raft_init_leader_only" = Some v → v = bs "true") → ∃ m',
  Meta.create_collection checks request m = (Ok (req_name request), m') ∧
  ∀ k, (0 ≤ k < replica_count request)%Z → ∃ md,
    bt_get (first_free m + pid * replica_count request + k)%Z (shards m') = Some md ∧
    sm_owner md = Some (place (members m) (pid + k)) ∧
    dom (Raft.initial_members md)
    = list_to_set (place (members m) <$> seqZ pid (replica_count request)) ∧
    ∀ l n1 n2, rl_metadata l = md →
      rn_start_raft_rpc (rl_node l) = (None, n1) → rn_start_ops_rpc n1 = (None, n2) →
      let created := rn_initialize (Raft.initial_members md) n2 in
      rl_node (Raft.initialize l).2 = (if decide (k = 0%Z) then created.2 else n2) ∧
      ((Raft.initialize l).1 = Ok tt ↔ k ≠ 0%Z ∨ created.1 = None).
Proof.
  intros W D Hpid Hopt. destruct (create_ok checks request m W D) as (m' & E & _ & C).
  exists m'. split; [done|]. intros k Hk. pose proof (dr_replicas _ _ D) as Hrc.
  set (rc := replica_count request) in *. set (base := first_free m) in *.
  set (md := Meta.shard_meta request pid (default_assignment (members m) base rc pid) (group base rc pid)
               (place (members m) (pid + k)) (base + pid * rc + k)).
  exists md. split_and!; [|done|by rewrite initial_members_dom|].
  { rewrite (cr_shards _ _ _ C). fold base rc. rewrite bool_decide_true by nia.
    replace (base + pid * rc + k - base)%Z with (pid * rc + k)%Z by lia.
    unfold rc, base. by rewrite nth_shard_at. }
  assert (Raft.is_primary_shard md = bool_decide (k = 0%Z)) as Hp.
  { unfold Raft.is_primary_shard. simpl. apply bool_decide_ext. split; [intros [= ?]; lia|intros ->].
    f_equal. lia. }
  assert (Raft.initializes md = bool_decide (k = 0%Z)) as Hi.
  { unfold Raft.initializes. rewrite Hp. unfold Raft.init_leader_only, Raft.flag. simpl.
    rewrite length_fmap, length_seqZ.
    destruct (req_options request !! bs "raft_init_leader_only") as [v|] eqn:Ev.
    - by rewrite (Hopt v eq_refl), bool_decide_true.
    - destruct (Nat.ltb_spec 1 (Z.to_nat rc)); [done|].
      assert (k = 0%Z) as -> by lia. done. }
  intros l n1 n2 <- E1 E2. destruct (initialize_started l n1 n2 E1 E2) as (Hn & _ & Hr). cbv zeta.
  rewrite Hi in Hn, Hr. rewrite Hp in Hr. case_bool_decide.
  - rewrite decide_True by done. split; [done|]. rewrite Hr. naive_solver.
  - rewrite decide_False by done. split; [done|]. rewrite Hr. naive_solver.
Qed.
End start.

(** ** Members *)

Section members.
Context {N : Type} `{!RaftNode N}.
(** [change_membership] of a list of identifiers makes them the voters, and refuses to leave the
    group without any. *)
Context (voters : N → gset Z).
Hypothesis learner_keeps : ∀ id addr n, voters (rn_add_learner id addr n).2 = voters n.
Hypothesis change_replaces : ∀ ids retain n,
  let '(r, n') := rn_change_membership ids retain n in
  voters n' = match r with None => list_to_set ids | Some _ => voters n end.
Hypothesis some_voter : ∀ retain n, (rn_change_membership [] retain n).1 ≠ None.

(** Adding a replica makes it the only voter, unless it stays a learner: the members the group had
    lose their vote. Removing one always fails, whichever is named. *)
Theorem replicas_cannot_change (l : RaftLayer N) id addr :
  (let '(r, l') := Raft.add_replica id addr l in
   voters (rl_node l') = {[ id ]} ∨ voters (rl_node l') = voters (rl_node l)) ∧
  (let '(r, l') := Raft.remove_replica id l in
   (∃ e, r = Err (MembershipChange e)) ∧ voters (rl_node l') = voters (rl_node l)).
Proof using All.
  split.
  - unfold Raft.add_replica, bind at 1, Raft.node at 1.
    pose proof (learner_keeps id addr (rl_node l)) as Hl.
    destruct (rn_add_learner id addr (rl_node l)) as [[e|] n1]; simpl in *; [by right|].
    unfold bind, Raft.node. simpl.
    pose proof (change_replaces [id] false n1) as Hc.
    destruct (rn_change_membership [id] false n1) as [[e|] n2]; simpl in *; [right; congruence|left].
    rewrite Hc. set_solver.
  - unfold Raft.remove_replica, bind, Raft.node.
    pose proof (change_replaces [] true (rl_node l)) as Hc. pose proof (some_voter true (rl_node l)) as Hv.
    destruct (rn_change_membership [] true (rl_node l)) as [[e|] n2]; simpl in *; [|done].
    split; [by eexists|done].
Qed.
End members.

(** ** A group *)

Module DemoRaft.
#[local] Existing Instance demo_codec.


(** A node that knows who leads: the map of the committed requests is the leader's, the local copy
    of a follower does not move here, and the leader can be reached or not. *)
Record GroupNode := {
  gn_self : Z;
  gn_leader : option Z;
  gn_up : bool;
  gn_map : store;
  gn_local : MemoryStorage;
  gn_voters : gset Z;
  gn_created : option (gmap Z string);
}.

Definition set_local (s : MemoryStorage) (n : GroupNode) : GroupNode :=
  {| gn_self := gn_self n; gn_leader := gn_leader n; gn_up := gn_up n; gn_map := gn_map n;
     gn_local := s; gn_voters := gn_voters n; gn_created := gn_created n |}.
Definition set_voters (v : gset Z) (n : GroupNode) : GroupNode :=
  {| gn_self := gn_self n; gn_leader := gn_leader n; gn_up := gn_up n; gn_map := gn_map n;
     gn_local := gn_local n; gn_voters := v; gn_created := gn_created n |}.
Definition set_created (c : gmap Z string) (n : GroupNode) : GroupNode :=
  {| gn_self := gn_self n; gn_leader := gn_leader n; gn_up := gn_up n; gn_map := gn_map n;
     gn_local := gn_local n; gn_voters := dom c; gn_created := Some c |}.
Definition leads (n : GroupNode) : bool := bool_decide (Some (gn_self n) = gn_leader n).

Definition commit (req : ShardRequest) (n : GroupNode) : ReplicationResponse * GroupNode :=
  let '(resp, d) := request_spec (operation req) (gn_map n) in
  (resp, {| gn_self := gn_self n; gn_leader := gn_leader n; gn_up := gn_up n; gn_map := d;
            gn_local := if leads n then set_data d (gn_local n) else gn_local n;
            gn_voters := gn_voters n; gn_created := gn_created n |}).

#[local] Instance group_node : RaftNode GroupNode := {|
  rn_client_write req n :=
    if leads n then let '(resp, n) := commit req n in (inr resp, n)
    else (inl (ForwardToLeader (gn_leader n)), n);
  rn_call _ req n :=
    if gn_up n then let '(resp, n) := commit req n in (inr resp, n) else (inl (CallError "timeout"), n);
  rn_linearizable n := (leads n, n);
  rn_get key n := (Ok (bt_get key (data (gn_local n))), n);
  rn_metrics n := {| rm_id := gn_self n; rm_current_leader := gn_leader n |};
  rn_start_raft_rpc n := (None, n);
  rn_start_ops_rpc n := (None, n);
  rn_initialize ms n :=
    match gn_created n with Some _ => (Some "not allowed", n) | None => (None, set_created ms n) end;
  rn_add_learner _ _ n := (None, n);
  rn_change_membership ids _ n :=
    match ids with [] => (Some "empty", n) | _ => (None, set_voters (list_to_set ids) n) end;
  rn_shutdown n := (None, n);
|}.

Definition steady (n : GroupNode) : Prop := leads n = true → data (gn_local n) = gn_map n.

Lemma commit_ok req n : steady n →
  steady (commit req n).2 ∧ rn_metrics (commit req n).2 = rn_metrics n ∧
  ((commit req n).1, gn_map (commit req n).2) = request_spec (operation req) (gn_map n).
Proof.
  intros Hs. unfold commit, steady, leads in *. destruct (request_spec _ _) as [resp d]. simpl.
  by case_bool_decide.
Qed.

#[local] Instance group_laws : RaftGroupLaws GroupNode.
Proof.
  refine {| rg_map := gn_map; rg_stable := steady |}; simpl.
  - intros req n Hs Hl. unfold leads. rewrite bool_decide_true by done.
    destruct (commit_ok req n Hs) as (? & Hm & ?). destruct (commit req n) as [resp n']. simpl in *.
    by exists resp, n'.
  - intros req n Hs Hl. unfold leads. rewrite bool_decide_false by done. by exists n.
  - intros leader req n Hs _. destruct (gn_up n).
    + destruct (commit_ok req n Hs) as (? & Hm & ?). destruct (commit req n) as [resp n']. simpl in *.
      by exists (inr resp), n'.
    + eexists _, n. split; [done|]. split; [done|]. split; [done|]. by left.
  - intros n Hs. exists (leads n), n. split_and!; try done. intros Hl key. by rewrite Hs.
Defined.

Definition member (self : Z) (up : bool) : GroupNode :=
  {| gn_self := self; gn_leader := Some 1%Z; gn_up := up; gn_map := []; gn_local := Memory.new;
     gn_voters := {[ 1%Z; 2%Z ]}; gn_created := None |}.
Definition layer (self : Z) (up : bool) : RaftLayer GroupNode :=
  {| rl_shard_id := self; rl_metadata := Demo.meta; rl_node := member self up; rl_ready := true;
     rl_monitor := false; rl_cancelled := false |}.


Lemma written_steady :
  steady (rl_node (Raft.replicate_write (put_request "a" "x") (layer 2 true)).2).
Proof. intros Hl. vm_compute in Hl. discriminate. Qed.

Lemma read_through_group_witness :
  let l := (Raft.replicate_write (put_request "a" "x") (layer 2 true)).2 in
  ∃ r l', Raft.replicate_read (from_operation 0 (Read (bs "a")) 0) l = (Ok r, l') ∧
  resp_data r = Some (bs "x").
Proof.
  destruct (read_through_group (H := group_laws) 0 (bs "a") 0 (Raft.replicate_write (put_request "a" "x") (layer 2 true)).2
    written_steady) as (r & l' & E & _ & Hr).
  destruct r as [resp|e|p]; [|vm_compute in E; discriminate..].
  exists resp, l'. split; [exact E|]. rewrite (proj2 Hr). reflexivity.
Defined.

Lemma one_shard_starts_group_witness : ∃ m',
  Meta.create_collection true DemoMeta.request DemoMeta.manager = (Ok (bs "sensors"), m') ∧
  ∃ first second, bt_get 3%Z (shards m') = Some first ∧ bt_get 4%Z (shards m') = Some second ∧
  let start md := (Raft.initialize {| rl_shard_id := 0; rl_metadata := md; rl_node := member 1 true;
                     rl_ready := false; rl_monitor := false; rl_cancelled := false |}).2 in
  gn_created (rl_node (start first)) = Some (Raft.initial_members first) ∧
  gn_created (rl_node (start second)) = None.
Proof.
  destruct (one_shard_starts_group (N := GroupNode) true DemoMeta.request DemoMeta.manager 1
    DemoMeta.manager_wf DemoMeta.request_default ltac:(decide_now) ltac:(by intros)) as (m' & E & Hk).
  exists m'. split; [exact E|].
  destruct (Hk 0%Z ltac:(decide_now)) as (first & H1 & _ & _ & S1).
  destruct (Hk 1%Z ltac:(decide_now)) as (second & H2 & _ & _ & S2).
  exists first, second. split; [exact H1|]. split; [exact H2|]. cbv zeta. split.
  - destruct (S1 {| rl_shard_id := 0; rl_metadata := first; rl_node := member 1 true;
                    rl_ready := false; rl_monitor := false; rl_cancelled := false |} _ _ eq_refl eq_refl eq_refl)
      as [-> _]. reflexivity.
  - destruct (S2 {| rl_shard_id := 0; rl_metadata := second; rl_node := member 1 true;
                    rl_ready := false; rl_monitor := false; rl_cancelled := false |} _ _ eq_refl eq_refl eq_refl)
      as [-> _]. reflexivity.
Defined.

Lemma replicas_cannot_change_witness :
  (gn_voters (rl_node (Raft.add_replica 3 "node-3" (layer 1 true)).2) = {[ 3%Z ]} ∨
   gn_voters (rl_node (Raft.add_replica 3 "node-3" (layer 1 true)).2) = {[ 1%Z; 2%Z ]}) ∧
  gn_voters (rl_node (Raft.remove_replica 2 (layer 1 true)).2) = {[ 1%Z; 2%Z ]}.
Proof.
  destruct (replicas_cannot_change gn_voters ltac:(by intros) ltac:(by intros [|??] ??) ltac:(by intros)
    (layer 1 true) 3 "node-3") as [H1 _].
  destruct (replicas_cannot_change gn_voters ltac:(by intros) ltac:(by intros [|??] ??) ltac:(by intros)
    (layer 1 true) 2 "node-2") as [_ [_ H2]].
  split; [exact H1|exact H2].
Defined.

(** *** A shard on a follower *)

#[local] Instance local_storage : Storage (RaftLayer GroupNode) :=
  zoomed_storage (λ l, gn_local (rl_node l)) (λ s l, Raft.set_node (set_local s (rl_node l)) l).
#[local] Instance through_raft : ReplicationLayer (RaftLayer GroupNode) := {|
  replicate_write := Raft.replicate_write;
  replicate_read := Raft.replicate_read;
|}.

Definition shard_on (self : Z) : Shard (RaftLayer GroupNode) :=
  new_shard (layer self true) Demo.meta None true 16 0.
Definition committed (s : Shard (RaftLayer GroupNode)) : store := gn_map (rl_node (sh_rep s)).
Definition write (key v : string) (s : Shard (RaftLayer GroupNode)) :=
  (ES.set_entry (bs "o") (bs key) (Demo.val v) s).2.

(** A shard reads its own copy: on a follower whose copy is behind, an entry that was set is
    committed but not read back, and the next write of the object is committed with the same
    version again. On the leader both are as they should be. *)
Theorem follower_versions_repeat :
  let after self := write "b" "2" (write "a" "1" (shard_on self)) in
  (ES.get_entry (bs "o") (bs "a") (after 1%Z)).1 = Ok (Some (Demo.val "1")) ∧
  version_of (committed (after 1%Z)) (bs "o") = 2%Z ∧
  entry_of (committed (after 2%Z)) (bs "o") (bs "a") = Some (Demo.val "1") ∧
  (ES.get_entry (bs "o") (bs "a") (after 2%Z)).1 = Ok None ∧
  version_of (committed (after 2%Z)) (bs "o") = 1%Z.
Proof. by vm_compute. Qed.
End DemoRaft.
