(* ===== verification/ShardBuilder.v ===== *)
(** * Building and starting a shard

    [data-plane/oprc-odgm/src/shard/builder.rs] with the constructors, [initialize] and
    [start_network] of [shard/object_shard/{core,trait_impl}.rs], the start of the MST layer in
    [replication/mst/mst_layer.rs], [create_shard] of [shard/manager.rs] and the start of the server
    in [lib.rs]: from the metadata of a shard to the shard that runs. The environment, the Zenoh
    sessions, OpenRaft and the modules are parameters; the routes of functions, which the model of
    metadata leaves out, are a parameter too. Tasks that are spawned are recorded. *)

From stdpp Require Import base tactics list numbers option gmap sorting strings.
From Stdlib Require Import Lia.
From S2P Require Import Prelude BTree Backend Memory SkipList Fjall Replication StorageKey GranularKey RaftSnapshot RaftSM.
From S2P Require Import Events ObjectData Shard EntryStore ObjectView EntryOps AnyStorage Mst Metadata Cluster Collections.
From S2P Require Import Identity ShardNetwork Gateway ShardService Invocation WasmStore Wasm RaftGroup.

Set Default Proof Using "Type".
Open Scope prog_scope.

(** ** Configuration *)

Record ShardOptions := { max_string_id_len : nat; granular_prefetch_limit : nat }.

(** [zenoh::sample::Locality] *)
Inductive Locality : Type := SessionLocal | RemoteOnly | AnyLocality.

Record EventPipelineConfig := {
  ep_enabled : bool;
  ep_queue_bound : Z;
  ep_broadcast_bound : Z;
  ep_mst_sync_events : bool;
  ep_zenoh_event_publish : bool;
  ep_zenoh_event_locality : Locality;
  ep_include_entry_values : bool;
}.

(** [EventConfig]: the fields that are not set by the server have their defaults. *)
Record EventConfig := { ec_max_trigger_depth : Z; ec_trigger_timeout_ms : Z }.

Module Pipeline.

(** [str::parse::<bool>] *)
Definition parse_bool (s : bytes) : option bool :=
  if bool_decide (s = bs "true") then Some true
  else if bool_decide (s = bs "false") then Some false else None.

Section env.
(** [std::env::var] *)
Context (env : bytes → option bytes).

Definition bool_var (name : string) (d : bool) : bool := default d (env (bs name) ≫= parse_bool).
Definition usize_var (name : string) (d : Z) : Z := default d (env (bs name) ≫= Path.parse_u64).

Definition env_locality : Locality :=
  match env (bs "ODGM_ZENOH_EVENT_LOCALITY") with
  | Some v => if bool_decide (v = bs "session_local") then SessionLocal
              else if bool_decide (v = bs "any") then AnyLocality else RemoteOnly
  | None => RemoteOnly
  end.

Definition from_env : EventPipelineConfig := {|
  ep_enabled := bool_var "ODGM_EVENT_PIPELINE_ENABLED" true;
  ep_queue_bound := usize_var "ODGM_EVENT_QUEUE_BOUND" 8192;
  ep_broadcast_bound := usize_var "ODGM_EVENT_BCAST_BOUND" 256;
  ep_mst_sync_events := bool_var "ODGM_MST_SYNC_EVENTS" false;
  ep_zenoh_event_publish := bool_var "ODGM_ZENOH_EVENT_PUBLISH" false;
  ep_zenoh_event_locality := env_locality;
  ep_include_entry_values := bool_var "ODGM_EVENT_INCLUDE_VALUES" false;
|}.

Definition with_local_publish : EventPipelineConfig :=
  let e := from_env in {|
    ep_enabled := ep_enabled e; ep_queue_bound := ep_queue_bound e;
    ep_broadcast_bound := ep_broadcast_bound e; ep_mst_sync_events := true;
    ep_zenoh_event_publish := true; ep_zenoh_event_locality := SessionLocal;
    ep_include_entry_values := ep_include_entry_values e;
  |}.
End env.

Definition disabled : EventPipelineConfig := {|
  ep_enabled := false; ep_queue_bound := 0; ep_broadcast_bound := 0; ep_mst_sync_events := false;
  ep_zenoh_event_publish := false; ep_zenoh_event_locality := RemoteOnly;
  ep_include_entry_values := false;
|}.

Definition with_locality (x : Locality) (e : EventPipelineConfig) : EventPipelineConfig := {|
  ep_enabled := ep_enabled e; ep_queue_bound := ep_queue_bound e;
  ep_broadcast_bound := ep_broadcast_bound e; ep_mst_sync_events := ep_mst_sync_events e;
  ep_zenoh_event_publish := ep_zenoh_event_publish e; ep_zenoh_event_locality := x;
  ep_include_entry_values := ep_include_entry_values e;
|}.

(** A value that is not one of the words changes nothing. *)
Definition bool_option (opts : gmap bytes bytes) (key : string) (d : bool) : bool :=
  default d (opts !! bs key ≫= parse_bool).

Definition locality_option (opts : gmap bytes bytes) (d : Locality) : Locality :=
  match opts !! bs "zenoh_event_locality" with
  | Some v => if bool_decide (v = bs "session_local") then SessionLocal
              else if bool_decide (v = bs "any") then AnyLocality
              else if bool_decide (v = bs "remote") then RemoteOnly else d
  | None => d
  end.

Definition apply_metadata_overrides (opts : gmap bytes bytes) (e : EventPipelineConfig) :
    EventPipelineConfig := {|
  ep_enabled := ep_enabled e; ep_queue_bound := ep_queue_bound e;
  ep_broadcast_bound := ep_broadcast_bound e;
  ep_mst_sync_events := bool_option opts "mst_sync_events" (ep_mst_sync_events e);
  ep_zenoh_event_publish := bool_option opts "zenoh_event_publish" (ep_zenoh_event_publish e);
  ep_zenoh_event_locality := locality_option opts (ep_zenoh_event_locality e);
  ep_include_entry_values := bool_option opts "ws_event_include_values" (ep_include_entry_values e);
|}.

(** [tokio::sync::mpsc::channel] and [broadcast::channel] panic on a capacity they cannot have. *)
Definition channel_capacity (n : Z) : bool := (1 <=? n)%Z && (n <=? 2 ^ 61 - 1)%Z.
Definition broadcast_capacity (n : Z) : bool := (1 <=? n)%Z && (n <=? 2 ^ 63 - 1)%Z.
End Pipeline.

(** What is built of the events of a shard, with where they are published *)
Record EventDispatcher := {
  ed_dispatcher : Dispatcher;
  ed_publish : option Locality;
}.

(** [build_event_dispatcher] *)
Definition build_event_dispatcher (event_config : option EventConfig) (cfg : EventPipelineConfig) :
    res ShardError (option EventDispatcher) :=
  if negb (ep_enabled cfg) then Ok None
  else if negb (Pipeline.channel_capacity (ep_queue_bound cfg))
  then Panic "mpsc bounded channel requires buffer > 0"
  else if negb (Pipeline.broadcast_capacity (ep_broadcast_bound cfg))
  then Panic "broadcast channel capacity cannot be zero"
  else Ok (Some {|
    ed_dispatcher := Dispatch.new (Z.to_nat (ep_queue_bound cfg)) (bool_decide (is_Some event_config));
    ed_publish := if ep_zenoh_event_publish cfg then Some (ep_zenoh_event_locality cfg) else None |}).

(** ** Layers that are started *)

(** The part of [ReplicationLayer] that starts a layer *)
Class StartedLayer (R : Type) := {
  layer_initialize : M R ReplicationError unit;
  layer_ready : R → bool;
}.

(** [MstReplicationLayer], with what its networking and its publication task were started with; a
    period of zero kills the task. *)
Record MstLayer (S Tree : Type) := {
  ml_state : MstState S Tree;
  ml_metadata : ShardMetadata;
  ml_sync_publish : option Locality;
  ml_include_entry_values : bool;
  ml_network : bool;
  ml_publication : option Z;
  ml_ready : bool;
}.
Arguments ml_state {S Tree} _.
Arguments ml_metadata {S Tree} _.
Arguments ml_sync_publish {S Tree} _.
Arguments ml_include_entry_values {S Tree} _.
Arguments ml_network {S Tree} _.
Arguments ml_publication {S Tree} _.
Arguments ml_ready {S Tree} _.

Module MstStart.
Section layer.
Context {S Tree : Type} `{Storage S} (upsert : bytes → bytes → Tree → Tree) (empty_tree : Tree).
(** What starting the networking of a shard fails with *)
Context (network_error : ShardMetadata → option string).

Notation L := (MstLayer S Tree).

Definition set_state (x : MstState S Tree) (l : L) : L :=
  {| ml_state := x; ml_metadata := ml_metadata l; ml_sync_publish := ml_sync_publish l;
     ml_include_entry_values := ml_include_entry_values l; ml_network := ml_network l;
     ml_publication := ml_publication l; ml_ready := ml_ready l |}.

Definition new_with_dispatcher (storage : S) (metadata : ShardMetadata) (d : option EventDispatcher)
    (include_entry_values : bool) : L :=
  {| ml_state := {| m_storage := storage; m_tree := empty_tree; m_dispatcher := ed_dispatcher <$> d |};
     ml_metadata := metadata; ml_sync_publish := d ≫= ed_publish;
     ml_include_entry_values := include_entry_values;
     ml_network := false; ml_publication := None; ml_ready := false |}.

(** [mst_sync_interval], in milliseconds *)
Definition interval_ms (metadata : ShardMetadata) : Z :=
  default 5000%Z (sm_options metadata !! bs "mst_sync_interval" ≫= Path.parse_u64).

Definition start_network : M L StorageError unit := λ l,
  match network_error (ml_metadata l) with
  | Some e => (Err (Serialization e), l)
  | None => (Ok tt, {| ml_state := ml_state l; ml_metadata := ml_metadata l;
                       ml_sync_publish := ml_sync_publish l;
                       ml_include_entry_values := ml_include_entry_values l; ml_network := true;
                       ml_publication := ml_publication l; ml_ready := ml_ready l |})
  end.

Definition start_periodic_publication (l : L) : L :=
  let n := interval_ms (ml_metadata l) in
  {| ml_state := ml_state l; ml_metadata := ml_metadata l; ml_sync_publish := ml_sync_publish l;
     ml_include_entry_values := ml_include_entry_values l; ml_network := ml_network l;
     ml_publication := if (n =? 0)%Z then None else Some n; ml_ready := ml_ready l |}.

Definition set_ready (l : L) : L :=
  {| ml_state := ml_state l; ml_metadata := ml_metadata l; ml_sync_publish := ml_sync_publish l;
     ml_include_entry_values := ml_include_entry_values l; ml_network := ml_network l;
     ml_publication := ml_publication l; ml_ready := true |}.

Definition initialize : M L StorageError unit :=
  zoom ml_state set_state (Mst.rebuild_mst_from_storage upsert default_mst_config) ;;;
  start_network ;;;
  modify start_periodic_publication ;;;
  modify set_ready.
End layer.
End MstStart.

(** ** The running shard *)

(** [ObjectUnifiedShard] around its storage and replication: the offloader and the endpoints of
    its functions, its network, the members it knows, whether it has told them of itself, and its token. *)
Record FullShard (R L : Type) := {
  fs_shard : Shard R;
  fs_session : bool;
  fs_max_string_id_len : nat;
  fs_publish : option Locality;
  fs_invoker : ShardInvoker L;
  fs_inv_net : option InvocationNetworkManager;
  fs_network : option UnifiedShardNetwork;
  fs_liveliness : option Liveliness;
  fs_token : option bytes;
  fs_ready : bool;
  fs_cancelled : bool;
}.
Arguments fs_shard {R L} _.
Arguments fs_session {R L} _.
Arguments fs_max_string_id_len {R L} _.
Arguments fs_publish {R L} _.
Arguments fs_invoker {R L} _.
Arguments fs_inv_net {R L} _.
Arguments fs_network {R L} _.
Arguments fs_liveliness {R L} _.
Arguments fs_token {R L} _.
Arguments fs_ready {R L} _.
Arguments fs_cancelled {R L} _.

Module Full.
Section full.
Context {R L : Type} `{!StartedLayer R}.
(** Declaring a key expression may fail with a text. *)
Context (declare_error : bytes → option bytes) (routes : ShardMetadata → list (bytes * FuncInvokeRoute)).
Context (now : Z).

Notation F := (FullShard R L).

Definition text (b : bytes) : string := String.string_of_list_byte b.

Definition new_full (metadata : ShardMetadata) (replication : R) (event_manager : bool)
    (options : ShardOptions) (d : option EventDispatcher) : F :=
  {| fs_shard := new_shard replication metadata (ed_dispatcher <$> d) event_manager
                   (granular_prefetch_limit options) now;
     fs_session := true;
     fs_max_string_id_len := max_string_id_len options;
     fs_publish := d ≫= ed_publish;
     fs_invoker := {| si_offloader := Offloader.new event_manager; si_has_offloader := true |};
     fs_inv_net := Some (InvNet.new metadata);
     fs_network := None; fs_liveliness := Some ∅; fs_token := None; fs_ready := false;
     fs_cancelled := false |}.

Definition new_minimal (metadata : ShardMetadata) (replication : R) (options : ShardOptions) : F :=
  {| fs_shard := new_shard replication metadata None false (granular_prefetch_limit options) now;
     fs_session := false;
     fs_max_string_id_len := max_string_id_len options;
     fs_publish := None;
     fs_invoker := {| si_offloader := Offloader.new false; si_has_offloader := false |};
     fs_inv_net := None; fs_network := None; fs_liveliness := None; fs_token := None;
     fs_ready := false;
     fs_cancelled := false |}.

Definition set_shard (x : Shard R) (s : F) : F :=
  {| fs_shard := x; fs_session := fs_session s; fs_max_string_id_len := fs_max_string_id_len s;
     fs_publish := fs_publish s; fs_invoker := fs_invoker s; fs_inv_net := fs_inv_net s;
     fs_network := fs_network s; fs_liveliness := fs_liveliness s; fs_token := fs_token s;
     fs_ready := fs_ready s; fs_cancelled := fs_cancelled s |}.
Definition set_invoker (x : ShardInvoker L) (s : F) : F :=
  {| fs_shard := fs_shard s; fs_session := fs_session s; fs_max_string_id_len := fs_max_string_id_len s;
     fs_publish := fs_publish s; fs_invoker := x; fs_inv_net := fs_inv_net s;
     fs_network := fs_network s; fs_liveliness := fs_liveliness s; fs_token := fs_token s;
     fs_ready := fs_ready s; fs_cancelled := fs_cancelled s |}.
Definition set_inv_net (x : InvocationNetworkManager) (s : F) : F :=
  {| fs_shard := fs_shard s; fs_session := fs_session s; fs_max_string_id_len := fs_max_string_id_len s;
     fs_publish := fs_publish s; fs_invoker := fs_invoker s; fs_inv_net := Some x;
     fs_network := fs_network s; fs_liveliness := fs_liveliness s; fs_token := fs_token s;
     fs_ready := fs_ready s; fs_cancelled := fs_cancelled s |}.
Definition set_network (x : UnifiedShardNetwork) (s : F) : F :=
  {| fs_shard := fs_shard s; fs_session := fs_session s; fs_max_string_id_len := fs_max_string_id_len s;
     fs_publish := fs_publish s; fs_invoker := fs_invoker s; fs_inv_net := fs_inv_net s;
     fs_network := Some x; fs_liveliness := fs_liveliness s; fs_token := fs_token s;
     fs_ready := fs_ready s; fs_cancelled := fs_cancelled s |}.
Definition set_token (x : option bytes) (s : F) : F :=
  {| fs_shard := fs_shard s; fs_session := fs_session s; fs_max_string_id_len := fs_max_string_id_len s;
     fs_publish := fs_publish s; fs_invoker := fs_invoker s; fs_inv_net := fs_inv_net s;
     fs_network := fs_network s; fs_liveliness := fs_liveliness s; fs_token := x;
     fs_ready := fs_ready s; fs_cancelled := fs_cancelled s |}.
Definition set_ready (x : bool) (s : F) : F :=
  {| fs_shard := fs_shard s; fs_session := fs_session s; fs_max_string_id_len := fs_max_string_id_len s;
     fs_publish := fs_publish s; fs_invoker := fs_invoker s; fs_inv_net := fs_inv_net s;
     fs_network := fs_network s; fs_liveliness := fs_liveliness s; fs_token := fs_token s;
     fs_ready := x; fs_cancelled := fs_cancelled s |}.
Definition cancel (s : F) : F :=
  {| fs_shard := fs_shard s; fs_session := fs_session s; fs_max_string_id_len := fs_max_string_id_len s;
     fs_publish := fs_publish s; fs_invoker := fs_invoker s; fs_inv_net := fs_inv_net s;
     fs_network := fs_network s; fs_liveliness := fs_liveliness s; fs_token := fs_token s;
     fs_ready := fs_ready s; fs_cancelled := true |}.

Definition metadata (s : F) : ShardMetadata := sh_meta (fs_shard s).

(** The network is made once. *)
Definition make_network (s : F) : F :=
  if fs_session s then
    match fs_network s with
    | Some _ => s
    | None => set_network (Network.of_shard (sm_collection (metadata s)) (sm_partition_id (metadata s))) s
    end
  else s.

Definition start_functions : M F ShardError unit := λ s,
  match fs_inv_net s with
  | None => (Ok tt, s)
  | Some m =>
      let '(r, m) := InvNet.start declare_error (metadata s) (routes (metadata s)) m in
      (res_map_err (λ e, SOdgmError (ZenohError (text e))) r, set_inv_net m s)
  end.

Definition initialize : M F ShardError unit :=
  map_err SReplicationError (zoom (λ s, sh_rep (fs_shard s)) (λ r s, set_shard (set_rep r (fs_shard s)) s)
                               layer_initialize) ;;;
  modify make_network ;;;
  modify (λ s, set_ready (layer_ready (sh_rep (fs_shard s))) s) ;;;
  start_functions.

(** The task that forwards the readiness of the layer, until the shard is closed *)
Definition forward_readiness (s : F) : F :=
  if fs_cancelled s then s else set_ready (layer_ready (sh_rep (fs_shard s))) s.

(** Declaring the token may fail, which is only logged; so may the subscription to the others. *)
Definition start_liveliness (s : F) : F :=
  if fs_session s && bool_decide (is_Some (fs_liveliness s)) then
    let key := Live.declared_key (metadata s) in
    set_token (match declare_error key with Some _ => None | None => Some key end) s
  else s.

Definition start_network : M F ShardError unit :=
  (λ s, match fs_network s with
        | None => (Ok tt, s)
        | Some n =>
            let '(r, n) := Network.start_network declare_error n in
            (res_map_err (λ e, SOdgmError (ZenohError ("Failed to start network: " +:+ text e))) r,
             set_network n s)
        end) ;;;
  modify start_liveliness.

(** [set_local_offloader]; there may be one already. *)
Definition set_local_offloader (x : L) (s : F) : F :=
  set_invoker (ShardInvoke.set_local_offloader x (fs_invoker s)).2 s.

(** [close]: the tasks are cancelled and the endpoints of functions undeclared, those of the network
    are not. *)
Definition close (s : F) : F :=
  let s := cancel s in
  match fs_inv_net s with Some m => set_inv_net (InvNet.stop m) s | None => s end.
End full.
End Full.

(** The layers as [ReplicationLayer] starts them: without replication there is nothing to start. *)
Module Layers.
Definition unreplicated {S} : StartedLayer S :=
  {| layer_initialize := ret tt; layer_ready := λ _, true |}.

Definition raft {N} `{!RaftNode N} : StartedLayer (RaftLayer N) :=
  {| layer_initialize := Raft.initialize; layer_ready := Raft.watch_readiness |}.

Definition mst {S Tree} `{Storage S} (upsert : bytes → bytes → Tree → Tree)
    (network_error : ShardMetadata → option string) : StartedLayer (MstLayer S Tree) :=
  {| layer_initialize := map_err RStorageError (MstStart.initialize upsert network_error);
     layer_ready := ml_ready |}.
End Layers.

(** ** The builder *)

(** The types of the storage and of the layer are [unit] until they are chosen; a layer shares the
    storage it was made with. *)
Record ShardBuilder (S R : Type) := {
  sb_metadata : option ShardMetadata;
  sb_storage : S;
  sb_replication : R;
  sb_session : bool;
  sb_event_config : option EventConfig;
  sb_options : ShardOptions;
  sb_pipeline : EventPipelineConfig;
}.
Arguments sb_metadata {S R} _.
Arguments sb_storage {S R} _.
Arguments sb_replication {S R} _.
Arguments sb_session {S R} _.
Arguments sb_event_config {S R} _.
Arguments sb_options {S R} _.
Arguments sb_pipeline {S R} _.

Module Build.
Definition new (env : bytes → option bytes) : ShardBuilder unit unit :=
  {| sb_metadata := None; sb_storage := tt; sb_replication := tt; sb_session := false;
     sb_event_config := None;
     sb_options := {| max_string_id_len := 0; granular_prefetch_limit := 0 |};
     sb_pipeline := Pipeline.from_env env |}.

Section any.
Context {S R : Type}.
Implicit Types (b : ShardBuilder S R).

Definition metadata (x : ShardMetadata) b : ShardBuilder S R :=
  {| sb_metadata := Some x; sb_storage := sb_storage b; sb_replication := sb_replication b;
     sb_session := sb_session b; sb_event_config := sb_event_config b; sb_options := sb_options b;
     sb_pipeline := sb_pipeline b |}.
Definition session b : ShardBuilder S R :=
  {| sb_metadata := sb_metadata b; sb_storage := sb_storage b; sb_replication := sb_replication b;
     sb_session := true; sb_event_config := sb_event_config b; sb_options := sb_options b;
     sb_pipeline := sb_pipeline b |}.
Definition events (x : EventConfig) b : ShardBuilder S R :=
  {| sb_metadata := sb_metadata b; sb_storage := sb_storage b; sb_replication := sb_replication b;
     sb_session := sb_session b; sb_event_config := Some x; sb_options := sb_options b;
     sb_pipeline := sb_pipeline b |}.
Definition options (x : ShardOptions) b : ShardBuilder S R :=
  {| sb_metadata := sb_metadata b; sb_storage := sb_storage b; sb_replication := sb_replication b;
     sb_session := sb_session b; sb_event_config := sb_event_config b; sb_options := x;
     sb_pipeline := sb_pipeline b |}.
Definition event_pipeline_config (x : EventPipelineConfig) b : ShardBuilder S R :=
  {| sb_metadata := sb_metadata b; sb_storage := sb_storage b; sb_replication := sb_replication b;
     sb_session := sb_session b; sb_event_config := sb_event_config b; sb_options := sb_options b;
     sb_pipeline := x |}.

(** [apply_pipeline] of [create_shard_dynamic_with_pipeline], and the events that follow it *)
Definition apply_pipeline (cfg : option EventPipelineConfig) b : ShardBuilder S R :=
  match cfg with Some c => event_pipeline_config c b | None => b end.
Definition apply_events (cfg : option EventConfig) b : ShardBuilder S R :=
  match cfg with Some c => events c b | None => b end.

Definition with_replication {R'} (r : R') b : ShardBuilder S R' :=
  {| sb_metadata := sb_metadata b; sb_storage := sb_storage b; sb_replication := r;
     sb_session := sb_session b; sb_event_config := sb_event_config b; sb_options := sb_options b;
     sb_pipeline := sb_pipeline b |}.

Definition build_minimal {L} (now : Z) b : res ShardError (FullShard R L) :=
  match sb_metadata b with
  | None => Err (ConfigurationError "Metadata is required")
  | Some m => Ok (Full.new_minimal now m (sb_replication b) (sb_options b))
  end.

Definition build {L} (now : Z) b : res ShardError (FullShard R L) :=
  match sb_metadata b with
  | None => Err (ConfigurationError "Metadata is required")
  | Some m =>
      if negb (sb_session b) then Err (ConfigurationError "Session is required for full shard")
      else
        let epc := Pipeline.apply_metadata_overrides (sm_options m) (sb_pipeline b) in
        let event_manager := bool_decide (is_Some (sb_event_config b)) in
        res_bind (build_event_dispatcher (sb_event_config b) epc) (λ d,
          Ok (Full.new_full now m (sb_replication b) event_manager (sb_options b) d))
  end.
End any.

Section storage.
Context {R : Type}.

Definition storage {S} (s : S) (b : ShardBuilder unit R) : ShardBuilder S R :=
  {| sb_metadata := sb_metadata b; sb_storage := s; sb_replication := sb_replication b;
     sb_session := sb_session b; sb_event_config := sb_event_config b; sb_options := sb_options b;
     sb_pipeline := sb_pipeline b |}.

Definition memory_storage `{SkipMap T} `{Keyspace K} (checks : bool) (b : ShardBuilder unit R) :
    res ShardError (ShardBuilder (AnyStorage T K) R) :=
  res_bind (res_map_err SStorageError (AnyS.open checks Config.skiplist)) (λ s, Ok (storage s b)).
End storage.

Section replication.
Context {S : Type}.

(** [NoReplication] is its storage. *)
Definition no_replication (b : ShardBuilder S unit) : ShardBuilder S S :=
  with_replication (sb_storage b) b.

(** Sync events stay in the session. *)
Definition mst_replication {Tree} (empty_tree : Tree) (b : ShardBuilder S unit) :
    res ShardError (ShardBuilder S (MstLayer S Tree)) :=
  match sb_metadata b with
  | None => Err (ConfigurationError "Metadata required for MST replication")
  | Some m =>
      if negb (sb_session b) then Err (ConfigurationError "Session required for MST replication")
      else
        let epc := Pipeline.apply_metadata_overrides (sm_options m) (sb_pipeline b) in
        res_bind
          (if ep_enabled epc && ep_mst_sync_events epc
           then build_event_dispatcher (sb_event_config b) (Pipeline.with_locality SessionLocal epc)
           else Ok None) (λ d,
          Ok (with_replication
                (MstStart.new_with_dispatcher empty_tree (sb_storage b) m d (ep_include_entry_values epc)) b))
  end.

(** [make] makes an instance over the storage. *)
Definition raft_replication {N} (make : S → Z → bytes → bytes → string + N) (b : ShardBuilder S unit) :
    res ShardError (ShardBuilder S (RaftLayer N)) :=
  match sb_metadata b with
  | None => Err (ConfigurationError "Metadata required for Raft replication")
  | Some m =>
      if negb (sb_session b) then Err (ConfigurationError "Session required for Raft replication")
      else
        let node_id := default (sm_id m) (sm_owner m) in
        let prefix := (bs "oprc/" ++ sm_collection m ++ bs "/" ++ to_decimal 10 (sm_partition_id m))%list in
        res_bind (res_map_err SReplicationError (Raft.new node_id m prefix (make (sb_storage b)))) (λ r,
          Ok (with_replication r b))
  end.
End replication.
End Build.

(** ** Shards whose type is chosen at run time *)

Inductive AnyShard (S N Tree L : Type) : Type :=
| BasicShard (s : FullShard S L)
| RaftShard (s : FullShard (RaftLayer N) L)
| MstShard (s : FullShard (MstLayer S Tree) L).
Arguments BasicShard {S N Tree L} _.
Arguments RaftShard {S N Tree L} _.
Arguments MstShard {S N Tree L} _.

(** [UnifiedShardFactory]: the pool is a parameter. *)
Record UnifiedShardFactory := {
  sf_event_config : option EventConfig;
  sf_config : ShardOptions;
  sf_event_pipeline_config : option EventPipelineConfig;
}.

Module Factory.
Section create.
Context {T K N Tree L : Type} `{SkipMap T} `{Keyspace K} `{!RaftNode N}.
Context (env : bytes → option bytes) (checks : bool) (empty_tree : Tree).
Context (make : AnyStorage T K → Z → bytes → bytes → string + N).
(** What getting a session from the pool fails with, and the time *)
Context (pool_error : option string) (now : Z).

Notation A := (AnyShard (AnyStorage T K) N Tree L).

(** What the three branches of [create_shard_dynamic_with_pipeline] share *)
Definition finish {R} (event_config : option EventConfig) (pipeline : option EventPipelineConfig)
    (b : ShardBuilder (AnyStorage T K) R) : res ShardError (FullShard R L) :=
  Build.build now (Build.apply_events event_config (Build.apply_pipeline pipeline b)).

Definition create_shard_dynamic_with_pipeline (metadata : ShardMetadata)
    (event_config : option EventConfig) (options : ShardOptions)
    (pipeline : option EventPipelineConfig) : res ShardError A :=
  let shard_type := to_ascii_lowercase (sm_shard_type metadata) in
  res_bind (res_map_err SStorageError
              (AnyS.open_storage_from_options checks (sm_options metadata) (sm_id metadata))) (λ storage,
  let b := Build.storage storage
             (Build.options options (Build.session (Build.metadata metadata (Build.new env)))) in
  if bool_decide (shard_type = bs "raft") then
    res_bind (Build.raft_replication make b) (λ b,
    res_bind (finish event_config pipeline b) (λ s, Ok (RaftShard s)))
  else if bool_decide (shard_type = bs "mst") then
    res_bind (Build.mst_replication empty_tree b) (λ b,
    res_bind (finish event_config pipeline b) (λ s, Ok (MstShard s)))
  else
    res_bind (finish event_config pipeline (Build.no_replication b)) (λ s, Ok (BasicShard s))).

Definition create_shard_dynamic (metadata : ShardMetadata) (event_config : option EventConfig)
    (options : ShardOptions) : res ShardError A :=
  create_shard_dynamic_with_pipeline metadata event_config options None.

(** A session of the pool *)
Definition get_session : res ShardError unit :=
  match pool_error with
  | Some e => Err (ConfigurationError ("Failed to get Zenoh session: " +:+ e))
  | None => Ok tt
  end.

Definition create_shard_with_pool_and_pipeline (metadata : ShardMetadata)
    (event_config : option EventConfig) (options : ShardOptions)
    (pipeline : option EventPipelineConfig) : res ShardError A :=
  res_bind get_session (λ _, create_shard_dynamic_with_pipeline metadata event_config options pipeline).

Definition create_shard_with_pool (metadata : ShardMetadata) (event_config : option EventConfig)
    (options : ShardOptions) : res ShardError A :=
  create_shard_with_pool_and_pipeline metadata event_config options None.

(** *** [ShardConstructors] of a basic shard *)

Definition basic_memory (metadata : ShardMetadata) (options : ShardOptions) :
    res ShardError (FullShard (AnyStorage T K) L) :=
  res_bind (Build.memory_storage checks (Build.options options (Build.metadata metadata (Build.new env))))
    (λ b, Build.build_minimal now (Build.no_replication b)).

Definition networked (metadata : ShardMetadata) (event_config : option EventConfig)
    (options : ShardOptions) : res ShardError (FullShard (AnyStorage T K) L) :=
  res_bind (Build.memory_storage checks
              (Build.options options (Build.session (Build.metadata metadata (Build.new env)))))
    (λ b, Build.build now (Build.apply_events event_config (Build.no_replication b))).

(** *** The factory *)

Definition new (config : ShardOptions) : UnifiedShardFactory :=
  {| sf_event_config := None; sf_config := config; sf_event_pipeline_config := None |}.
Definition new_with_events (event_config : EventConfig) (config : ShardOptions) : UnifiedShardFactory :=
  {| sf_event_config := Some event_config; sf_config := config; sf_event_pipeline_config := None |}.
Definition with_event_pipeline (config : EventPipelineConfig) (f : UnifiedShardFactory) :
    UnifiedShardFactory :=
  {| sf_event_config := sf_event_config f; sf_config := sf_config f;
     sf_event_pipeline_config := Some config |}.

Context (f : UnifiedShardFactory).

Definition create_shard_from_metadata (metadata : ShardMetadata) : res ShardError A :=
  create_shard_with_pool_and_pipeline metadata (sf_event_config f) (sf_config f)
    (sf_event_pipeline_config f).

(** What the other three begin with *)
Definition in_memory (metadata : ShardMetadata) : res ShardError (ShardBuilder (AnyStorage T K) unit) :=
  res_bind get_session (λ _,
  Build.memory_storage checks
    (Build.options (sf_config f) (Build.session (Build.metadata metadata (Build.new env))))).

Definition create_basic_shard (metadata : ShardMetadata) : res ShardError (FullShard (AnyStorage T K) L) :=
  res_bind (in_memory metadata) (λ b,
  Build.build now (Build.apply_events (sf_event_config f) (Build.no_replication b))).

Definition create_mst_shard (metadata : ShardMetadata) :
    res ShardError (FullShard (MstLayer (AnyStorage T K) Tree) L) :=
  res_bind (in_memory metadata) (λ b,
  res_bind (Build.mst_replication empty_tree b) (λ b,
  Build.build now (Build.apply_events (sf_event_config f) b))).

Definition create_raft_shard (metadata : ShardMetadata) : res ShardError (FullShard (RaftLayer N) L) :=
  res_bind (in_memory metadata) (λ b,
  res_bind (Build.raft_replication make b) (λ b,
  Build.build now (Build.apply_events (sf_event_config f) b))).
End create.
End Factory.

(** ** Starting a shard *)

(** [create_shard] of the manager up to where the shard is stored: built, initialised, given its
    modules, and its network started, the outcome of which is ignored. *)
Module Start.
Section start.
Context {T K N Tree C : Type} `{SkipMap T} `{Keyspace K} `{!RaftNode N}.
Context (env : bytes → option bytes) (checks : bool) (empty_tree : Tree).
Context (upsert : bytes → bytes → Tree → Tree) (network_error : ShardMetadata → option string).
Context (make : AnyStorage T K → Z → bytes → bytes → string + N).
Context (pool_error : option string) (now : Z).
Context (declare_error : bytes → option bytes) (routes : ShardMetadata → list (bytes * FuncInvokeRoute)).
Context (web : Web) (engine : option (Engine C)) (linkers : bool).

Notation L := (WasmExecutorAdapter C).
Notation A := (AnyShard (AnyStorage T K) N Tree L).

Definition setup_wasm {R} (s : FullShard R L) : FullShard R L :=
  let m := Full.metadata s in
  match Setup.setup_wasm_offloader web engine linkers (sm_collection m) (sm_partition_id m) (routes m) with
  | Some offloader => Full.set_local_offloader offloader s
  | None => s
  end.

Definition start {R} (layer : StartedLayer R) : M (FullShard R L) ShardError unit :=
  Full.initialize (StartedLayer0 := layer) declare_error routes ;;;
  modify setup_wasm ;;;
  modify (λ s, (Full.start_network declare_error s).2).

(** A shard that fails to start is dropped. *)
Definition started {R} (layer : StartedLayer R) (wrap : FullShard R L → A) (s : FullShard R L) :
    res ShardError A :=
  let '(r, s) := start layer s in res_bind r (λ _, Ok (wrap s)).

Definition start_shard (s : A) : res ShardError A :=
  match s with
  | BasicShard s => started Layers.unreplicated BasicShard s
  | RaftShard s => started Layers.raft RaftShard s
  | MstShard s => started (Layers.mst upsert network_error) MstShard s
  end.

Definition build_and_start (f : UnifiedShardFactory) (metadata : ShardMetadata) : res ShardError A :=
  res_bind (Factory.create_shard_from_metadata env checks empty_tree make pool_error now f metadata)
    start_shard.

Definition meta (s : A) : ShardMetadata :=
  match s with
  | BasicShard s => Full.metadata s | RaftShard s => Full.metadata s | MstShard s => Full.metadata s
  end.
Definition ready (s : A) : bool :=
  match s with BasicShard s => fs_ready s | RaftShard s => fs_ready s | MstShard s => fs_ready s end.

(** [create_shard] of [UnifiedShardManager], with its factory *)
Definition create_shard (f : UnifiedShardFactory) (metadata : ShardMetadata) :
    M (ShardManager A) ShardError unit :=
  Manager.create_shard (build_and_start f) checks metadata.
End start.
End Start.

(** ** The server *)

(** [OdgmConfig]: the fields the server reads before its gRPC services *)
Record OdgmConfig := {
  cf_http_port : Z;
  cf_node_id : option Z;
  cf_node_addr : option bytes;
  cf_collection : option bytes;
  cf_members : option bytes;
  cf_events_enabled : bool;
  cf_max_trigger_depth : Z;
  cf_trigger_timeout_ms : Z;
  cf_max_string_id_len : nat;
  cf_granular_prefetch_limit : nat;
}.

Module Server.

Definition default_config : OdgmConfig := {|
  cf_http_port := 8080; cf_node_id := None; cf_node_addr := None; cf_collection := None;
  cf_members := None; cf_events_enabled := true; cf_max_trigger_depth := 10;
  cf_trigger_timeout_ms := 30000; cf_max_string_id_len := 160; cf_granular_prefetch_limit := 256;
|}.

(** [rand::random] gives a number each time it is asked. *)
Definition get_node_id (conf : OdgmConfig) (random : Z) : Z := default random (cf_node_id conf).

Definition get_addr (conf : OdgmConfig) : bytes :=
  match cf_node_addr conf with
  | Some addr => addr
  | None => bs "http://127.0.0.1:" ++ to_decimal 5 (cf_http_port conf)
  end.

(** [str::split(",")] *)
Fixpoint split_comma (s : bytes) : list bytes :=
  match s with
  | [] => [[]]
  | c :: s =>
      if decide (c = Byte.x2c) then [] :: split_comma s
      else match split_comma s with
           | w :: ws => (c :: w) :: ws
           | [] => [[c]]
           end
  end.

Definition get_members {E} (conf : OdgmConfig) (random : Z) : res E (list Z) :=
  match cf_members conf with
  | Some s =>
      match mapM Path.parse_u64 (split_comma s) with
      | Some l => Ok l
      | None => Panic "called `Result::unwrap()` on an `Err` value"
      end
  | None => Ok [default random (cf_node_id conf)]
  end.

Definition factory (conf : OdgmConfig) (pipeline : option EventPipelineConfig) : UnifiedShardFactory :=
  let config := {| max_string_id_len := cf_max_string_id_len conf;
                   granular_prefetch_limit := cf_granular_prefetch_limit conf |} in
  if cf_events_enabled conf then
    let f := Factory.new_with_events {| ec_max_trigger_depth := cf_max_trigger_depth conf;
                                        ec_trigger_timeout_ms := cf_trigger_timeout_ms conf |} config in
    match pipeline with Some c => Factory.with_event_pipeline c f | None => f end
  else Factory.new config.

(** The grid without its services: each of the two numbers is drawn for itself. *)
Definition start_raw_server_with_pipeline {T E} (conf : OdgmConfig)
    (pipeline : option EventPipelineConfig) (random_id random_member : Z) :
    res E (Grid T * UnifiedShardFactory) :=
  let node_id := get_node_id conf random_id in
  res_bind (get_members conf random_member) (λ members,
  Ok ({| metadata_manager := Meta.new node_id members; shard_manager := Manager.new; last_sync := 0 |},
      factory conf pipeline)).

Definition start_raw_server {T E} (conf : OdgmConfig) (random_id random_member : Z) :
    res E (Grid T * UnifiedShardFactory) :=
  start_raw_server_with_pipeline conf None random_id random_member.

(** [create_collection]: what the configuration names is parsed elsewhere. *)
Definition create_collection {T} (checks : bool) (parse : bytes → option (list CreateCollectionRequest))
    (conf : OdgmConfig) : M MetaManager T unit := λ m,
  match cf_collection conf with
  | None => (Ok tt, m)
  | Some s =>
      match parse s with
      | None => (Panic "called `Result::unwrap()` on an `Err` value", m)
      | Some reqs =>
          for_each (λ req, λ m, match Meta.create_collection checks req m with
                                | (Ok _, m) => (Ok tt, m)
                                | (Err _, m) => (Panic "called `Result::unwrap()` on an `Err` value", m)
                                | (Panic p, m) => (Panic p, m)
                                end) reqs m
      end
  end.
End Server.

(** ** A shard comes up *)

Section comes_up.
Context {T K N Tree C : Type} `{SkipMapLaws T} `{KeyspaceLaws K} `{!RaftNode N} `{CodecLaws}.
Context (env : bytes → option bytes) (checks : bool) (empty_tree : Tree).
Context (upsert : bytes → bytes → Tree → Tree) (network_error : ShardMetadata → option string).
Context (make : AnyStorage T K → Z → bytes → bytes → string + N) (now : Z).
Context (routes : ShardMetadata → list (bytes * FuncInvokeRoute)).
Context (web : Web) (engine : option (Engine C)) (linkers : bool) (f : UnifiedShardFactory).

#[local] Instance unreplicated_layer : ReplicationLayer (AnyStorage T K) := no_replication.
#[local] Instance unreplicated_laws : ReplicationLaws (AnyStorage T K) := no_replication_laws.

Notation L := (WasmExecutorAdapter C).
Notation F := (FullShard (AnyStorage T K) L).
Notation A := (AnyShard (AnyStorage T K) N Tree L).
Notation declares := (λ _ : bytes, None : option bytes).
Implicit Types (md : ShardMetadata) (s : F).

(** The events of a shard: what the factory has, else the environment, with the overrides of its
    class *)
Definition pipeline_of (opts : gmap bytes bytes) : EventPipelineConfig :=
  Pipeline.apply_metadata_overrides opts
    (default (Pipeline.from_env env) (sf_event_pipeline_config f)).

Definition capacities_ok (e : EventPipelineConfig) : bool :=
  negb (ep_enabled e) || Pipeline.channel_capacity (ep_queue_bound e)
                         && Pipeline.broadcast_capacity (ep_broadcast_bound e).

(** The type and options of shards without replication on the default storage *)
Record basic (shard_type : bytes) (opts : gmap bytes bytes) : Prop := {
  ba_type : to_ascii_lowercase shard_type ≠ bs "raft" ∧ to_ascii_lowercase shard_type ≠ bs "mst";
  ba_storage : opts !! bs "storage_backend" ≠ Some (bs "fjall");
  ba_pipeline : capacities_ok (pipeline_of opts) = true;
}.
Notation basic_md md := (basic (sm_shard_type md) (sm_options md)).

(** A shard of [md] that is up *)
Record up md s : Prop := {
  up_meta : Full.metadata s = md;
  up_inv : shard_inv (fs_shard s);
  up_ready : fs_ready s = true;
  up_network : ∃ n, fs_network s = Some n ∧ serving (sm_collection md) (sm_partition_id md) n;
  up_token : fs_token s = Some (Live.declared_key md);
  up_functions : ∃ m, fs_inv_net s = Some m ∧
    InvNet.start declares md (routes md) (InvNet.new md) = (Ok tt, m);
  up_modules : io_local (si_offloader (fs_invoker s))
    = Setup.setup_wasm_offloader web engine linkers (sm_collection md) (sm_partition_id md) (routes md);
}.

Lemma functions_start md (l : list (bytes * FuncInvokeRoute)) m : ∃ m',
  InvNet.start declares md l m = (Ok tt, m').
Proof.
  unfold InvNet.start. destruct (InvNet.should_set_invoke md); [|by exists m].
  revert m. induction l as [|[fn r] l IH]; intros m; [by exists m|]. cbn [for_each fst snd].
  assert (∃ m1, (if inv_standby r then ret tt
    else InvNet.start_invoke_loop declares r fn ;;; InvNet.start_async_invoke_loop declares r fn) m
    = (Ok tt : res bytes unit, m1)) as [m1 E].
  { destruct (inv_standby r); [by exists m|]. unfold InvNet.start_invoke_loop, InvNet.start_async_invoke_loop, bind.
    case_bool_decide; simpl; case_bool_decide; by eexists. }
  rewrite (bind_ok _ _ _ _ _ E). apply IH.
Qed.

Lemma network_starts cls pid : ∃ n, serving cls pid n.
Proof.
  unfold serving, Network.of_shard. rewrite path_key.
  assert (∀ x, bool_decide (object_key cls pid [] ++ x = []) = false) as Hb.
  { intros x. apply bool_decide_false. unfold object_key. simpl. done. }
  revert Hb. generalize (object_key cls pid []). intros o Hb.
  unfold Network.start_network, Network.new, bind at 1, modify at 1, Network.is_running. simpl.
  unfold Network.start, Network.start_set_subscriber, Network.start_set_queryable,
    Network.start_get_queryable, Network.start_batch_set_queryable,
    Network.start_list_objects_queryable, Network.declared, bind, modify. simpl.
  repeat (rewrite Hb; simpl). by eexists.
Qed.

(** A new shard of an unreplicated layer that is started is up. *)
Lemma new_starts md st ev options d : (sto_inv st ∧ store_ok (contents st)) → ∃ s,
  Start.start declares routes web engine linkers Layers.unreplicated
    (Full.new_full now md st ev options d) = (Ok tt, s) ∧
  up md s ∧ sh_rep (fs_shard s) = st.
Proof using All.
  intros [Hst Hok]. unfold Start.start. set (s0 := Full.new_full _ _ _ _ _ _).
  destruct (functions_start md (routes md) (InvNet.new md)) as [m Em].
  destruct (network_starts (sm_collection md) (sm_partition_id md)) as [n En].
  set (s1 := Full.set_inv_net m (Full.set_ready true (Full.make_network s0))).
  assert (Full.initialize (StartedLayer0 := Layers.unreplicated) declares routes s0 = (Ok tt, s1)) as E1.
  { unfold Full.initialize, bind at 1, map_err, zoom. simpl. rewrite !bind_modify.
    change ((let '(r, m) := InvNet.start declares md (routes md) (InvNet.new md) in
             (res_map_err (λ e, SOdgmError (ZenohError (Full.text e))) r,
              Full.set_inv_net m (Full.set_ready true (Full.make_network s0)))) = (Ok tt, s1)).
    by rewrite Em. }
  rewrite (bind_ok _ _ _ _ _ E1), bind_modify. unfold modify. eexists. split; [reflexivity|].
  set (s2 := Start.setup_wasm routes web engine linkers s1).
  assert (fs_network s2 = Some (Network.of_shard (sm_collection md) (sm_partition_id md)) ∧
          Full.metadata s2 = md ∧ fs_shard s2 = fs_shard s0 ∧ fs_ready s2 = true ∧
          fs_session s2 = true ∧ fs_liveliness s2 = Some ∅ ∧ fs_inv_net s2 = Some m ∧
          io_local (si_offloader (fs_invoker s2))
          = Setup.setup_wasm_offloader web engine linkers (sm_collection md) (sm_partition_id md) (routes md))
    as (Hn & Hm & Hs & Hr & Hse & Hl & Hi & Hio).
  { unfold s2, Start.setup_wasm. change (Full.metadata s1) with md.
    destruct (Setup.setup_wasm_offloader _ _ _ _ _ _); by split_and!. }
  unfold Full.start_network, bind. rewrite Hn. unfold serving in En. rewrite En. cbn.
  unfold Full.start_liveliness. cbn. rewrite Hse, Hl. cbn.
  split; [|by rewrite Hs]. split; cbn; [done| |done|by exists n| |by exists m|done].
  - rewrite Hs. split; [exact Hst|exact Hok].
  - unfold Full.metadata in *. cbn. by rewrite Hm.
Qed.

(** Building it fails only where its events cannot be made. *)
Lemma basic_built md : basic_md md → ∃ d,
  Factory.create_shard_from_metadata env checks empty_tree make None now f md
  = Ok (BasicShard (Full.new_full now md (ASkipList SkipList.new)
          (bool_decide (is_Some (sf_event_config f))) (sf_config f) d) : A).
Proof.
  intros [[Hr Hm] Hs Hp]. unfold Factory.create_shard_from_metadata,
    Factory.create_shard_with_pool_and_pipeline, Factory.create_shard_dynamic_with_pipeline.
  cbn [Factory.get_session res_bind]. unfold AnyS.open_storage_from_options.
  rewrite bool_decide_false by done. cbn [AnyS.open Config.skiplist backend_type res_map_err res_bind].
  rewrite !bool_decide_false by done. unfold Factory.finish, Build.build.
  set (b := Build.apply_events _ _).
  assert (sb_metadata b = Some md ∧ sb_session b = true ∧ sb_options b = sf_config f ∧
    sb_event_config b = sf_event_config f ∧ sb_replication b = ASkipList SkipList.new ∧
    sb_pipeline b = default (Pipeline.from_env env) (sf_event_pipeline_config f)) as (-> & -> & -> & -> & -> & ->).
  { unfold b, Build.apply_events, Build.apply_pipeline.
    destruct (sf_event_config f), (sf_event_pipeline_config f); by split_and!. }
  cbn [negb]. fold (pipeline_of (sm_options md)). unfold build_event_dispatcher. unfold capacities_ok in Hp.
  destruct (ep_enabled _); cbn [negb orb] in Hp |- *; [|by eexists].
  apply andb_prop in Hp as [-> ->]. by eexists.
Qed.

(** A shard whose metadata asks for no replication and not for fjall is built and started: it is
    ready and empty, its endpoints are declared, those of its functions with them, its token is
    published and its modules are loaded; and objects can be kept in it. *)
Theorem basic_shard_comes_up md : basic_md md → ∃ s,
  Start.build_and_start env checks empty_tree upsert network_error make None now declares routes
    web engine linkers f md = Ok (BasicShard s : A) ∧ up md s ∧ sh_contents (fs_shard s) = [] ∧
  ∀ oid key v, obj_ok oid → key_ok key → ∃ sh,
    ES.set_entry oid key v (fs_shard s) = (Ok tt, sh) ∧ shard_inv sh ∧
    (ES.get_entry oid key sh).1 = Ok (Some v).
Proof using All.
  intros Hb. destruct (basic_built md Hb) as [d E].
  destruct (new_starts md (ASkipList SkipList.new) (bool_decide (is_Some (sf_event_config f)))
    (sf_config f) d) as (s & Es & Hup & Hrep).
  { split; [done|]. simpl. rewrite view_new. constructor. }
  exists s. unfold Start.build_and_start. rewrite E. cbn [res_bind Start.start_shard].
  unfold Start.started. rewrite Es. split; [done|]. split; [done|]. split.
  { unfold sh_contents. rewrite Hrep. simpl. apply view_new. }
  intros oid key v Hi Hk. pose proof (up_inv _ _ Hup) as Hinv.
  destruct (set_entry_ok oid key v _ Hinv Hi Hk) as (sh & E' & Hinv' & _ & Hu & _).
  exists sh. split; [done|]. split; [done|]. rewrite get_entry_ok by done. simpl.
  destruct Hu as [He _ _]. rewrite He by done. by rewrite !decide_True.
Qed.

(** *** A collection comes up *)

(** What [basic_built] builds, started *)
Definition brought_up md : A :=
  match Start.build_and_start env checks empty_tree upsert network_error make None now declares routes
          web engine linkers f md with
  | Ok s => s
  | _ => BasicShard (Full.new_minimal now md (ASkipList SkipList.new) (sf_config f))
  end.

Lemma brought_up_basic md : basic_md md →
  Start.build_and_start env checks empty_tree upsert network_error make None now declares routes
    web engine linkers f md = Ok (brought_up md) ∧
  ∃ s, brought_up md = BasicShard s ∧ up md s.
Proof using All.
  intros Hb. destruct (basic_built md Hb) as [d E].
  destruct (new_starts md (ASkipList SkipList.new) (bool_decide (is_Some (sf_event_config f)))
    (sf_config f) d) as (s & Es & Hup & _).
  { split; [done|]. simpl. rewrite view_new. constructor. }
  assert (Start.build_and_start env checks empty_tree upsert network_error make None now declares routes
    web engine linkers f md = Ok (BasicShard s)) as Eb.
  { unfold Start.build_and_start. rewrite E. cbn [res_bind Start.start_shard]. unfold Start.started.
    by rewrite Es. }
  unfold brought_up. rewrite Eb. eauto.
Qed.

(** Starting the shards that are not running yet, when all of them can be brought up *)
Lemma sync_brings_up (l : btree Z ShardMetadata) (m : ShardManager A) :
  Forall (λ ks, sm_id ks.2 = ks.1 ∧ basic_md ks.2) l → bt_wf l → stats_room (Z.of_nat (length l)) m → ∃ m',
  for_each (Manager.sync_shards
      (Start.build_and_start env checks empty_tree upsert network_error make None now declares routes
         web engine linkers f) checks) l.*2 m = (Ok tt, m') ∧
  ∀ id, running m' !! id
        = match running m !! id with Some t => Some t | None => brought_up <$> bt_get id l end.
Proof using All.
  intros Hl Hw Hr.
  destruct (sync_all_ok (λ md, Ok (brought_up md)) checks brought_up ltac:(done) l m) as (m' & E & Hrun);
    [by eapply Forall_impl; [exact Hl|intros ? []]|done|done|].
  exists m'. split; [|done]. rewrite <- E. clear E Hrun Hw Hr m'. revert m.
  induction Hl as [|[k md] l [_ Hb] _ IH]; intros m; [done|]. cbn [fmap list_fmap snd for_each] in *.
  unfold bind. unfold Manager.sync_shards at 1 3, Manager.create_shard.
  rewrite (proj1 (brought_up_basic md Hb)).
  destruct (if Manager.contains _ _ then _ else _) as [[u|e|p] m1]; [apply IH|done..].
Qed.

(** C13. On a node that runs no shards yet, creating a collection without replication and the next round
    of the watch loop bring it up: the node then finds a shard for a partition exactly when it is
    one of the members the partition is placed on, and that shard is up, belongs to the
    collection, the partition and the node. *)
Theorem collection_comes_up request (g : Grid A) pid :
  let m := metadata_manager g in
  meta_wf m → default_request request m → (0 ≤ pid < partition_count request)%Z →
  shards m = [] → running (shard_manager g) = ∅ → (last_sync g ≤ watch m)%Z →
  basic (shard_type request) (req_options request) →
  stats_room (Z.of_nat (length (local_shards (Meta.create_collection checks request m).2)))
    (shard_manager g) →
  ∃ m' g', Meta.create_collection checks request m = (Ok (req_name request), m') ∧
  GridM.on_watch (Start.build_and_start env checks empty_tree upsert network_error make None now declares
      routes web engine linkers f) checks (watch m')
    {| metadata_manager := m'; shard_manager := shard_manager g; last_sync := last_sync g |}
  = (Ok tt, g') ∧
  if decide (node_id m ∈ place (members m) <$> seqZ pid (replica_count request))
  then ∃ md s, GridM.get_local_shard (req_name request) pid g' = Some (BasicShard s) ∧ up md s ∧
       sm_collection md = req_name request ∧ sm_partition_id md = as_u16 pid ∧
       sm_owner md = Some (node_id m)
  else GridM.get_local_shard (req_name request) pid g' = None.
Proof using All.
  intros m W D Hpid Hnone Hrun Hls Hb Hroom.
  destruct (create_ok checks request m W D) as (m' & E & W' & Cr). rewrite E in Hroom.
  assert (∀ id md, bt_get id (local_shards m') = Some md → basic_md md) as Hbm.
  { assert (∀ id, bt_get id (local_shards m) = None) as Hl.
    { intros id. destruct (bt_get id (local_shards m)) as [md|] eqn:El; [|done].
      apply (mw_local_keyed m W) in El as [_ Hs]. rewrite Hnone in Hs. by apply is_Some_None in Hs. }
    intros id md. rewrite (cr_local _ _ _ Cr). unfold Metadata.local_get.
    rewrite (cr_shards _ _ _ Cr), Hl, Hnone.
    case_bool_decide; [|done]. case_bool_decide; [by intros [= <-]|done]. }
  assert (Forall (λ ks : Z * ShardMetadata, sm_id ks.2 = ks.1 ∧ basic_md ks.2) (local_shards m')) as Hl.
  { apply Forall_forall. intros [k md] Hin. apply bt_get_elem in Hin; [|apply W'].
    split; [by apply (mw_local_keyed m' W') in Hin as [? _]|by eapply Hbm]. }
  destruct (sync_brings_up (local_shards m') (shard_manager g) Hl) as (sm' & Es & Hr);
    [apply W'|done|].
  exists m', {| metadata_manager := m'; shard_manager := sm'; last_sync := watch m' |}.
  split; [done|]. split.
  { unfold GridM.on_watch, zoom. rewrite (cr_watch _ _ _ Cr). cbn [last_sync].
    rewrite (proj2 (Z.ltb_lt _ _)) by (unfold m in *; lia).
    cbn [shard_manager metadata_manager]. by rewrite Es. }
  assert (∀ id, running sm' !! id = brought_up <$> bt_get id (local_shards m')) as Hall.
  { intros id. by rewrite Hr, Hrun, lookup_empty. }
  unfold GridM.get_local_shard. cbn [metadata_manager shard_manager].
  rewrite (cr_collections _ _ _ Cr), bt_get_insert_eq. cbn [mbind option_bind col_shards].
  rewrite list_lookup_fmap, lookup_seqZ_lt, Z2Nat.id, Z.add_0_l by lia. cbn [fmap option_fmap option_map mbind option_bind].
  set (grp := group (first_free m) (replica_count request) pid).
  pose proof (λ k, created_local request m m' pid k W D Cr Hpid) as Hcl. cbn zeta in Hcl.
  case_decide as Hin.
  - assert (∃ t, Manager.first_running grp sm' = Some t) as [t Et].
    { destruct (Manager.first_running grp sm') as [t|] eqn:Ef; [by exists t|]. exfalso.
      apply list_elem_of_fmap in Hin as (i & Ei & Hi). apply elem_of_seqZ in Hi.
      specialize (Hcl (i - pid)%Z ltac:(lia)). replace (pid + (i - pid))%Z with i in Hcl by lia.
      rewrite decide_True in Hcl by done.
      specialize (proj1 (first_running_None grp sm') Ef
        (first_free m + pid * replica_count request + (i - pid))%Z) as Hno.
      rewrite Hall, Hcl in Hno. assert (None = Some (brought_up (Meta.shard_meta request pid
          (default_assignment (members m) (first_free m) (replica_count request) pid)
          (group (first_free m) (replica_count request) pid) (node_id m)
          (first_free m + pid * replica_count request + (i - pid))))) as [=].
      rewrite <- Hno; [done|]. apply elem_of_seqZ. lia. }
    rewrite Et. apply first_running_Some in Et as (id & Hid & Ht).
    apply elem_of_seqZ in Hid. set (k := (id - (first_free m + pid * replica_count request))%Z).
    specialize (Hcl k ltac:(unfold k; lia)).
    replace (first_free m + pid * replica_count request + k)%Z with id in Hcl by (unfold k; lia).
    rewrite Hall, Hcl in Ht. case_decide as Hown; [|done]. injection Ht as <-.
    set (md := Meta.shard_meta _ _ _ _ _ _) in *.
    destruct (brought_up_basic md (Hbm _ _ Hcl)) as (_ & s & -> & Hup).
    exists md, s. by split_and!.
  - destruct (Manager.first_running grp sm') as [t|] eqn:Ef; [|done]. exfalso.
    apply first_running_Some in Ef as (id & Hid & Ht). apply elem_of_seqZ in Hid.
    set (k := (id - (first_free m + pid * replica_count request))%Z).
    specialize (Hcl k ltac:(unfold k; lia)).
    replace (first_free m + pid * replica_count request + k)%Z with id in Hcl by (unfold k; lia).
    rewrite Hall, Hcl in Ht. case_decide as Hown; [|done]. apply Hin, list_elem_of_fmap.
    exists (pid + k)%Z. split; [done|]. apply elem_of_seqZ. unfold k. lia.
Qed.

End comes_up.

(** ** What the configuration of events does not reach *)

Section ignored.
Context {T K N Tree L : Type} `{SkipMap T} `{Keyspace K} `{!RaftNode N}.
Context (env : bytes → option bytes) (checks : bool) (empty_tree : Tree).
Context (make : AnyStorage T K → Z → bytes → bytes → string + N) (now : Z).

Notation A := (AnyShard (AnyStorage T K) N Tree L).
Notation dynamic := (Factory.create_shard_dynamic_with_pipeline (L := L) env checks empty_tree make now).

(** What of the layer is made with its dispatcher *)
Definition class_pipeline md : EventPipelineConfig :=
  Pipeline.apply_metadata_overrides (sm_options md) (Pipeline.from_env env).

Lemma mst_layer_made md ec o p s : dynamic md ec o p = Ok (MstShard s : A) → ∃ st d,
  AnyS.open_storage_from_options checks (sm_options md) (sm_id md) = Ok st ∧
  (if ep_enabled (class_pipeline md) && ep_mst_sync_events (class_pipeline md)
   then build_event_dispatcher None (Pipeline.with_locality SessionLocal (class_pipeline md))
   else Ok None) = Ok d ∧
  sh_rep (fs_shard s)
  = MstStart.new_with_dispatcher empty_tree st md d (ep_include_entry_values (class_pipeline md)).
Proof.
  unfold Factory.create_shard_dynamic_with_pipeline.
  destruct (AnyS.open_storage_from_options _ _ _) as [st|e|x]; [|done..]. cbn [res_map_err res_bind].
  case_bool_decide.
  { unfold Build.raft_replication. cbn [sb_metadata sb_session Build.storage Build.options Build.session Build.metadata negb].
    destruct (Raft.new _ _ _ _) as [l|e|x]; cbn [res_map_err res_bind]; [|discriminate..].
    destruct (Factory.finish _ _ _ _); discriminate. }
  case_bool_decide; [|destruct (Factory.finish _ _ _ _); discriminate].
  unfold Build.mst_replication.
  cbn [sb_metadata sb_session sb_event_config sb_pipeline Build.storage Build.options Build.session Build.metadata Build.new negb].
  fold (class_pipeline md).
  destruct (if ep_enabled _ && _ then _ else _) as [d|e|x] eqn:Ed; [|done..]. cbn [res_bind].
  unfold Factory.finish, Build.build. set (b := Build.apply_events _ _).
  assert (sb_metadata b = Some md ∧ sb_session b = true ∧
    sb_replication b = MstStart.new_with_dispatcher empty_tree st md d
      (ep_include_entry_values (class_pipeline md))) as (-> & -> & Hr).
  { unfold b, Build.apply_events, Build.apply_pipeline. by destruct ec, p. }
  cbn [negb]. destruct (build_event_dispatcher (sb_event_config b) _) as [d'|e|x]; cbn [res_bind]; [|discriminate..]. intros [= <-].
  exists st, d. cbn. by rewrite Hr.
Qed.

(** The layer of a shard with MST replication is made before the builder is given the events and
    the pipeline of the server: it follows the environment and the options of the class, whatever
    the server was started with, and what it receives from others never runs a trigger. *)
Theorem sync_events_ignore_server md ec ec' o o' p p' s s' :
  dynamic md ec o p = Ok (MstShard s : A) → dynamic md ec' o' p' = Ok (MstShard s' : A) →
  sh_rep (fs_shard s) = sh_rep (fs_shard s') ∧
  let e := class_pipeline md in
  has_trigger_processor <$> m_dispatcher (ml_state (sh_rep (fs_shard s)))
  = (if ep_enabled e && ep_mst_sync_events e then Some false else None) ∧
  ml_sync_publish (sh_rep (fs_shard s))
  = (if ep_enabled e && ep_mst_sync_events e && ep_zenoh_event_publish e then Some SessionLocal else None).
Proof.
  intros (st & d & Est & Ed & Hr)%mst_layer_made (st' & d' & Est' & Ed' & Hr')%mst_layer_made.
  assert (st' = st) as -> by congruence. assert (d' = d) as -> by congruence.
  split; [by rewrite Hr, Hr'|]. rewrite Hr. clear Hr Hr' Est Est' Ed'. cbv zeta.
  revert Ed. generalize (class_pipeline md). intros e Ed.
  destruct e as [[] qb bb [] zp loc iv]; cbn in Ed |- *; [|by injection Ed as <-..].
  unfold build_event_dispatcher in Ed. cbn in Ed.
  destruct (Pipeline.channel_capacity _); [|done]. cbn in Ed.
  destruct (Pipeline.broadcast_capacity _); [|done]. injection Ed as <-. by destruct zp.
Qed.
End ignored.

(** A node that is given neither a number nor its members draws its number twice. When the two
    differ, and they are 64 bits wide, it is not a member of its own grid: the shards of what is
    created on it all belong to the other number, and the node runs none. *)
Theorem nameless_node_runs_nothing {T E} checks conf pipeline id member (request : CreateCollectionRequest) :
  cf_node_id conf = None → cf_members conf = None → id ≠ member → ∃ (g : Grid T) f,
  Server.start_raw_server_with_pipeline conf pipeline id member = (Ok (g, f) : res E _) ∧
  (default_request request (metadata_manager g) → ∃ m',
     Meta.create_collection checks request (metadata_manager g) = (Ok (req_name request), m') ∧
     (∀ k, (0 ≤ k < partition_count request * replica_count request)%Z → is_Some (bt_get (1 + k)%Z (shards m'))) ∧
     ∀ k, bt_get k (local_shards m') = None).
Proof.
  intros Hi Hm Hne. unfold Server.start_raw_server_with_pipeline, Server.get_members, Server.get_node_id.
  rewrite Hi, Hm. cbn [res_bind default]. eexists _, _. split; [reflexivity|]. cbn [metadata_manager].
  intros D. set (m := Meta.new _ _) in *.
  assert (meta_wf m) as W by (split; try done; constructor).
  destruct (create_ok checks request m W D) as (m' & Ec & _ & Cr). exists m'. split; [done|].
  assert (first_free m = 1%Z) as Hf by done. split.
  - intros k Hk. rewrite (cr_shards _ _ _ Cr), Hf. by rewrite bool_decide_true by lia.
  - intros k. rewrite (cr_local _ _ _ Cr). unfold Metadata.local_get. rewrite (cr_shards _ _ _ Cr).
    case_bool_decide; [|done]. cbn [sm_owner nth_shard Meta.shard_meta].
    rewrite bool_decide_false; [done|]. intros [= Hp]. apply Hne. rewrite <- Hp.
    unfold place, m. cbn [members length Meta.new]. by rewrite Z.mod_1_r.
Qed.

(** ** A server that creates a collection *)

Module DemoBuilder.
#[local] Existing Instance demo_codec.
#[local] Existing Instance demo_codec_laws.
#[local] Existing Instance DemoRaft.group_node.

Notation any := (AnyStorage sorted_map sorted_map).

Definition no_env : bytes → option bytes := λ _, None.
Definition no_raft (_ : any) (_ : Z) (_ _ : bytes) : string + DemoRaft.GroupNode := inl "no node".
Definition fns (_ : ShardMetadata) : list (bytes * FuncInvokeRoute) := DemoWasm.wasm_fns.

(** A node that is given its number and the members *)
Definition conf : OdgmConfig := {|
  cf_http_port := 8080; cf_node_id := Some 2%Z; cf_node_addr := None; cf_collection := None;
  cf_members := Some (bs "1,2,3"); cf_events_enabled := true; cf_max_trigger_depth := 10;
  cf_trigger_timeout_ms := 30000; cf_max_string_id_len := 160; cf_granular_prefetch_limit := 256 |}.

Definition request : CreateCollectionRequest :=
  {| req_name := bs "sensors"; partition_count := 3; replica_count := 2;
     shard_assignments := []; shard_type := bs "None"; req_options := ∅ |}.

Definition grid : Grid (AnyShard any DemoRaft.GroupNode unit (WasmExecutorAdapter unit)) :=
  {| metadata_manager := Meta.new 2 [1; 2; 3]%Z; shard_manager := Manager.new; last_sync := 0 |}.
Definition server : res unit (Grid (AnyShard any DemoRaft.GroupNode unit (WasmExecutorAdapter unit)) * UnifiedShardFactory) :=
  Server.start_raw_server conf 7 8.

Definition no_upsert (_ _ : bytes) (_ : unit) : unit := tt.
Definition no_error (_ : ShardMetadata) : option string := None.

(** Partition 1 is placed on nodes 2 and 3: node 2 runs a shard of it, with an executor for its
    functions. *)
Lemma collection_comes_up_witness : ∃ g f md s, server = Ok (g, f) ∧
  (let m' := (Meta.create_collection true request (metadata_manager g)).2 in
   let g' := (GridM.on_watch (Start.build_and_start no_env true tt no_upsert no_error no_raft None 0 (λ _, None)
        fns DemoWasm.files (Some DemoWasm.engine) true f) true (watch m')
      {| metadata_manager := m'; shard_manager := shard_manager g; last_sync := last_sync g |}).2 in
   GridM.get_local_shard (bs "sensors") 1 g' = Some (BasicShard s)) ∧
  sm_owner md = Some 2%Z ∧ fs_ready s = true ∧
  is_Some (io_local (si_offloader (fs_invoker s))).
Proof.
  destruct (collection_comes_up (T:=sorted_map) (K:=sorted_map) no_env true tt no_upsert no_error no_raft 0 fns
    DemoWasm.files (Some DemoWasm.engine) true (Server.factory conf None) request grid 1)
    as (m' & g' & Em & Eg & W); cbv zeta in *.
  - split; try done; constructor.
  - by split.
  - done.
  - done.
  - done.
  - done.
  - split; [by split; vm_compute|by vm_compute|by vm_compute].
  - by vm_compute.
  - rewrite decide_True in W by (vm_compute; by left).
    destruct W as (md & s & Eq & Hup & _ & _ & Ho). exists grid, (Server.factory conf None), md, s.
    split; [reflexivity|]. rewrite Em. cbn [snd]. rewrite Eg. cbn [snd]. split; [exact Eq|]. split; [exact Ho|]. split; [apply Hup|].
    rewrite (up_modules _ _ _ _ _ _ Hup). vm_compute. eauto.
Defined.

Definition shard_md (shard_type : string) : ShardMetadata :=
  {| sm_id := 1; sm_collection := bs "sensors"; sm_partition_id := 0; sm_owner := Some 2%Z;
     sm_primary := Some 1%Z; sm_replica := [1%Z]; sm_replica_owner := [2%Z];
     sm_shard_type := bs shard_type; sm_options := ∅ |}.

Definition create (env : bytes → option bytes) (p : option EventPipelineConfig) (shard_type : string) :
    res ShardError (AnyShard any DemoRaft.GroupNode unit (WasmExecutorAdapter unit)) :=
  Factory.create_shard_from_metadata env true tt no_raft None 0 (Server.factory conf p) (shard_md shard_type).

(** Of a queue without room a shard cannot be made; an unknown number is the default. *)
Example no_room :
  let bound v := λ name, if bool_decide (name = bs "ODGM_EVENT_QUEUE_BOUND") then Some (bs v) else None in
  create (bound "0") None "none" = Panic "mpsc bounded channel requires buffer > 0" ∧
  is_Some (ok_opt (create (bound "many") None "none")).
Proof. split; vm_compute; eauto. Qed.

(** A server that asks for events of what is received from others has none. *)
Example sync_events_lost : ∃ s,
  create no_env (Some (Pipeline.with_local_publish no_env)) "mst" = Ok (MstShard s) ∧
  m_dispatcher (ml_state (sh_rep (fs_shard s))) = None ∧
  (has_trigger_processor <$> sh_dispatcher (fs_shard s)) = Some true ∧
  fs_publish s = Some SessionLocal.
Proof. eexists. split; [vm_compute; reflexivity|]. by vm_compute. Qed.

(** Without events the server drops the pipeline it is given. *)
Example override_dropped :
  let quiet := {| cf_http_port := 8080; cf_node_id := None; cf_node_addr := None; cf_collection := None;
                  cf_members := None; cf_events_enabled := false; cf_max_trigger_depth := 10;
                  cf_trigger_timeout_ms := 30000; cf_max_string_id_len := 160;
                  cf_granular_prefetch_limit := 256 |} in
  sf_event_pipeline_config (Server.factory quiet (Some Pipeline.disabled)) = None ∧
  sf_event_pipeline_config (Server.factory conf (Some Pipeline.disabled)) = Some Pipeline.disabled.
Proof. done. Qed.

(** The types are told apart without regard to case; what is not known is not replicated, and a
    Raft instance that cannot be made fails the shard. *)
Example shard_types :
  create no_env None "RAFT"
  = Err (SReplicationError (ConsensusError "Failed to create Raft: no node")) ∧
  (∃ s, create no_env None "Mst" = Ok (MstShard s)) ∧ (∃ s, create no_env None "crdt" = Ok (BasicShard s)).
Proof. split; [by vm_compute|]. split; eexists; vm_compute; reflexivity. Qed.

(** An interval of zero stops the publication of the layer's pages before the first. *)
Example never_published :
  let md := {| sm_id := 1; sm_collection := bs "sensors"; sm_partition_id := 0; sm_owner := Some 2%Z;
               sm_primary := Some 1%Z; sm_replica := [1%Z]; sm_replica_owner := [2%Z];
               sm_shard_type := bs "mst"; sm_options := {[bs "mst_sync_interval" := bs "0"]} |} in
  let l := (MstStart.initialize no_upsert no_error
              (MstStart.new_with_dispatcher tt (ASkipList SkipList.new : any) md None false)).2 in
  ml_ready l = true ∧ ml_network l = true ∧ ml_publication l = None.
Proof. by vm_compute. Qed.

(** Members that are not numbers end the server. *)
Example bad_members :
  (Server.start_raw_server (T:=unit) (E:=unit)
     {| cf_http_port := 8080; cf_node_id := Some 1%Z; cf_node_addr := None; cf_collection := None;
        cf_members := Some (bs "1, 2"); cf_events_enabled := true; cf_max_trigger_depth := 10;
        cf_trigger_timeout_ms := 30000; cf_max_string_id_len := 160; cf_granular_prefetch_limit := 256 |} 0 0)
  = Panic "called `Result::unwrap()` on an `Err` value".
Proof. by vm_compute. Qed.
End DemoBuilder.
