(* ===== verification/EventFeed.v ===== *)
(** * Events over WebSocket

    The publication of events in [odgm/events/dispatcher.rs] ([run_event_consumer]) and the
    handlers of [data-plane/oprc-gateway/src/handler/ws.rs]: what a shard publishes for the events
    it processed, the topics a client subscribes to, and the loop between the subscription and the
    client. JSON and the repair of texts that are not UTF-8 are parameters; Zenoh matches keys as
    in [ShardService] and delivers in the order of publication. *)

From stdpp Require Import base tactics list numbers option gmap sorting strings.
From Stdlib Require Import Lia.
From S2P Require Import Prelude BTree Backend Memory Replication StorageKey GranularKey Identity.
From S2P Require Import Events ObjectData Shard EntryStore AnyStorage ShardNetwork Gateway ShardService ShardBuilder.

Set Default Proof Using "Type".
Open Scope prog_scope.

(** ** Publication *)

Record Publication := { pb_topic : bytes; pb_payload : bytes; pb_locality : Locality }.

Module Publish.
Section publish.
(** [serde_json::to_vec], which may fail *)
Context (json : ZenohEventPayload → option bytes).

Definition topic (c : MutationContext) : bytes :=
  bs "oprc/" ++ cls_id c ++ bs "/" ++ Proxy.decimal (partition_id c) ++ bs "/events/" ++ object_id c.

Definition publish (zenoh_session : option Locality) (evt : QueuedEvent) : list Publication :=
  match zenoh_session with
  | Some locality =>
      match json (from_queued_event evt) with
      | Some b => [{| pb_topic := topic (ctx evt); pb_payload := b; pb_locality := locality |}]
      | None => []
      end
  | None => []
  end.

(** One round of [run_event_consumer]: an event that was processed is published as it is sent to the
    broadcast channel. *)
Definition consume_one (fanout_cap sample_limit : nat) (zenoh_session : option Locality) (d : Dispatcher) :
    Dispatcher * list Publication :=
  let d' := Dispatch.consume_one fanout_cap sample_limit d in
  (d', drop (length (broadcast d)) (broadcast d') ≫= publish zenoh_session).

(** The loop, until the queue is empty *)
Fixpoint run_event_consumer (rounds : nat) (fanout_cap sample_limit : nat)
    (zenoh_session : option Locality) (d : Dispatcher) : Dispatcher * list Publication :=
  match rounds with
  | O => (d, [])
  | S rounds =>
      let '(d, ps) := consume_one fanout_cap sample_limit zenoh_session d in
      let '(d, qs) := run_event_consumer rounds fanout_cap sample_limit zenoh_session d in
      (d, ps ++ qs)
  end.
End publish.

(** Whether a subscriber receives a publication, by its session *)
Definition reaches (l : Locality) (same_session : bool) : bool :=
  match l with SessionLocal => same_session | RemoteOnly => negb same_session | AnyLocality => true end.
End Publish.

(** ** The handlers *)

(** What the loop waits for: a sample, with whether sending it on succeeds; the end of the
    subscription; what the client sends; and the end of the connection. *)
Inductive WsInput : Type :=
| WsSample (payload : bytes) (sent : bool)
| WsSubscriberClosed
| WsClose
| WsPing (data : bytes)
| WsOther
| WsGone.

Inductive WsFrame : Type :=
| FText (text : bytes)
| FPong (data : bytes)
| FClose (code : Z) (reason : bytes).

Module Ws.
Definition object_topic (cls : bytes) (pid : Z) (oid : bytes) : bytes :=
  bs "oprc/" ++ cls ++ bs "/" ++ Proxy.decimal pid ++ bs "/events/" ++ to_ascii_lowercase oid.
Definition partition_topic (cls : bytes) (pid : Z) : bytes :=
  bs "oprc/" ++ cls ++ bs "/" ++ Proxy.decimal pid ++ bs "/events/**".
Definition class_topic (cls : bytes) : bytes := bs "oprc/" ++ cls ++ bs "/*/events/**".

Section handler.
(** [String::from_utf8_lossy] *)
Context (lossy : bytes → bytes).

(** The frames sent; whatever comes after the loop ended is not looked at. *)
Fixpoint forward (inputs : list WsInput) : list WsFrame :=
  match inputs with
  | [] => []
  | WsSample payload true :: inputs => FText (lossy payload) :: forward inputs
  | WsSample _ false :: _ | WsSubscriberClosed :: _ | WsClose :: _ | WsGone :: _ => []
  | WsPing data :: inputs => FPong data :: forward inputs
  | WsOther :: inputs => forward inputs
  end.

(** [handle_ws]: subscribing may fail with a text. *)
Definition handle_ws (subscribe_error : option bytes) (inputs : list WsInput) : list WsFrame :=
  match subscribe_error with
  | Some e => [FClose 1011 (bs "Zenoh subscribe failed: " ++ e)]
  | None => forward inputs
  end.

Definition ws_object_handler (error : bytes → option bytes) (cls : bytes) (pid : Z) (oid : bytes) :
    list WsInput → list WsFrame :=
  handle_ws (error (object_topic cls pid oid)).
Definition ws_partition_handler (error : bytes → option bytes) (cls : bytes) (pid : Z) :
    list WsInput → list WsFrame :=
  handle_ws (error (partition_topic cls pid)).
Definition ws_class_handler (error : bytes → option bytes) (cls : bytes) : list WsInput → list WsFrame :=
  handle_ws (error (class_topic cls)).
End handler.

(** What a subscription receives of the publications, when the client stays *)
Definition samples (intersects : bytes → bytes → bool) (same_session : bool) (topic : bytes)
    (ps : list Publication) : list WsInput :=
  (λ p, WsSample (pb_payload p) true) <$>
    filter (λ p, intersects topic (pb_topic p) && Publish.reaches (pb_locality p) same_session = true) ps.
End Ws.

(** ** The loop *)

(** A client that stays is sent exactly what arrives for it, in order. *)
Lemma forward_app lossy l1 l2 :
  Forall (λ i, match i with WsSample _ true | WsPing _ | WsOther => True | _ => False end) l1 →
  Ws.forward lossy (l1 ++ l2) = Ws.forward lossy l1 ++ Ws.forward lossy l2.
Proof.
  induction 1 as [|i l1 Hi _ IH]; [done|]. destruct i as [p []| | | | |]; try done; simpl; by rewrite IH.
Qed.

Lemma forward_samples lossy (l : list bytes) :
  Ws.forward lossy ((λ p, WsSample p true) <$> l) = (λ p, FText (lossy p)) <$> l.
Proof. induction l as [|p l IH]; [done|]. rewrite !fmap_cons. cbn [Ws.forward]. by rewrite IH. Qed.

(** ** Topics *)

Section topics.
Context (intersects : bytes → bytes → bool) `{!KeyExprs intersects}.
Implicit Types (c : MutationContext) (cls oid : bytes) (pid : Z).

(** An event of an object that can be addressed *)
Record plain_event c : Prop := {
  pe_cls : plain_seg (cls_id c);
  pe_obj : plain_seg (object_id c);
  pe_pid : is_u16 (partition_id c);
}.

Definition segs_of c : list bytes :=
  [bs "oprc"; cls_id c; Proxy.decimal (partition_id c); bs "events"; object_id c].

Lemma topic_segs c : Publish.topic c = address (segs_of c).
Proof. done. Qed.

Lemma segs_plain c : plain_event c → Forall plain_seg (segs_of c).
Proof.
  intros [Hc Ho _]. repeat (apply Forall_cons_2 || apply Forall_nil_2); try done;
    try apply decimal_plain; (split; [done|decide_now]).
Qed.

(** A subscription to segments that end in [**] or not at all *)
Lemma topic_matches pats c : plain_event c → Forall no_slash pats → bs "**" ∉ removelast pats →
  intersects (address pats) (Publish.topic c) = pattern_matches pats (segs_of c).
Proof using Type*. intros Hc Hp Hd. rewrite topic_segs. apply ke_law; [done|by apply segs_plain|done|done]. Qed.

Lemma plain_not_any seg : plain_seg seg → seg ≠ bs "*" ∧ seg ≠ bs "**".
Proof.
  intros [_ Hf]. rewrite Forall_forall in Hf.
  split; intros ->; (apply (Hf Byte.x2a); [by left|decide_now]).
Qed.

Lemma decimal_eq a b : is_u16 a → is_u16 b → Proxy.decimal a = Proxy.decimal b → a = b.
Proof.
  unfold is_u16, u16_max. intros Ha Hb E. apply to_decimal_inj in E; [done|simpl; lia..].
Qed.

Lemma seg_step p pats s segs : plain_seg p →
  pattern_matches (p :: pats) (s :: segs) = bool_decide (p = s) && pattern_matches pats segs.
Proof.
  intros [H1 H2]%plain_not_any. cbn [pattern_matches].
  by rewrite (bool_decide_false (p = bs "**")), (bool_decide_false (p = bs "*")) by done.
Qed.
End topics.

(** *** Which events a subscription receives *)

Section feeds.
Context (intersects : bytes → bytes → bool) `{!KeyExprs intersects}.
Context (json : ZenohEventPayload → option bytes) (lossy : bytes → bytes).
Implicit Types (c : MutationContext) (d : Dispatcher).

(** The subscriptions of the three handlers, with the events they ask for *)
Inductive feed : bytes → (MutationContext → bool) → Prop :=
| FeedObject cls pid oid : plain_seg cls → is_u16 pid → plain_seg (to_ascii_lowercase oid) →
    feed (Ws.object_topic cls pid oid)
      (λ c, bool_decide (cls_id c = cls) && bool_decide (partition_id c = pid) &&
            bool_decide (object_id c = to_ascii_lowercase oid))
| FeedPartition cls pid : plain_seg cls → is_u16 pid →
    feed (Ws.partition_topic cls pid)
      (λ c, bool_decide (cls_id c = cls) && bool_decide (partition_id c = pid))
| FeedClass cls : plain_seg cls →
    feed (Ws.class_topic cls) (λ c, bool_decide (cls_id c = cls)).

Lemma decimal_decide a b : is_u16 a → is_u16 b →
  bool_decide (Proxy.decimal a = Proxy.decimal b) = bool_decide (b = a).
Proof. intros Ha Hb. apply bool_decide_ext. split; [intros ?%decimal_eq; done|by intros ->]. Qed.

Lemma seg_decide (a b : bytes) : bool_decide (a = b) = bool_decide (b = a).
Proof. apply bool_decide_ext. by split. Qed.

Lemma feed_matches topic wanted c : feed topic wanted → plain_event c →
  intersects topic (Publish.topic c) = wanted c.
Proof using Type*.
  intros Hf Hc. pose proof (pe_pid _ Hc) as Hpid. pose proof decimal_plain as Hd.
  assert (plain_seg (bs "oprc") ∧ plain_seg (bs "events")) as [Ho He] by (split; (split; [done|decide_now])).
  assert (∀ l, Forall plain_seg l → Forall no_slash l) as Hns.
  { intros l Hl. eapply Forall_impl; [exact Hl|apply plain_no_slash]. }
  assert (∀ l, Forall plain_seg l → bs "**" ∉ l) as Hany.
  { intros l Hl Hin. rewrite Forall_forall in Hl. by apply (plain_not_any _ (Hl _ Hin)). }
  pose proof plain_no_slash as Hns1.
  assert (no_slash (bs "**") ∧ no_slash (bs "*")) as [Hs2 Hs1] by (split; (split; [decide_now|done])).
  destruct Hf as [cls pid oid H1 H2 H3|cls pid H1 H2|cls H1].
  - change (Ws.object_topic cls pid oid)
      with (address [bs "oprc"; cls; Proxy.decimal pid; bs "events"; to_ascii_lowercase oid]).
    assert (Forall plain_seg [bs "oprc"; cls; Proxy.decimal pid; bs "events"]) as Hp by auto.
    rewrite topic_matches; [|done|done|apply Hns; auto 10|by apply Hany].
    unfold segs_of. rewrite !seg_step by done. cbn [pattern_matches].
    rewrite !(bool_decide_true (bs _ = bs _)) by done. cbn [andb]. rewrite andb_true_r, decimal_decide by done.
    by rewrite (seg_decide cls), (seg_decide (to_ascii_lowercase oid)), <- andb_assoc.
  - change (Ws.partition_topic cls pid)
      with (address [bs "oprc"; cls; Proxy.decimal pid; bs "events"; bs "**"]).
    assert (Forall plain_seg [bs "oprc"; cls; Proxy.decimal pid; bs "events"]) as Hp by auto.
    rewrite topic_matches; [|done|done|repeat (apply Forall_cons_2 || apply Forall_nil_2); auto|by apply Hany].
    unfold segs_of. rewrite !seg_step by done. cbn [pattern_matches].
    rewrite !(bool_decide_true (bs _ = bs _)) by done. cbn [andb].
    rewrite !(bool_decide_true ([] = [])) by done. cbn [andb].
    by rewrite andb_true_r, decimal_decide, (seg_decide cls) by done.
  - change (Ws.class_topic cls) with (address [bs "oprc"; cls; bs "*"; bs "events"; bs "**"]).
    rewrite topic_matches; [|done|done|repeat (apply Forall_cons_2 || apply Forall_nil_2); auto|].
    2:{ simpl. rewrite !not_elem_of_cons. destruct (plain_not_any _ H1) as [_ Hn].
        split_and!; [done|by intros E|done|done|apply not_elem_of_nil]. }
    assert (∀ x y, pattern_matches [bs "*"; bs "events"; bs "**"] [x; bs "events"; y] = true) as Hr by done.
    unfold segs_of. rewrite !seg_step, Hr by done. rewrite (bool_decide_true (bs _ = bs _)) by done.
    by rewrite andb_true_r, (seg_decide cls).
Qed.

Lemma process_keys_frame cap c cks n d :
  let d' := (Dispatch.process_keys cap c cks n d).2 in
  d_queue d' = d_queue d ∧ broadcast d' = broadcast d.
Proof.
  revert n d. induction cks as [|ck cks IH]; intros n d; [done|]. cbn [Dispatch.process_keys].
  destruct (cap <=? n)%nat; [done|]. destruct (IH (S n) (Dispatch.process_key c ck d)) as [-> ->].
  unfold Dispatch.process_key. repeat case_match; done.
Qed.

Lemma consume_publishes cap lim loc evt q d : d_queue d = evt :: q →
  d_queue (Publish.consume_one json cap lim loc d).1 = q ∧
  (Publish.consume_one json cap lim loc d).2 = Publish.publish json loc evt.
Proof.
  intros Hq. unfold Publish.consume_one, Dispatch.consume_one. rewrite Hq. cbn [fst snd].
  set (d1 := Dispatch.upd_queue _ _ _ _ _).
  destruct (process_keys_frame cap (ctx evt) (changed (ctx evt)) 0 d1) as [Hq' Hb].
  destruct (Dispatch.process_keys _ _ _ _ d1) as [n d2]. cbn in *. rewrite Hq', Hb.
  split; [done|]. rewrite drop_app_length. cbn. by rewrite app_nil_r.
Qed.

(** Everything queued is published, in order. *)
Lemma run_publishes cap lim loc d :
  let r := Publish.run_event_consumer json (length (d_queue d)) cap lim loc d in
  d_queue r.1 = [] ∧ r.2 = d_queue d ≫= Publish.publish json loc.
Proof.
  remember (d_queue d) as q eqn:Hq. symmetry in Hq. revert d Hq.
  induction q as [|evt q IH]; intros d Hq; [done|]. cbn [length Publish.run_event_consumer].
  destruct (consume_publishes cap lim loc evt q d Hq) as [Hq' Hp].
  destruct (Publish.consume_one _ _ _ _ d) as [d1 ps]. cbn in Hq', Hp. subst ps.
  destruct (IH d1 Hq') as [H1 H2]. destruct (Publish.run_event_consumer _ _ _ _ _ d1) as [d2 qs].
  cbn in *. by subst.
Qed.

End feeds.

(** The identifier a client names is not checked: [**] is every object of the partition. *)
Lemma any_object cls pid : Ws.object_topic cls pid (bs "**") = Ws.partition_topic cls pid.
Proof. done. Qed.

(** ** A client of one object *)

Module DemoFeed.
Definition evt (obj : string) (v : Z) : QueuedEvent :=
  {| seq := v; ctx := {| object_id := bs obj; cls_id := bs "cls"; partition_id := 0; version_before := v - 1;
       version_after := v; changed := []; source := Local; event_config := None |}; summary := None |}.

Definition queued : Dispatcher :=
  let d := Dispatch.new 8 false in
  foldl (λ d e, (Dispatch.try_send (ctx e) d).2) d [evt "o" 1; evt "p" 1; evt "o" 2].
(** A text of the object and its version stands for the JSON. *)
Definition json (p : ZenohEventPayload) : option bytes :=
  Some (z_object_id p ++ bs "@" ++ to_decimal 20 (z_version p)).
Definition received (loc : Locality) : list WsFrame :=
  Ws.handle_ws id None (Ws.samples DemoGateway.matches true (Ws.object_topic (bs "cls") 0 (bs "O"))
    (Publish.run_event_consumer json 3 256 32 (Some loc) queued).2).


(** A client is answered until it leaves; a subscription that fails closes the connection. *)
Example session_ends :
  Ws.handle_ws id None [WsPing (bs "1"); WsSample (bs "a") true; WsOther; WsClose; WsSample (bs "b") true]
  = [FPong (bs "1"); FText (bs "a")] ∧
  Ws.ws_object_handler id (λ _, Some (bs "bad key")) (bs "cls") 0 (bs "a//b") [WsPing (bs "1")]
  = [FClose 1011 (bs "Zenoh subscribe failed: bad key")].
Proof. by vm_compute. Qed.
End DemoFeed.
